(* ===== verification/_CoqProject ===== *)
-Q . S2P
Prelude.v
Reader.v
Value.v
Resource.v
AsyncState.v
Waitable.v
WaitableInv.v
IntOps.v
Types.v
ExecStack.v
Numeric.v
Memory.v
TypeEq.v
TypeReader.v
Context.v
OpTables.v
Validator.v
ValidatorSteps.v
ValidatorFrames.v
ValidatorRun.v
ValidatorPaths.v
ValidatorTrace.v
Unicode.v
TypeGraph.v
Strings.v
StringCodec.v
StringSpec.v
StringLower.v
Canonical.v
TypeTrees.v
CanonicalSpec.v
CanonicalValue.v
CanonicalHeap.v
CanonicalRound.v
CanonicalFlat.v
ValueRoundtrip.v
FlatRoundtrip.v
HostValues.v
Buffer.v
BufferRelay.v
Sections.v
Loading.v
Modules.v
Semantic.v
Interp.v
InterpBlocks.v
InterpFuel.v
InterpSim.v
InterpData.v
InterpControl.v
InterpSound.v
Soundness.v
ModuleSafety.v
