(* ===== verification/Prelude.v ===== *)
(** * TurboWasm: a verification library

    TurboWasm is a WebAssembly runtime in C: it reads a module, validates it,
    instantiates it and runs it in an interpreter (or in a JIT back end), and it
    hosts components with their handles. This library models the path of a
    function from its bytes to its results, and the table of component handles,
    as Rocq functions that follow the source statement by statement, and proves
    what these parts promise to each other.

    ** The program and the files that model it

    Bytes to types.
    - [Reader] (src/reader.c): the bounded reader, a pair of pointers into the
      module, with its fixed-width and LEB128 decoders.
    - [Types], [Context] (src/validation_context.h and .c): the records of the
      validator and the index spaces of a module with their lookups and appends.
    - [TypeReader] (src/validate_type.c, src/validate_composite.c): the readers
      of value, heap and reference types, and both passes over the type section.
    - [TypeEq] (src/validate_composite.c, src/validation_context.c): equality of
      type definitions by recursion groups, and subtyping.

    Types to accepted bodies.
    - [OpTables] (src/atomic.c, src/validate_simd_table.c): the descriptor tables
      of the threads and SIMD instructions.
    - [Validator] (src/validate_instr.c): the type stack, the control frames,
      every instruction, constant expressions and the loop over a body.
    - [ValidatorSteps], [ValidatorFrames], [ValidatorRun], [ValidatorPaths],
      [ValidatorTrace]: no code, but the theory of the validator: what one step may
      touch, which steps open, turn around and close a frame, the runs of the loop as
      a transition relation with its invariant, where a branch of an accepted body
      lands, and the instructions of a body with the annotation of each block.

    Sections to a module.
    - [Unicode] (src/validate_linkage.c): the check of names.
    - [Sections] (src/validate_linkage.c, src/validate_data.c,
      src/validate_element.c, src/validate.c, src/module.c): every section reader,
      constant expressions, the loop over the sections and the loader.
    - [Loading], [Modules]: no code, but what each section leaves behind, the
      invariant of a load between two sections, and what an accepted module
      satisfies.

    Accepted bodies to results.
    - [Value] (include/turbowasm/value.h, src/value.c, src/instance.c): the
      tagged values of the runtime.
    - [ExecStack] (src/instance.c): operand stack, control stack, branches.
    - [IntOps], [Numeric] (src/instance.c): integer helpers and instructions.
    - [Memory] (src/instance_state.c, src/instance.c): linear memories, shared
      between instances by imports: loads, stores, copies, fills, growth, atomics.
    - [Semantic] (src/store.c, src/instance.c): references of the collector, and the
      check of arguments and results against their types.
    - [Interp] (src/instance.c): a call of [turbowasm_exec_function] on a function of
      the module: the arguments, the dispatch loop with the checkpoint that spends
      fuel, and the results.
    - [InterpBlocks], [InterpFuel], [InterpSim], [InterpData], [InterpControl],
      [InterpSound], [Soundness]: no code, but the proof that the interpreter
      follows the validator.
    - [ModuleSafety]: no code; the chain from the bytes of a module to a call.

    Handles, events, types and values of components.
    - [Resource] (src/component_resource.c): the slot table of component handles
      with generations, lends and borrow scopes.
    - [AsyncState] (src/component_async_state.c): the state machines of subtasks
      and of the ends of streams and futures.
    - [Waitable] (src/component_waitable.c): waitables and waitable sets over the
      handle table; [WaitableInv] is their theory.
    - [Strings] (src/component_string.c): strings of the canonical ABI between the
      host and a guest's memory; [StringCodec], [StringSpec] and [StringLower] are
      their theory.
    - [TypeGraph] (src/component_type_graph.c): the types of a component as a graph
      of nodes, its construction, validation, features and equality; [TypeTrees] is
      the theory of the types that a graph denotes.
    - [Canonical] (src/component_canonical.c): layout, flattening and core signatures
      of component types; [CanonicalSpec] states them as the canonical ABI does.
    - [CanonicalValue] (src/component_canonical.c): component values, their way into
      and out of a guest's memory, their release and the check of a host's values;
      [CanonicalFlat] (same file): component values as core values.
    - [CanonicalHeap], [CanonicalRound], [ValueRoundtrip], [FlatRoundtrip],
      [HostValues]: no code, but the theory of values. [CanonicalHeap] states as the
      class [GuestHeap] what a guest's [realloc] has to promise (its blocks are inside
      the memory, apart, aligned as asked and keep their bytes); the theorems hold
      for every instance, and [ValueRoundtrip] has one that grows the memory. A
      host's handles are parameters: what it knows of them, and the callbacks that
      turn a handle into a value and back.
    - [Buffer] (src/component_buffer.c): the buffers that the ends of streams and
      futures lend, and the copy of a batch between them; [BufferRelay] is its theory.

    A C function that can fail returns a [turbowasm_status]; a model of it returns
    the status with the state it leaves behind, or runs in the monad of its
    component ([parse] for readers, [ld] for section readers, [vm] for the validator, [exec], [mexec] and
    [im] for the interpreter), which stops at the first status that is not OK and
    keeps the state reached there. Pointers into the module are offsets, pointers
    to types, instances and memories are positions in the list that holds them, so
    sharing is kept. Integers are numbers in [Z] with their wrap-around written
    out ([u32], [s64], ...). The allocator belongs to the host: whether it grants a
    request is a parameter of every function that grows an array.

    ** What the theorems show

    - Loading: an accepted module is consistent as a whole and all its bodies are
      validated ([module_validated]), its sections come in order
      ([sections_in_order]), its names are UTF-8 ([names_are_utf8]), and loading
      ends ([loading_terminates]). Every call of a function of an accepted module
      with arguments of its types is safe, up to the instructions outside the model
      ([accepted_modules_are_safe]).
    - Soundness: a body the validator accepts runs in the interpreter without
      ever meeting a malformed instruction, an operand of a wrong kind or a
      missing annotation; the results it returns pass the check against the result
      types, or it has trapped, run out of memory, been stopped from outside, failed
      the final check of a reference result, or reached an instruction outside the
      model ([accepted_bodies_are_safe]). The invariant behind it follows the kinds of
      values, not the types of what references refer to, so that last check is a
      possible end for functions with reference results. The interpreter decodes
      block types as the validator did ([block_signatures_agree]); there is exactly one
      annotation per block, with the right offsets ([annotations_complete]). With a
      limit on fuel a call ends or leaves the model ([fuel_bounds_execution]).
      [managed_externref_not_assigned] shows why collector references are left out as
      externref arguments.
    - The validator: its stacks and its journal stay within their arrays and its
      loop ends ([validator_memory_safe], [validation_terminates]); the type section
      yields well-formed types ([type_section_checked]); the comparison of types
      decides the structural equality and the subtyping of the specification, and
      its nesting is bounded ([type_equality_is_structural],
      [value_matching_is_subtyping], [subtyping_is_sound],
      [comparison_depth_bounded]).
    - The decoders accept exactly the LEB128 grammar of their width and never look
      outside their window ([uleb_decoders_correct], [sleb_decoders_correct],
      [decoders_confined]).
    - The integer instructions implement the numerics of the specification, traps
      and rejections included ([binary_handlers_refine_spec] and its siblings); the
      stacks keep their discipline ([branch_unwinds], [nesting_preserved],
      [rebase_exact]).
    - Memories: accesses are granted exactly inside the memory, stored values are
      loaded back, copies behave as if the source were read first, growth is exact,
      atomic accesses are exact, imports alias, and any sequence of operations keeps
      every memory consistent ([memory_invariant] and its siblings).
    - Handles: a fresh handle never collides, a stale one never resolves, a lent
      resource stays, a failed operation changes nothing (but a drop whose destructor
      fails has removed its entry), a drop destroys once, and
      any sequence of operations keeps the table well formed ([table_invariant] and
      its siblings).
    - Events: subtasks and endpoints follow their protocols whatever their owners do
      ([subtask_protocol], [endpoint_protocol]); handles, waitables and sets stay
      consistent ([waitables_consistent]); a poll serves the first ready member
      ([set_poll_exact]) and starves none ([poll_is_fair]).
    - Strings: what is lowered is lifted again unchanged ([string_roundtrip], with the
      one exception it states), and only well-formed text is lifted
      ([lifted_strings_are_text]).
    - Component types: the comparison decides equality of the trees that two types
      unfold to within 64 levels ([component_type_equality]); sizes, alignments and core signatures
      are those of the canonical ABI ([layout_refines_abi],
      [signatures_follow_abi]).
    - Component values: what is lowered into a guest's memory is lifted from there
      again and nothing else in use changes ([value_roundtrip]); what is lowered to
      core values has the types of the flat form and is lifted again
      ([flat_roundtrip]); a host's value is admitted exactly when it has the type
      ([admission_is_typing]). A batch that a host writes into a guest's buffer is
      what a host reads out of it, or stays with its writer ([buffers_relay]). Values
      with handles are outside these four. The round trips take the host's allocations
      to succeed and strings to have at most half the limit on their size.

    ** Bounds

    Loops that are not structural carry a bound. The LEB128 loops get one round
    more than the longest encoding; the doubling loops that grow an array get 33
    rounds, enough for any 32-bit capacity; the validator's loop gets one round
    per byte of the body, and [validation_terminates] shows that it never needs
    more; the loop over the sections gets one round per byte, a constant
    expression one more ([loading_terminates]), the check of a name likewise
    ([names_are_utf8]); the comparison of types nests at most as deep as the dependency depth
    that the reader computes, at most 256; the resolution of imported memories
    follows at most as many links as there are instances ([resolve_terminates]); walks
    over component types descend at most 64 levels, as the code does. The
    interpreter's loop may run forever: [exec_loop] takes the number of rounds and
    says [Running] when they are used up; the theorems hold for every number. The
    checkpoint takes the number of times it may be suspended likewise.

    ** Not modelled

    The cases of the dispatch loop for calls, exceptions, globals, tables,
    floating point, vectors, GC objects and atomics stop the model of the loop
    with [NotModelled]; [outside_model] lists the opcodes. Calls of imported functions
    are not modelled, and of the collector only what a reference resolves to. The
    instantiation is not modelled, nor are artifacts,
    the pairing of stream ends, component execution and the tasks on top of
    waitables. The JIT back end generates code for a library whose sources are not part
    of the repository; WASI, the host adapters and the tools are input and output;
    the guest C library is vendored. Locks and waiting of threads are not modelled:
    an operation on a memory is one step. *)

From stdpp Require Export prelude.
From Stdlib Require Export ZArith Lia.
From Stdlib Require Import Btauto.

#[global] Open Scope Z_scope.

(** ** Machine integers

    A C integer of width [w] is a [Z]; a result the source computes in an
    unsigned type is reduced modulo [2^w], and a signed value is read off its
    bit pattern by [to_signed]. *)

Definition wrap (w z : Z) : Z := z mod 2 ^ w.

Definition to_signed (w z : Z) : Z :=
  if z <? 2 ^ (w - 1) then z else z - 2 ^ w.

Abbreviation u8 := (wrap 8).
Abbreviation u16 := (wrap 16).
Abbreviation u32 := (wrap 32).
Abbreviation u64 := (wrap 64).
Abbreviation s8 := (to_signed 8).
Abbreviation s16 := (to_signed 16).
Abbreviation s32 := (to_signed 32).
Abbreviation s64 := (to_signed 64).

Declare Scope cint_scope.
Delimit Scope cint_scope with cint.
Infix ".&" := Z.land (at level 45, left associativity) : cint_scope.
Infix ".|" := Z.lor (at level 48, left associativity) : cint_scope.
Infix ".^" := Z.lxor (at level 47, left associativity) : cint_scope.
#[global] Open Scope cint_scope.

Definition UINT32_MAX : Z := 4294967295.
Definition UINT64_MAX : Z := 18446744073709551615.
Definition INT32_MIN : Z := -2147483648.
Definition INT64_MIN : Z := -9223372036854775808.

(** [is_uint w z]: [z] is a value of the unsigned C type of width [w];
    [is_sint] is the signed (two's complement) counterpart. *)
Definition is_uint (w z : Z) : Prop := 0 <= z < 2 ^ w.
Definition is_sint (w z : Z) : Prop := - 2 ^ (w - 1) <= z < 2 ^ (w - 1).

#[global] Instance is_uint_dec w z : Decision (is_uint w z).
Proof. unfold is_uint. apply _. Defined.
#[global] Instance is_sint_dec w z : Decision (is_sint w z).
Proof. unfold is_sint. apply _. Defined.

(** ** Bit-level automation

    The database [zbits] rewrites [Z.testbit] of every operator of the model;
    [zbits] reduces an equality of integers to an equality of bits and closes
    it by case analysis on the index comparisons. *)

Lemma testbit_wrap w z i : 0 <= w -> Z.testbit (wrap w z) i = (i <? w) && Z.testbit z i.
Proof. apply Z.testbit_mod_pow2. Qed.

Lemma testbit_uint w z i : is_uint w z -> w <= i -> Z.testbit z i = false.
Proof.
  intros [Hz Hlt] Hi.
  destruct (decide (0 <= w)) as [Hw|Hw].
  - rewrite <- (Z.mod_small z (2 ^ w)) by lia. apply Z.mod_pow2_bits_high. lia.
  - rewrite Z.pow_neg_r in Hlt by lia. lia.
Qed.

Create Rewrite HintDb zbits.
#[export] Hint Rewrite Z.land_spec Z.lor_spec Z.lxor_spec Z.bits_0 : zbits.
#[export] Hint Rewrite Z.shiftl_spec Z.shiftr_spec testbit_wrap Z.testbit_mod_pow2
  Z.testbit_ones_nonneg Z.lnot_spec using lia : zbits.

Ltac zbits_cases :=
  repeat match goal with
  | |- context [Z.ltb ?a ?b] => destruct (Z.ltb_spec a b)
  | |- context [Z.leb ?a ?b] => destruct (Z.leb_spec a b)
  | |- context [Z.eqb ?a ?b] => destruct (Z.eqb_spec a b)
  end.

Ltac zbits :=
  apply Z.bits_inj'; intros ?i ?Hi;
  autorewrite with zbits;
  zbits_cases;
  repeat match goal with
  | |- context [Z.testbit ?z ?i] => rewrite (Z.testbit_neg_r z i) by lia
  end;
  rewrite ?andb_false_r, ?andb_true_r, ?orb_false_r, ?orb_true_r, ?andb_false_l,
    ?orb_false_l;
  try reflexivity; try lia; try btauto.

(** Linear arithmetic with divisions and remainders by constants. *)
Ltac zdiv := Z.to_euclidean_division_equations; lia.

(** Splitting a power of two at a lower one. *)
Lemma pow2_split m n : 0 <= m <= n -> 2 ^ n = 2 ^ m * 2 ^ (n - m).
Proof. intros H. rewrite <- Z.pow_add_r by lia. f_equal. lia. Qed.

Lemma pow2_le m n : m <= n -> 2 ^ m <= 2 ^ n.
Proof. intros. apply Z.pow_le_mono_r; lia. Qed.

Lemma pow2_pos n : 0 <= n -> 0 < 2 ^ n.
Proof. intros. apply Z.pow_pos_nonneg; lia. Qed.

(** ** Wrapping *)

Lemma wrap_range w z : 0 <= w -> is_uint w (wrap w z).
Proof. intros. apply Z.mod_pos_bound. lia. Qed.

Lemma wrap_id w z : is_uint w z -> wrap w z = z.
Proof. intros H. apply Z.mod_small. exact H. Qed.

Lemma wrap_wrap w z : wrap w (wrap w z) = wrap w z.
Proof. unfold wrap. apply Zmod_mod. Qed.

Lemma wrap_wrap_le v w z : 0 <= v <= w -> wrap v (wrap w z) = wrap v z.
Proof.
  intros H. unfold wrap. apply Z.bits_inj'. intros i Hi.
  rewrite !Z.testbit_mod_pow2 by lia. zbits_cases; try lia; reflexivity.
Qed.

Lemma wrap_add w a b : wrap w (wrap w a + wrap w b) = wrap w (a + b).
Proof. unfold wrap. symmetry. apply Zplus_mod. Qed.

Lemma wrap_mul w a b : wrap w (wrap w a * wrap w b) = wrap w (a * b).
Proof. unfold wrap. symmetry. apply Zmult_mod. Qed.

Lemma wrap_lor w a b : 0 <= w -> wrap w a .| wrap w b = wrap w (a .| b).
Proof. intros. zbits. Qed.

Lemma to_signed_range w z : 0 < w -> is_uint w z -> is_sint w (to_signed w z).
Proof.
  unfold is_uint, is_sint, to_signed. intros Hw Hz.
  assert (2 ^ w = 2 * 2 ^ (w - 1)) by (rewrite <- Z.pow_succ_r by lia; f_equal; lia).
  destruct (Z.ltb_spec z (2 ^ (w - 1))); lia.
Qed.

Lemma wrap_to_signed w z : 0 < w -> is_uint w z -> wrap w (to_signed w z) = z.
Proof.
  unfold is_uint, to_signed, wrap. intros Hw Hz.
  destruct (Z.ltb_spec z (2 ^ (w - 1))); [apply Z.mod_small; lia|].
  replace (z - 2 ^ w) with (z + (-1) * 2 ^ w) by lia.
  rewrite Z_mod_plus_full. apply Z.mod_small. lia.
Qed.

Lemma to_signed_wrap w z : 0 < w -> is_sint w z -> to_signed w (wrap w z) = z.
Proof.
  unfold is_sint, to_signed, wrap. intros Hw Hz.
  assert (2 ^ w = 2 * 2 ^ (w - 1)) by (rewrite <- Z.pow_succ_r by lia; f_equal; lia).
  destruct (decide (0 <= z)).
  - rewrite Z.mod_small by lia. destruct (Z.ltb_spec z (2 ^ (w - 1))); lia.
  - rewrite <- (Z_mod_plus_full z 1), Z.mod_small by lia.
    destruct (Z.ltb_spec (z + 1 * 2 ^ w) (2 ^ (w - 1))); lia.
Qed.

(** Disjoint bit ranges: or is addition. *)
Lemma lor_shiftl_add a b n : is_uint n a -> a .| (b ≪ n) = a + b * 2 ^ n.
Proof.
  intros Ha.
  destruct (decide (0 <= n)) as [Hn|Hn].
  - rewrite <- Z.shiftl_mul_pow2 by lia. symmetry. apply Z.add_nocarry_lor.
    apply Z.bits_inj'. intros i Hi. autorewrite with zbits.
    destruct (decide (n <= i)).
    + rewrite (testbit_uint n a i) by auto. reflexivity.
    + rewrite (Z.testbit_neg_r b (i - n)) by lia. apply andb_false_r.
  - destruct Ha as [? Ha]. rewrite Z.pow_neg_r in Ha by lia. lia.
Qed.

(** Sign extension by or-ing ones above bit [n]. *)
Lemma wrap_or_ones w n a :
  0 <= n -> 0 <= w -> is_uint n a ->
  wrap w a .| wrap w ((2 ^ w - 1) ≪ n) = wrap w (a - 2 ^ n).
Proof.
  intros Hn Hw Ha. rewrite wrap_lor, lor_shiftl_add by done.
  replace (a + (2 ^ w - 1) * 2 ^ n) with (a - 2 ^ n + 2 ^ n * 2 ^ w) by lia.
  unfold wrap. apply Z_mod_plus_full.
Qed.

Lemma wrap_sub_pow w n a : 0 <= w <= n -> wrap w (a - 2 ^ n) = wrap w a.
Proof.
  intros H. rewrite (pow2_split w n) by done. unfold wrap.
  replace (a - 2 ^ w * 2 ^ (n - w)) with (a + (- 2 ^ (n - w)) * 2 ^ w) by lia.
  apply Z_mod_plus_full.
Qed.

(** ** Bytes *)

Definition bytes_ok (bs : list Z) : Prop := Forall (is_uint 8) bs.

Lemma byte_low7 b : is_uint 8 b -> b .& 127 = b mod 128.
Proof. intros _. apply (Z.land_ones b 7). lia. Qed.

Lemma byte_high_bit b : is_uint 8 b -> (b .& 128 =? 0) = (b <? 128).
Proof.
  intros [H0 H8]. change (2 ^ 8) with 256 in H8.
  assert (Hb : b .& 128 = if b <? 128 then 0 else 128).
  { apply Z.bits_inj'. intros i Hi. rewrite Z.land_spec.
    change 128 with (2 ^ 7) at 1. rewrite Z.pow2_bits_eqb by lia.
    destruct (Z.eqb_spec 7 i) as [<-|Hne].
    - rewrite andb_true_r. rewrite Z.testbit_eqb by lia.
      destruct (Z.ltb_spec b 128); [rewrite Z.div_small by (simpl; lia); reflexivity|].
      replace (b / 2 ^ 7) with 1; [reflexivity|].
      apply (Z.div_unique_pos b 128 1 (b - 128)); lia.
    - rewrite andb_false_r. destruct (b <? 128); [now rewrite Z.bits_0|].
      change 128 with (2 ^ 7). rewrite Z.pow2_bits_eqb by lia.
      destruct (Z.eqb_spec 7 i); congruence. }
  rewrite Hb. destruct (b <? 128); reflexivity.
Qed.

(** A decidable property of all bytes below a bound is settled by evaluation. *)
Lemma forall_below (n : Z) (f : Z -> bool) :
  forallb f (seqZ 0 n) = true -> forall b, 0 <= b < n -> f b = true.
Proof.
  intros Hf b Hb. rewrite forallb_forall in Hf. apply Hf.
  apply list_elem_of_In, elem_of_seqZ. lia.
Qed.

(** ** Switches

    A C [switch] whose cases all return: the first matching label, else the
    default. *)
Fixpoint switch {A} (k : Z) (cases : list (Z * A)) (dflt : A) : A :=
  match cases with
  | [] => dflt
  | (label, body) :: rest => if k =? label then body else switch k rest dflt
  end.

(** ** Status codes (include/turbowasm/status.h) *)

Inductive turbowasm_status :=
  | TURBOWASM_OK
  | TURBOWASM_INVALID_ARGUMENT
  | TURBOWASM_MALFORMED_MODULE
  | TURBOWASM_UNSUPPORTED
  | TURBOWASM_OUT_OF_MEMORY
  | TURBOWASM_TYPE_MISMATCH
  | TURBOWASM_TRAPPED
  | TURBOWASM_FUEL_EXHAUSTED
  | TURBOWASM_INTERRUPTED
  | TURBOWASM_LINK_ERROR
  | TURBOWASM_EXCEPTION
  | TURBOWASM_YIELDED.

#[global] Instance turbowasm_status_eq_dec : EqDecision turbowasm_status.
Proof. solve_decision. Defined.
