(* ===== verification/Reader.v ===== *)
(** * The bounded byte reader (src/reader.c, and the s33 decoder of
    src/validate_type.c)

    A reader is a pair of pointers into the module's bytes. A pointer is an
    offset into the byte buffer [buf], or [None] for NULL. Every operation
    returns its result ([None] for a [false] return) with the reader it leaves
    behind, so that the cursor movement of a failing decode is kept too. *)

From S2P Require Import Prelude.

Module Reader.

Record turbowasm_reader := mk_reader { cursor : option Z; rend : option Z }.

Definition byte_at (buf : list Z) (p : Z) : Z := default 0 (buf !! Z.to_nat p).

Definition advance (r : turbowasm_reader) (n : Z) : turbowasm_reader :=
  mk_reader ((fun c => c + n) <$> cursor r) (rend r).

Definition turbowasm_reader_init (bytes : option Z) (size : Z) : turbowasm_reader :=
  mk_reader bytes (match bytes with None => None | Some b => Some (b + size) end).

Definition turbowasm_reader_remaining (r : turbowasm_reader) : Z :=
  match cursor r, rend r with
  | Some c, Some e => if c >? e then 0 else e - c
  | _, _ => 0
  end.

Section Decoders.
Context (buf : list Z).

Definition turbowasm_reader_u8 (r : turbowasm_reader) : option Z * turbowasm_reader :=
  if turbowasm_reader_remaining r <? 1 then (None, r)
  else match cursor r with
       | None => (None, r)
       | Some c => (Some (byte_at buf c), advance r 1)
       end.

Definition turbowasm_reader_u32le (r : turbowasm_reader) : option Z * turbowasm_reader :=
  if turbowasm_reader_remaining r <? 4 then (None, r)
  else match cursor r with
       | None => (None, r)
       | Some p =>
           (Some (byte_at buf p .| u32 (byte_at buf (p + 1) ≪ 8)
                    .| u32 (byte_at buf (p + 2) ≪ 16)
                    .| u32 (byte_at buf (p + 3) ≪ 24)), advance r 4)
       end.

Definition turbowasm_reader_slice (r : turbowasm_reader) (size : Z)
    : option turbowasm_reader * turbowasm_reader :=
  if turbowasm_reader_remaining r <? size then (None, r)
  else (Some (mk_reader (cursor r) ((fun c => c + size) <$> cursor r)), advance r size).

(** The do-while loop the five LEB128 decoders share: [w] is the width of the
    accumulator, [limit] the byte count at which the decoder gives up and
    [reject shift count byte] the decoder's test on the byte just read. The
    result is the accumulator with the [shift], [count] and [byte] the code
    after the loop looks at. *)
Fixpoint leb_loop (fuel : nat) (w limit : Z) (reject : Z -> Z -> Z -> bool)
    (r : turbowasm_reader) (value shift count : Z)
    : option (Z * Z * Z * Z) * turbowasm_reader :=
  match fuel with
  | O => (None, r)
  | S fuel' =>
      if count =? limit then (None, r)
      else match turbowasm_reader_u8 r with
           | (None, r') => (None, r')
           | (Some byte, r') =>
               if reject shift count byte then (None, r')
               else
                 let value := value .| wrap w ((byte .& 127) ≪ shift) in
                 let shift := shift + 7 in
                 let count := count + 1 in
                 if byte .& 128 =? 0 then (Some (value, shift, count, byte), r')
                 else leb_loop fuel' w limit reject r' value shift count
           end
  end.

Definition turbowasm_reader_uleb32 (r : turbowasm_reader) : option Z * turbowasm_reader :=
  match leb_loop 6 32 5
          (fun shift _ byte => (shift =? 28) && negb (byte .& 240 =? 0)) r 0 0 0 with
  | (Some (value, _, _, _), r') => (Some value, r')
  | (None, r') => (None, r')
  end.

Definition turbowasm_reader_uleb64 (r : turbowasm_reader) : option Z * turbowasm_reader :=
  match leb_loop 11 64 10
          (fun _ count byte => (count =? 9) && negb (byte .& 254 =? 0)) r 0 0 0 with
  | (Some (value, _, _, _), r') => (Some value, r')
  | (None, r') => (None, r')
  end.

(** The sign test on the last byte of a signed encoding: [at_count] is its
    index, [sign] the mask of its sign bit and [unused] the bits above it. *)
Definition sleb_reject (at_count sign unused : Z) (_ count byte : Z) : bool :=
  (count =? at_count) &&
  (let payload := byte .& 127 in
   let negative := negb (payload .& sign =? 0) in
   let rest := payload .& unused in
   (negb negative && negb (rest =? 0)) || (negative && negb (rest =? unused))).

Definition turbowasm_reader_sleb32 (r : turbowasm_reader) : option Z * turbowasm_reader :=
  match leb_loop 6 32 5 (sleb_reject 4 8 112) r 0 0 0 with
  | (Some (value, shift, _, byte), r') =>
      let value := if (shift <? 32) && negb (byte .& 64 =? 0)
                   then value .| u32 (UINT32_MAX ≪ shift) else value in
      (Some (s32 value), r')
  | (None, r') => (None, r')
  end.

Definition turbowasm_reader_sleb64 (r : turbowasm_reader) : option Z * turbowasm_reader :=
  match leb_loop 11 64 10 (sleb_reject 9 1 126) r 0 0 0 with
  | (Some (value, shift, _, byte), r') =>
      let value := if (shift <? 64) && negb (byte .& 64 =? 0)
                   then value .| u64 (UINT64_MAX ≪ shift) else value in
      (Some (s64 value), r')
  | (None, r') => (None, r')
  end.

Definition turbowasm_validation_read_s33 (r : turbowasm_reader) : option Z * turbowasm_reader :=
  match leb_loop 6 64 5 (sleb_reject 4 16 96) r 0 0 0 with
  | (Some (value, shift, count, byte), r') =>
      let value :=
        if count =? 5 then
          if negb (byte .& 16 =? 0) then value .| u64 (UINT64_MAX ≪ 33) else value
        else if negb (byte .& 64 =? 0) && (shift <? 64)
             then value .| u64 (UINT64_MAX ≪ shift) else value in
      (Some (s64 value), r')
  | (None, r') => (None, r')
  end.

(** ** The reader's window *)

(** The reader points into the buffer. *)
Definition reader_wf (r : turbowasm_reader) : Prop :=
  match cursor r, rend r with
  | Some c, Some e => 0 <= c <= e /\ e <= Z.of_nat (length buf)
  | None, None => True
  | _, _ => False
  end.

(** The bytes between the cursor and the end. *)
Definition window (r : turbowasm_reader) : list Z :=
  match cursor r, rend r with
  | Some c, Some e => take (Z.to_nat (e - c)) (drop (Z.to_nat c) buf)
  | _, _ => []
  end.

End Decoders.

(** ** The integer grammars of the WebAssembly binary format *)

(** [uleb_spec N bs n]: [bs] is an encoding of [n] by the production [uN]. *)
Inductive uleb_spec : Z -> list Z -> Z -> Prop :=
  | uleb_last N n : 0 <= n < 2 ^ 7 -> n < 2 ^ N -> uleb_spec N [n] n
  | uleb_more N n bs m :
      2 ^ 7 <= n < 2 ^ 8 -> 7 < N -> uleb_spec (N - 7) bs m ->
      uleb_spec N (n :: bs) (2 ^ 7 * m + (n - 2 ^ 7)).

(** [sleb_spec N bs n]: [bs] is an encoding of [n] by the production [sN]. *)
Inductive sleb_spec : Z -> list Z -> Z -> Prop :=
  | sleb_pos N n : 0 <= n < 2 ^ 6 -> n < 2 ^ (N - 1) -> sleb_spec N [n] n
  | sleb_neg N n :
      2 ^ 6 <= n < 2 ^ 7 -> 2 ^ 7 - 2 ^ (N - 1) <= n -> sleb_spec N [n] (n - 2 ^ 7)
  | sleb_more N n bs m :
      2 ^ 7 <= n < 2 ^ 8 -> 7 < N -> sleb_spec (N - 7) bs m ->
      sleb_spec N (n :: bs) (2 ^ 7 * m + (n - 2 ^ 7)).

(** The shape both grammars share: continuation bytes, then a last byte. *)
Definition leb_shape (bs : list Z) : Prop :=
  exists q b, bs = q ++ [b] /\ Forall (fun x => 128 <= x < 256) q /\ 0 <= b < 128.

(** The number the seven-bit payloads denote. *)
Fixpoint leb_val (bs : list Z) : Z :=
  match bs with
  | [] => 0
  | b :: bs' => b mod 128 + 128 * leb_val bs'
  end.

(** ** Window lemmas *)

Section WindowLemmas.
Context (buf : list Z).

Lemma remaining_window r :
  reader_wf buf r -> turbowasm_reader_remaining r = Z.of_nat (length (window buf r)).
Proof.
  unfold reader_wf, turbowasm_reader_remaining, window.
  destruct (cursor r) as [c|], (rend r) as [e|]; try easy.
  intros [H1 H2]. rewrite length_take, length_drop.
  destruct (Z.gtb_spec c e); lia.
Qed.

Lemma advance_0 r : advance r 0 = r.
Proof. destruct r as [[c|] e]; unfold advance; simpl; do 2 f_equal. now rewrite Z.add_0_r. Qed.

Lemma advance_add r m n : advance (advance r m) n = advance r (m + n).
Proof. destruct r as [[c|] e]; unfold advance; simpl; do 2 f_equal. lia. Qed.

Lemma window_advance r p rest :
  reader_wf buf r -> window buf r = p ++ rest ->
  reader_wf buf (advance r (Z.of_nat (length p))) /\
  window buf (advance r (Z.of_nat (length p))) = rest.
Proof.
  unfold reader_wf, window, advance.
  destruct r as [[c|] [e|]]; simpl; try easy.
  - intros [H1 H2] Hw.
    assert (Hl : (length p + length rest = Z.to_nat (e - c))%nat).
    { rewrite <- length_app, <- Hw, length_take, length_drop. lia. }
    split; [lia|].
    replace (Z.to_nat (e - (c + Z.of_nat (length p)))) with (Z.to_nat (e - c) - length p)%nat by lia.
    replace (Z.to_nat (c + Z.of_nat (length p))) with (Z.to_nat c + length p)%nat by lia.
    rewrite <- drop_drop, take_drop_commute.
    replace (length p + (Z.to_nat (e - c) - length p))%nat with (Z.to_nat (e - c)) by lia.
    rewrite Hw. apply drop_app_length.
  - intros _ Hw. destruct p; [easy|discriminate].
Qed.

Lemma u8_window r :
  reader_wf buf r ->
  turbowasm_reader_u8 buf r =
    match window buf r with
    | [] => (None, r)
    | b :: _ => (Some b, advance r 1)
    end.
Proof.
  intros Hwf. unfold turbowasm_reader_u8. rewrite remaining_window by done.
  destruct (window buf r) as [|b rest] eqn:Hw; [reflexivity|].
  destruct (Z.ltb_spec (Z.of_nat (length (b :: rest))) 1); [simpl in *; lia|].
  unfold window in Hw. destruct (cursor r) as [c|] eqn:Hc; [|done].
  destruct (rend r) as [e|] eqn:He; [|done].
  assert (Hb : (take (Z.to_nat (e - c)) (drop (Z.to_nat c) buf)) !! 0%nat = Some b)
    by now rewrite Hw.
  rewrite lookup_take_Some, lookup_drop in Hb. destruct Hb as [Hb _].
  rewrite Nat.add_0_r in Hb. unfold byte_at. now rewrite Hb.
Qed.

Lemma u8_spec r b r' :
  reader_wf buf r ->
  turbowasm_reader_u8 buf r = (Some b, r') <->
  exists rest, window buf r = b :: rest /\ r' = advance r 1.
Proof.
  intros Hwf. rewrite u8_window by done. destruct (window buf r) as [|x rest].
  - split; [done|]. now intros (? & ? & ?).
  - split; [|intros (? & H & ->); congruence]. intros [= -> <-]. eauto.
Qed.

End WindowLemmas.

(** ** Payload arithmetic *)

Lemma leb_val_app p q : leb_val (p ++ q) = leb_val p + 2 ^ (7 * Z.of_nat (length p)) * leb_val q.
Proof.
  induction p as [|b p IH]; [simpl leb_val; change (2 ^ _) with 1; simpl; lia|].
  simpl app. cbn [leb_val length]. rewrite IH.
  replace (7 * Z.of_nat (S (length p))) with (7 + 7 * Z.of_nat (length p)) by lia.
  rewrite Z.pow_add_r by lia. change (2 ^ 7) with 128. lia.
Qed.

Lemma leb_val_range p : 0 <= leb_val p < 2 ^ (7 * Z.of_nat (length p)).
Proof.
  induction p as [|b p IH]; [simpl; lia|].
  cbn [leb_val length].
  replace (7 * Z.of_nat (S (length p))) with (7 + 7 * Z.of_nat (length p)) by lia.
  rewrite Z.pow_add_r by lia. change (2 ^ 7) with 128.
  pose proof (Z.mod_pos_bound b 128). lia.
Qed.

Lemma leb_step_value w V k b :
  0 <= w -> 0 <= k -> is_uint (7 * k) V -> is_uint 8 b ->
  wrap w V .| wrap w ((b .& 127) ≪ (7 * k)) = wrap w (V + 2 ^ (7 * k) * (b mod 128)).
Proof.
  intros Hw Hk HV Hb. rewrite wrap_lor by done.
  rewrite lor_shiftl_add, byte_low7 by done. f_equal. lia.
Qed.

Lemma leb_step_range V k b :
  0 <= k -> is_uint (7 * k) V -> is_uint (7 * (k + 1)) (V + 2 ^ (7 * k) * (b mod 128)).
Proof.
  unfold is_uint. intros Hk HV.
  replace (7 * (k + 1)) with (7 * k + 7) by lia. rewrite Z.pow_add_r by lia.
  change (2 ^ 7) with 128. pose proof (Z.mod_pos_bound b 128). nia.
Qed.

(** What the loop accepts, consumes and accumulates. *)
Definition leb_accepts (buf : list Z) (w limit : Z) (reject : Z -> Z -> Z -> bool)
    (r : turbowasm_reader) (V k value shift count byte : Z) (r' : turbowasm_reader) : Prop :=
  exists q rest,
    window buf r = q ++ byte :: rest /\
    Forall (fun x => 128 <= x < 256) q /\ 0 <= byte < 128 /\
    k + Z.of_nat (length q) < limit /\
    (forall i b, (q ++ [byte]) !! i = Some b ->
       reject (7 * (k + Z.of_nat i)) (k + Z.of_nat i) b = false) /\
    value = wrap w (V + 2 ^ (7 * k) * leb_val (q ++ [byte])) /\
    shift = 7 * (k + Z.of_nat (length q) + 1) /\
    count = k + Z.of_nat (length q) + 1 /\
    r' = advance r (Z.of_nat (length q) + 1).

Lemma leb_accepts_last buf w limit reject r V k b rest value shift count byte r' :
  window buf r = b :: rest -> 0 <= b < 128 -> k < limit -> reject (7 * k) k b = false ->
  (wrap w (V + 2 ^ (7 * k) * (b mod 128)), 7 * k + 7, k + 1, b) = (value, shift, count, byte) ->
  advance r 1 = r' ->
  leb_accepts buf w limit reject r V k value shift count byte r'.
Proof.
  intros Hw Hb Hk Hrej [= <- <- <- <-] <-. exists [], rest. simpl app. simpl length.
  repeat split; try done; try lia.
  - intros [|i] x; simpl; [|done]. intros [= <-]. now rewrite Z.add_0_r.
  - cbn [leb_val]. f_equal. lia.
Qed.

Lemma leb_accepts_more buf w limit reject r V k b rest value shift count byte r' :
  reader_wf buf r -> 0 <= k ->
  window buf r = b :: rest -> 128 <= b < 256 -> reject (7 * k) k b = false ->
  leb_accepts buf w limit reject (advance r 1) (V + 2 ^ (7 * k) * (b mod 128)) (k + 1)
    value shift count byte r' <->
  leb_accepts buf w limit reject r V k value shift count byte r'.
Proof.
  intros Hwf Hk Hw Hb Hrej.
  destruct (window_advance buf r [b] rest Hwf Hw) as [Hwf' Hw']. simpl length in *.
  assert (Hval : forall q, V + 2 ^ (7 * k) * (b mod 128) + 2 ^ (7 * (k + 1)) * leb_val (q ++ [byte])
                 = V + 2 ^ (7 * k) * leb_val (b :: q ++ [byte])).
  { intros q. cbn [leb_val]. replace (7 * (k + 1)) with (7 * k + 7) by lia.
    rewrite Z.pow_add_r by lia. change (2 ^ 7) with 128. lia. }
  split.
  - intros (q & rest' & H1 & H2 & H3 & H4 & H5 & H6 & H7 & H8 & H9).
    change (Z.of_nat 1) with 1 in Hw'. rewrite Hw' in H1. rewrite H1 in Hw.
    exists (b :: q), rest'. simpl length. simpl app. rewrite <- Hval.
    split_and!; try done; try lia; [by constructor| |].
    + intros [|i] x; simpl; [intros [= <-]; now rewrite Z.add_0_r|].
      intros Hx. specialize (H5 _ _ Hx).
      replace (k + Z.of_nat (S i)) with (k + 1 + Z.of_nat i) by lia. done.
    + rewrite H9, advance_add. f_equal. lia.
  - intros (q & rest' & H1 & H2 & H3 & H4 & H5 & H6 & H7 & H8 & H9).
    destruct q as [|b' q]; [rewrite H1 in Hw; injection Hw; intros; lia|].
    rewrite H1 in Hw. injection Hw as -> <-. inversion_clear H2.
    change (Z.of_nat 1) with 1 in Hw'. rewrite <- app_comm_cons in H6.
    exists q, rest'. rewrite Hval. simpl length in *.
    split_and!; try done; try lia.
    + intros i x Hx. specialize (H5 (S i) x Hx).
      replace (k + 1 + Z.of_nat i) with (k + Z.of_nat (S i)) by lia. done.
    + rewrite H9, advance_add. f_equal. lia.
Qed.

Lemma leb_loop_spec buf w limit reject : 0 <= w -> forall fuel r V k,
  reader_wf buf r -> bytes_ok (window buf r) -> is_uint (7 * k) V ->
  0 <= k <= limit -> limit - k < Z.of_nat fuel ->
  forall value shift count byte r',
  leb_loop buf fuel w limit reject r (wrap w V) (7 * k) k
    = (Some (value, shift, count, byte), r') <->
  leb_accepts buf w limit reject r V k value shift count byte r'.
Proof.
  intros Hw fuel. induction fuel as [|fuel IH]; intros r V k Hwf Hok HV Hk Hfuel; [lia|].
  intros value shift count byte r'. cbn [leb_loop].
  destruct (Z.eqb_spec k limit) as [->|Hne].
  { split; [done|]. intros (q & rest & _ & _ & _ & Hlt & _). lia. }
  rewrite u8_window by done.
  destruct (window buf r) as [|b rest] eqn:Hwin.
  { split; [done|]. intros (q & rest & Hq & _). rewrite Hwin in Hq. by destruct q. }
  assert (Hb : is_uint 8 b) by (inversion Hok; done).
  destruct (reject (7 * k) k b) eqn:Hrej.
  { split; [done|]. intros (q & rest' & Hq & _ & _ & _ & Hr & _).
    rewrite Hwin in Hq. destruct q as [|b' q]; simplify_eq/=;
      specialize (Hr 0%nat _ eq_refl); rewrite Z.add_0_r in Hr; congruence. }
  rewrite leb_step_value by (done || lia). rewrite byte_high_bit by done.
  destruct (Z.ltb_spec b 128) as [Hlt|Hge].
  - split.
    + intros [= Hv Hs Hc Hbyte Hr]. eapply leb_accepts_last; [done|destruct Hb; lia|lia|done| |done].
      congruence.
    + intros (q & rest' & H1 & H2 & H3 & H4 & H5 & H6 & H7 & H8 & H9).
      rewrite Hwin in H1. destruct q as [|b' q].
      * injection H1 as <- <-. cbn [leb_val app length] in *. subst.
        repeat (f_equal; try lia).
      * injection H1 as <- _. inversion_clear H2. lia.
  - assert (Hb' : 128 <= b < 256) by (destruct Hb; lia).
    destruct (window_advance buf r [b] rest Hwf Hwin) as [Hwf' Hw'].
    change (Z.of_nat (length [b])) with 1 in *.
    rewrite <- (leb_accepts_more buf w limit reject r V k b rest) by (done || lia).
    replace (7 * k + 7) with (7 * (k + 1)) by lia.
    apply IH; try done; try lia.
    + rewrite Hw'. inversion Hok; done.
    + apply leb_step_range; [lia|done].
Qed.

(** ** The grammars, without recursion *)

Definition sleb_val (p : list Z) : Z := to_signed (7 * Z.of_nat (length p)) (leb_val p).

Lemma leb_shape_cons b p :
  leb_shape (b :: p) <->
  (p = [] /\ 0 <= b < 128) \/ (128 <= b < 256 /\ leb_shape p).
Proof.
  split.
  - intros (q & x & Hq & Hall & Hx). destruct q as [|y q]; simplify_eq/=; [by left|].
    inversion_clear Hall. right. split; [done|]. by exists q, x.
  - intros [[-> Hb]|[Hb (q & x & -> & Hall & Hx)]]; [by exists [], b|].
    exists (b :: q), x. split_and!; [done|by constructor|lia|lia].
Qed.

Lemma uleb_spec_iff p : forall N v, 0 < N ->
  uleb_spec N p v <->
  leb_shape p /\ 7 * (Z.of_nat (length p) - 1) < N /\ v = leb_val p /\ v < 2 ^ N.
Proof.
  induction p as [|b p IH]; intros N v HN.
  { split; [by inversion 1|]. intros [(q & x & Hq & _) _]. by destruct q. }
  rewrite leb_shape_cons. cbn [leb_val length]. split.
  - inversion 1 as [? ? H1 H2|? ? ? m H1 H2 H3]; subst.
    + split_and!; [by left|simpl; lia| |done]. rewrite Z.mod_small by lia. simpl; lia.
    + apply IH in H3 as (Hs & Hl & -> & Hlt); [|lia].
      rewrite (pow2_split 7 N) by lia. change (2 ^ 7) with 128 in *. change (2 ^ 8) with 256 in *.
      split_and!; [by right|lia| |lia].
      rewrite <- (Z_mod_plus_full b (-1) 128), (Z.mod_small (b + _)) by lia. lia.
  - intros ([[-> Hb]|[Hb Hs]] & Hl & -> & Hlt).
    + rewrite Z.mod_small in * by lia. cbn [leb_val] in *. rewrite Z.add_0_r in *.
      constructor; lia.
    + assert (HN7 : 7 < N). { destruct p; [by destruct Hs as ([] & ? & ? & _)|]. simpl in Hl. lia. }
      rewrite (pow2_split 7 N) in Hlt by lia. change (2 ^ 7) with 128 in *.
      rewrite <- (Z_mod_plus_full b (-1) 128), (Z.mod_small (b + _)) in * by lia.
      replace (b + -1 * 128 + 128 * leb_val p) with (2 ^ 7 * leb_val p + (b - 2 ^ 7)) by lia.
      constructor; [lia|done|]. apply IH; [lia|]. split_and!; [done|lia|done|lia].
Qed.

Lemma sleb_val_cons b p :
  p <> [] -> sleb_val (b :: p) = b mod 128 + 128 * sleb_val p.
Proof.
  intros Hp. unfold sleb_val, to_signed. cbn [leb_val length].
  assert (Hn : 1 <= Z.of_nat (length p)) by (destruct p; [done|simpl; lia]).
  set (n := Z.of_nat (length p)) in *.
  replace (7 * Z.of_nat (S (length p))) with (7 * n + 7) by lia.
  replace (7 * n + 7 - 1) with (7 + (7 * n - 1)) by lia.
  rewrite !Z.pow_add_r by lia. change (2 ^ 7) with 128.
  pose proof (Z.mod_pos_bound b 128).
  destruct (Z.ltb_spec (b mod 128 + 128 * leb_val p) (128 * 2 ^ (7 * n - 1))),
    (Z.ltb_spec (leb_val p) (2 ^ (7 * n - 1))); lia.
Qed.

Lemma sleb_val_single b :
  0 <= b < 128 -> sleb_val [b] = if b <? 64 then b else b - 128.
Proof.
  intros Hb. unfold sleb_val, to_signed. cbn [leb_val length].
  rewrite Z.mod_small, Z.add_0_r by lia. reflexivity.
Qed.

Lemma sleb_spec_iff p : forall N v, 0 < N ->
  sleb_spec N p v <->
  leb_shape p /\ 7 * (Z.of_nat (length p) - 1) < N /\ v = sleb_val p /\ is_sint N v.
Proof.
  unfold is_sint. induction p as [|b p IH]; intros N v HN.
  { split; [by inversion 1|]. intros [(q & x & Hq & _) _]. by destruct q. }
  rewrite leb_shape_cons.
  pose proof (pow2_pos (N - 1) ltac:(lia)) as Hpos. split.
  - inversion 1 as [? b' H1 H2|? b' H1 H2|? b' ? m H1 H2 H3]; subst.
    + split_and!; [left; split; [done|lia]|simpl; lia| |lia|done].
      rewrite sleb_val_single by lia. case_match eqn:E; lia.
    + split_and!; [left; split; [done|lia]|simpl; lia| |lia|lia].
      rewrite sleb_val_single by lia. case_match eqn:E; lia.
    + apply IH in H3 as (Hs & Hl & -> & Hlt); [|lia].
      assert (p <> []) by (intros ->; by destruct Hs as ([] & ? & ? & _)).
      replace (N - 7 - 1) with (N - 8) in Hlt by lia.
      replace (2 ^ (N - 1)) with (128 * 2 ^ (N - 8)) in *
        by (change 128 with (2 ^ 7); rewrite <- Z.pow_add_r by lia; f_equal; lia).
      change (2 ^ 7) with 128 in *. change (2 ^ 8) with 256 in *.
      rewrite sleb_val_cons by done. cbn [length].
      rewrite <- (Z_mod_plus_full b (-1) 128), (Z.mod_small (b + _)) by lia.
      split_and!; [by right|lia|lia|lia|lia].
  - intros ([[-> Hb]|[Hb Hs]] & Hl & -> & Hlt).
    + rewrite sleb_val_single in * by lia.
      destruct (Z.ltb_spec b 64); [apply sleb_pos; lia|apply sleb_neg; lia].
    + assert (p <> []) by (intros ->; by destruct Hs as ([] & ? & ? & _)).
      assert (HN7 : 7 < N) by (destruct p; [done|simpl in Hl; lia]).
      rewrite sleb_val_cons in * by done.
      rewrite <- (Z_mod_plus_full b (-1) 128), (Z.mod_small (b + _)) in * by lia.
      replace (b + -1 * 128 + 128 * sleb_val p) with (2 ^ 7 * sleb_val p + (b - 2 ^ 7)) by lia.
      constructor; [lia|done|]. apply IH; [lia|].
      replace (2 ^ (N - 1)) with (128 * 2 ^ (N - 8)) in *
        by (change 128 with (2 ^ 7); rewrite <- Z.pow_add_r by lia; f_equal; lia).
      replace (N - 7 - 1) with (N - 8) by lia. simpl length in Hl.
      split_and!; [done|lia|done|lia|lia].
Qed.

(** ** The decoders implement the grammars *)

(** Every decoder tests only the byte at its last permitted index. *)
Definition tests_last (reject : Z -> Z -> Z -> bool) (last : Z) (bad : Z -> bool) : Prop :=
  forall i x, 0 <= i -> reject (7 * i) i x = (i =? last) && bad x.

Lemma no_reject_iff reject last bad q b :
  tests_last reject last bad -> Z.of_nat (length q) <= last ->
  (forall i x, (q ++ [b]) !! i = Some x ->
     reject (7 * (0 + Z.of_nat i)) (0 + Z.of_nat i) x = false) <->
  (Z.of_nat (length q) = last -> bad b = false).
Proof.
  intros Ht Hq. split.
  - intros Hall Hlen. specialize (Hall (length q) b).
    rewrite lookup_app_r, Nat.sub_diag in Hall by lia. specialize (Hall eq_refl).
    rewrite Z.add_0_l, Ht in Hall by lia. destruct (Z.eqb_spec (Z.of_nat (length q)) last); [done|lia].
  - intros Hlast i x Hx. rewrite Z.add_0_l, Ht by lia.
    destruct (Z.eqb_spec (Z.of_nat i) last) as [Hi|]; [|done].
    assert (Hlen : (length (q ++ [b]) > i)%nat) by (apply lookup_lt_Some in Hx; lia).
    rewrite length_app in Hlen. simpl in Hlen.
    assert (i = length q) as -> by lia.
    rewrite lookup_app_r, Nat.sub_diag in Hx by lia. injection Hx as <-. apply Hlast. lia.
Qed.

Lemma leb_val_snoc q b :
  0 <= b < 128 -> leb_val (q ++ [b]) = leb_val q + 2 ^ (7 * Z.of_nat (length q)) * b.
Proof. intros Hb. rewrite leb_val_app. cbn [leb_val]. rewrite Z.mod_small by lia. lia. Qed.

(** A payload fits in [N] bits exactly when its last byte does. *)
Lemma leb_val_fits N last q b :
  0 <= b < 128 -> 0 <= last -> 7 * last < N ->
  Z.of_nat (length q) <= last ->
  leb_val (q ++ [b]) < 2 ^ N <-> (Z.of_nat (length q) = last -> b < 2 ^ (N - 7 * last)).
Proof.
  intros Hb Hl HN Hq.
  destruct (decide (Z.of_nat (length q) = last)) as [<-|Hne].
  - rewrite leb_val_snoc by done. pose proof (leb_val_range q).
    rewrite (pow2_split (7 * Z.of_nat (length q)) N) by lia.
    split; [intros; nia|]. intros Hlt. specialize (Hlt eq_refl). nia.
  - split; [done|]. intros _. pose proof (leb_val_range (q ++ [b])) as Hr.
    rewrite length_app in Hr. simpl in Hr.
    eapply Z.lt_le_trans; [apply Hr|]. apply pow2_le. lia.
Qed.

Lemma sleb_val_snoc q b :
  0 <= b < 128 ->
  sleb_val (q ++ [b]) = leb_val q + 2 ^ (7 * Z.of_nat (length q)) * to_signed 7 b.
Proof.
  intros Hb. unfold sleb_val, to_signed. rewrite leb_val_snoc, length_app by done. simpl length.
  replace (7 * Z.of_nat (length q + 1) - 1) with (7 * Z.of_nat (length q) + 6) by lia.
  replace (7 * Z.of_nat (length q + 1)) with (7 * Z.of_nat (length q) + 7) by lia.
  rewrite !Z.pow_add_r by lia. change (7 - 1) with 6. pose proof (leb_val_range q).
  destruct (Z.ltb_spec b (2 ^ 6)), (Z.ltb_spec
    (leb_val q + 2 ^ (7 * Z.of_nat (length q)) * b) (2 ^ (7 * Z.of_nat (length q)) * 2 ^ 6));
    simpl (2 ^ 6) in *; simpl (2 ^ 7); nia.
Qed.

Lemma sleb_val_range q b : 0 <= b < 128 -> is_sint (7 * Z.of_nat (length (q ++ [b]))) (sleb_val (q ++ [b])).
Proof.
  intros Hb. apply to_signed_range; [rewrite length_app; simpl; lia|]. apply leb_val_range.
Qed.

Lemma sleb_val_fits N last q b :
  0 <= b < 128 -> 0 <= last -> 7 * last < N ->
  Z.of_nat (length q) <= last ->
  is_sint N (sleb_val (q ++ [b])) <->
  (Z.of_nat (length q) = last -> is_sint (N - 7 * last) (to_signed 7 b)).
Proof.
  intros Hb Hl HN Hq. unfold is_sint.
  destruct (decide (Z.of_nat (length q) = last)) as [<-|Hne].
  - rewrite sleb_val_snoc by done. pose proof (leb_val_range q).
    rewrite (pow2_split (7 * Z.of_nat (length q)) (N - 1)) by lia.
    replace (N - 7 * Z.of_nat (length q) - 1) with (N - 1 - 7 * Z.of_nat (length q)) by lia.
    split; [intros; nia|]. intros Hlt. specialize (Hlt eq_refl). nia.
  - split; [done|]. intros _. pose proof (sleb_val_range q b Hb) as [H1 H2].
    rewrite length_app in *. simpl in *.
    assert (2 ^ (7 * Z.of_nat (length q + 1) - 1) <= 2 ^ (N - 1)) by (apply pow2_le; lia). lia.
Qed.

Section Decoding.
Context (buf : list Z) (r : turbowasm_reader).
Hypothesis Hwf : reader_wf buf r.
Hypothesis Hok : bytes_ok (window buf r).

(** [decodes p r']: the decoder consumed the prefix [p] of the window. *)
Definition decodes (p : list Z) (r' : turbowasm_reader) : Prop :=
  p `prefix_of` window buf r /\ r' = advance r (Z.of_nat (length p)).

Lemma leb_loop_decodes fuel w limit reject bad :
  0 <= w -> 0 < limit -> limit < Z.of_nat fuel -> tests_last reject (limit - 1) bad ->
  forall value shift count byte r',
  leb_loop buf fuel w limit reject r 0 0 0 = (Some (value, shift, count, byte), r') <->
  exists q, decodes (q ++ [byte]) r' /\ leb_shape (q ++ [byte]) /\ 0 <= byte < 128 /\
    Z.of_nat (length q) <= limit - 1 /\
    (Z.of_nat (length q) = limit - 1 -> bad byte = false) /\
    value = wrap w (leb_val (q ++ [byte])) /\
    count = Z.of_nat (length q) + 1 /\ shift = 7 * count.
Proof.
  intros Hw Hlim Hfuel Ht value shift count byte r'.
  replace (leb_loop buf fuel w limit reject r 0 0 0)
    with (leb_loop buf fuel w limit reject r (wrap w 0) (7 * 0) 0)
    by (unfold wrap; now rewrite Z.mod_0_l by (apply Z.pow_nonzero; lia)).
  rewrite leb_loop_spec by (done || lia || (split; simpl; lia)).
  unfold leb_accepts, decodes.
  assert (Hz : forall x, 0 + 2 ^ (7 * 0) * x = x) by (intros; change (2 ^ (7 * 0)) with 1; lia).
  split.
  - intros (q & rest & H1 & H2 & H3 & H4 & H5 & H6 & H7 & H8 & H9). rewrite Hz in H6.
    exists q. rewrite length_app. simpl length.
    split_and!; try done; try lia.
    + exists rest. now rewrite <- app_assoc.
    + rewrite H9. f_equal. lia.
    + exists q, byte. split_and!; done || lia.
    + apply (no_reject_iff reject (limit - 1) bad); [done|lia|done].
  - intros (q & [[rest H1] H9] & (q' & b' & Hq & H2 & _) & H3 & H4 & H5 & H6 & H7 & H8).
    apply app_inj_tail in Hq as [<- <-].
    exists q, rest. rewrite Hz. rewrite <- app_assoc in H1. rewrite length_app in H9. simpl in H9.
    split_and!; try done; try lia.
    + apply (no_reject_iff reject (limit - 1) bad); done || lia.
    + rewrite H9. f_equal. lia.
Qed.

Lemma uleb_decoder N w limit fuel reject bad :
  N <= w -> 0 < limit -> limit < Z.of_nat fuel -> 7 * (limit - 1) < N <= 7 * limit ->
  tests_last reject (limit - 1) bad ->
  (forall b, 0 <= b < 128 -> bad b = false <-> b < 2 ^ (N - 7 * (limit - 1))) ->
  forall v r',
  (exists shift count byte,
     leb_loop buf fuel w limit reject r 0 0 0 = (Some (v, shift, count, byte), r')) <->
  (exists p, decodes p r' /\ uleb_spec N p v).
Proof.
  intros Hw Hlim Hfuel HN Ht Hbad v r'. split.
  - intros (shift & count & byte & H).
    apply (leb_loop_decodes fuel w limit reject bad) in H
      as (q & Hd & Hs & Hb & Hlen & Hlast & -> & _); [|done || lia..].
    assert (Hfit : leb_val (q ++ [byte]) < 2 ^ N).
    { apply (leb_val_fits N (limit - 1)); try done; try lia. intros Hq. apply Hbad; auto. }
    exists (q ++ [byte]). split; [done|].
    rewrite wrap_id.
    + apply uleb_spec_iff; [lia|]. rewrite length_app. simpl. split_and!; done || lia.
    + pose proof (leb_val_range (q ++ [byte])). split; [lia|].
      eapply Z.lt_le_trans; [done|]. by apply pow2_le.
  - intros (p & Hd & Hspec).
    apply uleb_spec_iff in Hspec as (Hs & Hlen & -> & Hfit); [|lia].
    pose proof Hs as (q & byte & -> & _ & Hb). rewrite length_app in Hlen. simpl in Hlen.
    exists (7 * (Z.of_nat (length q) + 1)), (Z.of_nat (length q) + 1), byte.
    apply (leb_loop_decodes fuel w limit reject bad); [done || lia..|].
    exists q. split_and!; try done; try lia.
    + intros Hq. apply Hbad; [done|]. by apply (leb_val_fits N (limit - 1) q); try done; try lia.
    + rewrite wrap_id; [done|]. pose proof (leb_val_range (q ++ [byte])). split; [lia|].
      eapply Z.lt_le_trans; [done|]. by apply pow2_le.
Qed.

(** [finish] is the code after the loop; it must sign-extend every accepted payload. *)
Lemma sleb_decoder N w limit fuel reject bad (finish : Z -> Z -> Z -> Z -> Z) :
  0 < N <= w -> 0 < limit -> limit < Z.of_nat fuel -> 7 * (limit - 1) < N <= 7 * limit ->
  tests_last reject (limit - 1) bad ->
  (forall b, 0 <= b < 128 -> bad b = false <-> is_sint (N - 7 * (limit - 1)) (to_signed 7 b)) ->
  (forall q b, 0 <= b < 128 -> Z.of_nat (length q) <= limit - 1 ->
     is_sint N (sleb_val (q ++ [b])) ->
     let count := Z.of_nat (length q) + 1 in
     finish (wrap w (leb_val (q ++ [b]))) (7 * count) count b = wrap w (sleb_val (q ++ [b]))) ->
  forall v r',
  (exists value shift count byte,
     leb_loop buf fuel w limit reject r 0 0 0 = (Some (value, shift, count, byte), r') /\
     v = to_signed w (finish value shift count byte)) <->
  (exists p, decodes p r' /\ sleb_spec N p v).
Proof.
  intros Hw Hlim Hfuel HN Ht Hbad Hfin v r'.
  assert (Hin : forall x, is_sint N x -> is_sint w x).
  { unfold is_sint. intros x Hx. pose proof (pow2_le (N - 1) (w - 1)). lia. }
  split.
  - intros (value & shift & count & byte & H & ->).
    apply (leb_loop_decodes fuel w limit reject bad) in H
      as (q & Hd & Hs & Hb & Hlen & Hlast & -> & -> & ->); [|done || lia..].
    assert (Hfit : is_sint N (sleb_val (q ++ [byte]))).
    { apply (sleb_val_fits N (limit - 1)); try done; try lia. intros Hq. apply Hbad; auto. }
    exists (q ++ [byte]). split; [done|].
    rewrite Hfin by done. rewrite to_signed_wrap by (auto; lia).
    apply sleb_spec_iff; [lia|]. rewrite length_app. simpl. split_and!; done || lia.
  - intros (p & Hd & Hspec).
    apply sleb_spec_iff in Hspec as (Hs & Hlen & -> & Hfit); [|lia].
    pose proof Hs as (q & byte & -> & _ & Hb). rewrite length_app in Hlen. simpl in Hlen.
    do 4 eexists. split.
    + apply (leb_loop_decodes fuel w limit reject bad); [done || lia..|].
      exists q. split_and!; try done; try lia.
      intros Hq. apply Hbad; [done|]. by apply (sleb_val_fits N (limit - 1) q); try done; try lia.
    + rewrite Hfin by (done || lia). rewrite to_signed_wrap by (auto; lia). done.
Qed.

End Decoding.

Lemma tests_last_sleb last sign unused :
  tests_last (sleb_reject last sign unused) last
    (fun byte => sleb_reject last sign unused 0 last byte).
Proof. intros i x _. unfold sleb_reject. rewrite Z.eqb_refl. by destruct (i =? last). Qed.

(** The usual sign extension: or ones above the payload when its top bit is set. *)
Lemma sleb_extend w q b :
  0 < w -> 0 <= b < 128 ->
  let n := 7 * (Z.of_nat (length q) + 1) in
  (if (n <? w) && negb (b .& 64 =? 0)
   then wrap w (leb_val (q ++ [b])) .| wrap w ((2 ^ w - 1) ≪ n)
   else wrap w (leb_val (q ++ [b]))) = wrap w (sleb_val (q ++ [b])).
Proof.
  intros Hw Hb n.
  assert (Hbit : negb (b .& 64 =? 0) = negb (b <? 64)).
  { apply (eqb_prop _ _), (forall_below 128
      (fun b => eqb (negb (b .& 64 =? 0)) (negb (b <? 64)))); [by vm_compute|done]. }
  assert (Hval : sleb_val (q ++ [b]) =
    if b <? 64 then leb_val (q ++ [b]) else leb_val (q ++ [b]) - 2 ^ n).
  { rewrite sleb_val_snoc, leb_val_snoc by done. unfold to_signed, n.
    rewrite Z.mul_add_distr_l, Z.pow_add_r by lia. change (2 ^ (7 - 1)) with 64.
    change (2 ^ (7 * 1)) with (2 ^ 7). destruct (b <? 64); lia. }
  rewrite Hbit, Hval. destruct (b <? 64); simpl negb; [by rewrite andb_false_r|].
  rewrite andb_true_r. destruct (Z.ltb_spec n w).
  - rewrite wrap_or_ones; [done|lia|lia|].
    pose proof (leb_val_range (q ++ [b])) as Hr. rewrite length_app in Hr. simpl in Hr.
    unfold is_uint, n. replace (Z.of_nat (length q) + 1) with (Z.of_nat (length q + 1)) by lia. done.
  - rewrite wrap_sub_pow by lia. done.
Qed.

(** The extension of a five-byte s33 payload: its two top bits repeat the sign. *)
Lemma s33_extend q b :
  0 <= b < 128 -> Z.of_nat (length q) + 1 = 5 -> is_sint (33 - 7 * 4) (to_signed 7 b) ->
  (if negb (b .& 16 =? 0)
   then u64 (leb_val (q ++ [b])) .| u64 (UINT64_MAX ≪ 33)
   else u64 (leb_val (q ++ [b]))) = u64 (sleb_val (q ++ [b])).
Proof.
  intros Hb Hq Hfit. rewrite sleb_val_snoc, leb_val_snoc by done.
  replace (7 * Z.of_nat (length q)) with 28 by lia.
  pose proof (leb_val_range q) as Hr. replace (7 * Z.of_nat (length q)) with 28 in Hr by lia.
  unfold is_sint, to_signed in *. change (2 ^ (7 - 1)) with 64 in *. change (2 ^ 7) with 128 in *.
  change (2 ^ (33 - 7 * 4 - 1)) with 16 in Hfit.
  assert (Hbit : negb (b .& 16 =? 0) = negb (b <? 64)).
  { destruct (Z.ltb_spec b 64).
    - apply (eqb_prop _ false), (forall_below 16 (fun b => eqb (negb (b .& 16 =? 0)) false));
        [by vm_compute|lia].
    - replace b with (112 + (b - 112)) by lia.
      apply (eqb_prop _ true), (forall_below 16 (fun b => eqb (negb ((112 + b) .& 16 =? 0)) true));
        [by vm_compute|lia]. }
  rewrite Hbit. destruct (Z.ltb_spec b 64); simpl negb; [done|].
  rewrite wrap_lor by lia.
  replace (leb_val q + 2 ^ 28 * b) with ((leb_val q + 2 ^ 28 * (b - 96)) + 3 * 2 ^ 33) by lia.
  rewrite <- (lor_shiftl_add _ 3 33) by (split; simpl in *; lia).
  rewrite <- Z.lor_assoc, <- Z.shiftl_lor. change (3 .| UINT64_MAX) with (2 ^ 64 - 1).
  rewrite <- wrap_lor, wrap_or_ones by (lia || (split; simpl in *; lia)).
  f_equal. simpl in *. lia.
Qed.

(** Settles a side condition on one payload byte by evaluating all 128. *)
Ltac payload_table f :=
  intros b Hb; apply (bool_decide_eq_true _); refine (forall_below 128 f _ b Hb); by vm_compute.

Section DecoderSpecs.
Context (buf : list Z) (r r' : turbowasm_reader) (v : Z).

Lemma turbowasm_reader_uleb32_spec :
  reader_wf buf r -> bytes_ok (window buf r) ->
  turbowasm_reader_uleb32 buf r = (Some v, r') <->
  exists p, decodes buf r p r' /\ uleb_spec 32 p v.
Proof.
  intros Hwf Hok.
  rewrite <- (uleb_decoder buf r Hwf Hok 32 32 5 6
    (fun shift _ byte => (shift =? 28) && negb (byte .& 240 =? 0))
    (fun byte => negb (byte .& 240 =? 0))); try lia.
  - unfold turbowasm_reader_uleb32. split.
    + destruct (leb_loop _ _ _ _ _ _ _ _ _) as [[[[[? ?] ?] ?]|] ?]; [|done].
      intros [= <- <-]. eauto.
    + intros (? & ? & ? & ->). done.
  - intros i x Hi. f_equal. destruct (Z.eqb_spec (7 * i) 28), (Z.eqb_spec i (5 - 1)); lia || done.
  - payload_table (fun b => bool_decide (negb (b .& 240 =? 0) = false <-> b < 2 ^ (32 - 7 * (5 - 1)))).
Qed.

Lemma turbowasm_reader_uleb64_spec :
  reader_wf buf r -> bytes_ok (window buf r) ->
  turbowasm_reader_uleb64 buf r = (Some v, r') <->
  exists p, decodes buf r p r' /\ uleb_spec 64 p v.
Proof.
  intros Hwf Hok.
  rewrite <- (uleb_decoder buf r Hwf Hok 64 64 10 11
    (fun _ count byte => (count =? 9) && negb (byte .& 254 =? 0))
    (fun byte => negb (byte .& 254 =? 0))); try lia.
  - unfold turbowasm_reader_uleb64. split.
    + destruct (leb_loop _ _ _ _ _ _ _ _ _) as [[[[[? ?] ?] ?]|] ?]; [|done].
      intros [= <- <-]. eauto.
    + intros (? & ? & ? & ->). done.
  - intros i x Hi. done.
  - payload_table (fun b => bool_decide (negb (b .& 254 =? 0) = false <-> b < 2 ^ (64 - 7 * (10 - 1)))).
Qed.

Lemma turbowasm_reader_sleb32_spec :
  reader_wf buf r -> bytes_ok (window buf r) ->
  turbowasm_reader_sleb32 buf r = (Some v, r') <->
  exists p, decodes buf r p r' /\ sleb_spec 32 p v.
Proof.
  intros Hwf Hok.
  rewrite <- (sleb_decoder buf r Hwf Hok 32 32 5 6 _ _
    (fun value shift _ byte => if (shift <? 32) && negb (byte .& 64 =? 0)
       then value .| u32 (UINT32_MAX ≪ shift) else value)
    ltac:(lia) ltac:(lia) ltac:(lia) ltac:(lia) (tests_last_sleb 4 8 112)).
  - unfold turbowasm_reader_sleb32. split.
    + destruct (leb_loop _ _ _ _ _ _ _ _ _) as [[[[[? ?] ?] ?]|] ?]; [|done].
      intros [= <- <-]. do 4 eexists. split; [done|]. done.
    + intros (? & ? & ? & ? & -> & ->). done.
  - payload_table (fun b => bool_decide (sleb_reject 4 8 112 0 4 b = false <->
      is_sint (32 - 7 * (5 - 1)) (to_signed 7 b))).
  - intros q b Hb _ _. exact (sleb_extend 32 q b ltac:(lia) Hb).
Qed.

Lemma turbowasm_reader_sleb64_spec :
  reader_wf buf r -> bytes_ok (window buf r) ->
  turbowasm_reader_sleb64 buf r = (Some v, r') <->
  exists p, decodes buf r p r' /\ sleb_spec 64 p v.
Proof.
  intros Hwf Hok.
  rewrite <- (sleb_decoder buf r Hwf Hok 64 64 10 11 _ _
    (fun value shift _ byte => if (shift <? 64) && negb (byte .& 64 =? 0)
       then value .| u64 (UINT64_MAX ≪ shift) else value)
    ltac:(lia) ltac:(lia) ltac:(lia) ltac:(lia) (tests_last_sleb 9 1 126)).
  - unfold turbowasm_reader_sleb64. split.
    + destruct (leb_loop _ _ _ _ _ _ _ _ _) as [[[[[? ?] ?] ?]|] ?]; [|done].
      intros [= <- <-]. do 4 eexists. split; [done|]. done.
    + intros (? & ? & ? & ? & -> & ->). done.
  - payload_table (fun b => bool_decide (sleb_reject 9 1 126 0 9 b = false <->
      is_sint (64 - 7 * (10 - 1)) (to_signed 7 b))).
  - intros q b Hb _ _. exact (sleb_extend 64 q b ltac:(lia) Hb).
Qed.

Lemma turbowasm_validation_read_s33_spec :
  reader_wf buf r -> bytes_ok (window buf r) ->
  turbowasm_validation_read_s33 buf r = (Some v, r') <->
  exists p, decodes buf r p r' /\ sleb_spec 33 p v.
Proof.
  intros Hwf Hok.
  rewrite <- (sleb_decoder buf r Hwf Hok 33 64 5 6 _ _
    (fun value shift count byte =>
        if count =? 5 then
          if negb (byte .& 16 =? 0) then value .| u64 (UINT64_MAX ≪ 33) else value
        else if negb (byte .& 64 =? 0) && (shift <? 64)
             then value .| u64 (UINT64_MAX ≪ shift) else value)
    ltac:(lia) ltac:(lia) ltac:(lia) ltac:(lia) (tests_last_sleb 4 16 96)).
  - unfold turbowasm_validation_read_s33. split.
    + destruct (leb_loop _ _ _ _ _ _ _ _ _) as [[[[[? ?] ?] ?]|] ?]; [|done].
      intros [= <- <-]. do 4 eexists. split; [done|]. done.
    + intros (? & ? & ? & ? & -> & ->). done.
  - payload_table (fun b => bool_decide (sleb_reject 4 16 96 0 4 b = false <->
      is_sint (33 - 7 * (5 - 1)) (to_signed 7 b))).
  - intros q b Hb Hq Hfit count.
    unfold count; clear count. destruct (Z.eqb_spec (Z.of_nat (length q) + 1) 5) as [Hc|Hc].
    + apply (sleb_val_fits 33 4) in Hfit; [|lia..].
      by apply s33_extend.
    + rewrite andb_comm. exact (sleb_extend 64 q b ltac:(lia) Hb).
Qed.

End DecoderSpecs.

(** ** Confinement *)

(** [confined r r']: [r'] is [r] moved forward inside its own window. *)
Definition confined (buf : list Z) (r r' : turbowasm_reader) : Prop :=
  reader_wf buf r' /\ rend r' = rend r /\ window buf r' `suffix_of` window buf r.

Lemma confined_refl buf r : reader_wf buf r -> confined buf r r.
Proof. by split. Qed.

Lemma confined_trans buf r1 r2 r3 :
  confined buf r1 r2 -> confined buf r2 r3 -> confined buf r1 r3.
Proof.
  intros (_ & He & Hs) (Hwf' & He' & Hs'). split; [done|]. split; [congruence|by etrans].
Qed.

Lemma confined_advance buf r p rest :
  reader_wf buf r -> window buf r = p ++ rest -> confined buf r (advance r (Z.of_nat (length p))).
Proof.
  intros Hwf Hw. destruct (window_advance buf r p rest Hwf Hw) as [Hwf' Hw'].
  split; [done|]. split; [by destruct r|]. rewrite Hw', Hw. by exists p.
Qed.

Lemma u8_confined buf r : reader_wf buf r -> confined buf r (snd (turbowasm_reader_u8 buf r)).
Proof.
  intros Hwf. rewrite u8_window by done. destruct (window buf r) as [|b rest] eqn:Hw.
  - by apply confined_refl.
  - by apply (confined_advance buf r [b] rest).
Qed.

Lemma leb_loop_confined buf w limit reject fuel : forall r value shift count,
  reader_wf buf r -> confined buf r (snd (leb_loop buf fuel w limit reject r value shift count)).
Proof.
  induction fuel as [|fuel IH]; intros r value shift count Hwf; cbn [leb_loop];
    [by apply confined_refl|].
  destruct (count =? limit); [by apply confined_refl|].
  pose proof (u8_confined buf r Hwf) as Hc.
  destruct (turbowasm_reader_u8 buf r) as [[b|] r1]; simpl in Hc; [|done].
  destruct (reject shift count b); [done|].
  destruct (b .& 128 =? 0); [done|].
  eapply confined_trans; [done|]. apply IH. apply Hc.
Qed.

(** Two buffers that agree on the window are indistinguishable. *)
Definition same_window (buf buf' : list Z) (r : turbowasm_reader) : Prop :=
  reader_wf buf r /\ reader_wf buf' r /\ window buf r = window buf' r.

Lemma u8_frame buf buf' r :
  same_window buf buf' r -> turbowasm_reader_u8 buf r = turbowasm_reader_u8 buf' r.
Proof. intros (H1 & H2 & H3). by rewrite !u8_window, H3. Qed.

Lemma u8_same_window buf buf' r :
  same_window buf buf' r -> same_window buf buf' (snd (turbowasm_reader_u8 buf r)).
Proof.
  intros (H1 & H2 & H3). rewrite u8_window by done.
  destruct (window buf r) as [|b rest] eqn:Hw; [unfold same_window; simpl; split_and!; done || congruence|].
  symmetry in H3.
  destruct (window_advance buf r [b] rest H1 Hw), (window_advance buf' r [b] rest H2 H3).
  change (Z.of_nat (length [b])) with 1 in *. unfold same_window; simpl.
  split_and!; done || congruence.
Qed.

Lemma leb_loop_frame buf buf' w limit reject fuel : forall r value shift count,
  same_window buf buf' r ->
  leb_loop buf fuel w limit reject r value shift count =
  leb_loop buf' fuel w limit reject r value shift count.
Proof.
  induction fuel as [|fuel IH]; intros r value shift count Hsame; cbn [leb_loop]; [done|].
  destruct (count =? limit); [done|].
  pose proof (u8_same_window _ _ _ Hsame) as Hs. rewrite <- (u8_frame _ _ _ Hsame).
  destruct (turbowasm_reader_u8 buf r) as [[b|] r1]; [|done].
  destruct (reject shift count b); [done|]. destruct (b .& 128 =? 0); [done|]. by apply IH.
Qed.

Lemma window_byte_at buf r p rest :
  reader_wf buf r -> window buf r = p ++ rest ->
  match cursor r with
  | Some c => forall i, (i < length p)%nat -> byte_at buf (c + Z.of_nat i) = p !!! i
  | None => p = []
  end.
Proof.
  unfold window, reader_wf. destruct (cursor r) as [c|], (rend r) as [e|]; try done.
  - intros [H1 H2] Hw i Hi. unfold byte_at.
    assert (Hx : take (Z.to_nat (e - c)) (drop (Z.to_nat c) buf) !! i = Some (p !!! i)).
    { rewrite Hw, lookup_app_l by done. by apply list_lookup_lookup_total_lt. }
    apply lookup_take_Some in Hx as [Hx _]. rewrite lookup_drop in Hx.
    replace (Z.to_nat (c + Z.of_nat i)) with (Z.to_nat c + i)%nat by lia. by rewrite Hx.
  - intros _ Hw. by destruct p.
Qed.

(** The little-endian word at the front of the window. *)
Lemma u32le_window buf r :
  reader_wf buf r ->
  turbowasm_reader_u32le buf r =
    match window buf r with
    | b0 :: b1 :: b2 :: b3 :: _ =>
        (Some (b0 .| u32 (b1 ≪ 8) .| u32 (b2 ≪ 16) .| u32 (b3 ≪ 24)), advance r 4)
    | _ => (None, r)
    end.
Proof.
  intros Hwf. unfold turbowasm_reader_u32le. rewrite (remaining_window buf) by done.
  destruct (window buf r) as [|b0 [|b1 [|b2 [|b3 rest]]]] eqn:Hw; try done.
  destruct (Z.ltb_spec (Z.of_nat (length (b0 :: b1 :: b2 :: b3 :: rest))) 4); [simpl in *; lia|].
  pose proof (window_byte_at buf r [b0; b1; b2; b3] rest Hwf Hw) as Hb.
  destruct (cursor r) as [c|]; [|done].
  pose proof (Hb 0%nat ltac:(simpl; lia)) as E0. pose proof (Hb 1%nat ltac:(simpl; lia)) as E1.
  pose proof (Hb 2%nat ltac:(simpl; lia)) as E2. pose proof (Hb 3%nat ltac:(simpl; lia)) as E3.
  change (Z.of_nat 0) with 0 in E0. change (Z.of_nat 1) with 1 in E1.
  change (Z.of_nat 2) with 2 in E2. change (Z.of_nat 3) with 3 in E3.
  rewrite Z.add_0_r in E0. by rewrite E0, E1, E2, E3.
Qed.

(** What every read promises: it depends only on the bytes of the window, and
    the reader it leaves behind is the old one moved forward inside it. *)
Definition well_behaved {A} (d : list Z -> turbowasm_reader -> A * turbowasm_reader) : Prop :=
  forall buf buf' r, same_window buf buf' r ->
    d buf r = d buf' r /\ confined buf r (snd (d buf r)).

Lemma leb_decoder_well_behaved {A} fuel w limit reject
    (k : Z * Z * Z * Z -> A) (d : list Z -> turbowasm_reader -> option A * turbowasm_reader) :
  (forall buf r, d buf r = match leb_loop buf fuel w limit reject r 0 0 0 with
                           | (Some x, r') => (Some (k x), r')
                           | (None, r') => (None, r')
                           end) ->
  well_behaved d.
Proof.
  intros Hd buf buf' r Hsame. rewrite !Hd, <- (leb_loop_frame buf buf' w limit reject fuel r 0 0 0 Hsame).
  pose proof (leb_loop_confined buf w limit reject fuel r 0 0 0 (proj1 Hsame)) as Hc.
  destruct (leb_loop buf fuel w limit reject r 0 0 0) as [[x|] r']; done.
Qed.

Lemma turbowasm_reader_u8_wb : well_behaved turbowasm_reader_u8.
Proof. intros buf buf' r H. split; [by apply u8_frame|apply u8_confined, H]. Qed.

Lemma turbowasm_reader_u32le_wb : well_behaved turbowasm_reader_u32le.
Proof.
  intros buf buf' r (H1 & H2 & H3). rewrite !u32le_window, <- H3 by done. split; [done|].
  destruct (window buf r) as [|b0 [|b1 [|b2 [|b3 rest]]]] eqn:Hw; try by apply confined_refl.
  by apply (confined_advance buf r [b0; b1; b2; b3] rest).
Qed.

Lemma turbowasm_reader_uleb32_wb : well_behaved turbowasm_reader_uleb32.
Proof.
  eapply (leb_decoder_well_behaved 6 32 5
    (fun shift _ byte => (shift =? 28) && negb (byte .& 240 =? 0)) (fun x => x.1.1.1)). intros buf r.
  unfold turbowasm_reader_uleb32. by destruct (leb_loop _ _ _ _ _ _ _ _ _) as [[[[[? ?] ?] ?]|] ?].
Qed.

Lemma turbowasm_reader_uleb64_wb : well_behaved turbowasm_reader_uleb64.
Proof.
  eapply (leb_decoder_well_behaved 11 64 10
    (fun _ count byte => (count =? 9) && negb (byte .& 254 =? 0)) (fun x => x.1.1.1)). intros buf r.
  unfold turbowasm_reader_uleb64. by destruct (leb_loop _ _ _ _ _ _ _ _ _) as [[[[[? ?] ?] ?]|] ?].
Qed.

Lemma turbowasm_reader_sleb32_wb : well_behaved turbowasm_reader_sleb32.
Proof.
  eapply (leb_decoder_well_behaved 6 32 5 (sleb_reject 4 8 112) (fun '(value, shift, _, byte) =>
    s32 (if (shift <? 32) && negb (byte .& 64 =? 0)
         then value .| u32 (UINT32_MAX ≪ shift) else value))). intros buf r.
  unfold turbowasm_reader_sleb32. by destruct (leb_loop _ _ _ _ _ _ _ _ _) as [[[[[? ?] ?] ?]|] ?].
Qed.

Lemma turbowasm_reader_sleb64_wb : well_behaved turbowasm_reader_sleb64.
Proof.
  eapply (leb_decoder_well_behaved 11 64 10 (sleb_reject 9 1 126) (fun '(value, shift, _, byte) =>
    s64 (if (shift <? 64) && negb (byte .& 64 =? 0)
         then value .| u64 (UINT64_MAX ≪ shift) else value))). intros buf r.
  unfold turbowasm_reader_sleb64. by destruct (leb_loop _ _ _ _ _ _ _ _ _) as [[[[[? ?] ?] ?]|] ?].
Qed.

Lemma turbowasm_validation_read_s33_wb : well_behaved turbowasm_validation_read_s33.
Proof.
  eapply (leb_decoder_well_behaved 6 64 5 (sleb_reject 4 16 96) (fun '(value, shift, count, byte) =>
    s64 (if count =? 5 then
           if negb (byte .& 16 =? 0) then value .| u64 (UINT64_MAX ≪ 33) else value
         else if negb (byte .& 64 =? 0) && (shift <? 64)
              then value .| u64 (UINT64_MAX ≪ shift) else value))). intros buf r.
  unfold turbowasm_validation_read_s33.
  by destruct (leb_loop _ _ _ _ _ _ _ _ _) as [[[[[? ?] ?] ?]|] ?].
Qed.

(** ** Properties *)

(** Decoded numbers are in range, whatever the bytes. *)
Lemma leb_loop_uint buf w limit reject fuel : 0 <= w -> forall r value shift count v s c b r',
  is_uint w value -> leb_loop buf fuel w limit reject r value shift count = (Some (v, s, c, b), r') ->
  is_uint w v.
Proof.
  intros Hw. induction fuel as [|fuel IH]; intros r value shift count v s c b r' Hv; [done|].
  cbn [leb_loop]. destruct (count =? limit); [done|]. destruct (turbowasm_reader_u8 buf r) as [[byte|] r1]; [|done].
  destruct (reject shift count byte); [done|].
  assert (Hv' : is_uint w (value .| wrap w ((byte .& 127) ≪ shift))).
  { rewrite <- (wrap_id w value) by done. rewrite wrap_lor by done. by apply wrap_range. }
  destruct (_ =? 0); [intros [= <- _ _ _ _]; exact Hv'|]. by apply IH.
Qed.

Lemma uleb32_range buf r v r' : turbowasm_reader_uleb32 buf r = (Some v, r') -> is_uint 32 v.
Proof.
  unfold turbowasm_reader_uleb32. destruct (leb_loop _ _ _ _ _ _ _ _ _) as [[[[[v' s] c] b]|] r1] eqn:E; [|done].
  intros [= <- <-]. eapply leb_loop_uint in E; [done|lia|split; simpl; lia].
Qed.

Lemma uleb64_range buf r v r' : turbowasm_reader_uleb64 buf r = (Some v, r') -> is_uint 64 v.
Proof.
  unfold turbowasm_reader_uleb64. destruct (leb_loop _ _ _ _ _ _ _ _ _) as [[[[[v' s] c] b]|] r1] eqn:E; [|done].
  intros [= <- <-]. eapply leb_loop_uint in E; [done|lia|split; simpl; lia].
Qed.

(** C35. The unsigned decoders accept exactly the [u32] and [u64] encodings of
    the WebAssembly binary grammar: they return [v] and consume [p] if and only
    if [p] is a prefix of the unread bytes which the grammar derives for [v];
    truncated, over-long and overflowing encodings are refused. *)
Theorem uleb_decoders_correct buf r r' v :
  reader_wf buf r -> bytes_ok (window buf r) ->
  (turbowasm_reader_uleb32 buf r = (Some v, r') <->
     exists p, decodes buf r p r' /\ uleb_spec 32 p v) /\
  (turbowasm_reader_uleb64 buf r = (Some v, r') <->
     exists p, decodes buf r p r' /\ uleb_spec 64 p v).
Proof.
  intros. split; [by apply turbowasm_reader_uleb32_spec|by apply turbowasm_reader_uleb64_spec].
Qed.

(** C36. The signed decoders (i32 and i64 constants, and the 33-bit heap and
    block types) accept exactly the [s32], [s64] and [s33] encodings and return
    the sign-extended value. *)
Theorem sleb_decoders_correct buf r r' v :
  reader_wf buf r -> bytes_ok (window buf r) ->
  (turbowasm_reader_sleb32 buf r = (Some v, r') <->
     exists p, decodes buf r p r' /\ sleb_spec 32 p v) /\
  (turbowasm_reader_sleb64 buf r = (Some v, r') <->
     exists p, decodes buf r p r' /\ sleb_spec 64 p v) /\
  (turbowasm_validation_read_s33 buf r = (Some v, r') <->
     exists p, decodes buf r p r' /\ sleb_spec 33 p v).
Proof.
  intros. split_and!; [by apply turbowasm_reader_sleb32_spec|
    by apply turbowasm_reader_sleb64_spec|by apply turbowasm_validation_read_s33_spec].
Qed.

(** C39. No decoder looks outside the reader's window: on two buffers that agree
    there it returns the same result and the same reader, and the reader it
    leaves, also when it fails, is the old one moved forward inside the window. *)
Theorem decoders_confined buf buf' r :
  same_window buf buf' r ->
  Forall (fun d => d buf r = d buf' r /\ confined buf r (snd (d buf r)))
    [turbowasm_reader_u8; turbowasm_reader_u32le; turbowasm_reader_uleb32;
     turbowasm_reader_uleb64; turbowasm_reader_sleb32; turbowasm_reader_sleb64;
     turbowasm_validation_read_s33].
Proof.
  intros Hs.
  apply Forall_cons_2; [exact (turbowasm_reader_u8_wb _ _ _ Hs)|].
  apply Forall_cons_2; [exact (turbowasm_reader_u32le_wb _ _ _ Hs)|].
  apply Forall_cons_2; [exact (turbowasm_reader_uleb32_wb _ _ _ Hs)|].
  apply Forall_cons_2; [exact (turbowasm_reader_uleb64_wb _ _ _ Hs)|].
  apply Forall_cons_2; [exact (turbowasm_reader_sleb32_wb _ _ _ Hs)|].
  apply Forall_cons_2; [exact (turbowasm_reader_sleb64_wb _ _ _ Hs)|].
  apply Forall_cons_2; [exact (turbowasm_validation_read_s33_wb _ _ _ Hs)|].
  apply Forall_nil_2.
Qed.

Lemma slice_window buf r n :
  reader_wf buf r -> 0 <= n ->
  match turbowasm_reader_slice r n with
  | (Some s, r') =>
      n <= Z.of_nat (length (window buf r)) /\ reader_wf buf s /\ reader_wf buf r' /\
      window buf r = window buf s ++ window buf r' /\ Z.of_nat (length (window buf s)) = n
  | (None, r') => Z.of_nat (length (window buf r)) < n /\ r' = r
  end.
Proof.
  intros Hwf Hn. unfold turbowasm_reader_slice. rewrite (remaining_window buf) by done.
  destruct (Z.ltb_spec (Z.of_nat (length (window buf r))) n); [done|].
  pose proof Hwf as Hwf0. unfold reader_wf, window, advance in *.
  destruct (cursor r) as [c|], (rend r) as [e|]; simpl in *; try done; [|split_and!; done || lia].
  rewrite length_take, length_drop in *.
  split_and!; [lia..| |].
  - replace (Z.to_nat (c + n - c)) with (Z.to_nat n) by lia.
    replace (Z.to_nat (c + n)) with (Z.to_nat c + Z.to_nat n)%nat by lia.
    replace (Z.to_nat (e - c)) with (Z.to_nat n + Z.to_nat (e - (c + n)))%nat by lia.
    rewrite <- drop_drop, <- take_take_drop. done.
  - rewrite length_take, length_drop. lia.
Qed.

(** Slicing partitions: [turbowasm_reader_slice] succeeds exactly when
    enough bytes remain, the sub-reader covers exactly the next [n] bytes, the
    outer reader continues after them, and a failure leaves the reader alone. *)
Theorem slice_partition buf r n :
  reader_wf buf r -> 0 <= n ->
  (n <= Z.of_nat (length (window buf r)) <-> is_Some (fst (turbowasm_reader_slice r n))) /\
  (forall s r', turbowasm_reader_slice r n = (Some s, r') ->
     reader_wf buf s /\ reader_wf buf r' /\ Z.of_nat (length (window buf s)) = n /\
     window buf r = window buf s ++ window buf r') /\
  (forall r', turbowasm_reader_slice r n = (None, r') -> r' = r).
Proof.
  intros Hwf Hn. pose proof (slice_window buf r n Hwf Hn) as H.
  destruct (turbowasm_reader_slice r n) as [[s|] r']; simpl.
  - destruct H as (H1 & H2 & H3 & H4 & H5). split_and!.
    + split; [by eexists|done].
    + intros s' r'' [= <- <-]. done.
    + done.
  - destruct H as [H1 ->]. split_and!.
    + split; [lia|by intros [? ?]].
    + done.
    + by intros r' [= <-].
Qed.

(** *** Witnesses *)

Definition sample : list Z := [229; 142; 38; 192; 187; 120; 7].
Definition sample_reader : turbowasm_reader := turbowasm_reader_init (Some 0) 7.

Lemma sample_wf : reader_wf sample sample_reader.
Proof. vm_compute. split; [split|]; discriminate. Qed.

Lemma sample_bytes : bytes_ok (window sample sample_reader).
Proof. apply (bool_decide_unpack _). by vm_compute. Qed.

Lemma uleb_decoders_correct_witness :
  exists p, decodes sample sample_reader p (mk_reader (Some 3) (Some 7)) /\ uleb_spec 32 p 624485.
Proof.
  apply (uleb_decoders_correct sample sample_reader (mk_reader (Some 3) (Some 7)) 624485
           sample_wf sample_bytes).
  reflexivity.
Defined.

Lemma sleb_decoders_correct_witness :
  exists p, decodes sample (mk_reader (Some 3) (Some 7)) p (mk_reader (Some 6) (Some 7)) /\
            sleb_spec 32 p (-123456).
Proof.
  apply (sleb_decoders_correct sample (mk_reader (Some 3) (Some 7))
           (mk_reader (Some 6) (Some 7)) (-123456)).
  - vm_compute. split; [split|]; discriminate.
  - apply (bool_decide_unpack _). by vm_compute.
  - reflexivity.
Defined.

Lemma decoders_confined_witness :
  confined sample sample_reader (snd (turbowasm_reader_uleb32 sample sample_reader)).
Proof.
  assert (H : same_window sample (sample ++ [1]) sample_reader)
    by (split; [|split]; [apply sample_wf|vm_compute; split; [split|]; discriminate|reflexivity]).
  pose proof (decoders_confined sample (sample ++ [1]) sample_reader H) as HF.
  rewrite !Forall_cons in HF. apply HF.
Defined.

Lemma slice_partition_witness :
  window sample sample_reader =
    window sample (mk_reader (Some 0) (Some 3)) ++ window sample (mk_reader (Some 3) (Some 7)).
Proof.
  apply (slice_partition sample sample_reader 3 sample_wf ltac:(lia)). reflexivity.
Defined.

End Reader.
