(* ===== verification/Value.v ===== *)
(** * Host values (include/turbowasm/value.h, src/value.c and the value
    helpers at the top of src/instance.c)

    A [turbowasm_value] is a kind tag and a union; the union member the tag
    selects is the constructor's argument. Floating-point members are kept as
    their bit patterns. A pointer is an address, [0] being NULL. *)

From S2P Require Import Prelude.

Module Value.

Definition ptr : Type := Z.
Definition NULL : ptr := 0.

Inductive turbowasm_value_kind :=
  | TURBOWASM_VALUE_I32
  | TURBOWASM_VALUE_I64
  | TURBOWASM_VALUE_F32
  | TURBOWASM_VALUE_F64
  | TURBOWASM_VALUE_V128
  | TURBOWASM_VALUE_FUNCREF
  | TURBOWASM_VALUE_EXTERNREF
  | TURBOWASM_VALUE_GCREF
  | TURBOWASM_VALUE_EXNREF
  | TURBOWASM_VALUE_MANAGED_EXTERNREF
  | TURBOWASM_VALUE_ZERO.  (** the tag [(turbowasm_value_kind)0] of a cleared value *)

#[global] Instance turbowasm_value_kind_eq_dec : EqDecision turbowasm_value_kind.
Proof. solve_decision. Defined.

Inductive turbowasm_v128_shape :=
  | TURBOWASM_V128_RAW
  | TURBOWASM_V128_I8X16 | TURBOWASM_V128_U8X16
  | TURBOWASM_V128_I16X8 | TURBOWASM_V128_U16X8
  | TURBOWASM_V128_I32X4 | TURBOWASM_V128_U32X4
  | TURBOWASM_V128_I64X2 | TURBOWASM_V128_U64X2
  | TURBOWASM_V128_F32X4 | TURBOWASM_V128_F64X2
  | TURBOWASM_V128_B8X16 | TURBOWASM_V128_B16X8
  | TURBOWASM_V128_B32X4 | TURBOWASM_V128_B64X2.

#[global] Instance turbowasm_v128_shape_eq_dec : EqDecision turbowasm_v128_shape.
Proof. solve_decision. Defined.

Record turbowasm_funcref := mk_funcref
  { funcref_is_null : bool; funcref_function_index : Z; funcref_owner : ptr }.
Record turbowasm_externref := mk_externref { externref_is_null : bool; externref_token : Z }.
Record turbowasm_exnref := mk_exnref { exnref_is_null : bool; exnref_exception : ptr }.
Record turbowasm_gcref := mk_gcref { gcref_store : ptr; gcref_handle : Z }.

#[global] Instance turbowasm_funcref_eq_dec : EqDecision turbowasm_funcref.
Proof. solve_decision. Defined.
#[global] Instance turbowasm_externref_eq_dec : EqDecision turbowasm_externref.
Proof. solve_decision. Defined.
#[global] Instance turbowasm_exnref_eq_dec : EqDecision turbowasm_exnref.
Proof. solve_decision. Defined.
#[global] Instance turbowasm_gcref_eq_dec : EqDecision turbowasm_gcref.
Proof. solve_decision. Defined.

(** [VI32] and [VI64] hold the signed number; [VF32], [VF64] and [VV128] the
    bit pattern. *)
Inductive turbowasm_value :=
  | VI32 (i32 : Z)
  | VI64 (i64 : Z)
  | VF32 (bits : Z)
  | VF64 (bits : Z)
  | VV128 (bits : Z) (shape : turbowasm_v128_shape)
  | VFuncref (ref : turbowasm_funcref)
  | VExternref (ref : turbowasm_externref)
  | VGcref (ref : turbowasm_gcref)
  | VExnref (ref : turbowasm_exnref)
  | VManagedExternref (ref : turbowasm_gcref)
  | VZero.

#[global] Instance turbowasm_value_eq_dec : EqDecision turbowasm_value.
Proof. solve_decision. Defined.

Definition value_kind (v : turbowasm_value) : turbowasm_value_kind :=
  match v with
  | VI32 _ => TURBOWASM_VALUE_I32
  | VI64 _ => TURBOWASM_VALUE_I64
  | VF32 _ => TURBOWASM_VALUE_F32
  | VF64 _ => TURBOWASM_VALUE_F64
  | VV128 _ _ => TURBOWASM_VALUE_V128
  | VFuncref _ => TURBOWASM_VALUE_FUNCREF
  | VExternref _ => TURBOWASM_VALUE_EXTERNREF
  | VGcref _ => TURBOWASM_VALUE_GCREF
  | VExnref _ => TURBOWASM_VALUE_EXNREF
  | VManagedExternref _ => TURBOWASM_VALUE_MANAGED_EXTERNREF
  | VZero => TURBOWASM_VALUE_ZERO
  end.

(** Value type bytes of the binary format. *)
Definition turbowasm_kind_from_valtype (type : Z) : turbowasm_value_kind :=
  if type =? 0x7f then TURBOWASM_VALUE_I32
  else if type =? 0x7e then TURBOWASM_VALUE_I64
  else if type =? 0x7d then TURBOWASM_VALUE_F32
  else if type =? 0x7c then TURBOWASM_VALUE_F64
  else if type =? 0x7b then TURBOWASM_VALUE_V128
  else if type =? 0x70 then TURBOWASM_VALUE_FUNCREF
  else if type =? 0x6f then TURBOWASM_VALUE_EXTERNREF
  else if type =? 0x6e then TURBOWASM_VALUE_GCREF
  else if type =? 0x69 then TURBOWASM_VALUE_EXNREF
  else TURBOWASM_VALUE_ZERO.

Definition turbowasm_value_matches_type (value : turbowasm_value) (type : Z) : bool :=
  let kind := turbowasm_kind_from_valtype type in
  bool_decide (kind <> TURBOWASM_VALUE_ZERO) &&
  (bool_decide (value_kind value = kind) ||
   (bool_decide (kind = TURBOWASM_VALUE_EXTERNREF) &&
    bool_decide (value_kind value = TURBOWASM_VALUE_MANAGED_EXTERNREF))).

(** [None] is the TYPE_MISMATCH return for a non-reference. *)
Definition turbowasm_reference_is_null (value : turbowasm_value) : option bool :=
  match value with
  | VFuncref f => Some (funcref_is_null f)
  | VExternref e => Some (externref_is_null e)
  | VExnref e => Some (exnref_is_null e)
  | VGcref g | VManagedExternref g => Some (gcref_handle g =? 0)
  | _ => None
  end.

(** The default value of a local or of a table slot; [None] is the [false] return. *)
Definition turbowasm_zero_value (type : Z) : option turbowasm_value :=
  match turbowasm_kind_from_valtype type with
  | TURBOWASM_VALUE_ZERO => None
  | TURBOWASM_VALUE_I32 => Some (VI32 0)
  | TURBOWASM_VALUE_I64 => Some (VI64 0)
  | TURBOWASM_VALUE_F32 => Some (VF32 0)
  | TURBOWASM_VALUE_F64 => Some (VF64 0)
  | TURBOWASM_VALUE_V128 => Some (VV128 0 TURBOWASM_V128_RAW)
  | TURBOWASM_VALUE_FUNCREF => Some (VFuncref (mk_funcref true UINT32_MAX NULL))
  | TURBOWASM_VALUE_EXTERNREF => Some (VExternref (mk_externref true 0))
  | TURBOWASM_VALUE_EXNREF => Some (VExnref (mk_exnref true NULL))
  | TURBOWASM_VALUE_GCREF => Some (VGcref (mk_gcref NULL 0))
  | TURBOWASM_VALUE_MANAGED_EXTERNREF => Some (VManagedExternref (mk_gcref NULL 0))
  end.

(** ** Well-formed values and defaults *)

(** The union members hold values of their C types. *)
Definition value_wf (v : turbowasm_value) : Prop :=
  match v with
  | VI32 z => is_sint 32 z
  | VI64 z => is_sint 64 z
  | VF32 b => is_uint 32 b
  | VF64 b => is_uint 64 b
  | VV128 b _ => is_uint 128 b
  | VFuncref f => is_uint 32 (funcref_function_index f)
  | VExternref e => is_uint 64 (externref_token e)
  | VGcref g | VManagedExternref g => is_uint 64 (gcref_handle g)
  | VExnref _ | VZero => True
  end.

Lemma zero_value_matches type v :
  turbowasm_zero_value type = Some v ->
  turbowasm_value_matches_type v type = true /\ value_wf v /\
  (turbowasm_reference_is_null v = None \/ turbowasm_reference_is_null v = Some true).
Proof.
  unfold turbowasm_zero_value, turbowasm_value_matches_type.
  destruct (turbowasm_kind_from_valtype type) eqn:Hk; intros [= <-]; simpl;
    (split_and!; [done| |auto]); try done; by apply (bool_decide_unpack _).
Qed.

End Value.
