(* ===== verification/Resource.v ===== *)
(** * The component handle table (src/component_resource.c)

    Handles of resources, waitable sets, subtasks and stream or future ends
    share one table of slots. A handle packs a slot number and the slot's
    generation; removing an entry bumps the generation, so a stale handle does
    not resolve. A borrowed resource may charge a counter of the task that
    borrows it: the counters live at the addresses of [w_scopes].

    The growth of the table calls [turbowasm_rt_realloc]: [realloc_ok n] says
    whether the request for [n] bytes succeeds, and [sizeof_entry] is the size
    of an entry on the host. One operation makes at most one such call. *)

From stdpp Require Import gmap.
From S2P Require Import Prelude Value.

Module Resource.
Import Value.

Definition MAX_SLOTS : Z := 65535.
Definition MAX_GENERATION : Z := 4095.
Definition MAX_HANDLE : Z := 0x0fffffff.
Definition SLOT_BITS : Z := 16.
Definition SLOT_MASK : Z := 0xffff.
Definition SIZE_MAX : Z := UINT64_MAX.

Inductive turbowasm_component_handle_kind :=
  | HANDLE_RESOURCE
  | HANDLE_WAITABLE_SET
  | HANDLE_SUBTASK
  | HANDLE_STREAM_READ
  | HANDLE_STREAM_WRITE
  | HANDLE_FUTURE_READ
  | HANDLE_FUTURE_WRITE
  | HANDLE_RESOURCE_RESERVATION
  | HANDLE_INVALID.

#[global] Instance handle_kind_eq_dec : EqDecision turbowasm_component_handle_kind.
Proof. solve_decision. Defined.

Record turbowasm_component_resource_entry := mk_entry {
  kind : turbowasm_component_handle_kind;
  object : ptr;
  resource_identity : Z;
  rep : turbowasm_value;
  generation : Z;
  lend_count : Z;
  borrow_scope : ptr;
  occupied : bool;
  retired : bool;
  owned : bool
}.

Record turbowasm_component_resource_table := mk_table {
  entries : list turbowasm_component_resource_entry;
  capacity : Z;
  live_count : Z;
  max_entries : Z
}.

(** The table and the memory that holds the borrow counters. *)
Record world := mk_world {
  w_table : turbowasm_component_resource_table;
  w_scopes : gmap Z Z
}.

(** An entry of freshly grown, zeroed storage. *)
Definition zero_entry : turbowasm_component_resource_entry :=
  mk_entry HANDLE_RESOURCE NULL 0 VZero 0 0 NULL false false false.

Definition zero_table : turbowasm_component_resource_table := mk_table [] 0 0 0.

(** *** Handles *)

Definition handle_decode (handle : Z) : option (Z * Z) :=
  if (handle =? 0) || (handle >? MAX_HANDLE) then None
  else
    let slot := handle .& SLOT_MASK in
    let gen := handle ≫ SLOT_BITS in
    if (slot =? 0) || (gen =? 0) || (gen >? MAX_GENERATION) then None
    else Some (slot - 1, gen).

Definition handle_encode (index gen : Z) : Z :=
  let slot := u32 (index + 1) in
  if (slot =? 0) || (slot >? SLOT_MASK) || (gen =? 0) || (gen >? MAX_GENERATION) then 0
  else u32 (gen ≪ SLOT_BITS) .| slot.

(** The entry a handle denotes, with its index. *)
Definition entry_get (t : turbowasm_component_resource_table) (handle : Z)
    : option (Z * turbowasm_component_resource_entry) :=
  match handle_decode handle with
  | None => None
  | Some (index, gen) =>
      if index >=? capacity t then None
      else match entries t !! Z.to_nat index with
           | None => None
           | Some e =>
               if negb (occupied e) || negb (generation e =? gen) then None
               else Some (index, e)
           end
  end.

Definition entry_set (t : turbowasm_component_resource_table) (index : Z)
    (e : turbowasm_component_resource_entry) : turbowasm_component_resource_table :=
  mk_table (<[Z.to_nat index := e]> (entries t)) (capacity t) (live_count t) (max_entries t).

Definition with_live (t : turbowasm_component_resource_table) (n : Z)
    : turbowasm_component_resource_table :=
  mk_table (entries t) (capacity t) n (max_entries t).

(** *** Life cycle of the table *)

Definition turbowasm_component_resource_table_init
    (t : turbowasm_component_resource_table) (max : Z)
    : bool * turbowasm_component_resource_table :=
  if negb (bool_decide (entries t = [])) || negb (capacity t =? 0) ||
     negb (live_count t =? 0) || negb (max_entries t =? 0) then (false, t)
  else
    let max := if max =? 0 then MAX_SLOTS else max in
    if max >? MAX_SLOTS then (false, t)
    else (true, mk_table (entries t) (capacity t) (live_count t) max).

Definition turbowasm_component_resource_table_destroy
    (t : turbowasm_component_resource_table) : turbowasm_component_resource_table := zero_table.

Section Allocation.
Context (sizeof_entry : Z) (realloc_ok : Z -> bool).

Definition table_grow (t : turbowasm_component_resource_table)
    : option turbowasm_component_resource_table :=
  if capacity t >=? max_entries t then None
  else
    let next := if capacity t =? 0 then 8 else u32 (capacity t * 2) in
    let next := if (next <? capacity t) || (next >? max_entries t) then max_entries t else next in
    if next >? SIZE_MAX / sizeof_entry then None
    else if negb (realloc_ok (next * sizeof_entry)) then None
    else Some (mk_table (entries t ++ replicate (Z.to_nat (next - capacity t)) zero_entry)
                 next (live_count t) (max_entries t)).

(** The scan for a free slot: index of the first entry neither occupied nor retired. *)
Definition find_free (t : turbowasm_component_resource_table)
    : option (nat * turbowasm_component_resource_entry) :=
  list_find (fun e => occupied e = false /\ retired e = false)
    (take (Z.to_nat (capacity t)) (entries t)).

Definition entry_claim (t : turbowasm_component_resource_table) (index : Z)
    (e : turbowasm_component_resource_entry)
    : turbowasm_status * turbowasm_component_resource_table * option (Z * Z) :=
  let gen := if generation e =? 0 then 1 else generation e in
  let e1 := mk_entry (kind e) (object e) (resource_identity e) (rep e) gen
              (lend_count e) (borrow_scope e) true (retired e) (owned e) in
  let t1 := with_live (entry_set t index e1) (u32 (live_count t + 1)) in
  let handle := handle_encode index gen in
  if handle =? 0 then
    let e2 := mk_entry (kind e) (object e) (resource_identity e) (rep e) gen
                (lend_count e) (borrow_scope e) false (retired e) false in
    (TURBOWASM_INVALID_ARGUMENT,
     with_live (entry_set t1 index e2) (u32 (live_count t1 - 1)), None)
  else (TURBOWASM_OK, t1, Some (handle, index)).

(** The outer loop scans, grows and scans again. *)
Fixpoint entry_allocate_loop (fuel : nat) (t : turbowasm_component_resource_table)
    : turbowasm_status * turbowasm_component_resource_table * option (Z * Z) :=
  match fuel with
  | O => (TURBOWASM_OUT_OF_MEMORY, t, None)
  | S fuel' =>
      match find_free t with
      | Some (index, e) => entry_claim t (Z.of_nat index) e
      | None =>
          match table_grow t with
          | None => (TURBOWASM_OUT_OF_MEMORY, t, None)
          | Some t' => entry_allocate_loop fuel' t'
          end
      end
  end.

(** Returns the status, the table and, on success, the handle with its index. *)
Definition entry_allocate (t : turbowasm_component_resource_table)
    : turbowasm_status * turbowasm_component_resource_table * option (Z * Z) :=
  if max_entries t =? 0 then (TURBOWASM_INVALID_ARGUMENT, t, None)
  else entry_allocate_loop 2 t.

(** Overwrite the fields a constructor sets in the slot it was given. *)
Definition entry_update (t : turbowasm_component_resource_table) (index : Z)
    (f : turbowasm_component_resource_entry -> turbowasm_component_resource_entry)
    : turbowasm_component_resource_table :=
  match entries t !! Z.to_nat index with
  | None => t
  | Some e => entry_set t index (f e)
  end.

Definition resource_new (t : turbowasm_component_resource_table) (identity : Z)
    (r : turbowasm_value) (own : bool)
    : turbowasm_status * turbowasm_component_resource_table * option Z :=
  if identity =? 0 then (TURBOWASM_INVALID_ARGUMENT, t, None)
  else match entry_allocate t with
       | (TURBOWASM_OK, t', Some (handle, index)) =>
           (TURBOWASM_OK,
            entry_update t' index (fun e =>
              mk_entry HANDLE_RESOURCE (object e) identity r (generation e)
                (lend_count e) (borrow_scope e) (occupied e) (retired e) own),
            Some handle)
       | (status, t', _) => (status, t', None)
       end.

Definition turbowasm_component_resource_new_owned t identity r := resource_new t identity r true.
Definition turbowasm_component_resource_new_borrowed t identity r := resource_new t identity r false.

(** The kinds strictly between RESOURCE and INVALID. *)
Definition private_kind (k : turbowasm_component_handle_kind) : bool :=
  negb (bool_decide (k = HANDLE_RESOURCE)) && negb (bool_decide (k = HANDLE_INVALID)).

Definition turbowasm_component_handle_insert (t : turbowasm_component_resource_table)
    (k : turbowasm_component_handle_kind) (obj : ptr)
    : turbowasm_status * turbowasm_component_resource_table * option Z :=
  if negb (private_kind k) || (obj =? NULL) then (TURBOWASM_INVALID_ARGUMENT, t, None)
  else match entry_allocate t with
       | (TURBOWASM_OK, t', Some (handle, index)) =>
           (TURBOWASM_OK,
            entry_update t' index (fun e =>
              mk_entry k obj (resource_identity e) (rep e) (generation e)
                (lend_count e) (borrow_scope e) (occupied e) (retired e) (owned e)),
            Some handle)
       | (status, t', _) => (status, t', None)
       end.

End Allocation.

(** *** Queries *)

Definition turbowasm_component_handle_kind_get (t : turbowasm_component_resource_table)
    (handle : Z) : turbowasm_component_handle_kind :=
  match entry_get t handle with
  | None => HANDLE_INVALID
  | Some (_, e) => kind e
  end.

Definition turbowasm_component_handle_object (t : turbowasm_component_resource_table)
    (handle : Z) (k : turbowasm_component_handle_kind) : ptr :=
  match entry_get t handle with
  | None => NULL
  | Some (_, e) => if negb (bool_decide (kind e = k)) || negb (private_kind k) then NULL else object e
  end.

Definition turbowasm_component_handle_at (t : turbowasm_component_resource_table) (index : Z)
    : option (Z * turbowasm_component_handle_kind * ptr) :=
  if index >=? capacity t then None
  else match entries t !! Z.to_nat index with
       | None => None
       | Some e => if negb (occupied e) then None
                   else Some (handle_encode index (generation e), kind e, object e)
       end.

Definition turbowasm_component_resource_rep (t : turbowasm_component_resource_table)
    (handle expected : Z) : turbowasm_status * option turbowasm_value :=
  if expected =? 0 then (TURBOWASM_INVALID_ARGUMENT, None)
  else match entry_get t handle with
       | None => (TURBOWASM_TRAPPED, None)
       | Some (_, e) =>
           if negb (bool_decide (kind e = HANDLE_RESOURCE)) then (TURBOWASM_TRAPPED, None)
           else if negb (resource_identity e =? expected) then (TURBOWASM_TRAPPED, None)
           else (TURBOWASM_OK, Some (rep e))
       end.

(** *** Mutations of one entry *)

Definition is_resource (e : turbowasm_component_resource_entry) (expected : Z) : bool :=
  bool_decide (kind e = HANDLE_RESOURCE) && (resource_identity e =? expected).

Definition with_lend (e : turbowasm_component_resource_entry) (n : Z)
    : turbowasm_component_resource_entry :=
  mk_entry (kind e) (object e) (resource_identity e) (rep e) (generation e) n
    (borrow_scope e) (occupied e) (retired e) (owned e).

Definition turbowasm_component_resource_lend_acquire (t : turbowasm_component_resource_table)
    (handle expected : Z) : turbowasm_status * turbowasm_component_resource_table :=
  if expected =? 0 then (TURBOWASM_INVALID_ARGUMENT, t)
  else match entry_get t handle with
       | None => (TURBOWASM_TRAPPED, t)
       | Some (index, e) =>
           if negb (is_resource e expected) then (TURBOWASM_TRAPPED, t)
           else if lend_count e =? UINT32_MAX then (TURBOWASM_TRAPPED, t)
           else (TURBOWASM_OK, entry_set t index (with_lend e (lend_count e + 1)))
       end.

Definition turbowasm_component_resource_lend_release (t : turbowasm_component_resource_table)
    (handle expected : Z) : turbowasm_status * turbowasm_component_resource_table :=
  if expected =? 0 then (TURBOWASM_INVALID_ARGUMENT, t)
  else match entry_get t handle with
       | None => (TURBOWASM_TRAPPED, t)
       | Some (index, e) =>
           if negb (is_resource e expected) || (lend_count e =? 0) then (TURBOWASM_TRAPPED, t)
           else (TURBOWASM_OK, entry_set t index (with_lend e (lend_count e - 1)))
       end.

(** The only representations a reservation may be published with. *)
Definition rep_kind_ok (r : turbowasm_value) : bool :=
  bool_decide (value_kind r = TURBOWASM_VALUE_I32) || bool_decide (value_kind r = TURBOWASM_VALUE_I64).

Definition turbowasm_component_resource_publish (t : turbowasm_component_resource_table)
    (handle : Z) (reservation : ptr) (identity : Z) (r : turbowasm_value)
    : turbowasm_status * turbowasm_component_resource_table :=
  if (reservation =? NULL) || (identity =? 0) || negb (rep_kind_ok r)
  then (TURBOWASM_INVALID_ARGUMENT, t)
  else match entry_get t handle with
       | None => (TURBOWASM_TRAPPED, t)
       | Some (index, e) =>
           if negb (bool_decide (kind e = HANDLE_RESOURCE_RESERVATION)) ||
              negb (object e =? reservation) then (TURBOWASM_TRAPPED, t)
           else (TURBOWASM_OK,
                 entry_set t index
                   (mk_entry HANDLE_RESOURCE NULL identity r (generation e) (lend_count e)
                      (borrow_scope e) (occupied e) (retired e) true))
       end.

(** *** Operations that touch a borrow counter *)

Definition scope_get (w : world) (p : ptr) : Z := default 0 (w_scopes w !! p).

Definition scope_set (w : world) (p : ptr) (n : Z) : world :=
  mk_world (w_table w) (<[p := n]> (w_scopes w)).

Definition turbowasm_component_resource_publish_borrowed (w : world)
    (handle : Z) (reservation : ptr) (identity : Z) (r : turbowasm_value) (scope : ptr)
    : turbowasm_status * world :=
  if scope =? NULL then (TURBOWASM_INVALID_ARGUMENT, w)
  else if scope_get w scope =? UINT32_MAX then (TURBOWASM_OUT_OF_MEMORY, w)
  else match turbowasm_component_resource_publish (w_table w) handle reservation identity r with
       | (TURBOWASM_OK, t) =>
           match entry_get t handle with
           | None => (TURBOWASM_OK, mk_world t (w_scopes w))
           | Some (index, e) =>
               (TURBOWASM_OK,
                scope_set
                  (mk_world (entry_set t index
                     (mk_entry (kind e) (object e) (resource_identity e) (rep e) (generation e)
                        (lend_count e) scope (occupied e) (retired e) false)) (w_scopes w))
                  scope (u32 (scope_get w scope + 1)))
           end
       | (status, t) => (status, mk_world t (w_scopes w))
       end.

Definition resource_entry_remove (w : world) (index : Z)
    (e : turbowasm_component_resource_entry) : world :=
  let w1 := if borrow_scope e =? NULL then w
            else scope_set w (borrow_scope e) (u32 (scope_get w (borrow_scope e) - 1)) in
  let last := generation e =? MAX_GENERATION in
  let e' := mk_entry HANDLE_RESOURCE NULL 0 VZero
              (if last then generation e else generation e + 1) 0 NULL false
              (if last then true else retired e) false in
  let t := w_table w1 in
  mk_world (with_live (entry_set t index e')
              (if live_count t =? 0 then live_count t else live_count t - 1)) (w_scopes w1).

(** First pass of [scope_clear]: [None] when an entry of the scope may not go. *)
Fixpoint scope_scan (es : list turbowasm_component_resource_entry) (scope : ptr) (count : Z)
    : option Z :=
  match es with
  | [] => Some count
  | e :: es' =>
      if negb (occupied e) || negb (borrow_scope e =? scope) then scope_scan es' scope count
      else if negb (bool_decide (kind e = HANDLE_RESOURCE)) || owned e || negb (lend_count e =? 0)
           then None
           else scope_scan es' scope (u32 (count + 1))
  end.

(** Second pass: remove every entry of the scope, lowest index first; [todo]
    slots are left to visit. *)
Fixpoint scope_remove (todo : nat) (w : world) (scope : ptr) : world :=
  match todo with
  | O => w
  | S todo' =>
      let index := capacity (w_table w) - Z.of_nat todo in
      let w' := match entries (w_table w) !! Z.to_nat index with
                | Some e => if occupied e && (borrow_scope e =? scope)
                            then resource_entry_remove w index e else w
                | None => w
                end in
      scope_remove todo' w' scope
  end.

Definition turbowasm_component_resource_scope_clear (w : world) (scope : ptr)
    : turbowasm_status * world :=
  if scope =? NULL then (TURBOWASM_INVALID_ARGUMENT, w)
  else match scope_scan (take (Z.to_nat (capacity (w_table w))) (entries (w_table w))) scope 0 with
       | None => (TURBOWASM_TRAPPED, w)
       | Some count =>
           if count >? scope_get w scope then (TURBOWASM_TRAPPED, w)
           else (TURBOWASM_OK, scope_remove (Z.to_nat (capacity (w_table w))) w scope)
       end.

Definition turbowasm_component_handle_remove (w : world) (handle : Z)
    (k : turbowasm_component_handle_kind) : turbowasm_status * world * option ptr :=
  if negb (private_kind k) then (TURBOWASM_INVALID_ARGUMENT, w, None)
  else match entry_get (w_table w) handle with
       | None => (TURBOWASM_TRAPPED, w, None)
       | Some (index, e) =>
           if negb (bool_decide (kind e = k)) then (TURBOWASM_TRAPPED, w, None)
           else (TURBOWASM_OK, resource_entry_remove w index e, Some (object e))
       end.

Definition turbowasm_component_resource_take_owned (w : world) (handle expected : Z)
    : turbowasm_status * world * option turbowasm_value :=
  if expected =? 0 then (TURBOWASM_INVALID_ARGUMENT, w, None)
  else match entry_get (w_table w) handle with
       | None => (TURBOWASM_TRAPPED, w, None)
       | Some (index, e) =>
           if negb (is_resource e expected) || negb (owned e) || negb (lend_count e =? 0)
           then (TURBOWASM_TRAPPED, w, None)
           else (TURBOWASM_OK, resource_entry_remove w index e, Some (rep e))
       end.

(** [destructor] is the guest destructor, [None] for NULL; the last component
    of the result is the call made to it, after the entry was removed. *)
Definition turbowasm_component_resource_drop
    (destructor : option (Z -> turbowasm_value -> turbowasm_status))
    (w : world) (handle expected : Z)
    : turbowasm_status * world * option (Z * turbowasm_value) :=
  if expected =? 0 then (TURBOWASM_INVALID_ARGUMENT, w, None)
  else match entry_get (w_table w) handle with
       | None => (TURBOWASM_TRAPPED, w, None)
       | Some (index, e) =>
           if negb (is_resource e expected) || negb (lend_count e =? 0)
           then (TURBOWASM_TRAPPED, w, None)
           else if negb (borrow_scope e =? NULL) && (scope_get w (borrow_scope e) =? 0)
           then (TURBOWASM_TRAPPED, w, None)
           else
             let w' := resource_entry_remove w index e in
             match owned e, destructor with
             | true, Some d => (d expected (rep e), w', Some (expected, rep e))
             | _, _ => (TURBOWASM_OK, w', None)
             end
       end.

(** *** The operations as one step *)

Inductive res_op :=
  | op_insert (k : turbowasm_component_handle_kind) (obj : ptr)
  | op_new (identity : Z) (r : turbowasm_value) (own : bool)
  | op_publish (handle : Z) (reservation : ptr) (identity : Z) (r : turbowasm_value)
  | op_publish_borrowed (handle : Z) (reservation : ptr) (identity : Z) (r : turbowasm_value)
      (scope : ptr)
  | op_lend_acquire (handle expected : Z)
  | op_lend_release (handle expected : Z)
  | op_scope_clear (scope : ptr)
  | op_remove (handle : Z) (k : turbowasm_component_handle_kind)
  | op_take_owned (handle expected : Z)
  | op_drop (handle expected : Z).

(** [destructor] is the destructor every drop is given. *)
Definition run_op (sizeof_entry : Z) (realloc_ok : Z -> bool)
    (destructor : option (Z -> turbowasm_value -> turbowasm_status))
    (op : res_op) (w : world) : turbowasm_status * world :=
  let on_table (r : turbowasm_status * turbowasm_component_resource_table) :=
    (r.1, mk_world r.2 (w_scopes w)) in
  match op with
  | op_insert k obj =>
      on_table (turbowasm_component_handle_insert sizeof_entry realloc_ok (w_table w) k obj).1
  | op_new identity r true =>
      on_table (turbowasm_component_resource_new_owned sizeof_entry realloc_ok (w_table w) identity r).1
  | op_new identity r false =>
      on_table (turbowasm_component_resource_new_borrowed sizeof_entry realloc_ok (w_table w) identity r).1
  | op_publish h resv identity r =>
      on_table (turbowasm_component_resource_publish (w_table w) h resv identity r)
  | op_publish_borrowed h resv identity r scope =>
      turbowasm_component_resource_publish_borrowed w h resv identity r scope
  | op_lend_acquire h expected =>
      on_table (turbowasm_component_resource_lend_acquire (w_table w) h expected)
  | op_lend_release h expected =>
      on_table (turbowasm_component_resource_lend_release (w_table w) h expected)
  | op_scope_clear scope => turbowasm_component_resource_scope_clear w scope
  | op_remove h k => (turbowasm_component_handle_remove w h k).1
  | op_take_owned h expected => (turbowasm_component_resource_take_owned w h expected).1
  | op_drop h expected => (turbowasm_component_resource_drop destructor w h expected).1
  end.

(** ** Handle arithmetic *)

Lemma handle_encode_eq index gen :
  0 <= index < MAX_SLOTS -> 1 <= gen <= MAX_GENERATION ->
  handle_encode index gen = gen * 65536 + (index + 1).
Proof.
  unfold handle_encode, MAX_SLOTS, MAX_GENERATION, SLOT_MASK, SLOT_BITS. intros Hi Hg.
  rewrite wrap_id by (split; simpl; lia).
  destruct (Z.eqb_spec (index + 1) 0); [lia|]. destruct (Z.gtb_spec (index + 1) 65535); [lia|].
  destruct (Z.eqb_spec gen 0); [lia|]. destruct (Z.gtb_spec gen 4095); [lia|]. simpl.
  rewrite Z.lor_comm, wrap_id.
  - rewrite lor_shiftl_add by (split; simpl; lia). change (2 ^ 16) with 65536. lia.
  - rewrite Z.shiftl_mul_pow2 by lia. split; simpl; lia.
Qed.

Lemma handle_decode_iff handle index gen :
  0 <= handle ->
  handle_decode handle = Some (index, gen) <->
  0 <= index < MAX_SLOTS /\ 1 <= gen <= MAX_GENERATION /\ handle = gen * 65536 + (index + 1).
Proof.
  unfold handle_decode, MAX_SLOTS, MAX_GENERATION, MAX_HANDLE, SLOT_MASK, SLOT_BITS. intros Hh.
  change (handle .& 0xffff) with (handle .& Z.ones 16). rewrite Z.land_ones, Z.shiftr_div_pow2 by lia.
  change (2 ^ 16) with 65536.
  pose proof (Z.div_mod handle 65536 ltac:(lia)). pose proof (Z.mod_pos_bound handle 65536 ltac:(lia)).
  assert (Hback : forall i g, 0 <= i < 65535 -> handle = g * 65536 + (i + 1) ->
            handle / 65536 = g /\ handle mod 65536 = i + 1).
  { intros i g Hi ->. rewrite Z.add_comm, Z.div_add, Z_mod_plus_full by lia.
    rewrite Z.div_small, Z.mod_small by lia. lia. }
  split.
  - repeat case_match; try done; intros [= <- <-]; lia.
  - intros (H1 & H2 & H3). destruct (Hback index gen H1 H3) as [-> ->].
    repeat case_match; (f_equal; f_equal; lia) || lia.
Qed.

(** A handle is a faithful 28-bit name of a slot and a generation:
    encoding then decoding returns them, decoding never invents a pair that
    encoding would not have produced, and distinct pairs have distinct handles. *)
Theorem handle_codec index gen :
  0 <= index < MAX_SLOTS -> 1 <= gen <= MAX_GENERATION ->
  1 <= handle_encode index gen <= MAX_HANDLE /\
  handle_decode (handle_encode index gen) = Some (index, gen) /\
  (forall h, 0 <= h -> handle_decode h = Some (index, gen) -> h = handle_encode index gen).
Proof.
  intros Hi Hg. rewrite handle_encode_eq by done. split_and!.
  - unfold MAX_SLOTS, MAX_GENERATION in *. lia.
  - unfold MAX_SLOTS, MAX_GENERATION, MAX_HANDLE in *. lia.
  - apply handle_decode_iff; [unfold MAX_SLOTS, MAX_GENERATION in *; lia|done].
  - intros h Hh Hd. apply handle_decode_iff in Hd as (_ & _ & ->); done.
Qed.

(** ** The table invariant *)

Definition count_live (es : list turbowasm_component_resource_entry) : nat :=
  length (filter (fun e => occupied e = true) es).

Definition count_scope (p : ptr) (es : list turbowasm_component_resource_entry) : nat :=
  length (filter (fun e => borrow_scope e = p) es).

(** A live entry is a resource with an identity, charging a counter only if
    borrowed, or a private object; a free one carries nothing but its
    generation, and a retired one has used up its generations. *)
Record entry_wf (e : turbowasm_component_resource_entry) : Prop := {
  ew_generation : 0 <= generation e <= MAX_GENERATION;
  ew_lend : is_uint 32 (lend_count e);
  ew_live : occupied e = true -> 1 <= generation e /\ retired e = false;
  ew_retired : retired e = true -> generation e = MAX_GENERATION;
  ew_resource : occupied e = true -> kind e = HANDLE_RESOURCE -> resource_identity e <> 0;
  ew_private : occupied e = true -> kind e <> HANDLE_RESOURCE ->
               private_kind (kind e) = true /\ object e <> NULL /\
               borrow_scope e = NULL /\ lend_count e = 0 /\ owned e = false;
  ew_borrow : borrow_scope e <> NULL -> occupied e = true /\ owned e = false;
  ew_free : occupied e = false ->
            kind e = HANDLE_RESOURCE /\ object e = NULL /\ resource_identity e = 0 /\
            rep e = VZero /\ lend_count e = 0 /\ borrow_scope e = NULL /\ owned e = false
}.

Record table_wf (t : turbowasm_component_resource_table) : Prop := {
  tw_capacity : capacity t = Z.of_nat (length (entries t));
  tw_bound : capacity t <= max_entries t;
  tw_max : 1 <= max_entries t <= MAX_SLOTS;
  tw_live : live_count t = Z.of_nat (count_live (entries t));
  tw_entries : Forall entry_wf (entries t)
}.

(** Every counter covers the borrows the table charges to it. *)
Definition scopes_wf (w : world) : Prop :=
  forall p, p <> NULL ->
    is_uint 32 (scope_get w p) /\
    Z.of_nat (count_scope p (entries (w_table w))) <= scope_get w p.

Definition world_wf (w : world) : Prop := table_wf (w_table w) /\ scopes_wf w.

Lemma zero_entry_wf : entry_wf zero_entry.
Proof. split; simpl; try done; unfold MAX_GENERATION; try lia. Qed.

(** *** Counting under updates *)

Lemma count_insert (P : turbowasm_component_resource_entry -> Prop) `{!forall e, Decision (P e)}
    es i e e' :
  es !! i = Some e ->
  (length (filter P (<[i := e']> es)) + (if decide (P e) then 1 else 0) =
   length (filter P es) + (if decide (P e') then 1 else 0))%nat.
Proof.
  intros Hi. rewrite insert_take_drop by (by eapply lookup_lt_Some).
  pose proof (f_equal (fun l => length (filter P l)) (take_drop_middle es i e Hi)) as He.
  simpl in He. rewrite <- He. rewrite !filter_app, !length_app, !filter_cons.
  repeat case_decide; simpl; lia.
Qed.

Lemma count_live_insert es i e e' :
  es !! i = Some e ->
  (count_live (<[i := e']> es) + (if occupied e then 1 else 0) =
   count_live es + (if occupied e' then 1 else 0))%nat.
Proof.
  intros Hi. pose proof (count_insert (fun e => occupied e = true) es i e e' Hi) as H.
  unfold count_live. repeat case_decide; destruct (occupied e), (occupied e'); done || lia.
Qed.

Lemma count_scope_insert p es i e e' :
  es !! i = Some e ->
  (count_scope p (<[i := e']> es) + (if decide (borrow_scope e = p) then 1 else 0) =
   count_scope p es + (if decide (borrow_scope e' = p) then 1 else 0))%nat.
Proof. intros Hi. exact (count_insert (fun e => borrow_scope e = p) es i e e' Hi). Qed.

Lemma count_live_bound es : (count_live es <= length es)%nat.
Proof. apply length_filter. Qed.

(** *** What a handle denotes *)

Lemma handle_decode_Some handle index gen :
  handle_decode handle = Some (index, gen) ->
  0 <= index < MAX_SLOTS /\ handle = gen * 65536 + (index + 1).
Proof.
  unfold handle_decode, MAX_SLOTS, SLOT_MASK, SLOT_BITS.
  change (handle .& 0xffff) with (handle .& Z.ones 16).
  rewrite Z.land_ones, Z.shiftr_div_pow2 by lia. change (2 ^ 16) with 65536.
  pose proof (Z.div_mod handle 65536 ltac:(lia)). pose proof (Z.mod_pos_bound handle 65536 ltac:(lia)).
  repeat case_match; try done; intros [= <- <-]; lia.
Qed.

Lemma entry_get_iff t h i e :
  table_wf t ->
  entry_get t h = Some (i, e) <->
  0 <= i /\ entries t !! Z.to_nat i = Some e /\ occupied e = true /\
  h = generation e * 65536 + (i + 1).
Proof.
  intros Hwf. unfold entry_get. split.
  - destruct (handle_decode h) as [[index gen]|] eqn:Hd; [|done].
    apply handle_decode_Some in Hd as [Hi ->].
    destruct (index >=? capacity t); [done|].
    destruct (entries t !! Z.to_nat index) as [e'|] eqn:He; [|done].
    destruct (occupied e') eqn:Ho; simpl; [|done].
    destruct (Z.eqb_spec (generation e') gen); simpl; [|done].
    intros [= <- <-]. split_and!; [lia|done|done|by subst].
  - intros (Hi & He & Ho & ->).
    pose proof (Forall_lookup_1 _ _ _ _ (tw_entries _ Hwf) He) as Hew.
    pose proof (lookup_lt_Some _ _ _ He) as Hlt.
    pose proof (ew_generation _ Hew) as Hg. destruct (ew_live _ Hew Ho) as [Hg1 _].
    pose proof (tw_capacity _ Hwf). pose proof (tw_bound _ Hwf). pose proof (tw_max _ Hwf).
    assert (Hd : handle_decode (generation e * 65536 + (i + 1)) = Some (i, generation e)).
    { apply handle_decode_iff; [unfold MAX_GENERATION in *; lia|]. split_and!; lia || done. }
    rewrite Hd. destruct (Z.geb_spec i (capacity t)); [lia|].
    rewrite He, Ho, Z.eqb_refl. done.
Qed.

(** Two live entries are reached by one handle only if they are the same. *)
Lemma handle_inj i j (g g' : Z) :
  0 <= i < MAX_SLOTS -> 0 <= j < MAX_SLOTS -> 0 <= g -> 0 <= g' ->
  g * 65536 + (i + 1) = g' * 65536 + (j + 1) -> i = j /\ g = g'.
Proof. unfold MAX_SLOTS. intros. assert (g = g') by lia. lia. Qed.

(** ** Elementary transitions

    Every operation is a sequence of these; the invariant, the death of stale
    handles and the protection of lent resources are proved once per
    transition. *)

Inductive trans (sizeof_entry : Z) (lends : bool) (w : world) : world -> Prop :=
  | trans_grow realloc_ok t' :
      table_grow sizeof_entry realloc_ok (w_table w) = Some t' ->
      trans sizeof_entry lends w (mk_world t' (w_scopes w))
  | trans_claim (i : nat) e e' :
      entries (w_table w) !! i = Some e -> occupied e = false -> retired e = false ->
      entry_wf e' -> occupied e' = true -> generation e' = Z.max 1 (generation e) ->
      borrow_scope e' = NULL ->
      trans sizeof_entry lends w
        (mk_world (with_live (entry_set (w_table w) (Z.of_nat i) e')
                     (u32 (live_count (w_table w) + 1))) (w_scopes w))
  | trans_update (i : nat) e e' :
      entries (w_table w) !! i = Some e -> occupied e = true ->
      entry_wf e' -> occupied e' = true -> generation e' = generation e ->
      borrow_scope e' = borrow_scope e ->
      (kind e = HANDLE_RESOURCE -> lends = true /\ exists n, e' = with_lend e n) ->
      trans sizeof_entry lends w
        (mk_world (entry_set (w_table w) (Z.of_nat i) e') (w_scopes w))
  | trans_borrow (i : nat) e e' p :
      entries (w_table w) !! i = Some e -> occupied e = true -> kind e <> HANDLE_RESOURCE ->
      entry_wf e' -> occupied e' = true -> generation e' = generation e ->
      p <> NULL -> borrow_scope e' = p -> scope_get w p <> UINT32_MAX ->
      trans sizeof_entry lends w
        (scope_set (mk_world (entry_set (w_table w) (Z.of_nat i) e') (w_scopes w))
           p (u32 (scope_get w p + 1)))
  | trans_remove (i : nat) e :
      entries (w_table w) !! i = Some e -> occupied e = true -> lend_count e = 0 ->
      trans sizeof_entry lends w (resource_entry_remove w (Z.of_nat i) e).

Lemma table_set_wf t i e e' n :
  table_wf t -> entries t !! i = Some e -> entry_wf e' ->
  n = Z.of_nat (count_live (<[i := e']> (entries t))) ->
  table_wf (with_live (entry_set t (Z.of_nat i) e') n).
Proof.
  intros Hwf He He' ->. unfold with_live, entry_set. rewrite Nat2Z.id. split; simpl.
  - rewrite length_insert. apply Hwf.
  - apply Hwf.
  - apply Hwf.
  - done.
  - apply Forall_insert; [apply Hwf|done].
Qed.

Lemma live_count_uint t : table_wf t -> is_uint 32 (live_count t + 1).
Proof.
  intros Hwf. rewrite (tw_live _ Hwf). pose proof (count_live_bound (entries t)).
  pose proof (tw_capacity _ Hwf). pose proof (tw_bound _ Hwf). pose proof (tw_max _ Hwf).
  unfold MAX_SLOTS in *. split; simpl; lia.
Qed.

Lemma scopes_wf_set w i e e' t' :
  scopes_wf w -> entries (w_table w) !! i = Some e -> borrow_scope e' = borrow_scope e ->
  entries t' = <[i := e']> (entries (w_table w)) ->
  scopes_wf (mk_world t' (w_scopes w)).
Proof.
  intros Hs He Hb Ht p Hp. destruct (Hs p Hp) as [H1 H2]. split; [done|]. simpl. rewrite Ht.
  pose proof (count_scope_insert p _ _ _ e' He) as Hc. rewrite Hb in Hc.
  unfold scope_get in *. simpl. lia.
Qed.

Lemma remove_entry_wf e :
  entry_wf e -> occupied e = true ->
  entry_wf (mk_entry HANDLE_RESOURCE NULL 0 VZero
              (if generation e =? MAX_GENERATION then generation e else generation e + 1) 0 NULL
              false (if generation e =? MAX_GENERATION then true else retired e) false).
Proof.
  intros He Ho. pose proof (ew_generation _ He). destruct (ew_live _ He Ho) as [_ Hr].
  rewrite Hr. split; simpl; try done; destruct (Z.eqb_spec (generation e) MAX_GENERATION); done || lia.
Qed.

Lemma resource_entry_remove_entries w i e :
  entries (w_table (resource_entry_remove w (Z.of_nat i) e)) =
  <[i := mk_entry HANDLE_RESOURCE NULL 0 VZero
              (if generation e =? MAX_GENERATION then generation e else generation e + 1) 0 NULL
              false (if generation e =? MAX_GENERATION then true else retired e) false]>
    (entries (w_table w)).
Proof.
  unfold resource_entry_remove, entry_set. simpl.
  destruct (borrow_scope e =? NULL); simpl; by rewrite Nat2Z.id.
Qed.

Lemma resource_entry_remove_wf w i e :
  world_wf w -> entries (w_table w) !! i = Some e -> occupied e = true ->
  world_wf (resource_entry_remove w (Z.of_nat i) e).
Proof.
  intros [Ht Hs] He Ho.
  pose proof (Forall_lookup_1 _ _ _ _ (tw_entries _ Ht) He) as Hew.
  set (e' := mk_entry HANDLE_RESOURCE NULL 0 VZero
              (if generation e =? MAX_GENERATION then generation e else generation e + 1) 0 NULL
              false (if generation e =? MAX_GENERATION then true else retired e) false).
  assert (He' : entry_wf e') by (by apply remove_entry_wf).
  pose proof (count_live_insert _ _ _ e' He) as Hc. rewrite Ho in Hc. simpl in Hc.
  assert (Htab : forall t, t = w_table w ->
    table_wf (with_live (entry_set t (Z.of_nat i) e')
                (if live_count t =? 0 then live_count t else live_count t - 1))).
  { intros t ->. eapply table_set_wf; try done. rewrite (tw_live _ Ht).
    destruct (Z.eqb_spec (Z.of_nat (count_live (entries (w_table w)))) 0); lia. }
  split.
  - unfold resource_entry_remove. destruct (borrow_scope e =? NULL); by apply Htab.
  - intros p Hp. destruct (Hs p Hp) as [H1 H2].
    rewrite resource_entry_remove_entries. fold e'.
    pose proof (count_scope_insert p _ _ _ e' He) as Hcs.
    rewrite (decide_False (P := borrow_scope e' = p)) in Hcs by (intros <-; by apply Hp).
    unfold resource_entry_remove.
    destruct (Z.eqb_spec (borrow_scope e) NULL) as [Hb|Hb].
    + rewrite decide_False in Hcs by congruence. unfold scope_get in *. simpl. split; [done|lia].
    + unfold scope_set, scope_get in *. simpl. destruct (decide (borrow_scope e = p)) as [->|Hne].
      * rewrite lookup_insert_eq. simpl.
        rewrite wrap_id; [split; [destruct H1; split; lia|lia]|destruct H1; split; lia].
      * rewrite lookup_insert_ne by done. split; [done|lia].
Qed.

(** Growth appends zeroed slots, at least one, and stays within the limit. *)
Lemma table_grow_spec sizeof_entry realloc_ok t t' :
  table_wf t -> table_grow sizeof_entry realloc_ok t = Some t' ->
  exists n, (0 < n)%nat /\
    t' = mk_table (entries t ++ replicate n zero_entry) (capacity t + Z.of_nat n)
           (live_count t) (max_entries t) /\ capacity t' <= max_entries t.
Proof.
  intros Hwf. unfold table_grow.
  pose proof (tw_capacity _ Hwf). pose proof (tw_bound _ Hwf). pose proof (tw_max _ Hwf).
  destruct (Z.geb_spec (capacity t) (max_entries t)); [done|].
  set (next := if (_ <? capacity t) || _ then max_entries t else _).
  destruct (next >? SIZE_MAX / sizeof_entry); [done|].
  destruct (realloc_ok (next * sizeof_entry)); simpl; [|done]. intros [= <-].
  assert (Hnext : capacity t < next <= max_entries t).
  { unfold next, MAX_SLOTS in *.
    destruct (Z.eqb_spec (capacity t) 0) as [->|];
      [|rewrite wrap_id by (split; simpl; lia)]; simpl; repeat case_match; lia. }
  exists (Z.to_nat (next - capacity t)). simpl. split_and!; [lia| |lia]. f_equal. lia.
Qed.

Lemma count_live_zero n : count_live (replicate n zero_entry) = 0%nat.
Proof. induction n; [done|]. unfold count_live in *. simpl. rewrite filter_cons. by case_decide. Qed.

Lemma count_scope_zero p n : p <> NULL -> count_scope p (replicate n zero_entry) = 0%nat.
Proof.
  intros Hp. induction n; [done|]. unfold count_scope in *. simpl. rewrite filter_cons.
  case_decide; [|done]. by destruct Hp.
Qed.

Lemma count_live_app a b : count_live (a ++ b) = (count_live a + count_live b)%nat.
Proof. unfold count_live. by rewrite filter_app, length_app. Qed.
Lemma count_scope_app p a b : count_scope p (a ++ b) = (count_scope p a + count_scope p b)%nat.
Proof. unfold count_scope. by rewrite filter_app, length_app. Qed.

Lemma table_grow_wf sizeof_entry realloc_ok t t' :
  table_wf t -> table_grow sizeof_entry realloc_ok t = Some t' -> table_wf t'.
Proof.
  intros Hwf Hg. destruct (table_grow_spec _ _ _ _ Hwf Hg) as (n & Hn & -> & Hb).
  pose proof (tw_capacity _ Hwf). simpl in Hb. split; simpl.
  - rewrite length_app, length_replicate. lia.
  - done.
  - apply Hwf.
  - rewrite count_live_app, count_live_zero, (tw_live _ Hwf). f_equal. lia.
  - apply Forall_app. split; [apply Hwf|]. apply Forall_replicate, zero_entry_wf.
Qed.

Lemma trans_wf sizeof_entry lends w w' : world_wf w -> trans sizeof_entry lends w w' -> world_wf w'.
Proof.
  intros [Ht Hs] Htr. pose proof (conj Ht Hs) as Hw.
  destruct Htr as [ok t' Hg|i e e' He Ho Hr He' Ho' Hg Hb|i e e' He Ho He' Ho' Hg Hb Hk
                  |i e e' p He Ho Hk He' Ho' Hg Hp Hb Hm|i e He Ho Hl].
  - split; [by eapply table_grow_wf|]. intros p Hp. destruct (Hs p Hp) as [H1 H2].
    split; [done|]. simpl. destruct (table_grow_spec _ _ _ _ Ht Hg) as (n & _ & -> & _). simpl.
    rewrite count_scope_app, count_scope_zero by done. unfold scope_get in *. simpl. lia.
  - pose proof (Forall_lookup_1 _ _ _ _ (tw_entries _ Ht) He) as Hew.
    split; simpl.
    + eapply table_set_wf; try done. rewrite wrap_id by (by apply live_count_uint).
      rewrite (tw_live _ Ht). pose proof (count_live_insert _ _ _ e' He) as Hc.
      rewrite Ho, Ho' in Hc. lia.
    + eapply scopes_wf_set; [done|done| |simpl; by rewrite Nat2Z.id].
      destruct (ew_free _ Hew Ho) as (_ & _ & _ & _ & _ & -> & _). done.
  - split; simpl.
    + pose proof (count_live_insert _ _ _ e' He) as Hc. rewrite Ho, Ho' in Hc.
      apply (table_set_wf (w_table w) i e e' (live_count (w_table w))); try done.
      rewrite (tw_live _ Ht). lia.
    + eapply scopes_wf_set; [done|done|done|simpl; by rewrite Nat2Z.id].
  - pose proof (Forall_lookup_1 _ _ _ _ (tw_entries _ Ht) He) as Hew.
    split; simpl.
    + pose proof (count_live_insert _ _ _ e' He) as Hc. rewrite Ho, Ho' in Hc.
      apply (table_set_wf (w_table w) i e e' (live_count (w_table w))); try done.
      rewrite (tw_live _ Ht). lia.
    + destruct (ew_private _ Hew Ho Hk) as (_ & _ & Hbe & _).
      intros q Hq. destruct (Hs q Hq) as [H1 H2]. simpl. rewrite Nat2Z.id.
      pose proof (count_scope_insert q _ _ _ e' He) as Hc.
      rewrite Hbe, (decide_False (P := NULL = q)) in Hc by congruence.
      unfold scope_get in *. simpl. rewrite Hb in Hc. destruct (decide (p = q)) as [->|Hne].
      * rewrite lookup_insert_eq. simpl. unfold UINT32_MAX in Hm.
        rewrite wrap_id; [split; [destruct H1; split; simpl in *; lia|lia]|
                          destruct H1; split; simpl in *; lia].
      * rewrite lookup_insert_ne by done. split; [done|lia].
  - by apply resource_entry_remove_wf.
Qed.

(** ** Allocation *)

Lemma find_free_full t : table_wf t -> find_free t =
  list_find (fun e => occupied e = false /\ retired e = false) (entries t).
Proof.
  intros Hwf. unfold find_free. rewrite take_ge; [done|]. rewrite (tw_capacity _ Hwf). lia.
Qed.

(** A grown table has a free slot, so the second scan succeeds. *)
Lemma find_free_grown sizeof_entry realloc_ok t t' :
  table_wf t -> table_grow sizeof_entry realloc_ok t = Some t' -> is_Some (find_free t').
Proof.
  intros Hwf Hg. rewrite find_free_full by (by eapply table_grow_wf).
  destruct (list_find _ _) eqn:Hf; [by eexists|].
  apply list_find_None in Hf.
  destruct (table_grow_spec _ _ _ _ Hwf Hg) as (n & Hn & -> & _). simpl in Hf.
  apply Forall_app in Hf as [_ Hf]. destruct n; [lia|]. simpl in Hf.
  apply Forall_cons in Hf as [Hz _]. by destruct Hz.
Qed.

(** The entry in a slot just handed out. *)
Definition claimed (e : turbowasm_component_resource_entry) : turbowasm_component_resource_entry :=
  mk_entry (kind e) (object e) (resource_identity e) (rep e) (Z.max 1 (generation e))
    (lend_count e) (borrow_scope e) true (retired e) (owned e).

Definition grown_or_same sizeof_entry realloc_ok t t1 : Prop :=
  t1 = t \/ (find_free t = None /\ table_grow sizeof_entry realloc_ok t = Some t1).

(** The new handle names a slot that was free, with the generation it then has. *)
Definition allocates sizeof_entry realloc_ok (t t' : turbowasm_component_resource_table)
    (f : turbowasm_component_resource_entry -> turbowasm_component_resource_entry) (h : Z) : Prop :=
  exists t1 i e, grown_or_same sizeof_entry realloc_ok t t1 /\ table_wf t1 /\
    entries t1 !! i = Some e /\ occupied e = false /\ retired e = false /\
    h = Z.max 1 (generation e) * 65536 + (Z.of_nat i + 1) /\
    t' = with_live (entry_set t1 (Z.of_nat i) (f (claimed e))) (u32 (live_count t1 + 1)).

Lemma entry_claim_spec t i e :
  table_wf t -> entries t !! i = Some e -> retired e = false ->
  entry_claim t (Z.of_nat i) e =
  (TURBOWASM_OK, with_live (entry_set t (Z.of_nat i) (claimed e)) (u32 (live_count t + 1)),
   Some (Z.max 1 (generation e) * 65536 + (Z.of_nat i + 1), Z.of_nat i)).
Proof.
  intros Hwf He Hr. pose proof (Forall_lookup_1 _ _ _ _ (tw_entries _ Hwf) He) as Hew.
  pose proof (ew_generation _ Hew) as Hg. pose proof (lookup_lt_Some _ _ _ He).
  pose proof (tw_capacity _ Hwf). pose proof (tw_bound _ Hwf). pose proof (tw_max _ Hwf).
  unfold entry_claim.
  assert (Hgen : (if generation e =? 0 then 1 else generation e) = Z.max 1 (generation e))
    by (destruct (Z.eqb_spec (generation e) 0); lia).
  rewrite Hgen, handle_encode_eq by (unfold MAX_GENERATION in *; lia).
  destruct (Z.eqb_spec (Z.max 1 (generation e) * 65536 + (Z.of_nat i + 1)) 0); [lia|]. done.
Qed.

Lemma entry_allocate_spec sizeof_entry realloc_ok t st t' res :
  table_wf t -> entry_allocate sizeof_entry realloc_ok t = (st, t', res) ->
  (exists h i, st = TURBOWASM_OK /\ res = Some (h, Z.of_nat i) /\
     is_Some (entries t' !! i) /\
     exists t1 e, grown_or_same sizeof_entry realloc_ok t t1 /\ table_wf t1 /\
       entries t1 !! i = Some e /\ occupied e = false /\ retired e = false /\
       h = Z.max 1 (generation e) * 65536 + (Z.of_nat i + 1) /\
       t' = with_live (entry_set t1 (Z.of_nat i) (claimed e)) (u32 (live_count t1 + 1))) \/
  (st = TURBOWASM_OUT_OF_MEMORY /\ res = None /\ t' = t /\
   find_free t = None /\ table_grow sizeof_entry realloc_ok t = None).
Proof.
  intros Hwf. unfold entry_allocate. destruct (Z.eqb_spec (max_entries t) 0) as [H0|_];
    [pose proof (tw_max _ Hwf); lia|].
  assert (Hfound : forall t1 i e, grown_or_same sizeof_entry realloc_ok t t1 -> table_wf t1 ->
    find_free t1 = Some (i, e) -> entry_claim t1 (Z.of_nat i) e = (st, t', res) ->
    exists h i, st = TURBOWASM_OK /\ res = Some (h, Z.of_nat i) /\ is_Some (entries t' !! i) /\
     exists t1 e, grown_or_same sizeof_entry realloc_ok t t1 /\ table_wf t1 /\
       entries t1 !! i = Some e /\ occupied e = false /\ retired e = false /\
       h = Z.max 1 (generation e) * 65536 + (Z.of_nat i + 1) /\
       t' = with_live (entry_set t1 (Z.of_nat i) (claimed e)) (u32 (live_count t1 + 1))).
  { intros t1 i e Hgs Hwf1 Hf Hc. rewrite find_free_full in Hf by done.
    apply list_find_Some in Hf as (He & [Ho Hr] & _).
    rewrite entry_claim_spec in Hc by done. injection Hc as <- <- <-.
    do 2 eexists. split_and!; [done|done| |].
    - simpl. rewrite Nat2Z.id, list_lookup_insert_eq by (by eapply lookup_lt_Some). done.
    - exists t1, e. split_and!; done. }
  cbn [entry_allocate_loop]. destruct (find_free t) as [[i e]|] eqn:Hf.
  - intros Hc. left. apply (Hfound t i e); [by left|done|done|done].
  - destruct (table_grow sizeof_entry realloc_ok t) as [t1|] eqn:Hg.
    + pose proof (find_free_grown _ _ _ _ Hwf Hg) as [[i e] Hf1]. rewrite Hf1.
      intros Hc. left. apply (Hfound t1 i e); [by right|by eapply table_grow_wf|done|done].
    + intros [= <- <- <-]. right. done.
Qed.

(** The grow-and-rescan loop never needs more than one growth. *)
Lemma entry_allocate_fuel sizeof_entry realloc_ok t n :
  table_wf t ->
  entry_allocate_loop sizeof_entry realloc_ok (2 + n) t =
  entry_allocate_loop sizeof_entry realloc_ok 2 t.
Proof.
  intros Hwf. cbn [entry_allocate_loop Nat.add]. destruct (find_free t) as [[i e]|]; [done|].
  destruct (table_grow _ _ t) as [t1|] eqn:Hg; [|done].
  by destruct (find_free_grown _ _ _ _ Hwf Hg) as [[i e] ->].
Qed.

Lemma entry_update_claimed t i e f n :
  (i < length (entries t))%nat ->
  entry_update (with_live (entry_set t (Z.of_nat i) e) n) (Z.of_nat i) f =
  with_live (entry_set t (Z.of_nat i) (f e)) n.
Proof.
  intros Hi. unfold entry_update, with_live, entry_set. simpl.
  rewrite Nat2Z.id, list_lookup_insert_eq by done. simpl. by rewrite list_insert_insert_eq.
Qed.

Lemma resource_new_spec sizeof_entry realloc_ok t identity r own st t' res :
  table_wf t -> identity <> 0 ->
  resource_new sizeof_entry realloc_ok t identity r own = (st, t', res) ->
  (st = TURBOWASM_OK /\ exists h, res = Some h /\
     allocates sizeof_entry realloc_ok t t'
       (fun e => mk_entry HANDLE_RESOURCE (object e) identity r (generation e)
          (lend_count e) (borrow_scope e) (occupied e) (retired e) own) h) \/
  (st = TURBOWASM_OUT_OF_MEMORY /\ res = None /\ t' = t /\
   find_free t = None /\ table_grow sizeof_entry realloc_ok t = None).
Proof.
  intros Hwf Hid. unfold resource_new. destruct (Z.eqb_spec identity 0); [done|].
  destruct (entry_allocate sizeof_entry realloc_ok t) as [[st0 t0] res0] eqn:Ha.
  apply entry_allocate_spec in Ha as [(h & i & -> & -> & _ & t1 & e & Hgs & Hwf1 & He & Ho & Hr & -> & ->)
                                     |(-> & -> & -> & Hf & Hg)]; [| |done].
  - intros [= <- <- <-]. left. split; [done|]. eexists. split; [done|].
    exists t1, i, e. split_and!; try done. apply entry_update_claimed. by eapply lookup_lt_Some.
  - intros [= <- <- <-]. right. done.
Qed.

Lemma handle_insert_spec sizeof_entry realloc_ok t k obj st t' res :
  table_wf t -> private_kind k = true -> obj <> NULL ->
  turbowasm_component_handle_insert sizeof_entry realloc_ok t k obj = (st, t', res) ->
  (st = TURBOWASM_OK /\ exists h, res = Some h /\
     allocates sizeof_entry realloc_ok t t'
       (fun e => mk_entry k obj (resource_identity e) (rep e) (generation e)
          (lend_count e) (borrow_scope e) (occupied e) (retired e) (owned e)) h) \/
  (st = TURBOWASM_OUT_OF_MEMORY /\ res = None /\ t' = t /\
   find_free t = None /\ table_grow sizeof_entry realloc_ok t = None).
Proof.
  intros Hwf Hk Hobj. unfold turbowasm_component_handle_insert. rewrite Hk. simpl.
  destruct (Z.eqb_spec obj NULL); [done|].
  destruct (entry_allocate sizeof_entry realloc_ok t) as [[st0 t0] res0] eqn:Ha.
  apply entry_allocate_spec in Ha as [(h & i & -> & -> & _ & t1 & e & Hgs & Hwf1 & He & Ho & Hr & -> & ->)
                                     |(-> & -> & -> & Hf & Hg)]; [| |done].
  - intros [= <- <- <-]. left. split; [done|]. eexists. split; [done|].
    exists t1, i, e. split_and!; try done. apply entry_update_claimed. by eapply lookup_lt_Some.
  - intros [= <- <- <-]. right. done.
Qed.

(** ** Operations as sequences of transitions *)

Lemma allocates_trans sizeof_entry lends realloc_ok w t' f h :
  world_wf w -> allocates sizeof_entry realloc_ok (w_table w) t' f h ->
  (forall e, entry_wf e -> occupied e = false -> retired e = false -> entry_wf (f (claimed e))) ->
  (forall e, occupied (f e) = occupied e /\ generation (f e) = generation e /\
             borrow_scope (f e) = borrow_scope e) ->
  rtc (trans sizeof_entry lends) w (mk_world t' (w_scopes w)).
Proof.
  intros [Ht Hs] (t1 & i & e & Hgs & Hwf1 & He & Ho & Hr & -> & ->) Hwf Hf.
  pose proof (Forall_lookup_1 _ _ _ _ (tw_entries _ Hwf1) He) as Hew.
  destruct (Hf (claimed e)) as (Hf1 & Hf2 & Hf3).
  assert (Hclaim : trans sizeof_entry lends (mk_world t1 (w_scopes w))
    (mk_world (with_live (entry_set t1 (Z.of_nat i) (f (claimed e))) (u32 (live_count t1 + 1)))
       (w_scopes w))).
  { apply (trans_claim sizeof_entry lends (mk_world t1 (w_scopes w)) i e (f (claimed e)));
      try done; [by apply Hwf|]. rewrite Hf3. apply (ew_free _ Hew Ho). }
  destruct Hgs as [->|[_ Hg]].
  - destruct w. by apply rtc_once.
  - eapply rtc_l; [by eapply trans_grow|]. by apply rtc_once.
Qed.

Lemma entry_get_lookup t h i e :
  table_wf t -> entry_get t h = Some (i, e) ->
  exists n, i = Z.of_nat n /\ entries t !! n = Some e /\ occupied e = true /\ entry_wf e.
Proof.
  intros Hwf Hg. apply entry_get_iff in Hg as (Hi & He & Ho & _); [|done].
  exists (Z.to_nat i). split_and!; [lia|done|done|].
  exact (Forall_lookup_1 _ _ _ _ (tw_entries _ Hwf) He).
Qed.

Lemma with_lend_wf e n :
  entry_wf e -> occupied e = true -> kind e = HANDLE_RESOURCE -> is_uint 32 n ->
  entry_wf (with_lend e n).
Proof.
  intros He Ho Hk Hn. destruct He. split; simpl; try done. by rewrite Ho.
Qed.

Lemma published_wf e identity r :
  entry_wf e -> occupied e = true -> kind e <> HANDLE_RESOURCE -> identity <> 0 -> forall own p,
  (p <> NULL -> own = false) ->
  entry_wf (mk_entry HANDLE_RESOURCE NULL identity r (generation e) (lend_count e) p
              (occupied e) (retired e) own).
Proof.
  intros He Ho Hk Hid own p Hp. destruct He. split; simpl; try done; auto. by rewrite Ho.
Qed.

Lemma publish_trans sizeof_entry lends w h resv identity r st t' :
  world_wf w ->
  turbowasm_component_resource_publish (w_table w) h resv identity r = (st, t') ->
  (st <> TURBOWASM_OK /\ t' = w_table w) \/
  (st = TURBOWASM_OK /\ trans sizeof_entry lends w (mk_world t' (w_scopes w))).
Proof.
  intros [Ht Hs]. unfold turbowasm_component_resource_publish.
  destruct (Z.eqb_spec resv NULL); [intros [= <- <-]; by left|].
  destruct (Z.eqb_spec identity 0); [intros [= <- <-]; by left|]. simpl.
  destruct (rep_kind_ok r); simpl; [|intros [= <- <-]; by left].
  destruct (entry_get (w_table w) h) as [[i e]|] eqn:Hg; [|intros [= <- <-]; by left].
  destruct (bool_decide_reflect (kind e = HANDLE_RESOURCE_RESERVATION)) as [Hk|];
    simpl; [|intros [= <- <-]; by left].
  destruct (Z.eqb_spec (object e) resv); simpl; [|intros [= <- <-]; by left].
  destruct (entry_get_lookup _ _ _ _ Ht Hg) as (k & -> & He & Ho & Hew).
  intros [= <- <-]. right. split; [done|].
  assert (Hkr : kind e <> HANDLE_RESOURCE) by (rewrite Hk; done).
  destruct (ew_private _ Hew Ho Hkr) as (_ & _ & Hb & _).
  eapply (trans_update _ _ _ k e); try done.
  rewrite Hb. by apply published_wf.
Qed.

Lemma publish_borrowed_trans sizeof_entry lends w h resv identity r p st w' :
  world_wf w ->
  turbowasm_component_resource_publish_borrowed w h resv identity r p = (st, w') ->
  (st <> TURBOWASM_OK /\ w' = w) \/ (st = TURBOWASM_OK /\ trans sizeof_entry lends w w').
Proof.
  intros [Ht Hs]. unfold turbowasm_component_resource_publish_borrowed.
  destruct (Z.eqb_spec p NULL); [intros [= <- <-]; by left|].
  destruct (Z.eqb_spec (scope_get w p) UINT32_MAX); [intros [= <- <-]; by left|].
  unfold turbowasm_component_resource_publish.
  destruct (Z.eqb_spec resv NULL); simpl; [intros [= <- <-]; left; by destruct w|].
  destruct (Z.eqb_spec identity 0); simpl; [intros [= <- <-]; left; by destruct w|].
  destruct (rep_kind_ok r); simpl; [|intros [= <- <-]; left; by destruct w].
  destruct (entry_get (w_table w) h) as [[i e]|] eqn:Hg; [|intros [= <- <-]; left; by destruct w].
  destruct (bool_decide_reflect (kind e = HANDLE_RESOURCE_RESERVATION)) as [Hk|];
    simpl; [|intros [= <- <-]; left; by destruct w].
  destruct (Z.eqb_spec (object e) resv); simpl; [|intros [= <- <-]; left; by destruct w].
  destruct (entry_get_lookup _ _ _ _ Ht Hg) as (k & -> & He & Ho & Hew).
  assert (Hkr : kind e <> HANDLE_RESOURCE) by (rewrite Hk; done).
  set (e1 := mk_entry HANDLE_RESOURCE NULL identity r (generation e) (lend_count e)
               (borrow_scope e) (occupied e) (retired e) true).
  destruct (ew_private _ Hew Ho Hkr) as (_ & _ & Hb & _).
  assert (Ht1 : table_wf (entry_set (w_table w) (Z.of_nat k) e1)).
  { eapply (trans_wf sizeof_entry lends w (mk_world (entry_set (w_table w) (Z.of_nat k) e1) (w_scopes w))).
    - by split.
    - eapply (trans_update _ _ _ k e); try done. unfold e1. rewrite Hb. by apply published_wf. }
  assert (Hg1 : entry_get (entry_set (w_table w) (Z.of_nat k) e1) h = Some (Z.of_nat k, e1)).
  { apply entry_get_iff; [done|]. apply entry_get_iff in Hg as (_ & _ & _ & Hh); [|done].
    split_and!; [lia| |done|done]. simpl. rewrite Nat2Z.id.
    apply list_lookup_insert_eq. by eapply lookup_lt_Some. }
  rewrite Hg1. intros [= <- <-]. right. split; [done|].
  replace (entry_set (entry_set (w_table w) (Z.of_nat k) e1) (Z.of_nat k) _) with
    (entry_set (w_table w) (Z.of_nat k) (mk_entry HANDLE_RESOURCE NULL identity r (generation e)
       (lend_count e) p (occupied e) (retired e) false)).
  2: { unfold entry_set. simpl. rewrite Nat2Z.id, list_insert_insert_eq. done. }
  eapply (trans_borrow _ _ _ k e); try done. by apply published_wf.
Qed.

Lemma is_resource_spec e x :
  is_resource e x = true <-> kind e = HANDLE_RESOURCE /\ resource_identity e = x.
Proof.
  unfold is_resource. rewrite andb_true_iff, Z.eqb_eq. by rewrite bool_decide_eq_true.
Qed.

(** A lend or its release changes only the count, by one. *)
Definition relends (t t' : turbowasm_component_resource_table) (h x d : Z) : Prop :=
  exists i e, entry_get t h = Some (Z.of_nat i, e) /\ entries t !! i = Some e /\
    occupied e = true /\ kind e = HANDLE_RESOURCE /\ resource_identity e = x /\
    is_uint 32 (lend_count e + d) /\
    t' = entry_set t (Z.of_nat i) (with_lend e (lend_count e + d)).

Lemma lend_acquire_spec t h x st t' :
  table_wf t -> turbowasm_component_resource_lend_acquire t h x = (st, t') ->
  (st <> TURBOWASM_OK /\ t' = t) \/ (st = TURBOWASM_OK /\ relends t t' h x 1).
Proof.
  intros Ht. unfold turbowasm_component_resource_lend_acquire.
  destruct (x =? 0); [intros [= <- <-]; by left|].
  destruct (entry_get t h) as [[i e]|] eqn:Hg; [|intros [= <- <-]; by left].
  destruct (is_resource e x) eqn:Hr; simpl; [|intros [= <- <-]; by left].
  destruct (Z.eqb_spec (lend_count e) UINT32_MAX); [intros [= <- <-]; by left|].
  destruct (entry_get_lookup _ _ _ _ Ht Hg) as (k & -> & He & Ho & Hew).
  apply is_resource_spec in Hr as [Hk Hx]. intros [= <- <-]. right. split; [done|].
  exists k, e. split_and!; try done.
  destruct (ew_lend _ Hew). unfold UINT32_MAX in *. split; simpl in *; lia.
Qed.

Lemma lend_release_spec t h x st t' :
  table_wf t -> turbowasm_component_resource_lend_release t h x = (st, t') ->
  (st <> TURBOWASM_OK /\ t' = t) \/ (st = TURBOWASM_OK /\ relends t t' h x (-1)).
Proof.
  intros Ht. unfold turbowasm_component_resource_lend_release.
  destruct (x =? 0); [intros [= <- <-]; by left|].
  destruct (entry_get t h) as [[i e]|] eqn:Hg; [|intros [= <- <-]; by left].
  destruct (is_resource e x) eqn:Hr; simpl; [|intros [= <- <-]; by left].
  destruct (Z.eqb_spec (lend_count e) 0); [intros [= <- <-]; by left|].
  destruct (entry_get_lookup _ _ _ _ Ht Hg) as (k & -> & He & Ho & Hew).
  apply is_resource_spec in Hr as [Hk Hx]. intros [= <- <-]. right. split; [done|].
  exists k, e. split_and!; try done. destruct (ew_lend _ Hew). split; simpl in *; lia.
Qed.

Lemma relends_trans sizeof_entry w t' h x d :
  world_wf w -> relends (w_table w) t' h x d ->
  trans sizeof_entry true w (mk_world t' (w_scopes w)).
Proof.
  intros [Ht Hs] (i & e & Hg & He & Ho & Hk & Hx & Hu & ->).
  pose proof (Forall_lookup_1 _ _ _ _ (tw_entries _ Ht) He) as Hew.
  eapply (trans_update _ _ _ i e); try done; [by apply with_lend_wf|]. intros _. split; [done|by eexists].
Qed.

(** A removal: the handle denoted a live entry with no outstanding lend. *)
Definition removes (w w' : world) (h : Z) (e : turbowasm_component_resource_entry) : Prop :=
  exists i, entry_get (w_table w) h = Some (Z.of_nat i, e) /\
    entries (w_table w) !! i = Some e /\ occupied e = true /\ lend_count e = 0 /\
    w' = resource_entry_remove w (Z.of_nat i) e.

Lemma handle_remove_spec w h k st w' res :
  world_wf w -> turbowasm_component_handle_remove w h k = (st, w', res) ->
  (st <> TURBOWASM_OK /\ w' = w /\ res = None) \/
  (st = TURBOWASM_OK /\ exists e, removes w w' h e /\ kind e = k /\ res = Some (object e)).
Proof.
  intros [Ht Hs]. unfold turbowasm_component_handle_remove.
  destruct (private_kind k) eqn:Hpk; simpl; [|intros [= <- <- <-]; by left].
  destruct (entry_get (w_table w) h) as [[i e]|] eqn:Hg; [|intros [= <- <- <-]; by left].
  destruct (bool_decide_reflect (kind e = k)) as [Hk|]; simpl; [|intros [= <- <- <-]; by left].
  destruct (entry_get_lookup _ _ _ _ Ht Hg) as (n & -> & He & Ho & Hew).
  intros [= <- <- <-]. right. split; [done|]. exists e. split_and!; [|done|done].
  exists n. split_and!; try done. apply (ew_private _ Hew Ho). intros Heq. by rewrite <- Hk, Heq in Hpk.
Qed.

Lemma take_owned_spec w h x st w' res :
  world_wf w -> turbowasm_component_resource_take_owned w h x = (st, w', res) ->
  (st <> TURBOWASM_OK /\ w' = w /\ res = None) \/
  (st = TURBOWASM_OK /\ exists e, removes w w' h e /\ kind e = HANDLE_RESOURCE /\
     resource_identity e = x /\ owned e = true /\ res = Some (rep e)).
Proof.
  intros [Ht Hs]. unfold turbowasm_component_resource_take_owned.
  destruct (x =? 0); [intros [= <- <- <-]; by left|].
  destruct (entry_get (w_table w) h) as [[i e]|] eqn:Hg; [|intros [= <- <- <-]; by left].
  destruct (is_resource e x) eqn:Hr; simpl; [|intros [= <- <- <-]; by left].
  destruct (owned e) eqn:Hown; simpl; [|intros [= <- <- <-]; by left].
  destruct (Z.eqb_spec (lend_count e) 0); simpl; [|intros [= <- <- <-]; by left].
  destruct (entry_get_lookup _ _ _ _ Ht Hg) as (n & -> & He & Ho & Hew).
  apply is_resource_spec in Hr as [Hk Hx]. intros [= <- <- <-]. right. split; [done|].
  exists e. split_and!; try done. by exists n.
Qed.

(** A drop either refuses and changes nothing, or removes the entry and then
    calls the destructor, once, exactly when the handle was owned. *)
Lemma drop_spec destructor w h x st w' call :
  world_wf w -> turbowasm_component_resource_drop destructor w h x = (st, w', call) ->
  (st <> TURBOWASM_OK /\ w' = w /\ call = None) \/
  (exists e, removes w w' h e /\ kind e = HANDLE_RESOURCE /\ resource_identity e = x /\
     match owned e, destructor with
     | true, Some d => st = d x (rep e) /\ call = Some (x, rep e)
     | _, _ => st = TURBOWASM_OK /\ call = None
     end).
Proof.
  intros [Ht Hs]. unfold turbowasm_component_resource_drop.
  destruct (x =? 0); [intros [= <- <- <-]; by left|].
  destruct (entry_get (w_table w) h) as [[i e]|] eqn:Hg; [|intros [= <- <- <-]; by left].
  destruct (is_resource e x) eqn:Hr; simpl; [|intros [= <- <- <-]; by left].
  destruct (Z.eqb_spec (lend_count e) 0); simpl; [|intros [= <- <- <-]; by left].
  destruct (negb (borrow_scope e =? NULL) && _); [intros [= <- <- <-]; by left|].
  destruct (entry_get_lookup _ _ _ _ Ht Hg) as (n & -> & He & Ho & Hew).
  apply is_resource_spec in Hr as [Hk Hx]. intros Heq. right. exists e.
  destruct (owned e) eqn:Hown, destructor as [d|]; injection Heq as <- <- <-;
    (split_and!; try done; by exists n).
Qed.

Lemma removes_trans sizeof_entry lends w w' h e : removes w w' h e -> trans sizeof_entry lends w w'.
Proof. intros (i & _ & He & Ho & Hl & ->). by apply trans_remove. Qed.

(** *** Clearing a borrow scope *)

Definition in_scope (p : ptr) (e : turbowasm_component_resource_entry) : bool :=
  occupied e && (borrow_scope e =? p).

Definition clearable (p : ptr) (e : turbowasm_component_resource_entry) : Prop :=
  in_scope p e = true -> kind e = HANDLE_RESOURCE /\ owned e = false /\ lend_count e = 0.

Lemma scope_scan_clearable es p : forall c n,
  scope_scan es p c = Some n -> Forall (clearable p) es.
Proof.
  induction es as [|e es IH]; intros c n; simpl; [by constructor|]. unfold clearable, in_scope.
  destruct (occupied e) eqn:Ho; simpl; [|intros H; constructor; [by rewrite Ho|by eapply IH]].
  destruct (Z.eqb_spec (borrow_scope e) p); simpl;
    [|intros H; constructor; [by destruct (Z.eqb_spec (borrow_scope e) p); rewrite ?andb_false_r|by eapply IH]].
  destruct (bool_decide_reflect (kind e = HANDLE_RESOURCE)); simpl; [|done].
  destruct (owned e) eqn:Hw; simpl; [done|].
  destruct (Z.eqb_spec (lend_count e) 0); simpl; [|done].
  intros H. constructor; [done|by eapply IH].
Qed.

Lemma scope_scan_None es p : forall c,
  scope_scan es p c = None -> ~ Forall (clearable p) es.
Proof.
  induction es as [|e es IH]; intros c; simpl; [done|].
  rewrite Forall_cons. unfold clearable at 1, in_scope.
  destruct (occupied e); simpl; [|intros H [_ Hf]; by eapply IH].
  destruct (borrow_scope e =? p); simpl; [|intros H [_ Hf]; by eapply IH].
  destruct (bool_decide_reflect (kind e = HANDLE_RESOURCE)); simpl; [|intros _ [Hc _]; by destruct (Hc eq_refl) as (? & ? & ?)].
  destruct (owned e); simpl; [intros _ [Hc _]; by destruct (Hc eq_refl) as (? & ? & ?)|].
  destruct (Z.eqb_spec (lend_count e) 0); simpl; [|intros _ [Hc _]; by destruct (Hc eq_refl) as (? & ? & ?)].
  intros H [_ Hf]. by eapply IH.
Qed.

(** The entry a slot of the scope is left with. *)
Definition removed_entry (e : turbowasm_component_resource_entry) : turbowasm_component_resource_entry :=
  mk_entry HANDLE_RESOURCE NULL 0 VZero
    (if generation e =? MAX_GENERATION then generation e else generation e + 1) 0 NULL
    false (if generation e =? MAX_GENERATION then true else retired e) false.

Definition clear_entry (p : ptr) (e : turbowasm_component_resource_entry)
    : turbowasm_component_resource_entry := if in_scope p e then removed_entry e else e.

Lemma resource_entry_remove_capacity w i e :
  capacity (w_table (resource_entry_remove w i e)) = capacity (w_table w).
Proof. unfold resource_entry_remove. by destruct (borrow_scope e =? NULL). Qed.

Lemma scope_remove_spec sizeof_entry lends p todo : forall w done todo_es,
  world_wf w -> entries (w_table w) = done ++ todo_es -> length todo_es = todo ->
  Forall (clearable p) todo_es ->
  rtc (trans sizeof_entry lends) w (scope_remove todo w p) /\
  entries (w_table (scope_remove todo w p)) = done ++ (clear_entry p <$> todo_es).
Proof.
  induction todo as [|todo IH]; intros w done todo_es Hw Hes Hlen Hcl.
  { destruct todo_es; [|done]. split; [apply rtc_refl|done]. }
  destruct todo_es as [|e es]; [done|]. simpl in Hlen. apply Forall_cons in Hcl as [Hce Hcl].
  cbn [scope_remove]. pose proof (tw_capacity _ (proj1 Hw)) as Hcap.
  rewrite Hes, length_app in Hcap. simpl in Hcap.
  replace (capacity (w_table w) - Z.of_nat (S todo)) with (Z.of_nat (length done)) by lia.
  rewrite Nat2Z.id, Hes, lookup_app_r, Nat.sub_diag by lia. simpl.
  assert (He : entries (w_table w) !! length done = Some e)
    by (by rewrite Hes, lookup_app_r, Nat.sub_diag by lia).
  fold (in_scope p e). unfold clear_entry at 1. destruct (in_scope p e) eqn:Hin.
  - assert (Ho : occupied e = true) by (unfold in_scope in Hin; by destruct (occupied e)).
    destruct (Hce Hin) as (_ & _ & Hl).
    set (w' := resource_entry_remove w (Z.of_nat (length done)) e).
    assert (Htr : trans sizeof_entry lends w w') by (by apply trans_remove).
    assert (Hes' : entries (w_table w') = (done ++ [removed_entry e]) ++ es).
    { unfold w'. rewrite resource_entry_remove_entries, Hes.
      rewrite insert_app_r_alt, Nat.sub_diag by lia. by rewrite <- app_assoc. }
    destruct (IH w' _ es (trans_wf _ _ _ _ Hw Htr) Hes' ltac:(lia) Hcl) as [H1 H2].
    split; [by eapply rtc_l|]. rewrite H2, <- app_assoc. done.
  - rewrite (app_assoc done [e] es) in Hes || rewrite (cons_middle e done es) in Hes.
    destruct (IH w (done ++ [e]) es Hw ltac:(by rewrite Hes, <- ?app_assoc) ltac:(lia) Hcl) as [H1 H2].
    split; [done|]. rewrite H2, <- app_assoc. done.
Qed.

Lemma scope_clear_spec sizeof_entry lends w p st w' :
  world_wf w -> turbowasm_component_resource_scope_clear w p = (st, w') ->
  (st <> TURBOWASM_OK /\ w' = w) \/
  (st = TURBOWASM_OK /\ p <> NULL /\ Forall (clearable p) (entries (w_table w)) /\
   rtc (trans sizeof_entry lends) w w' /\
   entries (w_table w') = clear_entry p <$> entries (w_table w)).
Proof.
  intros Hw. unfold turbowasm_component_resource_scope_clear.
  destruct (Z.eqb_spec p NULL); [intros [= <- <-]; by left|].
  pose proof (tw_capacity _ (proj1 Hw)) as Hcap.
  rewrite take_ge by lia.
  destruct (scope_scan _ p 0) as [n0|] eqn:Hscan; [|intros [= <- <-]; by left].
  destruct (n0 >? scope_get w p); [intros [= <- <-]; by left|].
  intros [= <- <-]. right. pose proof (scope_scan_clearable _ _ _ _ Hscan) as Hcl.
  destruct (scope_remove_spec sizeof_entry lends p (Z.to_nat (capacity (w_table w))) w []
              (entries (w_table w)) Hw eq_refl ltac:(lia) Hcl) as [H1 H2].
  split_and!; done.
Qed.

(** ** Every operation is a sequence of transitions *)

(** Only the two lending operations touch a lend count. *)
Definition op_lends (op : res_op) : bool :=
  match op with op_lend_acquire _ _ | op_lend_release _ _ => true | _ => false end.

Definition op_is_drop (op : res_op) : bool :=
  match op with op_drop _ _ => true | _ => false end.

Lemma claimed_insert_wf k obj e :
  private_kind k = true -> obj <> NULL ->
  entry_wf e -> occupied e = false -> retired e = false ->
  entry_wf (mk_entry k obj (resource_identity e) (rep e) (Z.max 1 (generation e))
              (lend_count e) (borrow_scope e) true (retired e) (owned e)).
Proof.
  intros Hk Hobj He Ho Hr. destruct (ew_free _ He Ho) as (_ & _ & _ & _ & -> & -> & ->).
  pose proof (ew_generation _ He). unfold MAX_GENERATION in *.
  rewrite Hr. split; simpl; try done; unfold MAX_GENERATION; try lia.
  intros _ ->. done.
Qed.

Lemma claimed_resource_wf identity r own e :
  identity <> 0 ->
  entry_wf e -> occupied e = false -> retired e = false ->
  entry_wf (mk_entry HANDLE_RESOURCE (object e) identity r (Z.max 1 (generation e))
              (lend_count e) (borrow_scope e) true (retired e) own).
Proof.
  intros Hid He Ho Hr. destruct (ew_free _ He Ho) as (_ & _ & _ & _ & -> & -> & _).
  pose proof (ew_generation _ He). unfold MAX_GENERATION in *.
  rewrite Hr. split; simpl; try done; unfold MAX_GENERATION; try lia.
Qed.

Lemma resource_new_zero sizeof_entry realloc_ok t r own :
  resource_new sizeof_entry realloc_ok t 0 r own = (TURBOWASM_INVALID_ARGUMENT, t, None).
Proof. done. Qed.

Lemma handle_insert_refused sizeof_entry realloc_ok t k obj :
  private_kind k = false \/ obj = NULL ->
  turbowasm_component_handle_insert sizeof_entry realloc_ok t k obj =
  (TURBOWASM_INVALID_ARGUMENT, t, None).
Proof.
  unfold turbowasm_component_handle_insert. intros [-> | ->]; [done|]. by rewrite orb_true_r.
Qed.

Lemma new_trans sizeof_entry lends realloc_ok w identity r own st t' res :
  world_wf w ->
  resource_new sizeof_entry realloc_ok (w_table w) identity r own = (st, t', res) ->
  (st <> TURBOWASM_OK /\ t' = w_table w) \/
  (st = TURBOWASM_OK /\ rtc (trans sizeof_entry lends) w (mk_world t' (w_scopes w))).
Proof.
  intros Hw Hn. destruct (decide (identity = 0)) as [->|Hid].
  { rewrite resource_new_zero in Hn. injection Hn as <- <- <-. by left. }
  destruct (resource_new_spec _ _ _ _ _ _ _ _ _ (proj1 Hw) Hid Hn)
    as [(-> & h & _ & Ha)|(-> & _ & -> & _)]; [right|by left].
  split; [done|]. eapply allocates_trans; [done|exact Ha| |done].
  intros e He Ho Hr. unfold claimed. simpl. by apply claimed_resource_wf.
Qed.

Lemma insert_trans sizeof_entry lends realloc_ok w k obj st t' res :
  world_wf w ->
  turbowasm_component_handle_insert sizeof_entry realloc_ok (w_table w) k obj = (st, t', res) ->
  (st <> TURBOWASM_OK /\ t' = w_table w) \/
  (st = TURBOWASM_OK /\ rtc (trans sizeof_entry lends) w (mk_world t' (w_scopes w))).
Proof.
  intros Hw Hn. destruct (private_kind k) eqn:Hk.
  2: { rewrite handle_insert_refused in Hn by (by left). injection Hn as <- <- <-. by left. }
  destruct (decide (obj = NULL)) as [->|Hobj].
  { rewrite handle_insert_refused in Hn by (by right). injection Hn as <- <- <-. by left. }
  destruct (handle_insert_spec _ _ _ _ _ _ _ _ (proj1 Hw) Hk Hobj Hn)
    as [(-> & h & _ & Ha)|(-> & _ & -> & _)]; [right|by left].
  split; [done|]. eapply allocates_trans; [done|exact Ha| |done].
  intros e He Ho Hr. unfold claimed. simpl. by apply claimed_insert_wf.
Qed.

(** A failed operation changes nothing, save a drop whose destructor failed
    after the entry was gone; any other outcome is a run of transitions. *)
Lemma run_op_trans sizeof_entry realloc_ok destructor op w st w' :
  world_wf w -> run_op sizeof_entry realloc_ok destructor op w = (st, w') ->
  (st <> TURBOWASM_OK /\ w' = w) \/
  ((st = TURBOWASM_OK \/ op_is_drop op = true) /\ rtc (trans sizeof_entry (op_lends op)) w w').
Proof.
  assert (Hsame : mk_world (w_table w) (w_scopes w) = w) by (by destruct w).
  intros Hw. destruct op as [k obj|id r own|h rs id r|h rs id r p|h x|h x|p|h k|h x|h x]; simpl.
  - destruct (turbowasm_component_handle_insert _ _ _ _ _) as [[s t] res] eqn:Hr. simpl.
    intros [= <- <-]. destruct (insert_trans _ false _ _ _ _ _ _ _ Hw Hr) as [[? ->]|[-> ?]];
      [left; by rewrite Hsame|by right; auto].
  - destruct (resource_new sizeof_entry realloc_ok (w_table w) id r own) as [[s t] res] eqn:Hr.
    intros Heq. assert (Heq' : (s, mk_world t (w_scopes w)) = (st, w')).
    { destruct own; unfold turbowasm_component_resource_new_owned,
        turbowasm_component_resource_new_borrowed in Heq; by rewrite Hr in Heq. }
    injection Heq' as <- <-.
    destruct (new_trans _ false _ _ _ _ _ _ _ _ Hw Hr) as [[? ->]|[-> ?]];
      [left; by rewrite Hsame|by right; auto].
  - destruct (turbowasm_component_resource_publish _ _ _ _ _) as [s t] eqn:Hr. simpl.
    intros [= <- <-]. destruct (publish_trans sizeof_entry false _ _ _ _ _ _ _ Hw Hr) as [[? ->]|[-> ?]];
      [left; by rewrite Hsame|right; split; [by left|by apply rtc_once]].
  - intros Hr. destruct (publish_borrowed_trans sizeof_entry false _ _ _ _ _ _ _ _ Hw Hr) as [?|[-> ?]];
      [by left|right; split; [by left|by apply rtc_once]].
  - destruct (turbowasm_component_resource_lend_acquire _ _ _) as [s t] eqn:Hr. simpl.
    intros [= <- <-]. destruct (lend_acquire_spec _ _ _ _ _ (proj1 Hw) Hr) as [[? ->]|[-> ?]];
      [left; by rewrite Hsame|right; split; [by left|by eapply rtc_once, relends_trans]].
  - destruct (turbowasm_component_resource_lend_release _ _ _) as [s t] eqn:Hr. simpl.
    intros [= <- <-]. destruct (lend_release_spec _ _ _ _ _ (proj1 Hw) Hr) as [[? ->]|[-> ?]];
      [left; by rewrite Hsame|right; split; [by left|by eapply rtc_once, relends_trans]].
  - intros Hr. destruct (scope_clear_spec sizeof_entry false _ _ _ _ Hw Hr) as [?|(-> & _ & _ & ? & _)];
      [by left|by right; auto].
  - destruct (turbowasm_component_handle_remove _ _ _) as [[s t] res] eqn:Hr. simpl.
    intros [= <- <-]. destruct (handle_remove_spec _ _ _ _ _ _ Hw Hr) as [(? & -> & _)|(-> & e & ? & _)];
      [by left|right; split; [by left|by eapply rtc_once, removes_trans]].
  - destruct (turbowasm_component_resource_take_owned _ _ _) as [[s t] res] eqn:Hr. simpl.
    intros [= <- <-]. destruct (take_owned_spec _ _ _ _ _ _ Hw Hr) as [(? & -> & _)|(-> & e & ? & _)];
      [by left|right; split; [by left|by eapply rtc_once, removes_trans]].
  - destruct (turbowasm_component_resource_drop _ _ _ _) as [[s t] res] eqn:Hr. simpl.
    intros [= <- <-]. destruct (drop_spec _ _ _ _ _ _ _ Hw Hr) as [(? & -> & _)|(e & ? & _)];
      [by left|right; split; [by right|by eapply rtc_once, removes_trans]].
Qed.

Lemma rtc_trans_wf sizeof_entry lends w w' :
  world_wf w -> rtc (trans sizeof_entry lends) w w' -> world_wf w'.
Proof. intros Hw Hr. induction Hr; [done|]. by apply IHHr; eapply trans_wf. Qed.

Lemma run_op_wf sizeof_entry realloc_ok destructor op w st w' :
  world_wf w -> run_op sizeof_entry realloc_ok destructor op w = (st, w') -> world_wf w'.
Proof.
  intros Hw Hr. destruct (run_op_trans _ _ _ _ _ _ _ Hw Hr) as [[_ ->]|[_ Ht]]; [done|].
  by eapply rtc_trans_wf.
Qed.

(** *** Runs of operations *)

Record call := mk_call {
  c_realloc_ok : Z -> bool;
  c_destructor : option (Z -> turbowasm_value -> turbowasm_status);
  c_op : res_op
}.

Definition run_ops (sizeof_entry : Z) (cs : list call) (w : world) : world :=
  foldl (fun w c => (run_op sizeof_entry (c_realloc_ok c) (c_destructor c) (c_op c) w).2) w cs.

(** What holds along every transition holds along every run. *)
Lemma run_op_ind (P : world -> Prop) sizeof_entry c w :
  (forall w w', world_wf w -> trans sizeof_entry (op_lends (c_op c)) w w' -> P w -> P w') ->
  world_wf w -> P w ->
  P (run_op sizeof_entry (c_realloc_ok c) (c_destructor c) (c_op c) w).2.
Proof.
  intros Hstep Hw Hp. destruct (run_op _ _ _ _ w) as [st w'] eqn:Hr.
  destruct (run_op_trans _ _ _ _ _ _ _ Hw Hr) as [[_ ->]|[_ Ht]]; [done|]. simpl.
  clear Hr. induction Ht as [|w1 w2 w3 H12 H23 IH]; [done|].
  apply IH; [by eapply trans_wf|by eapply Hstep].
Qed.

Lemma run_op_wf' sizeof_entry c w :
  world_wf w -> world_wf (run_op sizeof_entry (c_realloc_ok c) (c_destructor c) (c_op c) w).2.
Proof. intros Hw. apply run_op_ind; [|done|done]. intros. by eapply trans_wf. Qed.

Lemma run_ops_wf sizeof_entry cs : forall w, world_wf w -> world_wf (run_ops sizeof_entry cs w).
Proof. induction cs as [|c cs IH]; intros w Hw; [done|]. by apply IH, run_op_wf'. Qed.

Lemma run_ops_ind (P : world -> Prop) sizeof_entry cs :
  (forall lends w w', world_wf w -> trans sizeof_entry lends w w' -> P w -> P w') ->
  forall w, world_wf w -> P w -> P (run_ops sizeof_entry cs w).
Proof.
  intros Hstep. induction cs as [|c cs IH]; intros w Hw Hp; [done|].
  apply IH; [by apply run_op_wf'|]. apply run_op_ind; [|done|done]. intros ? ?. by apply Hstep.
Qed.

Lemma init_wf max t m :
  turbowasm_component_resource_table_init zero_table max = (true, t) -> 0 <= max ->
  (forall p, is_uint 32 (default 0 (m !! p))) -> world_wf (mk_world t m).
Proof.
  unfold turbowasm_component_resource_table_init. simpl. intros Hi Hmax Hm.
  destruct (Z.gtb_spec (if max =? 0 then MAX_SLOTS else max) MAX_SLOTS); [done|].
  injection Hi as <-. split; [split|]; simpl; try done.
  - destruct (Z.eqb_spec max 0); unfold MAX_SLOTS; lia.
  - destruct (Z.eqb_spec max 0); unfold MAX_SLOTS in *; lia.
  - intros p Hp. split; [apply Hm|]. simpl. exact (proj1 (Hm p)).
Qed.

(** *** Stale handles *)

(** Slot [i] has handed out generation [g]. *)
Definition issued (i : nat) (g : Z) (w : world) : Prop :=
  exists e, entries (w_table w) !! i = Some e /\
    (g < generation e \/ generation e = g /\ (occupied e = true \/ retired e = true)).

(** Slot [i] has handed out generation [g] and taken it back. *)
Definition spent (i : nat) (g : Z) (w : world) : Prop :=
  exists e, entries (w_table w) !! i = Some e /\
    (g < generation e \/ generation e = g /\ retired e = true).

Lemma lookup_insert_cases {A} (l : list A) i j x y :
  l !! i = Some x -> <[i := y]> l !! j = if decide (i = j) then Some y else l !! j.
Proof.
  intros Hi. destruct (decide (i = j)) as [<-|Hne].
  - apply list_lookup_insert_eq. by eapply lookup_lt_Some.
  - by apply list_lookup_insert_ne.
Qed.

(** How one transition may change one slot. *)
Lemma trans_slot sizeof_entry lends w w' j e :
  world_wf w -> trans sizeof_entry lends w w' -> entries (w_table w) !! j = Some e ->
  exists e', entries (w_table w') !! j = Some e' /\
    (e' = e \/
     (occupied e = false /\ retired e = false /\ occupied e' = true /\
      generation e' = Z.max 1 (generation e)) \/
     (occupied e = true /\ occupied e' = true /\ generation e' = generation e /\
      (kind e = HANDLE_RESOURCE -> lends = true /\ exists n, e' = with_lend e n)) \/
     (occupied e = true /\ lend_count e = 0 /\ e' = removed_entry e)).
Proof.
  intros Hw Htr Hj.
  destruct Htr as [ok t' Hg|i e0 e' He Ho Hr He' Ho' Hg Hb|i e0 e' He Ho He' Ho' Hg Hb Hk
                  |i e0 e' p He Ho Hk He' Ho' Hg Hp Hb Hm|i e0 He Ho Hl].
  - destruct (table_grow_spec _ _ _ _ (proj1 Hw) Hg) as (n & _ & -> & _). simpl.
    exists e. rewrite lookup_app_l by (by eapply lookup_lt_Some). auto.
  - simpl. rewrite Nat2Z.id, (lookup_insert_cases _ _ _ _ _ He).
    destruct (decide (i = j)) as [<-|]; [simplify_eq|by eauto]. exists e'. eauto 10.
  - simpl. rewrite Nat2Z.id, (lookup_insert_cases _ _ _ _ _ He).
    destruct (decide (i = j)) as [<-|]; [simplify_eq|by eauto]. exists e'. eauto 10.
  - simpl. rewrite Nat2Z.id, (lookup_insert_cases _ _ _ _ _ He).
    destruct (decide (i = j)) as [<-|]; [simplify_eq|by eauto]. exists e'.
    split; [done|]. right; right; left. split_and!; done.
  - rewrite resource_entry_remove_entries, (lookup_insert_cases _ _ _ _ _ He).
    destruct (decide (i = j)) as [<-|]; [simplify_eq|by eauto]. eexists. split; [done|]. auto 10.
Qed.

Lemma removed_entry_cases e :
  occupied (removed_entry e) = false /\
  (generation (removed_entry e) = generation e + 1 \/
   generation (removed_entry e) = generation e /\ retired (removed_entry e) = true).
Proof.
  unfold removed_entry. simpl. destruct (Z.eqb_spec (generation e) MAX_GENERATION); auto.
Qed.

Lemma entry_at_wf w i e : world_wf w -> entries (w_table w) !! i = Some e -> entry_wf e.
Proof. intros [Ht _] He. exact (Forall_lookup_1 _ _ _ _ (tw_entries _ Ht) He). Qed.

Lemma trans_spent sizeof_entry lends i g w w' :
  world_wf w -> trans sizeof_entry lends w w' -> spent i g w -> spent i g w'.
Proof.
  intros Hw Htr (e & He & Hg). pose proof (entry_at_wf _ _ _ Hw He) as Hew.
  destruct (trans_slot _ _ _ _ _ _ Hw Htr He) as (e' & He' & Hc). exists e'. split; [done|].
  destruct Hc as [->|[(Ho & Hr & _ & ->)|[(Ho & _ & -> & _)|(Ho & _ & ->)]]]; [done| | |].
  - destruct Hg as [|[_ ?]]; [left; lia|congruence].
  - destruct (ew_live _ Hew Ho) as [_ Hr]. destruct Hg as [|[_ ?]]; [by left|congruence].
  - destruct (ew_live _ Hew Ho) as [_ Hr]. destruct (removed_entry_cases e) as [_ Hc].
    destruct Hg as [|[_ ?]]; [left; destruct Hc as [->|[-> _]]; lia|congruence].
Qed.

Lemma trans_issued sizeof_entry lends i g w w' :
  world_wf w -> trans sizeof_entry lends w w' -> issued i g w -> issued i g w'.
Proof.
  intros Hw Htr (e & He & Hg). pose proof (entry_at_wf _ _ _ Hw He) as Hew.
  destruct (trans_slot _ _ _ _ _ _ Hw Htr He) as (e' & He' & Hc). exists e'. split; [done|].
  destruct Hc as [->|[(Ho & Hr & _ & ->)|[(Ho & Ho' & -> & _)|(Ho & _ & ->)]]]; [done| | |].
  - destruct Hg as [|[_ [?|?]]]; [left; lia|congruence|congruence].
  - destruct Hg as [|[? _]]; [by left|right; auto].
  - destruct (removed_entry_cases e) as [_ [Hc|[Hc Hr]]]; destruct Hg as [|[? _]];
      rewrite Hc; [left; lia|left; lia|by left|right; auto].
Qed.

(** A live handle names an issued pair; an issued pair that is not live is spent. *)
Lemma resolves_issued t m h i e :
  table_wf t -> entry_get t h = Some (i, e) ->
  exists n, i = Z.of_nat n /\ h = generation e * 65536 + (Z.of_nat n + 1) /\
    1 <= generation e /\ Z.of_nat n < MAX_SLOTS /\ issued n (generation e) (mk_world t m).
Proof.
  intros Ht Hg. destruct (entry_get_lookup _ _ _ _ Ht Hg) as (n & -> & He & Ho & Hew).
  apply entry_get_iff in Hg as (_ & _ & _ & Hh); [|done].
  exists n. split_and!; [done|done|apply (ew_live _ Hew Ho)| |exists e; auto].
  pose proof (lookup_lt_Some _ _ _ He). pose proof (tw_capacity _ Ht). pose proof (tw_bound _ Ht).
  pose proof (tw_max _ Ht). lia.
Qed.

Lemma issued_dead_spent w n g :
  world_wf w -> issued n g w ->
  entry_get (w_table w) (g * 65536 + (Z.of_nat n + 1)) = None -> spent n g w.
Proof.
  intros [Ht _] (e & He & Hg) Hn. exists e. split; [done|].
  destruct Hg as [|[<- [Ho|]]]; [by left| |by right].
  assert (entry_get (w_table w) (generation e * 65536 + (Z.of_nat n + 1)) = Some (Z.of_nat n, e));
    [|congruence]. apply entry_get_iff; [done|]. rewrite Nat2Z.id. split_and!; done || lia.
Qed.

Lemma spent_dead w n g :
  world_wf w -> 0 <= g -> Z.of_nat n < MAX_SLOTS -> spent n g w ->
  entry_get (w_table w) (g * 65536 + (Z.of_nat n + 1)) = None.
Proof.
  intros Hw Hg0 Hn (e & He & Hg).
  destruct (entry_get _ _) as [[i e']|] eqn:Hget; [|done]. exfalso.
  destruct (resolves_issued _ (w_scopes w) _ _ _ (proj1 Hw) Hget) as (k & -> & Hh & Hg1 & Hk & _).
  destruct (entry_get_lookup _ _ _ _ (proj1 Hw) Hget) as (k' & Hk' & He' & Ho & Hew).
  apply Nat2Z.inj in Hk' as <-. apply handle_inj in Hh as [Hi ->]; [|lia..].
  apply Nat2Z.inj in Hi as <-. simplify_eq.
  destruct (ew_live _ Hew Ho) as [_ Hr]. destruct Hg as [|[_ ?]]; [lia|congruence].
Qed.

(** *** Frames: which handles an operation leaves alone *)

Definition handle_of (i : nat) (e : turbowasm_component_resource_entry) : Z :=
  generation e * 65536 + (Z.of_nat i + 1).

Lemma entry_get_frame t t' h :
  table_wf t -> table_wf t' ->
  (forall i e, occupied e = true -> handle_of i e = h ->
     entries t !! i = Some e <-> entries t' !! i = Some e) ->
  entry_get t' h = entry_get t h.
Proof.
  intros Ht Ht' Hf. apply option_eq. intros [i e]. rewrite !entry_get_iff by done.
  assert (Hx : 0 <= i -> occupied e = true -> h = generation e * 65536 + (i + 1) ->
               entries t !! Z.to_nat i = Some e <-> entries t' !! Z.to_nat i = Some e).
  { intros Hi Ho ->. apply Hf; [done|]. unfold handle_of. lia. }
  split; intros (H1 & H2 & H3 & H4); split_and!; try done; by apply (Hx H1 H3 H4).
Qed.

Lemma slot_bound t i e :
  table_wf t -> entries t !! i = Some e -> Z.of_nat i < MAX_SLOTS /\ entry_wf e.
Proof.
  intros Ht He. split; [|exact (Forall_lookup_1 _ _ _ _ (tw_entries _ Ht) He)].
  pose proof (lookup_lt_Some _ _ _ He). pose proof (tw_capacity _ Ht). pose proof (tw_bound _ Ht).
  pose proof (tw_max _ Ht). lia.
Qed.

(** Rewriting a slot disturbs no handle but the slot's old and new ones. *)
Lemma slot_frame t t' i e e' h :
  table_wf t -> table_wf t' -> entries t !! i = Some e -> entries t' = <[i := e']> (entries t) ->
  (occupied e = true -> handle_of i e <> h) -> (occupied e' = true -> handle_of i e' <> h) ->
  entry_get t' h = entry_get t h.
Proof.
  intros Ht Ht' He Hes Hold Hnew. apply entry_get_frame; [done|done|]. intros j f Hf Hh.
  rewrite Hes, (lookup_insert_cases _ _ _ _ _ He). destruct (decide (i = j)) as [<-|]; [|done].
  split; intros; simplify_eq; [by destruct (Hold Hf)|by destruct (Hnew Hf)].
Qed.

Lemma slot_resolves t i e :
  table_wf t -> entries t !! i = Some e -> occupied e = true ->
  entry_get t (handle_of i e) = Some (Z.of_nat i, e).
Proof.
  intros Ht He Ho. apply entry_get_iff; [done|]. rewrite Nat2Z.id. unfold handle_of.
  split_and!; done || lia.
Qed.

(** The effect of a removal on the whole table. *)
Lemma removes_effect w w' h e :
  world_wf w -> removes w w' h e ->
  entry_get (w_table w') h = None /\
  (forall h', h' <> h -> entry_get (w_table w') h' = entry_get (w_table w) h') /\
  live_count (w_table w') = live_count (w_table w) - 1 /\
  (forall p, scope_get w' p =
     if decide (p = borrow_scope e /\ p <> NULL) then scope_get w p - 1 else scope_get w p).
Proof.
  intros Hw Hrm. pose proof (trans_wf 1 false _ _ Hw (removes_trans _ _ _ _ _ _ Hrm)) as Hw'.
  destruct Hrm as (i & Hg & He & Ho & Hl & Heq).
  pose proof (resource_entry_remove_entries w i e) as Hes. fold (removed_entry e) in Hes.
  rewrite <- Heq in Hes. destruct (removed_entry_cases e) as [Hro Hrc].
  assert (Hh : handle_of i e = h).
  { apply entry_get_iff in Hg as (_ & _ & _ & ->); [done|apply Hw]. }
  split_and!.
  - destruct (resolves_issued _ (w_scopes w) _ _ _ (proj1 Hw) Hg) as (k & Hk & Hh' & Hg1 & Hb & _).
    apply Nat2Z.inj in Hk as <-. rewrite Hh'. apply spent_dead; [done|lia|done|].
    exists (removed_entry e). rewrite Hes. split; [|destruct Hrc as [->|[-> ?]]; [left; lia|by right]].
    apply list_lookup_insert_eq. by eapply lookup_lt_Some.
  - intros h' Hne. eapply slot_frame; [apply Hw|apply Hw'|done|done| |congruence]. congruence.
  - rewrite (tw_live _ (proj1 Hw)), (tw_live _ (proj1 Hw')), Hes.
    pose proof (count_live_insert _ _ _ (removed_entry e) He) as Hc. rewrite Ho, Hro in Hc. lia.
  - intros p. subst w'. unfold resource_entry_remove.
    destruct (Z.eqb_spec (borrow_scope e) NULL) as [Hb|Hb].
    { rewrite decide_False; [done|]. intros [-> ?]. done. }
    destruct (proj2 Hw _ Hb) as [Hu Hc].
    assert (Hpos : 1 <= scope_get w (borrow_scope e)).
    { pose proof (count_scope_insert (borrow_scope e) _ _ _ (removed_entry e) He) as Hci.
      rewrite decide_True in Hci by done. rewrite decide_False in Hci by (simpl; congruence). lia. }
    unfold scope_get, scope_set in *. simpl. rewrite wrap_id by (destruct Hu; split; lia).
    case_decide as Hp; [destruct Hp as [-> _]; by rewrite lookup_insert_eq|].
    rewrite lookup_insert_ne; [done|]. intros <-. by destruct Hp.
Qed.

(** The effect of an allocation on the whole table. *)
Lemma allocates_effect sizeof_entry realloc_ok t t' f h :
  table_wf t -> allocates sizeof_entry realloc_ok t t' f h -> table_wf t' ->
  (forall e, occupied (f e) = occupied e /\ generation (f e) = generation e) ->
  exists i e, entry_wf e /\ occupied e = false /\ retired e = false /\
    entry_get t h = None /\ entry_get t' h = Some (i, f (claimed e)) /\
    (forall h', h' <> h -> entry_get t' h' = entry_get t h') /\
    live_count t' = live_count t + 1.
Proof.
  intros Ht (t1 & i & e & Hgs & Ht1 & He & Ho & Hr & -> & ->) Ht' Hf.
  destruct (Hf (claimed e)) as [Hfo Hfg]. simpl in Hfo, Hfg.
  destruct (slot_bound _ _ _ Ht1 He) as [_ Hew].
  assert (Hfr : forall h, entry_get t1 h = entry_get t h).
  { intros h. destruct Hgs as [->|[_ Hg]]; [done|].
    destruct (table_grow_spec _ _ _ _ Ht Hg) as (n & _ & Heq & _).
    apply entry_get_frame; [done|done|]. intros j g Hgo _. rewrite Heq. simpl.
    destruct (decide (j < length (entries t)))%nat; [by rewrite lookup_app_l|].
    rewrite lookup_app_r, (lookup_ge_None_2 (entries t)) by lia. split; [done|].
    intros Hz. apply lookup_replicate in Hz as [-> _]. done. }
  assert (Hl1 : live_count t1 = live_count t).
  { destruct Hgs as [->|[_ Hg]]; [done|].
    by destruct (table_grow_spec _ _ _ _ Ht Hg) as (n & _ & -> & _). }
  set (h := Z.max 1 (generation e) * 65536 + (Z.of_nat i + 1)).
  set (t' := with_live (entry_set t1 (Z.of_nat i) (f (claimed e))) (u32 (live_count t1 + 1))) in *.
  assert (Hes : entries t' = <[i := f (claimed e)]> (entries t1)) by (simpl; by rewrite Nat2Z.id).
  assert (Hh : handle_of i (f (claimed e)) = h) by (unfold handle_of; by rewrite Hfg).
  exists (Z.of_nat i), e. split_and!; try done.
  - rewrite <- Hfr. destruct (entry_get t1 h) as [[j g]|] eqn:Hg; [|done]. exfalso.
    destruct (entry_get_lookup _ _ _ _ Ht1 Hg) as (k & -> & Hk & Hko & Hkw).
    apply entry_get_iff in Hg as (_ & _ & _ & Hh'); [|done]. unfold h in Hh'.
    destruct (slot_bound _ _ _ Ht1 He) as [Hb1 _]. destruct (slot_bound _ _ _ Ht1 Hk) as [Hb2 _].
    destruct (ew_live _ Hkw Hko). apply handle_inj in Hh' as [Hi _]; [|lia..].
    apply Nat2Z.inj in Hi as ->. congruence.
  - rewrite <- Hh. apply slot_resolves; [done| |by rewrite Hfo]. rewrite Hes.
    apply list_lookup_insert_eq. by eapply lookup_lt_Some.
  - intros h' Hne. rewrite <- Hfr. eapply slot_frame; [done|done|done|done| |]; congruence.
  - simpl. rewrite Hl1. apply wrap_id. by apply live_count_uint.
Qed.

(** ** The properties of the table *)

(** C32. Whatever sequence of operations a freshly initialised table goes
    through, with allocation failing or not at each step and whatever the
    destructors return, the table stays well formed: sizes agree and respect
    the limit, [live_count] counts the occupied slots, generations stay in
    range, free slots carry no stale data, and every borrow counter covers the
    borrows the table charges to it. *)
Theorem table_invariant sizeof_entry cs max t m :
  turbowasm_component_resource_table_init zero_table max = (true, t) -> 0 <= max ->
  (forall p, is_uint 32 (default 0 (m !! p))) ->
  world_wf (run_ops sizeof_entry cs (mk_world t m)).
Proof. intros Hi Hmax Hm. by eapply run_ops_wf, init_wf. Qed.

(** C30. A handle that has stopped resolving never resolves again, whatever
    operations follow: slots are reused but generations are not. *)
Theorem stale_handle_never_resolves sizeof_entry w h ie cs cs' :
  world_wf w -> entry_get (w_table w) h = Some ie ->
  entry_get (w_table (run_ops sizeof_entry cs w)) h = None ->
  entry_get (w_table (run_ops sizeof_entry cs' (run_ops sizeof_entry cs w))) h = None.
Proof.
  intros Hw Hg Hnone. destruct ie as [i e].
  destruct (resolves_issued _ (w_scopes w) _ _ _ (proj1 Hw) Hg) as (n & -> & -> & Hg1 & Hn & Hiss).
  assert (Hw1 : world_wf (run_ops sizeof_entry cs w)) by (by apply run_ops_wf).
  apply spent_dead; [by apply run_ops_wf|lia|done|].
  apply (run_ops_ind (spent n (generation e))); [intros; by eapply trans_spent|done|].
  apply issued_dead_spent; [done| |done].
  apply (run_ops_ind (issued n (generation e))); [intros; by eapply trans_issued|done|by destruct w].
Qed.

(** The change an operation that returned [st] makes to the lends of [h]. *)
Definition lend_delta (op : res_op) (st : turbowasm_status) (h : Z) : Z :=
  match op with
  | op_lend_acquire h' _ => if bool_decide (st = TURBOWASM_OK /\ h' = h) then 1 else 0
  | op_lend_release h' _ => if bool_decide (st = TURBOWASM_OK /\ h' = h) then -1 else 0
  | _ => 0
  end.

Lemma with_lend_same e : with_lend e (lend_count e + 0) = e.
Proof. rewrite Z.add_0_r. by destruct e. Qed.

Lemma relends_effect w w' t' h h' x d i e :
  world_wf w -> relends (w_table w) t' h x d -> w' = mk_world t' (w_scopes w) ->
  entry_get (w_table w) h' = Some (i, e) ->
  entry_get (w_table w') h' =
    Some (i, if decide (h = h') then with_lend e (lend_count e + d) else e).
Proof.
  intros Hw Hrl -> Hg. pose proof (trans_wf 1 true _ _ Hw (relends_trans 1 _ _ _ _ _ Hw Hrl)) as [Ht' _].
  destruct Hrl as (n & f & Hh & Hf & Ho & _ & _ & _ & ->). simpl in *.
  pose proof (proj1 Hw) as Ht.
  assert (Hho : handle_of n f = h) by (apply entry_get_iff in Hh as (_ & _ & _ & ->); done).
  case_decide as Heq.
  - subst h'. rewrite Hh in Hg. injection Hg as <- <-.
    replace h with (handle_of n (with_lend f (lend_count f + d))) by done.
    apply slot_resolves; [done| |done]. simpl. rewrite Nat2Z.id.
    apply list_lookup_insert_eq. by eapply lookup_lt_Some.
  - rewrite <- Hg. eapply (slot_frame _ _ n f); [done|done|done|by simpl; rewrite Nat2Z.id| |];
      simpl; unfold handle_of in *; simpl; congruence.
Qed.

(** A lent resource is out of reach of every operation that is not a lend. *)
Definition holds_slot (i : nat) (e : turbowasm_component_resource_entry) (w : world) : Prop :=
  entries (w_table w) !! i = Some e.

Lemma trans_holds_lent sizeof_entry i e w w' :
  occupied e = true -> kind e = HANDLE_RESOURCE -> 0 < lend_count e ->
  world_wf w -> trans sizeof_entry false w w' -> holds_slot i e w -> holds_slot i e w'.
Proof.
  intros Ho Hk Hl Hw Htr Hs. destruct (trans_slot _ _ _ _ _ _ Hw Htr Hs) as (e' & He' & Hc).
  unfold holds_slot. rewrite He'.
  destruct Hc as [->|[(Ho' & _)|[(_ & _ & _ & Hr)|(_ & Hz & _)]]]; [done|congruence| |lia].
  by destruct (Hr Hk).
Qed.

(** C31. A resource with an outstanding lend stays where it is: after any
    operation, successful or not, its handle resolves to the same slot with the
    same identity, representation, ownership and scope, and the number of lends
    has moved by exactly what the operation lent or released through this
    handle. *)
Theorem lent_resource_stays sizeof_entry realloc_ok destructor op w h i e st w' :
  world_wf w -> entry_get (w_table w) h = Some (i, e) ->
  kind e = HANDLE_RESOURCE -> 0 < lend_count e ->
  run_op sizeof_entry realloc_ok destructor op w = (st, w') ->
  entry_get (w_table w') h = Some (i, with_lend e (lend_count e + lend_delta op st h)).
Proof.
  intros Hw Hg Hk Hl Hrun. destruct (op_lends op) eqn:Hop.
  - destruct op as [| | | |h' x|h' x| | | |]; try done; simpl in Hrun;
      [destruct (turbowasm_component_resource_lend_acquire _ _ _) as [s t'] eqn:Hr
      |destruct (turbowasm_component_resource_lend_release _ _ _) as [s t'] eqn:Hr];
      injection Hrun as <- <-; unfold lend_delta;
      (apply lend_acquire_spec in Hr as [[Hs ->]|[-> Hrl]] ||
       apply lend_release_spec in Hr as [[Hs ->]|[-> Hrl]]); try apply Hw;
      try (rewrite bool_decide_eq_false_2 by (by intros [? _]); rewrite with_lend_same; exact Hg);
      rewrite (relends_effect _ _ _ _ _ _ _ _ _ Hw Hrl eq_refl Hg); case_decide;
      (rewrite bool_decide_eq_true_2 by done; done) ||
      (rewrite bool_decide_eq_false_2 by (by intros [_ ?]); by rewrite with_lend_same).
  - assert (Hd : lend_delta op st h = 0) by (by destruct op). rewrite Hd, with_lend_same.
    destruct (entry_get_lookup _ _ _ _ (proj1 Hw) Hg) as (n & -> & He & Ho & _).
    pose proof (run_op_ind (holds_slot n e) sizeof_entry (mk_call realloc_ok destructor op) w) as Hi.
    simpl in Hi. rewrite Hrun in Hi.
    apply entry_get_iff in Hg as (_ & _ & _ & Hh); [|apply Hw].
    replace h with (handle_of n e) by done.
    apply slot_resolves; [by eapply run_op_wf| |done].
    apply Hi; [|done|done]. intros w1 w2. rewrite Hop. by apply trans_holds_lent.
Qed.

(** C40. An operation that reports failure leaves the table and all borrow
    counters exactly as they were; the one exception is a drop whose destructor
    failed, which has by then removed the entry. *)
Theorem failure_changes_nothing sizeof_entry realloc_ok destructor op w st w' :
  world_wf w -> run_op sizeof_entry realloc_ok destructor op w = (st, w') ->
  st <> TURBOWASM_OK ->
  w' = w \/
  exists h x e d, op = op_drop h x /\ destructor = Some d /\ removes w w' h e /\ st = d x (rep e).
Proof.
  intros Hw Hrun Hst.
  destruct (run_op_trans _ _ _ _ _ _ _ Hw Hrun) as [[_ ->]|[[->|Hd] _]]; [by left|done|].
  destruct op as [| | | | | | | | |h x]; try done. simpl in Hrun.
  destruct (turbowasm_component_resource_drop _ _ _ _) as [[s w1] call] eqn:Hr.
  injection Hrun as <- <-.
  destruct (drop_spec _ _ _ _ _ _ _ Hw Hr) as [(_ & -> & _)|(e & Hrm & _ & _ & Hm)]; [by left|].
  right. destruct (owned e), destructor as [d|]; destruct Hm as [-> _]; try done.
  by exists h, x, e, d.
Qed.

Lemma allocates_wf sizeof_entry realloc_ok t t' f h :
  table_wf t -> allocates sizeof_entry realloc_ok t t' f h ->
  (forall e, entry_wf e -> occupied e = false -> retired e = false -> entry_wf (f (claimed e))) ->
  (forall e, occupied (f e) = occupied e) -> table_wf t'.
Proof.
  intros Ht (t1 & i & e & Hgs & Ht1 & He & Ho & Hr & -> & ->) Hwf Hf.
  destruct (slot_bound _ _ _ Ht1 He) as [_ Hew]. eapply table_set_wf; [done|done|by apply Hwf|].
  rewrite wrap_id by (by apply live_count_uint). rewrite (tw_live _ Ht1).
  pose proof (count_live_insert _ _ _ (f (claimed e)) He) as Hc. rewrite Ho, Hf in Hc. simpl in Hc. lia.
Qed.

(** [h] is new, denotes an entry that satisfies [P] and no other handle is affected. *)
Definition fresh_in (t t' : turbowasm_component_resource_table) (h : Z)
    (P : turbowasm_component_resource_entry -> Prop) : Prop :=
  entry_get t h = None /\ (exists i e, entry_get t' h = Some (i, e) /\ P e) /\
  (forall h', h' <> h -> entry_get t' h' = entry_get t h') /\ live_count t' = live_count t + 1.

(** Nothing free, and no way to get more: the table is at its limit, or the
    allocator refuses the larger array. *)
Definition exhausted sizeof_entry realloc_ok (t : turbowasm_component_resource_table) : Prop :=
  Forall (fun e => occupied e = true \/ retired e = true) (entries t) /\
  table_grow sizeof_entry realloc_ok t = None.

Lemma not_free_exhausted sizeof_entry realloc_ok t :
  table_wf t -> find_free t = None -> table_grow sizeof_entry realloc_ok t = None ->
  exhausted sizeof_entry realloc_ok t.
Proof.
  intros Ht Hf Hg. split; [|done]. rewrite find_free_full in Hf by done.
  apply list_find_None in Hf. eapply Forall_impl; [exact Hf|]. intros e He. simpl in He.
  destruct (occupied e), (retired e); auto.
Qed.

(** Creating a resource or registering a private object either returns a
    handle that was not in use, denotes exactly the given contents and leaves
    what every other handle denotes untouched, or reports that memory is out,
    and then only because every slot is taken or retired and the table cannot
    grow. *)
Theorem allocation_is_fresh sizeof_entry realloc_ok t :
  table_wf t ->
  (forall identity r own st t' res, identity <> 0 ->
     resource_new sizeof_entry realloc_ok t identity r own = (st, t', res) ->
     (st = TURBOWASM_OK /\ exists h, res = Some h /\ fresh_in t t' h (fun e =>
        kind e = HANDLE_RESOURCE /\ resource_identity e = identity /\ rep e = r /\
        owned e = own /\ lend_count e = 0 /\ borrow_scope e = NULL)) \/
     (st = TURBOWASM_OUT_OF_MEMORY /\ res = None /\ t' = t /\ exhausted sizeof_entry realloc_ok t)) /\
  (forall k obj st t' res, private_kind k = true -> obj <> NULL ->
     turbowasm_component_handle_insert sizeof_entry realloc_ok t k obj = (st, t', res) ->
     (st = TURBOWASM_OK /\ exists h, res = Some h /\ fresh_in t t' h (fun e =>
        kind e = k /\ object e = obj)) \/
     (st = TURBOWASM_OUT_OF_MEMORY /\ res = None /\ t' = t /\ exhausted sizeof_entry realloc_ok t)).
Proof.
  intros Ht. split.
  - intros identity r own st t' res Hid Hr.
    destruct (resource_new_spec _ _ _ _ _ _ _ _ _ Ht Hid Hr)
      as [(-> & h & -> & Ha)|(-> & -> & -> & Hf & Hg)]; [left|right; by auto using not_free_exhausted].
    split; [done|]. exists h. split; [done|].
    destruct (allocates_effect _ _ _ _ _ _ Ht Ha) as (i & e & Hew & Ho & _ & H1 & H2 & H3 & H4);
      [eapply allocates_wf; [done|exact Ha| |done]; intros; unfold claimed; simpl; by apply claimed_resource_wf|done|].
    destruct (ew_free _ Hew Ho) as (_ & _ & _ & _ & ? & ? & _).
    split; [done|]. split; [|done]. exists i. eexists. split; [exact H2|]. by simpl.
  - intros k obj st t' res Hk Hobj Hr.
    destruct (handle_insert_spec _ _ _ _ _ _ _ _ Ht Hk Hobj Hr)
      as [(-> & h & -> & Ha)|(-> & -> & -> & Hf & Hg)]; [left|right; by auto using not_free_exhausted].
    split; [done|]. exists h. split; [done|].
    destruct (allocates_effect _ _ _ _ _ _ Ht Ha) as (i & e & Hew & Ho & _ & H1 & H2 & H3 & H4);
      [eapply allocates_wf; [done|exact Ha| |done]; intros; unfold claimed; simpl; by apply claimed_insert_wf|done|].
    split; [done|]. split; [|done]. exists i. eexists. split; [exact H2|]. by simpl.
Qed.

(** Dropping a handle either refuses and changes nothing, or makes the
    handle stale, leaves every other handle as it was, gives back the borrow it
    charged, and calls the destructor exactly once, with the representation
    stored for the handle, if and only if the handle was an owning one and a
    destructor exists. A refused drop never calls the destructor. *)
Theorem drop_destroys_once destructor w h x st w' calls :
  world_wf w -> turbowasm_component_resource_drop destructor w h x = (st, w', calls) ->
  (st <> TURBOWASM_OK /\ w' = w /\ calls = None) \/
  (exists i e, entry_get (w_table w) h = Some (i, e) /\ kind e = HANDLE_RESOURCE /\
     resource_identity e = x /\ lend_count e = 0 /\
     calls = (if owned e then (fun _ => (x, rep e)) <$> destructor else None) /\
     st = (if owned e then default TURBOWASM_OK ((fun d => d x (rep e)) <$> destructor)
           else TURBOWASM_OK) /\
     entry_get (w_table w') h = None /\
     (forall h', h' <> h -> entry_get (w_table w') h' = entry_get (w_table w) h') /\
     (forall p, scope_get w' p =
        if decide (p = borrow_scope e /\ p <> NULL) then scope_get w p - 1 else scope_get w p)).
Proof.
  intros Hw Hr. destruct (drop_spec _ _ _ _ _ _ _ Hw Hr) as [|(e & Hrm & Hk & Hx & Hm)]; [by left|].
  right. destruct (removes_effect _ _ _ _ Hw Hrm) as (H1 & H2 & _ & H4).
  destruct Hrm as (i & Hg & _ & _ & Hl & _). exists (Z.of_nat i), e.
  destruct (owned e), destructor as [d|]; destruct Hm as [-> ->]; by split_and!.
Qed.

(** The counters after the second pass of [scope_clear]. *)
Lemma scope_remove_counters p todo : forall w done todo_es,
  p <> NULL -> world_wf w -> entries (w_table w) = done ++ todo_es -> length todo_es = todo ->
  Forall (clearable p) todo_es -> forall q,
  scope_get (scope_remove todo w p) q =
    scope_get w q - (if decide (q = p) then Z.of_nat (count_scope p todo_es) else 0).
Proof.
  induction todo as [|todo IH]; intros w done todo_es Hp Hw Hes Hlen Hcl q.
  { destruct todo_es; [|done]. simpl. change (Z.of_nat (count_scope p [])) with 0. case_decide; lia. }
  destruct todo_es as [|e es]; [done|]. simpl in Hlen. apply Forall_cons in Hcl as [Hce Hcl].
  cbn [scope_remove]. pose proof (tw_capacity _ (proj1 Hw)) as Hcap.
  rewrite Hes, length_app in Hcap. simpl in Hcap.
  replace (capacity (w_table w) - Z.of_nat (S todo)) with (Z.of_nat (length done)) by lia.
  assert (He : entries (w_table w) !! length done = Some e)
    by (by rewrite Hes, lookup_app_r, Nat.sub_diag by lia).
  rewrite Nat2Z.id, He. fold (in_scope p e). pose proof (entry_at_wf _ _ _ Hw He) as Hew.
  destruct (in_scope p e) eqn:Hin; unfold in_scope in Hin.
  - apply andb_true_iff in Hin as [Ho Hb]. apply Z.eqb_eq in Hb.
    destruct Hce as (_ & _ & Hl); [unfold in_scope; by rewrite Ho, Hb, Z.eqb_refl|].
    set (w' := resource_entry_remove w (Z.of_nat (length done)) e).
    assert (Hrm : removes w w' (handle_of (length done) e) e).
    { eexists. split_and!; [|done..]. apply slot_resolves; [apply Hw|done|done]. }
    destruct (removes_effect _ _ _ _ Hw Hrm) as (_ & _ & _ & Hsc).
    assert (Hes' : entries (w_table w') = (done ++ [removed_entry e]) ++ es).
    { unfold w'. rewrite resource_entry_remove_entries, Hes.
      rewrite insert_app_r_alt, Nat.sub_diag by lia. by rewrite <- app_assoc. }
    rewrite (IH w' (done ++ [removed_entry e]) es Hp) by
      (try done; try lia; by eapply trans_wf, (removes_trans 1 false)).
    rewrite Hsc. unfold count_scope. rewrite filter_cons, (decide_True (P := borrow_scope e = p)) by done.
    simpl. repeat case_decide; try lia; exfalso; naive_solver.
  - assert (Hb : borrow_scope e <> p).
    { intros Hb. destruct (ew_borrow _ Hew) as [Ho _]; [congruence|].
      by rewrite Ho, Hb, Z.eqb_refl in Hin. }
    rewrite (IH w (done ++ [e]) es Hp) by (try done; try lia; by rewrite Hes, <- app_assoc).
    unfold count_scope. rewrite filter_cons, (decide_False (P := borrow_scope e = p)) by done. done.
Qed.

Lemma clear_entry_get p w w' h i e :
  world_wf w -> world_wf w' -> entries (w_table w') = clear_entry p <$> entries (w_table w) ->
  entry_get (w_table w') h = Some (i, e) <->
  entry_get (w_table w) h = Some (i, e) /\ in_scope p e = false.
Proof.
  intros [Ht _] [Ht' _] Hes. rewrite !entry_get_iff, Hes, list_lookup_fmap by done.
  split.
  - intros (Hi & He & Ho & Hh). destruct (entries (w_table w) !! Z.to_nat i) as [f|] eqn:Hf; [|done].
    simpl in He. injection He as <-. unfold clear_entry in *. by destruct (in_scope p f) eqn:Hs.
  - intros ((Hi & -> & Ho & Hh) & Hs). unfold clear_entry. simpl. by rewrite Hs.
Qed.

Lemma count_scope_clear p es :
  p <> NULL -> Forall entry_wf es -> count_scope p (clear_entry p <$> es) = 0%nat.
Proof.
  intros Hp Hes. unfold count_scope. induction Hes as [|e es He Hes IH]; [done|].
  rewrite fmap_cons, filter_cons. rewrite decide_False; [exact IH|].
  unfold clear_entry, in_scope. intros Hb. destruct (occupied e && _) eqn:Hs; [by destruct Hp|].
  destruct (ew_borrow _ He) as [Ho _]; [congruence|]. by rewrite Ho, Hb, Z.eqb_refl in Hs.
Qed.

(** Clearing a borrow scope is all or nothing: it fails without effect, or
    it removes precisely the entries charged to that scope, none of which was
    owned or lent, leaves every other handle as it was, and takes one from the
    scope's counter per entry removed, touching no other counter. *)
Theorem scope_clear_exact w p st w' :
  world_wf w -> turbowasm_component_resource_scope_clear w p = (st, w') ->
  (st <> TURBOWASM_OK /\ w' = w) \/
  (st = TURBOWASM_OK /\ p <> NULL /\
   (forall h i e, entry_get (w_table w) h = Some (i, e) ->
      entry_get (w_table w') h =
        if bool_decide (borrow_scope e = p) then None else Some (i, e)) /\
   (forall h, entry_get (w_table w) h = None -> entry_get (w_table w') h = None) /\
   Forall (fun e => borrow_scope e = p -> owned e = false /\ lend_count e = 0) (entries (w_table w)) /\
   count_scope p (entries (w_table w')) = 0%nat /\
   scope_get w' p = scope_get w p - Z.of_nat (count_scope p (entries (w_table w))) /\
   (forall q, q <> p -> scope_get w' q = scope_get w q)).
Proof.
  intros Hw Hr. destruct (scope_clear_spec 1 false _ _ _ _ Hw Hr)
    as [?|(-> & Hp & Hcl & Htr & Hes)]; [by left|right].
  pose proof (rtc_trans_wf _ _ _ _ Hw Htr) as Hw'.
  assert (Hin : forall e, entry_wf e -> borrow_scope e = p -> in_scope p e = true).
  { intros e He Hb. destruct (ew_borrow _ He) as [Ho _]; [congruence|].
    unfold in_scope. by rewrite Ho, Hb, Z.eqb_refl. }
  assert (Hsc : forall q, scope_get w' q = scope_get w q -
     (if decide (q = p) then Z.of_nat (count_scope p (entries (w_table w))) else 0)).
  { revert Hr. unfold turbowasm_component_resource_scope_clear.
    destruct (p =? NULL); [done|]. destruct (scope_scan _ _ _); [|done].
    destruct (_ >? _); [done|]. intros [= <-].
    apply (scope_remove_counters p _ w []); try done. rewrite (tw_capacity _ (proj1 Hw)). lia. }
  split_and!; [done|done| | | | | |].
  - intros h i e Hg. destruct (entry_get_lookup _ _ _ _ (proj1 Hw) Hg) as (_ & _ & _ & Ho & Hew).
    case_bool_decide as Hb.
    + destruct (entry_get (w_table w') h) as [[j f]|] eqn:Hg'; [|done].
      apply (clear_entry_get p w w') in Hg' as [Hf Hs]; [|done..]. rewrite Hg in Hf. simplify_eq.
      by rewrite Hin in Hs.
    + apply (clear_entry_get p w w'); [done..|]. split; [done|]. unfold in_scope.
      destruct (Z.eqb_spec (borrow_scope e) p); [done|]. by rewrite andb_false_r.
  - intros h Hg. destruct (entry_get (w_table w') h) as [[j f]|] eqn:Hg'; [|done].
    apply (clear_entry_get p w w') in Hg' as [Hf Hs]; [|done..]. congruence.
  - pose proof (tw_entries _ (proj1 Hw)) as Hwf. rewrite Forall_forall in Hcl, Hwf. apply Forall_forall.
    intros e He Hb. destruct (Hcl e He (Hin _ (Hwf e He) Hb)) as (_ & ? & ?). done.
  - rewrite Hes. apply count_scope_clear; [done|apply Hw].
  - rewrite Hsc, decide_True by done. done.
  - intros q Hq. rewrite Hsc, decide_False by done. lia.
Qed.

(** ** Witnesses *)

(** A table of at most four slots and a borrow counter at address 64. *)
Definition demo : world := mk_world (mk_table [] 0 0 4) {[ 64 := 0 ]}.

Definition ok_call (op : res_op) : call := mk_call (fun _ => true) None op.

(** One owned resource, one borrowed on the counter, one lent. *)
Definition demo_calls : list call :=
  [ok_call (op_new 5 (VI32 7) true);
   ok_call (op_insert HANDLE_RESOURCE_RESERVATION 900);
   ok_call (op_publish_borrowed 65538 900 5 (VI64 8) 64);
   ok_call (op_new 6 (VI32 9) false);
   ok_call (op_lend_acquire 65539 6)].

Definition demo_busy : world := run_ops 72 demo_calls demo.

Lemma demo_scopes_uint p : is_uint 32 (default 0 (({[ 64 := 0 ]} : gmap Z Z) !! p)).
Proof.
  destruct (decide (p = 64)) as [->|];
    [rewrite lookup_singleton_eq|rewrite lookup_singleton_ne by done]; split; simpl; lia.
Qed.

Lemma demo_wf : world_wf demo.
Proof. apply (init_wf 4); [reflexivity|lia|apply demo_scopes_uint]. Qed.

Lemma demo_busy_wf : world_wf demo_busy.
Proof. apply run_ops_wf, demo_wf. Qed.

Lemma handle_codec_witness :
  handle_encode 2 7 = 458755 /\ handle_decode (handle_encode 2 7) = Some (2, 7).
Proof.
  split; [reflexivity|]. apply (handle_codec 2 7); unfold MAX_SLOTS, MAX_GENERATION; lia.
Defined.

Lemma table_invariant_witness : world_wf (run_ops 72 demo_calls demo).
Proof.
  apply (table_invariant 72 demo_calls 4 (mk_table [] 0 0 4) {[ 64 := 0 ]});
    [reflexivity|lia|apply demo_scopes_uint].
Defined.

Lemma stale_handle_never_resolves_witness :
  entry_get (w_table (run_ops 72 [ok_call (op_new 9 (VI32 1) true)]
    (run_ops 72 [ok_call (op_take_owned 65537 5)] demo_busy))) 65537 = None.
Proof.
  eapply (stale_handle_never_resolves 72 demo_busy 65537);
    [apply demo_busy_wf|vm_compute; reflexivity|vm_compute; reflexivity].
Defined.

Lemma lent_resource_stays_witness :
  exists e, entry_get (w_table (run_op 72 (fun _ => true) None (op_drop 65539 6) demo_busy).2) 65539
            = Some (2, e) /\ lend_count e = 1.
Proof.
  destruct (run_op 72 (fun _ => true) None (op_drop 65539 6) demo_busy) as [st w'] eqn:Hr.
  eexists. split.
  - eapply (lent_resource_stays 72 (fun _ => true) None (op_drop 65539 6) demo_busy 65539 2);
      [apply demo_busy_wf|vm_compute; reflexivity|reflexivity|simpl; lia|exact Hr].
  - reflexivity.
Defined.

Lemma failure_changes_nothing_witness :
  let r := run_op 72 (fun _ => true) (Some (fun _ _ => TURBOWASM_TRAPPED)) (op_drop 65539 6) demo_busy in
  r.2 = demo_busy \/
  exists h x e d, op_drop 65539 6 = op_drop h x /\ Some (fun _ _ => TURBOWASM_TRAPPED) = Some d /\
    removes demo_busy r.2 h e /\ r.1 = d x (rep e).
Proof.
  intros r. apply (failure_changes_nothing 72 (fun _ => true) _ (op_drop 65539 6) demo_busy r.1);
    [apply demo_busy_wf|apply surjective_pairing|vm_compute; discriminate].
Defined.

Lemma allocation_is_fresh_witness :
  exists h t', resource_new 72 (fun _ => true) (w_table demo_busy) 5 (VI32 3) true
               = (TURBOWASM_OK, t', Some h) /\ entry_get (w_table demo_busy) h = None.
Proof.
  destruct (resource_new 72 (fun _ => true) (w_table demo_busy) 5 (VI32 3) true) as [[st t'] res] eqn:Hr.
  destruct (allocation_is_fresh 72 (fun _ => true) (w_table demo_busy)) as [Hn _];
    [apply demo_busy_wf|].
  destruct (Hn 5 (VI32 3) true st t' res ltac:(lia) Hr) as [(-> & h & -> & Hf & _)|(-> & _)].
  - exists h, t'. split; [done|exact Hf].
  - vm_compute in Hr. discriminate.
Defined.

Lemma drop_destroys_once_witness :
  let r := turbowasm_component_resource_drop (Some (fun _ _ => TURBOWASM_OK)) demo_busy 65537 5 in
  r.2 = Some (5, VI32 7) /\ entry_get (w_table r.1.2) 65537 = None.
Proof.
  intros r. split; [vm_compute; reflexivity|].
  destruct (drop_destroys_once (Some (fun _ _ => TURBOWASM_OK)) demo_busy 65537 5 r.1.1 r.1.2 r.2)
    as [(Hst & _)|(i & e & _ & _ & _ & _ & _ & _ & Hg & _)];
    [apply demo_busy_wf|vm_compute; reflexivity|exfalso; apply Hst; vm_compute; reflexivity|exact Hg].
Defined.

Lemma scope_clear_exact_witness :
  let r := turbowasm_component_resource_scope_clear demo_busy 64 in
  r.1 = TURBOWASM_OK /\ scope_get demo_busy 64 = 1 /\ scope_get r.2 64 = 0.
Proof.
  intros r. split; [vm_compute; reflexivity|]. split; [vm_compute; reflexivity|].
  destruct (scope_clear_exact demo_busy 64 r.1 r.2)
    as [(Hst & _)|(_ & _ & _ & _ & _ & _ & Hs & _)];
    [apply demo_busy_wf|vm_compute; reflexivity|exfalso; apply Hst; vm_compute; reflexivity|].
  rewrite Hs. vm_compute. reflexivity.
Defined.

End Resource.
