(* ===== verification/AsyncState.v ===== *)
(** * Notification states of the asynchronous ABI (src/component_async_state.c)

    The two small state machines behind every asynchronous handle of a
    component: the progress of a subtask, and one end of a stream or future.
    Each operation returns whether it was admitted, or what it delivers. *)

From S2P Require Import Prelude.

Module AsyncState.

(** ** Subtasks *)

Definition SUBTASK_STARTING : Z := 0.
Definition SUBTASK_STARTED : Z := 1.
Definition SUBTASK_RETURNED : Z := 2.
Definition SUBTASK_CANCELLED_BEFORE_STARTED : Z := 3.
Definition SUBTASK_CANCELLED_BEFORE_RETURNED : Z := 4.

Record turbowasm_component_subtask_state := mk_subtask {
  sub_phase : Z;
  cancellation_requested : bool;
  sub_pending : bool;
  resolve_delivered : bool
}.

(** Zero initialization starts a subtask. *)
Definition zero_subtask : turbowasm_component_subtask_state := mk_subtask SUBTASK_STARTING false false false.

Definition subtask_live (st : turbowasm_component_subtask_state) : bool :=
  (sub_phase st =? SUBTASK_STARTING) || (sub_phase st =? SUBTASK_STARTED).

Definition turbowasm_component_subtask_start (st : turbowasm_component_subtask_state)
    : bool * turbowasm_component_subtask_state :=
  if negb (subtask_live st) || negb (sub_phase st =? SUBTASK_STARTING) then (false, st)
  else (true, mk_subtask SUBTASK_STARTED (cancellation_requested st) true (resolve_delivered st)).

Definition turbowasm_component_subtask_request_cancel (st : turbowasm_component_subtask_state)
    : bool * turbowasm_component_subtask_state :=
  if resolve_delivered st || cancellation_requested st then (false, st)
  else
    let st := if subtask_live st then mk_subtask (sub_phase st) true (sub_pending st) (resolve_delivered st) else st in
    ((sub_phase st >=? SUBTASK_STARTING) && (sub_phase st <=? SUBTASK_CANCELLED_BEFORE_RETURNED), st).

Definition turbowasm_component_subtask_resolve (cancelled : bool) (st : turbowasm_component_subtask_state)
    : bool * turbowasm_component_subtask_state :=
  if negb (subtask_live st) || (cancelled && negb (cancellation_requested st)) ||
     (negb cancelled && negb (sub_phase st =? SUBTASK_STARTED)) then (false, st)
  else
    let phase := if cancelled
                 then if sub_phase st =? SUBTASK_STARTING then SUBTASK_CANCELLED_BEFORE_STARTED
                      else SUBTASK_CANCELLED_BEFORE_RETURNED
                 else SUBTASK_RETURNED in
    (true, mk_subtask phase (cancellation_requested st) true (resolve_delivered st)).

Definition turbowasm_component_subtask_take_event (st : turbowasm_component_subtask_state)
    : option Z * turbowasm_component_subtask_state :=
  if negb (sub_pending st) || resolve_delivered st || (sub_phase st <? SUBTASK_STARTED) ||
     (sub_phase st >? SUBTASK_CANCELLED_BEFORE_RETURNED) then (None, st)
  else (Some (sub_phase st),
        mk_subtask (sub_phase st) (cancellation_requested st) false
          (if subtask_live st then resolve_delivered st else true)).

(** ** Ends of streams and futures *)

Definition ENDPOINT_IDLE : Z := 0.
Definition ENDPOINT_COPYING : Z := 1.
Definition ENDPOINT_CANCELLING : Z := 2.
Definition ENDPOINT_DONE : Z := 3.

Definition COPY_COMPLETED : Z := 0.
Definition COPY_DROPPED : Z := 1.
Definition COPY_CANCELLED : Z := 2.
Definition COPY_MAX_LENGTH : Z := 0x0fffffff.

Record turbowasm_component_endpoint_state := mk_endpoint {
  end_phase : Z;
  progress : Z;
  future : bool;
  peer_dropped : bool;
  end_pending : bool
}.

(** Zero initialization is an idle stream end; [future] is set once for a future. *)
Definition zero_endpoint (f : bool) : turbowasm_component_endpoint_state := mk_endpoint ENDPOINT_IDLE 0 f false false.

Definition turbowasm_component_endpoint_begin_copy (st : turbowasm_component_endpoint_state)
    : bool * turbowasm_component_endpoint_state :=
  if negb (end_phase st =? ENDPOINT_IDLE) || (end_pending st && negb (peer_dropped st)) then (false, st)
  else (true, mk_endpoint ENDPOINT_COPYING 0 (future st) (peer_dropped st) (end_pending st)).

Definition turbowasm_component_endpoint_notify (n : Z) (st : turbowasm_component_endpoint_state)
    : bool * turbowasm_component_endpoint_state :=
  if (negb (end_phase st =? ENDPOINT_COPYING) && negb (end_phase st =? ENDPOINT_CANCELLING) &&
      negb ((end_phase st =? ENDPOINT_IDLE) && peer_dropped st)) ||
     (n >? COPY_MAX_LENGTH) ||
     ((end_phase st =? ENDPOINT_IDLE) && negb (n =? 0)) ||
     (future st && ((n >? 1) ||
        ((n =? 0) && negb (peer_dropped st) && negb (end_phase st =? ENDPOINT_CANCELLING)))) ||
     (end_pending st && (n <? progress st)) then (false, st)
  else (true, mk_endpoint (end_phase st) n (future st) (peer_dropped st) true).

Definition turbowasm_component_endpoint_request_cancel (defer_ack : bool) (st : turbowasm_component_endpoint_state)
    : bool * turbowasm_component_endpoint_state :=
  if negb (end_phase st =? ENDPOINT_COPYING) then (false, st)
  else if negb (end_pending st) && negb defer_ack
       then (true, mk_endpoint ENDPOINT_CANCELLING 0 (future st) (peer_dropped st) true)
       else (true, mk_endpoint ENDPOINT_CANCELLING (progress st) (future st) (peer_dropped st) (end_pending st)).

Definition turbowasm_component_endpoint_peer_dropped (st : turbowasm_component_endpoint_state)
    : bool * turbowasm_component_endpoint_state :=
  if peer_dropped st || (end_phase st >? ENDPOINT_DONE) then (false, st)
  else if negb (end_phase st =? ENDPOINT_DONE) && negb (end_pending st)
       then (true, mk_endpoint (end_phase st) 0 (future st) true true)
       else (true, mk_endpoint (end_phase st) (progress st) (future st) true (end_pending st)).

(** The result code and the next phase, by precedence. *)
Definition endpoint_result (st : turbowasm_component_endpoint_state) : option (Z * Z) :=
  if future st && (progress st =? 1) then Some (COPY_COMPLETED, ENDPOINT_DONE)
  else if peer_dropped st then Some (COPY_DROPPED, ENDPOINT_DONE)
  else if end_phase st =? ENDPOINT_CANCELLING then Some (COPY_CANCELLED, ENDPOINT_IDLE)
  else if negb (future st) && (end_phase st =? ENDPOINT_COPYING) then Some (COPY_COMPLETED, ENDPOINT_IDLE)
  else None.

Definition turbowasm_component_endpoint_take_event (st : turbowasm_component_endpoint_state)
    : option Z * turbowasm_component_endpoint_state :=
  if negb (end_pending st) || (end_phase st =? ENDPOINT_DONE) then (None, st)
  else match endpoint_result st with
       | None => (None, st)
       | Some (result, next_phase) =>
           let result := if future st then result else result .| u32 (progress st ≪ 4) in
           (Some result, mk_endpoint next_phase (progress st) (future st) (peer_dropped st) false)
       end.

(** ** Runs

    The operations an owner performs in any order; what is delivered. *)

Inductive subtask_op :=
  | sub_start
  | sub_cancel
  | sub_resolve (cancelled : bool)
  | sub_take.

Definition subtask_step (op : subtask_op) (st : turbowasm_component_subtask_state)
    : option Z * turbowasm_component_subtask_state :=
  match op with
  | sub_start => (None, snd (turbowasm_component_subtask_start st))
  | sub_cancel => (None, snd (turbowasm_component_subtask_request_cancel st))
  | sub_resolve c => (None, snd (turbowasm_component_subtask_resolve c st))
  | sub_take => turbowasm_component_subtask_take_event st
  end.

Inductive endpoint_op :=
  | end_begin
  | end_notify (n : Z)
  | end_cancel (defer_ack : bool)
  | end_drop
  | end_take.

Definition endpoint_step (op : endpoint_op) (st : turbowasm_component_endpoint_state)
    : option Z * turbowasm_component_endpoint_state :=
  match op with
  | end_begin => (None, snd (turbowasm_component_endpoint_begin_copy st))
  | end_notify n => (None, snd (turbowasm_component_endpoint_notify n st))
  | end_cancel d => (None, snd (turbowasm_component_endpoint_request_cancel d st))
  | end_drop => (None, snd (turbowasm_component_endpoint_peer_dropped st))
  | end_take => turbowasm_component_endpoint_take_event st
  end.

(** What a sequence of operations delivers, in order, and the state after it. *)
Fixpoint deliveries {A B} (step : A -> B -> option Z * B) (ops : list A) (st : B) : list Z * B :=
  match ops with
  | [] => ([], st)
  | op :: ops =>
      let '(event, st) := step op st in
      let '(events, st) := deliveries step ops st in
      (match event with Some e => e :: events | None => events end, st)
  end.

Lemma deliveries_ind {A B} (step : A -> B -> option Z * B) (P : A -> Prop) (I : list Z -> B -> Prop) :
  (forall op st es event st', P op -> I es st -> step op st = (event, st') ->
     I (match event with Some e => es ++ [e] | None => es end) st') ->
  forall ops st es, Forall P ops -> I es st ->
  I (es ++ fst (deliveries step ops st)) (snd (deliveries step ops st)).
Proof.
  intros Hs ops. induction ops as [|op ops IH]; intros st es Hp HI; cbn [deliveries]; [by rewrite app_nil_r|].
  inversion Hp as [|? ? Hop Hops]; subst. destruct (step op st) as [event st1] eqn:E.
  pose proof (Hs _ _ _ _ _ Hop HI E) as HI1. destruct (deliveries step ops st1) as [events st2] eqn:E2.
  pose proof (IH st1 _ Hops HI1) as HI2. rewrite E2 in HI2. simpl in *. destruct event; [|done]. by rewrite <- app_assoc in HI2.
Qed.

(** ** Subtasks deliver a start and one end *)

Definition terminal_phase (p : Z) : Prop :=
  p = SUBTASK_RETURNED \/ p = SUBTASK_CANCELLED_BEFORE_STARTED \/ p = SUBTASK_CANCELLED_BEFORE_RETURNED.

(** The start may be delivered first; a subtask cancelled before it started has none. *)
Definition start_events (p : Z) (es : list Z) : Prop :=
  es = [] \/ (es = [SUBTASK_STARTED] /\ p <> SUBTASK_CANCELLED_BEFORE_STARTED).

(** The events [es] delivered by the time of the state [st]. *)
Definition subtask_inv (es : list Z) (st : turbowasm_component_subtask_state) : Prop :=
  (sub_phase st = SUBTASK_STARTING /\ es = [] /\ sub_pending st = false /\ resolve_delivered st = false) \/
  (sub_phase st = SUBTASK_STARTED /\ es = (if sub_pending st then [] else [SUBTASK_STARTED]) /\ resolve_delivered st = false) \/
  (terminal_phase (sub_phase st) /\ (sub_phase st <> SUBTASK_RETURNED -> cancellation_requested st = true) /\
   sub_pending st = negb (resolve_delivered st) /\
   exists pre, start_events (sub_phase st) pre /\ es = (if resolve_delivered st then pre ++ [sub_phase st] else pre)).

Local Ltac sub_case := simpl;
  first [left; by repeat split | right; left; by repeat split |
         right; right; split; [first [by left | by right; left | by right; right]|];
         split; [done|]; split; [done|]; first [exists []; split; [by left|done] | exists [SUBTASK_STARTED]; split; [by right|done]]].

Lemma subtask_step_inv op st es event st' : True -> subtask_inv es st -> subtask_step op st = (event, st') ->
  subtask_inv (match event with Some e => es ++ [e] | None => es end) st'.
Proof.
  intros _. destruct st as [p c q d]. unfold subtask_inv, terminal_phase, start_events. simpl.
  intros [(-> & -> & -> & ->)|[(-> & -> & ->)|(Hp & Hc & -> & pre & Hpre & ->)]].
  - intros E. destruct op as [| |[]|], c; vm_compute in E; injection E as <- <-; sub_case.
  - intros E. destruct op as [| |[]|], q, c; vm_compute in E; injection E as <- <-; sub_case.
  - assert (Hn : p <> SUBTASK_STARTING /\ p <> SUBTASK_STARTED) by (destruct Hp as [->|[->| ->]]; done).
    assert (Hl : (p =? SUBTASK_STARTING) = false /\ (p =? SUBTASK_STARTED) = false) by (split; apply Z.eqb_neq; tauto).
    destruct Hl as [H0 H1]. destruct op as [| |[]|]; cbn -[Z.eqb Z.ltb Z.gtb Z.geb Z.leb];
      unfold turbowasm_component_subtask_start, turbowasm_component_subtask_request_cancel, turbowasm_component_subtask_resolve,
        turbowasm_component_subtask_take_event, subtask_live; cbn [sub_phase cancellation_requested sub_pending resolve_delivered];
      rewrite ?H0, ?H1; cbn [orb negb andb]; try (intros [= <- <-]; right; right; simpl; by eauto 8).
    + destruct d, c; cbn [orb]; intros [= <- <-]; right; right; simpl; eauto 8.
    + destruct d; cbn [orb negb]; [intros [= <- <-]; right; right; simpl; by eauto 8|].
      replace ((p <? SUBTASK_STARTED) || (p >? SUBTASK_CANCELLED_BEFORE_RETURNED)) with false
        by (destruct Hp as [->|[->| ->]]; reflexivity).
      intros [= <- <-]. right. right. simpl. eauto 8.
Qed.

(** C23. The protocol of a subtask, whatever the owner does in whatever order: it
    delivers at most one start and then at most one end, nothing after the end,
    no start before a cancellation that came first, and a cancelled end only if
    cancellation was requested; a pending event can always be taken, and an end
    that was not delivered is still pending. *)
Theorem subtask_protocol ops :
  let '(events, st) := deliveries subtask_step ops zero_subtask in
  (start_events SUBTASK_STARTED events \/
   exists pre t, events = pre ++ [t] /\ terminal_phase t /\ start_events t pre /\ resolve_delivered st = true /\
     (t <> SUBTASK_RETURNED -> cancellation_requested st = true)) /\
  (sub_pending st = true -> exists st', turbowasm_component_subtask_take_event st = (Some (sub_phase st), st')) /\
  (terminal_phase (sub_phase st) -> resolve_delivered st = false -> sub_pending st = true).
Proof.
  pose proof (deliveries_ind subtask_step (fun _ => True) subtask_inv subtask_step_inv ops zero_subtask [] ltac:(by apply Forall_true)
    ltac:(by left)) as Hi.
  destruct (deliveries subtask_step ops zero_subtask) as [events [p c q d]]. cbn [app fst snd] in Hi.
  unfold subtask_inv, terminal_phase in *. simpl in *.
  unfold turbowasm_component_subtask_take_event. simpl.
  destruct Hi as [(-> & -> & -> & ->)|[(-> & -> & ->)|(Hp & Hc & -> & pre & Hpre & ->)]].
  - split; [left; by left|]. split; [done|]. by intros [|[|]].
  - split; [left; unfold start_events; destruct q; [by left|by right]|]. split; [intros ->; by eexists|]. by intros [|[|]].
  - split; [|split; [|by destruct d]].
    + destruct d; [right; by exists pre, p|left]. destruct Hpre as [->|[-> _]]; [by left|by right].
    + destruct d; [done|]. intros _. cbn [orb negb]. destruct Hp as [->|[->| ->]]; by eexists.
Qed.

(** ** An end of a stream or future delivers until it is done *)

(** A result after which the end is done: the peer is gone, or the one element of
    a future has been copied. *)
Definition final_result (f : bool) (r : Z) : Prop :=
  if f then r <> COPY_CANCELLED else r .& 15 = COPY_DROPPED.

Record endpoint_inv (f : bool) (es : list Z) (st : turbowasm_component_endpoint_state) : Prop := {
  ei_future : future st = f;
  ei_phase : 0 <= end_phase st <= ENDPOINT_DONE;
  ei_progress : 0 <= progress st <= COPY_MAX_LENGTH;
  ei_done : end_phase st = ENDPOINT_DONE -> end_pending st = false;
  ei_result : end_pending st = true -> endpoint_result st <> None;
  ei_open : end_phase st <> ENDPOINT_DONE -> Forall (fun r => ~ final_result f r) es;
  ei_closed : end_phase st = ENDPOINT_DONE -> exists es' r, es = es' ++ [r] /\ Forall (fun r => ~ final_result f r) es' /\ final_result f r
}.

Lemma pack_result code n : 0 <= code < 16 -> 0 <= n <= COPY_MAX_LENGTH -> code .| u32 (n ≪ 4) = code + 16 * n.
Proof.
  unfold COPY_MAX_LENGTH. intros Hc Hn. rewrite wrap_id by (rewrite Z.shiftl_mul_pow2 by lia; split; lia).
  rewrite <- Z.add_nocarry_lor; [rewrite Z.shiftl_mul_pow2 by lia; lia|].
  apply Z.bits_inj'. intros k Hk. rewrite Z.land_spec, Z.bits_0. destruct (Z.lt_ge_cases k 4).
  - by rewrite Z.shiftl_spec_low, andb_false_r by lia.
  - destruct (Z.eq_dec code 0) as [->|]; [by rewrite Z.bits_0|].
    rewrite (Z.bits_above_log2 code); [done|lia|]. pose proof (Z.log2_lt_pow2 code 4 ltac:(lia)). lia.
Qed.

Lemma unpack_code code n : 0 <= code < 16 -> 0 <= n -> (code + 16 * n) .& 15 = code.
Proof.
  intros Hc Hn. change 15 with (Z.ones 4). rewrite Z.land_ones by lia. change (2 ^ 4) with 16.
  rewrite Z.mul_comm, Z.mod_add by lia. by apply Z.mod_small.
Qed.

(** What a delivery returns: a code, with the progress of a stream above it. *)
Definition endpoint_event (st : turbowasm_component_endpoint_state) (code : Z) : Z :=
  if future st then code else code + 16 * progress st.

Lemma take_endpoint st code next : 0 <= progress st <= COPY_MAX_LENGTH -> end_pending st = true -> end_phase st <> ENDPOINT_DONE ->
  endpoint_result st = Some (code, next) ->
  0 <= code <= COPY_CANCELLED /\ turbowasm_component_endpoint_take_event st =
    (Some (endpoint_event st code), mk_endpoint next (progress st) (future st) (peer_dropped st) false).
Proof.
  intros Hp Hq Hd Hr. assert (Hc : 0 <= code <= COPY_CANCELLED).
  { unfold endpoint_result in Hr. repeat case_match; simplify_eq; unfold COPY_COMPLETED, COPY_DROPPED, COPY_CANCELLED; lia. }
  split; [done|]. unfold turbowasm_component_endpoint_take_event, endpoint_event. rewrite Hq, Hr. apply Z.eqb_neq in Hd. rewrite Hd. simpl.
  destruct (future st); [done|]. unfold COPY_CANCELLED in Hc. by rewrite pack_result by lia.
Qed.

(** The operations that are not deliveries keep the events so far. *)
Lemma endpoint_inv_keep f es st st' : endpoint_inv f es st -> end_phase st <> ENDPOINT_DONE -> future st' = f ->
  0 <= end_phase st' < ENDPOINT_DONE -> 0 <= progress st' <= COPY_MAX_LENGTH ->
  (end_pending st' = true -> endpoint_result st' <> None) -> endpoint_inv f es st'.
Proof. intros [] Hd Hf Hp Hg Hr. split; try done; try lia. intros _. by apply ei_open0. Qed.

Definition plain_op (op : endpoint_op) : Prop := match op with end_notify n => 0 <= n | _ => True end.

Local Ltac eqs := repeat match goal with
  | H : (_ || _) = false |- _ => apply orb_false_iff in H as [? ?]
  | H : (_ =? _) = true |- _ => apply Z.eqb_eq in H
  | H : (_ =? _) = false |- _ => apply Z.eqb_neq in H
  | H : negb _ = false |- _ => apply negb_false_iff in H
  | H : (_ >? _) = false |- _ => rewrite Z.gtb_ltb in H; apply Z.ltb_ge in H
  | H : (_ && _) = true |- _ => apply andb_true_iff in H as [? ?]
  end.

Lemma begin_copy_inv f es st : endpoint_inv f es st -> endpoint_inv f es (snd (turbowasm_component_endpoint_begin_copy st)).
Proof.
  intros Hi. unfold turbowasm_component_endpoint_begin_copy. case_match eqn:E; [done|]. eqs. simpl.
  eapply endpoint_inv_keep; simpl; [done|unfold ENDPOINT_IDLE, ENDPOINT_DONE in *; lia|apply Hi|unfold ENDPOINT_COPYING, ENDPOINT_DONE; lia|
    unfold COPY_MAX_LENGTH; lia|].
  intros Hq. rewrite Hq in *. simpl in *. eqs. unfold endpoint_result. simpl. rewrite andb_false_r.
  rename select (peer_dropped st = true) into Hpd. by rewrite Hpd.
Qed.

Lemma endpoint_notify_inv f es n st : 0 <= n -> endpoint_inv f es st -> endpoint_inv f es (snd (turbowasm_component_endpoint_notify n st)).
Proof.
  intros Hn Hi. unfold turbowasm_component_endpoint_notify. case_match eqn:E; [done|]. eqs. simpl.
  pose proof (ei_phase _ _ _ Hi). unfold ENDPOINT_IDLE, ENDPOINT_COPYING, ENDPOINT_CANCELLING, ENDPOINT_DONE in *.
  assert (Hd : end_phase st <> 3). { intros Hd. rewrite Hd in *. simpl in *. discriminate. }
  eapply endpoint_inv_keep; simpl; [done|done|apply Hi|unfold ENDPOINT_DONE; lia|done|].
  intros _. unfold endpoint_result. simpl. rewrite (ei_future _ _ _ Hi) in *.
  assert (Hph : end_phase st = 0 \/ end_phase st = 1 \/ end_phase st = 2) by lia.
  destruct f, (peer_dropped st) eqn:Hpd; simpl in *.
  - by destruct (n =? 1).
  - destruct Hph as [Hph|[Hph|Hph]]; rewrite Hph in *; simpl in *; [done| |by destruct (n =? 1)].
    destruct (Z.eqb_spec n 1); [done|]. exfalso. eqs. destruct (Z.eqb_spec n 0); [done|]. lia.
  - done.
  - by destruct Hph as [Hph|[Hph|Hph]]; rewrite Hph in *.
Qed.

Lemma endpoint_cancel_inv f es d st : endpoint_inv f es st -> endpoint_inv f es (snd (turbowasm_component_endpoint_request_cancel d st)).
Proof.
  intros Hi. unfold turbowasm_component_endpoint_request_cancel. case_match eqn:E; [done|]. eqs.
  assert (Hd : end_phase st <> ENDPOINT_DONE) by (unfold ENDPOINT_COPYING, ENDPOINT_DONE in *; lia).
  case_match; simpl; (eapply endpoint_inv_keep; simpl; [exact Hi|done|apply Hi|unfold ENDPOINT_CANCELLING, ENDPOINT_DONE; lia| |]).
  - unfold COPY_MAX_LENGTH. lia.
  - intros _. unfold endpoint_result. simpl. rewrite andb_false_r. by destruct (peer_dropped st).
  - apply Hi.
  - intros _. unfold endpoint_result. simpl. destruct (future st && (progress st =? 1)); [done|]. by destruct (peer_dropped st).
Qed.

Lemma endpoint_drop_inv f es st : endpoint_inv f es st -> endpoint_inv f es (snd (turbowasm_component_endpoint_peer_dropped st)).
Proof.
  intros Hi. unfold turbowasm_component_endpoint_peer_dropped. case_match eqn:E; [done|]. eqs.
  destruct (decide (end_phase st = ENDPOINT_DONE)) as [Hd|Hd].
  - rewrite Hd. simpl. destruct Hi. rewrite Hd in *. split; simpl; try done. by rewrite ei_done0.
  - pose proof (ei_phase _ _ _ Hi). case_match; simpl; (eapply endpoint_inv_keep; simpl; [exact Hi|done|apply Hi|lia| |]).
    + unfold COPY_MAX_LENGTH. lia.
    + intros _. unfold endpoint_result. simpl. by rewrite andb_false_r.
    + apply Hi.
    + intros _. unfold endpoint_result. simpl. by destruct (future st && (progress st =? 1)).
Qed.

(** Which results are final. *)
Lemma result_final f es st code next : endpoint_inv f es st -> endpoint_result st = Some (code, next) ->
  (next = ENDPOINT_DONE /\ final_result f (endpoint_event st code)) \/
  (next = ENDPOINT_IDLE /\ ~ final_result f (endpoint_event st code)).
Proof.
  intros Hi E. pose proof (ei_progress _ _ _ Hi) as Hp. pose proof (ei_future _ _ _ Hi) as Hf.
  assert (Hu : forall c, 0 <= c < 16 -> final_result false (c + 16 * progress st) <-> c = COPY_DROPPED).
  { intros c Hc. unfold final_result. by rewrite unpack_code by lia. }
  unfold endpoint_result in E. unfold endpoint_event. rewrite Hf in *. destruct f; simpl in *.
  - destruct (progress st =? 1); [injection E as <- <-; by left|]. destruct (peer_dropped st); [injection E as <- <-; by left|].
    destruct (_ =? _); [injection E as <- <-|discriminate E]. right. split; [done|]. intros Hn. by apply Hn.
  - destruct (peer_dropped st); [injection E as <- <-; left; split; [done|]; by apply Hu|].
    destruct (_ =? ENDPOINT_CANCELLING); [injection E as <- <-; right; split; [done|]; by rewrite Hu|].
    destruct (_ =? ENDPOINT_COPYING); [injection E as <- <-|discriminate E]. right; split; [done|]; by rewrite Hu.
Qed.

Lemma endpoint_take_inv f es st event st' : endpoint_inv f es st -> turbowasm_component_endpoint_take_event st = (event, st') ->
  endpoint_inv f (match event with Some e => es ++ [e] | None => es end) st'.
Proof.
  intros Hi E. destruct (end_pending st) eqn:Hq.
  2: { unfold turbowasm_component_endpoint_take_event in E. rewrite Hq in E. by injection E as <- <-. }
  assert (Hd : end_phase st <> ENDPOINT_DONE) by (intros Hd; rewrite (ei_done _ _ _ Hi Hd) in Hq; discriminate).
  destruct (endpoint_result st) as [[code next]|] eqn:Er; [|by destruct (ei_result _ _ _ Hi Hq)].
  pose proof (take_endpoint _ _ _ (ei_progress _ _ _ Hi) Hq Hd Er) as [_ Et]. rewrite Et in E. injection E as <- <-.
  pose proof (ei_open _ _ _ Hi Hd) as Ho.
  destruct (result_final _ _ _ _ _ Hi Er) as [[-> Hf]|[-> Hf]]; split; simpl; try done; try apply Hi.
  - intros _. by exists es, (endpoint_event st code).
  - intros _. apply Forall_app. split; [done|]. by constructor.
Qed.

Lemma endpoint_step_inv f op st es event st' : plain_op op -> endpoint_inv f es st -> endpoint_step op st = (event, st') ->
  endpoint_inv f (match event with Some e => es ++ [e] | None => es end) st'.
Proof.
  destruct op; simpl; intros Hop Hi E; [injection E as <- <-..|by eapply endpoint_take_inv].
  - by apply begin_copy_inv.
  - by apply endpoint_notify_inv.
  - by apply endpoint_cancel_inv.
  - by apply endpoint_drop_inv.
Qed.

Lemma zero_endpoint_inv f : endpoint_inv f [] (zero_endpoint f).
Proof. split; simpl; try done; unfold ENDPOINT_IDLE, ENDPOINT_DONE, COPY_MAX_LENGTH; lia. Qed.

(** C22. The protocol of an end of a stream or future, whatever the owner does in
    whatever order: a pending event can always be taken; its result is the code
    COMPLETED, DROPPED or CANCELLED, with the progress of a stream in the bits
    above the fourth, so that no bit of either is lost; and after the result that
    ends it (the peer dropped, or the value of a future was copied) the end is
    done and never delivers again. *)
Theorem endpoint_protocol f ops : Forall plain_op ops ->
  let '(results, st) := deliveries endpoint_step ops (zero_endpoint f) in
  (end_pending st = true -> exists code st', turbowasm_component_endpoint_take_event st = (Some (endpoint_event st code), st') /\
     0 <= code <= COPY_CANCELLED /\ 0 <= progress st <= COPY_MAX_LENGTH /\ is_uint 32 (endpoint_event st code)) /\
  (Forall (fun r => ~ final_result f r) results \/
   (end_phase st = ENDPOINT_DONE /\ end_pending st = false /\
    exists earlier last, results = earlier ++ [last] /\ Forall (fun r => ~ final_result f r) earlier /\ final_result f last)).
Proof.
  intros Hops. pose proof (deliveries_ind endpoint_step plain_op (endpoint_inv f) (endpoint_step_inv f) ops (zero_endpoint f) [] Hops
    (zero_endpoint_inv f)) as Hi.
  destruct (deliveries endpoint_step ops (zero_endpoint f)) as [results st]. cbn [app fst snd] in Hi. split.
  - intros Hq. assert (Hd : end_phase st <> ENDPOINT_DONE) by (intros Hd; rewrite (ei_done _ _ _ Hi Hd) in Hq; discriminate).
    destruct (endpoint_result st) as [[code next]|] eqn:Er; [|by destruct (ei_result _ _ _ Hi Hq)].
    pose proof (ei_progress _ _ _ Hi) as Hp. destruct (take_endpoint _ _ _ Hp Hq Hd Er) as [Hc Et].
    exists code. eexists. split; [exact Et|]. split; [done|]. split; [done|].
    unfold endpoint_event, is_uint, COPY_MAX_LENGTH, COPY_CANCELLED in *. destruct (future st); lia.
  - destruct (decide (end_phase st = ENDPOINT_DONE)) as [Hd|Hd]; [right|left; by apply Hi].
    split; [done|]. split; [by apply Hi|by apply Hi].
Qed.

(** ** Witnesses *)

(** A stream that copies three elements, then five, and loses its peer. *)
Definition stream_ops : list endpoint_op :=
  [end_begin; end_notify 3; end_take; end_begin; end_notify 5; end_drop; end_take; end_take].

Lemma stream_run : deliveries endpoint_step stream_ops (zero_endpoint false) = ([48; 81], mk_endpoint ENDPOINT_DONE 5 false true false).
Proof. vm_compute. reflexivity. Qed.

Lemma endpoint_protocol_witness : exists earlier last, [48; 81] = earlier ++ [last] /\ final_result false last.
Proof.
  pose proof (endpoint_protocol false stream_ops
    ltac:(repeat first [apply Forall_nil_2 | apply Forall_cons_2]; simpl; lia || exact I)) as Hp.
  rewrite stream_run in Hp. destruct Hp as [_ [Hf|(_ & _ & earlier & last & He & _ & Hl)]]; [|exists earlier, last; split; [exact He|exact Hl]].
  exfalso. inversion Hf as [|? ? _ Hf']; subst. inversion Hf' as [|? ? Hn _]; subst. apply Hn. reflexivity.
Defined.

End AsyncState.
