(* ===== verification/Waitable.v ===== *)
(** * Waitables and waitable sets (src/component_waitable.c)

    Subtasks and the ends of streams and futures are waitables: each has a handle
    in the component's table, may belong to a waitable set, and delivers the
    events of its state machine. The table holds addresses; the objects are owned
    by others and live in the stores [waitables] and [sets].

    The cleanup that an owner attaches to an event is not part of this file: it
    is the parameter [callback], given the function, its context and the state. *)

From stdpp Require Import gmap.
From S2P Require Import Prelude Value Resource AsyncState.

Module Waitable.
Import Value Resource AsyncState.

(** ** Objects *)

Inductive turbowasm_component_event_code :=
  | EVENT_NONE
  | EVENT_SUBTASK
  | EVENT_STREAM_READ
  | EVENT_STREAM_WRITE
  | EVENT_FUTURE_READ
  | EVENT_FUTURE_WRITE
  | EVENT_TASK_CANCELLED.

Record turbowasm_component_event := mk_event {
  event_code : turbowasm_component_event_code;
  event_handle : Z;
  event_payload : Z
}.

Definition no_event : turbowasm_component_event := mk_event EVENT_NONE 0 0.

(** The union of the two states; the kind of the handle says which one it is. *)
Inductive waitable_state :=
  | state_subtask (st : turbowasm_component_subtask_state)
  | state_endpoint (st : turbowasm_component_endpoint_state).

Record turbowasm_component_waitable := mk_waitable {
  wt_table : ptr;
  wt_handle : Z;
  set_handle : Z;
  sync_waiter : bool;
  delivering : bool;
  failure : turbowasm_status;
  wt_state : waitable_state;
  release_pending : option Z;
  release_context : Z
}.

Record turbowasm_component_waitable_set := mk_set {
  ws_table : ptr;
  ws_handle : Z;
  wait_count : Z;
  next_slot : Z
}.

(** The table with its counters, and the objects by address. *)
Record astate := mk_astate {
  a_world : world;
  waitables : gmap Z turbowasm_component_waitable;
  sets : gmap Z turbowasm_component_waitable_set
}.

Abbreviation table s := (w_table (a_world s)).

Definition put_world (w : world) (s : astate) : astate := mk_astate w (waitables s) (sets s).
Definition put_waitable (p : ptr) (w : turbowasm_component_waitable) (s : astate) : astate :=
  mk_astate (a_world s) (<[p := w]> (waitables s)) (sets s).
Definition put_set (p : ptr) (st : turbowasm_component_waitable_set) (s : astate) : astate :=
  mk_astate (a_world s) (waitables s) (<[p := st]> (sets s)).
Definition alter_waitable (f : turbowasm_component_waitable -> turbowasm_component_waitable) (p : ptr) (s : astate) : astate :=
  mk_astate (a_world s) (alter f p (waitables s)) (sets s).

(** Assigning fields. *)
Definition with_registration (t : ptr) (h : Z) (w : turbowasm_component_waitable) : turbowasm_component_waitable :=
  mk_waitable t h (set_handle w) (sync_waiter w) (delivering w) (failure w) (wt_state w) (release_pending w) (release_context w).
Definition with_set (h : Z) (w : turbowasm_component_waitable) : turbowasm_component_waitable :=
  mk_waitable (wt_table w) (wt_handle w) h (sync_waiter w) (delivering w) (failure w) (wt_state w) (release_pending w) (release_context w).
Definition with_sync (b : bool) (w : turbowasm_component_waitable) : turbowasm_component_waitable :=
  mk_waitable (wt_table w) (wt_handle w) (set_handle w) b (delivering w) (failure w) (wt_state w) (release_pending w) (release_context w).
Definition with_delivering (b : bool) (w : turbowasm_component_waitable) : turbowasm_component_waitable :=
  mk_waitable (wt_table w) (wt_handle w) (set_handle w) (sync_waiter w) b (failure w) (wt_state w) (release_pending w) (release_context w).
Definition with_state (st : waitable_state) (w : turbowasm_component_waitable) : turbowasm_component_waitable :=
  mk_waitable (wt_table w) (wt_handle w) (set_handle w) (sync_waiter w) (delivering w) (failure w) st (release_pending w) (release_context w).

Definition waitable_kind (k : turbowasm_component_handle_kind) : bool :=
  match k with
  | HANDLE_SUBTASK | HANDLE_STREAM_READ | HANDLE_STREAM_WRITE | HANDLE_FUTURE_READ | HANDLE_FUTURE_WRITE => true
  | _ => false
  end.

Definition future_kind (k : turbowasm_component_handle_kind) : bool :=
  bool_decide (k = HANDLE_FUTURE_READ) || bool_decide (k = HANDLE_FUTURE_WRITE).

Section Operations.
Context (this : ptr) (sizeof_entry : Z) (realloc_ok : Z -> bool).
Context (callback : Z -> Z -> astate -> turbowasm_status * astate).

(** An address that holds no object of the right type is no waitable. *)
Definition get_waitable (s : astate) (h : Z) : option (ptr * turbowasm_component_waitable) :=
  let k := turbowasm_component_handle_kind_get (table s) h in
  if negb (waitable_kind k) then None
  else
    let p := turbowasm_component_handle_object (table s) h k in
    match waitables s !! p with
    | Some w => if negb (p =? NULL) && (wt_table w =? this) && (wt_handle w =? h) then Some (p, w) else None
    | None => None
    end.

Definition get_set (s : astate) (h : Z) : option (ptr * turbowasm_component_waitable_set) :=
  let p := turbowasm_component_handle_object (table s) h HANDLE_WAITABLE_SET in
  match sets s !! p with
  | Some st => if negb (p =? NULL) && (ws_table st =? this) && (ws_handle st =? h) then Some (p, st) else None
  | None => None
  end.

(** ** Registration *)

Definition mark_future (k : turbowasm_component_handle_kind) (st : waitable_state) : waitable_state :=
  match st with
  | state_endpoint e => state_endpoint (mk_endpoint (end_phase e) (progress e) (future_kind k) (peer_dropped e) (end_pending e))
  | state_subtask e => state_subtask e
  end.

Definition turbowasm_component_waitable_register (k : turbowasm_component_handle_kind) (p : ptr) (s : astate)
    : turbowasm_status * astate :=
  match waitables s !! p with
  | None => (TURBOWASM_INVALID_ARGUMENT, s)
  | Some w =>
      if negb (waitable_kind k) || negb (wt_table w =? NULL) || negb (wt_handle w =? 0) || negb (set_handle w =? 0) ||
         sync_waiter w || delivering w then (TURBOWASM_INVALID_ARGUMENT, s)
      else match turbowasm_component_handle_insert sizeof_entry realloc_ok (table s) k p with
           | (TURBOWASM_OK, t, Some h) =>
               let w := with_registration this h w in
               let w := if bool_decide (k = HANDLE_SUBTASK) then w else with_state (mark_future k (wt_state w)) w in
               (TURBOWASM_OK, put_waitable p w (put_world (mk_world t (w_scopes (a_world s))) s))
           | (status, t, _) => (status, put_world (mk_world t (w_scopes (a_world s))) s)
           end
  end.

Definition turbowasm_component_waitable_set_register (p : ptr) (s : astate) : turbowasm_status * astate :=
  match sets s !! p with
  | None => (TURBOWASM_INVALID_ARGUMENT, s)
  | Some st =>
      if negb (ws_table st =? NULL) || negb (ws_handle st =? 0) || negb (wait_count st =? 0) || negb (next_slot st =? 0)
      then (TURBOWASM_INVALID_ARGUMENT, s)
      else match turbowasm_component_handle_insert sizeof_entry realloc_ok (table s) HANDLE_WAITABLE_SET p with
           | (TURBOWASM_OK, t, Some h) =>
               (TURBOWASM_OK, put_set p (mk_set this h (wait_count st) (next_slot st))
                                (put_world (mk_world t (w_scopes (a_world s))) s))
           | (status, t, _) => (status, put_world (mk_world t (w_scopes (a_world s))) s)
           end
  end.

Definition turbowasm_component_waitable_join (h set : Z) (s : astate) : turbowasm_status * astate :=
  match get_waitable s h with
  | None => (TURBOWASM_TRAPPED, s)
  | Some (p, w) =>
      if sync_waiter w || delivering w || (negb (set =? 0) && bool_decide (get_set s set = None))
      then (TURBOWASM_TRAPPED, s)
      else (TURBOWASM_OK, put_waitable p (with_set set w) s)
  end.

(** May a waitable of this state be dropped? *)
Definition droppable (st : waitable_state) : bool :=
  match st with
  | state_subtask e => resolve_delivered e
  | state_endpoint e => (end_phase e =? ENDPOINT_IDLE) || (end_phase e =? ENDPOINT_DONE)
  end.

Definition turbowasm_component_waitable_drop (h : Z) (s : astate) : turbowasm_status * astate :=
  let k := turbowasm_component_handle_kind_get (table s) h in
  match get_waitable s h with
  | None => (TURBOWASM_TRAPPED, s)
  | Some (p, w) =>
      if sync_waiter w || delivering w || negb (droppable (wt_state w)) then (TURBOWASM_TRAPPED, s)
      else match turbowasm_component_handle_remove (a_world s) h k with
           | (TURBOWASM_OK, w', _) =>
               (TURBOWASM_OK, put_waitable p (with_registration NULL 0 (with_set 0 w)) (put_world w' s))
           | (status, w', _) => (status, put_world w' s)
           end
  end.

(** Some slot holds a waitable of which [f] says so. *)
Definition some_waitable (f : turbowasm_component_waitable -> turbowasm_component_handle_kind -> bool) (s : astate) : bool :=
  existsb (fun i => match turbowasm_component_handle_at (table s) (Z.of_nat i) with
                    | Some (_, k, p) => waitable_kind k && match waitables s !! p with Some w => f w k | None => false end
                    | None => false
                    end) (seq 0 (Z.to_nat (capacity (table s)))).

Definition turbowasm_component_waitable_set_drop (h : Z) (s : astate) : turbowasm_status * astate :=
  match get_set s h with
  | None => (TURBOWASM_TRAPPED, s)
  | Some (p, st) =>
      if negb (wait_count st =? 0) then (TURBOWASM_TRAPPED, s)
      else if some_waitable (fun w _ => set_handle w =? h) s then (TURBOWASM_TRAPPED, s)
      else match turbowasm_component_handle_remove (a_world s) h HANDLE_WAITABLE_SET with
           | (TURBOWASM_OK, w', _) => (TURBOWASM_OK, put_set p (mk_set NULL 0 (wait_count st) 0) (put_world w' s))
           | (status, w', _) => (status, put_world w' s)
           end
  end.

(** ** Events *)

Definition event_code_of (k : turbowasm_component_handle_kind) : turbowasm_component_event_code :=
  match k with
  | HANDLE_STREAM_READ => EVENT_STREAM_READ
  | HANDLE_STREAM_WRITE => EVENT_STREAM_WRITE
  | HANDLE_FUTURE_READ => EVENT_FUTURE_READ
  | _ => EVENT_FUTURE_WRITE
  end.

(** The end of [take_event]: the cleanup of an event, guarded by [delivering]. *)
Definition deliver (p : ptr) (w : turbowasm_component_waitable) (clean : bool) (event : turbowasm_component_event) (s : astate)
    : turbowasm_status * option turbowasm_component_event * astate :=
  match release_pending w with
  | Some release =>
      if clean then
        let '(status, s) := callback release (release_context w) (put_waitable p (with_delivering true w) s) in
        (status, if bool_decide (status = TURBOWASM_OK) then Some event else None,
         alter_waitable (with_delivering false) p s)
      else (TURBOWASM_OK, Some event, put_waitable p w s)
  | None => (TURBOWASM_OK, Some event, put_waitable p w s)
  end.

Definition take_event (p : ptr) (w : turbowasm_component_waitable) (k : turbowasm_component_handle_kind) (s : astate)
    : turbowasm_status * option turbowasm_component_event * astate :=
  if negb (bool_decide (failure w = TURBOWASM_OK)) then (failure w, None, s)
  else match wt_state w with
       | state_subtask st =>
           if negb (sub_pending st) then (TURBOWASM_YIELDED, None, s)
           else match turbowasm_component_subtask_take_event st with
                | (None, _) => (TURBOWASM_TRAPPED, None, s)
                | (Some phase, st) =>
                    deliver p (with_state (state_subtask st) w) (resolve_delivered st)
                      (mk_event EVENT_SUBTASK (wt_handle w) (u32 phase)) s
                end
       | state_endpoint st =>
           if negb (end_pending st) then (TURBOWASM_YIELDED, None, s)
           else match turbowasm_component_endpoint_take_event st with
                | (None, _) => (TURBOWASM_TRAPPED, None, s)
                | (Some result, st) =>
                    deliver p (with_state (state_endpoint st) w) true (mk_event (event_code_of k) (wt_handle w) result) s
                end
       end.

Definition turbowasm_component_waitable_take (h : Z) (s : astate)
    : turbowasm_status * option turbowasm_component_event * astate :=
  match get_waitable s h with
  | None => (TURBOWASM_TRAPPED, None, s)
  | Some (p, w) =>
      if sync_waiter w || delivering w then (TURBOWASM_TRAPPED, None, s)
      else take_event p w (turbowasm_component_handle_kind_get (table s) h) s
  end.

Definition pending (st : waitable_state) : bool :=
  match st with state_subtask e => sub_pending e | state_endpoint e => end_pending e end.

Definition ready_member (w : turbowasm_component_waitable) (set : Z) : bool :=
  (set_handle w =? set) && negb (delivering w) && negb (sync_waiter w) &&
  (negb (bool_decide (failure w = TURBOWASM_OK)) || pending (wt_state w)).

Definition turbowasm_component_waitable_set_ready (set : Z) (s : astate) : turbowasm_status * option bool :=
  match get_set s set with
  | None => (TURBOWASM_TRAPPED, None)
  | Some _ => (TURBOWASM_OK, Some (some_waitable (fun w _ => ready_member w set) s))
  end.

(** The ready member in a slot. *)
Definition ready_at (s : astate) (set index : Z) : option (ptr * turbowasm_component_waitable * turbowasm_component_handle_kind) :=
  match turbowasm_component_handle_at (table s) index with
  | Some (_, k, p) =>
      if waitable_kind k then
        match waitables s !! p with
        | Some w => if ready_member w set then Some (p, w, k) else None
        | None => None
        end
      else None
  | None => None
  end.

Definition next_index (s : astate) (index : Z) : Z := if u32 (index + 1) =? capacity (table s) then 0 else u32 (index + 1).

(** The scan of [n] slots from [index]: the first ready one, with its slot. *)
Fixpoint poll_scan (n : nat) (s : astate) (set index : Z)
    : option (Z * (ptr * turbowasm_component_waitable * turbowasm_component_handle_kind)) :=
  match n with
  | O => None
  | S n =>
      match ready_at s set index with
      | Some found => Some (index, found)
      | None => poll_scan n s set (next_index s index)
      end
  end.

Definition poll_start (s : astate) (st : turbowasm_component_waitable_set) : Z :=
  if next_slot st <? capacity (table s) then next_slot st else 0.

Definition turbowasm_component_waitable_set_poll (set : Z) (s : astate)
    : turbowasm_status * option turbowasm_component_event * astate :=
  match get_set s set with
  | None => (TURBOWASM_TRAPPED, None, s)
  | Some (ps, st) =>
      match poll_scan (Z.to_nat (capacity (table s))) s set (poll_start s st) with
      | Some (index, (p, w, k)) =>
          take_event p w k (put_set ps (mk_set (ws_table st) (ws_handle st) (wait_count st) (next_index s index)) s)
      | None => (TURBOWASM_OK, Some no_event, s)
      end
  end.

(** ** Waiting *)

Definition turbowasm_component_waitable_set_wait_acquire (h : Z) (s : astate) : turbowasm_status * astate :=
  match get_set s h with
  | None => (TURBOWASM_TRAPPED, s)
  | Some (p, st) =>
      if wait_count st =? UINT32_MAX then (TURBOWASM_TRAPPED, s)
      else (TURBOWASM_OK, put_set p (mk_set (ws_table st) (ws_handle st) (u32 (wait_count st + 1)) (next_slot st)) s)
  end.

Definition turbowasm_component_waitable_set_wait_release (h : Z) (s : astate) : turbowasm_status * astate :=
  match get_set s h with
  | None => (TURBOWASM_TRAPPED, s)
  | Some (p, st) =>
      if wait_count st =? 0 then (TURBOWASM_TRAPPED, s)
      else (TURBOWASM_OK, put_set p (mk_set (ws_table st) (ws_handle st) (u32 (wait_count st - 1)) (next_slot st)) s)
  end.

Definition turbowasm_component_waitable_wait_begin (h : Z) (s : astate) : turbowasm_status * astate :=
  match get_waitable s h with
  | None => (TURBOWASM_TRAPPED, s)
  | Some (p, w) =>
      if negb (set_handle w =? 0) || sync_waiter w || delivering w then (TURBOWASM_TRAPPED, s)
      else (TURBOWASM_OK, put_waitable p (with_sync true w) s)
  end.

Definition turbowasm_component_waitable_wait_end (h : Z) (s : astate)
    : turbowasm_status * option turbowasm_component_event * astate :=
  match get_waitable s h with
  | None => (TURBOWASM_TRAPPED, None, s)
  | Some (p, w) =>
      if negb (sync_waiter w) || delivering w then (TURBOWASM_TRAPPED, None, s)
      else
        let '(status, event, s) := take_event p w (turbowasm_component_handle_kind_get (table s) h) s in
        (status, event, if bool_decide (status = TURBOWASM_YIELDED) then s else alter_waitable (with_sync false) p s)
  end.

Definition turbowasm_component_waitable_wait_cancel (h : Z) (s : astate) : turbowasm_status * astate :=
  match get_waitable s h with
  | None => (TURBOWASM_TRAPPED, s)
  | Some (p, w) =>
      if negb (sync_waiter w) || delivering w then (TURBOWASM_TRAPPED, s)
      else (TURBOWASM_OK, put_waitable p (with_sync false w) s)
  end.

End Operations.

End Waitable.
