(* ===== verification/WaitableInv.v ===== *)
(** * Waitables: invariant, delivery and fairness

    What the operations on waitables keep true of the table and the objects, what
    a poll of a set delivers, and that no ready member of a set waits forever. *)

From stdpp Require Import gmap.
From S2P Require Import Prelude Value Resource AsyncState Waitable.

Module WaitableInv.
Import Value Resource AsyncState Waitable.

(** ** What the stores and the table keep true *)

Definition own_kind (k : turbowasm_component_handle_kind) : bool := waitable_kind k || bool_decide (k = HANDLE_WAITABLE_SET).

(** The other users of the table: they may grow it and change the slots of
    resources. *)
Record outside (w w' : world) : Prop := {
  os_wf : world_wf w';
  os_capacity : capacity (w_table w) <= capacity (w_table w');
  os_max : max_entries (w_table w') = max_entries (w_table w);
  os_own : forall h i e, own_kind (kind e) = true ->
    entry_get (w_table w') h = Some (i, e) <-> entry_get (w_table w) h = Some (i, e)
}.

Definition state_matches (k : turbowasm_component_handle_kind) (st : waitable_state) : Prop :=
  match st with
  | state_subtask _ => k = HANDLE_SUBTASK
  | state_endpoint e => k <> HANDLE_SUBTASK /\ future e = future_kind k
  end.

(** A state its machine can reach. *)
Definition state_ok (st : waitable_state) : Prop :=
  match st with
  | state_subtask e => exists es, subtask_inv es e
  | state_endpoint e => exists es, endpoint_inv (future e) es e
  end.

Section Invariant.
Context (this : ptr) (Hthis : this <> NULL).

Definition is_set (t : turbowasm_component_resource_table) (h : Z) : Prop :=
  exists i e, entry_get t h = Some (i, e) /\ kind e = HANDLE_WAITABLE_SET.

Record waitable_ok (t : turbowasm_component_resource_table) (p : ptr) (w : turbowasm_component_waitable) : Prop := {
  wo_address : p <> NULL;
  wo_registered : (wt_table w = NULL /\ set_handle w = 0 /\ sync_waiter w = false) \/
    (wt_table w = this /\ exists i e, entry_get t (wt_handle w) = Some (i, e) /\ object e = p /\
       waitable_kind (kind e) = true /\ state_matches (kind e) (wt_state w));
  wo_member : set_handle w <> 0 -> is_set t (set_handle w);
  wo_sync : sync_waiter w = true -> set_handle w = 0;
  wo_state : state_ok (wt_state w)
}.

Record set_ok (t : turbowasm_component_resource_table) (p : ptr) (st : turbowasm_component_waitable_set) : Prop := {
  so_address : p <> NULL;
  so_registered : ws_table st = NULL \/
    (ws_table st = this /\ exists i e, entry_get t (ws_handle st) = Some (i, e) /\ object e = p /\ kind e = HANDLE_WAITABLE_SET);
  so_count : is_uint 32 (wait_count st);
  so_next : 0 <= next_slot st
}.

(** Handles and objects refer to each other, a handle may also be reserved for an
    object that is not registered yet, an object has one handle at most, a
    member's set exists, and every state is one its machine can reach. *)
Record ainv (s : astate) : Prop := {
  ai_world : world_wf (a_world s);
  ai_waitables : forall p w, waitables s !! p = Some w -> waitable_ok (table s) p w;
  ai_sets : forall p st, sets s !! p = Some st -> set_ok (table s) p st;
  ai_handles : forall h i e, entry_get (table s) h = Some (i, e) -> waitable_kind (kind e) = true ->
    exists w, waitables s !! object e = Some w /\
      ((wt_table w = this /\ wt_handle w = h) \/ (wt_table w = NULL /\ state_matches (kind e) (wt_state w)));
  ai_set_handles : forall h i e, entry_get (table s) h = Some (i, e) -> kind e = HANDLE_WAITABLE_SET ->
    exists st, sets s !! object e = Some st /\ ws_table st = this /\ ws_handle st = h;
  ai_unique : forall h h' i i' e e', entry_get (table s) h = Some (i, e) -> entry_get (table s) h' = Some (i', e') ->
    waitable_kind (kind e) = true -> waitable_kind (kind e') = true -> object e = object e' -> h = h'
}.

Lemma waitable_not_set k : waitable_kind k = true -> k <> HANDLE_WAITABLE_SET.
Proof. by destruct k. Qed.

Lemma own_waitable k : waitable_kind k = true -> own_kind k = true.
Proof. by destruct k. Qed.

Lemma private_own k : own_kind k = true -> private_kind k = true.
Proof. by destruct k. Qed.

Lemma get_waitable_inv s h p w : get_waitable this s h = Some (p, w) ->
  waitables s !! p = Some w /\ wt_table w = this /\ wt_handle w = h /\
  exists i e, entry_get (table s) h = Some (i, e) /\ object e = p /\ waitable_kind (kind e) = true /\
    turbowasm_component_handle_kind_get (table s) h = kind e.
Proof.
  unfold get_waitable, turbowasm_component_handle_kind_get, turbowasm_component_handle_object.
  destruct (entry_get (table s) h) as [[i e]|] eqn:E; [|done]. destruct (waitable_kind (kind e)) eqn:Hk; [|done]. simpl.
  rewrite bool_decide_eq_true_2 by done. rewrite (private_own _ (own_waitable _ Hk)). simpl.
  destruct (waitables s !! object e) as [w'|] eqn:Ew; [|done]. destruct (Z.eqb_spec (wt_table w') this); [|by rewrite andb_false_r].
  destruct (Z.eqb_spec (wt_handle w') h); [|by rewrite andb_false_r]. destruct (negb _); [|done]. intros [= <- <-].
  split; [done|]. split; [done|]. split; [done|]. by exists i, e.
Qed.

Lemma get_set_inv s h p st : get_set this s h = Some (p, st) ->
  sets s !! p = Some st /\ ws_table st = this /\ ws_handle st = h /\
  exists i e, entry_get (table s) h = Some (i, e) /\ object e = p /\ kind e = HANDLE_WAITABLE_SET.
Proof.
  unfold get_set, turbowasm_component_handle_object. destruct (entry_get (table s) h) as [[i e]|] eqn:E.
  2: { destruct (sets s !! NULL); [|done]. by rewrite Z.eqb_refl. }
  destruct (bool_decide_reflect (kind e = HANDLE_WAITABLE_SET)) as [Hk|Hk]; simpl.
  2: { destruct (sets s !! NULL); [|done]. done. }
  destruct (sets s !! object e) as [st'|] eqn:Es; [|done]. destruct (Z.eqb_spec (ws_table st') this); [|by rewrite andb_false_r].
  destruct (Z.eqb_spec (ws_handle st') h); [|by rewrite andb_false_r]. destruct (negb _); [|done]. intros [= <- <-].
  split; [done|]. split; [done|]. split; [done|]. by exists i, e.
Qed.

Lemma is_set_get s h : ainv s -> is_set (table s) h -> exists p st, get_set this s h = Some (p, st).
Proof.
  intros Hi (i & e & E & Hk). destruct (ai_set_handles _ Hi _ _ _ E Hk) as (st & Es & Ht & Hh). exists (object e), st.
  unfold get_set, turbowasm_component_handle_object. rewrite E, bool_decide_eq_true_2 by done. simpl. rewrite Es, Ht, Hh, !Z.eqb_refl.
  destruct (Z.eqb_spec (object e) NULL) as [Hn|]; [|done]. by destruct (so_address _ _ _ (ai_sets _ Hi _ _ Es)).
Qed.

(** Changing an object but not its registration. *)
Lemma put_waitable_inv s p w w' : ainv s -> waitables s !! p = Some w -> wt_table w' = wt_table w -> wt_handle w' = wt_handle w ->
  (forall k, state_matches k (wt_state w) -> state_matches k (wt_state w')) ->
  waitable_ok (table s) p w' -> ainv (put_waitable p w' s).
Proof.
  intros [H1 H2 H3 H4 H5 H6] Hw Ht Hh Hm Hok. split; simpl; try done.
  - intros q v. rewrite lookup_insert_Some. intros [[<- <-]|[_ Hq]]; [done|by apply H2].
  - intros h i e E Hk. destruct (H4 _ _ _ E Hk) as (v & Hv & Hvt). destruct (decide (p = object e)) as [->|Hne].
    + exists w'. rewrite lookup_insert_eq. split; [done|]. assert (v = w) as -> by congruence.
      destruct Hvt as [[? ?]|[? ?]]; [left|right]; split; try congruence. by apply Hm.
    + exists v. by rewrite lookup_insert_ne.
Qed.

Lemma put_set_inv s p st st' : ainv s -> sets s !! p = Some st -> ws_table st' = ws_table st -> ws_handle st' = ws_handle st ->
  set_ok (table s) p st' -> ainv (put_set p st' s).
Proof.
  intros [H1 H2 H3 H4 H5 H6] Hw Ht Hh Hok. split; simpl; try done.
  - intros q v. rewrite lookup_insert_Some. intros [[<- <-]|[_ Hq]]; [done|by apply H3].
  - intros h i e E Hk. destruct (H5 _ _ _ E Hk) as (v & Hv & Hvt & Hvh). destruct (decide (p = object e)) as [->|Hne].
    + exists st'. rewrite lookup_insert_eq. split; [done|]. assert (v = st) as -> by congruence. split; congruence.
    + exists v. by rewrite lookup_insert_ne.
Qed.

(** The conditions on an object survive when its handles still resolve. *)
Lemma waitable_ok_table t t' p w : waitable_ok t p w ->
  (forall i e, entry_get t (wt_handle w) = Some (i, e) -> wt_table w = this -> waitable_kind (kind e) = true ->
     entry_get t' (wt_handle w) = Some (i, e)) ->
  (set_handle w <> 0 -> is_set t (set_handle w) -> is_set t' (set_handle w)) -> waitable_ok t' p w.
Proof.
  intros [H1 H2 H3 H4 H5] Hh Hs. split; try done; [|auto].
  destruct H2 as [?|(Ht & i & e & E & Ho & Hk & Hm)]; [by left|]. right. split; [done|]. exists i, e. auto.
Qed.

Lemma set_ok_table t t' p st : set_ok t p st ->
  (forall i e, entry_get t (ws_handle st) = Some (i, e) -> ws_table st = this -> kind e = HANDLE_WAITABLE_SET ->
     entry_get t' (ws_handle st) = Some (i, e)) -> set_ok t' p st.
Proof.
  intros [H1 H2 H3 H4] Hh. split; try done. destruct H2 as [?|(Ht & i & e & E & Ho & Hk)]; [by left|]. right. split; [done|]. exists i, e. auto.
Qed.

Lemma outside_inv s w' : ainv s -> outside (a_world s) w' -> ainv (put_world w' s).
Proof.
  intros [H1 H2 H3 H4 H5 H6] [Hwf Hc Hm Ho].
  assert (Hset : forall k, k = HANDLE_WAITABLE_SET -> own_kind k = true) by (by intros ? ->).
  assert (Hs : forall h, is_set (table s) h -> is_set (w_table w') h).
  { intros h (i & e & E & Hk). exists i, e. split; [|done]. by apply Ho; [apply Hset|]. }
  split; simpl; try done.
  - intros p w Hw. eapply waitable_ok_table; [by apply H2| |auto]. intros i e E _ Hk. apply Ho; [by apply own_waitable|done].
  - intros p st Hst. eapply set_ok_table; [by apply H3|]. intros i e E _ Hk. apply Ho; [by apply Hset|done].
  - intros h i e E Hk. eapply H4; [|done]. apply Ho; [by apply own_waitable|done].
  - intros h i e E Hk. eapply H5; [|done]. apply Ho; [by apply Hset|done].
  - intros h h' i i' e e' E E' Hk Hk' Hoe. apply Ho in E, E'; [|by apply own_waitable..]. by eapply H6.
Qed.

(** ** Registration and removal *)

Abbreviation inserted k p e := (mk_entry k p (resource_identity e) (rep e) (generation e)
  (lend_count e) (borrow_scope e) (occupied e) (retired e) (owned e)).

(** What an insertion does to the handles. *)
Lemma insert_effect sizeof_entry realloc_ok w k p st t res : world_wf w -> private_kind k = true -> p <> NULL ->
  turbowasm_component_handle_insert sizeof_entry realloc_ok (w_table w) k p = (st, t, res) ->
  (st = TURBOWASM_OUT_OF_MEMORY /\ res = None /\ t = w_table w) \/
  (st = TURBOWASM_OK /\ exists h i e, res = Some h /\ world_wf (mk_world t (w_scopes w)) /\ entry_get (w_table w) h = None /\
     entry_get t h = Some (i, e) /\ object e = p /\ kind e = k /\
     (forall h', h' <> h -> entry_get t h' = entry_get (w_table w) h') /\ 0 < h).
Proof.
  intros Hw Hk Hp E. pose proof (insert_trans sizeof_entry false realloc_ok w k p st t res Hw E) as Htr.
  destruct (handle_insert_spec _ _ _ _ _ _ _ _ (proj1 Hw) Hk Hp E) as [(-> & h & -> & Ha)|(-> & -> & -> & _)]; [right|by left].
  split; [done|]. destruct Htr as [[? _]|[_ Htr]]; [done|]. pose proof (rtc_trans_wf _ _ _ _ Hw Htr) as Hw'.
  destruct (allocates_effect _ _ _ _ _ _ (proj1 Hw) Ha (proj1 Hw') ltac:(done)) as (i & e & _ & _ & _ & Hn & Hg & Hf & _).
  exists h, i, (inserted k p (claimed e)). split_and!; try done.
  apply entry_get_iff in Hg as (Hi & _ & _ & ->); [|apply Hw']. simpl. lia.
Qed.

Lemma remove_effect w h k st w' res : world_wf w -> turbowasm_component_handle_remove w h k = (st, w', res) ->
  (st <> TURBOWASM_OK /\ w' = w) \/
  (st = TURBOWASM_OK /\ world_wf w' /\ entry_get (w_table w') h = None /\
   (forall h', h' <> h -> entry_get (w_table w') h' = entry_get (w_table w) h')).
Proof.
  intros Hw E. destruct (handle_remove_spec _ _ _ _ _ _ Hw E) as [(? & -> & _)|(-> & e & Hr & _)]; [by left|right].
  split; [done|]. pose proof (trans_wf 1 false _ _ Hw (removes_trans 1 false _ _ _ _ Hr)) as Hw'.
  destruct (removes_effect _ _ _ _ Hw Hr) as (Hn & Hf & _). done.
Qed.

(** A resolved handle is not the new one. *)
Lemma fresh_ne (t : turbowasm_component_resource_table) h h' i e :
  entry_get t h = None -> entry_get t h' = Some (i, e) -> h' <> h.
Proof. intros Hn Hs ->. congruence. Qed.

Lemma waitable_ok_more t t' p w h : waitable_ok t p w -> entry_get t h = None ->
  (forall h', h' <> h -> entry_get t' h' = entry_get t h') -> waitable_ok t' p w.
Proof.
  intros Hok Hn Hf. eapply waitable_ok_table; [done| |].
  - intros i e E _ _. rewrite Hf; [done|]. by eapply fresh_ne.
  - intros _ (i & e & E & Hk). exists i, e. split; [|done]. rewrite Hf; [done|]. by eapply fresh_ne.
Qed.

Lemma set_ok_more t t' p st h : set_ok t p st -> entry_get t h = None ->
  (forall h', h' <> h -> entry_get t' h' = entry_get t h') -> set_ok t' p st.
Proof. intros Hok Hn Hf. eapply set_ok_table; [done|]. intros i e E _ _. rewrite Hf; [done|]. by eapply fresh_ne. Qed.

Definition zero_state (k : turbowasm_component_handle_kind) : waitable_state :=
  if bool_decide (k = HANDLE_SUBTASK) then state_subtask zero_subtask else state_endpoint (zero_endpoint false).

(** States a waitable of a kind may be registered in: any state of its machine;
    the flag of an unused end is set by the registration. *)
Definition fits (k : turbowasm_component_handle_kind) (st : waitable_state) : Prop :=
  match st with
  | state_subtask _ => k = HANDLE_SUBTASK
  | state_endpoint e => k <> HANDLE_SUBTASK /\ (e = zero_endpoint false \/ future e = future_kind k)
  end.

(** Some handle of a waitable leads to the object. *)
Definition referenced (t : turbowasm_component_resource_table) (p : ptr) : Prop :=
  exists h i e, entry_get t h = Some (i, e) /\ waitable_kind (kind e) = true /\ object e = p.

Lemma registered_state k w : waitable_kind k = true -> fits k (wt_state w) -> state_ok (wt_state w) ->
  let w' := if bool_decide (k = HANDLE_SUBTASK) then w else with_state (mark_future k (wt_state w)) w in
  state_matches k (wt_state w') /\ state_ok (wt_state w').
Proof.
  intros Hk Hz Hs. destruct (wt_state w) as [e|e] eqn:Ew; simpl in Hz.
  - subst k. simpl. by rewrite Ew.
  - destruct Hz as [Hne Hz]. rewrite bool_decide_eq_false_2 by done. simpl. split; [done|]. destruct Hz as [->|Hf].
    + exists []. apply zero_endpoint_inv.
    + destruct e; simpl in *. by subst.
Qed.

(** A handle is added for an object that none leads to. *)
Lemma inserted_unique s t h i e : ainv s -> entry_get t h = Some (i, e) -> waitable_kind (kind e) = true ->
  ~ referenced (table s) (object e) -> (forall h', h' <> h -> entry_get t h' = entry_get (table s) h') ->
  forall h1 h2 i1 i2 e1 e2, entry_get t h1 = Some (i1, e1) -> entry_get t h2 = Some (i2, e2) ->
    waitable_kind (kind e1) = true -> waitable_kind (kind e2) = true -> object e1 = object e2 -> h1 = h2.
Proof.
  intros Hi Hg Hk Hr Hf h1 h2 i1 i2 e1 e2 E1 E2 K1 K2 Ho. destruct (decide (h1 = h)) as [->|N1], (decide (h2 = h)) as [->|N2].
  - done.
  - rewrite Hg in E1. injection E1 as <- <-. rewrite Hf in E2 by done. destruct Hr. by exists h2, i2, e2.
  - rewrite Hg in E2. injection E2 as <- <-. rewrite Hf in E1 by done. destruct Hr. by exists h1, i1, e1.
  - rewrite Hf in E1, E2 by done. by eapply (ai_unique _ Hi).
Qed.

Lemma register_inv sizeof_entry realloc_ok k p s w st s' : ainv s -> waitables s !! p = Some w -> fits k (wt_state w) ->
  (wt_table w = NULL -> ~ referenced (table s) p) ->
  turbowasm_component_waitable_register this sizeof_entry realloc_ok k p s = (st, s') -> ainv s'.
Proof.
  intros Hi Hw Hz Hr. unfold turbowasm_component_waitable_register. rewrite Hw.
  destruct (_ || _) eqn:G; [by intros [= _ <-]|]. repeat apply orb_false_iff in G as [G ?].
  apply negb_false_iff in G. pose proof (ai_waitables _ Hi _ _ Hw) as Hok.
  destruct (turbowasm_component_handle_insert _ _ _ _ _) as [[st0 t] res] eqn:E.
  destruct (insert_effect _ _ _ _ _ _ _ _ (ai_world _ Hi) (private_own _ (own_waitable _ G)) (wo_address _ _ _ Hok) E)
    as [(-> & -> & ->)|(-> & h & i & e & -> & Hwf & Hn & Hg & Ho & Hke & Hf & Hpos)].
  { intros [= _ <-]. by destruct s as [[] ? ?]. }
  intros [= _ <-].
  assert (Hfree : wt_table w = NULL /\ set_handle w = 0 /\ sync_waiter w = false).
  { repeat match goal with X : negb _ = false |- _ => apply negb_false_iff, Z.eqb_eq in X end. done. }
  specialize (Hr (proj1 Hfree)). pose proof Hi as [I1 I2 I3 I4 I5 I6].
  set (w1 := with_registration this h w). destruct (registered_state k w1 G Hz (wo_state _ _ _ Hok)) as [Hm Hs]. cbv zeta in *.
  set (w2 := if bool_decide _ then _ else _) in *.
  assert (Hw2 : wt_table w2 = this /\ wt_handle w2 = h /\ set_handle w2 = set_handle w /\ sync_waiter w2 = sync_waiter w)
    by (unfold w2; by case_bool_decide). destruct Hw2 as (Hw2t & Hw2h & Hw2s & Hw2y).
  split; simpl; try done.
  - intros q v. rewrite lookup_insert_Some. intros [[<- <-]|[_ Hq]]; [|by eapply waitable_ok_more; [apply I2|..]].
    split; [apply Hok| |by rewrite Hw2s; destruct Hfree as (_ & -> & _)|rewrite Hw2s; by destruct Hfree as (_ & -> & _)|done].
    right. split; [done|]. exists i, e. rewrite Hw2h, Hke. done.
  - intros q v Hq. by eapply set_ok_more; [apply I3|..].
  - intros h' i' e' E' Hk'. destruct (decide (h' = h)) as [->|Hne].
    + rewrite Hg in E'. injection E' as <- <-. rewrite Ho, lookup_insert_eq. exists w2. split; [done|by left].
    + rewrite Hf in E' by done. destruct (I4 _ _ _ E' Hk') as (v & Hv & Hvt). exists v. rewrite lookup_insert_ne; [done|].
      intros ->. destruct Hr. by exists h', i', e'.
  - intros h' i' e' E' Hk'. eapply I5; [|done]. rewrite <- Hf; [done|]. intros ->. rewrite Hg in E'. injection E' as <- <-.
    rewrite Hke in Hk'. by apply (waitable_not_set k).
  - eapply inserted_unique; [exact Hi|exact Hg|by rewrite Hke|by rewrite Ho|exact Hf].
Qed.

Lemma set_register_inv sizeof_entry realloc_ok p s st s' : ainv s ->
  turbowasm_component_waitable_set_register this sizeof_entry realloc_ok p s = (st, s') -> ainv s'.
Proof.
  intros Hi. unfold turbowasm_component_waitable_set_register. destruct (sets s !! p) as [so|] eqn:Hso; [|by intros [= _ <-]].
  destruct (_ || _) eqn:G; [by intros [= _ <-]|]. pose proof (ai_sets _ Hi _ _ Hso) as Hok.
  repeat apply orb_false_iff in G as [G ?]. repeat match goal with X : negb _ = false |- _ => apply negb_false_iff, Z.eqb_eq in X end.
  destruct (turbowasm_component_handle_insert _ _ _ _ _) as [[st0 t] res] eqn:E.
  destruct (insert_effect _ _ _ HANDLE_WAITABLE_SET _ _ _ _ (ai_world _ Hi) eq_refl (so_address _ _ _ Hok) E)
    as [(-> & -> & ->)|(-> & h & i & e & -> & Hwf & Hn & Hg & Ho & Hke & Hf & Hpos)].
  { intros [= _ <-]. by destruct s as [[] ? ?]. }
  intros [= _ <-]. destruct Hi as [I1 I2 I3 I4 I5 I6].
  assert (Hold : forall h' i' e', entry_get t h' = Some (i', e') -> waitable_kind (kind e') = true ->
    entry_get (table s) h' = Some (i', e')).
  { intros h' i' e' E' Hk'. rewrite <- Hf; [done|]. intros ->. rewrite Hg in E'. injection E' as <- <-. by rewrite Hke in Hk'. }
  split; simpl; try done.
  - intros q v Hq. by eapply waitable_ok_more; [apply I2|..].
  - intros q v. rewrite lookup_insert_Some. intros [[<- <-]|[_ Hq]]; [|by eapply set_ok_more; [apply I3|..]].
    destruct Hok. split; simpl; try done. right. split; [done|]. by exists i, e.
  - intros h' i' e' E' Hk'. eapply I4; [|done]. by apply Hold.
  - intros h' i' e' E' Hk'. destruct (decide (h' = h)) as [->|Hne].
    + rewrite Hg in E'. injection E' as <- <-. rewrite Ho, lookup_insert_eq. by eexists.
    + rewrite Hf in E' by done. destruct (I5 _ _ _ E' Hk') as (v & Hv & Hvt & Hvh). exists v. rewrite lookup_insert_ne; [done|].
      intros ->. congruence.
  - intros h1 h2 i1 i2 e1 e2 E1 E2 K1 K2. eapply I6; [by apply Hold|by apply Hold|done..].
Qed.

Lemma handle_pos t h i e : table_wf t -> entry_get t h = Some (i, e) -> 0 < h.
Proof.
  intros Hwf E. destruct (entry_get_lookup _ _ _ _ Hwf E) as (n & _ & _ & _ & Hew). pose proof (ew_generation _ Hew).
  apply entry_get_iff in E as (Hi & _ & _ & ->); [lia|done].
Qed.

(** Slots and handles. *)
Lemma handle_at_iff t h i k p : table_wf t -> 0 <= i ->
  turbowasm_component_handle_at t i = Some (h, k, p) <-> exists e, entry_get t h = Some (i, e) /\ kind e = k /\ object e = p.
Proof.
  intros Hwf Hi. unfold turbowasm_component_handle_at.
  assert (Henc : forall e, entries t !! Z.to_nat i = Some e -> occupied e = true ->
    handle_encode i (generation e) = generation e * 65536 + (i + 1) /\ i < capacity t).
  { intros e He Ho. destruct (slot_bound _ _ _ Hwf He) as [Hb Hew]. rewrite Z2Nat.id in Hb by done.
    pose proof (ew_generation _ Hew). pose proof (ew_live _ Hew Ho). unfold MAX_SLOTS, MAX_GENERATION in *. split.
    - rewrite handle_encode_eq by (unfold MAX_SLOTS, MAX_GENERATION; lia). lia.
    - rewrite (tw_capacity _ Hwf). apply lookup_lt_Some in He. lia. }
  split.
  - destruct (i >=? capacity t); [done|]. destruct (entries t !! Z.to_nat i) as [e|] eqn:He; [|done].
    destruct (occupied e) eqn:Ho; simpl; [|done]. intros [= <- <- <-]. exists e. split; [|done].
    apply entry_get_iff; [done|]. split; [done|]. split; [done|]. split; [done|]. by apply Henc.
  - intros (e & (_ & He & Ho & ->)%entry_get_iff & <- & <-); [|done]. destruct (Henc _ He Ho) as [Hh Hc].
    rewrite Z.geb_leb, (proj2 (Z.leb_gt _ _)) by lia. rewrite He, Ho. simpl. by rewrite Hh.
Qed.

Lemma some_waitable_spec f s : world_wf (a_world s) -> some_waitable f s = true <->
  exists h i e w, entry_get (table s) h = Some (i, e) /\ waitable_kind (kind e) = true /\ waitables s !! object e = Some w /\ f w (kind e) = true.
Proof.
  intros [Hwf _]. unfold some_waitable. rewrite existsb_exists. split.
  - intros (i & Hi & E). destruct (turbowasm_component_handle_at _ _) as [[[h k] p]|] eqn:Ea; [|done].
    apply handle_at_iff in Ea as (e & Eg & <- & <-); [|done|lia]. apply andb_true_iff in E as [Hk E].
    destruct (waitables s !! object e) as [w|] eqn:Hw; [|done]. by exists h, (Z.of_nat i), e, w.
  - intros (h & i & e & w & Eg & Hk & Hw & Hf). pose proof Eg as (Hi & He & Ho & _)%entry_get_iff; [|done].
    exists (Z.to_nat i). split.
    + apply in_seq. apply lookup_lt_Some in He. rewrite (tw_capacity _ Hwf). lia.
    + rewrite Z2Nat.id by done. replace (turbowasm_component_handle_at (table s) i) with (Some (h, kind e, object e)).
      * by rewrite Hk, Hw.
      * symmetry. apply handle_at_iff; [done|done|]. by exists e.
Qed.

Lemma drop_waitable_inv s h i e w w' : ainv s -> entry_get (table s) h = Some (i, e) -> waitable_kind (kind e) = true ->
  waitables s !! object e = Some w -> wt_table w = this -> wt_handle w = h -> sync_waiter w = false -> world_wf w' -> entry_get (w_table w') h = None ->
  (forall h', h' <> h -> entry_get (w_table w') h' = entry_get (table s) h') ->
  ainv (put_waitable (object e) (with_registration NULL 0 (with_set 0 w)) (put_world w' s)).
Proof.
  intros [I1 I2 I3 I4 I5 I6] E Hk Hw Hvt Hvh Hsy Hwf Hn Hf.
  assert (Hsets : forall h', is_set (table s) h' -> is_set (w_table w') h').
  { intros h' (j & e' & E' & Hk'). exists j, e'. rewrite Hf; [done|]. intros ->. rewrite E in E'. injection E' as <- <-.
    by apply (waitable_not_set _ Hk). }
  split; simpl; try done.
  - intros q u. rewrite lookup_insert_Some. intros [[<- <-]|[Hne Hq]].
    + destruct (I2 _ _ Hw). split; simpl; try done. by left.
    + eapply waitable_ok_table; [by apply I2| |auto]. intros j e' E' Hu Hk'. rewrite Hf; [done|]. intros Heq.
      rewrite Heq in E'. rewrite E in E'. injection E' as <- <-.
      destruct (wo_registered _ _ _ (I2 _ _ Hq)) as [(Hz & _)|(_ & j & e' & E' & Ho & _)]; [congruence|].
      rewrite Heq, E in E'. injection E' as <- <-. done.
  - intros q u Hq. eapply set_ok_table; [by apply I3|]. intros j e' E' _ Hk'. rewrite Hf; [done|]. intros Heq. rewrite Heq, E in E'.
    injection E' as <- <-. by apply (waitable_not_set _ Hk).
  - intros h' j e' E' Hk'. assert (Hne : h' <> h) by (intros ->; congruence). rewrite Hf in E' by done.
    destruct (I4 _ _ _ E' Hk') as (u & Hu & Hut). exists u. rewrite lookup_insert_ne; [done|]. intros Heq. destruct Hne.
    by eapply (I6 h' h).
  - intros h' j e' E' Hk'. assert (Hne : h' <> h) by (intros ->; congruence). rewrite Hf in E' by done. by eapply I5.
  - intros h1 h2 i1 i2 e1 e2 E1 E2. assert (h1 <> h /\ h2 <> h) as [N1 N2] by (split; intros ->; congruence).
    rewrite Hf in E1, E2 by done. by eapply I6.
Qed.

Lemma drop_set_inv s h i e st w' : ainv s -> entry_get (table s) h = Some (i, e) -> kind e = HANDLE_WAITABLE_SET ->
  sets s !! object e = Some st -> (forall p w, waitables s !! p = Some w -> set_handle w <> h) -> world_wf w' ->
  entry_get (w_table w') h = None -> (forall h', h' <> h -> entry_get (w_table w') h' = entry_get (table s) h') ->
  ainv (put_set (object e) (mk_set NULL 0 (wait_count st) 0) (put_world w' s)).
Proof.
  intros [I1 I2 I3 I4 I5 I6] E Hk Hst Hfree Hwf Hn Hf.
  destruct (I5 _ _ _ E Hk) as (v & Hv & Hvt & Hvh). assert (v = st) as -> by congruence.
  split; simpl; try done.
  - intros q u Hq. eapply waitable_ok_table; [by apply I2| |].
    + intros j e' E' _ Hk'. rewrite Hf; [done|]. intros Heq. rewrite Heq, E in E'. injection E' as <- <-. by apply (waitable_not_set _ Hk').
    + intros _ (j & e' & E' & Hk'). exists j, e'. rewrite Hf; [done|]. by eapply Hfree.
  - intros q u. rewrite lookup_insert_Some. intros [[<- <-]|[Hne Hq]].
    + destruct (I3 _ _ Hst). split; simpl; try done. by left.
    + eapply set_ok_table; [by apply I3|]. intros j e' E' Hu Hk'. rewrite Hf; [done|]. intros Heq. rewrite Heq, E in E'. injection E' as <- <-.
      destruct (so_registered _ _ _ (I3 _ _ Hq)) as [Hz|(_ & j & e' & E' & Ho & _)]; [congruence|].
      rewrite Heq, E in E'. injection E' as <- <-. done.
  - intros h' j e' E' Hk'. assert (Hne : h' <> h) by (intros ->; congruence). rewrite Hf in E' by done. by eapply I4.
  - intros h' j e' E' Hk'. assert (Hne : h' <> h) by (intros ->; congruence). rewrite Hf in E' by done.
    destruct (I5 _ _ _ E' Hk') as (u & Hu & Hut & Huh). exists u. rewrite lookup_insert_ne; [done|]. intros Heq. rewrite Heq in Hst. congruence.
  - intros h1 h2 i1 i2 e1 e2 E1 E2. assert (h1 <> h /\ h2 <> h) as [N1 N2] by (split; intros ->; congruence).
    rewrite Hf in E1, E2 by done. by eapply I6.
Qed.

(** ** Delivery *)

Definition with_failure (st : turbowasm_status) (w : turbowasm_component_waitable) : turbowasm_component_waitable :=
  mk_waitable (wt_table w) (wt_handle w) (set_handle w) (sync_waiter w) (delivering w) st (wt_state w) (release_pending w) (release_context w).

(** The same object, but for the failure its owner may have recorded. *)
Definition refailed (o o' : option turbowasm_component_waitable) : Prop :=
  match o, o' with
  | Some w, Some w' => exists st, w' = with_failure st w
  | None, None => True
  | _, _ => False
  end.

(** What an owner's cleanup may do: release loans and buffers of its own, record
    its failure in waitables and grow the table; it leaves the rest of the
    waitables and the sets alone. *)
Definition callback_ok (callback : Z -> Z -> astate -> turbowasm_status * astate) : Prop :=
  forall f c s st s', world_wf (a_world s) -> callback f c s = (st, s') ->
    (forall p : ptr, refailed (waitables s !! p) (waitables s' !! p)) /\ sets s' = sets s /\ outside (a_world s) (a_world s').

(** A change of flags and state only. *)
Record redone (w w' : turbowasm_component_waitable) : Prop := {
  rd_table : wt_table w' = wt_table w;
  rd_handle : wt_handle w' = wt_handle w;
  rd_set : set_handle w' = set_handle w;
  rd_sync : sync_waiter w' = true -> sync_waiter w = true;
  rd_matches : forall k, state_matches k (wt_state w) -> state_matches k (wt_state w');
  rd_state : state_ok (wt_state w) -> state_ok (wt_state w')
}.

Lemma redone_ok t p w w' : redone w w' -> waitable_ok t p w -> waitable_ok t p w'.
Proof.
  intros [R1 R2 R3 R4 R5 R6] [H1 H2 H3 H4 H5]. split; rewrite ?R1, ?R2, ?R3; auto.
  destruct H2 as [(? & ? & Hs)|(? & i & e & ? & ? & ? & ?)]; [left|right].
  - split; [done|]. split; [done|]. destruct (sync_waiter w') eqn:E; [|done]. rewrite R4 in Hs by done. done.
  - split; [done|]. exists i, e. auto.
Qed.

Lemma redone_put s p w w' : ainv s -> waitables s !! p = Some w -> redone w w' -> ainv (put_waitable p w' s).
Proof.
  intros Hi Hw Hr. eapply put_waitable_inv; [done|exact Hw|apply Hr|apply Hr|apply Hr|]. eapply redone_ok; [exact Hr|]. by apply (ai_waitables _ Hi).
Qed.

Lemma redone_delivering b w : redone w (with_delivering b w).
Proof. by split. Qed.

Lemma redone_failure st w : redone w (with_failure st w).
Proof. by split. Qed.

Lemma redone_unsync w : redone w (with_sync false w).
Proof. by split. Qed.

Lemma redone_trans w1 w2 w3 : redone w1 w2 -> redone w2 w3 -> redone w1 w3.
Proof. intros [] []. split; try congruence; auto. Qed.

Lemma refailed_inv s s' : ainv s -> a_world s' = a_world s -> sets s' = sets s ->
  (forall p : ptr, refailed (waitables s !! p) (waitables s' !! p)) -> ainv s'.
Proof.
  intros [I1 I2 I3 I4 I5 I6] Hw Hs Hf. split; rewrite ?Hw, ?Hs; try done.
  - intros p w' Hp. specialize (Hf p). rewrite Hp in Hf. destruct (waitables s !! p) as [w|] eqn:E; [|done].
    destruct Hf as [st ->]. eapply redone_ok; [apply redone_failure|by apply I2].
  - intros h i e E Hk. destruct (I4 _ _ _ E Hk) as (w & Hp & Hr). specialize (Hf (object e)). rewrite Hp in Hf.
    destruct (waitables s' !! object e) as [w'|]; [|done]. destruct Hf as [st ->]. by eexists.
Qed.

Section Callback.
Context (callback : Z -> Z -> astate -> turbowasm_status * astate) (Hcb : callback_ok callback).

(** What a delivery leaves: the same stores but for the object, and the table. *)
Record delivered (s : astate) (p : ptr) (s' : astate) : Prop := {
  de_inv : ainv s';
  de_sets : sets s' = sets s;
  de_others : forall q, q <> p -> refailed (waitables s !! q) (waitables s' !! q);
  de_world : a_world s' = a_world s \/ outside (a_world s) (a_world s')
}.

Lemma refailed_refl o : refailed o o.
Proof. destruct o as [[]|]; [by eexists|done]. Qed.

Lemma alter_is_put f p w s : waitables s !! p = Some w -> alter_waitable f p s = put_waitable p (f w) s.
Proof.
  intros Hw. unfold alter_waitable, put_waitable. f_equal. apply map_eq. intros q. destruct (decide (q = p)) as [->|Hne].
  - etrans; [apply lookup_alter_eq|]. etrans; [|symmetry; apply lookup_insert_eq]. etrans; [apply f_equal; exact Hw|]. done.
  - etrans; [by apply lookup_alter_ne|]. symmetry. by apply lookup_insert_ne.
Qed.

Lemma put_put p w w' s : put_waitable p w' (put_waitable p w s) = put_waitable p w' s.
Proof. unfold put_waitable. simpl. by rewrite insert_insert_eq. Qed.

Lemma deliver_spec p w0 w clean event s st ev s' : ainv s -> waitables s !! p = Some w0 -> redone w0 w ->
  deliver callback p w clean event s = (st, ev, s') ->
  delivered s p s' /\ (exists w', waitables s' !! p = Some w' /\ redone w w') /\
  ((st = TURBOWASM_OK /\ ev = Some event) \/
   (st <> TURBOWASM_OK /\ ev = None /\ exists f c s1 s2, release_pending w = Some f /\ callback f c s1 = (st, s2))).
Proof.
  intros Hi Hw Hr. unfold deliver.
  assert (Hplain : (TURBOWASM_OK, Some event, put_waitable p w s) = (st, ev, s') ->
    delivered s p s' /\ (exists w', waitables s' !! p = Some w' /\ redone w w') /\ ((st = TURBOWASM_OK /\ ev = Some event) \/
   (st <> TURBOWASM_OK /\ ev = None /\ exists f c s1 s2, release_pending w = Some f /\ callback f c s1 = (st, s2)))).
  { intros [= <- <- <-]. split; [split; simpl; [by eapply redone_put|done|by intros q Hq; rewrite lookup_insert_ne by done; apply refailed_refl|by left]|].
    split; [exists w; simpl; rewrite lookup_insert_eq; split; [done|by split]|by left]. }
  destruct (release_pending w) as [f|] eqn:Hf; [|done]. destruct clean; [|done]. clear Hplain.
  set (w1 := with_delivering true w). set (s1 := put_waitable p w1 s).
  destruct (callback f (release_context w) s1) as [st0 s2] eqn:Ec. intros [= <- <- <-].
  assert (Hr1 : redone w0 w1) by (eapply redone_trans; [exact Hr|apply redone_delivering]).
  assert (Hi1 : ainv s1) by (by eapply redone_put).
  destruct (Hcb _ _ _ _ _ (ai_world _ Hi1) Ec) as (Hws & Hss & Ho).
  assert (Hi2 : ainv s2).
  { eapply (refailed_inv (put_world (a_world s2) s1)); [by apply outside_inv|done|done|exact Hws]. }
  pose proof (Hws p) as Hp. unfold s1 in Hp. simpl in Hp. rewrite lookup_insert_eq in Hp.
  destruct (waitables s2 !! p) as [w2|] eqn:Hw2; [|done]. destruct Hp as [f2 ->].
  rewrite (alter_is_put _ _ _ _ Hw2). split; [split; simpl|].
  - eapply redone_put; [done|exact Hw2|apply redone_delivering].
  - done.
  - intros q Hq. rewrite lookup_insert_ne by done. specialize (Hws q). simpl in Hws. by rewrite lookup_insert_ne in Hws by done.
  - by right.
  - split; [eexists; simpl; rewrite lookup_insert_eq; split; [done|by split]|].
    case_bool_decide as Hst; [by left|]. right. split; [done|]. split; [done|]. by exists f, (release_context w), s1, s2.
Qed.

Lemma taken_subtask w st e st' : wt_state w = state_subtask st -> turbowasm_component_subtask_take_event st = (Some e, st') ->
  redone w (with_state (state_subtask st') w).
Proof.
  intros Hw E. split; try done; rewrite Hw; simpl; [done|]. intros [es Hi]. exists (es ++ [e]).
  exact (subtask_step_inv sub_take st es (Some e) st' I Hi E).
Qed.

Lemma take_future st e st' : turbowasm_component_endpoint_take_event st = (Some e, st') -> future st' = future st.
Proof.
  unfold turbowasm_component_endpoint_take_event. destruct (_ || _); [done|]. destruct (endpoint_result st) as [[r n]|]; [|done].
  by intros [= _ <-].
Qed.

Lemma taken_endpoint w st e st' : wt_state w = state_endpoint st -> turbowasm_component_endpoint_take_event st = (Some e, st') ->
  redone w (with_state (state_endpoint st') w).
Proof.
  intros Hw E. pose proof (take_future _ _ _ E) as Hf. split; try done; rewrite Hw; simpl.
  - intros k. by rewrite Hf.
  - intros [es Hi]. exists (es ++ [e]). rewrite Hf. exact (endpoint_step_inv (future st) end_take st es (Some e) st' I Hi E).
Qed.

(** A reachable state with a pending event delivers it. *)
Lemma pending_subtask st : (exists es, subtask_inv es st) -> sub_pending st = true ->
  exists st', turbowasm_component_subtask_take_event st = (Some (sub_phase st), st').
Proof.
  intros [es Hi] Hq. unfold turbowasm_component_subtask_take_event. rewrite Hq. destruct st as [p c q d]. unfold subtask_inv in Hi. simpl in *.
  destruct Hi as [(_ & _ & Hn & _)|[(-> & _ & ->)|(Hp & _ & Hd & _)]]; simpl in *; [congruence|by eexists|].
  subst q. destruct d; [done|]. destruct Hp as [->|[->| ->]]; by eexists.
Qed.

Lemma pending_endpoint st : (exists es, endpoint_inv (future st) es st) -> end_pending st = true ->
  exists r st', turbowasm_component_endpoint_take_event st = (Some r, st').
Proof.
  intros [es Hi] Hq. assert (Hd : end_phase st <> ENDPOINT_DONE) by (intros Hd; rewrite (ei_done _ _ _ Hi Hd) in Hq; discriminate).
  destruct (endpoint_result st) as [[code next]|] eqn:Er; [|by destruct (ei_result _ _ _ Hi Hq)].
  destruct (take_endpoint _ _ _ (ei_progress _ _ _ Hi) Hq Hd Er) as [_ ->]. by eexists _, _.
Qed.

(** The three outcomes of taking an event. *)
Lemma take_event_spec p w k s st ev s' : ainv s -> waitables s !! p = Some w -> take_event callback p w k s = (st, ev, s') ->
  delivered s p s' /\ (exists w', waitables s' !! p = Some w' /\ redone w w') /\
  ((failure w <> TURBOWASM_OK /\ st = failure w /\ ev = None) \/
   (failure w = TURBOWASM_OK /\ pending (wt_state w) = false /\ st = TURBOWASM_YIELDED /\ ev = None) \/
   (failure w = TURBOWASM_OK /\ pending (wt_state w) = true /\
    ((st = TURBOWASM_OK /\ exists code payload, code <> EVENT_NONE /\ ev = Some (mk_event code (wt_handle w) payload)) \/
     (st <> TURBOWASM_OK /\ ev = None /\ exists f c s1 s2, release_pending w = Some f /\ callback f c s1 = (st, s2))))).
Proof.
  intros Hi Hw. unfold take_event.
  assert (Hsame : delivered s p s /\ (exists w', waitables s !! p = Some w' /\ redone w w')).
  { split; [split; [done|done|by intros; apply refailed_refl|by left]|]. exists w. split; [done|by split]. }
  case_bool_decide as Hf; simpl.
  2: { intros [= <- <- <-]. destruct Hsame. split; [done|]. split; [done|]. by left. }
  pose proof (wo_state _ _ _ (ai_waitables _ Hi _ _ Hw)) as Hs. destruct (wt_state w) as [e|e] eqn:Est; simpl in *.
  - destruct (sub_pending e) eqn:Hq; simpl.
    2: { intros [= <- <- <-]. destruct Hsame. split; [done|]. split; [done|]. by right; left. }
    destruct (pending_subtask e Hs Hq) as [e' Et]. rewrite Et. intros Ed. pose proof (taken_subtask _ _ _ _ Est Et) as Hr.
    destruct (deliver_spec _ _ _ _ _ _ _ _ _ Hi Hw Hr Ed) as (Hd & (w' & Hw' & Hr') & Ho).
    split; [done|]. split; [exists w'; split; [done|by eapply redone_trans]|]. right. right. split; [done|]. split; [done|].
    destruct Ho as [[-> ->]|Ho]; [left|right; exact Ho]. split; [done|]. exists EVENT_SUBTASK. eexists. split; [discriminate|reflexivity].
  - destruct (end_pending e) eqn:Hq; simpl.
    2: { intros [= <- <- <-]. destruct Hsame. split; [done|]. split; [done|]. by right; left. }
    destruct (pending_endpoint e Hs Hq) as (r & e' & Et). rewrite Et. intros Ed. pose proof (taken_endpoint _ _ _ _ Est Et) as Hr.
    destruct (deliver_spec _ _ _ _ _ _ _ _ _ Hi Hw Hr Ed) as (Hd & (w' & Hw' & Hr') & Ho).
    split; [done|]. split; [exists w'; split; [done|by eapply redone_trans]|]. right. right. split; [done|]. split; [done|].
    destruct Ho as [[-> ->]|Ho]; [left|right; exact Ho]. split; [done|]. exists (event_code_of k). eexists. split; [by destruct k|reflexivity].
Qed.

(** ** Every operation keeps the invariant *)

Inductive wait_op :=
  | op_register (k : turbowasm_component_handle_kind) (p : ptr)
  | op_set_register (p : ptr)
  | op_join (h set : Z)
  | op_drop (h : Z)
  | op_set_drop (h : Z)
  | op_take (h : Z)
  | op_poll (set : Z)
  | op_acquire (set : Z)
  | op_release (set : Z)
  | op_begin (h : Z)
  | op_end (h : Z)
  | op_cancel (h : Z).

Definition run_wait (sizeof_entry : Z) (realloc_ok : Z -> bool) (op : wait_op) (s : astate) : astate :=
  match op with
  | op_register k p => snd (turbowasm_component_waitable_register this sizeof_entry realloc_ok k p s)
  | op_set_register p => snd (turbowasm_component_waitable_set_register this sizeof_entry realloc_ok p s)
  | op_join h set => snd (turbowasm_component_waitable_join this h set s)
  | op_drop h => snd (turbowasm_component_waitable_drop this h s)
  | op_set_drop h => snd (turbowasm_component_waitable_set_drop this h s)
  | op_take h => snd (turbowasm_component_waitable_take this callback h s)
  | op_poll h => snd (turbowasm_component_waitable_set_poll this callback h s)
  | op_acquire h => snd (turbowasm_component_waitable_set_wait_acquire this h s)
  | op_release h => snd (turbowasm_component_waitable_set_wait_release this h s)
  | op_begin h => snd (turbowasm_component_waitable_wait_begin this h s)
  | op_end h => snd (turbowasm_component_waitable_wait_end this callback h s)
  | op_cancel h => snd (turbowasm_component_waitable_wait_cancel this h s)
  end.

(** An object is registered in a state of its kind, and not while a handle is
    reserved for it. *)
Definition contract (op : wait_op) (s : astate) : Prop :=
  match op with
  | op_register k p => forall w, waitables s !! p = Some w ->
      fits k (wt_state w) /\ (wt_table w = NULL -> ~ referenced (table s) p)
  | _ => True
  end.

Lemma join_inv h set s : ainv s -> ainv (snd (turbowasm_component_waitable_join this h set s)).
Proof.
  intros Hi. unfold turbowasm_component_waitable_join. destruct (get_waitable this s h) as [[p w]|] eqn:E; [|done].
  destruct (_ || _) eqn:G; [done|]. apply orb_false_iff in G as [[Hsy _]%orb_false_iff Hset].
  apply get_waitable_inv in E as (Hw & Ht & Hh & i & e & Eg & Ho & Hk & _). pose proof (ai_waitables _ Hi _ _ Hw) as Hok. simpl.
  eapply put_waitable_inv; [done|exact Hw|done|done|done|]. destruct Hok. split; simpl; try done; [| |congruence].
  - destruct wo_registered0 as [(Hz & _)|?]; [congruence|by right].
  - intros Hn. apply Z.eqb_neq in Hn. rewrite Hn in Hset. simpl in Hset. apply bool_decide_eq_false in Hset.
    destruct (get_set this s set) as [[q st]|] eqn:Es; [|done]. apply get_set_inv in Es as (_ & _ & _ & j & e' & E' & _ & Hk'). by exists j, e'.
Qed.

Lemma drop_inv h s : ainv s -> ainv (snd (turbowasm_component_waitable_drop this h s)).
Proof.
  intros Hi. unfold turbowasm_component_waitable_drop. cbv zeta. destruct (get_waitable this s h) as [[p w]|] eqn:E; [|done].
  destruct (_ || _) eqn:G; [done|]. apply orb_false_iff in G as [[Hsy _]%orb_false_iff _].
  apply get_waitable_inv in E as (Hw & Ht & Hh & i & e & Eg & Ho & Hk & ->).
  destruct (turbowasm_component_handle_remove (a_world s) h (kind e)) as [[st w'] res] eqn:Er.
  destruct (remove_effect _ _ _ _ _ _ (ai_world _ Hi) Er) as [[Hst ->]|(-> & Hwf & Hn & Hf)].
  - destruct st; simpl; try done; by destruct s as [[] ? ?].
  - simpl. rewrite <- Ho in *. by eapply drop_waitable_inv.
Qed.

Lemma set_drop_inv h s : ainv s -> ainv (snd (turbowasm_component_waitable_set_drop this h s)).
Proof.
  intros Hi. unfold turbowasm_component_waitable_set_drop. destruct (get_set this s h) as [[p st]|] eqn:E; [|done].
  destruct (negb _); [done|]. destruct (some_waitable _ s) eqn:Hsw; [done|].
  apply get_set_inv in E as (Hw & Ht & Hh & i & e & Eg & Ho & Hk).
  destruct (turbowasm_component_handle_remove (a_world s) h HANDLE_WAITABLE_SET) as [[st0 w'] res] eqn:Er.
  destruct (remove_effect _ _ _ _ _ _ (ai_world _ Hi) Er) as [[Hst ->]|(-> & Hwf & Hn & Hf)].
  { destruct st0; simpl; try done; by destruct s as [[] ? ?]. }
  simpl. rewrite <- Ho in *. eapply drop_set_inv; try done. intros q v Hq Hv.
  pose proof (handle_pos _ _ _ _ (proj1 (ai_world _ Hi)) Eg) as Hpos.
  apply not_true_iff_false in Hsw. apply Hsw. apply some_waitable_spec; [apply Hi|].
  destruct (wo_registered _ _ _ (ai_waitables _ Hi _ _ Hq)) as [(_ & Hz & _)|(Hvt & j & e' & E' & Ho' & Hk' & _)]; [lia|].
  exists (wt_handle v), j, e', v. rewrite Ho'. split; [done|]. split; [done|]. split; [done|]. by apply Z.eqb_eq.
Qed.

Lemma take_inv h s : ainv s -> ainv (snd (turbowasm_component_waitable_take this callback h s)).
Proof.
  intros Hi. unfold turbowasm_component_waitable_take. destruct (get_waitable this s h) as [[p w]|] eqn:E; [|done].
  destruct (_ || _); [done|]. apply get_waitable_inv in E as (Hw & _).
  destruct (take_event _ _ _ _ _) as [[st ev] s'] eqn:Et. by apply (take_event_spec _ _ _ _ _ _ _ Hi Hw Et).
Qed.

Lemma end_inv h s : ainv s -> ainv (snd (turbowasm_component_waitable_wait_end this callback h s)).
Proof.
  intros Hi. unfold turbowasm_component_waitable_wait_end. destruct (get_waitable this s h) as [[p w]|] eqn:E; [|done].
  destruct (_ || _); [done|]. apply get_waitable_inv in E as (Hw & _).
  destruct (take_event _ _ _ _ _) as [[st ev] s'] eqn:Et.
  destruct (take_event_spec _ _ _ _ _ _ _ Hi Hw Et) as ([Hi' _ _ _] & (w' & Hw' & _) & _). simpl.
  case_bool_decide; [done|]. rewrite (alter_is_put _ _ _ _ Hw'). eapply redone_put; [done|exact Hw'|apply redone_unsync].
Qed.

Lemma poll_scan_found n s set : forall index k p w kd, poll_scan n s set index = Some (k, (p, w, kd)) -> waitables s !! p = Some w.
Proof.
  induction n as [|n IH]; intros index k p w kd; cbn [poll_scan]; [done|]. destruct (ready_at s set index) as [found|] eqn:E; [|apply IH].
  intros [= -> ->]. unfold ready_at in E. repeat case_match; by simplify_eq.
Qed.

(** Moving on where the next scan of a set starts, or counting its waiters. *)
Lemma put_set_same s h p st n c : ainv s -> get_set this s h = Some (p, st) -> 0 <= n -> is_uint 32 c ->
  ainv (put_set p (mk_set (ws_table st) (ws_handle st) c n) s).
Proof.
  intros Hi E Hn Hc. apply get_set_inv in E as (Hs & _). eapply put_set_inv; [done|exact Hs|done|done|].
  destruct (ai_sets _ Hi _ _ Hs). by split.
Qed.

Lemma next_index_nonneg s i : 0 <= next_index s i.
Proof. unfold next_index. destruct (_ =? _); [lia|]. apply wrap_range. lia. Qed.

Lemma poll_inv h s : ainv s -> ainv (snd (turbowasm_component_waitable_set_poll this callback h s)).
Proof.
  intros Hi. unfold turbowasm_component_waitable_set_poll. destruct (get_set this s h) as [[ps st]|] eqn:E; [|done].
  destruct (poll_scan _ _ _ _) as [[k [[p w] kd]]|] eqn:Ep; [|done]. apply poll_scan_found in Ep.
  pose proof (put_set_same s h ps st (next_index s k) (wait_count st) Hi E (next_index_nonneg s k)
    (so_count _ _ _ (ai_sets _ Hi _ _ (proj1 (get_set_inv _ _ _ _ E))))) as Hi'.
  destruct (take_event _ _ _ _ _) as [[st0 ev] s'] eqn:Et. by apply (take_event_spec _ _ _ _ _ _ _ Hi' Ep Et).
Qed.

Lemma begin_inv h s : ainv s -> ainv (snd (turbowasm_component_waitable_wait_begin this h s)).
Proof.
  intros Hi. unfold turbowasm_component_waitable_wait_begin. destruct (get_waitable this s h) as [[p w]|] eqn:E; [|done].
  destruct (_ || _) eqn:G; [done|]. apply orb_false_iff in G as [[Hz _]%orb_false_iff _]. apply negb_false_iff, Z.eqb_eq in Hz.
  apply get_waitable_inv in E as (Hw & Ht & _). simpl. pose proof (ai_waitables _ Hi _ _ Hw) as Hok.
  eapply put_waitable_inv; [done|exact Hw|done|done|done|]. destruct Hok. split; simpl; try done.
  destruct wo_registered0 as [(Hn & _)|?]; [congruence|by right].
Qed.

Lemma cancel_wait_inv h s : ainv s -> ainv (snd (turbowasm_component_waitable_wait_cancel this h s)).
Proof.
  intros Hi. unfold turbowasm_component_waitable_wait_cancel. destruct (get_waitable this s h) as [[p w]|] eqn:E; [|done].
  destruct (_ || _); [done|]. apply get_waitable_inv in E as (Hw & _). simpl. eapply redone_put; [done|exact Hw|apply redone_unsync].
Qed.

Lemma count_inv h s : ainv s -> ainv (snd (turbowasm_component_waitable_set_wait_acquire this h s)) /\
  ainv (snd (turbowasm_component_waitable_set_wait_release this h s)).
Proof.
  intros Hi. unfold turbowasm_component_waitable_set_wait_acquire, turbowasm_component_waitable_set_wait_release.
  destruct (get_set this s h) as [[p st]|] eqn:E; [|done].
  assert (Hn : 0 <= next_slot st) by (apply (ai_sets _ Hi _ _ (proj1 (get_set_inv _ _ _ _ E)))).
  split; (destruct (_ =? _); [done|]); (eapply put_set_same; [done|exact E|done|apply wrap_range; lia]).
Qed.

Lemma run_wait_inv sizeof_entry realloc_ok op s : contract op s -> ainv s -> ainv (run_wait sizeof_entry realloc_ok op s).
Proof.
  intros Hc Hi. destruct op; simpl in *.
  - unfold turbowasm_component_waitable_register in *. destruct (waitables s !! p) as [w|] eqn:Hw; [|done].
    destruct (turbowasm_component_waitable_register this sizeof_entry realloc_ok k p s) as [st s'] eqn:E. pose proof E as E'.
    unfold turbowasm_component_waitable_register in E'. rewrite Hw in E'. rewrite E'. simpl.
    destruct (Hc _ eq_refl). by eapply (register_inv sizeof_entry realloc_ok k p s w).
  - destruct (turbowasm_component_waitable_set_register _ _ _ _ _) as [st s'] eqn:E. by eapply set_register_inv.
  - by apply join_inv.
  - by apply drop_inv.
  - by apply set_drop_inv.
  - by apply take_inv.
  - by apply poll_inv.
  - by apply count_inv.
  - by apply count_inv.
  - by apply begin_inv.
  - by apply end_inv.
  - by apply cancel_wait_inv.
Qed.

(** *** Steps of the owners *)

(** A subtask that has not ended when it is published: the caller learns its
    phase from the call, so nothing is pending any more. *)
Definition published (st : turbowasm_component_subtask_state) : turbowasm_component_subtask_state :=
  mk_subtask (sub_phase st) (cancellation_requested st) false (resolve_delivered st).

Definition remove_waitable (p : ptr) (s : astate) : astate := mk_astate (a_world s) (delete p (waitables s)) (sets s).
Definition remove_set (p : ptr) (s : astate) : astate := mk_astate (a_world s) (waitables s) (delete p (sets s)).

(** One step of a component with waitables: an operation; another user of the
    table; an object that appears, new or from another table, or is freed; a
    handle that is reserved for an object in transit, given up, or taken into
    use; a subtask that is destroyed with its handle; an owner that moves a state
    machine, publishes a subtask, fails, or guards a callback. *)
Inductive astep (s : astate) : astate -> Prop :=
  | step_operation sizeof_entry realloc_ok op : contract op s -> astep s (run_wait sizeof_entry realloc_ok op s)
  | step_outside w' : outside (a_world s) w' -> astep s (put_world w' s)
  | step_new_waitable p busy st state release context : p <> NULL -> waitables s !! p = None -> state_ok state ->
      astep s (put_waitable p (mk_waitable NULL 0 0 false busy st state release context) s)
  | step_new_set p : p <> NULL -> sets s !! p = None -> astep s (put_set p (mk_set NULL 0 0 0) s)
  | step_free_waitable p w : waitables s !! p = Some w -> wt_table w = NULL -> ~ referenced (table s) p -> astep s (remove_waitable p s)
  | step_free_set p st : sets s !! p = Some st -> ws_table st = NULL -> astep s (remove_set p s)
  | step_reserve sizeof_entry realloc_ok k p w st t res : waitables s !! p = Some w -> wt_table w = NULL -> ~ referenced (table s) p ->
      waitable_kind k = true -> state_matches k (wt_state w) ->
      turbowasm_component_handle_insert sizeof_entry realloc_ok (table s) k p = (st, t, res) ->
      astep s (put_world (mk_world t (w_scopes (a_world s))) s)
  | step_abandon h i e w st w' res : entry_get (table s) h = Some (i, e) -> waitable_kind (kind e) = true ->
      waitables s !! object e = Some w -> wt_table w = NULL ->
      turbowasm_component_handle_remove (a_world s) h (kind e) = (st, w', res) -> astep s (put_world w' s)
  | step_commit h i e w : entry_get (table s) h = Some (i, e) -> waitable_kind (kind e) = true ->
      waitables s !! object e = Some w -> wt_table w = NULL -> astep s (put_waitable (object e) (with_registration this h w) s)
  | step_destroy p w w' res : waitables s !! p = Some w -> wt_table w = this -> sync_waiter w = false ->
      turbowasm_component_handle_remove (a_world s) (wt_handle w) HANDLE_SUBTASK = (TURBOWASM_OK, w', res) ->
      astep s (remove_waitable p (put_world w' s))
  | step_subtask p w st op : waitables s !! p = Some w -> wt_state w = state_subtask st ->
      astep s (put_waitable p (with_state (state_subtask (snd (subtask_step op st))) w) s)
  | step_endpoint p w st op : waitables s !! p = Some w -> wt_state w = state_endpoint st -> plain_op op ->
      astep s (put_waitable p (with_state (state_endpoint (snd (endpoint_step op st))) w) s)
  | step_publish p w st : waitables s !! p = Some w -> wt_state w = state_subtask st ->
      sub_phase st = SUBTASK_STARTING \/ sub_phase st = SUBTASK_STARTED ->
      astep s (put_waitable p (with_state (state_subtask (published st)) w) s)
  | step_failure p w st : waitables s !! p = Some w -> astep s (put_waitable p (with_failure st w) s)
  | step_guard p w busy : waitables s !! p = Some w -> astep s (put_waitable p (with_delivering busy w) s).

Lemma endpoint_future op st : future (snd (endpoint_step op st)) = future st.
Proof.
  destruct op; simpl; unfold turbowasm_component_endpoint_begin_copy, turbowasm_component_endpoint_notify,
    turbowasm_component_endpoint_request_cancel, turbowasm_component_endpoint_peer_dropped, turbowasm_component_endpoint_take_event.
  all: repeat case_match; done.
Qed.

Lemma moved_subtask w st op : wt_state w = state_subtask st ->
  redone w (with_state (state_subtask (snd (subtask_step op st))) w).
Proof.
  intros Hw. split; try done; rewrite Hw; simpl; [done|]. intros [es Hi].
  destruct (subtask_step op st) as [event st'] eqn:E. pose proof (subtask_step_inv _ _ _ _ _ I Hi E) as Hi'.
  by eexists.
Qed.

Lemma moved_endpoint w st op : wt_state w = state_endpoint st -> plain_op op ->
  redone w (with_state (state_endpoint (snd (endpoint_step op st))) w).
Proof.
  intros Hw Hp. split; try done; rewrite Hw; simpl; rewrite endpoint_future; [done|]. intros [es Hi].
  destruct (endpoint_step op st) as [event st'] eqn:E. pose proof (endpoint_step_inv _ _ _ _ _ _ Hp Hi E) as Hi'.
  by eexists.
Qed.

Lemma published_subtask w st : wt_state w = state_subtask st -> sub_phase st = SUBTASK_STARTING \/ sub_phase st = SUBTASK_STARTED ->
  redone w (with_state (state_subtask (published st)) w).
Proof.
  intros Hw Hp. split; try done; rewrite Hw; simpl; [done|]. intros [es Hi]. destruct Hp as [Hp|Hp].
  - exists []. left. destruct Hi as [(_ & _ & _ & Hd)|[(Hq & _)|(Ht & _)]]; [done|by rewrite Hp in Hq|].
    rewrite Hp in Ht. by destruct Ht as [?|[?|?]].
  - exists [SUBTASK_STARTED]. right. left. destruct Hi as [(Hq & _)|[(_ & _ & Hd)|(Ht & _)]]; [by rewrite Hp in Hq|done|].
    rewrite Hp in Ht. by destruct Ht as [?|[?|?]].
Qed.

(** An object that no handle leads to may go. *)
Lemma remove_waitable_inv s p : ainv s -> ~ referenced (table s) p -> ainv (remove_waitable p s).
Proof.
  intros [I1 I2 I3 I4 I5 I6] Hr. split; simpl; try done.
  - intros q v. rewrite lookup_delete_Some. intros [_ Hq]. by apply I2.
  - intros h i e E Hk. destruct (I4 _ _ _ E Hk) as (v & Hv & Hvt). exists v. rewrite lookup_delete_ne; [done|].
    intros ->. destruct Hr. by exists h, i, e.
Qed.

Lemma remove_set_inv s p st : ainv s -> sets s !! p = Some st -> ws_table st = NULL -> ainv (remove_set p s).
Proof.
  intros [I1 I2 I3 I4 I5 I6] Hs Ht. split; simpl; try done.
  - intros q v. rewrite lookup_delete_Some. intros [_ Hq]. by apply I3.
  - intros h i e E Hk. destruct (I5 _ _ _ E Hk) as (v & Hv & Hvt). exists v. rewrite lookup_delete_ne; [done|].
    intros ->. destruct Hvt. congruence.
Qed.

Lemma new_waitable_inv s p busy st state release context : ainv s -> p <> NULL -> waitables s !! p = None -> state_ok state ->
  ainv (put_waitable p (mk_waitable NULL 0 0 false busy st state release context) s).
Proof.
  intros [I1 I2 I3 I4 I5 I6] Hp Hn Hs. split; simpl; try done.
  - intros q v. rewrite lookup_insert_Some. intros [[<- <-]|[_ Hq]]; [|by apply I2]. split; simpl; try done. by left.
  - intros h i e E Hk. destruct (I4 _ _ _ E Hk) as (v & Hv & Hvt). exists v. rewrite lookup_insert_ne; [done|]. intros ->. congruence.
Qed.

Lemma new_set_inv s p : ainv s -> p <> NULL -> sets s !! p = None -> ainv (put_set p (mk_set NULL 0 0 0) s).
Proof.
  intros [I1 I2 I3 I4 I5 I6] Hp Hn. split; simpl; try done.
  - intros q v. rewrite lookup_insert_Some. intros [[<- <-]|[_ Hq]]; [|by apply I3]. split; simpl; try done. by left.
  - intros h i e E Hk. destruct (I5 _ _ _ E Hk) as (v & Hv & Hvt). exists v. rewrite lookup_insert_ne; [done|]. intros ->. congruence.
Qed.

Lemma reserve_inv sizeof_entry realloc_ok s k p w st t res : ainv s -> waitables s !! p = Some w -> wt_table w = NULL ->
  ~ referenced (table s) p -> waitable_kind k = true -> state_matches k (wt_state w) ->
  turbowasm_component_handle_insert sizeof_entry realloc_ok (table s) k p = (st, t, res) ->
  ainv (put_world (mk_world t (w_scopes (a_world s))) s).
Proof.
  intros Hi Hw Ht Hr Hk Hm E. pose proof (wo_address _ _ _ (ai_waitables _ Hi _ _ Hw)) as Hp.
  destruct (insert_effect _ _ _ _ _ _ _ _ (ai_world _ Hi) (private_own _ (own_waitable _ Hk)) Hp E)
    as [(-> & -> & ->)|(-> & h & i & e & -> & Hwf & Hn & Hg & Ho & Hke & Hf & Hpos)].
  { by destruct s as [[] ? ?]. }
  pose proof Hi as [I1 I2 I3 I4 I5 I6]. split; simpl; try done.
  - intros q v Hq. by eapply waitable_ok_more; [apply I2|..].
  - intros q v Hq. by eapply set_ok_more; [apply I3|..].
  - intros h' i' e' E' Hk'. destruct (decide (h' = h)) as [->|Hne].
    + rewrite Hg in E'. injection E' as <- <-. rewrite Ho, Hke. exists w. split; [done|by right].
    + rewrite Hf in E' by done. by eapply I4.
  - intros h' i' e' E' Hk'. eapply I5; [|done]. rewrite <- Hf; [done|]. intros ->. rewrite Hg in E'. injection E' as <- <-.
    rewrite Hke in Hk'. by apply (waitable_not_set k).
  - eapply inserted_unique; [exact Hi|exact Hg|by rewrite Hke|by rewrite Ho|exact Hf].
Qed.

(** A handle of a waitable that no registered object uses may go. *)
Lemma abandon_inv s h i e w st w' res : ainv s -> entry_get (table s) h = Some (i, e) -> waitable_kind (kind e) = true ->
  waitables s !! object e = Some w -> wt_table w = NULL ->
  turbowasm_component_handle_remove (a_world s) h (kind e) = (st, w', res) -> ainv (put_world w' s).
Proof.
  intros Hi E Hk Hw Ht Er. destruct (remove_effect _ _ _ _ _ _ (ai_world _ Hi) Er) as [[_ ->]|(_ & Hwf & Hn & Hf)].
  { by destruct s as [[] ? ?]. }
  destruct Hi as [I1 I2 I3 I4 I5 I6].
  assert (Hold : forall h' i' e', entry_get (w_table w') h' = Some (i', e') -> entry_get (table s) h' = Some (i', e')).
  { intros h' i' e' E'. rewrite <- Hf; [done|]. intros ->. congruence. }
  assert (Hset : forall h' j e', entry_get (table s) h' = Some (j, e') -> kind e' = HANDLE_WAITABLE_SET -> h' <> h).
  { intros h' j e' E' Hk' ->. rewrite E in E'. injection E' as <- <-. by apply (waitable_not_set _ Hk). }
  split; simpl; try done.
  - intros q v Hq. eapply waitable_ok_table; [by apply I2| |].
    + intros j e' E' Hv _. rewrite Hf; [done|]. intros Heq. rewrite Heq, E in E'. injection E' as <- <-.
      destruct (wo_registered _ _ _ (I2 _ _ Hq)) as [(Hz & _)|(_ & j & e' & E' & Ho & _)]; [congruence|].
      rewrite Heq, E in E'. injection E' as <- <-. rewrite Ho in Hw. congruence.
    + intros _ (j & e' & E' & Hk'). exists j, e'. rewrite Hf; [done|]. by eapply Hset.
  - intros q v Hq. eapply set_ok_table; [by apply I3|]. intros j e' E' _ Hk'. rewrite Hf; [done|]. by eapply Hset.
  - intros h' i' e' E' Hk'. eapply I4; [by apply Hold|done].
  - intros h' i' e' E' Hk'. eapply I5; [by apply Hold|done].
  - intros h1 h2 i1 i2 e1 e2 E1 E2. eapply I6; by apply Hold.
Qed.

Lemma commit_inv s h i e w : ainv s -> entry_get (table s) h = Some (i, e) -> waitable_kind (kind e) = true ->
  waitables s !! object e = Some w -> wt_table w = NULL -> ainv (put_waitable (object e) (with_registration this h w) s).
Proof.
  intros [I1 I2 I3 I4 I5 I6] E Hk Hw Ht. destruct (I4 _ _ _ E Hk) as (v & Hv & Hvt). assert (v = w) as -> by congruence.
  destruct Hvt as [[? _]|[_ Hm]]; [congruence|]. pose proof (I2 _ _ Hw) as [O1 O2 O3 O4 O5].
  split; simpl; try done.
  - intros q u. rewrite lookup_insert_Some. intros [[<- <-]|[_ Hq]]; [|by apply I2]. split; simpl; try done.
    right. split; [done|]. by exists i, e.
  - intros h' i' e' E' Hk'. destruct (decide (object e = object e')) as [Heq|Hne].
    + rewrite <- Heq, lookup_insert_eq. eexists. split; [done|]. left. split; [done|]. by eapply (I6 h h').
    + rewrite lookup_insert_ne by done. by eapply I4.
Qed.

Lemma destroy_inv s p w k w' res : ainv s -> waitables s !! p = Some w -> wt_table w = this -> sync_waiter w = false ->
  turbowasm_component_handle_remove (a_world s) (wt_handle w) k = (TURBOWASM_OK, w', res) -> ainv (remove_waitable p (put_world w' s)).
Proof.
  intros Hi Hw Ht Hs Er. destruct (remove_effect _ _ _ _ _ _ (ai_world _ Hi) Er) as [[? _]|(_ & Hwf & Hn & Hf)]; [done|].
  destruct (wo_registered _ _ _ (ai_waitables _ Hi _ _ Hw)) as [(Hz & _)|(_ & i & e & E & Ho & Hk & _)]; [congruence|]. subst p.
  pose proof (drop_waitable_inv s (wt_handle w) i e w w' Hi E Hk Hw Ht eq_refl Hs Hwf Hn Hf) as Hd.
  apply (remove_waitable_inv _ (object e)) in Hd.
  - replace (remove_waitable (object e) (put_world w' s)) with
      (remove_waitable (object e) (put_waitable (object e) (with_registration NULL 0 (with_set 0 w)) (put_world w' s))); [done|].
    unfold remove_waitable, put_waitable. simpl. f_equal. apply delete_insert_eq.
  - intros (h' & i' & e' & E' & Hk' & Ho'). simpl in E'. assert (Hne : h' <> wt_handle w) by (intros ->; congruence).
    rewrite Hf in E' by done. destruct Hne. by eapply (ai_unique _ Hi).
Qed.

Lemma astep_inv s s' : astep s s' -> ainv s -> ainv s'.
Proof.
  intros Hs Hi. destruct Hs.
  - by apply run_wait_inv.
  - by apply outside_inv.
  - by apply new_waitable_inv.
  - by apply new_set_inv.
  - by apply remove_waitable_inv.
  - by eapply remove_set_inv.
  - by eapply reserve_inv.
  - by eapply abandon_inv.
  - by eapply commit_inv.
  - by eapply destroy_inv.
  - eapply redone_put; [done|eassumption|by apply moved_subtask].
  - eapply redone_put; [done|eassumption|by apply moved_endpoint].
  - eapply redone_put; [done|eassumption|by apply published_subtask].
  - eapply redone_put; [done|eassumption|apply redone_failure].
  - eapply redone_put; [done|eassumption|apply redone_delivering].
Qed.

(** A table in which nothing of ours is registered yet. *)
Definition unused (w : world) : Prop :=
  world_wf w /\ forall h i e, entry_get (w_table w) h = Some (i, e) -> own_kind (kind e) = false.

Lemma unused_inv w : unused w -> ainv (mk_astate w ∅ ∅).
Proof.
  intros [Hw Ho]. split; simpl; try done.
  - intros h i e E Hk. apply own_waitable in Hk. rewrite (Ho _ _ _ E) in Hk. done.
  - intros h i e E Hk. specialize (Ho _ _ _ E). by rewrite Hk in Ho.
  - intros h h' i i' e e' E _ Hk. apply own_waitable in Hk. rewrite (Ho _ _ _ E) in Hk. done.
Qed.

Lemma asteps_inv s s' : rtc astep s s' -> ainv s -> ainv s'.
Proof. induction 1 as [|s s1 s' Hs _ IH]; [done|]. intros Hi. by apply IH, (astep_inv s). Qed.

(** ** Which member a poll serves *)

(** The slots before [j] in a scan that starts at [start] and wraps around. *)
Definition turns (cap start j : Z) : Z := if start <=? j then j - start else cap - start + j.

(** The [d]-th slot of such a scan. *)
Definition walk (cap start d : Z) : Z := if start + d <? cap then start + d else start + d - cap.

Lemma turns_walk cap start j : 0 <= start < cap -> 0 <= j < cap -> 0 <= turns cap start j < cap /\ walk cap start (turns cap start j) = j.
Proof. intros. unfold turns, walk. destruct (Z.leb_spec start j), (Z.ltb_spec (start + (if start <=? j then j - start else cap - start + j)) cap);
  destruct (Z.leb_spec start j), (Z.ltb_spec (start + (j - start)) cap), (Z.ltb_spec (start + (cap - start + j)) cap); lia. Qed.

Lemma walk_turns cap start d : 0 <= start < cap -> 0 <= d < cap -> 0 <= walk cap start d < cap /\ turns cap start (walk cap start d) = d.
Proof. intros. unfold turns, walk. destruct (Z.ltb_spec (start + d) cap); [destruct (Z.leb_spec start (start + d))|destruct (Z.leb_spec start (start + d - cap))]; lia. Qed.

Lemma next_index_walk s i : world_wf (a_world s) -> 0 <= i < capacity (table s) -> next_index s i = walk (capacity (table s)) i 1.
Proof.
  intros [Hwf _] Hi. pose proof (tw_bound _ Hwf). pose proof (tw_max _ Hwf). unfold MAX_SLOTS in *.
  unfold next_index, walk. rewrite wrap_id by (unfold is_uint; lia).
  destruct (Z.eqb_spec (i + 1) (capacity (table s))), (Z.ltb_spec (i + 1) (capacity (table s))); lia.
Qed.

Lemma walk_next cap start d : 0 <= start < cap -> 0 <= d -> d + 1 < cap -> walk cap (walk cap start 1) d = walk cap start (d + 1).
Proof.
  intros. unfold walk. destruct (Z.ltb_spec (start + 1) cap); repeat match goal with |- context [?a <? ?b] => destruct (Z.ltb_spec a b) end; lia.
Qed.

Lemma poll_scan_spec s set n : forall start, world_wf (a_world s) -> 0 <= start < capacity (table s) -> Z.of_nat n <= capacity (table s) ->
  match poll_scan n s set start with
  | None => forall d, 0 <= d < Z.of_nat n -> ready_at s set (walk (capacity (table s)) start d) = None
  | Some (k, found) => exists d, 0 <= d < Z.of_nat n /\ k = walk (capacity (table s)) start d /\ ready_at s set k = Some found /\
      forall d', 0 <= d' < d -> ready_at s set (walk (capacity (table s)) start d') = None
  end.
Proof.
  induction n as [|n IH]; intros start Hwf Hs Hn; cbn [poll_scan]; [intros; lia|].
  assert (H0 : walk (capacity (table s)) start 0 = start) by (unfold walk; destruct (Z.ltb_spec (start + 0) (capacity (table s))); lia).
  destruct (ready_at s set start) as [found|] eqn:E.
  { exists 0. rewrite H0. split; [lia|]. split; [done|]. split; [done|]. intros; lia. }
  rewrite next_index_walk by done. pose proof (walk_turns _ _ 1 Hs) as Hw.
  assert (Hstart : 0 <= walk (capacity (table s)) start 1 < capacity (table s)).
  { unfold walk. destruct (Z.ltb_spec (start + 1) (capacity (table s))); lia. }
  specialize (IH _ Hwf Hstart ltac:(lia)). destruct (poll_scan n s set _) as [[k found]|].
  - destruct IH as (d & Hd & -> & Hr & Hb). rewrite walk_next in * by lia. exists (d + 1). split; [lia|]. split; [done|]. split; [done|].
    intros d' Hd'. destruct (Z.eq_dec d' 0) as [->|]; [by rewrite H0|]. specialize (Hb (d' - 1) ltac:(lia)).
    rewrite walk_next in Hb by lia. by replace (d' - 1 + 1) with d' in Hb by lia.
  - intros d Hd. destruct (Z.eq_dec d 0) as [->|]; [by rewrite H0|]. specialize (IH (d - 1) ltac:(lia)).
    rewrite walk_next in IH by lia. by replace (d - 1 + 1) with d in IH by lia.
Qed.

Definition any_ready (s : astate) (set : Z) : Prop := exists j, 0 <= j < capacity (table s) /\ ready_at s set j <> None.

Lemma some_ready s set : world_wf (a_world s) -> some_waitable (fun w _ => ready_member w set) s = true <-> any_ready s set.
Proof.
  intros [Hwf _]. pose proof (tw_capacity _ Hwf) as Hc. unfold some_waitable, any_ready, ready_at. rewrite existsb_exists. split.
  - intros (i & Hin & E). apply in_seq in Hin. exists (Z.of_nat i). split; [lia|]. repeat case_match; done.
  - intros (i & Hin & E). exists (Z.to_nat i). split; [apply in_seq; lia|]. rewrite Z2Nat.id by lia. repeat case_match; done.
Qed.

Lemma poll_start_range s set ps st : ainv s -> get_set this s set = Some (ps, st) -> 0 < capacity (table s) ->
  0 <= poll_start s st < capacity (table s).
Proof.
  intros Hi E Hc. apply get_set_inv in E as (Hs & _). pose proof (so_next _ _ _ (ai_sets _ Hi _ _ Hs)).
  unfold poll_start. destruct (Z.ltb_spec (next_slot st) (capacity (table s))); lia.
Qed.

(** The scan of a poll: the ready slot that comes first, or none. *)
Lemma scan_first s set ps st : ainv s -> get_set this s set = Some (ps, st) ->
  let cap := capacity (table s) in
  match poll_scan (Z.to_nat cap) s set (poll_start s st) with
  | None => ~ any_ready s set
  | Some (k, found) => 0 <= k < cap /\ ready_at s set k = Some found /\
      forall j, 0 <= j < cap -> ready_at s set j <> None -> turns cap (poll_start s st) k <= turns cap (poll_start s st) j
  end.
Proof.
  intros Hi E cap. assert (Hcap : 0 <= cap) by (unfold cap; rewrite (tw_capacity _ (proj1 (ai_world _ Hi))); lia).
  destruct (Z.eq_dec cap 0) as [Hz|Hz]. { rewrite Hz. simpl. intros (j & Hj & _). fold cap in Hj. lia. }
  pose proof (poll_start_range _ _ _ _ Hi E ltac:(fold cap; lia)) as Hr. fold cap in Hr.
  pose proof (poll_scan_spec s set (Z.to_nat cap) (poll_start s st) (ai_world _ Hi) Hr ltac:(fold cap; lia)) as Hs. fold cap in Hs.
  destruct (poll_scan _ _ _ _) as [[k found]|].
  - destruct Hs as (d & Hd & -> & Hf & Hb). destruct (walk_turns cap (poll_start s st) d Hr ltac:(lia)) as [Hk Ht].
    split; [done|]. split; [done|]. intros j Hj Hjr. rewrite Ht. destruct (turns_walk cap (poll_start s st) j Hr Hj) as [Htj Hwj].
    destruct (Z.le_gt_cases d (turns cap (poll_start s st) j)); [done|]. destruct Hjr. rewrite <- Hwj. apply Hb. lia.
  - intros (j & Hj & Hjr). fold cap in Hj. destruct (turns_walk cap (poll_start s st) j Hr Hj) as [Htj Hwj]. apply Hjr. rewrite <- Hwj. apply Hs. lia.
Qed.

Lemma ready_inv s set j p w k : ready_at s set j = Some (p, w, k) ->
  waitables s !! p = Some w /\ ready_member w set = true.
Proof. unfold ready_at. intros E. repeat case_match; by simplify_eq. Qed.

(** A ready member has something to say. *)
Lemma ready_pending w set : ready_member w set = true -> failure w <> TURBOWASM_OK \/ pending (wt_state w) = true.
Proof.
  unfold ready_member. rewrite !andb_true_iff, orb_true_iff. intros [_ [Hf|Hp]]; [left|by right].
  by apply negb_true_iff, bool_decide_eq_false in Hf.
Qed.

(** The set after the poll. *)
Definition advanced (st : turbowasm_component_waitable_set) (n : Z) : turbowasm_component_waitable_set :=
  mk_set (ws_table st) (ws_handle st) (wait_count st) n.

(** What becomes of a poll that found the ready member [w]. *)
Definition poll_outcome (w : turbowasm_component_waitable) (st : turbowasm_status) (ev : option turbowasm_component_event) : Prop :=
  (failure w <> TURBOWASM_OK /\ st = failure w /\ ev = None) \/
  (st = TURBOWASM_OK /\ exists code payload, code <> EVENT_NONE /\ ev = Some (mk_event code (wt_handle w) payload)) \/
  (st <> TURBOWASM_OK /\ ev = None /\ exists f c s1 s2, release_pending w = Some f /\ callback f c s1 = (st, s2)).

Lemma get_set_after s s' set ps st st' : ainv s -> get_set this s set = Some (ps, st) -> sets s' !! ps = Some st' ->
  ws_table st' = ws_table st -> ws_handle st' = ws_handle st -> a_world s' = a_world s \/ outside (a_world s) (a_world s') ->
  get_set this s' set = Some (ps, st').
Proof.
  intros Hi E Hs' Ht Hh Hw. pose proof (get_set_inv _ _ _ _ E) as (Hs & Hst & Hsh & i & e & Eg & Ho & Hk).
  assert (Eg' : entry_get (table s') set = Some (i, e)).
  { destruct Hw as [->|Hw]; [done|]. apply (os_own _ _ Hw); [by rewrite Hk|done]. }
  unfold get_set, turbowasm_component_handle_object. rewrite Eg', bool_decide_eq_true_2 by done. simpl. rewrite Ho, Hs', Ht, Hh, Hst, Hsh, !Z.eqb_refl.
  destruct (Z.eqb_spec ps NULL) as [->|]; [|done]. by destruct (so_address _ _ _ (ai_sets _ Hi _ _ Hs)).
Qed.

Lemma poll_spec s set ps st k p w kd status ev s' : ainv s -> get_set this s set = Some (ps, st) ->
  poll_scan (Z.to_nat (capacity (table s))) s set (poll_start s st) = Some (k, (p, w, kd)) -> ready_at s set k = Some (p, w, kd) ->
  turbowasm_component_waitable_set_poll this callback set s = (status, ev, s') ->
  poll_outcome w status ev /\ get_set this s' set = Some (ps, advanced st (next_index s k)) /\
  (a_world s' = a_world s \/ outside (a_world s) (a_world s')).
Proof.
  intros Hi E Hscan Hr. unfold turbowasm_component_waitable_set_poll. rewrite E, Hscan. intros Et.
  destruct (ready_inv _ _ _ _ _ _ Hr) as [Hw Hrm]. pose proof (get_set_inv _ _ _ _ E) as (Hs & _).
  pose proof (put_set_same s set ps st (next_index s k) (wait_count st) Hi E (next_index_nonneg s k) (so_count _ _ _ (ai_sets _ Hi _ _ Hs))) as Hi'.
  destruct (take_event_spec _ _ _ _ _ _ _ Hi' Hw Et) as ([_ Hsets _ Hwld] & _ & Ho). split.
  - unfold poll_outcome. destruct Ho as [?|[(Hf & Hp & _)|(_ & _ & Ho)]]; [by left| |right; by destruct Ho; [left|right]].
    destruct (ready_pending _ _ Hrm); congruence.
  - split; [|done]. eapply (get_set_after s); [done|done| |done|done|exact Hwld]. rewrite Hsets. simpl. by rewrite lookup_insert_eq.
Qed.

(** *** Fairness *)

(** The progress of a scan towards the slot [j], in a table of at most [limit] slots. *)
Definition distance (limit next j : Z) : Z := if next <=? j then j - next else limit - next + j.

(** Between two polls anything may happen that leaves the set in place and does
    not move where its scan resumes. *)
Definition resumes (set : Z) (s s' : astate) : Prop :=
  max_entries (table s') = max_entries (table s) /\ capacity (table s) <= capacity (table s') /\
  forall ps st, get_set this s set = Some (ps, st) ->
    exists st', get_set this s' set = Some (ps, st') /\ next_slot st' = next_slot st.

(** [n] polls in a row that served other slots while the slot [j] was ready. *)
Inductive overtaken (set j : Z) : nat -> astate -> Prop :=
  | overtaken_none s : ainv s -> overtaken set j 0 s
  | overtaken_once n s ps st k found s' : ainv s -> get_set this s set = Some (ps, st) ->
      0 <= j < capacity (table s) -> ready_at s set j <> None ->
      poll_scan (Z.to_nat (capacity (table s))) s set (poll_start s st) = Some (k, found) -> k <> j ->
      resumes set (snd (turbowasm_component_waitable_set_poll this callback set s)) s' ->
      overtaken set j n s' -> overtaken set j (S n) s.

Lemma distance_decreases cap limit start j k : 0 <= start < cap -> cap <= limit -> 0 <= j < cap -> 0 <= k < cap -> k <> j ->
  turns cap start k <= turns cap start j -> distance limit (walk cap k 1) j < distance limit start j.
Proof.
  intros. unfold distance, turns, walk in *.
  repeat match goal with
  | |- context [?a <? ?b] => destruct (Z.ltb_spec a b)
  | |- context [?a <=? ?b] => destruct (Z.leb_spec a b)
  | H : context [?a <=? ?b] |- _ => destruct (Z.leb_spec a b)
  end; lia.
Qed.

Lemma overtaken_bound set j n s : overtaken set j n s -> (0 < n)%nat -> forall ps st, get_set this s set = Some (ps, st) ->
  Z.of_nat n <= distance (max_entries (table s)) (poll_start s st) j.
Proof.
  induction 1 as [s Hi|n s ps st k found s' Hi E Hj Hjr Hscan Hk Hres Hover IH]; [lia|]. intros _ ps0 st0 E0.
  rewrite E in E0. injection E0 as <- <-. pose proof (scan_first s set ps st Hi E) as Hfirst. cbv zeta in Hfirst. rewrite Hscan in Hfirst.
  destruct Hfirst as (Hkr & Hf & Hmin). destruct found as [[p w] kd].
  destruct (turbowasm_component_waitable_set_poll this callback set s) as [[status ev] s1] eqn:Epoll.
  destruct (poll_spec _ _ _ _ _ _ _ _ _ _ _ Hi E Hscan Hf Epoll) as (_ & E1 & Hw). simpl in Hres.
  destruct Hres as (Hm & Hc & Hres). destruct (Hres _ _ E1) as (st' & E' & Hn). simpl in Hn.
  pose proof (tw_bound _ (proj1 (ai_world _ Hi))) as Hb.
  assert (Hcap : capacity (table s) <= capacity (table s1) /\ max_entries (table s1) = max_entries (table s)).
  { destruct Hw as [->|[]]; [lia|done]. }
  pose proof (poll_start_range _ _ _ _ Hi E ltac:(lia)) as Hr.
  rewrite next_index_walk in Hn by (apply Hi || done).
  assert (Hwr : 0 <= walk (capacity (table s)) k 1 < capacity (table s)).
  { unfold walk. destruct (Z.ltb_spec (k + 1) (capacity (table s))); lia. }
  assert (Hstart : poll_start s' st' = walk (capacity (table s)) k 1).
  { unfold poll_start. rewrite Hn. destruct (Z.ltb_spec (walk (capacity (table s)) k 1) (capacity (table s'))); lia. }
  pose proof (distance_decreases _ (max_entries (table s)) _ j k Hr Hb Hj Hkr Hk (Hmin j Hj Hjr)) as Hd.
  destruct n as [|n].
  - assert (Hpos : 0 <= distance (max_entries (table s)) (walk (capacity (table s)) k 1) j).
    { unfold distance. destruct (Z.leb_spec (walk (capacity (table s)) k 1) j); lia. }
    lia.
  - specialize (IH ltac:(lia) _ _ E'). rewrite Hstart, Hm in IH. destruct Hcap as [_ Hcap]. rewrite Hcap in IH. lia.
Qed.

End Callback.

End Invariant.

(** ** Properties *)

(** C20. Waitables, sets and the handle table stay consistent: from an unused
    table, after any sequence of operations on waitables, of steps of their owners
    (which may register subtasks that have started, move ends between tables,
    reserve handles for ends in transit, record failures during a cleanup and
    destroy subtasks) and of the other users of the table, every handle of a set
    or a waitable leads to an object that knows this table and this handle, or is
    the only handle of a waitable in transit that is not registered; a registered
    object's handle leads back to it, a waitable that joined a set names a set that
    still exists, one that is waited for synchronously is in no set, and every
    state is one its protocol can reach. *)
Theorem waitables_consistent this callback w s : this <> NULL -> callback_ok callback -> unused w ->
  rtc (astep this callback) (mk_astate w ∅ ∅) s -> ainv this s.
Proof. intros Hthis Hcb Hw Hs. eapply asteps_inv; [exact Hthis|exact Hcb|exact Hs|]. by apply unused_inv. Qed.

(** C21. A poll of a waitable set is exact: it returns the empty event, and changes
    nothing, precisely when the query for readiness says no; otherwise it serves
    the ready member that comes first after the one served last, the slots taken
    as a ring, and reports an event of that member, the failure of its owner, or
    the failure of its cleanup. *)
Theorem set_poll_exact this callback s set ps st : this <> NULL -> callback_ok callback -> ainv this s -> get_set this s set = Some (ps, st) ->
  let cap := capacity (table s) in
  (turbowasm_component_waitable_set_ready this set s = (TURBOWASM_OK, Some false) /\
   turbowasm_component_waitable_set_poll this callback set s = (TURBOWASM_OK, Some no_event, s)) \/
  (turbowasm_component_waitable_set_ready this set s = (TURBOWASM_OK, Some true) /\
   exists k p w kd, 0 <= k < cap /\ ready_at s set k = Some (p, w, kd) /\
     (forall j, 0 <= j < cap -> ready_at s set j <> None -> turns cap (poll_start s st) k <= turns cap (poll_start s st) j) /\
     let '(status, ev, s') := turbowasm_component_waitable_set_poll this callback set s in
     poll_outcome callback w status ev /\ get_set this s' set = Some (ps, advanced st (next_index s k))).
Proof.
  intros Hthis Hcb Hi E cap. pose proof (scan_first this s set ps st Hi E) as Hs. cbv zeta in Hs. fold cap in Hs.
  unfold turbowasm_component_waitable_set_ready. rewrite E. pose proof (some_ready s set (ai_world _ _ Hi)) as Hr.
  destruct (poll_scan (Z.to_nat cap) s set (poll_start s st)) as [[k [[p w] kd]]|] eqn:Hscan.
  - destruct Hs as (Hk & Hf & Hmin). right. rewrite (proj2 Hr) by (exists k; split; [done|by rewrite Hf]). split; [done|].
    exists k, p, w, kd. split; [done|]. split; [done|]. split; [done|].
    destruct (turbowasm_component_waitable_set_poll this callback set s) as [[status ev] s'] eqn:Ep.
    destruct (poll_spec this Hthis callback Hcb _ _ _ _ _ _ _ _ _ _ _ Hi E Hscan Hf Ep) as (Ho & Hg & _). done.
  - left. destruct (some_waitable _ s); [by destruct Hs; apply Hr|]. split; [done|].
    unfold turbowasm_component_waitable_set_poll. rewrite E. fold cap. by rewrite Hscan.
Qed.

(** C19. No ready member of a set starves: while a slot is ready, polls of its set
    can serve other slots at most as often as the table may have other slots,
    whatever happens between the polls, the growth of the table included. *)
Theorem poll_is_fair this callback set j n s : this <> NULL -> callback_ok callback -> overtaken this callback set j n s ->
  Z.of_nat n < max_entries (table s).
Proof.
  intros Hthis Hcb Ho. assert (Hi : ainv this s) by (by destruct Ho). destruct n as [|n].
  - pose proof (tw_max _ (proj1 (ai_world _ _ Hi))). lia.
  - assert (Hs : exists ps st, get_set this s set = Some (ps, st) /\ 0 <= j < capacity (table s)) by (inversion Ho; subst; eauto).
    destruct Hs as (ps & st & E & Hj). pose proof (overtaken_bound this Hthis callback Hcb _ _ _ _ Ho ltac:(lia) _ _ E) as Hb.
    pose proof (tw_bound _ (proj1 (ai_world _ _ Hi))). pose proof (poll_start_range this _ _ _ _ Hi E ltac:(lia)).
    unfold distance in Hb. destruct (Z.leb_spec (poll_start s st) j); lia.
Qed.

(** ** Witnesses *)

Definition no_cleanup : Z -> Z -> astate -> turbowasm_status * astate := fun _ _ s => (TURBOWASM_OK, s).

Lemma no_cleanup_ok : callback_ok no_cleanup.
Proof. intros f c s st s' Hw [= <- <-]. split; [intros p; apply refailed_refl|]. split; [done|]. split; [done|lia|done|done]. Qed.

Definition fresh_world : world := mk_world (mk_table [] 0 0 4) ∅.

Lemma fresh_unused : unused fresh_world.
Proof.
  assert (Hw : world_wf fresh_world).
  { split; [split; simpl; try done; unfold MAX_SLOTS; lia|]. intros p _. unfold scope_get. simpl. rewrite lookup_empty. simpl. by unfold is_uint. }
  split; [done|]. intros h i e E. apply entry_get_iff in E as (_ & E & _); [|apply Hw]. change (([] : list turbowasm_component_resource_entry) !! Z.to_nat i = Some e) in E. by rewrite lookup_nil in E.
Qed.

(** A set, a subtask and a stream end; both join the set and have news. *)
Definition demo_ops : list (astate -> astate) :=
  let op o := run_wait 8 no_cleanup 72 (fun _ => true) o in
  let move p f s := match waitables s !! p with Some w => put_waitable p (with_state (f (wt_state w)) w) s | None => s end in
  let sub o st := match st with state_subtask e => state_subtask (snd (subtask_step o e)) | _ => st end in
  let fin o st := match st with state_endpoint e => state_endpoint (snd (endpoint_step o e)) | _ => st end in
  [ put_set 100 (mk_set NULL 0 0 0);
    put_waitable 200 (mk_waitable NULL 0 0 false false TURBOWASM_OK (zero_state HANDLE_SUBTASK) None 0);
    put_waitable 300 (mk_waitable NULL 0 0 false false TURBOWASM_OK (zero_state HANDLE_STREAM_READ) None 0);
    op (op_set_register 100); op (op_register HANDLE_SUBTASK 200); op (op_register HANDLE_STREAM_READ 300);
    op (op_join 65538 65537); op (op_join 65539 65537);
    move 200 (sub sub_start); move 300 (fin end_begin); move 300 (fin (end_notify 3)) ].

Definition demo_after (n : nat) : astate := foldl (fun s f => f s) (mk_astate fresh_world ∅ ∅) (take n demo_ops).
Definition demo_ready : astate := demo_after 11.

Definition demo_sub : turbowasm_component_waitable :=
  mk_waitable 8 65538 65537 false false TURBOWASM_OK (state_subtask zero_subtask) None 0.
Definition demo_end (st : turbowasm_component_endpoint_state) : turbowasm_component_waitable :=
  mk_waitable 8 65539 65537 false false TURBOWASM_OK (state_endpoint st) None 0.
Definition demo_copying : turbowasm_component_endpoint_state := mk_endpoint ENDPOINT_COPYING 0 false false false.

Lemma demo_sub_at : waitables (demo_after 8) !! 200 = Some demo_sub.
Proof. vm_compute. reflexivity. Qed.
Lemma demo_end_at : waitables (demo_after 9) !! 300 = Some (demo_end (zero_endpoint false)).
Proof. vm_compute. reflexivity. Qed.
Lemma demo_copying_at : waitables (demo_after 10) !! 300 = Some (demo_end demo_copying).
Proof. vm_compute. reflexivity. Qed.
Lemma demo_join_sub : demo_after 7 = run_wait 8 no_cleanup 72 (fun _ => true) (op_join 65538 65537) (demo_after 6).
Proof. vm_compute. reflexivity. Qed.
Lemma demo_join_end : demo_after 8 = run_wait 8 no_cleanup 72 (fun _ => true) (op_join 65539 65537) (demo_after 7).
Proof. vm_compute. reflexivity. Qed.
Lemma demo_start : demo_after 9 = put_waitable 200 (with_state (state_subtask (snd (subtask_step sub_start zero_subtask))) demo_sub) (demo_after 8).
Proof. vm_compute. reflexivity. Qed.
Lemma demo_begin : demo_after 10 =
  put_waitable 300 (with_state (state_endpoint (snd (endpoint_step end_begin (zero_endpoint false)))) (demo_end (zero_endpoint false))) (demo_after 9).
Proof. vm_compute. reflexivity. Qed.
Lemma demo_notify : demo_after 11 =
  put_waitable 300 (with_state (state_endpoint (snd (endpoint_step (end_notify 3) demo_copying))) (demo_end demo_copying)) (demo_after 10).
Proof. vm_compute. reflexivity. Qed.

Lemma zero_state_ok k : state_ok (zero_state k).
Proof. unfold zero_state. case_bool_decide; exists []; [by left|apply zero_endpoint_inv]. Qed.

Lemma unreferenced t p : forallb (fun e => negb (waitable_kind (kind e) && (object e =? p))) (entries t) = true -> ~ referenced t p.
Proof.
  rewrite forallb_forall. intros Ha (h & i & e & E & Hk & Ho). unfold entry_get in E.
  destruct (handle_decode h) as [[index gen]|]; [|done]. destruct (_ >=? _); [done|].
  destruct (entries t !! Z.to_nat index) as [e'|] eqn:El; [|done]. destruct (_ || _); [done|]. injection E as _ <-.
  specialize (Ha e'). rewrite Hk, Ho, Z.eqb_refl in Ha. discriminate Ha. by apply list_elem_of_In, (list_elem_of_lookup_2 _ (Z.to_nat index)).
Qed.

Lemma demo_steps : rtc (astep 8 no_cleanup) (mk_astate fresh_world ∅ ∅) demo_ready.
Proof.
  assert (Hstep : forall n, (n < 11)%nat -> astep 8 no_cleanup (demo_after n) (demo_after (S n))).
  { intros n Hn. destruct n as [|[|[|[|[|[|[|[|[|[|[|n]]]]]]]]]]]; [..|lia]; clear Hn.
    - exact (step_new_set 8 no_cleanup (demo_after 0) 100 ltac:(discriminate) eq_refl).
    - exact (step_new_waitable 8 no_cleanup (demo_after 1) 200 false TURBOWASM_OK (zero_state HANDLE_SUBTASK) None 0
        ltac:(discriminate) eq_refl (zero_state_ok _)).
    - exact (step_new_waitable 8 no_cleanup (demo_after 2) 300 false TURBOWASM_OK (zero_state HANDLE_STREAM_READ) None 0
        ltac:(discriminate) eq_refl (zero_state_ok _)).
    - exact (step_operation 8 no_cleanup (demo_after 3) 72 (fun _ => true) (op_set_register 100) I).
    - refine (step_operation 8 no_cleanup (demo_after 4) 72 (fun _ => true) (op_register HANDLE_SUBTASK 200) _).
      intros w Hw. vm_compute in Hw. injection Hw as <-. split; [reflexivity|]. intros _. apply unreferenced. vm_compute. reflexivity.
    - refine (step_operation 8 no_cleanup (demo_after 5) 72 (fun _ => true) (op_register HANDLE_STREAM_READ 300) _).
      intros w Hw. vm_compute in Hw. injection Hw as <-. split; [split; [discriminate|left; reflexivity]|].
      intros _. apply unreferenced. vm_compute. reflexivity.
    - rewrite demo_join_sub. exact (step_operation 8 no_cleanup (demo_after 6) 72 (fun _ => true) (op_join 65538 65537) I).
    - rewrite demo_join_end. exact (step_operation 8 no_cleanup (demo_after 7) 72 (fun _ => true) (op_join 65539 65537) I).
    - rewrite demo_start. exact (step_subtask 8 no_cleanup (demo_after 8) 200 demo_sub _ sub_start demo_sub_at eq_refl).
    - rewrite demo_begin. exact (step_endpoint 8 no_cleanup (demo_after 9) 300 (demo_end _) _ end_begin demo_end_at eq_refl I).
    - rewrite demo_notify. refine (step_endpoint 8 no_cleanup (demo_after 10) 300 (demo_end _) _ (end_notify 3) demo_copying_at eq_refl _).
      simpl. lia. }
  change (mk_astate fresh_world ∅ ∅) with (demo_after 0). unfold demo_ready.
  do 11 (eapply rtc_l; [apply Hstep; lia|]). apply rtc_refl.
Qed.

Lemma demo_inv : ainv 8 demo_ready.
Proof. exact (asteps_inv 8 ltac:(discriminate) no_cleanup no_cleanup_ok _ _ demo_steps (unused_inv 8 _ fresh_unused)). Qed.

Lemma waitables_consistent_witness : ainv 8 demo_ready.
Proof. exact (waitables_consistent 8 no_cleanup fresh_world demo_ready ltac:(discriminate) no_cleanup_ok fresh_unused demo_steps). Defined.

Definition demo_set : turbowasm_component_waitable_set := mk_set 8 65537 0 0.

Lemma demo_get_set : get_set 8 demo_ready 65537 = Some (100, demo_set).
Proof. vm_compute. reflexivity. Qed.

(** The subtask in slot 1 comes before the stream in slot 2. *)
Lemma demo_poll : (turbowasm_component_waitable_set_poll 8 no_cleanup 65537 demo_ready).1 =
  (TURBOWASM_OK, Some (mk_event EVENT_SUBTASK 65538 SUBTASK_STARTED)).
Proof. vm_compute. reflexivity. Qed.

Lemma set_poll_exact_witness : turbowasm_component_waitable_set_ready 8 65537 demo_ready = (TURBOWASM_OK, Some true).
Proof.
  destruct (set_poll_exact 8 no_cleanup demo_ready 65537 100 demo_set ltac:(discriminate) no_cleanup_ok demo_inv demo_get_set)
    as [[_ Hp]|[Hr _]]; [|exact Hr].
  exfalso. pose proof demo_poll as Hd. rewrite Hp in Hd. discriminate Hd.
Defined.

Lemma demo_scan : exists found, poll_scan (Z.to_nat (capacity (table demo_ready))) demo_ready 65537 (poll_start demo_ready demo_set) = Some (1, found).
Proof. eexists. vm_compute. reflexivity. Qed.

Lemma demo_second : 0 <= 2 < capacity (table demo_ready) /\ ready_at demo_ready 65537 2 <> None.
Proof. split; [vm_compute; split; [discriminate|reflexivity]|vm_compute; discriminate]. Qed.

Lemma demo_overtaken : overtaken 8 no_cleanup 65537 2 1 demo_ready.
Proof.
  destruct demo_scan as [found Hs]. destruct demo_second as [Hj Hr].
  eapply overtaken_once; [exact demo_inv|exact demo_get_set|exact Hj|exact Hr|exact Hs|discriminate| |apply overtaken_none].
  - split; [reflexivity|]. split; [apply Z.le_refl|]. intros ps st E. exists st. split; [exact E|reflexivity].
  - exact (poll_inv 8 ltac:(discriminate) no_cleanup no_cleanup_ok 65537 demo_ready demo_inv).
Qed.

Lemma poll_is_fair_witness : 1 < max_entries (table demo_ready).
Proof. exact (poll_is_fair 8 no_cleanup 65537 2 1 demo_ready ltac:(discriminate) no_cleanup_ok demo_overtaken). Defined.

End WaitableInv.
