(* ===== verification/IntOps.v ===== *)
(** * Integer helpers of the interpreter (src/instance.c)

    Arithmetic shift, rotations and the bit-counting functions, as the source
    computes them on 32- and 64-bit words, against their meaning on bits. *)

From S2P Require Import Prelude.

Module IntOps.

(** ** Shifts and rotations *)

Definition turbowasm_sar32 (value shift : Z) : Z :=
  let bits := u32 value in
  let shift := shift .& 31 in
  if shift =? 0 then value
  else if value >=? 0 then s32 (bits ≫ shift)
  else s32 ((bits ≫ shift) .| u32 (UINT32_MAX ≪ (32 - shift))).

Definition turbowasm_sar64 (value shift : Z) : Z :=
  let bits := u64 value in
  let shift := shift .& 63 in
  if shift =? 0 then value
  else if value >=? 0 then s64 (bits ≫ shift)
  else s64 ((bits ≫ shift) .| u64 (UINT64_MAX ≪ (64 - shift))).

Definition turbowasm_rotl32 (value shift : Z) : Z :=
  let shift := shift .& 31 in
  if shift =? 0 then value else u32 (value ≪ shift) .| (value ≫ (32 - shift)).

Definition turbowasm_rotr32 (value shift : Z) : Z :=
  let shift := shift .& 31 in
  if shift =? 0 then value else (value ≫ shift) .| u32 (value ≪ (32 - shift)).

Definition turbowasm_rotl64 (value shift : Z) : Z :=
  let shift := shift .& 63 in
  if shift =? 0 then value else u64 (value ≪ shift) .| (value ≫ (64 - shift)).

Definition turbowasm_rotr64 (value shift : Z) : Z :=
  let shift := shift .& 63 in
  if shift =? 0 then value else (value ≫ shift) .| u64 (value ≪ (64 - shift)).

(** ** Counting zeros

    One [if] of the binary search: the count and the word after it. *)

Definition clz_step (w mask k : Z) (cv : Z * Z) : Z * Z :=
  let '(count, value) := cv in
  if value .& mask =? 0 then (count + k, wrap w (value ≪ k)) else (count, value).

Definition ctz_step (mask k : Z) (cv : Z * Z) : Z * Z :=
  let '(count, value) := cv in
  if value .& mask =? 0 then (count + k, value ≫ k) else (count, value).

Definition turbowasm_clz32 (value : Z) : Z :=
  if value =? 0 then 32
  else
    let cv := clz_step 32 0xffff0000 16 (0, value) in
    let cv := clz_step 32 0xff000000 8 cv in
    let cv := clz_step 32 0xf0000000 4 cv in
    let '(count, value) := clz_step 32 0xc0000000 2 cv in
    if value .& 0x80000000 =? 0 then count + 1 else count.

Definition turbowasm_clz64 (value : Z) : Z :=
  if value =? 0 then 64
  else
    let cv := clz_step 64 0xffffffff00000000 32 (0, value) in
    let cv := clz_step 64 0xffff000000000000 16 cv in
    let cv := clz_step 64 0xff00000000000000 8 cv in
    let cv := clz_step 64 0xf000000000000000 4 cv in
    let '(count, value) := clz_step 64 0xc000000000000000 2 cv in
    if value .& 0x8000000000000000 =? 0 then count + 1 else count.

Definition turbowasm_ctz32 (value : Z) : Z :=
  if value =? 0 then 32
  else
    let cv := ctz_step 0x0000ffff 16 (0, value) in
    let cv := ctz_step 0x000000ff 8 cv in
    let cv := ctz_step 0x0000000f 4 cv in
    let '(count, value) := ctz_step 0x00000003 2 cv in
    if value .& 0x00000001 =? 0 then count + 1 else count.

Definition turbowasm_ctz64 (value : Z) : Z :=
  if value =? 0 then 64
  else
    let cv := ctz_step 0x00000000ffffffff 32 (0, value) in
    let cv := ctz_step 0x000000000000ffff 16 cv in
    let cv := ctz_step 0x00000000000000ff 8 cv in
    let cv := ctz_step 0x000000000000000f 4 cv in
    let '(count, value) := ctz_step 0x0000000000000003 2 cv in
    if value .& 0x0000000000000001 =? 0 then count + 1 else count.

(** ** Counting ones *)

Definition turbowasm_popcnt32 (value : Z) : Z :=
  let value := u32 (value - ((value ≫ 1) .& 0x55555555)) in
  let value := u32 ((value .& 0x33333333) + ((value ≫ 2) .& 0x33333333)) in
  let value := u32 (value + (value ≫ 4)) .& 0x0f0f0f0f in
  u32 (value * 0x01010101) ≫ 24.

Definition turbowasm_popcnt64 (value : Z) : Z :=
  let value := u64 (value - ((value ≫ 1) .& 0x5555555555555555)) in
  let value := u64 ((value .& 0x3333333333333333) + ((value ≫ 2) .& 0x3333333333333333)) in
  let value := u64 (value + (value ≫ 4)) .& 0x0f0f0f0f0f0f0f0f in
  u64 (value * 0x0101010101010101) ≫ 56.

(** ** Shifts: correctness *)

Lemma shiftr_uint w z n : 0 <= n -> is_uint w z -> is_uint w (z ≫ n).
Proof.
  intros Hn [H0 Hw]. rewrite Z.shiftr_div_pow2 by lia. pose proof (pow2_pos n Hn).
  split; [apply Z.div_pos; lia|]. apply Z.div_lt_upper_bound; nia.
Qed.

Lemma shiftr_sint w z n : 0 <= n -> is_sint w z -> is_sint w (z ≫ n).
Proof.
  intros Hn [H0 Hw]. rewrite Z.shiftr_div_pow2 by lia. pose proof (pow2_pos n Hn).
  split; [apply Z.div_le_lower_bound; nia|apply Z.div_lt_upper_bound; nia].
Qed.

Lemma testbit_sint w z i : 0 < w -> is_sint w z -> w - 1 <= i -> Z.testbit z i = (z <? 0).
Proof.
  intros Hw [H1 H2] Hi. destruct (Z.ltb_spec z 0).
  - rewrite <- (Z.lnot_involutive z), Z.lnot_spec by lia.
    rewrite (testbit_uint (w - 1)); [done| |done]. unfold Z.lnot. split; lia.
  - apply (testbit_uint (w - 1)); [split; lia|done].
Qed.

(** The common shape of [turbowasm_sar32] and [turbowasm_sar64]. *)
Definition sar (w value shift : Z) : Z :=
  let bits := wrap w value in
  if shift =? 0 then value
  else if value >=? 0 then to_signed w (bits ≫ shift)
  else to_signed w ((bits ≫ shift) .| wrap w ((2 ^ w - 1) ≪ (w - shift))).

Lemma sar_correct w v s : 0 < w -> is_sint w v -> 0 <= s < w -> sar w v s = v ≫ s.
Proof.
  intros Hw Hv Hs. unfold sar. destruct (Z.eqb_spec s 0) as [->|Hs0]; [by rewrite Z.shiftr_0_r|].
  pose proof (shiftr_sint w v s ltac:(lia) Hv) as Hr.
  rewrite Z.geb_leb. destruct (Z.leb_spec 0 v) as [Hpos|Hneg].
  - rewrite <- (to_signed_wrap w (v ≫ s)) by done. f_equal.
    assert (Hu : is_uint w v) by (destruct Hv; split; [lia|]; pose proof (pow2_le (w - 1) w ltac:(lia)); lia).
    rewrite !wrap_id; [done| |done]. by apply shiftr_uint; [lia|].
  - rewrite <- (to_signed_wrap w (v ≫ s)) by done. f_equal.
    apply Z.bits_inj'. intros i Hi. replace (2 ^ w - 1) with (Z.ones w) by (rewrite Z.ones_equiv; lia).
    autorewrite with zbits.
    destruct (Z.ltb_spec i w); simpl.
    + destruct (Z.ltb_spec (i + s) w); simpl.
      * rewrite (Z.testbit_neg_r _ (i - (w - s))) by lia. by rewrite orb_false_r.
      * rewrite Z.testbit_ones_nonneg by lia. rewrite (testbit_sint w) by (done || lia).
        destruct (Z.ltb_spec (i - (w - s)) w), (Z.ltb_spec v 0); done || lia.
    + destruct (Z.ltb_spec (i + s) w); [lia|done].
Qed.

Lemma land_mod z n : 0 <= n -> z .& (2 ^ n - 1) = z mod 2 ^ n.
Proof. intros. rewrite <- Z.land_ones by lia. f_equal. rewrite Z.ones_equiv. lia. Qed.

(** The arithmetic shift built from logical shifts is the floor division by
    a power of two, with the shift amount taken modulo the width. *)
Theorem sar_is_arithmetic_shift v s :
  (is_sint 32 v -> turbowasm_sar32 v s = v / 2 ^ (s mod 32)) /\
  (is_sint 64 v -> turbowasm_sar64 v s = v / 2 ^ (s mod 64)).
Proof.
  pose proof (Z.mod_pos_bound s 32 ltac:(lia)). pose proof (Z.mod_pos_bound s 64 ltac:(lia)).
  split; intros Hv.
  - rewrite <- Z.shiftr_div_pow2, <- (sar_correct 32) by (done || lia).
    unfold turbowasm_sar32. change 31 with (2 ^ 5 - 1). by rewrite land_mod.
  - rewrite <- Z.shiftr_div_pow2, <- (sar_correct 64) by (done || lia).
    unfold turbowasm_sar64. change 63 with (2 ^ 6 - 1). by rewrite land_mod.
Qed.

(** ** Rotations: correctness *)

(** Bit [i] of [v] rotated left by [s]. *)
Lemma rotl_bits w v s i :
  0 <= s < w -> is_uint w v -> 0 <= i < w ->
  Z.testbit (wrap w (v ≪ s) .| (v ≫ (w - s))) i = Z.testbit v ((i - s) mod w).
Proof.
  intros Hs Hv Hi. rewrite Z.lor_spec, testbit_wrap, Z.shiftl_spec, Z.shiftr_spec by lia.
  destruct (Z.ltb_spec i w); [simpl|lia]. destruct (Z.leb_spec s i).
  - rewrite Z.mod_small by lia. rewrite (testbit_uint w v (i + (w - s))) by (done || lia).
    apply orb_false_r.
  - rewrite (Z.testbit_neg_r v (i - s)) by lia.
    rewrite <- (Z_mod_plus_full (i - s) 1), Z.mod_small by lia. simpl. f_equal. lia.
Qed.

Lemma rotr_bits w v s i :
  0 < s < w -> is_uint w v -> 0 <= i < w ->
  Z.testbit ((v ≫ s) .| wrap w (v ≪ (w - s))) i = Z.testbit v ((i + s) mod w).
Proof.
  intros Hs Hv Hi. rewrite Z.lor_comm.
  replace (v ≫ s) with (v ≫ (w - (w - s))) by (f_equal; lia).
  rewrite rotl_bits by (done || lia).
  replace (i - (w - s)) with (i + s + (-1) * w) by lia. by rewrite Z_mod_plus_full.
Qed.

Lemma lor_uint w a b : 0 <= w -> is_uint w a -> is_uint w b -> is_uint w (a .| b).
Proof.
  intros Hw Ha Hb. rewrite <- (wrap_id w a), <- (wrap_id w b), wrap_lor by done. by apply wrap_range.
Qed.

(** The rotations move bit [i - s] (left) or [i + s] (right), indices
    modulo the width, to bit [i], for every shift amount, and stay in range. *)
Theorem rotations_move_bits v s :
  (is_uint 32 v -> is_uint 32 (turbowasm_rotl32 v s) /\ is_uint 32 (turbowasm_rotr32 v s) /\
     forall i, 0 <= i < 32 ->
       Z.testbit (turbowasm_rotl32 v s) i = Z.testbit v ((i - s) mod 32) /\
       Z.testbit (turbowasm_rotr32 v s) i = Z.testbit v ((i + s) mod 32)) /\
  (is_uint 64 v -> is_uint 64 (turbowasm_rotl64 v s) /\ is_uint 64 (turbowasm_rotr64 v s) /\
     forall i, 0 <= i < 64 ->
       Z.testbit (turbowasm_rotl64 v s) i = Z.testbit v ((i - s) mod 64) /\
       Z.testbit (turbowasm_rotr64 v s) i = Z.testbit v ((i + s) mod 64)).
Proof.
  unfold turbowasm_rotl32, turbowasm_rotr32, turbowasm_rotl64, turbowasm_rotr64.
  change 31 with (2 ^ 5 - 1). change 63 with (2 ^ 6 - 1). rewrite !land_mod by lia.
  change (2 ^ 5) with 32. change (2 ^ 6) with 64.
  assert (Hrot : forall w, 0 < w -> is_uint w v ->
    let l := if s mod w =? 0 then v else wrap w (v ≪ (s mod w)) .| (v ≫ (w - s mod w)) in
    let r := if s mod w =? 0 then v else (v ≫ (s mod w)) .| wrap w (v ≪ (w - s mod w)) in
    is_uint w l /\ is_uint w r /\ forall i, 0 <= i < w ->
      Z.testbit l i = Z.testbit v ((i - s) mod w) /\ Z.testbit r i = Z.testbit v ((i + s) mod w)).
  2: { split; intros Hv; [exact (Hrot 32 eq_refl Hv)|exact (Hrot 64 eq_refl Hv)]. }
  intros w Hw Hv. pose proof (Z.mod_pos_bound s w Hw). simpl.
  destruct (Z.eqb_spec (s mod w) 0) as [H0|H0].
  - split_and!; [done|done|]. intros i Hi.
    rewrite <- (Zminus_mod_idemp_r i s), <- (Zplus_mod_idemp_r s i), H0.
    rewrite Z.sub_0_r, Z.add_0_r, Z.mod_small by lia. done.
  - split_and!.
    + apply lor_uint; [lia|apply wrap_range; lia|apply shiftr_uint; [lia|done]].
    + apply lor_uint; [lia|apply shiftr_uint; [lia|done]|apply wrap_range; lia].
    + intros i Hi. rewrite rotl_bits, rotr_bits by (done || lia).
      by rewrite Zminus_mod_idemp_r, Zplus_mod_idemp_r.
Qed.

(** ** Leading zeros: correctness *)

(** [leading w v n]: [v] is a non-zero word of width [w] with [n] leading zeros. *)
Definition leading (w v n : Z) : Prop :=
  is_uint w v /\ 0 <= n < w /\ Z.testbit v (w - 1 - n) = true /\
  forall i, w - n <= i -> Z.testbit v i = false.

Lemma leading_log2 w v n : leading w v n <-> 0 < v < 2 ^ w /\ n = w - 1 - Z.log2 v.
Proof.
  split.
  - intros ([H0 Hw] & Hn & Hb & Hz).
    assert (0 < v).
    { destruct (decide (v = 0)) as [->|]; [by rewrite Z.bits_0 in Hb|lia]. }
    split; [lia|]. destruct (Z.lt_trichotomy (Z.log2 v) (w - 1 - n)) as [Hl|[Hl|Hl]]; [|lia|].
    + rewrite Z.bits_above_log2 in Hb by lia. done.
    + pose proof (Z.bit_log2 v ltac:(lia)) as Hb'. rewrite Hz in Hb' by lia. done.
  - intros [Hv ->]. pose proof (Z.log2_nonneg v). assert (Z.log2 v < w) by (apply Z.log2_lt_pow2; lia).
    split_and!; [split; lia|lia|lia| |].
    + replace (w - 1 - (w - 1 - Z.log2 v)) with (Z.log2 v) by lia. apply Z.bit_log2. lia.
    + intros i Hi. apply Z.bits_above_log2; lia.
Qed.

(** The top [k] bits of a word are clear exactly when the mask test says so. *)
Lemma high_mask_zero w k v :
  0 < k <= w -> is_uint w v ->
  (v .& (Z.ones k ≪ (w - k)) =? 0) = (v <? 2 ^ (w - k)).
Proof.
  intros Hk Hv. apply eq_true_iff_eq. rewrite Z.eqb_eq, Z.ltb_lt. split; intros H.
  - destruct (decide (v = 0)) as [->|]; [apply pow2_pos; lia|].
    apply Z.log2_lt_pow2; [destruct Hv; lia|]. destruct (decide (Z.log2 v < w - k)) as [|Hge]; [done|].
    pose proof (Z.bit_log2 v ltac:(destruct Hv; lia)) as Hb. exfalso.
    assert (Hl : Z.log2 v < w) by (apply Z.log2_lt_pow2; destruct Hv; lia).
    apply (f_equal (fun z => Z.testbit z (Z.log2 v))) in H. revert H.
    rewrite Z.bits_0, Z.land_spec, Z.shiftl_spec, Z.testbit_ones_nonneg, Hb by lia.
    destruct (Z.ltb_spec (Z.log2 v - (w - k)) k); [done|lia].
  - apply Z.bits_inj'. intros i Hi. rewrite Z.bits_0, Z.land_spec, Z.shiftl_spec by lia.
    destruct (decide (w - k <= i)); [|rewrite (Z.testbit_neg_r _ (i - _)) by lia; apply andb_false_r].
    by rewrite (testbit_uint (w - k) v) by (done || destruct Hv; split; lia).
Qed.

(** A step of the search keeps [count + leading zeros] and halves what is left. *)
Lemma clz_step_correct w k count v n :
  0 < k -> 2 * k <= w -> leading w v n -> n < 2 * k ->
  exists count' v' n', clz_step w (Z.ones k ≪ (w - k)) k (count, v) = (count', v') /\
    leading w v' n' /\ n' < k /\ count' + n' = count + n.
Proof.
  intros Hk Hkw Hlead Hn. pose proof Hlead as (Hv & Hn0 & Hb & Hz). unfold clz_step.
  rewrite high_mask_zero by (done || lia).
  apply leading_log2 in Hlead as [Hpos Hlog].
  destruct (Z.ltb_spec v (2 ^ (w - k))) as [Hlt|Hge].
  - apply Z.log2_lt_pow2 in Hlt; [|lia].
    do 3 eexists. split; [done|]. rewrite wrap_id.
    + split; [|split; [|instantiate (1 := n - k); lia]; lia].
      apply leading_log2. rewrite Z.log2_shiftl by lia. split; [|lia].
      rewrite Z.shiftl_mul_pow2 by lia. pose proof (pow2_pos k ltac:(lia)).
      rewrite (pow2_split k w) by lia.
      assert (v < 2 ^ (w - k)) by (apply Z.log2_lt_pow2; lia). nia.
    + rewrite Z.shiftl_mul_pow2 by lia. pose proof (pow2_pos k ltac:(lia)).
      unfold is_uint. rewrite (pow2_split k w) by lia.
      assert (v < 2 ^ (w - k)) by (apply Z.log2_lt_pow2; lia). nia.
  - exists count, v, n. split_and!; [done|by apply leading_log2| |lia].
    assert (w - k <= Z.log2 v) by (by apply Z.log2_le_pow2; [lia|]). lia.
Qed.

(** Runs the next step of a search, naming its result. *)
Ltac clz_next w k :=
  match goal with
  | Hl : leading w ?v ?n |- context [clz_step w _ k (?c, ?v)] =>
      let c' := fresh "c" in let v' := fresh "v" in let n' := fresh "n" in
      let He := fresh in let Hl' := fresh in let Hn := fresh in let Hs := fresh in
      destruct (clz_step_correct w k c v n ltac:(lia) ltac:(lia) Hl ltac:(lia))
        as (c' & v' & n' & He & Hl' & Hn & Hs);
      let m := eval vm_compute in (Z.ones k ≪ (w - k)) in
      change (Z.ones k ≪ (w - k)) with m in He; rewrite He; clear He Hl
  end.

Lemma clz_last w c v n :
  0 < w -> leading w v n -> n < 2 ->
  (if v .& (Z.ones 1 ≪ (w - 1)) =? 0 then c + 1 else c) = c + n.
Proof.
  intros Hw Hl Hn. pose proof Hl as (Hv & Hn0 & _). rewrite high_mask_zero by (done || lia).
  apply leading_log2 in Hl as [Hp Hlog].
  destruct (Z.ltb_spec v (2 ^ (w - 1))) as [Hlt|Hge].
  - apply Z.log2_lt_pow2 in Hlt; lia.
  - apply Z.log2_le_pow2 in Hge; lia.
Qed.

Lemma leading_of w v : 0 < v < 2 ^ w -> leading w v (w - 1 - Z.log2 v).
Proof. intros. by apply leading_log2. Qed.

Lemma clz_spec v :
  (is_uint 32 v -> turbowasm_clz32 v = if v =? 0 then 32 else 31 - Z.log2 v) /\
  (is_uint 64 v -> turbowasm_clz64 v = if v =? 0 then 64 else 63 - Z.log2 v).
Proof.
  split; intros Hv.
  - unfold turbowasm_clz32. destruct (Z.eqb_spec v 0) as [|H0]; [done|].
    assert (Hl : leading 32 v (31 - Z.log2 v)) by (apply leading_of; destruct Hv; lia).
    pose proof Hl as (_ & ? & _).
    clz_next 32 16. clz_next 32 8. clz_next 32 4. clz_next 32 2.
    rewrite (clz_last 32 _ _ n2) by (done || lia). lia.
  - unfold turbowasm_clz64. destruct (Z.eqb_spec v 0) as [|H0]; [done|].
    assert (Hl : leading 64 v (63 - Z.log2 v)) by (apply leading_of; destruct Hv; lia).
    pose proof Hl as (_ & ? & _).
    clz_next 64 32. clz_next 64 16. clz_next 64 8. clz_next 64 4. clz_next 64 2.
    rewrite (clz_last 64 _ _ n3) by (done || lia). lia.
Qed.

(** The binary searches for leading zeros count them: the width for zero,
    and the distance from the top bit to the highest set bit otherwise. *)
Theorem clz_counts_leading_zeros v :
  (is_uint 32 v -> turbowasm_clz32 v = if v =? 0 then 32 else 31 - Z.log2 v) /\
  (is_uint 64 v -> turbowasm_clz64 v = if v =? 0 then 64 else 63 - Z.log2 v).
Proof. apply clz_spec. Qed.

(** ** Trailing zeros: correctness *)

(** [trailing v n]: the lowest set bit of [v] is bit [n]. *)
Definition trailing (v n : Z) : Prop :=
  0 <= n /\ Z.testbit v n = true /\ forall i, 0 <= i < n -> Z.testbit v i = false.

Lemma trailing_unique v n m : trailing v n -> trailing v m -> n = m.
Proof.
  intros (Hn & Hb & Hz) (Hm & Hb' & Hz').
  destruct (Z.lt_trichotomy n m) as [|[|]]; [|done|].
  - rewrite Hz' in Hb by lia. done.
  - rewrite Hz in Hb' by lia. done.
Qed.

Lemma trailing_exists w v : 0 < v < 2 ^ w -> exists n, trailing v n /\ n < w.
Proof.
  intros Hv.
  assert (Hk : forall k, 0 <= k -> (forall i, 0 <= i < k -> Z.testbit v i = false) \/
                          exists n, n < k /\ trailing v n).
  { intros k Hk. pattern k. apply natlike_ind; [|intros j Hj IH|done].
    - left. lia.
    - destruct IH as [Hz|(n & Hn & Ht)]; [|right; exists n; split; [lia|done]].
      destruct (Z.testbit v j) eqn:Hb; [right; exists j; split; [lia|by split_and!]|left].
      intros i Hi. destruct (decide (i = j)) as [->|]; [done|apply Hz; lia]. }
  assert (Hlog : Z.log2 v < w) by (apply Z.log2_lt_pow2; lia). pose proof (Z.log2_nonneg v).
  destruct (Hk w ltac:(lia)) as [Hz|(n & Hn & Ht)]; [|by exists n].
  pose proof (Z.bit_log2 v ltac:(lia)) as Hb. rewrite Hz in Hb by lia. done.
Qed.

Lemma low_mask_zero k v n :
  0 < k -> trailing v n -> (v .& Z.ones k =? 0) = (k <=? n).
Proof.
  intros Hk (Hn & Hb & Hz). apply eq_true_iff_eq. rewrite Z.eqb_eq, Z.leb_le. split; intros H.
  - destruct (decide (k <= n)) as [|Hlt]; [done|].
    apply (f_equal (fun z => Z.testbit z n)) in H. revert H.
    rewrite Z.bits_0, Z.land_spec, Z.testbit_ones_nonneg, Hb by lia.
    destruct (Z.ltb_spec n k); [done|lia].
  - apply Z.bits_inj'. intros i Hi. rewrite Z.bits_0, Z.land_spec, Z.testbit_ones_nonneg by lia.
    destruct (Z.ltb_spec i k); [|apply andb_false_r]. rewrite Hz by lia. done.
Qed.

Lemma ctz_step_correct k count v n :
  0 < k -> trailing v n -> n < 2 * k ->
  exists count' v' n', ctz_step (Z.ones k) k (count, v) = (count', v') /\
    trailing v' n' /\ n' < k /\ count' + n' = count + n.
Proof.
  intros Hk Ht Hn. unfold ctz_step. rewrite (low_mask_zero k v n) by done.
  destruct (Z.leb_spec k n).
  - exists (count + k), (v ≫ k), (n - k). split; [done|]. split; [|lia].
    destruct Ht as (Hn0 & Hb & Hz). split_and!; [lia| |].
    + rewrite Z.shiftr_spec by lia. by replace (n - k + k) with n by lia.
    + intros i Hi. rewrite Z.shiftr_spec by lia. apply Hz. lia.
  - exists count, v, n. split_and!; [done|done|lia|lia].
Qed.

Ltac ctz_next k :=
  match goal with
  | Hl : trailing ?v ?n |- context [ctz_step _ k (?c, ?v)] =>
      let c' := fresh "c" in let v' := fresh "v" in let n' := fresh "n" in
      let He := fresh in let Hl' := fresh in let Hn := fresh in let Hs := fresh in
      destruct (ctz_step_correct k c v n ltac:(lia) Hl ltac:(lia))
        as (c' & v' & n' & He & Hl' & Hn & Hs);
      let m := eval vm_compute in (Z.ones k) in change (Z.ones k) with m in He; rewrite He; clear He Hl
  end.

Lemma ctz_spec v :
  (is_uint 32 v -> (v = 0 /\ turbowasm_ctz32 v = 32) \/
     (0 <= turbowasm_ctz32 v < 32 /\ Z.testbit v (turbowasm_ctz32 v) = true /\
      forall i, 0 <= i < turbowasm_ctz32 v -> Z.testbit v i = false)) /\
  (is_uint 64 v -> (v = 0 /\ turbowasm_ctz64 v = 64) \/
     (0 <= turbowasm_ctz64 v < 64 /\ Z.testbit v (turbowasm_ctz64 v) = true /\
      forall i, 0 <= i < turbowasm_ctz64 v -> Z.testbit v i = false)).
Proof.
  assert (Hlast : forall c u k, trailing u k -> k < 2 ->
            (if u .& 1 =? 0 then c + 1 else c) = c + k).
  { intros c u k Ht Hk. pose proof (low_mask_zero 1 u k ltac:(lia) Ht) as Hm.
    change (Z.ones 1) with 1 in Hm. rewrite Hm. destruct Ht as [? _]. destruct (Z.leb_spec 1 k); lia. }
  split; intros Hv; destruct (decide (v = 0)) as [->|H0]; [by left| |by left| ]; right.
  - destruct (trailing_exists 32 v ltac:(destruct Hv; lia)) as (n & Ht & Hn).
    pose proof Ht as (Hn0 & Hb & Hz).
    assert (turbowasm_ctz32 v = n) as ->; [|done].
    unfold turbowasm_ctz32. destruct (Z.eqb_spec v 0); [done|].
    ctz_next 16. ctz_next 8. ctz_next 4. ctz_next 2.
    rewrite (Hlast _ _ n4) by (done || lia). lia.
  - destruct (trailing_exists 64 v ltac:(destruct Hv; lia)) as (n & Ht & Hn).
    pose proof Ht as (Hn0 & Hb & Hz).
    assert (turbowasm_ctz64 v = n) as ->; [|done].
    unfold turbowasm_ctz64. destruct (Z.eqb_spec v 0); [done|].
    ctz_next 32. ctz_next 16. ctz_next 8. ctz_next 4. ctz_next 2.
    rewrite (Hlast _ _ n5) by (done || lia). lia.
Qed.

(** The binary searches for trailing zeros count them: the width for zero,
    and otherwise the index of the lowest set bit, which always exists. *)
Theorem ctz_counts_trailing_zeros v :
  (is_uint 32 v -> (v = 0 /\ turbowasm_ctz32 v = 32) \/
     (0 <= turbowasm_ctz32 v < 32 /\ Z.testbit v (turbowasm_ctz32 v) = true /\
      forall i, 0 <= i < turbowasm_ctz32 v -> Z.testbit v i = false)) /\
  (is_uint 64 v -> (v = 0 /\ turbowasm_ctz64 v = 64) \/
     (0 <= turbowasm_ctz64 v < 64 /\ Z.testbit v (turbowasm_ctz64 v) = true /\
      forall i, 0 <= i < turbowasm_ctz64 v -> Z.testbit v i = false)).
Proof. apply ctz_spec. Qed.

(** ** Population count: correctness *)

(** The number of set bits among the low [n]. *)
Fixpoint bits_set (n : nat) (v : Z) : Z :=
  match n with
  | O => 0
  | S n' => Z.b2z (Z.testbit v (Z.of_nat n')) + bits_set n' v
  end.

Lemma bits_set_split n v : bits_set (n + 8) v = bits_set 8 (v mod 256) + bits_set n (v / 256).
Proof.
  induction n as [|n IH].
  - cbn [bits_set Nat.add]. change 256 with (2 ^ 8).
    rewrite !Z.testbit_mod_pow2 by lia.
    repeat rewrite (proj2 (Z.ltb_lt _ 8)) by lia. rewrite !andb_true_l. lia.
  - assert (Ht : Z.testbit (v / 256) (Z.of_nat n) = Z.testbit v (Z.of_nat (n + 8))).
    { change 256 with (2 ^ 8). rewrite <- Z.shiftr_div_pow2, Z.shiftr_spec by lia. f_equal. lia. }
    change (S n + 8)%nat with (S (n + 8)).
    unfold bits_set at 1; fold bits_set. unfold bits_set at 3; fold bits_set.
    rewrite IH, Ht. lia.
Qed.

(** The mask with byte [m] repeated. *)
Fixpoint repeat_byte (n : nat) (m : Z) : Z :=
  match n with O => 0 | S n' => m + 256 * repeat_byte n' m end.

(** The population count of each byte, in its byte. *)
Fixpoint byte_counts (n : nat) (v : Z) : Z :=
  match n with O => 0 | S n' => bits_set 8 (v mod 256) + 256 * byte_counts n' (v / 256) end.

Lemma repeat_byte_nonneg n m : 0 <= m -> 0 <= repeat_byte n m.
Proof. induction n; simpl; lia. Qed.

Lemma is_uint_shift_eq a v : is_uint 8 a -> a + 256 * v = a .| (v ≪ 8).
Proof. intros Ha. rewrite lor_shiftl_add by done. change (2 ^ 8) with 256. lia. Qed.

(** A shift by less than a byte, masked to the bits that stay in their byte,
    works byte by byte. *)
Lemma land_shift_split s m b v M :
  0 <= s < 8 -> is_uint (8 - s) m -> is_uint 8 b ->
  ((b + 256 * v) ≫ s) .& (m + 256 * M) = ((b ≫ s) .& m) + 256 * ((v ≫ s) .& M).
Proof.
  intros Hs Hm Hb.
  assert (Hm8 : is_uint 8 m) by (destruct Hm; split; [lia|]; pose proof (pow2_le (8 - s) 8 ltac:(lia)); lia).
  assert (Hl : is_uint 8 ((b ≫ s) .& m)).
  { rewrite <- (wrap_id 8 m) by done. unfold wrap. rewrite <- Z.land_ones, Z.land_assoc, Z.land_ones by lia.
    apply (wrap_range 8). lia. }
  rewrite !is_uint_shift_eq by done. apply Z.bits_inj'. intros i Hi.
  rewrite !Z.land_spec, !Z.lor_spec, Z.shiftr_spec, !Z.lor_spec, !Z.land_spec, !Z.shiftl_spec by lia.
  rewrite Z.shiftr_spec by lia. destruct (decide (i < 8)) as [Hlt|Hge].
  - rewrite (Z.testbit_neg_r M), (Z.testbit_neg_r _ (i - 8)) by lia. rewrite !orb_false_r.
    destruct (decide (i + s < 8)).
    + rewrite (Z.testbit_neg_r v) by lia. by rewrite orb_false_r.
    + rewrite (testbit_uint (8 - s) m) by (done || lia). by rewrite !andb_false_r.
  - rewrite (testbit_uint 8 m i), (testbit_uint 8 b (i + s)) by (done || lia).
    rewrite Z.land_spec, Z.shiftr_spec by lia. simpl. by replace (i - 8 + s) with (i + s - 8) by lia.
Qed.

(** The three folding stages over [n] bytes. *)
Definition fold1 (n : nat) (v : Z) : Z := v - ((v ≫ 1) .& repeat_byte n 0x55).
Definition fold2 (n : nat) (v : Z) : Z :=
  (v .& repeat_byte n 0x33) + ((v ≫ 2) .& repeat_byte n 0x33).
Definition fold3 (n : nat) (v : Z) : Z := (v + (v ≫ 4)) .& repeat_byte n 0x0f.

Definition byte_fold1 (b : Z) : Z := b - ((b ≫ 1) .& 0x55).
Definition byte_fold2 (b : Z) : Z := (b .& 0x33) + ((b ≫ 2) .& 0x33).

(** Checked on the 256 bytes: the stages count, and leave room for the carries. *)
Lemma byte_folds b : is_uint 8 b ->
  let b1 := byte_fold1 b in let b2 := byte_fold2 b1 in
  is_uint 8 b1 /\ 0 <= b2 <= 68 /\ b2 mod 16 <= 4 /\ (b2 + (b2 ≫ 4)) mod 16 = bits_set 8 b.
Proof.
  intros Hb. simpl.
  pose proof (forall_below 256 (fun b => let b1 := byte_fold1 b in let b2 := byte_fold2 b1 in
    (0 <=? b1) && (b1 <? 256) && (0 <=? b2) && (b2 <=? 68) && (b2 mod 16 <=? 4) &&
    ((b2 + (b2 ≫ 4)) mod 16 =? bits_set 8 b)) ltac:(vm_compute; reflexivity) b Hb) as H.
  cbv zeta in H. rewrite !andb_true_iff, !Z.leb_le, Z.ltb_lt, Z.eqb_eq in H.
  destruct H as (((((? & ?) & ?) & ?) & ?) & ?). split_and!; [split; lia|lia|lia|lia|done].
Qed.

Lemma fold_stages n : forall v, 0 <= v < 256 ^ Z.of_nat n ->
  let v1 := fold1 n v in let v2 := fold2 n v1 in
  0 <= v1 < 256 ^ Z.of_nat n /\ 0 <= v2 < 256 ^ Z.of_nat n /\
  0 <= v2 + (v2 ≫ 4) < 256 ^ Z.of_nat n /\ v2 mod 16 <= 4 /\ fold3 n v2 = byte_counts n v.
Proof.
  induction n as [|n IH]; intros v Hv.
  { assert (v = 0) as -> by (simpl in Hv; lia). done. }
  rewrite Nat2Z.inj_succ, Z.pow_succ_r in * by lia.
  pose proof (Z.div_mod v 256 ltac:(lia)) as Hdm. pose proof (Z.mod_pos_bound v 256 ltac:(lia)) as Hb.
  set (b := v mod 256) in *. set (v' := v / 256) in *.
  assert (Hv' : 0 <= v' < 256 ^ Z.of_nat n) by lia.
  destruct (IH v' Hv') as (H1 & H2 & H3 & Hlow & H4). destruct (byte_folds b Hb) as (B1 & B2 & Blow & B3).
  assert (E1 : fold1 (S n) v = byte_fold1 b + 256 * fold1 n v').
  { unfold fold1, byte_fold1. simpl repeat_byte. rewrite Hdm at 2. rewrite (Z.add_comm _ b).
    rewrite land_shift_split by (done || lia). lia. }
  assert (E2 : fold2 (S n) (fold1 (S n) v) = byte_fold2 (byte_fold1 b) + 256 * fold2 n (fold1 n v')).
  { rewrite E1. unfold fold2, byte_fold2. simpl repeat_byte.
    pose proof (land_shift_split 0 0x33 (byte_fold1 b) (fold1 n v') (repeat_byte n 0x33)
                  ltac:(lia) ltac:(done) B1) as E. rewrite !Z.shiftr_0_r in E.
    rewrite E, land_shift_split by (done || lia). lia. }
  cbv zeta. rewrite E2, E1. set (x := fold2 n (fold1 n v')) in *. set (x0 := byte_fold2 (byte_fold1 b)) in *.
  clearbody x x0.
  assert (Hx0 : 0 <= x0 ≫ 4 <= 4).
  { rewrite Z.shiftr_div_pow2 by lia. change (2 ^ 4) with 16. clear -B2. zdiv. }
  assert (E3 : x0 + 256 * x + ((x0 + 256 * x) ≫ 4) =
               (x0 + (x0 ≫ 4) + 16 * (x mod 16)) + 256 * (x + (x ≫ 4))).
  { rewrite !Z.shiftr_div_pow2 by lia. change (2 ^ 4) with 16. clear -B2. zdiv. }
  pose proof (Z.mod_pos_bound x 16 ltac:(lia)).
  split_and!; try (destruct B1; simpl in *; lia).
  { clear -Blow. zdiv. }
  unfold fold3. simpl repeat_byte. rewrite E3.
  pose proof (land_shift_split 0 0x0f (x0 + (x0 ≫ 4) + 16 * (x mod 16)) (x + (x ≫ 4))
    (repeat_byte n 0x0f) ltac:(lia) ltac:(done) ltac:(split; simpl; lia)) as E.
  rewrite !Z.shiftr_0_r in E. rewrite E. fold (fold3 n x). rewrite H4. cbn [byte_counts]. fold b v'.
  rewrite <- B3. change 0x0f with (Z.ones 4) at 1. rewrite Z.land_ones by lia. change (2 ^ 4) with 16.
  f_equal. rewrite Z.mul_comm, Z_mod_plus_full. done.
Qed.

Lemma bits_set_bound n v : 0 <= bits_set n v <= Z.of_nat n.
Proof. induction n; simpl; [lia|]. destruct (Z.testbit v (Z.of_nat n)); simpl; lia. Qed.

(** Multiplying by 0x01..01 leaves the sum of the bytes in the top byte. *)
Lemma sum_bytes32 p0 p1 p2 p3 :
  0 <= p0 <= 8 -> 0 <= p1 <= 8 -> 0 <= p2 <= 8 -> 0 <= p3 <= 8 ->
  u32 ((p0 + 256 * (p1 + 256 * (p2 + 256 * (p3 + 256 * 0)))) * 0x01010101) ≫ 24 = p3 + p2 + p1 + p0.
Proof.
  intros. rewrite Z.shiftr_div_pow2 by lia. unfold wrap.
  change (2 ^ 32) with 4294967296. change (2 ^ 24) with 16777216. zdiv.
Qed.

Lemma sum_bytes64 p0 p1 p2 p3 p4 p5 p6 p7 :
  0 <= p0 <= 8 -> 0 <= p1 <= 8 -> 0 <= p2 <= 8 -> 0 <= p3 <= 8 ->
  0 <= p4 <= 8 -> 0 <= p5 <= 8 -> 0 <= p6 <= 8 -> 0 <= p7 <= 8 ->
  u64 ((p0 + 256 * (p1 + 256 * (p2 + 256 * (p3 + 256 * (p4 + 256 * (p5 + 256 * (p6 + 256 *
        (p7 + 256 * 0)))))))) * 0x0101010101010101) ≫ 56 =
  p7 + p6 + p5 + p4 + p3 + p2 + p1 + p0.
Proof.
  intros. rewrite Z.shiftr_div_pow2 by lia. unfold wrap.
  set (low := 1 * (p0) + 256 * (p0 + p1) + 65536 * (p0 + p1 + p2) + 16777216 * (p0 + p1 + p2 + p3) +
      4294967296 * (p0 + p1 + p2 + p3 + p4) + 1099511627776 * (p0 + p1 + p2 + p3 + p4 + p5) +
      281474976710656 * (p0 + p1 + p2 + p3 + p4 + p5 + p6)).
  set (high := 1 * (p1 + p2 + p3 + p4 + p5 + p6 + p7) + 256 * (p2 + p3 + p4 + p5 + p6 + p7) + 65536 * (p3
      + p4 + p5 + p6 + p7) + 16777216 * (p4 + p5 + p6 + p7) + 4294967296 * (p5 + p6 + p7) +
      1099511627776 * (p6 + p7) + 281474976710656 * (p7)).
  symmetry. apply (Z.div_unique_pos _ _ _ low); [unfold low; simpl; lia|]. symmetry.
  apply (Z.mod_unique_pos _ _ high); unfold low, high; simpl; lia.
Qed.

Lemma popcnt_spec v :
  (is_uint 32 v -> turbowasm_popcnt32 v = bits_set 32 v) /\
  (is_uint 64 v -> turbowasm_popcnt64 v = bits_set 64 v).
Proof.
  split; intros Hv.
  - destruct (fold_stages 4 v Hv) as (H1 & H2 & H3 & _ & H4). unfold turbowasm_popcnt32.
    change 0x55555555 with (repeat_byte 4 0x55). change 0x33333333 with (repeat_byte 4 0x33).
    change 0x0f0f0f0f with (repeat_byte 4 0x0f). fold (fold1 4 v).
    rewrite (wrap_id 32 (fold1 4 v)) by done. fold (fold2 4 (fold1 4 v)).
    rewrite (wrap_id 32 (fold2 4 _)) by done.
    rewrite (wrap_id 32 (_ + (_ ≫ 4))) by done. fold (fold3 4 (fold2 4 (fold1 4 v))).
    rewrite H4. change 32%nat with (0 + 8 + 8 + 8 + 8)%nat. rewrite !bits_set_split.
    cbn [byte_counts]. rewrite sum_bytes32 by apply bits_set_bound. simpl (bits_set 0 _). lia.
  - destruct (fold_stages 8 v Hv) as (H1 & H2 & H3 & _ & H4). unfold turbowasm_popcnt64.
    change 0x5555555555555555 with (repeat_byte 8 0x55). change 0x3333333333333333 with (repeat_byte 8 0x33).
    change 0x0f0f0f0f0f0f0f0f with (repeat_byte 8 0x0f). fold (fold1 8 v).
    rewrite (wrap_id 64 (fold1 8 v)) by done. fold (fold2 8 (fold1 8 v)).
    rewrite (wrap_id 64 (fold2 8 _)) by done.
    rewrite (wrap_id 64 (_ + (_ ≫ 4))) by done. fold (fold3 8 (fold2 8 (fold1 8 v))).
    rewrite H4. change 64%nat with (0 + 8 + 8 + 8 + 8 + 8 + 8 + 8 + 8)%nat. rewrite !bits_set_split.
    cbn [byte_counts]. rewrite sum_bytes64 by apply bits_set_bound. simpl (bits_set 0 _). lia.
Qed.

(** The parallel bit count returns the number of set bits. *)
Theorem popcnt_counts_ones v :
  (is_uint 32 v -> turbowasm_popcnt32 v = bits_set 32 v) /\
  (is_uint 64 v -> turbowasm_popcnt64 v = bits_set 64 v).
Proof. apply popcnt_spec. Qed.

End IntOps.
