(* ===== verification/Types.v ===== *)
(** * Validation data (src/validation_context.h)

    The records the validator builds and the interpreter reads. A pointer to a
    type definition is an index into a type store, [None] for NULL; counts that
    only repeat the length of an array are the length of the list. *)

From S2P Require Import Prelude.

Module Types.

Inductive turbowasm_validation_heap_kind :=
  | HEAP_NONE
  | HEAP_FUNC
  | HEAP_EXTERN
  | HEAP_EXN
  | HEAP_NOEXN
  | HEAP_TYPE_INDEX
  | HEAP_NOFUNC
  | HEAP_NOEXTERN
  | HEAP_ANY
  | HEAP_EQ
  | HEAP_I31
  | HEAP_STRUCT
  | HEAP_ARRAY
  | HEAP_BOTTOM.

#[global] Instance heap_kind_eq_dec : EqDecision turbowasm_validation_heap_kind.
Proof. solve_decision. Defined.

Record turbowasm_validation_value_type := mk_value_type {
  carrier : Z;
  is_reference : bool;
  nullable : bool;
  heap_kind : turbowasm_validation_heap_kind;
  type_index : Z;
  definition : option nat
}.

#[global] Instance value_type_eq_dec : EqDecision turbowasm_validation_value_type.
Proof. solve_decision. Defined.

Inductive turbowasm_validation_type_kind :=
  | TYPE_FUNCTION
  | TYPE_STRUCT
  | TYPE_ARRAY.

#[global] Instance type_kind_eq_dec : EqDecision turbowasm_validation_type_kind.
Proof. solve_decision. Defined.

Record turbowasm_validation_field := mk_field {
  field_type : turbowasm_validation_value_type;
  packed_bits : Z;
  mutable_value : bool
}.

Record turbowasm_validation_func_type := mk_func_type {
  defined : bool;
  params : list Z;
  param_semantics : list turbowasm_validation_value_type;
  results : list Z;
  result_semantics : list turbowasm_validation_value_type;
  type_kind : turbowasm_validation_type_kind;
  fields : list turbowasm_validation_field;
  final_type : bool;
  super_index : Z;
  super : option nat;
  group : option nat;
  group_count : Z;
  group_offset : Z;
  dependency_depth : Z;
  canonical : option nat
}.

(** An element of a zeroed type array. *)
Definition zero_func_type : turbowasm_validation_func_type :=
  mk_func_type false [] [] [] [] TYPE_FUNCTION [] false 0 None None 0 0 0 None.

Definition param_count (t : turbowasm_validation_func_type) : Z := Z.of_nat (length (params t)).
Definition result_count (t : turbowasm_validation_func_type) : Z := Z.of_nat (length (results t)).

Inductive turbowasm_validation_control_kind :=
  | VALIDATION_CONTROL_BLOCK
  | VALIDATION_CONTROL_LOOP
  | VALIDATION_CONTROL_IF
  | VALIDATION_CONTROL_TRY_TABLE.

#[global] Instance validation_control_kind_eq_dec : EqDecision turbowasm_validation_control_kind.
Proof. solve_decision. Defined.

Inductive turbowasm_validation_catch_kind :=
  | VALIDATION_CATCH
  | VALIDATION_CATCH_REF
  | VALIDATION_CATCH_ALL
  | VALIDATION_CATCH_ALL_REF.

#[global] Instance catch_kind_eq_dec : EqDecision turbowasm_validation_catch_kind.
Proof. solve_decision. Defined.

Record turbowasm_validation_catch := mk_catch {
  catch_kind : turbowasm_validation_catch_kind;
  tag_index : Z;
  label_depth : Z
}.

Record turbowasm_validation_control := mk_control {
  control_kind : turbowasm_validation_control_kind;
  opcode_offset : Z;
  body_offset : Z;
  else_offset : Z;
  end_offset : Z;
  control_type_index : Z;
  inline_result_type : Z;
  catches : list turbowasm_validation_catch
}.

(** The code of a function is where it starts in the module's bytes and its
    size. [local_types] and [local_semantics] are NULL exactly when they are
    empty. *)
Record turbowasm_validation_function := mk_function {
  function_type_index : Z;
  function_imported : bool;
  local_types : list Z;
  local_semantics : list turbowasm_validation_value_type;
  code : option Z;
  code_size : Z;
  controls_of : list turbowasm_validation_control;
  control_capacity : Z
}.

End Types.
