(* ===== verification/ExecStack.v ===== *)
(** * The interpreter's operand and control stacks (src/instance.c)

    The operand stack is the list of its live values, bottom first, with the
    capacity of the array behind it; the control stack likewise. Growing an
    array may fail: [realloc_ok n] says whether the allocator grants [n] bytes,
    and the element sizes are those of the host. *)

From stdpp Require Import sorting.
From S2P Require Import Prelude Reader Value Types.

Module ExecStack.
Import Reader Value Types.

Inductive turbowasm_trap :=
  | TRAP_NONE
  | TRAP_UNREACHABLE
  | TRAP_CALL_STACK_EXHAUSTED
  | TRAP_INTEGER_DIVIDE_BY_ZERO
  | TRAP_INTEGER_OVERFLOW
  | TRAP_MEMORY_OUT_OF_BOUNDS
  | TRAP_TABLE_OUT_OF_BOUNDS
  | TRAP_INDIRECT_CALL_NULL
  | TRAP_INDIRECT_CALL_TYPE_MISMATCH
  | TRAP_INVALID_CONVERSION_TO_INTEGER
  | TRAP_NULL_REFERENCE
  | TRAP_UNALIGNED_ATOMIC
  | TRAP_EXPECTED_SHARED_MEMORY
  | TRAP_TOO_MANY_WAITERS
  | TRAP_ARRAY_OUT_OF_BOUNDS
  | TRAP_CAST_FAILURE.

#[global] Instance turbowasm_trap_eq_dec : EqDecision turbowasm_trap.
Proof. solve_decision. Defined.

Definition SIZE_MAX : Z := UINT64_MAX.

(** ** Growing an array *)

(** The doubling loop of every [reserve] function of the source. *)
Fixpoint grow_loop (fuel : nat) (next required : Z) : Z :=
  match fuel with
  | O => next
  | S fuel' =>
      if next <? required then
        if next >? UINT32_MAX / 2 then required
        else grow_loop fuel' (u32 (next * 2)) required
      else next
  end.

Definition GROW_FUEL : nat := 33.

(** The capacity after a successful reservation of [required] elements of
    [elem] bytes in an array of capacity [cap] that starts at [initial]. *)
Definition reserve (realloc_ok : Z -> bool) (elem initial cap required : Z) : option Z :=
  if required <=? cap then Some cap
  else
    let next := grow_loop GROW_FUEL (if cap =? 0 then initial else cap) required in
    if next * elem >? SIZE_MAX then None
    else if realloc_ok (next * elem) then Some next else None.

(** ** The operand stack *)

Record turbowasm_value_stack := mk_stack {
  values : list turbowasm_value;
  stack_capacity : Z
}.

Definition stack_size (s : turbowasm_value_stack) : Z := Z.of_nat (length (values s)).

Section Host.
Context (realloc_ok : Z -> bool) (sizeof_value sizeof_frame : Z).

Definition turbowasm_stack_reserve (s : turbowasm_value_stack) (required : Z)
    : option turbowasm_value_stack :=
  match reserve realloc_ok sizeof_value 16 (stack_capacity s) required with
  | Some cap => Some (mk_stack (values s) cap)
  | None => None
  end.

Definition turbowasm_stack_push (s : turbowasm_value_stack) (v : turbowasm_value)
    : turbowasm_status * turbowasm_value_stack :=
  if stack_size s =? UINT32_MAX then (TURBOWASM_OUT_OF_MEMORY, s)
  else match turbowasm_stack_reserve s (stack_size s + 1) with
       | None => (TURBOWASM_OUT_OF_MEMORY, s)
       | Some s' => (TURBOWASM_OK, mk_stack (values s' ++ [v]) (stack_capacity s'))
       end.

(** The value is [None] when the stack is empty. *)
Definition turbowasm_stack_pop (s : turbowasm_value_stack)
    : turbowasm_status * turbowasm_value_stack * option turbowasm_value :=
  match reverse (values s) with
  | [] => (TURBOWASM_MALFORMED_MODULE, s, None)
  | v :: rest => (TURBOWASM_OK, mk_stack (reverse rest) (stack_capacity s), Some v)
  end.

(** A value of the wrong kind has been popped when the mismatch is reported. *)
Definition turbowasm_stack_pop_kind (s : turbowasm_value_stack) (kind : turbowasm_value_kind)
    : turbowasm_status * turbowasm_value_stack * option turbowasm_value :=
  match turbowasm_stack_pop s with
  | (TURBOWASM_OK, s', Some v) =>
      if bool_decide (value_kind v = kind) then (TURBOWASM_OK, s', Some v)
      else (TURBOWASM_TYPE_MISMATCH, s', Some v)
  | r => r
  end.

(** ** Blocks and frames *)

Definition turbowasm_exec_valtype (type : Z) : bool :=
  (type =? 0x7f) || (type =? 0x7e) || (type =? 0x7d) || (type =? 0x7c) ||
  (type =? 0x7b) || (type =? 0x70) || (type =? 0x6f) || (type =? 0x69).

Inductive turbowasm_exec_control_kind :=
  | CONTROL_FUNCTION
  | CONTROL_BLOCK
  | CONTROL_LOOP
  | CONTROL_IF
  | CONTROL_TRY_TABLE.

#[global] Instance control_kind_eq_dec : EqDecision turbowasm_exec_control_kind.
Proof. solve_decision. Defined.

Record turbowasm_exec_control_frame := mk_frame {
  frame_kind : turbowasm_exec_control_kind;
  height : Z;
  annotation : option turbowasm_validation_control;
  signature_type : option turbowasm_validation_func_type;
  inline_end_type : Z;
  has_inline_end_type : bool
}.

Record turbowasm_exec_control_stack := mk_controls {
  frames : list turbowasm_exec_control_frame;
  controls_capacity : Z
}.

Definition controls_size (c : turbowasm_exec_control_stack) : Z := Z.of_nat (length (frames c)).

Record turbowasm_exec_block_signature := mk_signature {
  indexed_type : option turbowasm_validation_func_type;
  sig_inline_end_type : Z;
  sig_has_inline_end_type : bool
}.

Definition turbowasm_exec_controls_reserve (c : turbowasm_exec_control_stack) (required : Z)
    : option turbowasm_exec_control_stack :=
  match reserve realloc_ok sizeof_frame 8 (controls_capacity c) required with
  | Some cap => Some (mk_controls (frames c) cap)
  | None => None
  end.

Definition turbowasm_exec_frame_start_types (f : turbowasm_exec_control_frame) : list Z :=
  if bool_decide (frame_kind f = CONTROL_FUNCTION) then []
  else match signature_type f with
       | Some t => params t
       | None => []
       end.

Definition turbowasm_exec_frame_end_types (f : turbowasm_exec_control_frame) : list Z :=
  match signature_type f with
  | Some t => results t
  | None => if has_inline_end_type f then [inline_end_type f] else []
  end.

(** The comparison loop over the top of the stack. *)
Fixpoint check_types (vs : list turbowasm_value) (types : list Z) : turbowasm_status :=
  match vs, types with
  | v :: vs', type :: types' =>
      if turbowasm_value_matches_type v type then check_types vs' types'
      else if bool_decide (turbowasm_kind_from_valtype type = TURBOWASM_VALUE_ZERO)
           then TURBOWASM_UNSUPPORTED else TURBOWASM_TYPE_MISMATCH
  | _, _ => TURBOWASM_OK
  end.

Definition turbowasm_exec_stack_check_top (s : turbowasm_value_stack) (types : list Z)
    : turbowasm_status :=
  let count := Z.of_nat (length types) in
  if stack_size s <? count then TURBOWASM_MALFORMED_MODULE
  else let base := stack_size s - count in
       check_types (drop (Z.to_nat base) (values s)) types.

(** The memmove of the top [count] values down to [height], then the new size. *)
Definition turbowasm_exec_stack_rebase (s : turbowasm_value_stack) (h : Z) (types : list Z)
    : turbowasm_status * turbowasm_value_stack :=
  let count := Z.of_nat (length types) in
  if h >? stack_size s then (TURBOWASM_MALFORMED_MODULE, s)
  else match turbowasm_exec_stack_check_top s types with
       | TURBOWASM_OK =>
           let source := stack_size s - count in
           if source <? h then (TURBOWASM_MALFORMED_MODULE, s)
           else (TURBOWASM_OK,
                 mk_stack (take (Z.to_nat h) (values s) ++ drop (Z.to_nat source) (values s))
                   (stack_capacity s))
       | status => (status, s)
       end.

Definition turbowasm_exec_control_push (c : turbowasm_exec_control_stack)
    (s : turbowasm_value_stack) (kind : turbowasm_exec_control_kind)
    (ann : option turbowasm_validation_control) (sg : turbowasm_exec_block_signature)
    : turbowasm_status * turbowasm_exec_control_stack :=
  if controls_size c =? UINT32_MAX then (TURBOWASM_OUT_OF_MEMORY, c)
  else
    let frame0 := mk_frame kind 0 ann (indexed_type sg) (sig_inline_end_type sg)
                    (sig_has_inline_end_type sg) in
    let start_types := turbowasm_exec_frame_start_types frame0 in
    match turbowasm_exec_stack_check_top s start_types with
    | TURBOWASM_OK =>
        let frame := mk_frame kind (stack_size s - Z.of_nat (length start_types)) ann
                       (indexed_type sg) (sig_inline_end_type sg) (sig_has_inline_end_type sg) in
        match turbowasm_exec_controls_reserve c (controls_size c + 1) with
        | None => (TURBOWASM_OUT_OF_MEMORY, c)
        | Some c' => (TURBOWASM_OK, mk_controls (frames c' ++ [frame]) (controls_capacity c'))
        end
    | status => (status, c)
    end.

Definition turbowasm_exec_control_push_function (c : turbowasm_exec_control_stack)
    (type : turbowasm_validation_func_type) : turbowasm_status * turbowasm_exec_control_stack :=
  match turbowasm_exec_controls_reserve c 1 with
  | None => (TURBOWASM_OUT_OF_MEMORY, c)
  | Some c' =>
      (TURBOWASM_OK, mk_controls [mk_frame CONTROL_FUNCTION 0 None (Some type) 0 false]
                       (controls_capacity c'))
  end.

Definition turbowasm_exec_jump (r : turbowasm_reader) (f : turbowasm_validation_function)
    (offset : Z) : turbowasm_status * turbowasm_reader :=
  match code f with
  | None => (TURBOWASM_MALFORMED_MODULE, r)
  | Some base =>
      if offset >? code_size f then (TURBOWASM_MALFORMED_MODULE, r)
      else (TURBOWASM_OK, mk_reader (Some (base + offset)) (Some (base + code_size f)))
  end.

Definition turbowasm_exec_finish_control (s : turbowasm_value_stack)
    (c : turbowasm_exec_control_stack)
    : turbowasm_status * turbowasm_value_stack * turbowasm_exec_control_stack :=
  if controls_size c <=? 1 then (TURBOWASM_MALFORMED_MODULE, s, c)
  else match last (frames c) with
       | None => (TURBOWASM_MALFORMED_MODULE, s, c)
       | Some frame =>
           match turbowasm_exec_stack_rebase s (height frame)
                   (turbowasm_exec_frame_end_types frame) with
           | (TURBOWASM_OK, s') =>
               (TURBOWASM_OK, s',
                mk_controls (take (length (frames c) - 1) (frames c)) (controls_capacity c))
           | (status, s') => (status, s', c)
           end
       end.

(** What the dispatcher threads through a branch; the flags are
    [*out_finished] and [*out_returned]. *)
Record branch_state := mk_branch {
  b_stack : turbowasm_value_stack;
  b_controls : turbowasm_exec_control_stack;
  b_reader : turbowasm_reader;
  b_finished : bool;
  b_returned : bool
}.

Definition truncate (c : turbowasm_exec_control_stack) (n : Z) : turbowasm_exec_control_stack :=
  mk_controls (take (Z.to_nat n) (frames c)) (controls_capacity c).

Definition label_types (f : turbowasm_exec_control_frame) : list Z :=
  if bool_decide (frame_kind f = CONTROL_LOOP) then turbowasm_exec_frame_start_types f
  else turbowasm_exec_frame_end_types f.

Definition turbowasm_exec_branch (f : turbowasm_validation_function) (depth : Z)
    (b : branch_state) : turbowasm_status * branch_state :=
  let c := b_controls b in
  if depth >=? controls_size c then (TURBOWASM_MALFORMED_MODULE, b)
  else
    let target_index := controls_size c - 1 - depth in
    match frames c !! Z.to_nat target_index with
    | None => (TURBOWASM_MALFORMED_MODULE, b)
    | Some target =>
        match turbowasm_exec_stack_rebase (b_stack b) (height target) (label_types target) with
        | (TURBOWASM_OK, s') =>
            let b := mk_branch s' c (b_reader b) (b_finished b) (b_returned b) in
            if bool_decide (frame_kind target = CONTROL_FUNCTION) then
              (TURBOWASM_OK, mk_branch s' (truncate c 1) (b_reader b) true true)
            else match annotation target with
                 | None => (TURBOWASM_MALFORMED_MODULE, b)
                 | Some ann =>
                     if end_offset ann =? UINT32_MAX then (TURBOWASM_MALFORMED_MODULE, b)
                     else
                       let '(size, offset) :=
                         if bool_decide (frame_kind target = CONTROL_LOOP)
                         then (target_index + 1, body_offset ann)
                         else (target_index, u32 (end_offset ann + 1)) in
                       let '(status, r') := turbowasm_exec_jump (b_reader b) f offset in
                       (status, mk_branch s' (truncate c size) r' (b_finished b) (b_returned b))
                 end
        | (status, s') =>
            (status, mk_branch s' c (b_reader b) (b_finished b) (b_returned b))
        end
    end.

End Host.

(** ** Growth *)

Lemma grow_loop_spec fuel : forall next required,
  1 <= next <= UINT32_MAX -> 0 <= required <= UINT32_MAX ->
  UINT32_MAX < next * 2 ^ Z.of_nat fuel ->
  let r := grow_loop fuel next required in
  required <= r <= UINT32_MAX /\ next <= r /\ (r <= 2 * required \/ r = next) /\
  forall n, grow_loop (fuel + n) next required = r.
Proof.
  induction fuel as [|fuel IH]; intros next required Hn Hr Hf.
  { change (2 ^ Z.of_nat 0) with 1 in Hf. lia. }
  cbn [grow_loop Nat.add]. destruct (Z.ltb_spec next required); [|split_and!; lia || done || by right].
  destruct (Z.gtb_spec next (UINT32_MAX / 2)) as [Hbig|Hsmall].
  { split_and!; [lia|lia|lia|left; lia|done]. }
  change (UINT32_MAX / 2) with 2147483647 in Hsmall.
  rewrite Nat2Z.inj_succ, Z.pow_succ_r in Hf by lia.
  rewrite wrap_id by (split; simpl; lia).
  destruct (IH (next * 2) required) as (H1 & H2 & H3 & H4); [unfold UINT32_MAX in *; lia|done|lia|].
  split_and!; [lia|lia|lia|left; lia|done].
Qed.

#[global] Arguments grow_loop : simpl never.

Lemma reserve_spec realloc_ok elem initial cap required cap' :
  0 <= cap <= UINT32_MAX -> 1 <= initial <= UINT32_MAX -> 0 <= required <= UINT32_MAX ->
  reserve realloc_ok elem initial cap required = Some cap' ->
  required <= cap' <= UINT32_MAX /\ cap <= cap' /\ (required <= cap -> cap' = cap).
Proof.
  intros Hc Hi Hr. unfold reserve. destruct (Z.leb_spec required cap); [intros [= <-]; lia|].
  destruct (grow_loop_spec GROW_FUEL (if cap =? 0 then initial else cap) required) as (H1 & H2 & _).
  - destruct (Z.eqb_spec cap 0); lia.
  - done.
  - change (2 ^ Z.of_nat GROW_FUEL) with 8589934592. unfold UINT32_MAX in *.
    destruct (Z.eqb_spec cap 0); lia.
  - cbv zeta. generalize dependent (grow_loop GROW_FUEL (if cap =? 0 then initial else cap) required).
    intros next H1 H2. destruct (next * elem >? SIZE_MAX); [discriminate|].
    destruct (realloc_ok (next * elem)); [|discriminate].
    intros [= <-]. destruct (Z.eqb_spec cap 0); lia.
Qed.

(** The doubling loop behind every growable array terminates within its
    fuel, whatever the capacity, and a successful reservation provides the
    requested room without ever wrapping the 32-bit capacity or shrinking the
    array; when there already is room nothing is allocated. *)
Theorem reserve_grows realloc_ok elem initial cap required cap' n :
  0 <= cap <= UINT32_MAX -> 1 <= initial <= UINT32_MAX -> 0 <= required <= UINT32_MAX ->
  grow_loop (GROW_FUEL + n) (if cap =? 0 then initial else cap) required =
  grow_loop GROW_FUEL (if cap =? 0 then initial else cap) required /\
  (required <= cap -> reserve realloc_ok elem initial cap required = Some cap) /\
  (reserve realloc_ok elem initial cap required = Some cap' ->
     required <= cap' <= UINT32_MAX /\ cap <= cap').
Proof.
  intros Hc Hi Hr. split_and!.
  - apply grow_loop_spec; [destruct (Z.eqb_spec cap 0); lia|done|].
    change (2 ^ Z.of_nat GROW_FUEL) with 8589934592. unfold UINT32_MAX in *.
    destruct (Z.eqb_spec cap 0); lia.
  - intros H. unfold reserve. by destruct (Z.leb_spec required cap); [|lia].
  - intros H. destruct (reserve_spec _ _ _ _ _ _ Hc Hi Hr H) as (? & ? & _). done.
Qed.

(** ** The operand stack *)

Definition stack_wf (s : turbowasm_value_stack) : Prop :=
  stack_size s <= stack_capacity s <= UINT32_MAX.

Lemma pop_snoc s v vs cap :
  s = mk_stack (vs ++ [v]) cap ->
  turbowasm_stack_pop s = (TURBOWASM_OK, mk_stack vs cap, Some v).
Proof. intros ->. unfold turbowasm_stack_pop. simpl. rewrite reverse_snoc. by rewrite reverse_involutive. Qed.

Lemma pop_kind_snoc v vs cap k :
  value_kind v = k ->
  turbowasm_stack_pop_kind (mk_stack (vs ++ [v]) cap) k = (TURBOWASM_OK, mk_stack vs cap, Some v).
Proof.
  intros Hk. unfold turbowasm_stack_pop_kind. rewrite (pop_snoc _ v vs cap) by done.
  by rewrite bool_decide_eq_true_2.
Qed.

Lemma pop_kind_wrong v vs cap k :
  value_kind v <> k ->
  turbowasm_stack_pop_kind (mk_stack (vs ++ [v]) cap) k =
  (TURBOWASM_TYPE_MISMATCH, mk_stack vs cap, Some v).
Proof.
  intros Hk. unfold turbowasm_stack_pop_kind. rewrite (pop_snoc _ v vs cap) by done.
  by rewrite bool_decide_eq_false_2.
Qed.

Lemma pop_kind_empty cap k :
  turbowasm_stack_pop_kind (mk_stack [] cap) k = (TURBOWASM_MALFORMED_MODULE, mk_stack [] cap, None).
Proof. done. Qed.

(** Pushing where there is room cannot fail. *)
Lemma push_room realloc_ok sizeof_value vs cap v :
  Z.of_nat (length vs) + 1 <= cap <= UINT32_MAX ->
  turbowasm_stack_push realloc_ok sizeof_value (mk_stack vs cap) v =
  (TURBOWASM_OK, mk_stack (vs ++ [v]) cap).
Proof.
  intros H. unfold turbowasm_stack_push, turbowasm_stack_reserve, reserve, stack_size. simpl.
  destruct (Z.eqb_spec (Z.of_nat (length vs)) UINT32_MAX); [lia|].
  destruct (Z.leb_spec (Z.of_nat (length vs) + 1) cap); [done|lia].
Qed.

Lemma push_spec realloc_ok sizeof_value s v st s' :
  stack_wf s -> turbowasm_stack_push realloc_ok sizeof_value s v = (st, s') ->
  (st = TURBOWASM_OUT_OF_MEMORY /\ s' = s /\ stack_size s = stack_capacity s) \/
  (st = TURBOWASM_OK /\ values s' = values s ++ [v] /\ stack_wf s').
Proof.
  intros [Hs Hc]. unfold turbowasm_stack_push, turbowasm_stack_reserve.
  destruct (Z.eqb_spec (stack_size s) UINT32_MAX); [intros [= <- <-]; left; split_and!; [done|done|lia]|].
  destruct (reserve _ _ _ _ _) as [cap|] eqn:Hr.
  - intros [= <- <-]. right. split_and!; [done|done|]. unfold stack_wf, stack_size in *. simpl.
    rewrite length_app. simpl. apply reserve_spec in Hr; unfold UINT32_MAX in *; lia.
  - intros [= <- <-]. left. split_and!; [done|done|].
    unfold reserve in Hr.
    destruct (Z.leb_spec (stack_size s + 1) (stack_capacity s)); [discriminate Hr|lia].
Qed.

(** A push either reports that memory is out, leaving the stack as it was
    and only when its array was full, or puts the value on top within the
    capacity, and the next pop of its kind returns it and restores the values. *)
Theorem push_pop realloc_ok sizeof_value s v st s' :
  stack_wf s -> turbowasm_stack_push realloc_ok sizeof_value s v = (st, s') ->
  (st = TURBOWASM_OUT_OF_MEMORY /\ s' = s /\ stack_size s = stack_capacity s) \/
  (st = TURBOWASM_OK /\ stack_wf s' /\
   turbowasm_stack_pop_kind s' (value_kind v) =
     (TURBOWASM_OK, mk_stack (values s) (stack_capacity s'), Some v)).
Proof.
  intros Hw Hp. destruct (push_spec _ _ _ _ _ _ Hw Hp) as [|(-> & Hv & Hw')]; [by left|right].
  split_and!; [done|done|]. destruct s' as [vs cap]. simpl in *. subst vs.
  by rewrite pop_kind_snoc.
Qed.

(** ** Rebasing *)

Lemma check_types_ok vs types :
  length vs = length types ->
  check_types vs types = TURBOWASM_OK <->
  Forall2 (fun v t => turbowasm_value_matches_type v t = true) vs types.
Proof.
  revert types. induction vs as [|v vs IH]; intros [|t types] Hlen; try done; simpl in *.
  rewrite Forall2_cons. destruct (turbowasm_value_matches_type v t).
  - rewrite IH by lia. tauto.
  - split; [by case_bool_decide|]. intros [? _]. done.
Qed.

Lemma rebase_spec s h types :
  0 <= h ->
  (exists low mid top, values s = low ++ mid ++ top /\ Z.of_nat (length low) = h /\
     Forall2 (fun v t => turbowasm_value_matches_type v t = true) top types /\
     turbowasm_exec_stack_rebase s h types =
       (TURBOWASM_OK, mk_stack (low ++ top) (stack_capacity s))) \/
  (exists st, st <> TURBOWASM_OK /\ turbowasm_exec_stack_rebase s h types = (st, s) /\
     ~ exists low mid top, values s = low ++ mid ++ top /\ Z.of_nat (length low) = h /\
       Forall2 (fun v t => turbowasm_value_matches_type v t = true) top types).
Proof.
  intros Hh. unfold turbowasm_exec_stack_rebase, turbowasm_exec_stack_check_top, stack_size.
  assert (Hbad : forall low mid top, values s = low ++ mid ++ top -> Z.of_nat (length low) = h ->
    Forall2 (fun v t => turbowasm_value_matches_type v t = true) top types ->
    length (values s) = (length low + length mid + length types)%nat).
  { intros low mid top -> _ Hf. apply Forall2_length in Hf. rewrite !length_app. lia. }
  destruct (Z.gtb_spec h (Z.of_nat (length (values s)))).
  { right. exists TURBOWASM_MALFORMED_MODULE. split_and!; [done|done|].
    intros (low & mid & top & E1 & E2 & E3). pose proof (Hbad _ _ _ E1 E2 E3). lia. }
  destruct (Z.ltb_spec (Z.of_nat (length (values s))) (Z.of_nat (length types))).
  { right. exists TURBOWASM_MALFORMED_MODULE. split_and!; [done|done|].
    intros (low & mid & top & E1 & E2 & E3). pose proof (Hbad _ _ _ E1 E2 E3). lia. }
  set (src := Z.of_nat (length (values s)) - Z.of_nat (length types)).
  assert (Hlen : length (drop (Z.to_nat src) (values s)) = length types) by (rewrite length_drop; lia).
  pose proof (check_types_ok _ _ Hlen) as Hct.
  destruct (check_types (drop (Z.to_nat src) (values s)) types) eqn:Hc.
  { destruct (Z.ltb_spec src h).
    - right. exists TURBOWASM_MALFORMED_MODULE. split_and!; [done|done|].
      intros (low & mid & top & E1 & E2 & E3). pose proof (Hbad _ _ _ E1 E2 E3). lia.
    - left. exists (take (Z.to_nat h) (values s)),
        (take (Z.to_nat (src - h)) (drop (Z.to_nat h) (values s))), (drop (Z.to_nat src) (values s)).
      split_and!; [|rewrite length_take; lia|by apply Hct|done].
      rewrite <- (take_drop (Z.to_nat h) (values s)) at 1. f_equal.
      rewrite <- (take_drop (Z.to_nat (src - h)) (drop (Z.to_nat h) (values s))) at 1. f_equal.
      rewrite drop_drop. f_equal. lia. }
  all: right; eexists; split_and!; [|done|]; [done|];
    intros (low & mid & top & E1 & E2 & E3); pose proof (Hbad _ _ _ E1 E2 E3);
    assert (Hd : drop (Z.to_nat src) (values s) = top) by
      (rewrite E1, app_assoc, drop_app_ge, length_app by (rewrite length_app; lia);
       replace (Z.to_nat src - _)%nat with 0%nat by lia; done);
    rewrite Hd in Hct; by apply Hct in E3.
Qed.

(** [keeps s s' h types]: [s'] is [s] with everything between height [h] and
    the top values, which have the types [types], removed. *)
Definition keeps (s s' : turbowasm_value_stack) (h : Z) (types : list Z) : Prop :=
  exists low mid top, values s = low ++ mid ++ top /\ Z.of_nat (length low) = h /\
    Forall2 (fun v t => turbowasm_value_matches_type v t = true) top types /\
    s' = mk_stack (low ++ top) (stack_capacity s).

(** Rebasing the operand stack succeeds exactly when the stack is some
    values up to the frame's height, anything, and then values of the expected
    types; it then keeps the first and the last part, and otherwise leaves the
    stack alone. *)
Theorem rebase_exact s h types :
  0 <= h ->
  (forall s', turbowasm_exec_stack_rebase s h types = (TURBOWASM_OK, s') <-> keeps s s' h types) /\
  (forall st s', turbowasm_exec_stack_rebase s h types = (st, s') -> st <> TURBOWASM_OK -> s' = s).
Proof.
  intros Hh. destruct (rebase_spec s h types Hh) as [(low & mid & top & E1 & E2 & E3 & E4)
                                                    |(st & Hst & E & Hno)].
  - split; [|intros st s'; rewrite E4; by intros [= <- <-]].
    intros s'. rewrite E4. split.
    + intros [= <-]. by exists low, mid, top.
    + intros (low' & mid' & top' & F1 & F2 & F3 & ->). do 2 f_equal.
      apply Forall2_length in E3 as Hl, F3 as Hl'. rewrite E1 in F1.
      apply app_inj_1 in F1 as [<- F1]; [|lia]. apply app_inj_2 in F1 as [_ <-]; [done|lia].
  - split; [|intros st' s'; rewrite E; by intros [= <- <-]].
    intros s'. rewrite E. split; [by intros [= -> _]|].
    intros (low & mid & top & F1 & F2 & F3 & _). destruct Hno. by exists low, mid, top.
Qed.

Lemma rebase_ok s h types s' :
  0 <= h -> turbowasm_exec_stack_rebase s h types = (TURBOWASM_OK, s') -> keeps s s' h types.
Proof.
  intros Hh Hr. destruct (rebase_spec s h types Hh) as [(low & mid & top & E1 & E2 & E3 & E4)
                                                       |(st & Hst & E & Hno)].
  - rewrite Hr in E4. injection E4 as ->. by exists low, mid, top.
  - rewrite Hr in E. by injection E as <- <-.
Qed.

Lemma rebase_fail s h types st s' :
  0 <= h -> turbowasm_exec_stack_rebase s h types = (st, s') -> st <> TURBOWASM_OK -> s' = s.
Proof.
  intros Hh Hr Hst. destruct (rebase_spec s h types Hh) as [(low & mid & top & E1 & E2 & E3 & E4)
                                                       |(st' & _ & E & _)].
  - rewrite Hr in E4. by injection E4 as -> _.
  - rewrite Hr in E. by injection E as _ ->.
Qed.

(** ** Control frames *)

(** The bottom frame is the function's, at height zero; heights do not decrease
    and stay within the operand stack. *)
Record nested (c : turbowasm_exec_control_stack) (s : turbowasm_value_stack) : Prop := {
  n_bottom : exists f fs, frames c = f :: fs /\ frame_kind f = CONTROL_FUNCTION /\
               Forall (fun f => frame_kind f <> CONTROL_FUNCTION) fs;
  n_sorted : StronglySorted Z.le (height <$> frames c);
  n_heights : Forall (fun f => 0 <= height f <= stack_size s) (frames c)
}.

Lemma keeps_size s s' h types : keeps s s' h types -> h <= stack_size s'.
Proof.
  intros (low & mid & top & _ & <- & _ & ->). unfold stack_size. simpl. rewrite length_app. lia.
Qed.

Lemma sorted_take_le (fs : list turbowasm_exec_control_frame) k f n :
  StronglySorted Z.le (height <$> fs) -> fs !! k = Some f -> (n <= S k)%nat ->
  Forall (fun g => height g <= height f) (take n fs).
Proof.
  intros Hs Hk Hn. apply Forall_lookup_2. intros j g Hj. apply lookup_take_Some in Hj as [Hj Hlt].
  destruct (decide (j = k)) as [->|]; [simplify_eq; lia|].
  eapply (StronglySorted_app_1_elem_of Z.le (height <$> take k fs) (height <$> drop k fs)).
  - rewrite <- fmap_app, take_drop. done.
  - apply list_elem_of_fmap. exists g. split; [done|].
    apply list_elem_of_lookup. exists j. rewrite lookup_take_lt by lia. done.
  - apply list_elem_of_fmap. exists f. split; [done|].
    apply list_elem_of_lookup. exists 0%nat. rewrite lookup_drop, Nat.add_0_r. done.
Qed.

(** Cutting the control stack just above or at a frame whose height is within
    the operand stack keeps the nesting. *)
Lemma nested_truncate c s s' k f n cap :
  nested c s -> frames c !! k = Some f -> (1 <= n <= S k)%nat -> height f <= stack_size s' ->
  nested (mk_controls (take n (frames c)) cap) s'.
Proof.
  intros [(f0 & fs & Hf & Hk0 & Hks) Hs Hh] Hk Hn Hh'. split; simpl.
  - destruct n as [|n]; [lia|]. rewrite Hf. simpl. exists f0, (take n fs).
    split_and!; [done|done|by apply Forall_take].
  - rewrite fmap_take. rewrite <- (take_drop n (height <$> frames c)) in Hs.
    by apply StronglySorted_app_1_l in Hs.
  - apply Forall_forall. intros g Hg.
    pose proof (sorted_take_le _ _ _ n Hs Hk ltac:(lia)) as Hle. rewrite Forall_forall in Hle, Hh.
    specialize (Hle g Hg). 
    assert (Hin : g ∈ frames c) by (rewrite <- (take_drop n (frames c)); apply elem_of_app; by left).
    specialize (Hh g Hin). lia.
Qed.

(** Where a branch to frame [target], number [k] from the bottom, arrives. *)
Definition arrives (f : turbowasm_validation_function) (b b' : branch_state) (k : nat)
    (target : turbowasm_exec_control_frame) : Prop :=
  let at_offset (ofs : turbowasm_validation_control -> Z) :=
    b_finished b' = b_finished b /\ b_returned b' = b_returned b /\
    exists ann base, annotation target = Some ann /\ code f = Some base /\
      ofs ann <= code_size f /\
      b_reader b' = mk_reader (Some (base + ofs ann)) (Some (base + code_size f)) in
  match frame_kind target with
  | CONTROL_FUNCTION =>
      frames (b_controls b') = [target] /\ b_reader b' = b_reader b /\
      b_finished b' = true /\ b_returned b' = true
  | CONTROL_LOOP => frames (b_controls b') = take (S k) (frames (b_controls b)) /\ at_offset body_offset
  | _ => frames (b_controls b') = take k (frames (b_controls b)) /\
         at_offset (fun ann => end_offset ann + 1)
  end.

Lemma function_frame_bottom c s k f :
  nested c s -> frames c !! k = Some f -> frame_kind f = CONTROL_FUNCTION <-> k = 0%nat.
Proof.
  intros [(f0 & fs & Hf & Hk0 & Hks) _ _] Hk. rewrite Hf in Hk. destruct k as [|k]; simpl in Hk.
  - simplify_eq. done.
  - split; [|done]. intros Hc. rewrite Forall_lookup in Hks. by destruct (Hks k f Hk).
Qed.

Lemma jump_ok r f ofs r' :
  turbowasm_exec_jump r f ofs = (TURBOWASM_OK, r') ->
  exists base, code f = Some base /\ ofs <= code_size f /\
    r' = mk_reader (Some (base + ofs)) (Some (base + code_size f)).
Proof.
  unfold turbowasm_exec_jump. destruct (code f) as [base|]; [|done].
  destruct (Z.gtb_spec ofs (code_size f)); [done|]. intros [= <-]. by exists base.
Qed.

Lemma branch_spec f depth b b' :
  nested (b_controls b) (b_stack b) -> 0 <= depth ->
  (forall fr ann, fr ∈ frames (b_controls b) -> annotation fr = Some ann -> is_uint 32 (end_offset ann)) ->
  turbowasm_exec_branch f depth b = (TURBOWASM_OK, b') ->
  exists target k, Z.of_nat k = controls_size (b_controls b) - 1 - depth /\
    frames (b_controls b) !! k = Some target /\
    keeps (b_stack b) (b_stack b') (height target) (label_types target) /\
    arrives f b b' k target.
Proof.
  intros Hn Hd Hoff. unfold turbowasm_exec_branch.
  rewrite Z.geb_leb. destruct (Z.leb_spec (controls_size (b_controls b)) depth); [done|].
  set (idx := controls_size (b_controls b) - 1 - depth).
  destruct (frames (b_controls b) !! Z.to_nat idx) as [target|] eqn:Ht; [|done].
  pose proof (n_heights _ _ Hn) as Hh. rewrite Forall_lookup in Hh. pose proof (Hh _ _ Ht) as Hht.
  destruct (turbowasm_exec_stack_rebase _ _ _) as [st s'] eqn:Hr. destruct st; try done.
  apply rebase_ok in Hr; [|lia]. pose proof (function_frame_bottom _ _ _ _ Hn Ht) as Hbot.
  intros Heq. exists target, (Z.to_nat idx). split_and!; [lia|done| |].
  { revert Heq. repeat case_match; intros Heq; by simplify_eq/=. }
  unfold arrives. revert Heq. case_bool_decide as Hfun.
  { intros [= <-]. rewrite Hfun. simpl. split_and!; try done.
    assert (Z.to_nat idx = 0%nat) as Hz by (by apply Hbot).
    rewrite Hz in Ht. destruct (frames (b_controls b)); [done|]. simpl in *. by simplify_eq. }
  destruct (annotation target) as [ann|] eqn:Hann; [|done].
  assert (Hu : is_uint 32 (end_offset ann)).
  { eapply Hoff; [|done]. by eapply list_elem_of_lookup_2. }
  destruct (Z.eqb_spec (end_offset ann) UINT32_MAX); [done|].
  assert (Hw : u32 (end_offset ann + 1) = end_offset ann + 1).
  { apply wrap_id. unfold UINT32_MAX in *. destruct Hu. split; simpl in *; lia. }
  case_bool_decide as Hloop.
  - destruct (turbowasm_exec_jump _ _ _) as [st r'] eqn:Hj. intros [= -> <-].
    apply jump_ok in Hj as (base & Hc & Hle & ->). rewrite Hloop. simpl.
    split_and!; try done; [f_equal; lia|]. by exists ann, base.
  - destruct (turbowasm_exec_jump _ _ _) as [st r'] eqn:Hj. intros [= -> <-]. rewrite Hw in Hj.
    apply jump_ok in Hj as (base & Hc & Hle & ->).
    destruct (frame_kind target); try done; simpl; split_and!; try done; by exists ann, base.
Qed.

Lemma branch_nested f depth b b' :
  nested (b_controls b) (b_stack b) -> 0 <= depth ->
  (forall fr ann, fr ∈ frames (b_controls b) -> annotation fr = Some ann -> is_uint 32 (end_offset ann)) ->
  turbowasm_exec_branch f depth b = (TURBOWASM_OK, b') ->
  nested (b_controls b') (b_stack b').
Proof.
  intros Hn Hd Hoff Hb. destruct (branch_spec _ _ _ _ Hn Hd Hoff Hb) as (t & k & Hk & Ht & Hkeep & Ha).
  pose proof (keeps_size _ _ _ _ Hkeep) as Hsz. pose proof (function_frame_bottom _ _ _ _ Hn Ht) as Hbot.
  assert (Hcut : forall n, (1 <= n <= S k)%nat -> frames (b_controls b') = take n (frames (b_controls b)) ->
            nested (b_controls b') (b_stack b')).
  { intros n Hle Hf. destruct (b_controls b') as [fs cap]. simpl in Hf. subst fs.
    by eapply nested_truncate. }
  unfold arrives in Ha. destruct (frame_kind t) eqn:Hkind.
  - destruct Ha as [Hf _]. assert (k = 0%nat) as -> by (by apply Hbot).
    apply (Hcut 1%nat); [lia|]. rewrite Hf.
    destruct (frames (b_controls b)) as [|f0 fs]; [done|]. simpl in *. by simplify_eq.
  - assert (k <> 0%nat) by (intros ->; assert (CONTROL_BLOCK = CONTROL_FUNCTION) by (by apply Hbot); done).
    apply (Hcut k); [lia|]. apply Ha.
  - apply (Hcut (S k)); [lia|]. apply Ha.
  - assert (k <> 0%nat) by (intros ->; assert (CONTROL_IF = CONTROL_FUNCTION) by (by apply Hbot); done).
    apply (Hcut k); [lia|]. apply Ha.
  - assert (k <> 0%nat) by (intros ->; assert (CONTROL_TRY_TABLE = CONTROL_FUNCTION) by (by apply Hbot); done).
    apply (Hcut k); [lia|]. apply Ha.
Qed.

Lemma check_top_size s types :
  turbowasm_exec_stack_check_top s types = TURBOWASM_OK -> Z.of_nat (length types) <= stack_size s.
Proof.
  unfold turbowasm_exec_stack_check_top.
  by destruct (Z.ltb_spec (stack_size s) (Z.of_nat (length types))).
Qed.

Lemma control_push_spec realloc_ok sizeof_frame c s kind ann sg st c' :
  turbowasm_exec_control_push realloc_ok sizeof_frame c s kind ann sg = (st, c') ->
  (st <> TURBOWASM_OK /\ c' = c) \/
  (st = TURBOWASM_OK /\ exists f, frames c' = frames c ++ [f] /\ frame_kind f = kind /\
     height f = stack_size s - Z.of_nat (length (turbowasm_exec_frame_start_types f)) /\
     0 <= height f <= stack_size s).
Proof.
  unfold turbowasm_exec_control_push, turbowasm_exec_controls_reserve.
  destruct (controls_size c =? UINT32_MAX); [intros [= <- <-]; by left|].
  destruct (turbowasm_exec_stack_check_top s _) eqn:Hc; try (intros [= <- <-]; by left).
  apply check_top_size in Hc. destruct (reserve _ _ _ _ _); [|intros [= <- <-]; by left].
  intros [= <- <-]. right. split; [done|]. eexists. split; [done|]. simpl.
  split_and!; [done|done| |]; unfold turbowasm_exec_frame_start_types in *; simpl in *; lia.
Qed.

Lemma nested_push c s f cap :
  nested c s -> frame_kind f <> CONTROL_FUNCTION -> 0 <= height f <= stack_size s ->
  Forall (fun g => height g <= height f) (frames c) ->
  nested (mk_controls (frames c ++ [f]) cap) s.
Proof.
  intros [(f0 & fs & Hf & Hk0 & Hks) Hs Hh] Hk Hhf Hle. split; simpl.
  - exists f0, (fs ++ [f]). rewrite Hf. split_and!; [done|done|]. apply Forall_app. split; [done|by apply Forall_singleton].
  - rewrite fmap_app. apply StronglySorted_app_2; [|done|repeat constructor].
    intros x y Hx Hy. apply list_elem_of_fmap in Hx as (g & -> & Hg). rewrite Forall_forall in Hle.
    simpl in Hy. apply list_elem_of_singleton in Hy as ->. by apply Hle.
  - apply Forall_app. split; [done|by apply Forall_singleton].
Qed.

Lemma finish_nested s c s' c' :
  nested c s -> turbowasm_exec_finish_control s c = (TURBOWASM_OK, s', c') -> nested c' s'.
Proof.
  intros Hn. unfold turbowasm_exec_finish_control, controls_size.
  destruct (Z.leb_spec (Z.of_nat (length (frames c))) 1) as [|Hsz]; [done|].
  destruct (last (frames c)) as [fr|] eqn:Hl; [|done].
  rewrite last_lookup in Hl. pose proof (n_heights _ _ Hn) as Hh. rewrite Forall_lookup in Hh.
  pose proof (Hh _ _ Hl). destruct (turbowasm_exec_stack_rebase _ _ _) as [st s1] eqn:Hr.
  destruct st; try done. intros [= <- <-]. apply rebase_ok in Hr; [|lia]. apply keeps_size in Hr.
  eapply nested_truncate; [done|exact Hl| |done]. lia.
Qed.

(** C34. A branch finds the frame [depth] levels out, carries the label's values
    (a loop's parameters, otherwise the block's results) down to that frame's
    height, drops the frames it leaves (keeping a loop's own) and continues at
    the loop body, after the block's end, or ends the function. *)
Theorem branch_unwinds f depth b b' :
  nested (b_controls b) (b_stack b) -> 0 <= depth ->
  (forall fr ann, fr ∈ frames (b_controls b) -> annotation fr = Some ann -> is_uint 32 (end_offset ann)) ->
  turbowasm_exec_branch f depth b = (TURBOWASM_OK, b') ->
  exists target k, Z.of_nat k = controls_size (b_controls b) - 1 - depth /\
    frames (b_controls b) !! k = Some target /\
    keeps (b_stack b) (b_stack b') (height target) (label_types target) /\
    arrives f b b' k target.
Proof. apply branch_spec. Qed.

(** The control stack stays properly nested (the function frame at the
    bottom, heights non-decreasing and within the operand stack) when a block
    whose operands lie above the innermost frame is entered, when a block ends
    and when control branches out. *)
Theorem nesting_preserved realloc_ok sizeof_frame c s :
  nested c s ->
  (forall kind ann sg c', kind <> CONTROL_FUNCTION ->
     turbowasm_exec_control_push realloc_ok sizeof_frame c s kind ann sg = (TURBOWASM_OK, c') ->
     Forall (fun g => height g <= stack_size s -
       Z.of_nat (length (match indexed_type sg with Some t => params t | None => [] end))) (frames c) ->
     nested c' s) /\
  (forall s' c', turbowasm_exec_finish_control s c = (TURBOWASM_OK, s', c') -> nested c' s') /\
  (forall f depth r fin ret b', 0 <= depth ->
     (forall fr ann, fr ∈ frames c -> annotation fr = Some ann -> is_uint 32 (end_offset ann)) ->
     turbowasm_exec_branch f depth (mk_branch s c r fin ret) = (TURBOWASM_OK, b') ->
     nested (b_controls b') (b_stack b')).
Proof.
  intros Hn. split_and!.
  - intros kind ann sg c' Hk Hp Hle.
    destruct (control_push_spec _ _ _ _ _ _ _ _ _ Hp) as [[? _]|(_ & f & Hf & Hkf & Hh & Hr)]; [done|].
    destruct c' as [fs cap]. simpl in Hf. subst fs. apply nested_push; [done|by rewrite Hkf|done|].
    revert Hp. unfold turbowasm_exec_control_push, turbowasm_exec_controls_reserve.
    destruct (controls_size c =? UINT32_MAX); [done|].
    destruct (turbowasm_exec_stack_check_top s _) eqn:Hc; try done.
    destruct (reserve _ _ _ _ _); [|done]. intros [= Hfr _]. apply app_inj_2 in Hfr as [_ [= <-]]; [|done].
    simpl. unfold turbowasm_exec_frame_start_types. simpl. by rewrite bool_decide_eq_false_2.
  - intros s' c'. by apply finish_nested.
  - intros f depth r fin ret b' Hd Hoff Hb. by eapply (branch_nested f depth (mk_branch s c r fin ret)).
Qed.

(** ** Witnesses *)

(** A function with one block open over one parameter value. *)
Definition demo_ann : turbowasm_validation_control := 
  mk_control VALIDATION_CONTROL_BLOCK 3 5 UINT32_MAX 9 UINT32_MAX 0x7f [].
Definition demo_function : turbowasm_validation_function := 
  mk_function 0 false [] [] (Some 100) 12 [demo_ann] 4.
Definition demo_frames : list turbowasm_exec_control_frame :=
  [mk_frame CONTROL_FUNCTION 0 None (Some zero_func_type) 0 false;
   mk_frame CONTROL_BLOCK 1 (Some demo_ann) None 0x7f true].
Definition demo_controls : turbowasm_exec_control_stack := mk_controls demo_frames 8.
Definition demo_stack : turbowasm_value_stack := mk_stack [VI64 1; VI32 2; VI32 3] 16.
Definition demo_branch : branch_state :=
  mk_branch demo_stack demo_controls (mk_reader (Some 105) (Some 112)) false false.

Lemma demo_nested : nested demo_controls demo_stack.
Proof.
  split.
  - do 2 eexists. split_and!; [done|done|]. by repeat constructor.
  - simpl. repeat constructor; lia.
  - repeat constructor; simpl; unfold stack_size; simpl; lia.
Qed.

Lemma demo_offsets fr ann :
  fr ∈ frames demo_controls -> annotation fr = Some ann -> is_uint 32 (end_offset ann).
Proof.
  unfold demo_controls, demo_frames. simpl. intros Hin. rewrite !elem_of_cons in Hin. destruct Hin as [->|[->|Hin]]; simpl; [done| |].
  - intros [= <-]. by apply (bool_decide_unpack _).
  - by apply not_elem_of_nil in Hin.
Qed.

Lemma reserve_grows_witness :
  reserve (fun _ => true) 16 16 0 40 = Some 64 /\ 40 <= 64 <= UINT32_MAX.
Proof.
  split; [reflexivity|].
  apply (reserve_grows (fun _ => true) 16 16 0 40 64 0); unfold UINT32_MAX; lia || reflexivity.
Defined.

Lemma push_pop_witness :
  exists s', turbowasm_stack_push (fun _ => false) 16 demo_stack (VF32 7) = (TURBOWASM_OK, s') /\
    turbowasm_stack_pop_kind s' TURBOWASM_VALUE_F32 =
      (TURBOWASM_OK, mk_stack (values demo_stack) (stack_capacity s'), Some (VF32 7)).
Proof.
  eexists. split; [reflexivity|].
  destruct (push_pop (fun _ => false) 16 demo_stack (VF32 7) TURBOWASM_OK
              (mk_stack [VI64 1; VI32 2; VI32 3; VF32 7] 16)) as [(? & _)|(_ & _ & H)];
    [by apply (bool_decide_unpack _)|reflexivity|done|exact H].
Defined.

Lemma rebase_exact_witness :
  turbowasm_exec_stack_rebase demo_stack 1 [0x7f] = (TURBOWASM_OK, mk_stack [VI64 1; VI32 3] 16).
Proof.
  apply (proj1 (rebase_exact demo_stack 1 [0x7f] ltac:(lia))).
  exists [VI64 1], [VI32 2], [VI32 3]. split_and!; try reflexivity. repeat constructor.
Defined.

Lemma branch_unwinds_witness :
  exists b', turbowasm_exec_branch demo_function 0 demo_branch = (TURBOWASM_OK, b') /\
    exists target k, frames demo_controls !! k = Some target /\ arrives demo_function demo_branch b' k target.
Proof.
  eexists. split; [reflexivity|].
  edestruct (branch_unwinds demo_function 0 demo_branch) as (target & k & _ & Ht & _ & Ha);
    [apply demo_nested|lia|apply demo_offsets|reflexivity|].
  exists target, k. split; [exact Ht|exact Ha].
Defined.

Lemma nesting_preserved_witness :
  exists s' c', turbowasm_exec_finish_control demo_stack demo_controls = (TURBOWASM_OK, s', c') /\
    nested c' s'.
Proof.
  do 2 eexists. split; [reflexivity|].
  eapply (nesting_preserved (fun _ => true) 56 demo_controls demo_stack demo_nested). reflexivity.
Defined.

End ExecStack.
