(* ===== verification/Numeric.v ===== *)
(** * Integer instructions of the interpreter (src/instance.c)

    The handlers of the i32 and i64 test, comparison, unary and binary
    instructions pop their operands, compute and push. They run in the monad
    [exec] of the operand stack and the trap slot, which stops at the first
    status that is not OK. They are shown to implement the numerics of the
    WebAssembly specification, stated on unsigned numbers in [spec_*]. *)

From S2P Require Import Prelude Value ExecStack IntOps.

Module Numeric.
Import Value ExecStack IntOps.

(** ** The monad of instruction handlers *)

Record exec_state := mk_exec { x_stack : turbowasm_value_stack; x_trap : turbowasm_trap }.

(** [inl status] is an early return. *)
Definition exec (A : Type) : Type := exec_state -> (turbowasm_status + A) * exec_state.

#[global] Instance exec_ret : MRet exec := fun A a x => (inr a, x).
#[global] Instance exec_bind : MBind exec := fun A B k m x =>
  match m x with
  | (inl status, x') => (inl status, x')
  | (inr a, x') => k a x'
  end.

Definition stop {A} (status : turbowasm_status) : exec A := fun x => (inl status, x).

(** Set [*trap] and return TRAPPED. *)
Definition trap_with {A} (t : turbowasm_trap) : exec A :=
  fun x => (inl TURBOWASM_TRAPPED, mk_exec (x_stack x) t).

(** The status a handler returns, with the state it leaves. *)
Definition run (m : exec unit) (x : exec_state) : turbowasm_status * exec_state :=
  match m x with
  | (inl status, x') => (status, x')
  | (inr _, x') => (TURBOWASM_OK, x')
  end.

Definition pop_kind (k : turbowasm_value_kind) : exec turbowasm_value := fun x =>
  match turbowasm_stack_pop_kind (x_stack x) k with
  | (TURBOWASM_OK, s, Some v) => (inr v, mk_exec s (x_trap x))
  | (status, s, _) => (inl status, mk_exec s (x_trap x))
  end.

(** The union member read after the kind was checked. *)
Definition as_i32 (v : turbowasm_value) : Z := match v with VI32 z => z | _ => 0 end.
Definition as_i64 (v : turbowasm_value) : Z := match v with VI64 z => z | _ => 0 end.

Section Host.
Context (realloc_ok : Z -> bool) (sizeof_value : Z).

Definition push (v : turbowasm_value) : exec unit := fun x =>
  match turbowasm_stack_push realloc_ok sizeof_value (x_stack x) v with
  | (TURBOWASM_OK, s) => (inr tt, mk_exec s (x_trap x))
  | (status, s) => (inl status, mk_exec s (x_trap x))
  end.

(** ** The handlers *)

Definition turbowasm_exec_i32_test_or_compare (opcode : Z) : exec unit :=
  if opcode =? 0x45 then
    left ← pop_kind TURBOWASM_VALUE_I32;
    push (VI32 (Z.b2z (as_i32 left =? 0)))
  else
    right ← pop_kind TURBOWASM_VALUE_I32;
    left ← pop_kind TURBOWASM_VALUE_I32;
    let l := as_i32 left in let r := as_i32 right in
    let a := u32 l in let b := u32 r in
    out ← switch opcode
      [(0x46, mret (l =? r)); (0x47, mret (negb (l =? r)));
       (0x48, mret (l <? r)); (0x49, mret (a <? b));
       (0x4a, mret (l >? r)); (0x4b, mret (a >? b));
       (0x4c, mret (l <=? r)); (0x4d, mret (a <=? b));
       (0x4e, mret (l >=? r)); (0x4f, mret (a >=? b))]
      (stop TURBOWASM_UNSUPPORTED);
    push (VI32 (Z.b2z out)).

Definition turbowasm_exec_i64_test_or_compare (opcode : Z) : exec unit :=
  if opcode =? 0x50 then
    left ← pop_kind TURBOWASM_VALUE_I64;
    push (VI32 (Z.b2z (as_i64 left =? 0)))
  else
    right ← pop_kind TURBOWASM_VALUE_I64;
    left ← pop_kind TURBOWASM_VALUE_I64;
    let l := as_i64 left in let r := as_i64 right in
    let a := u64 l in let b := u64 r in
    out ← switch opcode
      [(0x51, mret (l =? r)); (0x52, mret (negb (l =? r)));
       (0x53, mret (l <? r)); (0x54, mret (a <? b));
       (0x55, mret (l >? r)); (0x56, mret (a >? b));
       (0x57, mret (l <=? r)); (0x58, mret (a <=? b));
       (0x59, mret (l >=? r)); (0x5a, mret (a >=? b))]
      (stop TURBOWASM_UNSUPPORTED);
    push (VI32 (Z.b2z out)).

Definition turbowasm_exec_i32_unary (opcode : Z) : exec unit :=
  v ← pop_kind TURBOWASM_VALUE_I32;
  let value := u32 (as_i32 v) in
  out ← switch opcode
    [(0x67, mret (s32 (turbowasm_clz32 value)));
     (0x68, mret (s32 (turbowasm_ctz32 value)));
     (0x69, mret (s32 (turbowasm_popcnt32 value)))]
    (stop TURBOWASM_UNSUPPORTED);
  push (VI32 out).

Definition turbowasm_exec_i64_unary (opcode : Z) : exec unit :=
  v ← pop_kind TURBOWASM_VALUE_I64;
  let value := u64 (as_i64 v) in
  out ← switch opcode
    [(0x79, mret (s64 (turbowasm_clz64 value)));
     (0x7a, mret (s64 (turbowasm_ctz64 value)));
     (0x7b, mret (s64 (turbowasm_popcnt64 value)))]
    (stop TURBOWASM_UNSUPPORTED);
  push (VI64 out).

Definition turbowasm_exec_i32_binary (opcode : Z) : exec unit :=
  right ← pop_kind TURBOWASM_VALUE_I32;
  left ← pop_kind TURBOWASM_VALUE_I32;
  let l := as_i32 left in let r := as_i32 right in
  let a := u32 l in let b := u32 r in
  out ← switch opcode
    [(0x6a, mret (s32 (u32 (a + b))));
     (0x6b, mret (s32 (u32 (a - b))));
     (0x6c, mret (s32 (u32 (a * b))));
     (0x6d, if r =? 0 then trap_with TRAP_INTEGER_DIVIDE_BY_ZERO
            else if (l =? INT32_MIN) && (r =? -1) then trap_with TRAP_INTEGER_OVERFLOW
            else mret (Z.quot l r));
     (0x6e, if b =? 0 then trap_with TRAP_INTEGER_DIVIDE_BY_ZERO else mret (s32 (a / b)));
     (0x6f, if r =? 0 then trap_with TRAP_INTEGER_DIVIDE_BY_ZERO
            else mret (if (l =? INT32_MIN) && (r =? -1) then 0 else Z.rem l r));
     (0x70, if b =? 0 then trap_with TRAP_INTEGER_DIVIDE_BY_ZERO else mret (s32 (a mod b)));
     (0x71, mret (s32 (a .& b)));
     (0x72, mret (s32 (a .| b)));
     (0x73, mret (s32 (a .^ b)));
     (0x74, mret (s32 (u32 (a ≪ (b .& 31)))));
     (0x75, mret (turbowasm_sar32 l b));
     (0x76, mret (s32 (a ≫ (b .& 31))));
     (0x77, mret (s32 (turbowasm_rotl32 a b)));
     (0x78, mret (s32 (turbowasm_rotr32 a b)))]
    (stop TURBOWASM_UNSUPPORTED);
  push (VI32 out).

Definition turbowasm_exec_i64_binary (opcode : Z) : exec unit :=
  right ← pop_kind TURBOWASM_VALUE_I64;
  left ← pop_kind TURBOWASM_VALUE_I64;
  let l := as_i64 left in let r := as_i64 right in
  let a := u64 l in let b := u64 r in
  out ← switch opcode
    [(0x7c, mret (s64 (u64 (a + b))));
     (0x7d, mret (s64 (u64 (a - b))));
     (0x7e, mret (s64 (u64 (a * b))));
     (0x7f, if r =? 0 then trap_with TRAP_INTEGER_DIVIDE_BY_ZERO
            else if (l =? INT64_MIN) && (r =? -1) then trap_with TRAP_INTEGER_OVERFLOW
            else mret (Z.quot l r));
     (0x80, if b =? 0 then trap_with TRAP_INTEGER_DIVIDE_BY_ZERO else mret (s64 (a / b)));
     (0x81, if r =? 0 then trap_with TRAP_INTEGER_DIVIDE_BY_ZERO
            else mret (if (l =? INT64_MIN) && (r =? -1) then 0 else Z.rem l r));
     (0x82, if b =? 0 then trap_with TRAP_INTEGER_DIVIDE_BY_ZERO else mret (s64 (a mod b)));
     (0x83, mret (s64 (a .& b)));
     (0x84, mret (s64 (a .| b)));
     (0x85, mret (s64 (a .^ b)));
     (0x86, mret (s64 (u64 (a ≪ (b .& 63)))));
     (0x87, mret (turbowasm_sar64 l b));
     (0x88, mret (s64 (a ≫ (b .& 63))));
     (0x89, mret (s64 (turbowasm_rotl64 a b)));
     (0x8a, mret (s64 (turbowasm_rotr64 a b)))]
    (stop TURBOWASM_UNSUPPORTED);
  push (VI64 out).

End Host.

(** ** The specification of the instructions

    Operations of the WebAssembly specification on unsigned numbers of width
    [w]; [inr t] is the trap of a partial operation. *)

Inductive testop := Eqz.
Inductive relop := Eq | Ne | LtS | LtU | GtS | GtU | LeS | LeU | GeS | GeU.
Inductive unop := Clz | Ctz | Popcnt.
Inductive binop :=
  Add | Sub | Mul | DivS | DivU | RemS | RemU | And | Or | Xor | Shl | ShrS | ShrU | Rotl | Rotr.

Definition spec_relop (w : Z) (op : relop) (x y : Z) : bool :=
  let j := to_signed w x in let k := to_signed w y in
  match op with
  | Eq => bool_decide (x = y)
  | Ne => bool_decide (x <> y)
  | LtS => bool_decide (j < k)
  | LtU => bool_decide (x < y)
  | GtS => bool_decide (j > k)
  | GtU => bool_decide (x > y)
  | LeS => bool_decide (j <= k)
  | LeU => bool_decide (x <= y)
  | GeS => bool_decide (j >= k)
  | GeU => bool_decide (x >= y)
  end.

Definition spec_unop (w : Z) (op : unop) (x : Z) : Z :=
  match op with
  | Clz => if decide (x = 0) then w else w - 1 - Z.log2 x
  | Ctz => match list_find (fun i => Z.testbit x i = true) (seqZ 0 w) with
           | Some (_, i) => i
           | None => w
           end
  | Popcnt => bits_set (Z.to_nat w) x
  end.

Definition spec_binop (w : Z) (op : binop) (x y : Z) : Z + turbowasm_trap :=
  let j := to_signed w x in let k := to_signed w y in
  let n := y mod w in
  match op with
  | Add => inl ((x + y) mod 2 ^ w)
  | Sub => inl ((x - y) mod 2 ^ w)
  | Mul => inl ((x * y) mod 2 ^ w)
  | DivS => if decide (y = 0) then inr TRAP_INTEGER_DIVIDE_BY_ZERO
            else if decide (Z.quot j k = 2 ^ (w - 1)) then inr TRAP_INTEGER_OVERFLOW
            else inl (Z.quot j k mod 2 ^ w)
  | DivU => if decide (y = 0) then inr TRAP_INTEGER_DIVIDE_BY_ZERO else inl (x / y)
  | RemS => if decide (y = 0) then inr TRAP_INTEGER_DIVIDE_BY_ZERO else inl (Z.rem j k mod 2 ^ w)
  | RemU => if decide (y = 0) then inr TRAP_INTEGER_DIVIDE_BY_ZERO else inl (x mod y)
  | And => inl (Z.land x y)
  | Or => inl (Z.lor x y)
  | Xor => inl (Z.lxor x y)
  | Shl => inl ((x * 2 ^ n) mod 2 ^ w)
  | ShrS => inl ((j / 2 ^ n) mod 2 ^ w)
  | ShrU => inl (x / 2 ^ n)
  | Rotl => inl ((x * 2 ^ n) mod 2 ^ w + x / 2 ^ (w - n))
  | Rotr => inl (x / 2 ^ n + (x * 2 ^ (w - n)) mod 2 ^ w)
  end.

(** The opcodes of the binary format. *)
Definition i32_relop (opcode : Z) : option relop :=
  switch opcode [(0x46, Some Eq); (0x47, Some Ne); (0x48, Some LtS); (0x49, Some LtU);
    (0x4a, Some GtS); (0x4b, Some GtU); (0x4c, Some LeS); (0x4d, Some LeU);
    (0x4e, Some GeS); (0x4f, Some GeU)] None.
Definition i64_relop (opcode : Z) : option relop := i32_relop (opcode - 11).
Definition i32_unop (opcode : Z) : option unop :=
  switch opcode [(0x67, Some Clz); (0x68, Some Ctz); (0x69, Some Popcnt)] None.
Definition i64_unop (opcode : Z) : option unop := i32_unop (opcode - 18).
Definition i32_binop (opcode : Z) : option binop :=
  switch opcode [(0x6a, Some Add); (0x6b, Some Sub); (0x6c, Some Mul); (0x6d, Some DivS);
    (0x6e, Some DivU); (0x6f, Some RemS); (0x70, Some RemU); (0x71, Some And); (0x72, Some Or);
    (0x73, Some Xor); (0x74, Some Shl); (0x75, Some ShrS); (0x76, Some ShrU); (0x77, Some Rotl);
    (0x78, Some Rotr)] None.
Definition i64_binop (opcode : Z) : option binop := i32_binop (opcode - 18).

(** ** Arithmetic facts, for any width *)

Definition width (w : Z) : Prop := w = 32 \/ w = 64.

Lemma width_pos w : width w -> 0 < w.
Proof. intros [-> | ->]; lia. Qed.

Lemma pow_half w : 0 < w -> 2 ^ w = 2 * 2 ^ (w - 1).
Proof. intros. rewrite <- Z.pow_succ_r by lia. f_equal. lia. Qed.

Lemma wrap_zero_iff w z : 0 < w -> is_sint w z -> wrap w z = 0 <-> z = 0.
Proof.
  intros Hw Hz. split; [|by intros ->]. intros H. rewrite <- (to_signed_wrap w z), H by done.
  unfold to_signed. destruct (Z.ltb_spec 0 (2 ^ (w - 1))); [done|].
  pose proof (pow2_pos (w - 1)). lia.
Qed.

Lemma wrap_inj w x y : 0 < w -> is_sint w x -> is_sint w y -> wrap w x = wrap w y -> x = y.
Proof. intros Hw Hx Hy H. rewrite <- (to_signed_wrap w x), H by done. by apply to_signed_wrap. Qed.

Lemma quot_overflow w l r :
  0 < w -> is_sint w l -> is_sint w r -> r <> 0 ->
  (Z.quot l r = 2 ^ (w - 1) <-> l = - 2 ^ (w - 1) /\ r = -1) /\
  (Z.quot l r <> 2 ^ (w - 1) -> is_sint w (Z.quot l r)).
Proof.
  intros Hw [Hl1 Hl2] [Hr1 Hr2] Hr0. pose proof (pow2_pos (w - 1) ltac:(lia)).
  assert (Ha : Z.abs (Z.quot l r) * Z.abs r <= Z.abs l).
  { rewrite <- Z.quot_abs, Z.mul_comm by done. apply Z.mul_quot_le; lia. }
  assert (Hb : Z.abs r = 1 \/ 2 <= Z.abs r) by lia.
  unfold is_sint. destruct Hb as [Hb|Hb].
  - assert (r = 1 \/ r = -1) as [-> | ->] by lia.
    + rewrite Z.quot_1_r. lia.
    + change (-1) with (- (1)). rewrite Z.quot_opp_r, Z.quot_1_r by lia. lia.
  - assert (2 * Z.abs (Z.quot l r) <= Z.abs l) by nia. lia.
Qed.

Lemma rem_sint w l r : 0 < w -> is_sint w l -> r <> 0 -> is_sint w (Z.rem l r).
Proof.
  intros Hw [Hl1 Hl2] Hr. pose proof (pow2_pos (w - 1) ltac:(lia)).
  assert (Z.abs (Z.rem l r) <= Z.abs l) by (rewrite <- Z.rem_abs by done; apply Z.rem_le; lia).
  unfold is_sint. destruct (Z.le_ge_cases 0 l).
  - pose proof (Z.rem_nonneg l r Hr ltac:(lia)). lia.
  - pose proof (Z.rem_nonpos l r Hr ltac:(lia)). lia.
Qed.

(** What the C code computes for a binary operation, for either width. *)
Definition c_binop (w : Z) (op : binop) (l r : Z) : Z + turbowasm_trap :=
  let a := wrap w l in let b := wrap w r in let k := b .& (w - 1) in
  match op with
  | Add => inl (to_signed w (wrap w (a + b)))
  | Sub => inl (to_signed w (wrap w (a - b)))
  | Mul => inl (to_signed w (wrap w (a * b)))
  | DivS => if r =? 0 then inr TRAP_INTEGER_DIVIDE_BY_ZERO
            else if (l =? - 2 ^ (w - 1)) && (r =? -1) then inr TRAP_INTEGER_OVERFLOW
            else inl (Z.quot l r)
  | DivU => if b =? 0 then inr TRAP_INTEGER_DIVIDE_BY_ZERO else inl (to_signed w (a / b))
  | RemS => if r =? 0 then inr TRAP_INTEGER_DIVIDE_BY_ZERO
            else inl (if (l =? - 2 ^ (w - 1)) && (r =? -1) then 0 else Z.rem l r)
  | RemU => if b =? 0 then inr TRAP_INTEGER_DIVIDE_BY_ZERO else inl (to_signed w (a mod b))
  | And => inl (to_signed w (a .& b))
  | Or => inl (to_signed w (a .| b))
  | Xor => inl (to_signed w (a .^ b))
  | Shl => inl (to_signed w (wrap w (a ≪ k)))
  | ShrS => inl (sar w l k)
  | ShrU => inl (to_signed w (a ≫ k))
  | Rotl => inl (to_signed w (if k =? 0 then a else wrap w (a ≪ k) .| (a ≫ (w - k))))
  | Rotr => inl (to_signed w (if k =? 0 then a else (a ≫ k) .| wrap w (a ≪ (w - k))))
  end.

(** The result read as a signed number. *)
Definition signed_result (w : Z) (r : Z + turbowasm_trap) : Z + turbowasm_trap :=
  match r with inl z => inl (to_signed w z) | inr t => inr t end.

Lemma mask_mod w z : width w -> z .& (w - 1) = z mod w.
Proof.
  intros [-> | ->]; [change (32 - 1) with (2 ^ 5 - 1)|change (64 - 1) with (2 ^ 6 - 1)];
    by rewrite land_mod by lia.
Qed.

(** A left shift has zeros where the other half of a rotation has bits. *)
Lemma rot_disjoint w x n :
  0 < n < w -> is_uint w x ->
  wrap w (x ≪ n) .| (x ≫ (w - n)) = (x * 2 ^ n) mod 2 ^ w + x / 2 ^ (w - n).
Proof.
  intros Hn Hx. rewrite <- Z.shiftl_mul_pow2, <- Z.shiftr_div_pow2 by lia. symmetry.
  apply Z.add_nocarry_lor. apply Z.bits_inj'. intros i Hi.
  rewrite Z.bits_0, Z.land_spec, Z.shiftr_spec by lia. change ((x ≪ n) mod 2 ^ w) with (wrap w (x ≪ n)).
  rewrite testbit_wrap, Z.shiftl_spec by lia. destruct (decide (n <= i)).
  - rewrite (testbit_uint w x (i + (w - n))) by (done || lia). apply andb_false_r.
  - rewrite (Z.testbit_neg_r x (i - n)) by lia. by rewrite andb_false_r.
Qed.

Lemma c_binop_spec w op l r :
  width w -> is_sint w l -> is_sint w r ->
  c_binop w op l r = signed_result w (spec_binop w op (wrap w l) (wrap w r)).
Proof.
  intros Hw Hl Hr. pose proof (width_pos w Hw) as Hp. unfold c_binop, spec_binop.
  rewrite !(to_signed_wrap w l), !(to_signed_wrap w r), mask_mod by done.
  set (a := wrap w l). set (b := wrap w r).
  assert (Ha : is_uint w a) by (apply wrap_range; lia).
  pose proof (Z.mod_pos_bound b w Hp) as Hk.
  assert (Hb0 : forall A (p q : A), (if b =? 0 then p else q) = (if decide (b = 0) then p else q)).
  { intros. destruct (Z.eqb_spec b 0), (decide (b = 0)); done. }
  assert (Hr0 : forall A (p q : A), (if r =? 0 then p else q) = (if decide (b = 0) then p else q)).
  { intros. pose proof (wrap_zero_iff w r Hp Hr). fold b in H.
    destruct (Z.eqb_spec r 0), (decide (b = 0)); tauto. }
  assert (Hb0' : b <> 0 -> r <> 0) by (intros H ->; by apply H).
  destruct op; rewrite ?Hb0, ?Hr0; try done.
  - destruct (decide (b = 0)) as [|Hb]; [done|].
    destruct (quot_overflow w l r Hp Hl Hr (Hb0' Hb)) as [Hov Hin].
    destruct (decide (Z.quot l r = 2 ^ (w - 1))) as [E|E].
    + apply Hov in E as [-> ->]. by rewrite !Z.eqb_refl.
    + replace ((l =? - 2 ^ (w - 1)) && (r =? -1)) with false; [|symmetry; apply andb_false_iff;
        destruct (Z.eqb_spec l (- 2 ^ (w - 1))), (Z.eqb_spec r (-1)); tauto].
      simpl. f_equal. symmetry. apply to_signed_wrap; auto.
  - by destruct (decide (b = 0)).
  - destruct (decide (b = 0)) as [|Hb]; [done|]. simpl. f_equal.
    transitivity (Z.rem l r).
    + destruct (Z.eqb_spec r (-1)) as [->|]; [|by rewrite andb_false_r].
      replace (Z.rem l (-1)) with 0; [by destruct (l =? _)|].
      change (-1) with (- (1)). rewrite Z.rem_opp_r, Z.rem_1_r; lia.
    + symmetry. apply to_signed_wrap; [done|]. apply rem_sint; auto.
  - by destruct (decide (b = 0)).
  - simpl. do 2 f_equal. unfold wrap. by rewrite Z.shiftl_mul_pow2 by lia.
  - simpl. f_equal. rewrite sar_correct by done. rewrite Z.shiftr_div_pow2 by lia.
    symmetry. apply to_signed_wrap; [done|]. rewrite <- Z.shiftr_div_pow2 by lia.
    apply shiftr_sint; [lia|done].
  - simpl. do 2 f_equal. by rewrite Z.shiftr_div_pow2 by lia.
  - simpl. do 2 f_equal. destruct (Z.eqb_spec (b mod w) 0) as [->|].
    + rewrite Z.mul_1_r, Z.sub_0_r, Z.div_small, Z.mod_small by done. lia.
    + apply rot_disjoint; [lia|done].
  - simpl. do 2 f_equal. destruct (Z.eqb_spec (b mod w) 0) as [->|].
    + rewrite Z.div_1_r, Z.sub_0_r, Z.mod_mul by lia. lia.
    + rewrite Z.lor_comm.
      replace (a ≫ (b mod w)) with (a ≫ (w - (w - b mod w))) by (f_equal; lia).
      rewrite rot_disjoint by (done || lia). replace (w - (w - b mod w)) with (b mod w) by lia. lia.
Qed.

(** ** The handlers on a well-typed stack *)

Lemma pop_kind_ok k v vs cap t :
  value_kind v = k ->
  pop_kind k (mk_exec (mk_stack (vs ++ [v]) cap) t) = (inr v, mk_exec (mk_stack vs cap) t).
Proof. intros Hk. unfold pop_kind. simpl. by rewrite pop_kind_snoc. Qed.

Lemma run_pop k v vs cap t f :
  value_kind v = k ->
  run (x ← pop_kind k; f x) (mk_exec (mk_stack (vs ++ [v]) cap) t) =
  run (f v) (mk_exec (mk_stack vs cap) t).
Proof. intros Hk. unfold run, mbind, exec_bind. by rewrite pop_kind_ok. Qed.

Lemma run_pop2 k l r vs cap t f :
  value_kind l = k -> value_kind r = k ->
  run (y ← pop_kind k; x ← pop_kind k; f x y) (mk_exec (mk_stack (vs ++ [l; r]) cap) t) =
  run (f l r) (mk_exec (mk_stack vs cap) t).
Proof.
  intros Hl Hr. rewrite (app_assoc vs [l] [r] : vs ++ [l; r] = _). rewrite run_pop by done.
  by rewrite run_pop.
Qed.

Lemma run_push realloc_ok sizeof_value v vs cap t :
  Z.of_nat (length vs) + 1 <= cap <= UINT32_MAX ->
  run (push realloc_ok sizeof_value v) (mk_exec (mk_stack vs cap) t) =
  (TURBOWASM_OK, mk_exec (mk_stack (vs ++ [v]) cap) t).
Proof. intros H. unfold run, push. simpl. by rewrite push_room. Qed.

(** The computation of a handler as a value or a trap. *)
Definition lift_result (r : Z + turbowasm_trap) : exec Z :=
  match r with inl z => mret z | inr t => trap_with t end.

(** What a handler whose result is [r] does to a stack with room. *)
Definition outcome (r : Z + turbowasm_trap) (inj : Z -> turbowasm_value)
    (vs : list turbowasm_value) (cap : Z) (t : turbowasm_trap) : turbowasm_status * exec_state :=
  match r with
  | inl z => (TURBOWASM_OK, mk_exec (mk_stack (vs ++ [inj z]) cap) t)
  | inr t' => (TURBOWASM_TRAPPED, mk_exec (mk_stack vs cap) t')
  end.

Lemma run_lift realloc_ok sizeof_value r inj vs cap t :
  Z.of_nat (length vs) + 1 <= cap <= UINT32_MAX ->
  run (out ← lift_result r; push realloc_ok sizeof_value (inj out)) (mk_exec (mk_stack vs cap) t) =
  outcome r inj vs cap t.
Proof.
  intros Hc. destruct r as [z|t']; [|done]. simpl. rewrite <- (run_push realloc_ok sizeof_value) by done. done.
Qed.

(** Opcodes back from operations. *)
Definition binop_opcode (op : binop) : Z :=
  match op with
  | Add => 0x6a | Sub => 0x6b | Mul => 0x6c | DivS => 0x6d | DivU => 0x6e | RemS => 0x6f
  | RemU => 0x70 | And => 0x71 | Or => 0x72 | Xor => 0x73 | Shl => 0x74 | ShrS => 0x75
  | ShrU => 0x76 | Rotl => 0x77 | Rotr => 0x78
  end.
Definition relop_opcode (op : relop) : Z :=
  match op with
  | Eq => 0x46 | Ne => 0x47 | LtS => 0x48 | LtU => 0x49 | GtS => 0x4a | GtU => 0x4b
  | LeS => 0x4c | LeU => 0x4d | GeS => 0x4e | GeU => 0x4f
  end.
Definition unop_opcode (op : unop) : Z := match op with Clz => 0x67 | Ctz => 0x68 | Popcnt => 0x69 end.

Ltac switch_inv :=
  unfold switch; repeat (case_match; [intros [= <-]; by apply Z.eqb_eq|]); done.

Lemma i32_binop_inv o op : i32_binop o = Some op -> o = binop_opcode op.
Proof. unfold i32_binop. switch_inv. Qed.
Lemma i32_relop_inv o op : i32_relop o = Some op -> o = relop_opcode op.
Proof. unfold i32_relop. switch_inv. Qed.
Lemma i32_unop_inv o op : i32_unop o = Some op -> o = unop_opcode op.
Proof. unfold i32_unop. switch_inv. Qed.

Lemma i64_binop_inv o op : i64_binop o = Some op -> o = binop_opcode op + 18.
Proof. intros H%i32_binop_inv. lia. Qed.
Lemma i64_relop_inv o op : i64_relop o = Some op -> o = relop_opcode op + 11.
Proof. intros H%i32_relop_inv. lia. Qed.
Lemma i64_unop_inv o op : i64_unop o = Some op -> o = unop_opcode op + 18.
Proof. intros H%i32_unop_inv. lia. Qed.

Ltac conditions :=
  repeat match goal with
  | |- context [if ?b then _ else _] => destruct b
  end; reflexivity.

Lemma i32_binary_run realloc_ok sizeof_value op l r vs cap t :
  Z.of_nat (length vs) + 1 <= cap <= UINT32_MAX ->
  run (turbowasm_exec_i32_binary realloc_ok sizeof_value (binop_opcode op))
    (mk_exec (mk_stack (vs ++ [VI32 l; VI32 r]) cap) t) = outcome (c_binop 32 op l r) VI32 vs cap t.
Proof.
  intros Hc. unfold turbowasm_exec_i32_binary. rewrite run_pop2 by done.
  rewrite <- (run_lift realloc_ok sizeof_value) by done.
  destruct op; cbn [switch binop_opcode Z.eqb Pos.eqb c_binop as_i32];
    change (- 2 ^ (32 - 1)) with INT32_MIN; first [reflexivity|conditions].
Qed.

Lemma i64_binary_run realloc_ok sizeof_value op l r vs cap t :
  Z.of_nat (length vs) + 1 <= cap <= UINT32_MAX ->
  run (turbowasm_exec_i64_binary realloc_ok sizeof_value (binop_opcode op + 18))
    (mk_exec (mk_stack (vs ++ [VI64 l; VI64 r]) cap) t) = outcome (c_binop 64 op l r) VI64 vs cap t.
Proof.
  intros Hc. unfold turbowasm_exec_i64_binary. rewrite run_pop2 by done.
  rewrite <- (run_lift realloc_ok sizeof_value) by done.
  destruct op; (match goal with |- context [switch ?o] =>
    let n := eval vm_compute in o in change o with n end);
    cbn [switch Z.eqb Pos.eqb c_binop as_i64]; change (- 2 ^ (64 - 1)) with INT64_MIN; first [reflexivity|conditions].
Qed.

(** C33. The i32 and i64 arithmetic handlers implement the WebAssembly
    operations: on a stack whose two top values have the instruction's type they
    replace them by the specified result, or trap with the specified reason,
    leaving the values below, the capacity and (without a trap) the trap slot
    as they were; they never run out of memory. *)
Theorem binary_handlers_refine_spec realloc_ok sizeof_value opcode op l r vs cap t :
  Z.of_nat (length vs) + 2 <= cap <= UINT32_MAX ->
  (i32_binop opcode = Some op -> is_sint 32 l -> is_sint 32 r ->
   run (turbowasm_exec_i32_binary realloc_ok sizeof_value opcode)
     (mk_exec (mk_stack (vs ++ [VI32 l; VI32 r]) cap) t) =
   outcome (signed_result 32 (spec_binop 32 op (u32 l) (u32 r))) VI32 vs cap t) /\
  (i64_binop opcode = Some op -> is_sint 64 l -> is_sint 64 r ->
   run (turbowasm_exec_i64_binary realloc_ok sizeof_value opcode)
     (mk_exec (mk_stack (vs ++ [VI64 l; VI64 r]) cap) t) =
   outcome (signed_result 64 (spec_binop 64 op (u64 l) (u64 r))) VI64 vs cap t).
Proof.
  intros Hc. split; intros Hop Hl Hr.
  - rewrite (i32_binop_inv _ _ Hop), i32_binary_run by lia.
    by rewrite c_binop_spec by (done || by left).
  - rewrite (i64_binop_inv _ _ Hop), i64_binary_run by lia.
    by rewrite c_binop_spec by (done || by right).
Qed.

(** ** Comparisons *)

Definition c_relop (w : Z) (op : relop) (l r : Z) : bool :=
  let a := wrap w l in let b := wrap w r in
  match op with
  | Eq => l =? r | Ne => negb (l =? r)
  | LtS => l <? r | LtU => a <? b | GtS => l >? r | GtU => a >? b
  | LeS => l <=? r | LeU => a <=? b | GeS => l >=? r | GeU => a >=? b
  end.

Lemma c_relop_spec w op l r :
  0 < w -> is_sint w l -> is_sint w r ->
  c_relop w op l r = spec_relop w op (wrap w l) (wrap w r).
Proof.
  intros Hw Hl Hr. unfold c_relop, spec_relop. rewrite !to_signed_wrap by done.
  pose proof (wrap_inj w l r Hw Hl Hr) as Hinj.
  destruct op; case_bool_decide as H;
    repeat match goal with
    | |- context [Z.eqb ?x ?y] => destruct (Z.eqb_spec x y)
    | |- context [Z.ltb ?x ?y] => destruct (Z.ltb_spec x y)
    | |- context [Z.gtb ?x ?y] => destruct (Z.gtb_spec x y)
    | |- context [Z.leb ?x ?y] => destruct (Z.leb_spec x y)
    | |- context [Z.geb ?x ?y] => destruct (Z.geb_spec x y)
    end; try done; try lia; subst; by destruct H || auto || tauto.
Qed.

Ltac eval_switch :=
  match goal with |- context [switch ?o] =>
    let n := eval vm_compute in o in change o with n end;
  cbn [switch Z.eqb Pos.eqb].

Lemma i32_compare_run realloc_ok sizeof_value op l r vs cap t :
  Z.of_nat (length vs) + 1 <= cap <= UINT32_MAX ->
  run (turbowasm_exec_i32_test_or_compare realloc_ok sizeof_value (relop_opcode op))
    (mk_exec (mk_stack (vs ++ [VI32 l; VI32 r]) cap) t) =
  (TURBOWASM_OK, mk_exec (mk_stack (vs ++ [VI32 (Z.b2z (c_relop 32 op l r))]) cap) t).
Proof.
  intros Hc. unfold turbowasm_exec_i32_test_or_compare.
  replace (relop_opcode op =? 0x45) with false by (by destruct op). rewrite run_pop2 by done.
  rewrite <- (run_push realloc_ok sizeof_value) by done. destruct op; eval_switch; reflexivity.
Qed.

Lemma i64_compare_run realloc_ok sizeof_value op l r vs cap t :
  Z.of_nat (length vs) + 1 <= cap <= UINT32_MAX ->
  run (turbowasm_exec_i64_test_or_compare realloc_ok sizeof_value (relop_opcode op + 11))
    (mk_exec (mk_stack (vs ++ [VI64 l; VI64 r]) cap) t) =
  (TURBOWASM_OK, mk_exec (mk_stack (vs ++ [VI32 (Z.b2z (c_relop 64 op l r))]) cap) t).
Proof.
  intros Hc. unfold turbowasm_exec_i64_test_or_compare.
  replace (relop_opcode op + 11 =? 0x50) with false by (by destruct op). rewrite run_pop2 by done.
  rewrite <- (run_push realloc_ok sizeof_value) by done. destruct op; eval_switch; reflexivity.
Qed.

(** The comparison and eqz handlers push 1 or 0 as the specification of the
    comparison demands, signed and unsigned, and touch nothing else. *)
Theorem compare_handlers_refine_spec realloc_ok sizeof_value opcode op l r vs cap t :
  Z.of_nat (length vs) + 1 <= cap <= UINT32_MAX ->
  (is_sint 32 l -> is_sint 32 r ->
   (i32_relop opcode = Some op ->
    run (turbowasm_exec_i32_test_or_compare realloc_ok sizeof_value opcode)
      (mk_exec (mk_stack (vs ++ [VI32 l; VI32 r]) cap) t) =
    (TURBOWASM_OK, mk_exec (mk_stack
       (vs ++ [VI32 (Z.b2z (spec_relop 32 op (u32 l) (u32 r)))]) cap) t)) /\
   run (turbowasm_exec_i32_test_or_compare realloc_ok sizeof_value 0x45)
     (mk_exec (mk_stack (vs ++ [VI32 l]) cap) t) =
   (TURBOWASM_OK, mk_exec (mk_stack (vs ++ [VI32 (if decide (u32 l = 0) then 1 else 0)]) cap) t)) /\
  (is_sint 64 l -> is_sint 64 r ->
   (i64_relop opcode = Some op ->
    run (turbowasm_exec_i64_test_or_compare realloc_ok sizeof_value opcode)
      (mk_exec (mk_stack (vs ++ [VI64 l; VI64 r]) cap) t) =
    (TURBOWASM_OK, mk_exec (mk_stack
       (vs ++ [VI32 (Z.b2z (spec_relop 64 op (u64 l) (u64 r)))]) cap) t)) /\
   run (turbowasm_exec_i64_test_or_compare realloc_ok sizeof_value 0x50)
     (mk_exec (mk_stack (vs ++ [VI64 l]) cap) t) =
   (TURBOWASM_OK, mk_exec (mk_stack (vs ++ [VI32 (if decide (u64 l = 0) then 1 else 0)]) cap) t)).
Proof.
  intros Hc.
  assert (Hz : forall w, 0 < w -> is_sint w l ->
            Z.b2z (l =? 0) = if decide (wrap w l = 0) then 1 else 0).
  { intros w Hw Hl. pose proof (wrap_zero_iff w l Hw Hl).
    destruct (Z.eqb_spec l 0), (decide (wrap w l = 0)); done || tauto. }
  split; intros Hl Hr; split.
  - intros Hop. rewrite (i32_relop_inv _ _ Hop), i32_compare_run, c_relop_spec by (done || lia). done.
  - unfold turbowasm_exec_i32_test_or_compare. simpl (0x45 =? 0x45). cbv iota.
    rewrite run_pop, run_push by (done || lia). simpl as_i32. by rewrite (Hz 32).
  - intros Hop. rewrite (i64_relop_inv _ _ Hop), i64_compare_run, c_relop_spec by (done || lia). done.
  - unfold turbowasm_exec_i64_test_or_compare. simpl (0x50 =? 0x50). cbv iota.
    rewrite run_pop, run_push by (done || lia). simpl as_i64. by rewrite (Hz 64).
Qed.

(** ** Counting instructions *)

Definition c_unop (w : Z) (op : unop) (x : Z) : Z :=
  match op with
  | Clz => if w =? 32 then turbowasm_clz32 x else turbowasm_clz64 x
  | Ctz => if w =? 32 then turbowasm_ctz32 x else turbowasm_ctz64 x
  | Popcnt => if w =? 32 then turbowasm_popcnt32 x else turbowasm_popcnt64 x
  end.

(** The specified search for the lowest set bit, from its description. *)
Lemma first_bit w x c :
  0 < w ->
  (x = 0 /\ c = w) \/
  (0 <= c < w /\ Z.testbit x c = true /\ forall i, 0 <= i < c -> Z.testbit x i = false) ->
  spec_unop w Ctz x = c.
Proof.
  intros Hw Hc. simpl. destruct (list_find _ _) as [[n i]|] eqn:Hf.
  - apply list_find_Some in Hf as (Hn & Hb & Hlow). apply lookup_seqZ in Hn as [-> Hn].
    destruct Hc as [[-> _]|(Hr & Hbc & Hz)]; [by rewrite Z.bits_0 in Hb|].
    destruct (Z.lt_trichotomy (0 + Z.of_nat n) c) as [Hlt|[->|Hgt]]; [|done|].
    + rewrite Hz in Hb by lia. done.
    + exfalso. apply (Hlow (Z.to_nat c) c); [apply lookup_seqZ; lia|lia|done].
  - apply list_find_None in Hf. rewrite Forall_forall in Hf.
    destruct Hc as [[_ ->]|(Hr & Hbc & _)]; [done|].
    exfalso. apply (Hf c); [apply elem_of_seqZ; lia|done].
Qed.

Lemma c_unop_spec w op x :
  width w -> is_uint w x -> c_unop w op x = spec_unop w op x /\ 0 <= spec_unop w op x <= w.
Proof.
  intros Hw Hx.
  assert (Heq : c_unop w op x = spec_unop w op x).
  { destruct (clz_spec x) as [C1 C2], (ctz_spec x) as [T1 T2], (popcnt_spec x) as [P1 P2].
    destruct Hw as [-> | ->], op; simpl c_unop.
    - rewrite C1 by done. simpl. destruct (Z.eqb_spec x 0), (decide (x = 0)); done.
    - symmetry. apply first_bit; [lia|]. by apply T1.
    - by rewrite P1 by done.
    - rewrite C2 by done. simpl. destruct (Z.eqb_spec x 0), (decide (x = 0)); done.
    - symmetry. apply first_bit; [lia|]. by apply T2.
    - by rewrite P2 by done. }
  split; [done|]. pose proof (width_pos w Hw). destruct op; simpl.
  - case_decide; [lia|]. destruct Hx. pose proof (Z.log2_nonneg x).
    assert (Z.log2 x < w) by (apply Z.log2_lt_pow2; lia). lia.
  - destruct (list_find _ _) as [[n i]|] eqn:Hf; [|lia].
    apply list_find_Some in Hf as (Hn & _). apply lookup_seqZ in Hn. lia.
  - pose proof (bits_set_bound (Z.to_nat w) x). lia.
Qed.

Lemma to_signed_small w z : width w -> 0 <= z <= w -> to_signed w z = z.
Proof.
  intros [-> | ->] Hz; unfold to_signed; [change (2 ^ (32 - 1)) with 2147483648
    |change (2 ^ (64 - 1)) with 9223372036854775808].
  - by destruct (Z.ltb_spec z 2147483648); [|lia].
  - by destruct (Z.ltb_spec z 9223372036854775808); [|lia].
Qed.

(** The clz, ctz and popcnt handlers replace the top value by the count the
    specification defines and touch nothing else. *)
Theorem count_handlers_refine_spec realloc_ok sizeof_value opcode op l vs cap t :
  Z.of_nat (length vs) + 1 <= cap <= UINT32_MAX ->
  (i32_unop opcode = Some op ->
   run (turbowasm_exec_i32_unary realloc_ok sizeof_value opcode)
     (mk_exec (mk_stack (vs ++ [VI32 l]) cap) t) =
   (TURBOWASM_OK, mk_exec (mk_stack (vs ++ [VI32 (spec_unop 32 op (u32 l))]) cap) t)) /\
  (i64_unop opcode = Some op ->
   run (turbowasm_exec_i64_unary realloc_ok sizeof_value opcode)
     (mk_exec (mk_stack (vs ++ [VI64 l]) cap) t) =
   (TURBOWASM_OK, mk_exec (mk_stack (vs ++ [VI64 (spec_unop 64 op (u64 l))]) cap) t)).
Proof.
  intros Hc. split; intros Hop.
  - rewrite (i32_unop_inv _ _ Hop). unfold turbowasm_exec_i32_unary. rewrite run_pop by done.
    destruct (c_unop_spec 32 op (u32 l)) as [He Hr]; [by left|by apply wrap_range|].
    rewrite <- (run_push realloc_ok sizeof_value) by done.
    rewrite <- (to_signed_small 32 (spec_unop 32 op (u32 l))), <- He by (done || by left).
    destruct op; eval_switch; reflexivity.
  - rewrite (i64_unop_inv _ _ Hop). unfold turbowasm_exec_i64_unary. rewrite run_pop by done.
    destruct (c_unop_spec 64 op (u64 l)) as [He Hr]; [by right|by apply wrap_range|].
    rewrite <- (run_push realloc_ok sizeof_value) by done.
    rewrite <- (to_signed_small 64 (spec_unop 64 op (u64 l))), <- He by (done || by right).
    destruct op; eval_switch; reflexivity.
Qed.

(** ** Ill-typed stacks *)

(** The operands are popped one by one, so the stack left behind by a refused
    instruction lacks the operands looked at. *)
Lemma run_pop_empty k cap t f :
  run (x ← pop_kind k; f x) (mk_exec (mk_stack [] cap) t) =
  (TURBOWASM_MALFORMED_MODULE, mk_exec (mk_stack [] cap) t).
Proof. done. Qed.

Lemma run_pop_wrong k v vs cap t f :
  value_kind v <> k ->
  run (x ← pop_kind k; f x) (mk_exec (mk_stack (vs ++ [v]) cap) t) =
  (TURBOWASM_TYPE_MISMATCH, mk_exec (mk_stack vs cap) t).
Proof.
  intros Hk. unfold run, mbind, exec_bind, pop_kind. simpl. by rewrite pop_kind_wrong.
Qed.

Lemma run_pop2_wrong k vs cap t f :
  (forall us l r, vs = us ++ [l; r] -> ~ (value_kind l = k /\ value_kind r = k)) ->
  exists st vs', run (y ← pop_kind k; x ← pop_kind k; f x y) (mk_exec (mk_stack vs cap) t) =
                 (st, mk_exec (mk_stack vs' cap) t) /\
    (st = TURBOWASM_TYPE_MISMATCH \/ st = TURBOWASM_MALFORMED_MODULE) /\ vs' `prefix_of` vs.
Proof.
  intros Hno. destruct vs as [|r us _] using rev_ind.
  { rewrite run_pop_empty. exists TURBOWASM_MALFORMED_MODULE, []. auto. }
  destruct (decide (value_kind r = k)) as [Hr|Hr].
  - rewrite run_pop by done. destruct us as [|l us _] using rev_ind.
    { rewrite run_pop_empty. exists TURBOWASM_MALFORMED_MODULE, []. split_and!; [done|auto|apply prefix_nil]. }
    destruct (decide (value_kind l = k)) as [Hl|Hl].
    + exfalso. apply (Hno us l r); [by rewrite <- app_assoc|done].
    + rewrite run_pop_wrong by done. exists TURBOWASM_TYPE_MISMATCH, us.
      split_and!; [done|auto|]. rewrite <- app_assoc. by exists [l; r].
  - rewrite run_pop_wrong by done. exists TURBOWASM_TYPE_MISMATCH, us.
    split_and!; [done|auto|by exists [r]].
Qed.

(** On a stack that does not end in two values of the instruction's type the
    arithmetic handlers compute nothing: they report a type mismatch or a
    malformed module, set no trap and leave a prefix of the stack; an opcode
    outside their table is refused as unsupported. *)
Theorem binary_handlers_reject realloc_ok sizeof_value opcode vs cap t :
  ((forall us l r, vs = us ++ [l; r] ->
      ~ (value_kind l = TURBOWASM_VALUE_I32 /\ value_kind r = TURBOWASM_VALUE_I32)) ->
   exists st vs', run (turbowasm_exec_i32_binary realloc_ok sizeof_value opcode)
       (mk_exec (mk_stack vs cap) t) = (st, mk_exec (mk_stack vs' cap) t) /\
     (st = TURBOWASM_TYPE_MISMATCH \/ st = TURBOWASM_MALFORMED_MODULE) /\ vs' `prefix_of` vs) /\
  ((forall us l r, vs = us ++ [l; r] ->
      ~ (value_kind l = TURBOWASM_VALUE_I64 /\ value_kind r = TURBOWASM_VALUE_I64)) ->
   exists st vs', run (turbowasm_exec_i64_binary realloc_ok sizeof_value opcode)
       (mk_exec (mk_stack vs cap) t) = (st, mk_exec (mk_stack vs' cap) t) /\
     (st = TURBOWASM_TYPE_MISMATCH \/ st = TURBOWASM_MALFORMED_MODULE) /\ vs' `prefix_of` vs) /\
  (forall us l r, vs = us ++ [VI32 l; VI32 r] -> i32_binop opcode = None ->
     run (turbowasm_exec_i32_binary realloc_ok sizeof_value opcode) (mk_exec (mk_stack vs cap) t) =
     (TURBOWASM_UNSUPPORTED, mk_exec (mk_stack us cap) t)).
Proof.
  split_and!.
  - intros H. by apply run_pop2_wrong.
  - intros H. by apply run_pop2_wrong.
  - intros us l r -> Hno. unfold turbowasm_exec_i32_binary. rewrite run_pop2 by done.
    revert Hno. unfold i32_binop, switch. repeat (case_match; [done|]). intros _. reflexivity.
Qed.

(** ** Witnesses *)

Lemma binary_handlers_refine_spec_witness :
  run (turbowasm_exec_i32_binary (fun _ => false) 16 0x6d)
    (mk_exec (mk_stack [VF32 1; VI32 (-7); VI32 2] 16) TRAP_NONE) =
  (TURBOWASM_OK, mk_exec (mk_stack [VF32 1; VI32 (-3)] 16) TRAP_NONE).
Proof.
  apply (binary_handlers_refine_spec (fun _ => false) 16 0x6d DivS (-7) 2 [VF32 1] 16 TRAP_NONE);
    [unfold UINT32_MAX; simpl; lia|reflexivity|split; simpl; lia|split; simpl; lia].
Defined.

Lemma compare_handlers_refine_spec_witness :
  run (turbowasm_exec_i32_test_or_compare (fun _ => false) 16 0x49)
    (mk_exec (mk_stack [VI32 (-1); VI32 1] 16) TRAP_NONE) =
  (TURBOWASM_OK, mk_exec (mk_stack [VI32 0] 16) TRAP_NONE).
Proof.
  destruct (compare_handlers_refine_spec (fun _ => false) 16 0x49 LtU (-1) 1 [] 16 TRAP_NONE)
    as [H _]; [unfold UINT32_MAX; simpl; lia|].
  destruct H as [H _]; [split; simpl; lia|split; simpl; lia|]. apply H. reflexivity.
Defined.

Lemma count_handlers_refine_spec_witness :
  run (turbowasm_exec_i64_unary (fun _ => false) 16 0x7a)
    (mk_exec (mk_stack [VI64 40] 16) TRAP_NONE) =
  (TURBOWASM_OK, mk_exec (mk_stack [VI64 3] 16) TRAP_NONE).
Proof.
  apply (count_handlers_refine_spec (fun _ => false) 16 0x7a Ctz 40 [] 16 TRAP_NONE);
    [unfold UINT32_MAX; simpl; lia|reflexivity].
Defined.

Lemma binary_handlers_reject_witness :
  run (turbowasm_exec_i32_binary (fun _ => false) 16 0x99)
    (mk_exec (mk_stack [VI32 1; VI32 2] 16) TRAP_NONE) =
  (TURBOWASM_UNSUPPORTED, mk_exec (mk_stack [] 16) TRAP_NONE).
Proof.
  apply (binary_handlers_reject (fun _ => false) 16 0x99 [VI32 1; VI32 2] 16 TRAP_NONE) with 1 2;
    reflexivity.
Defined.

End Numeric.
