(* ===== verification/Memory.v ===== *)
(** * Linear memories (src/instance_state.c, src/instance.c)

    The store is the list of live instances; an instance is named by its
    position. An imported memory is an entry of [linked_memories] that points to
    a memory of the providing instance, so that several instances may denote one
    memory object: [turbowasm_instance_memory_resolve] follows the links. The
    locks around an access to a shared memory are not modelled: an operation is
    one step. [realloc_ok n] says whether the allocator grants [n] bytes. *)

From S2P Require Import Prelude Value Reader ExecStack Numeric.

Module Memory.
Import Value Reader ExecStack Numeric.

Record turbowasm_instance_memory := mk_memory {
  data : list Z;
  pages : Z;
  maximum_pages : Z;
  page_size : Z;
  resource_max_bytes : Z;
  has_maximum : bool;
  shared : bool;
  memory64 : bool;
  storage_initialized : bool
}.

(** The part of the module's memory declaration the runtime looks at. *)
Record turbowasm_validation_memory := mk_vmemory { v_imported : bool; v_memory64 : bool }.

Record turbowasm_instance_impl := mk_instance {
  memories : list turbowasm_instance_memory;
  validation_memories : list turbowasm_validation_memory;
  linked_memories : list (option (nat * Z));
  data_segments : list (list Z);
  data_segment_dropped : list bool
}.

Abbreviation store := (list turbowasm_instance_impl).

(** ** Finding the memory object *)

(** The result is the instance that owns the memory and its index there. *)
Fixpoint memory_resolve_fuel (fuel : nat) (w : store) (inst : nat) (memory_index : Z)
    : option (nat * nat) :=
  match fuel with
  | O => None
  | S fuel' =>
      match w !! inst with
      | None => None
      | Some instance =>
          if memory_index >=? Z.of_nat (length (memories instance)) then None
          else match validation_memories instance !! Z.to_nat memory_index with
               | None => None
               | Some memory =>
                   if negb (v_imported memory) then Some (inst, Z.to_nat memory_index)
                   else match linked_memories instance !! Z.to_nat memory_index with
                        | Some (Some (provider, index)) =>
                            memory_resolve_fuel fuel' w provider index
                        | _ => None
                        end
               end
      end
  end.

(** Links lead to instances created earlier, so there are at most as many as
    there are instances. *)
Definition turbowasm_instance_memory_resolve (w : store) (inst : nat) (memory_index : Z)
    : option (nat * nat) := memory_resolve_fuel (length w) w inst memory_index.

Definition memory_at (w : store) (loc : nat * nat) : option turbowasm_instance_memory :=
  match w !! loc.1 with
  | None => None
  | Some instance => memories instance !! loc.2
  end.

Definition with_memories (i : turbowasm_instance_impl) (ms : list turbowasm_instance_memory)
    : turbowasm_instance_impl :=
  mk_instance ms (validation_memories i) (linked_memories i) (data_segments i)
    (data_segment_dropped i).

Definition memory_put (w : store) (loc : nat * nat) (m : turbowasm_instance_memory) : store :=
  match w !! loc.1 with
  | None => w
  | Some instance => <[loc.1 := with_memories instance (<[loc.2 := m]> (memories instance))]> w
  end.

(** The common prologue: [inl] is the status of a failed lookup. *)
Definition memory_locate (w : store) (inst : nat) (memory_index : Z)
    : turbowasm_status + (nat * nat) * turbowasm_instance_memory :=
  match w !! inst with
  | None => inl TURBOWASM_INVALID_ARGUMENT
  | Some instance =>
      if memory_index >=? Z.of_nat (length (memories instance)) then inl TURBOWASM_INVALID_ARGUMENT
      else match turbowasm_instance_memory_resolve w inst memory_index with
           | None => inl TURBOWASM_UNSUPPORTED
           | Some loc => match memory_at w loc with
                         | None => inl TURBOWASM_UNSUPPORTED
                         | Some m => inr (loc, m)
                         end
           end
  end.

(** ** Bytes *)

Definition slice (d : list Z) (p n : Z) : list Z := take (Z.to_nat n) (drop (Z.to_nat p) d).

(** [memmove] and [memset] into [d] at offset [p]. *)
Definition splice (d : list Z) (p : Z) (bs : list Z) : list Z :=
  take (Z.to_nat p) d ++ bs ++ drop (Z.to_nat p + length bs) d.

Definition byte (p : list Z) (i : nat) : Z := default 0 (p !! i).

Definition turbowasm_read_u16_le (p : list Z) : Z := byte p 0 .| u16 (byte p 1 ≪ 8).

Definition turbowasm_read_u32_le_bytes (p : list Z) : Z :=
  byte p 0 .| u32 (byte p 1 ≪ 8) .| u32 (byte p 2 ≪ 16) .| u32 (byte p 3 ≪ 24).

Definition turbowasm_read_u64_le_bytes (p : list Z) : Z :=
  foldl (fun value index => value .| u64 (byte p index ≪ (8 * Z.of_nat index))) 0 (seq 0 8).

Definition turbowasm_write_u16_le (value : Z) : list Z := [u8 value; u8 (value ≫ 8)].

Definition turbowasm_write_u32_le (value : Z) : list Z :=
  [u8 value; u8 (value ≫ 8); u8 (value ≫ 16); u8 (value ≫ 24)].

Definition turbowasm_write_u64_le (value : Z) : list Z :=
  (fun index => u8 (value ≫ (8 * Z.of_nat index))) <$> seq 0 8.

Definition turbowasm_atomic_load_le (d : list Z) (p width : Z) : Z :=
  foldl (fun value index =>
           value .| u64 (byte (slice d p width) index ≪ (8 * Z.of_nat index))) 0
    (seq 0 (Z.to_nat width)).

Definition turbowasm_atomic_store_le (d : list Z) (p width value : Z) : list Z :=
  splice d p ((fun index => u8 (value ≫ (8 * Z.of_nat index))) <$> seq 0 (Z.to_nat width)).

Definition turbowasm_atomic_width_mask (width : Z) : Z :=
  if width >=? 8 then UINT64_MAX else u64 ((1 ≪ (width * 8)) - 1).

(** ** Bounds *)

Definition turbowasm_instance_memory_storage_range (m : turbowasm_instance_memory)
    (address offset width : Z) : turbowasm_status * Z :=
  if negb (storage_initialized m) || (page_size m =? 0) then (TURBOWASM_INVALID_ARGUMENT, 0)
  else if address >? UINT64_MAX - offset then (TURBOWASM_TRAPPED, 0)
  else
    let effective := u64 (address + offset) in
    if pages m >? UINT64_MAX / page_size m then (TURBOWASM_TRAPPED, 0)
    else
      let size := u64 (pages m * page_size m) in
      if (effective >? size) || (width >? u64 (size - effective)) ||
         (effective >? SIZE_MAX) || (width >? SIZE_MAX)
      then (TURBOWASM_TRAPPED, 0) else (TURBOWASM_OK, effective).

(** For unshared memories: the offset of the pointer handed out. *)
Definition turbowasm_instance_memory_bounds (w : store) (inst : nat)
    (memory_index address offset width : Z) : turbowasm_status * Z :=
  match memory_locate w inst memory_index with
  | inl status => (status, 0)
  | inr (_, m) =>
      if shared m then (TURBOWASM_UNSUPPORTED, 0)
      else if address >? UINT64_MAX - offset then (TURBOWASM_TRAPPED, 0)
      else
        let effective := u64 (address + offset) in
        if (page_size m =? 0) || (pages m >? UINT64_MAX / page_size m) then (TURBOWASM_TRAPPED, 0)
        else
          let size := u64 (pages m * page_size m) in
          if (effective >? size) || (width >? u64 (size - effective)) || (effective >? SIZE_MAX)
          then (TURBOWASM_TRAPPED, 0) else (TURBOWASM_OK, effective)
  end.

Definition turbowasm_instance_memory_shared (w : store) (inst : nat) (memory_index : Z)
    : turbowasm_status * bool :=
  match memory_locate w inst memory_index with
  | inl status => (status, false)
  | inr (_, m) => (TURBOWASM_OK, shared m)
  end.

(** ** Byte operations *)

Definition with_data (m : turbowasm_instance_memory) (d : list Z) : turbowasm_instance_memory :=
  mk_memory d (pages m) (maximum_pages m) (page_size m) (resource_max_bytes m) (has_maximum m)
    (shared m) (memory64 m) (storage_initialized m).

Definition turbowasm_instance_memory_check_bytes (w : store) (inst : nat)
    (memory_index address length : Z) : turbowasm_status :=
  match memory_locate w inst memory_index with
  | inl status => status
  | inr (_, m) => (turbowasm_instance_memory_storage_range m address 0 length).1
  end.

Definition turbowasm_instance_memory_read_bytes (w : store) (inst : nat)
    (memory_index address offset width : Z) : turbowasm_status * list Z :=
  match memory_locate w inst memory_index with
  | inl status => (status, [])
  | inr (_, m) =>
      match turbowasm_instance_memory_storage_range m address offset width with
      | (TURBOWASM_OK, effective) => (TURBOWASM_OK, slice (data m) effective width)
      | (status, _) => (status, [])
      end
  end.

Definition turbowasm_instance_memory_write_bytes (w : store) (inst : nat)
    (memory_index address offset : Z) (source : list Z) : turbowasm_status * store :=
  match memory_locate w inst memory_index with
  | inl status => (status, w)
  | inr (loc, m) =>
      match turbowasm_instance_memory_storage_range m address offset (Z.of_nat (length source)) with
      | (TURBOWASM_OK, effective) =>
          (TURBOWASM_OK, memory_put w loc (with_data m (splice (data m) effective source)))
      | (status, _) => (status, w)
      end
  end.

Definition turbowasm_instance_memory_fill_bytes (w : store) (inst : nat)
    (memory_index destination value length : Z) : turbowasm_status * store :=
  match memory_locate w inst memory_index with
  | inl status => (status, w)
  | inr (loc, m) =>
      match turbowasm_instance_memory_storage_range m destination 0 length with
      | (TURBOWASM_OK, effective) =>
          (TURBOWASM_OK, memory_put w loc
             (with_data m (splice (data m) effective (replicate (Z.to_nat length) value))))
      | (status, _) => (status, w)
      end
  end.

Definition turbowasm_instance_memory_copy_bytes (w : store) (inst : nat)
    (destination_memory source_memory destination source length : Z) : turbowasm_status * store :=
  match memory_locate w inst destination_memory, memory_locate w inst source_memory with
  | inr (dst, dm), inr (src, sm) =>
      match turbowasm_instance_memory_storage_range dm destination 0 length with
      | (TURBOWASM_OK, de) =>
          match turbowasm_instance_memory_storage_range sm source 0 length with
          | (TURBOWASM_OK, se) =>
              (TURBOWASM_OK, memory_put w dst
                 (with_data dm (splice (data dm) de (slice (data sm) se length))))
          | (status, _) => (status, w)
          end
      | (status, _) => (status, w)
      end
  | inl TURBOWASM_INVALID_ARGUMENT, _ | _, inl TURBOWASM_INVALID_ARGUMENT =>
      (TURBOWASM_INVALID_ARGUMENT, w)
  | _, _ => (TURBOWASM_UNSUPPORTED, w)
  end.

(** ** Size and growth *)

Definition turbowasm_instance_memory_size64 (w : store) (inst : nat) (memory_index : Z)
    : turbowasm_status * Z :=
  match memory_locate w inst memory_index with
  | inl status => (status, 0)
  | inr (_, m) => (TURBOWASM_OK, pages m)
  end.

Definition page_limit (m : turbowasm_instance_memory) : Z :=
  if memory64 m then (if page_size m =? 1 then UINT64_MAX else 1 ≪ 48)
  else (if page_size m =? 1 then UINT32_MAX else 65536).

Section Host.
Context (realloc_ok : Z -> bool).

(** The growth of one memory: [None] when it is refused. *)
Definition memory_grow (m : turbowasm_instance_memory) (delta : Z)
    : option turbowasm_instance_memory :=
  if (page_size m =? 0) || (pages m >? UINT64_MAX - delta) then None
  else
    let next_pages := u64 (pages m + delta) in
    if (next_pages >? page_limit m) || (has_maximum m && (next_pages >? maximum_pages m)) ||
       (next_pages >? SIZE_MAX / page_size m) then None
    else
      let next_bytes := u64 (next_pages * page_size m) in
      let previous_bytes := u64 (pages m * page_size m) in
      let resized d := mk_memory d next_pages (maximum_pages m) (page_size m)
                         (resource_max_bytes m) (has_maximum m) (shared m) (memory64 m)
                         (storage_initialized m) in
      if negb (resource_max_bytes m =? 0) && (next_bytes >? resource_max_bytes m) then None
      else if next_bytes =? 0 then Some (resized (data m))
      else if negb (realloc_ok next_bytes) then None
      else Some (resized (take (Z.to_nat next_bytes) (data m) ++
                          replicate (Z.to_nat (next_bytes - previous_bytes)) 0)).

(** The second component is [*out_previous_pages], UINT64_MAX for a refusal. *)
Definition turbowasm_instance_memory_grow64 (w : store) (inst : nat)
    (memory_index delta_pages : Z) : turbowasm_status * store * Z :=
  match memory_locate w inst memory_index with
  | inl status => (status, w, 0)
  | inr (loc, m) =>
      match memory_grow m delta_pages with
      | None => (TURBOWASM_OK, w, UINT64_MAX)
      | Some m' => (TURBOWASM_OK, memory_put w loc m', pages m)
      end
  end.

Definition turbowasm_instance_memory_grow (w : store) (inst : nat)
    (memory_index delta_pages : Z) : turbowasm_status * store * Z :=
  match turbowasm_instance_memory_grow64 w inst memory_index delta_pages with
  | (TURBOWASM_OK, w', previous) =>
      if previous =? UINT64_MAX then (TURBOWASM_OK, w', UINT32_MAX)
      else if previous >? UINT32_MAX then (TURBOWASM_UNSUPPORTED, w', 0)
      else (TURBOWASM_OK, w', previous)
  | r => r
  end.

End Host.

Definition turbowasm_instance_memory_size (w : store) (inst : nat) (memory_index : Z)
    : turbowasm_status * Z :=
  match turbowasm_instance_memory_size64 w inst memory_index with
  | (TURBOWASM_OK, p) => if p >? UINT32_MAX then (TURBOWASM_UNSUPPORTED, 0) else (TURBOWASM_OK, p)
  | r => r
  end.

(** ** Data segments *)

Definition turbowasm_range_fits (offset length size : Z) : bool :=
  (offset <=? size) && (length <=? size - offset).

Definition turbowasm_instance_memory_init (w : store) (inst : nat)
    (data_index memory_index destination source length : Z) : turbowasm_status * store :=
  match w !! inst with
  | None => (TURBOWASM_INVALID_ARGUMENT, w)
  | Some instance =>
      match data_segment_dropped instance !! Z.to_nat data_index,
            data_segments instance !! Z.to_nat data_index with
      | Some dropped, Some segment =>
          let source_size := if (dropped : bool) then 0 else Z.of_nat (List.length segment) in
          if negb (turbowasm_range_fits source length source_size) then (TURBOWASM_TRAPPED, w)
          else turbowasm_instance_memory_write_bytes w inst memory_index destination 0
                 (slice segment source length)
      | _, _ => (TURBOWASM_INVALID_ARGUMENT, w)
      end
  end.

Definition turbowasm_instance_data_drop (w : store) (inst : nat) (data_index : Z)
    : turbowasm_status * store :=
  match w !! inst with
  | None => (TURBOWASM_INVALID_ARGUMENT, w)
  | Some i =>
      if data_index >=? Z.of_nat (List.length (data_segment_dropped i))
      then (TURBOWASM_INVALID_ARGUMENT, w)
      else (TURBOWASM_OK,
            <[inst := mk_instance (memories i) (validation_memories i) (linked_memories i)
                        (data_segments i)
                        (<[Z.to_nat data_index := true]> (data_segment_dropped i))]> w)
  end.

(** ** Atomic accesses (one step under the runtime-wide lock, when [sc_lock] succeeds) *)

Inductive turbowasm_atomic_kind := ATOMIC_LOAD | ATOMIC_STORE | ATOMIC_RMW | ATOMIC_CMPXCHG.

Inductive turbowasm_atomic_op :=
  | ATOMIC_OP_NONE
  | ATOMIC_OP_ADD
  | ATOMIC_OP_SUB
  | ATOMIC_OP_AND
  | ATOMIC_OP_OR
  | ATOMIC_OP_XOR
  | ATOMIC_OP_XCHG.

#[export] Instance atomic_kind_eq_dec : EqDecision turbowasm_atomic_kind.
Proof. solve_decision. Defined.

#[export] Instance atomic_op_eq_dec : EqDecision turbowasm_atomic_op.
Proof. solve_decision. Defined.

Inductive turbowasm_atomic_value_type := ATOMIC_I32 | ATOMIC_I64.

Record turbowasm_atomic_descriptor := mk_atomic {
  subopcode : Z;
  atomic_kind : turbowasm_atomic_kind;
  atomic_op : turbowasm_atomic_op;
  atomic_value_type : turbowasm_atomic_value_type;
  atomic_width : Z;
  alignment_log2 : Z
}.

(** The new value of a read-modify-write, [None] for an unknown operation. *)
Definition atomic_rmw (op : turbowasm_atomic_op) (old value mask : Z) : option Z :=
  match op with
  | ATOMIC_OP_ADD => Some (u64 (old + value) .& mask)
  | ATOMIC_OP_SUB => Some (u64 (old - value) .& mask)
  | ATOMIC_OP_AND => Some (old .& value)
  | ATOMIC_OP_OR => Some (old .| value)
  | ATOMIC_OP_XOR => Some (old .^ value)
  | ATOMIC_OP_XCHG => Some value
  | ATOMIC_OP_NONE => None
  end.

(** The result is the status, the store, [*out_old] and [*trap]. *)
Definition turbowasm_instance_memory_atomic (sc_lock : bool) (w : store) (inst : nat)
    (memory_index address offset : Z) (desc : turbowasm_atomic_descriptor)
    (value expected replacement : Z) : turbowasm_status * store * Z * turbowasm_trap :=
  let width := atomic_width desc in
  if negb ((width =? 1) || (width =? 2) || (width =? 4) || (width =? 8))
  then (TURBOWASM_INVALID_ARGUMENT, w, 0, TRAP_NONE)
  else match memory_locate w inst memory_index with
  | inl status => (status, w, 0, TRAP_NONE)
  | inr (loc, m) =>
      if negb (u64 (address + offset) mod width =? 0)
      then (TURBOWASM_TRAPPED, w, 0, TRAP_UNALIGNED_ATOMIC)
      else if negb sc_lock then (TURBOWASM_OUT_OF_MEMORY, w, 0, TRAP_NONE)
      else match turbowasm_instance_memory_storage_range m address offset width with
      | (TURBOWASM_OK, effective) =>
          let old := turbowasm_atomic_load_le (data m) effective width in
          let mask := turbowasm_atomic_width_mask width in
          let stored v :=
            memory_put w loc (with_data m (turbowasm_atomic_store_le (data m) effective width v)) in
          match atomic_kind desc with
          | ATOMIC_LOAD => (TURBOWASM_OK, w, old .& mask, TRAP_NONE)
          | ATOMIC_STORE => (TURBOWASM_OK, stored (value .& mask), old .& mask, TRAP_NONE)
          | ATOMIC_RMW =>
              match atomic_rmw (atomic_op desc) old (value .& mask) mask with
              | None => (TURBOWASM_INVALID_ARGUMENT, w, 0, TRAP_NONE)
              | Some v => (TURBOWASM_OK, stored (v .& mask), old .& mask, TRAP_NONE)
              end
          | ATOMIC_CMPXCHG =>
              let w' := if old =? expected .& mask then stored (replacement .& mask) else w in
              (TURBOWASM_OK, w', old .& mask, TRAP_NONE)
          end
      | (TURBOWASM_TRAPPED, _) => (TURBOWASM_TRAPPED, w, 0, TRAP_MEMORY_OUT_OF_BOUNDS)
      | (status, _) => (status, w, 0, TRAP_NONE)
      end
  end.

(** ** Loads and stores of values *)

Definition load_width (opcode : Z) : option Z :=
  switch opcode
    [(0x28, Some 4); (0x29, Some 8); (0x2a, Some 4); (0x2b, Some 8);
     (0x2c, Some 1); (0x2d, Some 1); (0x30, Some 1); (0x31, Some 1);
     (0x2e, Some 2); (0x2f, Some 2); (0x32, Some 2); (0x33, Some 2);
     (0x34, Some 4); (0x35, Some 4)] None.

Definition load_convert (opcode : Z) (p : list Z) : option turbowasm_value :=
  switch opcode
    [(0x28, Some (VI32 (s32 (turbowasm_read_u32_le_bytes p))));
     (0x29, Some (VI64 (s64 (turbowasm_read_u64_le_bytes p))));
     (0x2a, Some (VF32 (turbowasm_read_u32_le_bytes p)));
     (0x2b, Some (VF64 (turbowasm_read_u64_le_bytes p)));
     (0x2c, Some (VI32 (s8 (byte p 0))));
     (0x2d, Some (VI32 (byte p 0)));
     (0x2e, Some (VI32 (s16 (turbowasm_read_u16_le p))));
     (0x2f, Some (VI32 (turbowasm_read_u16_le p)));
     (0x30, Some (VI64 (s8 (byte p 0))));
     (0x31, Some (VI64 (byte p 0)));
     (0x32, Some (VI64 (s16 (turbowasm_read_u16_le p))));
     (0x33, Some (VI64 (turbowasm_read_u16_le p)));
     (0x34, Some (VI64 (s32 (turbowasm_read_u32_le_bytes p))));
     (0x35, Some (VI64 (turbowasm_read_u32_le_bytes p)))] None.

(** The bytes an access of [width] bytes sees, through the pointer of
    [memory_bounds] or the copy of [memory_read_bytes]. *)
Definition access_bytes (w : store) (inst : nat) (memory_index address offset width : Z)
    : turbowasm_status * list Z :=
  match turbowasm_instance_memory_shared w inst memory_index with
  | (TURBOWASM_OK, true) =>
      turbowasm_instance_memory_read_bytes w inst memory_index address offset width
  | (TURBOWASM_OK, false) =>
      match turbowasm_instance_memory_bounds w inst memory_index address offset width with
      | (TURBOWASM_OK, effective) =>
          match memory_locate w inst memory_index with
          | inr (_, m) => (TURBOWASM_OK, slice (data m) effective width)
          | inl status => (status, [])
          end
      | (status, _) => (status, [])
      end
  | (status, _) => (status, [])
  end.

(** The second component is the value loaded, or the new [*trap]. *)
Definition turbowasm_instance_memory_load_value (w : store) (inst : nat)
    (memory_index address offset opcode : Z)
    : turbowasm_status * (turbowasm_value + option turbowasm_trap) :=
  match load_width opcode with
  | None => (TURBOWASM_UNSUPPORTED, inr None)
  | Some width =>
      match access_bytes w inst memory_index address offset width with
      | (TURBOWASM_OK, p) =>
          match load_convert opcode p with
          | Some v => (TURBOWASM_OK, inl v)
          | None => (TURBOWASM_UNSUPPORTED, inr None)
          end
      | (TURBOWASM_TRAPPED, _) => (TURBOWASM_TRAPPED, inr (Some TRAP_MEMORY_OUT_OF_BOUNDS))
      | (status, _) => (status, inr None)
      end
  end.

Definition store_shape (opcode : Z) : option (turbowasm_value_kind * Z) :=
  switch opcode
    [(0x36, Some (TURBOWASM_VALUE_I32, 4)); (0x37, Some (TURBOWASM_VALUE_I64, 8));
     (0x38, Some (TURBOWASM_VALUE_F32, 4)); (0x39, Some (TURBOWASM_VALUE_F64, 8));
     (0x3a, Some (TURBOWASM_VALUE_I32, 1)); (0x3b, Some (TURBOWASM_VALUE_I32, 2));
     (0x3c, Some (TURBOWASM_VALUE_I64, 1)); (0x3d, Some (TURBOWASM_VALUE_I64, 2));
     (0x3e, Some (TURBOWASM_VALUE_I64, 4))] None.

Definition as_f32 (v : turbowasm_value) : Z := match v with VF32 b => b | _ => 0 end.
Definition as_f64 (v : turbowasm_value) : Z := match v with VF64 b => b | _ => 0 end.

Definition store_bytes (opcode : Z) (value : turbowasm_value) : option (list Z) :=
  switch opcode
    [(0x36, Some (turbowasm_write_u32_le (u32 (as_i32 value))));
     (0x37, Some (turbowasm_write_u64_le (u64 (as_i64 value))));
     (0x38, Some (turbowasm_write_u32_le (as_f32 value)));
     (0x39, Some (turbowasm_write_u64_le (as_f64 value)));
     (0x3a, Some [u8 (as_i32 value)]);
     (0x3b, Some (turbowasm_write_u16_le (u16 (as_i32 value))));
     (0x3c, Some [u8 (as_i64 value)]);
     (0x3d, Some (turbowasm_write_u16_le (u16 (as_i64 value))));
     (0x3e, Some (turbowasm_write_u32_le (u32 (as_i64 value))))] None.

(** The last component is the new [*trap], if it is set. *)
Definition turbowasm_instance_memory_store_value (w : store) (inst : nat)
    (memory_index address offset opcode : Z) (value : turbowasm_value)
    : turbowasm_status * store * option turbowasm_trap :=
  match store_shape opcode with
  | None => (TURBOWASM_UNSUPPORTED, w, None)
  | Some (expected, width) =>
      if negb (bool_decide (value_kind value = expected)) then (TURBOWASM_TYPE_MISMATCH, w, None)
      else match turbowasm_instance_memory_shared w inst memory_index with
      | (TURBOWASM_OK, is_shared) =>
          let target :=
            if is_shared then (TURBOWASM_OK, 0)
            else turbowasm_instance_memory_bounds w inst memory_index address offset width in
          match target with
          | (TURBOWASM_TRAPPED, _) => (TURBOWASM_TRAPPED, w, Some TRAP_MEMORY_OUT_OF_BOUNDS)
          | (TURBOWASM_OK, effective) =>
              match store_bytes opcode value with
              | None => (TURBOWASM_UNSUPPORTED, w, None)
              | Some bytes =>
                  if is_shared then
                    match turbowasm_instance_memory_write_bytes w inst memory_index address offset
                            bytes with
                    | (TURBOWASM_TRAPPED, w') =>
                        (TURBOWASM_TRAPPED, w', Some TRAP_MEMORY_OUT_OF_BOUNDS)
                    | (status, w') => (status, w', None)
                    end
                  else match memory_locate w inst memory_index with
                       | inr (loc, m) =>
                           (TURBOWASM_OK,
                            memory_put w loc (with_data m (splice (data m) effective bytes)), None)
                       | inl status => (status, w, None)
                       end
              end
          | (status, _) => (status, w, None)
          end
      | (status, _) => (status, w, None)
      end
  end.

(** ** The memory instructions *)

(** What a memory instruction reads and changes; an early return is [inl]. *)
Record machine := mk_machine { m_reader : turbowasm_reader; m_exec : exec_state; m_store : store }.

Definition mexec (A : Type) : Type := machine -> (turbowasm_status + A) * machine.

#[global] Instance mexec_ret : MRet mexec := fun A a x => (inr a, x).
#[global] Instance mexec_bind : MBind mexec := fun A B k m x =>
  match m x with
  | (inl status, x') => (inl status, x')
  | (inr a, x') => k a x'
  end.

Definition mstop {A} (status : turbowasm_status) : mexec A := fun x => (inl status, x).

Definition mrun (m : mexec unit) (x : machine) : turbowasm_status * machine :=
  match m x with
  | (inl status, x') => (status, x')
  | (inr _, x') => (TURBOWASM_OK, x')
  end.

(** A handler on the operand stack. *)
Definition on_exec {A} (h : exec A) : mexec A := fun x =>
  let '(r, e) := h (m_exec x) in (r, mk_machine (m_reader x) e (m_store x)).

(** A decoder whose failure means a malformed module. *)
Definition on_reader {A} (d : turbowasm_reader -> option A * turbowasm_reader) : mexec A := fun x =>
  match d (m_reader x) with
  | (Some a, r) => (inr a, mk_machine r (m_exec x) (m_store x))
  | (None, r) => (inl TURBOWASM_MALFORMED_MODULE, mk_machine r (m_exec x) (m_store x))
  end.

Section Instructions.
Context (buf : list Z) (realloc_ok : Z -> bool) (sizeof_value : Z) (inst : nat).

Definition turbowasm_exec_memory_address_kind (w : store) (memory_index : Z)
    : turbowasm_status * turbowasm_value_kind :=
  match w !! inst with
  | None => (TURBOWASM_INVALID_ARGUMENT, TURBOWASM_VALUE_ZERO)
  | Some instance =>
      match validation_memories instance !! Z.to_nat memory_index with
      | None => (TURBOWASM_MALFORMED_MODULE, TURBOWASM_VALUE_ZERO)
      | Some m => (TURBOWASM_OK, if v_memory64 m then TURBOWASM_VALUE_I64 else TURBOWASM_VALUE_I32)
      end
  end.

Definition turbowasm_exec_address_value (v : turbowasm_value) : Z :=
  match v with VI64 z => u64 z | _ => u32 (as_i32 v) end.

(** Memory index, offset and kind of the address operand. *)
Definition turbowasm_exec_read_indexed_memarg : mexec (Z * Z * turbowasm_value_kind) :=
  flags ← on_reader (turbowasm_reader_uleb32 buf);
  if flags >=? 0x80 then mstop TURBOWASM_MALFORMED_MODULE
  else
    memory_index ← ((if flags .& 0x40 =? 0 then mret 0
                     else on_reader (turbowasm_reader_uleb32 buf)) : mexec Z);
    (fun x =>
      match turbowasm_exec_memory_address_kind (m_store x) memory_index with
      | (TURBOWASM_OK, address_kind) =>
          (offset ← (if bool_decide (address_kind = TURBOWASM_VALUE_I64)
                     then on_reader (turbowasm_reader_uleb64 buf)
                     else on_reader (turbowasm_reader_uleb32 buf));
           mret (memory_index, offset, address_kind)) x
      | _ => (inl TURBOWASM_MALFORMED_MODULE, x)
      end) : mexec _.

Definition turbowasm_exec_memory_load (opcode : Z) : mexec unit :=
  arg ← turbowasm_exec_read_indexed_memarg;
  let '(memory_index, offset, address_kind) := arg in
  address ← on_exec (pop_kind address_kind);
  (fun x =>
    match turbowasm_instance_memory_load_value (m_store x) inst memory_index
            (turbowasm_exec_address_value address) offset opcode with
    | (TURBOWASM_OK, inl v) => on_exec (push realloc_ok sizeof_value v) x
    | (status, inr (Some t)) =>
        (inl status, mk_machine (m_reader x) (mk_exec (x_stack (m_exec x)) t) (m_store x))
    | (status, _) => (inl status, x)
    end) : mexec unit.

(** The value operand: whatever is on top. *)
Definition pop_any : exec turbowasm_value := fun x =>
  match turbowasm_stack_pop (x_stack x) with
  | (TURBOWASM_OK, s, Some v) => (inr v, mk_exec s (x_trap x))
  | _ => (inl TURBOWASM_TYPE_MISMATCH, x)
  end.

Definition turbowasm_exec_memory_store (opcode : Z) : mexec unit :=
  arg ← turbowasm_exec_read_indexed_memarg;
  let '(memory_index, offset, address_kind) := arg in
  value ← on_exec pop_any;
  address ← on_exec (pop_kind address_kind);
  (fun x =>
    let '(status, w', t) :=
      turbowasm_instance_memory_store_value (m_store x) inst memory_index
        (turbowasm_exec_address_value address) offset opcode value in
    let e := match t with
             | Some t => mk_exec (x_stack (m_exec x)) t
             | None => m_exec x
             end in
    ((match status with TURBOWASM_OK => inr tt | _ => inl status end),
     mk_machine (m_reader x) e w')) : mexec unit.

Definition turbowasm_exec_memory_size_or_grow (opcode : Z) : mexec unit :=
  memory_index ← on_reader (turbowasm_reader_uleb32 buf);
  (fun x =>
    match turbowasm_exec_memory_address_kind (m_store x) memory_index with
    | (TURBOWASM_OK, address_kind) =>
        (pages ← (if opcode =? 0x3f then ((fun x =>
                    match turbowasm_instance_memory_size64 (m_store x) inst memory_index with
                    | (TURBOWASM_OK, p) => (inr p, x)
                    | (status, _) => (inl status, x)
                    end) : mexec Z)
                  else if opcode =? 0x40 then
                    delta ← on_exec (pop_kind address_kind);
                    (fun x =>
                      match turbowasm_instance_memory_grow64 realloc_ok (m_store x) inst
                              memory_index (turbowasm_exec_address_value delta) with
                      | (TURBOWASM_OK, w', p) => (inr p, mk_machine (m_reader x) (m_exec x) w')
                      | (status, w', _) => (inl status, mk_machine (m_reader x) (m_exec x) w')
                      end) : mexec Z
                  else mstop TURBOWASM_UNSUPPORTED);
         on_exec (push realloc_ok sizeof_value
           (if bool_decide (address_kind = TURBOWASM_VALUE_I64) then VI64 (s64 pages)
            else VI32 (if pages =? UINT64_MAX then -1 else s32 (u32 pages))))) x
    | (status, _) => (inl status, x)
    end) : mexec unit.

End Instructions.

(** ** Slices *)

Lemma slice_length d p n :
  0 <= p -> 0 <= n -> p + n <= Z.of_nat (length d) -> length (slice d p n) = Z.to_nat n.
Proof. intros. unfold slice. rewrite length_take, length_drop. lia. Qed.

Lemma slice_lookup d p n i :
  0 <= p -> 0 <= n -> (i < Z.to_nat n)%nat -> slice d p n !! i = d !! (Z.to_nat p + i)%nat.
Proof. intros. unfold slice. rewrite lookup_take_lt, lookup_drop by lia. done. Qed.

Lemma splice_length d p bs :
  0 <= p -> p + Z.of_nat (length bs) <= Z.of_nat (length d) -> length (splice d p bs) = length d.
Proof. intros. unfold splice. rewrite !length_app, length_take, length_drop. lia. Qed.

(** Inside the spliced range there are the new bytes, elsewhere the old ones. *)
Lemma splice_lookup d p bs i :
  0 <= p -> p + Z.of_nat (length bs) <= Z.of_nat (length d) ->
  splice d p bs !! i =
    if decide (Z.to_nat p <= i < Z.to_nat p + length bs)%nat then bs !! (i - Z.to_nat p)%nat else d !! i.
Proof.
  intros Hp Hb. unfold splice. assert (Hl : length (take (Z.to_nat p) d) = Z.to_nat p) by (rewrite length_take; lia).
  destruct (decide (i < Z.to_nat p)%nat).
  - rewrite lookup_app_l by lia. rewrite lookup_take_lt by lia. by rewrite decide_False by lia.
  - rewrite lookup_app_r, Hl by lia. case_decide as Hc.
    + by rewrite lookup_app_l by lia.
    + rewrite lookup_app_r by lia. rewrite lookup_drop. f_equal. lia.
Qed.

Lemma slice_splice_same d p bs :
  0 <= p -> p + Z.of_nat (length bs) <= Z.of_nat (length d) ->
  slice (splice d p bs) p (Z.of_nat (length bs)) = bs.
Proof.
  intros Hp Hb. apply list_eq. intros i. destruct (decide (i < length bs)%nat).
  - rewrite slice_lookup, splice_lookup by lia. rewrite decide_True by lia. f_equal. lia.
  - rewrite (lookup_ge_None_2 bs) by lia. apply lookup_ge_None_2.
    rewrite slice_length; [lia..|]. rewrite splice_length; lia.
Qed.

Lemma slice_splice_disjoint d p bs q n :
  0 <= p -> p + Z.of_nat (length bs) <= Z.of_nat (length d) ->
  0 <= q -> 0 <= n -> q + n <= Z.of_nat (length d) ->
  q + n <= p \/ p + Z.of_nat (length bs) <= q ->
  slice (splice d p bs) q n = slice d q n.
Proof.
  intros Hp Hb Hq Hn Hr Hdis. apply list_eq. intros i. destruct (decide (i < Z.to_nat n)%nat).
  - rewrite !slice_lookup, splice_lookup by lia. by rewrite decide_False by lia.
  - rewrite !lookup_ge_None_2; [done|rewrite slice_length; lia|].
    rewrite slice_length; [lia..|]. rewrite splice_length; lia.
Qed.

Lemma slice_bytes_ok d p n : bytes_ok d -> bytes_ok (slice d p n).
Proof. intros H. by apply Forall_take, Forall_drop. Qed.

Lemma splice_bytes_ok d p bs : bytes_ok d -> bytes_ok bs -> bytes_ok (splice d p bs).
Proof. intros Hd Hb. repeat apply Forall_app_2; [by apply Forall_take|done|by apply Forall_drop]. Qed.

(** ** Little-endian bytes *)

Definition le_bytes (n : nat) (v : Z) : list Z :=
  (fun index => u8 (v ≫ (8 * Z.of_nat index))) <$> seq 0 n.

Definition le_read (n : nat) (p : list Z) : Z :=
  foldl (fun value index => value .| (byte p index ≪ (8 * Z.of_nat index))) 0 (seq 0 n).

Lemma le_read_S n p : le_read (S n) p = le_read n p .| (byte p n ≪ (8 * Z.of_nat n)).
Proof. unfold le_read. by rewrite seq_S, foldl_app. Qed.

Lemma byte_uint p i : bytes_ok p -> is_uint 8 (byte p i).
Proof.
  intros Hp. unfold byte. destruct (p !! i) as [b|] eqn:Hb; simpl; [|split; simpl; lia].
  unfold bytes_ok in Hp. rewrite Forall_lookup in Hp. by eapply Hp.
Qed.

(** Bit [j] of byte [i] of what is read is bit [j] of byte [i]. *)
Lemma le_read_bit n p k :
  bytes_ok p -> 0 <= k ->
  Z.testbit (le_read n p) k =
    if decide (k < 8 * Z.of_nat n) then Z.testbit (byte p (Z.to_nat (k / 8))) (k mod 8) else false.
Proof.
  intros Hp Hk. induction n as [|n IH].
  { rewrite decide_False by lia. apply Z.bits_0. }
  rewrite le_read_S, Z.lor_spec, IH, Z.shiftl_spec by lia.
  pose proof (byte_uint p n Hp) as Hb.
  destruct (decide (k < 8 * Z.of_nat n)).
  - rewrite (decide_True (P := k < 8 * Z.of_nat (S n))) by lia.
    rewrite (Z.testbit_neg_r (byte p n)) by lia. apply orb_false_r.
  - simpl. destruct (decide (k < 8 * Z.of_nat (S n))).
    + assert (E : k / 8 = Z.of_nat n) by (symmetry; apply (Z.div_unique_pos k 8 _ (k - 8 * Z.of_nat n)); lia).
      rewrite E, Nat2Z.id. f_equal. rewrite Z.mod_eq, E by lia. lia.
    + apply (testbit_uint 8); [done|lia].
Qed.

Lemma le_bytes_length n v : length (le_bytes n v) = n.
Proof. unfold le_bytes. by rewrite length_fmap, length_seq. Qed.

Lemma le_bytes_ok n v : bytes_ok (le_bytes n v).
Proof. unfold bytes_ok, le_bytes. apply Forall_fmap, Forall_true. intros i. apply wrap_range. lia. Qed.

Lemma le_bytes_byte n v i : (i < n)%nat -> byte (le_bytes n v) i = u8 (v ≫ (8 * Z.of_nat i)).
Proof. intros Hi. unfold byte, le_bytes. by rewrite list_lookup_fmap, lookup_seq_lt. Qed.

Lemma le_roundtrip n v : le_read n (le_bytes n v) = wrap (8 * Z.of_nat n) v.
Proof.
  apply Z.bits_inj'. intros k Hk. rewrite le_read_bit by (done || apply le_bytes_ok).
  rewrite testbit_wrap by lia. case_decide as Hd.
  - pose proof (Z.div_mod k 8 ltac:(lia)). pose proof (Z.mod_pos_bound k 8 ltac:(lia)).
    rewrite le_bytes_byte by lia. rewrite testbit_wrap, Z.shiftr_spec by lia.
    rewrite (proj2 (Z.ltb_lt (k mod 8) 8)), (proj2 (Z.ltb_lt k _)) by lia. simpl. f_equal. lia.
  - by destruct (Z.ltb_spec k (8 * Z.of_nat n)); [lia|].
Qed.

Lemma le_read_range n p : bytes_ok p -> is_uint (8 * Z.of_nat n) (le_read n p).
Proof.
  intros Hp.
  assert (E : wrap (8 * Z.of_nat n) (le_read n p) = le_read n p).
  { apply Z.bits_inj'. intros k Hk. rewrite testbit_wrap, le_read_bit by (done || lia).
    destruct (Z.ltb_spec k (8 * Z.of_nat n)); [done|]. by rewrite decide_False by lia. }
  pose proof (wrap_range (8 * Z.of_nat n) (le_read n p) ltac:(lia)) as Hr. by rewrite E in Hr.
Qed.

(** No bit of a shifted byte is cut off. *)
Lemma wrap_byte w p i : bytes_ok p -> 8 * Z.of_nat i + 8 <= w ->
  wrap w (byte p i ≪ (8 * Z.of_nat i)) = byte p i ≪ (8 * Z.of_nat i).
Proof.
  intros Hp Hw. apply wrap_id. rewrite Z.shiftl_mul_pow2 by lia. destruct (byte_uint p i Hp).
  split; [apply Z.mul_nonneg_nonneg; [lia|]; pose proof (pow2_pos (8 * Z.of_nat i)); lia|].
  rewrite (pow2_split (8 * Z.of_nat i) w) by lia. rewrite Z.mul_comm.
  apply Z.mul_lt_mono_pos_l; [apply pow2_pos; lia|].
  eapply Z.lt_le_trans; [apply H0|]. apply pow2_le. lia.
Qed.

Lemma read_u16_le p : bytes_ok p -> turbowasm_read_u16_le p = le_read 2 p.
Proof.
  intros Hp. unfold turbowasm_read_u16_le. pose proof (wrap_byte 16 p 1 Hp ltac:(lia)) as E.
  change (8 * Z.of_nat 1) with 8 in E. rewrite E. rewrite !le_read_S. unfold le_read. simpl.
  by rewrite Z.shiftl_0_r.
Qed.

Lemma read_u32_le p : bytes_ok p -> turbowasm_read_u32_le_bytes p = le_read 4 p.
Proof.
  intros Hp. unfold turbowasm_read_u32_le_bytes.
  pose proof (wrap_byte 32 p 1 Hp ltac:(lia)) as E1. pose proof (wrap_byte 32 p 2 Hp ltac:(lia)) as E2.
  pose proof (wrap_byte 32 p 3 Hp ltac:(lia)) as E3.
  change (8 * Z.of_nat 1) with 8 in E1. change (8 * Z.of_nat 2) with 16 in E2.
  change (8 * Z.of_nat 3) with 24 in E3. rewrite E1, E2, E3. rewrite !le_read_S. unfold le_read. simpl.
  by rewrite Z.shiftl_0_r.
Qed.

Lemma fold_read_le p n : bytes_ok p -> (n <= 8)%nat ->
  foldl (fun value index => value .| u64 (byte p index ≪ (8 * Z.of_nat index))) 0 (seq 0 n) = le_read n p.
Proof.
  intros Hp. induction n as [|n IH]; intros Hn; [done|].
  rewrite le_read_S, <- IH by lia. rewrite seq_S, foldl_app. simpl. by rewrite wrap_byte by (done || lia).
Qed.

Lemma read_u64_le p : bytes_ok p -> turbowasm_read_u64_le_bytes p = le_read 8 p.
Proof. intros Hp. by apply fold_read_le. Qed.

(** ** Well-formed stores *)

Definition memory_size (m : turbowasm_instance_memory) : Z := pages m * page_size m.

Record memory_wf (m : turbowasm_instance_memory) : Prop := {
  mw_init : storage_initialized m = true;
  mw_page : 1 <= page_size m;
  mw_pages : 0 <= pages m <= page_limit m;
  mw_size : memory_size m <= SIZE_MAX;
  mw_length : Z.of_nat (length (data m)) = memory_size m;
  mw_bytes : bytes_ok (data m)
}.

(** The memories an instance owns are well formed, and its imports lead to
    instances that were there before it. *)
Record instance_wf (inst : nat) (i : turbowasm_instance_impl) : Prop := {
  iw_own : forall k m vm, memories i !! k = Some m -> validation_memories i !! k = Some vm ->
             v_imported vm = false -> memory_wf m;
  iw_links : forall k p j, linked_memories i !! k = Some (Some (p, j)) -> (p < inst)%nat /\ 0 <= j;
  iw_segments : Forall (fun d => bytes_ok d /\ Z.of_nat (length d) <= SIZE_MAX) (data_segments i)
}.

Definition store_wf (w : store) : Prop := forall inst i, w !! inst = Some i -> instance_wf inst i.

(** *** Resolution *)

Lemma resolve_enough w : store_wf w -> forall fuel inst k, (inst < fuel)%nat -> forall n,
  memory_resolve_fuel (fuel + n) w inst k = memory_resolve_fuel fuel w inst k.
Proof.
  intros Hw. induction fuel as [|fuel IH]; intros inst k Hi n; [lia|].
  cbn [Nat.add memory_resolve_fuel]. destruct (w !! inst) as [i|] eqn:Hin; [|done].
  destruct (k >=? _); [done|]. destruct (validation_memories i !! _) as [vm|]; [|done].
  destruct (negb (v_imported vm)); [done|].
  destruct (linked_memories i !! Z.to_nat k) as [[[p j]|]|] eqn:Hl; [|done..].
  destruct (iw_links _ _ (Hw _ _ Hin) _ _ _ Hl) as [Hp _]. apply IH. lia.
Qed.

(** The memory found is one its instance declares itself. *)
Lemma resolve_fuel_own w fuel : forall inst k loc,
  memory_resolve_fuel fuel w inst k = Some loc -> 0 <= k -> store_wf w ->
  exists i m vm, w !! loc.1 = Some i /\ memories i !! loc.2 = Some m /\
    validation_memories i !! loc.2 = Some vm /\ v_imported vm = false.
Proof.
  induction fuel as [|fuel IH]; intros inst k loc; [done|]. cbn [memory_resolve_fuel].
  destruct (w !! inst) as [i|] eqn:Hin; [|done].
  rewrite Z.geb_leb. destruct (Z.leb_spec (Z.of_nat (length (memories i))) k); [done|].
  destruct (validation_memories i !! Z.to_nat k) as [vm|] eqn:Hv; [|done].
  destruct (v_imported vm) eqn:Hi; simpl.
  - destruct (linked_memories i !! Z.to_nat k) as [[[p j]|]|] eqn:Hl; [|done..].
    intros Hr Hk Hw. destruct (iw_links _ _ (Hw _ _ Hin) _ _ _ Hl) as [_ Hj]. by eapply IH.
  - intros [= <-] Hk _. simpl.
    destruct (lookup_lt_is_Some_2 (memories i) (Z.to_nat k)) as [m Hm]; [lia|]. by exists i, m, vm.
Qed.

Lemma memory_locate_spec w inst k loc m :
  memory_locate w inst k = inr (loc, m) -> 0 <= k -> store_wf w ->
  turbowasm_instance_memory_resolve w inst k = Some loc /\ memory_at w loc = Some m /\ memory_wf m.
Proof.
  unfold memory_locate. destruct (w !! inst) as [i0|]; [|done]. destruct (k >=? _); [done|].
  destruct (turbowasm_instance_memory_resolve w inst k) as [loc'|] eqn:Hr; [|done].
  destruct (memory_at w loc') as [m'|] eqn:Hm; [|done]. intros [= <- <-] Hk Hw.
  split_and!; [done|done|]. destruct (resolve_fuel_own _ _ _ _ _ Hr Hk Hw) as (i & m & vm & Hi & Hmm & Hv & Hv').
  unfold memory_at in Hm. rewrite Hi in Hm. simplify_eq. by eapply (iw_own _ _ (Hw _ _ Hi)).
Qed.

(** *** Updating one memory *)

Lemma memory_locate_status w inst k st : memory_locate w inst k = inl st -> st <> TURBOWASM_OK.
Proof. unfold memory_locate. by repeat case_match; intros [= <-]. Qed.

(** Stores that differ in the contents of memories only. *)
Definition same_shape (w w' : store) : Prop :=
  length w = length w' /\ forall inst i', w' !! inst = Some i' -> exists i, w !! inst = Some i /\
    length (memories i') = length (memories i) /\ validation_memories i' = validation_memories i /\
    linked_memories i' = linked_memories i.

Lemma put_shape w loc m : same_shape w (memory_put w loc m).
Proof.
  unfold memory_put. destruct (w !! loc.1) as [i|] eqn:Hi.
  - split; [by rewrite length_insert|]. intros inst i' Hin.
    apply list_lookup_insert_Some in Hin as [(<- & <- & _)|[_ Hin]]; [|by exists i'].
    exists i. simpl. by rewrite length_insert.
  - split; [done|]. intros inst i' Hin. by exists i'.
Qed.

Lemma resolve_shape w w' : same_shape w w' -> forall fuel inst k,
  memory_resolve_fuel fuel w' inst k = memory_resolve_fuel fuel w inst k.
Proof.
  intros [Hlen Hs]. induction fuel as [|fuel IH]; intros inst k; [done|]. cbn [memory_resolve_fuel].
  destruct (w' !! inst) as [i'|] eqn:Hi'.
  - destruct (Hs _ _ Hi') as (i & -> & -> & -> & ->). repeat case_match; done.
  - apply lookup_ge_None in Hi'. rewrite (lookup_ge_None_2 w) by lia. done.
Qed.

Lemma put_resolve w loc m inst k :
  turbowasm_instance_memory_resolve (memory_put w loc m) inst k =
  turbowasm_instance_memory_resolve w inst k.
Proof.
  unfold turbowasm_instance_memory_resolve. destruct (put_shape w loc m) as [<- H].
  apply resolve_shape. apply put_shape.
Qed.

Lemma put_at w loc m0 m loc' :
  memory_at w loc = Some m0 ->
  memory_at (memory_put w loc m) loc' = if decide (loc = loc') then Some m else memory_at w loc'.
Proof.
  unfold memory_at, memory_put. destruct loc as [a b], loc' as [a' b']. simpl.
  destruct (w !! a) as [i|] eqn:Hi; [|done]. intros Hm.
  destruct (decide (a = a')) as [<-|Ha].
  - rewrite list_lookup_insert_eq by (by eapply lookup_lt_Some). simpl.
    destruct (decide (b = b')) as [<-|Hb].
    + rewrite list_lookup_insert_eq by (by eapply lookup_lt_Some). by rewrite decide_True.
    + rewrite list_lookup_insert_ne by done. rewrite decide_False by congruence. by rewrite Hi.
  - rewrite list_lookup_insert_ne by done. by rewrite decide_False by congruence.
Qed.

Lemma put_wf w loc m0 m :
  store_wf w -> memory_at w loc = Some m0 -> memory_wf m -> store_wf (memory_put w loc m).
Proof.
  intros Hw Hm Hmw inst i' Hi'. unfold memory_put, memory_at in *.
  destruct (w !! loc.1) as [i|] eqn:Hi; [|by apply Hw].
  apply list_lookup_insert_Some in Hi' as [(<- & <- & _)|[_ Hi']]; [|by apply Hw].
  destruct (Hw _ _ Hi) as [Hown Hlinks Hseg]. split; simpl; [|done..]. intros k m' vm Hk.
  apply list_lookup_insert_Some in Hk as [(<- & <- & _)|[_ Hk]]; [done|by eapply Hown].
Qed.

Lemma put_locate w loc m0 m inst k loc' m' :
  memory_at w loc = Some m0 -> memory_locate w inst k = inr (loc', m') ->
  memory_locate (memory_put w loc m) inst k = inr (loc', if decide (loc = loc') then m else m').
Proof.
  intros Hm. unfold memory_locate. destruct (put_shape w loc m) as [Hlen Hs].
  destruct (w !! inst) as [i0|] eqn:Hi0; [|done].
  destruct (memory_put w loc m !! inst) as [i'|] eqn:Hi'.
  2: { apply lookup_ge_None in Hi'. apply lookup_lt_Some in Hi0. lia. }
  destruct (Hs _ _ Hi') as (i & Hi & -> & _ & _). simplify_eq.
  destruct (k >=? _); [done|]. rewrite put_resolve.
  destruct (turbowasm_instance_memory_resolve w inst k) as [l|]; [|done].
  rewrite (put_at _ _ _ _ _ Hm). destruct (memory_at w l) as [ml|] eqn:Hl; [|done].
  intros [= <- <-]. by case_decide.
Qed.

(** *** Bounds *)

Lemma storage_range_spec m address offset width :
  memory_wf m -> is_uint 64 address -> is_uint 64 offset -> 0 <= width <= SIZE_MAX ->
  turbowasm_instance_memory_storage_range m address offset width =
    if decide (address + offset + width <= memory_size m) then (TURBOWASM_OK, address + offset)
    else (TURBOWASM_TRAPPED, 0).
Proof.
  intros [Hi Hp Hpg Hs Hl Hb] [Ha1 Ha2] [Ho1 Ho2] Hw.
  unfold turbowasm_instance_memory_storage_range. rewrite Hi. unfold memory_size, SIZE_MAX in *.
  destruct (Z.eqb_spec (page_size m) 0); [lia|]. simpl.
  change (2 ^ 64) with (UINT64_MAX + 1) in *.
  destruct (Z.gtb_spec address (UINT64_MAX - offset)).
  { rewrite decide_False by lia. done. }
  rewrite (wrap_id 64 (address + offset)) by (split; change (2 ^ 64) with (UINT64_MAX + 1); lia).
  destruct (Z.gtb_spec (pages m) (UINT64_MAX / page_size m)) as [Hbig|Hsm].
  { exfalso. assert (pages m <= UINT64_MAX / page_size m); [|lia].
    apply Z.div_le_lower_bound; lia. }
  rewrite (wrap_id 64 (pages m * page_size m)) by (split; change (2 ^ 64) with (UINT64_MAX + 1); lia).
  destruct (Z.gtb_spec (address + offset) (pages m * page_size m)).
  { rewrite decide_False by lia. done. }
  rewrite wrap_id by (split; change (2 ^ 64) with (UINT64_MAX + 1); lia). simpl.
  destruct (Z.gtb_spec width (pages m * page_size m - (address + offset))).
  { rewrite decide_False by lia. done. }
  simpl. destruct (Z.gtb_spec (address + offset) UINT64_MAX); [lia|].
  destruct (Z.gtb_spec width UINT64_MAX); [lia|]. simpl. by rewrite decide_True by lia.
Qed.

Lemma bounds_spec w inst k loc m address offset width :
  memory_locate w inst k = inr (loc, m) -> shared m = false -> memory_wf m ->
  is_uint 64 address -> is_uint 64 offset -> 0 <= width <= SIZE_MAX ->
  turbowasm_instance_memory_bounds w inst k address offset width =
  turbowasm_instance_memory_storage_range m address offset width.
Proof.
  intros Hloc Hsh Hmw Ha Ho Hw. unfold turbowasm_instance_memory_bounds.
  rewrite Hloc, Hsh. unfold turbowasm_instance_memory_storage_range.
  rewrite (mw_init _ Hmw). pose proof (mw_page _ Hmw).
  destruct (Z.eqb_spec (page_size m) 0); [lia|]. simpl.
  destruct (Z.gtb_spec width SIZE_MAX); [lia|]. by rewrite orb_false_r.
Qed.

(** ** Effects of the operations *)

Lemma with_data_wf m d :
  memory_wf m -> length d = length (data m) -> bytes_ok d -> memory_wf (with_data m d).
Proof.
  intros [Hi Hp Hpg Hs Hl Hb] Hlen Hd. split; try done. simpl. by rewrite Hlen.
Qed.

Lemma splice_wf m p bs :
  memory_wf m -> 0 <= p -> p + Z.of_nat (length bs) <= memory_size m -> bytes_ok bs ->
  memory_wf (with_data m (splice (data m) p bs)).
Proof.
  intros Hm Hp Hb Hbs. pose proof (mw_length _ Hm). apply with_data_wf; [done| |].
  - apply splice_length; lia.
  - apply splice_bytes_ok; [apply Hm|done].
Qed.

(** [changes w w' loc m p bs]: the only difference is that the bytes [bs] were
    written at offset [p] of the memory at [loc]. *)
Definition changes (w w' : store) (loc : nat * nat) (m : turbowasm_instance_memory) (p : Z)
    (bs : list Z) : Prop :=
  memory_at w loc = Some m /\ memory_wf m /\ 0 <= p /\ p + Z.of_nat (length bs) <= memory_size m /\
  bytes_ok bs /\ w' = memory_put w loc (with_data m (splice (data m) p bs)).

Lemma changes_wf w w' loc m p bs : store_wf w -> changes w w' loc m p bs -> store_wf w'.
Proof.
  intros Hw (Hm & Hmw & Hp & Hb & Hbs & ->). eapply put_wf; [done..|]. by apply splice_wf.
Qed.

Lemma write_effect w inst k address offset src st w' :
  store_wf w -> 0 <= k -> is_uint 64 address -> is_uint 64 offset ->
  Z.of_nat (length src) <= SIZE_MAX -> bytes_ok src ->
  turbowasm_instance_memory_write_bytes w inst k address offset src = (st, w') ->
  (st <> TURBOWASM_OK /\ w' = w) \/
  (st = TURBOWASM_OK /\ exists loc m, memory_locate w inst k = inr (loc, m) /\
     changes w w' loc m (address + offset) src).
Proof.
  intros Hw Hk Ha Ho Hs Hbs. unfold turbowasm_instance_memory_write_bytes.
  destruct (memory_locate w inst k) as [st0|[loc m]] eqn:Hloc.
  { intros [= <- <-]. left. split; [|done]. by eapply memory_locate_status. }
  destruct (memory_locate_spec _ _ _ _ _ Hloc Hk Hw) as (_ & Hm & Hmw).
  rewrite storage_range_spec by (done || lia). case_decide as Hd; intros [= <- <-]; [right|by left].
  split; [done|]. exists loc, m. split; [done|]. destruct Ha, Ho. split_and!; try done; lia.
Qed.

Lemma fill_effect w inst k dst value len st w' :
  store_wf w -> 0 <= k -> is_uint 64 dst -> is_uint 8 value -> 0 <= len <= SIZE_MAX ->
  turbowasm_instance_memory_fill_bytes w inst k dst value len = (st, w') ->
  (st <> TURBOWASM_OK /\ w' = w) \/
  (st = TURBOWASM_OK /\ exists loc m, memory_locate w inst k = inr (loc, m) /\
     changes w w' loc m dst (replicate (Z.to_nat len) value)).
Proof.
  intros Hw Hk Ha Hv Hs. unfold turbowasm_instance_memory_fill_bytes.
  destruct (memory_locate w inst k) as [st0|[loc m]] eqn:Hloc.
  { intros [= <- <-]. left. split; [|done]. by eapply memory_locate_status. }
  destruct (memory_locate_spec _ _ _ _ _ Hloc Hk Hw) as (_ & Hm & Hmw).
  rewrite storage_range_spec by (done || split; simpl; lia).
  case_decide as Hd; intros [= <- <-]; [right|by left].
  split; [done|]. exists loc, m. split; [done|]. destruct Ha. rewrite Z.add_0_r.
  split_and!; try done; rewrite ?length_replicate; try lia. by apply Forall_replicate.
Qed.

Lemma copy_effect w inst kd ks dst src len st w' :
  store_wf w -> 0 <= kd -> 0 <= ks -> is_uint 64 dst -> is_uint 64 src -> 0 <= len <= SIZE_MAX ->
  turbowasm_instance_memory_copy_bytes w inst kd ks dst src len = (st, w') ->
  (st <> TURBOWASM_OK /\ w' = w) \/
  (st = TURBOWASM_OK /\ exists dl dm sl sm,
     memory_locate w inst kd = inr (dl, dm) /\ memory_locate w inst ks = inr (sl, sm) /\
     src + len <= memory_size sm /\ changes w w' dl dm dst (slice (data sm) src len)).
Proof.
  intros Hw Hkd Hks Hd Hs Hl. unfold turbowasm_instance_memory_copy_bytes.
  destruct (memory_locate w inst kd) as [[]|[dl dm]] eqn:Hdl,
           (memory_locate w inst ks) as [[]|[sl sm]] eqn:Hsl; try (intros [= <- <-]; by left).
  destruct (memory_locate_spec _ _ _ _ _ Hdl Hkd Hw) as (_ & Hm & Hmw).
  destruct (memory_locate_spec _ _ _ _ _ Hsl Hks Hw) as (_ & Hms & Hmws).
  rewrite !storage_range_spec by (done || split; simpl; lia).
  case_decide as Hd1; [|intros [= <- <-]; by left].
  case_decide as Hd2; [|intros [= <- <-]; by left].
  intros [= <- <-]. right. split; [done|]. exists dl, dm, sl, sm. destruct Hd, Hs. rewrite !Z.add_0_r.
  pose proof (mw_length _ Hmws).
  split_and!; try done; [lia|]. split_and!; try done.
  - rewrite slice_length; lia.
  - apply slice_bytes_ok. apply Hmws.
Qed.

Lemma grow_effect realloc_ok m delta m' :
  memory_wf m -> is_uint 64 delta -> memory_grow realloc_ok m delta = Some m' ->
  memory_wf m' /\ pages m' = pages m + delta /\
  data m' = data m ++ replicate (Z.to_nat (delta * page_size m)) 0 /\
  page_size m' = page_size m /\ shared m' = shared m /\ memory64 m' = memory64 m /\
  maximum_pages m' = maximum_pages m /\ has_maximum m' = has_maximum m /\
  resource_max_bytes m' = resource_max_bytes m /\
  (has_maximum m = true -> pages m' <= maximum_pages m) /\
  (resource_max_bytes m <> 0 -> memory_size m' <= resource_max_bytes m).
Proof.
  intros [Hi Hp Hpg Hs Hl Hb] [Hd1 Hd2]. unfold memory_grow, memory_size, SIZE_MAX in *.
  change (2 ^ 64) with (UINT64_MAX + 1) in Hd2.
  destruct (Z.eqb_spec (page_size m) 0); [lia|]. simpl.
  destruct (Z.gtb_spec (pages m) (UINT64_MAX - delta)); [done|].
  rewrite (wrap_id 64 (pages m + delta)) by (split; change (2 ^ 64) with (UINT64_MAX + 1); lia).
  destruct (Z.gtb_spec (pages m + delta) (page_limit m)); [done|].
  destruct (has_maximum m && (pages m + delta >? maximum_pages m)) eqn:Hmax; [done|].
  destruct (Z.gtb_spec (pages m + delta) (UINT64_MAX / page_size m)) as [|Hfit]; [done|]. simpl.
  assert (Hmul : (pages m + delta) * page_size m <= UINT64_MAX).
  { pose proof (Z.mul_div_le UINT64_MAX (page_size m) ltac:(lia)). nia. }
  rewrite !wrap_id by (split; change (2 ^ 64) with (UINT64_MAX + 1); nia).
  destruct (negb (resource_max_bytes m =? 0) && _) eqn:Hres; [done|].
  assert (Hmax' : has_maximum m = true -> pages m + delta <= maximum_pages m).
  { intros E. rewrite E in Hmax. simpl in Hmax. destruct (Z.gtb_spec (pages m + delta) (maximum_pages m)); [done|lia]. }
  assert (Hres' : resource_max_bytes m <> 0 -> (pages m + delta) * page_size m <= resource_max_bytes m).
  { intros E. destruct (Z.eqb_spec (resource_max_bytes m) 0); [done|]. simpl in Hres.
    destruct (Z.gtb_spec ((pages m + delta) * page_size m) (resource_max_bytes m)); [done|lia]. }
  destruct (Z.eqb_spec ((pages m + delta) * page_size m) 0) as [Hz|Hnz].
  - assert (delta = 0) as -> by nia. intros [= <-]. simpl. rewrite Z.add_0_r in *.
    split_and!; try done; by rewrite app_nil_r.
  - destruct (realloc_ok _); [|done]. simpl. intros [= <-]. simpl.
    rewrite take_ge by nia.
    replace ((pages m + delta) * page_size m - pages m * page_size m) with (delta * page_size m) by lia.
    split_and!; try done. split; simpl; try done; [unfold page_limit in *; simpl; lia| |].
    + rewrite length_app, length_replicate. unfold memory_size. simpl. nia.
    + apply Forall_app_2; [done|]. apply Forall_replicate. split; simpl; lia.
Qed.

(** *** Typed loads and stores *)

Lemma access_spec w inst k loc m address offset width :
  store_wf w -> 0 <= k -> memory_locate w inst k = inr (loc, m) ->
  is_uint 64 address -> is_uint 64 offset -> 0 <= width <= SIZE_MAX ->
  access_bytes w inst k address offset width =
    if decide (address + offset + width <= memory_size m)
    then (TURBOWASM_OK, slice (data m) (address + offset) width) else (TURBOWASM_TRAPPED, []).
Proof.
  intros Hw Hk Hloc Ha Ho Hwd. destruct (memory_locate_spec _ _ _ _ _ Hloc Hk Hw) as (_ & _ & Hmw).
  unfold access_bytes, turbowasm_instance_memory_shared. rewrite Hloc.
  destruct (shared m) eqn:Hsh.
  - unfold turbowasm_instance_memory_read_bytes. rewrite Hloc, storage_range_spec by done.
    by case_decide.
  - rewrite (bounds_spec _ _ _ _ _ _ _ _ Hloc Hsh Hmw Ha Ho Hwd), storage_range_spec by done.
    by case_decide.
Qed.

Lemma load_width_range opcode width : load_width opcode = Some width -> 1 <= width <= 8.
Proof. unfold load_width, switch. repeat (case_match; [intros [= <-]; lia|]). done. Qed.

Lemma load_spec w inst k loc m address offset opcode width :
  store_wf w -> 0 <= k -> memory_locate w inst k = inr (loc, m) ->
  is_uint 64 address -> is_uint 64 offset -> load_width opcode = Some width ->
  turbowasm_instance_memory_load_value w inst k address offset opcode =
    if decide (address + offset + width <= memory_size m)
    then match load_convert opcode (slice (data m) (address + offset) width) with
         | Some v => (TURBOWASM_OK, inl v)
         | None => (TURBOWASM_UNSUPPORTED, inr None)
         end
    else (TURBOWASM_TRAPPED, inr (Some TRAP_MEMORY_OUT_OF_BOUNDS)).
Proof.
  intros Hw Hk Hloc Ha Ho Hwd. pose proof (load_width_range _ _ Hwd).
  unfold turbowasm_instance_memory_load_value. rewrite Hwd.
  rewrite (access_spec _ _ _ _ _ _ _ _ Hw Hk Hloc Ha Ho) by (unfold SIZE_MAX, UINT64_MAX; lia).
  by case_decide.
Qed.

(** The bits a store of [opcode] writes. *)
Definition store_raw (v : turbowasm_value) : Z :=
  match v with VI32 z | VI64 z | VF32 z | VF64 z => z | _ => 0 end.

Lemma write_u16_le_bytes v : turbowasm_write_u16_le v = le_bytes 2 v.
Proof. unfold turbowasm_write_u16_le, le_bytes. simpl. by rewrite Z.shiftr_0_r. Qed.
Lemma write_u32_le_bytes v : turbowasm_write_u32_le v = le_bytes 4 v.
Proof. unfold turbowasm_write_u32_le, le_bytes. simpl. by rewrite Z.shiftr_0_r. Qed.

Lemma write_u64_le_bytes v : turbowasm_write_u64_le v = le_bytes 8 v.
Proof. done. Qed.

Lemma le_bytes_wrap n w v : 8 * Z.of_nat n <= w -> le_bytes n (wrap w v) = le_bytes n v.
Proof.
  intros Hw. unfold le_bytes. apply list_fmap_ext. intros j i Hi. apply lookup_seq in Hi.
  apply Z.bits_inj'. intros b Hb. rewrite !testbit_wrap, !Z.shiftr_spec, testbit_wrap by lia.
  destruct (Z.ltb_spec b 8); [|done]. simpl.
  by destruct (Z.ltb_spec (b + 8 * Z.of_nat i) w); [|lia].
Qed.

Lemma store_bytes_spec opcode kind width v :
  store_shape opcode = Some (kind, width) -> value_kind v = kind ->
  store_bytes opcode v = Some (le_bytes (Z.to_nat width) (store_raw v)) /\ 1 <= width <= 8.
Proof.
  intros Hs Hk. unfold store_shape, store_bytes, switch in *.
  assert (E1 : forall z, [u8 z] = le_bytes 1 z) by (intros z; unfold le_bytes; simpl; by rewrite Z.shiftr_0_r).
  revert Hs. repeat (case_match; [intros [= <- <-]; split; [|lia]; destruct v; try done;
    cbn [as_i32 as_i64 as_f32 as_f64 store_raw];
    rewrite ?write_u64_le_bytes, ?write_u32_le_bytes, ?write_u16_le_bytes, ?E1; f_equal;
    change (Z.to_nat 8) with 8%nat; change (Z.to_nat 4) with 4%nat; change (Z.to_nat 2) with 2%nat;
    change (Z.to_nat 1) with 1%nat; by rewrite ?le_bytes_wrap by lia|]). done.
Qed.

Lemma store_value_effect w inst k loc m address offset opcode kind width v st w' t :
  store_wf w -> 0 <= k -> memory_locate w inst k = inr (loc, m) ->
  is_uint 64 address -> is_uint 64 offset -> store_shape opcode = Some (kind, width) ->
  value_kind v = kind ->
  turbowasm_instance_memory_store_value w inst k address offset opcode v = (st, w', t) ->
  if decide (address + offset + width <= memory_size m)
  then st = TURBOWASM_OK /\ t = None /\
       changes w w' loc m (address + offset) (le_bytes (Z.to_nat width) (store_raw v))
  else st = TURBOWASM_TRAPPED /\ t = Some TRAP_MEMORY_OUT_OF_BOUNDS /\ w' = w.
Proof.
  intros Hw Hk Hloc Ha Ho Hs Hv. destruct (store_bytes_spec _ _ _ _ Hs Hv) as [Hb Hwd].
  destruct (memory_locate_spec _ _ _ _ _ Hloc Hk Hw) as (_ & Hm & Hmw).
  assert (Hch : address + offset + width <= memory_size m ->
    changes w (memory_put w loc (with_data m
      (splice (data m) (address + offset) (le_bytes (Z.to_nat width) (store_raw v))))) loc m
      (address + offset) (le_bytes (Z.to_nat width) (store_raw v))).
  { intros Hle. destruct Ha, Ho. split_and!; try done; rewrite ?le_bytes_length; try lia. apply le_bytes_ok. }
  unfold turbowasm_instance_memory_store_value. rewrite Hs, bool_decide_eq_true_2 by done. simpl.
  unfold turbowasm_instance_memory_shared at 1. rewrite Hloc. destruct (shared m) eqn:Hsh.
  - rewrite Hb. unfold turbowasm_instance_memory_write_bytes. rewrite Hloc, le_bytes_length.
    rewrite storage_range_spec by (done || unfold SIZE_MAX, UINT64_MAX; lia).
    rewrite Z2Nat.id by lia. case_decide; intros [= <- <- <-]; auto.
  - rewrite (bounds_spec _ _ _ _ _ _ _ _ Hloc Hsh Hmw Ha Ho) by (unfold SIZE_MAX, UINT64_MAX; lia).
    rewrite storage_range_spec by (done || unfold SIZE_MAX, UINT64_MAX; lia).
    case_decide; [rewrite Hb|]; intros [= <- <- <-]; auto.
Qed.

(** *** Atomics *)

Lemma atomic_mask width :
  width = 1 \/ width = 2 \/ width = 4 \/ width = 8 ->
  turbowasm_atomic_width_mask width = Z.ones (8 * width).
Proof. intros [-> | [-> | [-> | ->]]]; reflexivity. Qed.

Definition atomic_width_ok (width : Z) : Prop := width = 1 \/ width = 2 \/ width = 4 \/ width = 8.

Lemma wrap_mod_width width z : atomic_width_ok width -> u64 z mod width = z mod width.
Proof.
  intros Hw. unfold wrap.
  assert (Hd : exists q, 2 ^ 64 = q * width).
  { destruct Hw as [-> | [-> | [-> | ->]]]; [exists (2 ^ 64)|exists (2 ^ 63)|exists (2 ^ 62)|exists (2 ^ 61)];
      reflexivity. }
  destruct Hd as [q Hq]. rewrite (Z.div_mod z (2 ^ 64)) at 2 by done. rewrite Hq at 2.
  replace (q * width * (z / 2 ^ 64) + z mod 2 ^ 64) with (z mod 2 ^ 64 + (q * (z / 2 ^ 64)) * width) by lia.
  by rewrite Z_mod_plus_full.
Qed.

Lemma atomic_load_le m p width :
  memory_wf m -> atomic_width_ok width ->
  turbowasm_atomic_load_le (data m) p width = le_read (Z.to_nat width) (slice (data m) p width).
Proof.
  intros Hm Hw. apply fold_read_le; [apply slice_bytes_ok, Hm|].
  destruct Hw as [-> | [-> | [-> | ->]]]; lia.
Qed.

Lemma atomic_store_le d p width v :
  turbowasm_atomic_store_le d p width v = splice d p (le_bytes (Z.to_nat width) v).
Proof. done. Qed.

(** What an access does to the number [old] in the cell: the new number, if it
    stores one. *)
Definition spec_atomic (desc : turbowasm_atomic_descriptor) (old value expected replacement : Z)
    : option Z :=
  let modulus := 2 ^ (8 * atomic_width desc) in
  match atomic_kind desc with
  | ATOMIC_LOAD => None
  | ATOMIC_STORE => Some (value mod modulus)
  | ATOMIC_RMW =>
      match atomic_op desc with
      | ATOMIC_OP_ADD => Some ((old + value) mod modulus)
      | ATOMIC_OP_SUB => Some ((old - value) mod modulus)
      | ATOMIC_OP_AND => Some (Z.land old (value mod modulus))
      | ATOMIC_OP_OR => Some (Z.lor old (value mod modulus))
      | ATOMIC_OP_XOR => Some (Z.lxor old (value mod modulus))
      | ATOMIC_OP_XCHG => Some (value mod modulus)
      | ATOMIC_OP_NONE => None
      end
  | ATOMIC_CMPXCHG => if decide (old = expected mod modulus) then Some (replacement mod modulus) else None
  end.

Definition atomic_known (desc : turbowasm_atomic_descriptor) : Prop :=
  atomic_width_ok (atomic_width desc) /\
  ~ (atomic_kind desc = ATOMIC_RMW /\ atomic_op desc = ATOMIC_OP_NONE).

Lemma le_bytes_mod n v w : w = 8 * Z.of_nat n -> le_bytes n (v mod 2 ^ w) = le_bytes n v.
Proof. intros ->. apply (le_bytes_wrap n (8 * Z.of_nat n)). lia. Qed.

Lemma mod_mod_pow a b z : 0 <= a <= b -> (z mod 2 ^ b) mod 2 ^ a = z mod 2 ^ a.
Proof. intros H. by apply (wrap_wrap_le a b). Qed.

(** The masked word the code stores, as a number modulo the cell's range. *)
Lemma atomic_new_value desc old value :
  atomic_known desc -> atomic_kind desc = ATOMIC_RMW -> is_uint (8 * atomic_width desc) old ->
  exists v, atomic_rmw (atomic_op desc) old (value .& Z.ones (8 * atomic_width desc))
              (Z.ones (8 * atomic_width desc)) = Some v /\
    spec_atomic desc old value 0 0 = Some (v .& Z.ones (8 * atomic_width desc)).
Proof.
  intros [Hw Hop] Hk Hold. unfold spec_atomic. rewrite Hk.
  set (n := 8 * atomic_width desc) in *.
  assert (Hn : 0 <= n <= 64) by (unfold n; destruct Hw as [-> | [-> | [-> | ->]]]; lia).
  assert (Hmod : forall z, (z mod 2 ^ n) mod 2 ^ n = z mod 2 ^ n) by (intros; apply Zmod_mod).
  assert (Hold' : old mod 2 ^ n = old) by (by apply Z.mod_small).
  assert (Hv : is_uint n (value mod 2 ^ n)) by (apply (wrap_range n); lia).
  assert (Hb : forall z i, is_uint n z -> 0 <= i -> Z.testbit z i = (i <? n) && Z.testbit z i).
  { intros z i Hz Hi. destruct (Z.ltb_spec i n); [done|]. by rewrite (testbit_uint n). }
  rewrite !Z.land_ones by lia. unfold atomic_rmw, wrap.
  destruct (atomic_op desc) eqn:Ho; [by destruct Hop| | | | | |]; eexists; (split; [done|]); f_equal;
    rewrite ?Z.land_ones, ?Hmod by lia; try done.
  - rewrite mod_mod_pow by lia. by rewrite Zplus_mod_idemp_r.
  - rewrite mod_mod_pow by lia. by rewrite Zminus_mod_idemp_r.
  - apply Z.bits_inj'. intros i Hi. rewrite Z.testbit_mod_pow2, !Z.land_spec by lia.
    rewrite (Hb old i), (Hb (value mod 2 ^ n) i) by done. by destruct (i <? n).
  - apply Z.bits_inj'. intros i Hi. rewrite Z.testbit_mod_pow2, !Z.lor_spec by lia.
    rewrite (Hb old i), (Hb (value mod 2 ^ n) i) by done. by destruct (i <? n).
  - apply Z.bits_inj'. intros i Hi. rewrite Z.testbit_mod_pow2, !Z.lxor_spec by lia.
    rewrite (Hb old i), (Hb (value mod 2 ^ n) i) by done. by destruct (i <? n).
Qed.

Lemma atomic_effect w inst k loc m address offset desc value expected replacement st w' old t :
  store_wf w -> 0 <= k -> memory_locate w inst k = inr (loc, m) ->
  is_uint 64 address -> is_uint 64 offset -> atomic_known desc ->
  turbowasm_instance_memory_atomic true w inst k address offset desc value expected replacement =
    (st, w', old, t) ->
  if decide ((address + offset) mod atomic_width desc = 0) then
    if decide (address + offset + atomic_width desc <= memory_size m) then
      st = TURBOWASM_OK /\ t = TRAP_NONE /\
      old = le_read (Z.to_nat (atomic_width desc)) (slice (data m) (address + offset) (atomic_width desc)) /\
      match spec_atomic desc old value expected replacement with
      | None => w' = w
      | Some v => changes w w' loc m (address + offset) (le_bytes (Z.to_nat (atomic_width desc)) v)
      end
    else st = TURBOWASM_TRAPPED /\ t = TRAP_MEMORY_OUT_OF_BOUNDS /\ w' = w
  else st = TURBOWASM_TRAPPED /\ t = TRAP_UNALIGNED_ATOMIC /\ w' = w.
Proof.
  intros Hw Hk Hloc Ha Ho Hkn. pose proof Hkn as [Hwd Hop].
  destruct (memory_locate_spec _ _ _ _ _ Hloc Hk Hw) as (_ & Hm & Hmw).
  unfold turbowasm_instance_memory_atomic. rewrite Hloc, wrap_mod_width by done.
  set (n := atomic_width desc) in *.
  assert (Hok : negb ((n =? 1) || (n =? 2) || (n =? 4) || (n =? 8)) = false)
    by (destruct Hwd as [-> | [-> | [-> | ->]]]; done).
  rewrite Hok. assert (Hn : 1 <= n <= 8) by (destruct Hwd as [-> | [-> | [-> | ->]]]; lia).
  destruct (Z.eqb_spec ((address + offset) mod n) 0) as [Hal|Hal];
    [rewrite decide_True by done|rewrite decide_False by done; intros [= <- <- <- <-]; done].
  cbn [negb]. rewrite storage_range_spec by (done || unfold SIZE_MAX, UINT64_MAX; lia).
  case_decide as Hin; [|intros [= <- <- <- <-]; done].
  rewrite atomic_load_le, atomic_mask by done.
  set (o := le_read (Z.to_nat n) (slice (data m) (address + offset) n)).
  assert (Hou : is_uint (8 * n) o).
  { replace (8 * n) with (8 * Z.of_nat (Z.to_nat n)) by lia. apply le_read_range, slice_bytes_ok, Hmw. }
  assert (Homask : o .& Z.ones (8 * n) = o) by (rewrite Z.land_ones by lia; by apply Z.mod_small).
  assert (Hch : forall v, changes w
     (memory_put w loc (with_data m (turbowasm_atomic_store_le (data m) (address + offset) n v))) loc m
     (address + offset) (le_bytes (Z.to_nat n) v)).
  { intros v. destruct Ha, Ho. split_and!; try done; rewrite ?le_bytes_length; try lia. apply le_bytes_ok. }
  rewrite Homask. destruct (atomic_kind desc) eqn:Hkind.
  - intros [= <- <- <- <-]. unfold spec_atomic. rewrite Hkind. done.
  - intros [= <- <- <- <-]. unfold spec_atomic. rewrite Hkind. rewrite Z.land_ones by lia. auto.
  - destruct (atomic_new_value desc o value Hkn Hkind Hou) as (v & Hr & Hs). fold n in Hr, Hs.
    rewrite Hr. intros [= <- <- <- <-].
    assert (spec_atomic desc o value expected replacement = spec_atomic desc o value 0 0) as ->
      by (unfold spec_atomic; by rewrite Hkind). rewrite Hs. auto.
  - unfold spec_atomic. rewrite Hkind. fold n. rewrite !Z.land_ones by lia.
    destruct (Z.eqb_spec o (expected mod 2 ^ (8 * n))); intros [= <- <- <- <-];
      [rewrite decide_True by done|rewrite decide_False by done]; auto.
Qed.

(** ** Properties *)

(** Following the import links of a memory terminates within as many steps
    as there are instances, and ends in a well-formed memory of the instance
    that declares it. *)
Theorem resolve_terminates w inst k n :
  store_wf w -> (inst < length w)%nat -> 0 <= k ->
  memory_resolve_fuel (length w + n) w inst k = turbowasm_instance_memory_resolve w inst k /\
  (forall loc, turbowasm_instance_memory_resolve w inst k = Some loc ->
     exists i vm m, w !! loc.1 = Some i /\ validation_memories i !! loc.2 = Some vm /\
       v_imported vm = false /\ memory_at w loc = Some m /\ memory_wf m).
Proof.
  intros Hw Hi Hk. split; [by apply resolve_enough|]. intros loc Hr.
  destruct (resolve_fuel_own _ _ _ _ _ Hr Hk Hw) as (i & m & vm & Hin & Hm & Hv & Himp).
  exists i, vm, m. split_and!; try done; [unfold memory_at; by rewrite Hin|].
  by eapply (iw_own _ _ (Hw _ _ Hin)).
Qed.

(** C29. A memory access of [width] bytes at [address + offset] is granted exactly
    when the mathematical sum lies within the memory, however the 64-bit
    arithmetic wraps; otherwise it traps, and the raw-pointer and the copying
    access agree. *)
Theorem bounds_are_exact w inst k loc m address offset width :
  store_wf w -> 0 <= k -> memory_locate w inst k = inr (loc, m) ->
  is_uint 64 address -> is_uint 64 offset -> 0 <= width <= SIZE_MAX ->
  turbowasm_instance_memory_storage_range m address offset width =
    (if decide (address + offset + width <= memory_size m) then (TURBOWASM_OK, address + offset)
     else (TURBOWASM_TRAPPED, 0)) /\
  (shared m = false ->
   turbowasm_instance_memory_bounds w inst k address offset width =
   turbowasm_instance_memory_storage_range m address offset width) /\
  turbowasm_instance_memory_read_bytes w inst k address offset width =
    (if decide (address + offset + width <= memory_size m)
     then (TURBOWASM_OK, slice (data m) (address + offset) width) else (TURBOWASM_TRAPPED, [])).
Proof.
  intros Hw Hk Hloc Ha Ho Hwd. destruct (memory_locate_spec _ _ _ _ _ Hloc Hk Hw) as (_ & _ & Hmw).
  split_and!.
  - by apply storage_range_spec.
  - intros Hsh. by eapply bounds_spec.
  - unfold turbowasm_instance_memory_read_bytes. rewrite Hloc, storage_range_spec by done. by case_decide.
Qed.

(** What a load of [opcode] returns after a store of [v] to the same place. *)
Definition reload (opcode : Z) (v : turbowasm_value) : turbowasm_value :=
  switch opcode
    [(0x2c, VI32 (s8 (u8 (as_i32 v)))); (0x2d, VI32 (u8 (as_i32 v)));
     (0x2e, VI32 (s16 (u16 (as_i32 v)))); (0x2f, VI32 (u16 (as_i32 v)));
     (0x30, VI64 (s8 (u8 (as_i64 v)))); (0x31, VI64 (u8 (as_i64 v)));
     (0x32, VI64 (s16 (u16 (as_i64 v)))); (0x33, VI64 (u16 (as_i64 v)));
     (0x34, VI64 (s32 (u32 (as_i64 v)))); (0x35, VI64 (u32 (as_i64 v)))] v.

(** Stores with the loads of the same width and type. *)
Definition store_load_pairs : list (Z * Z) :=
  [(0x36, 0x28); (0x37, 0x29); (0x38, 0x2a); (0x39, 0x2b); (0x3a, 0x2c); (0x3a, 0x2d);
   (0x3b, 0x2e); (0x3b, 0x2f); (0x3c, 0x30); (0x3c, 0x31); (0x3d, 0x32); (0x3d, 0x33);
   (0x3e, 0x34); (0x3e, 0x35)].

Lemma reload_spec so lo kind width v :
  In (so, lo) store_load_pairs -> store_shape so = Some (kind, width) -> value_kind v = kind ->
  value_wf v ->
  load_width lo = Some width /\
  load_convert lo (le_bytes (Z.to_nat width) (store_raw v)) = Some (reload lo v).
Proof.
  assert (R1 : forall z, byte (le_bytes 1 z) 0 = u8 z)
    by (intros z; unfold byte, le_bytes; simpl; by rewrite Z.shiftr_0_r).
  assert (R2 : forall z, turbowasm_read_u16_le (le_bytes 2 z) = u16 z)
    by (intros z; rewrite read_u16_le by apply le_bytes_ok; apply (le_roundtrip 2)).
  assert (R4 : forall z, turbowasm_read_u32_le_bytes (le_bytes 4 z) = u32 z)
    by (intros z; rewrite read_u32_le by apply le_bytes_ok; apply (le_roundtrip 4)).
  assert (R8 : forall z, turbowasm_read_u64_le_bytes (le_bytes 8 z) = u64 z)
    by (intros z; rewrite read_u64_le by apply le_bytes_ok; apply (le_roundtrip 8)).
  intros Hin Hs Hk Hv. unfold store_load_pairs in Hin. simpl in Hin.
  repeat (destruct Hin as [[= <- <-]|Hin]; [
    vm_compute in Hs; injection Hs as <- <-; split; [reflexivity|]; destruct v; try discriminate Hk;
    unfold load_convert, reload; cbn [switch Z.eqb Pos.eqb store_raw as_i32 as_i64];
    change (Z.to_nat 8) with 8%nat; change (Z.to_nat 4) with 4%nat; change (Z.to_nat 2) with 2%nat;
    change (Z.to_nat 1) with 1%nat; rewrite ?R1, ?R2, ?R4, ?R8; simpl in Hv;
    rewrite ?to_signed_wrap, ?wrap_id by (done || lia); reflexivity|]). done.
Qed.

(** C28. Storing a value and loading it back from the same address returns it,
    cut to the width of the access and sign- or zero-extended as the load says;
    bytes outside the access and all other memories keep their contents; a store
    out of bounds traps and writes nothing. *)
Theorem store_load_roundtrip w inst k loc m address offset so lo kind width v st w' t :
  store_wf w -> 0 <= k -> memory_locate w inst k = inr (loc, m) ->
  is_uint 64 address -> is_uint 64 offset ->
  In (so, lo) store_load_pairs -> store_shape so = Some (kind, width) ->
  value_kind v = kind -> value_wf v ->
  turbowasm_instance_memory_store_value w inst k address offset so v = (st, w', t) ->
  if decide (address + offset + width <= memory_size m) then
    st = TURBOWASM_OK /\
    turbowasm_instance_memory_load_value w' inst k address offset lo = (TURBOWASM_OK, inl (reload lo v)) /\
    (forall loc', loc' <> loc -> memory_at w' loc' = memory_at w loc') /\
    (forall m', memory_at w' loc = Some m' -> forall p n, 0 <= p -> 0 <= n -> p + n <= memory_size m ->
       p + n <= address + offset \/ address + offset + width <= p ->
       slice (data m') p n = slice (data m) p n)
  else st = TURBOWASM_TRAPPED /\ t = Some TRAP_MEMORY_OUT_OF_BOUNDS /\ w' = w.
Proof.
  intros Hw Hk Hloc Ha Ho Hin Hs Hv Hvw Hst.
  destruct (reload_spec _ _ _ _ _ Hin Hs Hv Hvw) as [Hlw Hlc].
  pose proof (store_value_effect _ _ _ _ _ _ _ _ _ _ _ _ _ _ Hw Hk Hloc Ha Ho Hs Hv Hst) as He.
  case_decide as Hb; [|done]. destruct He as (-> & -> & Hch).
  pose proof (changes_wf _ _ _ _ _ _ Hw Hch) as Hw'. destruct Hch as (Hm & Hmw & Hp & Hle & Hbs & ->).
  pose proof (load_width_range _ _ Hlw) as Hwd. rewrite le_bytes_length in Hle.
  pose proof (mw_length _ Hmw) as Hlen. split_and!; [done| | |].
  - assert (Hloc' : memory_locate (memory_put w loc (with_data m (splice (data m) (address + offset)
        (le_bytes (Z.to_nat width) (store_raw v))))) inst k =
        inr (loc, with_data m (splice (data m) (address + offset) (le_bytes (Z.to_nat width) (store_raw v)))))
      by (erewrite put_locate by done; by rewrite decide_True).
    rewrite (load_spec _ _ _ _ _ _ _ _ _ Hw' Hk Hloc' Ha Ho Hlw).
    rewrite decide_True by done. cbn [data with_data].
    pose proof (slice_splice_same (data m) (address + offset) (le_bytes (Z.to_nat width) (store_raw v)))
      as Hsl. rewrite le_bytes_length, Z2Nat.id in Hsl by lia. rewrite Hsl by lia. by rewrite Hlc.
  - intros loc' Hne. rewrite (put_at _ _ _ _ _ Hm). by rewrite decide_False.
  - intros m' Hm' p n Hp0 Hn Hpn Hdis. rewrite (put_at _ _ _ _ _ Hm), decide_True in Hm' by done.
    injection Hm' as <-. apply slice_splice_disjoint; rewrite ?le_bytes_length; lia.
Qed.

(** A copy behaves as if the source were read in full before anything is
    written, also when the ranges overlap or the two indices are two imports of
    one memory; either range out of bounds traps and writes nothing. *)
Theorem copy_is_memmove w inst kd ks dl dm sl sm dst src len st w' :
  store_wf w -> 0 <= kd -> 0 <= ks -> is_uint 64 dst -> is_uint 64 src -> 0 <= len <= SIZE_MAX ->
  memory_locate w inst kd = inr (dl, dm) -> memory_locate w inst ks = inr (sl, sm) ->
  turbowasm_instance_memory_copy_bytes w inst kd ks dst src len = (st, w') ->
  if decide (dst + len <= memory_size dm /\ src + len <= memory_size sm) then
    st = TURBOWASM_OK /\
    (forall loc, loc <> dl -> memory_at w' loc = memory_at w loc) /\
    exists dm', memory_at w' dl = Some dm' /\ forall j,
      data dm' !! j =
        if decide (dst <= Z.of_nat j < dst + len)
        then data sm !! Z.to_nat (src + (Z.of_nat j - dst)) else data dm !! j
  else st = TURBOWASM_TRAPPED /\ w' = w.
Proof.
  intros Hw Hkd Hks Hd Hs Hl Hdl Hsl Hcp.
  destruct (memory_locate_spec _ _ _ _ _ Hsl Hks Hw) as (_ & _ & Hmws).
  destruct (memory_locate_spec _ _ _ _ _ Hdl Hkd Hw) as (_ & _ & Hmwd).
  pose proof (mw_length _ Hmws) as Hls. pose proof (mw_length _ Hmwd) as Hld. case_decide as Hb.
  - pose proof (copy_effect _ _ _ _ _ _ _ _ _ Hw Hkd Hks Hd Hs Hl Hcp) as [[Hf _]|(-> & He)].
    { revert Hf Hcp. unfold turbowasm_instance_memory_copy_bytes. rewrite Hdl, Hsl.
      rewrite !storage_range_spec, !decide_True by (done || lia || (split; simpl; lia)). intros ? [= <- <-]. done. }
    destruct He as (dl' & dm' & sl' & sm' & Ed & Es & _ & Hm & _ & _ & Hle & _ & ->).
    rewrite Hdl in Ed. rewrite Hsl in Es. simplify_eq. destruct Hd as [Hd0 _], Hs as [Hs0 _].
    assert (Hll : length (slice (data sm') src len) = Z.to_nat len) by (rewrite slice_length; lia).
    split; [done|]. split; [intros loc Hne; by rewrite (put_at _ _ _ _ _ Hm), decide_False|].
    eexists. split; [by rewrite (put_at _ _ _ _ _ Hm), decide_True|]. intros j. cbn [data with_data].
    rewrite splice_lookup by lia. rewrite Hll. case_decide; case_decide; try lia; [|done].
    rewrite slice_lookup by lia. f_equal. lia.
  - revert Hcp. unfold turbowasm_instance_memory_copy_bytes. rewrite Hdl, Hsl.
    rewrite !storage_range_spec by (done || split; simpl; lia).
    case_decide; [case_decide; [lia|]|]; by intros [= <- <-].
Qed.

(** Two instances whose imports resolve to one memory see each other's
    writes: what one writes is what the other reads at the same address, without
    any other memory being touched. *)
Theorem imports_alias w i1 k1 i2 k2 loc m1 m2 address offset src w' :
  store_wf w -> 0 <= k1 -> 0 <= k2 -> is_uint 64 address -> is_uint 64 offset ->
  Z.of_nat (length src) <= SIZE_MAX -> bytes_ok src ->
  memory_locate w i1 k1 = inr (loc, m1) -> memory_locate w i2 k2 = inr (loc, m2) ->
  turbowasm_instance_memory_write_bytes w i1 k1 address offset src = (TURBOWASM_OK, w') ->
  turbowasm_instance_memory_read_bytes w' i2 k2 address offset (Z.of_nat (length src)) =
    (TURBOWASM_OK, src) /\
  (forall loc', loc' <> loc -> memory_at w' loc' = memory_at w loc').
Proof.
  intros Hw Hk1 Hk2 Ha Ho Hl Hbs H1 H2 Hwr.
  destruct (write_effect _ _ _ _ _ _ _ _ Hw Hk1 Ha Ho Hl Hbs Hwr) as [[? _]|(_ & loc' & m' & E & Hch)]; [done|].
  rewrite H1 in E. injection E as <- <-. pose proof (changes_wf _ _ _ _ _ _ Hw Hch) as Hw'.
  destruct Hch as (Hm & Hmw & Hp & Hle & _ & ->). pose proof (mw_length _ Hmw).
  assert (Hloc' := put_locate w loc m1 (with_data m1 (splice (data m1) (address + offset) src)) i2 k2 loc m2 Hm H2).
  rewrite decide_True in Hloc' by done. split.
  - unfold turbowasm_instance_memory_read_bytes. rewrite Hloc'.
    destruct (memory_locate_spec _ _ _ _ _ Hloc' Hk2 Hw') as (_ & _ & Hmw').
    rewrite storage_range_spec by (done || lia). rewrite decide_True by done.
    cbn [data with_data]. rewrite slice_splice_same by lia. done.
  - intros l Hne. by rewrite (put_at _ _ _ _ _ Hm), decide_False.
Qed.

(** Growing a memory either is refused, with the failure value and nothing
    changed, or adds exactly the requested pages as zero bytes after the old
    contents, within the declared maximum and the resource limit, and returns
    the old size. *)
Theorem grow_is_exact realloc_ok w inst k loc m delta st w' previous :
  store_wf w -> 0 <= k -> memory_locate w inst k = inr (loc, m) -> is_uint 64 delta ->
  turbowasm_instance_memory_grow64 realloc_ok w inst k delta = (st, w', previous) ->
  st = TURBOWASM_OK /\
  ((previous = UINT64_MAX /\ w' = w) \/
   (previous = pages m /\ exists m', memory_at w' loc = Some m' /\ memory_wf m' /\
      pages m' = pages m + delta /\
      data m' = data m ++ replicate (Z.to_nat (delta * page_size m)) 0 /\
      (has_maximum m = true -> pages m' <= maximum_pages m) /\
      (resource_max_bytes m <> 0 -> memory_size m' <= resource_max_bytes m) /\
      forall loc', loc' <> loc -> memory_at w' loc' = memory_at w loc')).
Proof.
  intros Hw Hk Hloc Hd. destruct (memory_locate_spec _ _ _ _ _ Hloc Hk Hw) as (_ & Hm & Hmw).
  unfold turbowasm_instance_memory_grow64. rewrite Hloc.
  destruct (memory_grow realloc_ok m delta) as [m'|] eqn:Hg; intros [= <- <- <-]; [|auto].
  split; [done|right]. split; [done|]. exists m'.
  destruct (grow_effect _ _ _ _ Hmw Hd Hg) as (H1 & H2 & H3 & _ & _ & _ & _ & _ & _ & H4 & H5).
  split_and!; try done; [by rewrite (put_at _ _ _ _ _ Hm), decide_True|].
  intros loc' Hne. by rewrite (put_at _ _ _ _ _ Hm), decide_False.
Qed.

(** An atomic access of an aligned cell in bounds returns the number the
    cell held and replaces it by the result of the operation modulo the cell's
    range (a compare-exchange only when the comparison holds), changing nothing
    else; a misaligned access and one out of bounds trap, in this order, and
    change nothing. *)
Theorem atomic_access_exact w inst k loc m address offset desc value expected replacement st w' old t :
  store_wf w -> 0 <= k -> memory_locate w inst k = inr (loc, m) ->
  is_uint 64 address -> is_uint 64 offset -> atomic_known desc ->
  turbowasm_instance_memory_atomic true w inst k address offset desc value expected replacement =
    (st, w', old, t) ->
  if decide ((address + offset) mod atomic_width desc = 0) then
    if decide (address + offset + atomic_width desc <= memory_size m) then
      st = TURBOWASM_OK /\ t = TRAP_NONE /\
      old = le_read (Z.to_nat (atomic_width desc)) (slice (data m) (address + offset) (atomic_width desc)) /\
      match spec_atomic desc old value expected replacement with
      | None => w' = w
      | Some v => changes w w' loc m (address + offset) (le_bytes (Z.to_nat (atomic_width desc)) v)
      end
    else st = TURBOWASM_TRAPPED /\ t = TRAP_MEMORY_OUT_OF_BOUNDS /\ w' = w
  else st = TURBOWASM_TRAPPED /\ t = TRAP_UNALIGNED_ATOMIC /\ w' = w.
Proof. apply atomic_effect. Qed.

(** *** Runs of operations *)

Inductive mem_op :=
| OpWrite (inst : nat) (k address offset : Z) (src : list Z)
| OpFill (inst : nat) (k dst value len : Z)
| OpCopy (inst : nat) (kd ks dst src len : Z)
| OpGrow (inst : nat) (k delta : Z)
| OpStore (inst : nat) (k address offset opcode : Z) (value : turbowasm_value)
| OpAtomic (sc_lock : bool) (inst : nat) (k address offset : Z) (desc : turbowasm_atomic_descriptor)
    (value expected replacement : Z)
| OpInit (inst : nat) (data_index k dst src len : Z)
| OpDrop (inst : nat) (data_index : Z).

(** The ranges of the C types of the arguments. *)
Definition mem_op_ok (o : mem_op) : Prop :=
  match o with
  | OpWrite _ k a off src => is_uint 32 k /\ is_uint 64 a /\ is_uint 64 off /\
      Z.of_nat (length src) <= SIZE_MAX /\ bytes_ok src
  | OpFill _ k dst v len => is_uint 32 k /\ is_uint 64 dst /\ is_uint 8 v /\ is_uint 64 len
  | OpCopy _ kd ks dst src len => is_uint 32 kd /\ is_uint 32 ks /\ is_uint 64 dst /\ is_uint 64 src /\
      is_uint 64 len
  | OpGrow _ k delta => is_uint 32 k /\ is_uint 64 delta
  | OpStore _ k a off _ v => is_uint 32 k /\ is_uint 64 a /\ is_uint 64 off
  | OpAtomic _ _ k a off _ _ _ _ => is_uint 32 k /\ is_uint 64 a /\ is_uint 64 off
  | OpInit _ d k dst src len => is_uint 32 d /\ is_uint 32 k /\ is_uint 64 dst /\ is_uint 64 src /\
      is_uint 64 len
  | OpDrop _ d => is_uint 32 d
  end.

Definition mem_step (realloc_ok : Z -> bool) (w : store) (o : mem_op) : store :=
  match o with
  | OpWrite i k a off src => (turbowasm_instance_memory_write_bytes w i k a off src).2
  | OpFill i k dst v len => (turbowasm_instance_memory_fill_bytes w i k dst v len).2
  | OpCopy i kd ks dst src len => (turbowasm_instance_memory_copy_bytes w i kd ks dst src len).2
  | OpGrow i k delta => (turbowasm_instance_memory_grow64 realloc_ok w i k delta).1.2
  | OpStore i k a off op v => (turbowasm_instance_memory_store_value w i k a off op v).1.2
  | OpAtomic l i k a off desc v e r => (turbowasm_instance_memory_atomic l w i k a off desc v e r).1.1.2
  | OpInit i d k dst src len => (turbowasm_instance_memory_init w i d k dst src len).2
  | OpDrop i d => (turbowasm_instance_data_drop w i d).2
  end.

Lemma store_op_wf w i k a off op v :
  store_wf w -> is_uint 32 k -> is_uint 64 a -> is_uint 64 off ->
  store_wf (turbowasm_instance_memory_store_value w i k a off op v).1.2.
Proof.
  intros Hw [Hk _] Ha Ho. destruct (store_shape op) as [[kind width]|] eqn:Hs.
  2: { unfold turbowasm_instance_memory_store_value. by rewrite Hs. }
  destruct (decide (value_kind v = kind)) as [Hv|Hv].
  2: { unfold turbowasm_instance_memory_store_value. by rewrite Hs, bool_decide_eq_false_2. }
  destruct (memory_locate w i k) as [st0|[loc m]] eqn:Hloc.
  { unfold turbowasm_instance_memory_store_value, turbowasm_instance_memory_shared.
    rewrite Hs, bool_decide_eq_true_2, Hloc by done. simpl.
    apply memory_locate_status in Hloc. by destruct st0. }
  destruct (turbowasm_instance_memory_store_value w i k a off op v) as [[st w'] t] eqn:Hst.
  pose proof (store_value_effect _ _ _ _ _ _ _ _ _ _ _ _ _ _ Hw Hk Hloc Ha Ho Hs Hv Hst) as He.
  case_decide; [|by destruct He as (_ & _ & ->)]. destruct He as (_ & _ & Hch). by eapply changes_wf.
Qed.

Lemma atomic_op_wf l w i k a off desc v e r :
  store_wf w -> is_uint 32 k -> is_uint 64 a -> is_uint 64 off ->
  store_wf (turbowasm_instance_memory_atomic l w i k a off desc v e r).1.1.2.
Proof.
  intros Hw [Hk _] Ha Ho.
  destruct (decide (atomic_width_ok (atomic_width desc))) as [Hwd|Hwd].
  2: { unfold turbowasm_instance_memory_atomic.
       destruct (negb _) eqn:E; [done|]. destruct Hwd. unfold atomic_width_ok.
       rewrite negb_false_iff, !orb_true_iff, !Z.eqb_eq in E. tauto. }
  destruct (memory_locate w i k) as [st0|[loc m]] eqn:Hloc.
  { unfold turbowasm_instance_memory_atomic. rewrite Hloc. by destruct (negb _). }
  destruct l; [|unfold turbowasm_instance_memory_atomic; rewrite Hloc; by repeat case_match].
  destruct (decide (atomic_kind desc = ATOMIC_RMW /\ atomic_op desc = ATOMIC_OP_NONE)) as [[E1 E2]|Hn].
  { unfold turbowasm_instance_memory_atomic. rewrite Hloc, E1, E2. by repeat case_match. }
  destruct (turbowasm_instance_memory_atomic true w i k a off desc v e r) as [[[st w'] old] t] eqn:Hat.
  pose proof (atomic_effect _ _ _ _ _ _ _ _ _ _ _ _ _ _ _ Hw Hk Hloc Ha Ho (conj Hwd Hn) Hat) as He.
  simpl. case_decide; [|by destruct He as (_ & _ & ->)]. case_decide; [|by destruct He as (_ & _ & ->)].
  destruct He as (_ & _ & _ & He). destruct (spec_atomic _ _ _ _ _); [by eapply changes_wf|by subst].
Qed.

Lemma init_op_wf w i d k dst src len :
  store_wf w -> is_uint 32 k -> is_uint 64 dst -> is_uint 64 src -> is_uint 64 len ->
  store_wf (turbowasm_instance_memory_init w i d k dst src len).2.
Proof.
  intros Hw [Hk _] Hd [Hs _] [Hl _]. unfold turbowasm_instance_memory_init.
  destruct (w !! i) as [inst|] eqn:Hi; [|done]. destruct (data_segment_dropped inst !! _); [|done].
  destruct (data_segments inst !! _) as [seg|] eqn:Hseg; [|done]. destruct (negb _); [done|].
  pose proof (iw_segments _ _ (Hw _ _ Hi)) as Hf. rewrite Forall_lookup in Hf.
  destruct (Hf _ _ Hseg) as [Hb Hle].
  destruct (turbowasm_instance_memory_write_bytes _ _ _ _ _ _) as [st w'] eqn:Hwr.
  apply write_effect in Hwr as [[_ ->]|(_ & loc & m & _ & Hch)]; simpl; try done;
    first [by eapply changes_wf | by apply slice_bytes_ok | split; simpl; lia |
           unfold slice; rewrite length_take, length_drop; lia].
Qed.

Lemma mem_step_wf realloc_ok w o : store_wf w -> mem_op_ok o -> store_wf (mem_step realloc_ok w o).
Proof.
  intros Hw Hok. destruct o; simpl in *.
  - destruct Hok as ([Hk _] & Ha & Ho & Hl & Hb).
    destruct (turbowasm_instance_memory_write_bytes _ _ _ _ _ _) as [st w'] eqn:Hwr.
    apply write_effect in Hwr as [[_ ->]|(_ & loc & m & _ & Hch)]; simpl; try done. by eapply changes_wf.
  - destruct Hok as ([Hk _] & Ha & Hv & Hl).
    destruct (turbowasm_instance_memory_fill_bytes _ _ _ _ _ _) as [st w'] eqn:Hwr.
    apply fill_effect in Hwr as [[_ ->]|(_ & loc & m & _ & Hch)]; simpl; try done;
      first [by eapply changes_wf | destruct Hl; unfold SIZE_MAX, UINT64_MAX; lia].
  - destruct Hok as ([Hk _] & [Hk2 _] & Ha & Hv & Hl).
    destruct (turbowasm_instance_memory_copy_bytes _ _ _ _ _ _ _) as [st w'] eqn:Hwr.
    apply copy_effect in Hwr as [[_ ->]|(_ & dl & dm & sl & sm & _ & _ & _ & Hch)]; simpl; try done;
      first [by eapply changes_wf | destruct Hl; unfold SIZE_MAX, UINT64_MAX; lia].
  - destruct Hok as ([Hk _] & Hd). unfold turbowasm_instance_memory_grow64.
    destruct (memory_locate w inst k) as [?|[loc m]] eqn:Hloc; [done|].
    destruct (memory_locate_spec _ _ _ _ _ Hloc Hk Hw) as (_ & Hm & Hmw).
    destruct (memory_grow realloc_ok m delta) as [m'|] eqn:Hg; [|done]. simpl.
    eapply put_wf; [done..|]. by eapply grow_effect.
  - destruct Hok as (? & ? & ?). by apply store_op_wf.
  - destruct Hok as (? & ? & ?). by apply atomic_op_wf.
  - destruct Hok as (? & ? & ? & ? & ?). by apply init_op_wf.
  - unfold turbowasm_instance_data_drop. destruct (w !! inst) as [i|] eqn:Hi; [|done].
    destruct (_ >=? _); [done|]. simpl. intros j i' Hj. destruct (Hw _ _ Hi) as [Hown Hlk Hseg].
    destruct (decide (inst = j)) as [->|Hne].
    + rewrite list_lookup_insert_eq in Hj by (by eapply lookup_lt_Some). injection Hj as <-. by split.
    + rewrite list_lookup_insert_ne in Hj by done. by apply Hw.
Qed.

(** C27. Whatever sequence of stores, fills, copies, growths, atomic accesses and
    segment operations the instances of a store perform, with any allocator, every
    memory keeps its size and contents consistent (the buffer is exactly
    [pages * page_size] bytes within the page limit, and its cells are bytes). *)
Theorem memory_invariant realloc_ok w ops :
  store_wf w -> Forall mem_op_ok ops -> store_wf (fold_left (mem_step realloc_ok) ops w).
Proof.
  intros Hw Hops. revert w Hw. induction Hops as [|o ops Ho _ IH]; intros w Hw; [done|].
  apply IH. by apply mem_step_wf.
Qed.

(** ** Witnesses *)

(** Instance 0 owns a memory of one 16-byte page; instance 1 imports it twice. *)
Definition sample_memory : turbowasm_instance_memory :=
  mk_memory (List.map Z.of_nat (seq 1 16)) 1 4 16 0 true false false true.

Definition sample_store : store :=
  [mk_instance [sample_memory] [mk_vmemory false false] [None] [[7; 8; 9]] [false];
   mk_instance [sample_memory; sample_memory] [mk_vmemory true false; mk_vmemory true false]
     [Some (0%nat, 0); Some (0%nat, 0)] [] []].

Lemma sample_memory_wf : memory_wf sample_memory.
Proof.
  split; try reflexivity; try (simpl; lia); [split; vm_compute; discriminate|vm_compute; discriminate|].
  unfold bytes_ok. simpl. repeat constructor; simpl; lia.
Qed.

Lemma sample_store_wf : store_wf sample_store.
Proof.
  intros inst i Hi. destruct inst as [|[|]]; [| |done]; injection Hi as <-; split.
  - intros [|] m vm Hm Hv; [|done]. injection Hm as <-. intros _. apply sample_memory_wf.
  - intros [|] p j Hl; [|done]. discriminate.
  - repeat constructor; simpl; unfold SIZE_MAX, UINT64_MAX; lia.
  - intros [|[|]] m vm Hm Hv; try done; injection Hv as <-; done.
  - intros [|[|]] p j Hl; try done; injection Hl as <- <-; lia.
  - constructor.
Qed.

Lemma resolve_terminates_witness :
  memory_resolve_fuel (length sample_store + 5) sample_store 1 1 = Some (0%nat, 0%nat).
Proof.
  rewrite (proj1 (resolve_terminates sample_store 1 1 5 sample_store_wf ltac:(simpl; lia) ltac:(lia))).
  reflexivity.
Defined.

Lemma bounds_are_exact_witness :
  turbowasm_instance_memory_storage_range sample_memory UINT64_MAX 1 4 = (TURBOWASM_TRAPPED, 0).
Proof.
  destruct (bounds_are_exact sample_store 1 1 (0%nat, 0%nat) sample_memory UINT64_MAX 1 4
    sample_store_wf ltac:(lia) eq_refl ltac:(split; vm_compute; congruence)
    ltac:(split; simpl; lia) ltac:(unfold SIZE_MAX, UINT64_MAX; lia)) as [E _].
  rewrite E. reflexivity.
Defined.

Lemma store_load_roundtrip_witness :
  turbowasm_instance_memory_load_value
    (turbowasm_instance_memory_store_value sample_store 1 0 3 4 0x3b (VI32 0xfffe)).1.2 1 0 3 4 0x2e =
  (TURBOWASM_OK, inl (VI32 (-2))).
Proof.
  refine (proj1 (proj2 (store_load_roundtrip sample_store 1 0 (0%nat, 0%nat) sample_memory 3 4 0x3b 0x2e
    TURBOWASM_VALUE_I32 2 (VI32 0xfffe) TURBOWASM_OK _ None
    sample_store_wf ltac:(lia) eq_refl ltac:(split; simpl; lia) ltac:(split; simpl; lia)
    ltac:(simpl; tauto) eq_refl eq_refl _ eq_refl))).
  split; simpl; lia.
Defined.

Lemma copy_is_memmove_witness :
  exists m, memory_at (turbowasm_instance_memory_copy_bytes sample_store 1 0 1 2 0 6).2 (0%nat, 0%nat) = Some m /\
    data m !! 7%nat = Some 6.
Proof.
  destruct (copy_is_memmove sample_store 1 0 1 (0%nat, 0%nat) sample_memory (0%nat, 0%nat) sample_memory
    2 0 6 _ _ sample_store_wf ltac:(lia) ltac:(lia) ltac:(split; simpl; lia) ltac:(split; simpl; lia)
    ltac:(unfold SIZE_MAX, UINT64_MAX; lia) eq_refl eq_refl eq_refl) as (_ & _ & m & Hm & Hj).
  exists m. split; [exact Hm|]. rewrite Hj. reflexivity.
Defined.

Lemma imports_alias_witness :
  turbowasm_instance_memory_read_bytes
    (turbowasm_instance_memory_write_bytes sample_store 0 0 3 1 [5; 6]).2 1 1 3 1 2 = (TURBOWASM_OK, [5; 6]).
Proof.
  refine (proj1 (imports_alias sample_store 0 0 1 1 (0%nat, 0%nat) sample_memory sample_memory 3 1 [5; 6] _
    sample_store_wf ltac:(lia) ltac:(lia) ltac:(split; simpl; lia) ltac:(split; simpl; lia)
    ltac:(unfold SIZE_MAX, UINT64_MAX; simpl; lia) _ eq_refl eq_refl eq_refl)).
  repeat constructor; simpl; lia.
Defined.

Lemma grow_is_exact_witness :
  exists previous w', turbowasm_instance_memory_grow64 (fun _ => true) sample_store 1 1 2 = (TURBOWASM_OK, w', previous) /\
    previous = 1 /\ exists m', memory_at w' (0%nat, 0%nat) = Some m' /\ pages m' = 3.
Proof.
  destruct (grow_is_exact (fun _ => true) sample_store 1 1 (0%nat, 0%nat) sample_memory 2 _ _ _
    sample_store_wf ltac:(lia) eq_refl ltac:(split; simpl; lia) eq_refl) as [_ [[Hp _]|(Hp & m' & Hm & _ & Hpg & _)]].
  - vm_compute in Hp. discriminate.
  - eexists _, _. split; [reflexivity|]. split; [exact Hp|]. exists m'. split; [exact Hm|exact Hpg].
Defined.

Lemma atomic_access_exact_witness :
  (turbowasm_instance_memory_atomic true sample_store 1 0 3 1 (mk_atomic 0x21 ATOMIC_RMW ATOMIC_OP_ADD ATOMIC_I32 2 1)
     0xfffb 0 0).1.2 = 0x0605.
Proof.
  refine (proj1 (proj2 (proj2 (atomic_access_exact sample_store 1 0 (0%nat, 0%nat) sample_memory 3 1
    (mk_atomic 0x21 ATOMIC_RMW ATOMIC_OP_ADD ATOMIC_I32 2 1) 0xfffb 0 0 _ _ _ _
    sample_store_wf ltac:(lia) eq_refl ltac:(split; simpl; lia) ltac:(split; simpl; lia) _ eq_refl)))).
  split; [right; left; reflexivity|intros [_ E]; discriminate E].
Defined.

Lemma memory_invariant_witness :
  store_wf (fold_left (mem_step (fun _ => true))
    [OpGrow 1 0 1; OpFill 1 1 16 255 16; OpCopy 1 0 1 3 10 12; OpInit 0 0 0 1 1 2; OpDrop 0 0] sample_store).
Proof.
  apply (memory_invariant (fun _ => true)); [exact sample_store_wf|].
  repeat constructor; simpl; lia.
Defined.

End Memory.
