(* ===== verification/TypeEq.v ===== *)
(** * Equality and subtyping of type definitions
    (src/validate_composite.c, src/validation_context.c)

    The type arrays of all live contexts form one heap; a pointer to a type is
    its position in it. Definitions come in recursion groups: references inside
    a group are compared by their offset, references to earlier groups by
    recursion, so that two definitions are equal exactly when their groups roll
    up to the same closed tree ([canon]). *)

From S2P Require Import Prelude Types.

Module TypeEq.
Import Types.

Abbreviation type_heap := (list turbowasm_validation_func_type).

Definition field_count (t : turbowasm_validation_func_type) : Z := Z.of_nat (length (fields t)).

Fixpoint forallb2 {A B} (f : A -> B -> bool) (l : list A) (k : list B) : bool :=
  match l, k with
  | [], [] => true
  | a :: l', b :: k' => f a b && forallb2 f l' k'
  | _, _ => false
  end.

Section Heap.
Context (H : type_heap).

(** ** Operations *)

Section Group.
Context (type_equal : option nat -> option nat -> bool).

Definition group_reference_equal (left right : option nat) (left_group right_group : nat) : bool :=
  match left, right with
  | Some l, Some r =>
      match H !! l, H !! r with
      | Some lt, Some rt =>
          let left_local := bool_decide (group lt = Some left_group) in
          let right_local := bool_decide (group rt = Some right_group) in
          if left_local || right_local
          then left_local && right_local && (group_offset lt =? group_offset rt)
          else type_equal left right
      | _, _ => false
      end
  | None, None => true
  | _, _ => false
  end.

Definition group_value_equal (lg rg : nat) (left right : turbowasm_validation_value_type) : bool :=
  if negb (carrier left =? carrier right) ||
     negb (bool_decide (is_reference left = is_reference right)) ||
     negb (bool_decide (nullable left = nullable right)) ||
     negb (bool_decide (heap_kind left = heap_kind right)) then false
  else if negb (bool_decide (heap_kind left = HEAP_TYPE_INDEX)) then true
  else group_reference_equal (definition left) (definition right) lg rg.

Definition group_field_equal (lg rg : nat) (a b : turbowasm_validation_field) : bool :=
  (packed_bits a =? packed_bits b) && bool_decide (mutable_value a = mutable_value b) &&
  group_value_equal lg rg (field_type a) (field_type b).

(** The body of the loop over the members of a group. *)
Definition member_equal (lg rg : nat) (a b : turbowasm_validation_func_type) : bool :=
  bool_decide (type_kind a = type_kind b) && bool_decide (final_type a = final_type b) &&
  (param_count a =? param_count b) && (result_count a =? result_count b) &&
  (field_count a =? field_count b) && group_reference_equal (super a) (super b) lg rg &&
  forallb2 (group_value_equal lg rg) (param_semantics a) (param_semantics b) &&
  forallb2 (group_value_equal lg rg) (result_semantics a) (result_semantics b) &&
  forallb2 (group_field_equal lg rg) (fields a) (fields b).

Definition members_equal (lg rg : nat) (count : Z) : bool :=
  forallb (fun i => match H !! (lg + i)%nat, H !! (rg + i)%nat with
                    | Some a, Some b => member_equal lg rg a b
                    | _, _ => false
                    end) (seq 0 (Z.to_nat count)).

End Group.

Fixpoint type_equal_fuel (fuel : nat) (left right : option nat) : bool :=
  match fuel, left, right with
  | S fuel', Some l, Some r =>
      match H !! l, H !! r with
      | Some lt, Some rt =>
          if negb (defined lt) || negb (defined rt) then false
          else if bool_decide (l = r) ||
                  (bool_decide (canonical lt <> None) && bool_decide (canonical lt = canonical rt))
          then true
          else if negb (group_offset lt =? group_offset rt) || negb (group_count lt =? group_count rt)
          then false
          else match group lt, group rt with
               | Some lg, Some rg => members_equal (type_equal_fuel fuel') lg rg (group_count lt)
               | _, _ => false
               end
      | _, _ => false
      end
  | _, _, _ => false
  end.

(** The recursion leaves a group for an earlier one, so the size of the heap
    bounds its depth. *)
Definition turbowasm_validation_defined_type_equal (left right : option nat) : bool :=
  type_equal_fuel (S (length H)) left right.

Fixpoint type_matches_fuel (fuel : nat) (actual expected : option nat) : bool :=
  match fuel, actual with
  | S fuel', Some a =>
      if turbowasm_validation_defined_type_equal actual expected then true
      else match H !! a with
           | Some t => type_matches_fuel fuel' (super t) expected
           | None => false
           end
  | _, _ => false
  end.

Definition turbowasm_validation_defined_type_matches (actual expected : option nat) : bool :=
  type_matches_fuel (S (length H)) actual expected.

Definition turbowasm_validation_value_type_equal (left right : turbowasm_validation_value_type) : bool :=
  if negb (carrier left =? carrier right) ||
     negb (bool_decide (is_reference left = is_reference right)) then false
  else if negb (is_reference left) then true
  else if negb (bool_decide (nullable left = nullable right)) ||
          negb (bool_decide (heap_kind left = heap_kind right)) then false
  else if bool_decide (heap_kind left = HEAP_TYPE_INDEX) then
    match definition left, definition right with
    | Some _, Some _ => turbowasm_validation_defined_type_equal (definition left) (definition right)
    | _, _ => bool_decide (definition left = definition right) && (type_index left =? type_index right)
    end
  else true.

Definition turbowasm_validation_value_type_matches (actual expected : turbowasm_validation_value_type)
    : bool :=
  if negb (is_reference actual) || negb (is_reference expected)
  then turbowasm_validation_value_type_equal actual expected
  else if negb (carrier actual =? carrier expected) then false
  else if nullable actual && negb (nullable expected) then false
  else if bool_decide (heap_kind actual = heap_kind expected) then
    if bool_decide (heap_kind actual = HEAP_TYPE_INDEX) then
      match definition actual, definition expected with
      | Some _, Some _ =>
          turbowasm_validation_defined_type_matches (definition actual) (definition expected)
      | _, _ => bool_decide (definition actual = definition expected) &&
                (type_index actual =? type_index expected)
      end
    else true
  else if bool_decide (heap_kind actual = HEAP_TYPE_INDEX) && bool_decide (heap_kind expected = HEAP_FUNC)
  then true
  else if carrier actual =? 0x6e then
    if bool_decide (heap_kind actual = HEAP_BOTTOM) || bool_decide (heap_kind expected = HEAP_ANY)
    then true
    else
      let kind :=
        match heap_kind actual, definition actual with
        | HEAP_TYPE_INDEX, Some d =>
            match H !! d with
            | Some t => if bool_decide (type_kind t = TYPE_STRUCT) then HEAP_STRUCT else HEAP_ARRAY
            | None => HEAP_TYPE_INDEX
            end
        | k, _ => k
        end in
      bool_decide (kind = heap_kind expected) ||
      (bool_decide (heap_kind expected = HEAP_EQ) &&
       (bool_decide (kind = HEAP_I31) || bool_decide (kind = HEAP_STRUCT) ||
        bool_decide (kind = HEAP_ARRAY)))
  else if bool_decide (heap_kind actual = HEAP_NOFUNC) &&
          (bool_decide (heap_kind expected = HEAP_FUNC) ||
           bool_decide (heap_kind expected = HEAP_TYPE_INDEX)) then true
  else if bool_decide (heap_kind actual = HEAP_NOEXTERN) && bool_decide (heap_kind expected = HEAP_EXTERN)
  then true
  else bool_decide (heap_kind actual = HEAP_NOEXN) && bool_decide (heap_kind expected = HEAP_EXN).

Definition turbowasm_validation_func_type_equal (left right : option nat) : bool :=
  match left, right with
  | Some l, Some r =>
      match H !! l, H !! r with
      | Some lt, Some rt =>
          if negb (defined lt) || negb (defined rt) ||
             negb (param_count lt =? param_count rt) || negb (result_count lt =? result_count rt)
          then false
          else match group lt, group rt with
               | Some _, Some _ =>
                   bool_decide (type_kind lt = TYPE_FUNCTION) && bool_decide (type_kind rt = TYPE_FUNCTION) &&
                   turbowasm_validation_defined_type_equal left right
               | _, _ =>
                   forallb2 turbowasm_validation_value_type_equal (param_semantics lt) (param_semantics rt) &&
                   forallb2 turbowasm_validation_value_type_equal (result_semantics lt) (result_semantics rt)
               end
      | _, _ => false
      end
  | _, _ => false
  end.

(** A field of a subtype against the field of its parent. *)
Definition subtype_field (a b : turbowasm_validation_field) : bool :=
  bool_decide (mutable_value a = mutable_value b) && (packed_bits a =? packed_bits b) &&
  (if mutable_value a then turbowasm_validation_value_type_equal (field_type a) (field_type b)
   else turbowasm_validation_value_type_matches (field_type a) (field_type b)).

Definition subtype_body (t : turbowasm_validation_func_type) : bool :=
  match super t with
  | None => true
  | Some s =>
      match H !! s with
      | None => false
      | Some parent =>
          if final_type parent || negb (bool_decide (type_kind t = type_kind parent)) ||
             negb (param_count t =? param_count parent) || negb (result_count t =? result_count parent) ||
             (field_count t <? field_count parent) then false
          else
            forallb2 turbowasm_validation_value_type_matches (param_semantics parent) (param_semantics t) &&
            forallb2 turbowasm_validation_value_type_matches (result_semantics t) (result_semantics parent) &&
            forallb2 subtype_field (take (length (fields parent)) (fields t)) (fields parent)
      end
  end.

End Heap.
(** ** Rolled-up groups *)

(** A definition as a closed tree: the members of its group and its place among
    them. A reference is nothing, a member of the same group, or another tree. *)
Inductive ctree :=
  | Node (offset : Z) (members : list cdef)
with cdef :=
  | Def (kind : turbowasm_validation_type_kind) (final : bool) (super : cref)
        (params results : list cval) (fields : list (Z * bool * cval))
with cval :=
  | Val (carrier : Z) (is_reference nullable : bool) (kind : turbowasm_validation_heap_kind) (ref : cref)
with cref :=
  | RNone
  | RLocal (offset : Z)
  | RType (t : ctree).

Section Canon.
Context (H : type_heap).

Section Roll.
Context (tree : nat -> ctree).

Definition ref_of (g : nat) (o : option nat) : cref :=
  match o with
  | None => RNone
  | Some d =>
      match H !! d with
      | None => RNone
      | Some t => if decide (group t = Some g) then RLocal (group_offset t) else RType (tree d)
      end
  end.

Definition val_of (g : nat) (v : turbowasm_validation_value_type) : cval :=
  Val (carrier v) (is_reference v) (nullable v) (heap_kind v)
    (if decide (heap_kind v = HEAP_TYPE_INDEX) then ref_of g (definition v) else RNone).

Definition field_of (g : nat) (f : turbowasm_validation_field) : Z * bool * cval :=
  (packed_bits f, mutable_value f, val_of g (field_type f)).

Definition def_of (g : nat) (a : turbowasm_validation_func_type) : cdef :=
  Def (type_kind a) (final_type a) (ref_of g (super a)) (map (val_of g) (param_semantics a))
    (map (val_of g) (result_semantics a)) (map (field_of g) (fields a)).

Definition members_of (g : nat) (count : Z) : list cdef :=
  map (fun i => match H !! (g + i)%nat with
                | Some a => def_of g a
                | None => Def TYPE_FUNCTION false RNone [] [] []
                end) (seq 0 (Z.to_nat count)).

End Roll.

Fixpoint tree_fuel (fuel p : nat) : ctree :=
  match fuel with
  | O => Node 0 []
  | S fuel' =>
      match H !! p with
      | Some t =>
          match group t with
          | Some g => Node (group_offset t) (members_of (tree_fuel fuel') g (group_count t))
          | None => Node 0 []
          end
      | None => Node 0 []
      end
  end.

Definition canon (p : nat) : ctree := tree_fuel (S p) p.

(** *** Well-formed heaps *)

Definition values_of (t : turbowasm_validation_func_type) : list turbowasm_validation_value_type :=
  param_semantics t ++ result_semantics t ++ map field_type (fields t).

(** The value types that are not references: i32, i64, f32, f64 and v128. *)
Definition numeric_carrier (c : Z) : bool :=
  (c =? 0x7f) || (c =? 0x7e) || (c =? 0x7d) || (c =? 0x7c) || (c =? 0x7b).

(** A value type whose index was bound to its definition. *)
Definition heap_carrier (k : turbowasm_validation_heap_kind) : option Z :=
  match k with
  | HEAP_FUNC | HEAP_NOFUNC => Some 0x70
  | HEAP_EXTERN | HEAP_NOEXTERN => Some 0x6f
  | HEAP_EXN | HEAP_NOEXN => Some 0x69
  | HEAP_ANY | HEAP_EQ | HEAP_I31 | HEAP_STRUCT | HEAP_ARRAY | HEAP_BOTTOM => Some 0x6e
  | HEAP_NONE | HEAP_TYPE_INDEX => None
  end.

Definition value_bound (v : turbowasm_validation_value_type) : Prop :=
  if is_reference v then
    if decide (heap_kind v = HEAP_TYPE_INDEX) then
      exists d t, definition v = Some d /\ H !! d = Some t /\
        carrier v = (if decide (type_kind t = TYPE_FUNCTION) then 0x70 else 0x6e)
    else heap_carrier (heap_kind v) = Some (carrier v)
  else heap_kind v = HEAP_NONE /\ numeric_carrier (carrier v) = true.

(** [group_at g n]: the [n] types from [g] on are one recursion group. *)
Definition group_at (g : nat) (n : Z) : Prop :=
  forall i, 0 <= i < n -> exists u, H !! (g + Z.to_nat i)%nat = Some u /\
    group u = Some g /\ group_offset u = i /\ group_count u = n.

Record type_wf (p : nat) (t : turbowasm_validation_func_type) : Prop := {
  tw_defined : defined t = true;
  tw_params : params t = map carrier (param_semantics t);
  tw_results : results t = map carrier (result_semantics t);
  tw_group : exists g, group t = Some g /\ 0 <= group_offset t < group_count t /\
    p = (g + Z.to_nat (group_offset t))%nat /\ group_at g (group_count t) /\
    forall v d, v ∈ values_of t -> definition v = Some d -> (d < g + Z.to_nat (group_count t))%nat;
  tw_values : forall v, v ∈ values_of t -> value_bound v;
  tw_super : forall s, super t = Some s -> (s < p)%nat
}.

Record heap_wf : Prop := {
  hw_types : forall p t, H !! p = Some t -> type_wf p t;
  hw_canonical : forall p t c, H !! p = Some t -> canonical t = Some c ->
    is_Some (H !! c) /\ canon c = canon p
}.

Definition bodies_ok : Prop := forall p t, H !! p = Some t -> subtype_body H t = true.

(** *** Canonical trees *)

Context (Hwf : heap_wf).

(** What a member of a group refers to: a type in the group, or one before it. *)
Definition refers (g : nat) (n : Z) (o : option nat) : Prop :=
  forall d, o = Some d -> exists t, H !! d = Some t /\
    ((group t = Some g /\ 0 <= group_offset t < n) \/ (group t <> Some g /\ (d < g)%nat)).

Lemma refers_below p t g d :
  H !! p = Some t -> group t = Some g -> (d < g + Z.to_nat (group_count t))%nat ->
  refers g (group_count t) (Some d).
Proof.
  intros Hp Hg Hd d' [= <-]. destruct (tw_group _ _ (hw_types Hwf _ _ Hp)) as (g' & Eg & Ho & -> & Hat & _).
  rewrite Hg in Eg. injection Eg as <-.
  destruct (decide (d < g)%nat) as [Hlt|Hge].
  - assert (d < length H)%nat as [t' Ht']%lookup_lt_is_Some.
    { apply lookup_lt_Some in Hp. lia. }
    exists t'. split; [done|]. right. split; [|done]. intros Eg.
    destruct (tw_group _ _ (hw_types Hwf _ _ Ht')) as (g'' & Eg'' & Ho' & -> & _).
    rewrite Eg in Eg''. injection Eg'' as <-. lia.
  - destruct (Hat (Z.of_nat (d - g)) ltac:(lia)) as (u & Hu & Hug & Huo & _).
    replace (g + Z.to_nat (Z.of_nat (d - g)))%nat with d in Hu by lia.
    exists u. split; [done|]. left. split; [done|]. lia.
Qed.

Lemma value_refers p t g v :
  H !! p = Some t -> group t = Some g -> v ∈ values_of t -> refers g (group_count t) (definition v).
Proof.
  intros Hp Hg Hv. destruct (definition v) as [d|] eqn:Hd; [|done].
  destruct (tw_group _ _ (hw_types Hwf _ _ Hp)) as (g' & Eg & _ & _ & _ & Hb).
  rewrite Hg in Eg. injection Eg as <-. eapply refers_below; [done..|]. by eapply Hb.
Qed.

Lemma super_refers p t g :
  H !! p = Some t -> group t = Some g -> refers g (group_count t) (super t).
Proof.
  intros Hp Hg. destruct (super t) as [s|] eqn:Hs; [|done].
  pose proof (tw_super _ _ (hw_types Hwf _ _ Hp) _ Hs).
  destruct (tw_group _ _ (hw_types Hwf _ _ Hp)) as (g' & Eg & Ho & -> & _).
  rewrite Hg in Eg. injection Eg as <-. eapply refers_below; [done..|]. lia.
Qed.

(** Rolling up only looks at trees below the group. *)
Lemma ref_of_ext f1 f2 g n o :
  refers g n o -> (forall d, (d < g)%nat -> f1 d = f2 d) -> ref_of f1 g o = ref_of f2 g o.
Proof.
  intros Hr Hf. destruct o as [d|]; [|done]. destruct (Hr _ eq_refl) as (t & Ht & Hc).
  unfold ref_of. rewrite Ht. case_decide as Hd; [done|]. destruct Hc as [[? _]|[_ Hlt]]; [done|].
  by rewrite Hf.
Qed.

Lemma val_of_ext f1 f2 p t g v :
  H !! p = Some t -> group t = Some g -> v ∈ values_of t ->
  (forall d, (d < g)%nat -> f1 d = f2 d) -> val_of f1 g v = val_of f2 g v.
Proof.
  intros Hp Hg Hv Hf. unfold val_of. case_decide; [|done]. f_equal.
  eapply ref_of_ext; [by eapply value_refers|done].
Qed.

Lemma elem_params t v : v ∈ param_semantics t -> v ∈ values_of t.
Proof. unfold values_of. rewrite !elem_of_app. tauto. Qed.
Lemma elem_results t v : v ∈ result_semantics t -> v ∈ values_of t.
Proof. unfold values_of. rewrite !elem_of_app. tauto. Qed.
Lemma elem_fields t f : f ∈ fields t -> field_type f ∈ values_of t.
Proof. unfold values_of. rewrite !elem_of_app. intros. right. right. by apply list_elem_of_fmap_2. Qed.

Lemma def_of_ext f1 f2 p t g :
  H !! p = Some t -> group t = Some g -> (forall d, (d < g)%nat -> f1 d = f2 d) ->
  def_of f1 g t = def_of f2 g t.
Proof.
  intros Hp Hg Hf. unfold def_of. f_equal.
  - eapply ref_of_ext; [by eapply super_refers|done].
  - apply map_ext_in. intros v Hv%list_elem_of_In. eapply val_of_ext; eauto using elem_params.
  - apply map_ext_in. intros v Hv%list_elem_of_In. eapply val_of_ext; eauto using elem_results.
  - apply map_ext_in. intros x Hx%list_elem_of_In. unfold field_of. f_equal.
    eapply val_of_ext; eauto using elem_fields.
Qed.

Lemma members_of_ext f1 f2 g n :
  group_at g n -> (forall d, (d < g)%nat -> f1 d = f2 d) -> members_of f1 g n = members_of f2 g n.
Proof.
  intros Hat Hf. apply map_ext_in. intros i Hi. rewrite in_seq in Hi.
  destruct (Hat (Z.of_nat i) ltac:(lia)) as (u & Hu & Hug & _ & _).
  rewrite Nat2Z.id in Hu. rewrite Hu. by eapply def_of_ext.
Qed.

Lemma tree_fuel_enough : forall n m p, (p < n)%nat -> (p < m)%nat -> tree_fuel n p = tree_fuel m p.
Proof.
  induction n as [|n IH]; intros m p Hn Hm; [lia|]. destruct m as [|m]; [lia|]. cbn [tree_fuel].
  destruct (H !! p) as [t|] eqn:Hp; [|done].
  destruct (tw_group _ _ (hw_types Hwf _ _ Hp)) as (g & -> & Ho & -> & Hat & _). f_equal.
  apply members_of_ext; [done|]. intros d Hd. apply IH; lia.
Qed.

(** The equation of [canon]. *)
Lemma canon_eq p t g : H !! p = Some t -> group t = Some g ->
  canon p = Node (group_offset t) (members_of canon g (group_count t)).
Proof.
  intros Hp Hg. destruct (tw_group _ _ (hw_types Hwf _ _ Hp)) as (g' & Eg & Ho & Epg & Hat & _).
  rewrite Hg in Eg. injection Eg as <-. unfold canon at 1. cbn [tree_fuel]. rewrite Hp, Hg. f_equal.
  apply members_of_ext; [done|]. intros d Hd. apply tree_fuel_enough; lia.
Qed.

(** *** The comparison computes equality of trees *)

Lemma forallb2_map {A B C} (eqb : A -> B -> bool) (f : A -> C) (h : B -> C) l k :
  (forall a b, a ∈ l -> b ∈ k -> eqb a b = true <-> f a = h b) ->
  forallb2 eqb l k = true <-> map f l = map h k.
Proof.
  revert k. induction l as [|a l IH]; intros [|b k] Hall; simpl; try done.
  rewrite andb_true_iff, IH, Hall by (intros; try apply Hall; by constructor). split; [intros [-> ->]; done|]. by intros [= -> ->].
Qed.

Section Correct.
Context (teq : option nat -> option nat -> bool).

(** [teq] is right below the left group. *)
Definition right_below (lg : nat) : Prop :=
  forall d d', (d < lg)%nat -> is_Some (H !! d') -> teq (Some d) (Some d') = true <-> canon d = canon d'.

Lemma reference_equal_spec lg rg n m l r :
  right_below lg -> refers lg n l -> refers rg m r ->
  group_reference_equal H teq l r lg rg = true <-> ref_of canon lg l = ref_of canon rg r.
Proof.
  intros Hteq Hl Hr. destruct l as [l|], r as [r|]; simpl; try done;
    [|destruct (Hl _ eq_refl) as (t & -> & _); by case_decide|
      destruct (Hr _ eq_refl) as (t & -> & _); by case_decide].
  destruct (Hl _ eq_refl) as (lt & Hlt & Hlc), (Hr _ eq_refl) as (rt & Hrt & Hrc).
  rewrite Hlt, Hrt. destruct (decide (group lt = Some lg)) as [Hll|Hll];
    destruct (decide (group rt = Some rg)) as [Hrl|Hrl];
    repeat case_bool_decide; try done; simpl; try (by split).
  - rewrite Z.eqb_eq. split; [by intros ->|by intros [= ->]].
  - destruct Hlc as [[? _]|[_ Hlt']]; [done|]. rewrite (Hteq l r) by eauto. split; [by intros ->|by intros [= ->]].
Qed.

Lemma value_equal_spec lg rg l r p t q u :
  right_below lg -> H !! p = Some t -> group t = Some lg -> H !! q = Some u -> group u = Some rg ->
  l ∈ values_of t -> r ∈ values_of u ->
  group_value_equal H teq lg rg l r = true <-> val_of canon lg l = val_of canon rg r.
Proof.
  intros Hteq Hp Hg Hq Hg' Hl Hr. unfold group_value_equal, val_of.
  destruct (Z.eqb_spec (carrier l) (carrier r)) as [->|]; [|split; [done|by intros [=]]].
  case_bool_decide as E1; [rewrite E1|split; [done|by intros [=]]].
  case_bool_decide as E2; [rewrite E2|split; [done|by intros [=]]].
  case_bool_decide as E3; [rewrite E3|split; [done|by intros [=]]]. simpl.
  case_bool_decide as E4; [rewrite E4, decide_True by done|]. 2: { rewrite !decide_False by done. by split. } simpl.
  rewrite (reference_equal_spec lg rg (group_count t) (group_count u));
    [|done|by eapply value_refers..]. split; [by intros ->|by intros [=]].
Qed.

Lemma member_equal_spec lg rg p t q u :
  right_below lg -> H !! p = Some t -> group t = Some lg -> H !! q = Some u -> group u = Some rg ->
  member_equal H teq lg rg t u = true <-> def_of canon lg t = def_of canon rg u.
Proof.
  intros Hteq Hp Hg Hq Hg'. unfold member_equal.
  rewrite !andb_true_iff, !bool_decide_eq_true, !Z.eqb_eq.
  rewrite (reference_equal_spec lg rg (group_count t) (group_count u)) by (done || by eapply super_refers).
  rewrite (forallb2_map _ (val_of canon lg) (val_of canon rg) (param_semantics t))
    by (intros; apply (value_equal_spec lg rg _ _ p t q u); auto using elem_params).
  rewrite (forallb2_map _ (val_of canon lg) (val_of canon rg) (result_semantics t))
    by (intros; apply (value_equal_spec lg rg _ _ p t q u); auto using elem_results).
  rewrite (forallb2_map _ (field_of canon lg) (field_of canon rg)).
  2: { intros a b Ha Hb. unfold group_field_equal, field_of.
       rewrite !andb_true_iff, Z.eqb_eq, bool_decide_eq_true.
       rewrite (value_equal_spec lg rg _ _ p t q u) by (auto using elem_fields). by rewrite !pair_eq. }
  unfold def_of, param_count, result_count, field_count.
  rewrite (tw_params _ _ (hw_types Hwf _ _ Hp)), (tw_params _ _ (hw_types Hwf _ _ Hq)),
    (tw_results _ _ (hw_types Hwf _ _ Hp)), (tw_results _ _ (hw_types Hwf _ _ Hq)), !length_map.
  split; [by intros ((((((((-> & ->) & _) & _) & _) & ->) & ->) & ->) & ->)|].
  intros [= -> -> -> E1 E2 E3]. split_and!; try done; f_equal.
  - by rewrite <- (length_map (val_of canon lg)), E1, length_map.
  - by rewrite <- (length_map (val_of canon lg)), E2, length_map.
  - by rewrite <- (length_map (field_of canon lg)), E3, length_map.
Qed.

Lemma members_equal_spec lg rg n :
  right_below lg -> group_at lg n -> group_at rg n ->
  members_equal H teq lg rg n = true <-> members_of canon lg n = members_of canon rg n.
Proof.
  intros Hteq Hl Hr. unfold members_equal, members_of. rewrite forallb_forall, map_ext_in_iff.
  split; intros Hall i Hi; specialize (Hall i Hi); rewrite in_seq in Hi;
    destruct (Hl (Z.of_nat i) ltac:(lia)) as (a & Ha & Hag & _);
    destruct (Hr (Z.of_nat i) ltac:(lia)) as (b & Hb & Hbg & _);
    rewrite Nat2Z.id in Ha, Hb; rewrite Ha, Hb in *; by eapply member_equal_spec.
Qed.

End Correct.

Lemma type_equal_fuel_spec : forall n l r, (l < n)%nat -> is_Some (H !! l) -> is_Some (H !! r) ->
  type_equal_fuel H n (Some l) (Some r) = true <-> canon l = canon r.
Proof.
  induction n as [|n IH]; intros l r Hn [lt Hl] [rt Hr]; [lia|]. cbn [type_equal_fuel]. rewrite Hl, Hr.
  rewrite (tw_defined _ _ (hw_types Hwf _ _ Hl)), (tw_defined _ _ (hw_types Hwf _ _ Hr)). simpl.
  destruct (tw_group _ _ (hw_types Hwf _ _ Hl)) as (lg & Elg & Hlo & Elp & Hlat & _).
  destruct (tw_group _ _ (hw_types Hwf _ _ Hr)) as (rg & Erg & Hro & Erp & Hrat & _).
  case_bool_decide as Elr. { by rewrite Elr. } simpl.
  destruct (bool_decide (canonical lt <> None) && bool_decide (canonical lt = canonical rt)) eqn:Ec.
  { apply andb_true_iff in Ec as [Ec1 Ec2]. apply bool_decide_eq_true in Ec1, Ec2.
    destruct (canonical lt) as [c|] eqn:Hc; [|done].
    destruct (hw_canonical Hwf _ _ _ Hl Hc) as [_ <-], (hw_canonical Hwf _ _ c Hr (eq_sym Ec2)) as [_ <-]. by split. }
  rewrite (canon_eq _ _ _ Hl Elg), (canon_eq _ _ _ Hr Erg), Elg, Erg.
  destruct (Z.eqb_spec (group_offset lt) (group_offset rt)) as [->|]; [|split; [done|by intros [=]]].
  destruct (Z.eqb_spec (group_count lt) (group_count rt)) as [Ecnt|Hne]; simpl.
  - rewrite Ecnt in *. rewrite members_equal_spec; [|intros d d' Hd Hd'; apply IH; [lia| |done]|done..].
    + split; [by intros ->|by intros [=]].
    + apply lookup_lt_is_Some. apply lookup_lt_Some in Hl. lia.
  - split; [done|]. intros [= E]. apply (f_equal length) in E. unfold members_of in E.
    rewrite !length_map, !length_seq in E. lia.
Qed.

Lemma type_equal_spec l r : is_Some (H !! l) -> is_Some (H !! r) ->
  turbowasm_validation_defined_type_equal H (Some l) (Some r) = true <-> canon l = canon r.
Proof.
  intros Hl Hr. apply type_equal_fuel_spec; [|done..]. apply lookup_lt_is_Some in Hl. lia.
Qed.

(** *** Equal trees have equal parts *)

Lemma member_count p t g n : H !! p = Some t -> group t = Some g -> group_at g n -> 0 < n ->
  group_count t = n.
Proof.
  intros Hp Hg Hat Hn. destruct (tw_group _ _ (hw_types Hwf _ _ Hp)) as (g' & Eg & Ho & _ & Hat' & _).
  rewrite Hg in Eg. injection Eg as <-.
  destruct (Hat 0 ltac:(lia)) as (u & Hu & _ & _ & <-), (Hat' 0 ltac:(lia)) as (u' & Hu' & _ & _ & <-).
  by simplify_eq.
Qed.

Definition same_ref (o o' : option nat) : Prop :=
  match o, o' with
  | Some d, Some d' => canon d = canon d'
  | None, None => True
  | _, _ => False
  end.

Lemma ref_canon g n g' n' o o' :
  group_at g n -> group_at g' n' -> members_of canon g n = members_of canon g' n' ->
  refers g n o -> refers g' n' o' -> ref_of canon g o = ref_of canon g' o' -> same_ref o o'.
Proof.
  intros Hat Hat' Hm Hr Hr'. destruct o as [d|], o' as [d'|]; simpl; try done.
  - destruct (Hr _ eq_refl) as (t & Ht & Hc), (Hr' _ eq_refl) as (t' & Ht' & Hc'). rewrite Ht, Ht'.
    case_decide as Hg; case_decide as Hg'; try done; [|by intros [=]]. intros [= Ho].
    destruct Hc as [[_ Hb]|[? _]]; [|done]. destruct Hc' as [[_ Hb']|[? _]]; [|done].
    rewrite (canon_eq _ _ _ Ht Hg), (canon_eq _ _ _ Ht' Hg'), Ho.
    rewrite (member_count _ _ _ n Ht Hg Hat), (member_count _ _ _ n' Ht' Hg' Hat') by lia. by rewrite Hm.
  - destruct (Hr _ eq_refl) as (t & -> & _). by case_decide.
  - destruct (Hr' _ eq_refl) as (t & -> & _). by case_decide.
Qed.

(** The parts of two definitions with one tree. *)
Lemma canon_parts p q t u : H !! p = Some t -> H !! q = Some u -> canon p = canon q ->
  exists g g', group t = Some g /\ group u = Some g' /\
    members_of canon g (group_count t) = members_of canon g' (group_count u) /\
    def_of canon g t = def_of canon g' u.
Proof.
  intros Hp Hq. destruct (tw_group _ _ (hw_types Hwf _ _ Hp)) as (g & Eg & Ho & Ep & Hat & _).
  destruct (tw_group _ _ (hw_types Hwf _ _ Hq)) as (g' & Eg' & Ho' & Eq' & Hat' & _).
  rewrite (canon_eq _ _ _ Hp Eg), (canon_eq _ _ _ Hq Eg'). intros [= E1 E2]. exists g, g'. split_and!; try done.
  assert (forall g0 n i a, group_at g0 n -> 0 <= i < n -> H !! (g0 + Z.to_nat i)%nat = Some a ->
    members_of canon g0 n !! Z.to_nat i = Some (def_of canon g0 a)) as Hlk.
  { intros g0 n i a Hg0 Hi Ha. unfold members_of. rewrite list_lookup_fmap, lookup_seq_lt by lia. simpl. by rewrite Ha. }
  rewrite Ep in Hp. rewrite Eq' in Hq.
  pose proof (Hlk _ _ _ _ Hat Ho Hp) as L1. pose proof (Hlk _ _ _ _ Hat' Ho' Hq) as L2.
  rewrite E2, E1, L2 in L1. congruence.
Qed.

Lemma canon_super p q t u : H !! p = Some t -> H !! q = Some u -> canon p = canon q ->
  same_ref (super t) (super u).
Proof.
  intros Hp Hq E. destruct (canon_parts _ _ _ _ Hp Hq E) as (g & g' & Hg & Hg' & Hm & [= _ _ Hs _ _ _]).
  destruct (tw_group _ _ (hw_types Hwf _ _ Hp)) as (g0 & Eg & _ & _ & Hat & _).
  destruct (tw_group _ _ (hw_types Hwf _ _ Hq)) as (g0' & Eg' & _ & _ & Hat' & _). simplify_eq.
  eapply ref_canon; [exact Hat|exact Hat'|done| | |done]; by eapply super_refers.
Qed.

Lemma canon_kind p q t u : H !! p = Some t -> H !! q = Some u -> canon p = canon q ->
  type_kind t = type_kind u.
Proof. intros Hp Hq E. by destruct (canon_parts _ _ _ _ Hp Hq E) as (g & g' & _ & _ & _ & [= -> _]). Qed.

Lemma canon_value p q t u g g' v w :
  H !! p = Some t -> H !! q = Some u -> group t = Some g -> group u = Some g' ->
  members_of canon g (group_count t) = members_of canon g' (group_count u) ->
  v ∈ values_of t -> w ∈ values_of u -> val_of canon g v = val_of canon g' w ->
  turbowasm_validation_value_type_equal H v w = true.
Proof.
  intros Hp Hq Hg Hg' Hm Hv Hw [= E1 E2 E3 E4 E5].
  unfold turbowasm_validation_value_type_equal. rewrite E1, Z.eqb_refl, E2, bool_decide_eq_true_2 by done. simpl.
  destruct (is_reference w) eqn:Hrw; [|done]. simpl.
  rewrite E3, E4, !bool_decide_eq_true_2 by done. simpl. case_bool_decide as Hk; [|done].
  rewrite E4, decide_True, decide_True in E5 by done.
  destruct (tw_group _ _ (hw_types Hwf _ _ Hp)) as (g0 & Eg & _ & _ & Hat & _).
  destruct (tw_group _ _ (hw_types Hwf _ _ Hq)) as (g0' & Eg' & _ & _ & Hat' & _). simplify_eq.
  assert (same_ref (definition v) (definition w)) as Hs.
  { eapply ref_canon; [exact Hat|exact Hat'|done| | |done]; by eapply value_refers. }
  pose proof (tw_values _ _ (hw_types Hwf _ _ Hp) _ Hv) as Hbv. unfold value_bound in Hbv.
  rewrite E2, E4, decide_True in Hbv by done. destruct Hbv as (d & td & Hd & Htd & _).
  pose proof (tw_values _ _ (hw_types Hwf _ _ Hq) _ Hw) as Hbw. unfold value_bound in Hbw.
  rewrite Hrw, decide_True in Hbw by done. destruct Hbw as (e & te & He & Hte & _).
  rewrite Hd, He in *. apply type_equal_spec; [by eexists..|done].
Qed.

(** *** Subtypes *)

Definition declares (p s : nat) : Prop := exists t, H !! p = Some t /\ super t = Some s.

Lemma type_matches_spec a e : is_Some (H !! a) -> is_Some (H !! e) ->
  turbowasm_validation_defined_type_matches H (Some a) (Some e) = true <->
  exists b, rtc declares a b /\ canon b = canon e.
Proof.
  intros Ha He. unfold turbowasm_validation_defined_type_matches.
  assert (Hlt : (a < S (length H))%nat) by (apply lookup_lt_is_Some in Ha; lia).
  revert Hlt Ha. generalize (S (length H)) as n. intros n. revert a.
  induction n as [|n IH]; intros a Hn [t Ht]; [lia|]. cbn [type_matches_fuel].
  destruct (turbowasm_validation_defined_type_equal H (Some a) (Some e)) eqn:Heq.
  { apply type_equal_spec in Heq; [|by eexists|done]. split; [|done]. intros _. by exists a. }
  assert (Hne : canon a <> canon e).
  { intros E. apply type_equal_spec in E; [congruence|by eexists|done]. }
  rewrite Ht. destruct (super t) as [s|] eqn:Hs.
  - pose proof (tw_super _ _ (hw_types Hwf _ _ Ht) _ Hs) as Hlt.
    rewrite IH; [|lia|apply lookup_lt_is_Some; apply lookup_lt_Some in Ht; lia].
    split; intros (b & Hb & E).
    + exists b. split; [|done]. eapply rtc_l; [by exists t|done].
    + exists b. split; [|done]. inversion Hb as [|? s' ? (t' & Ht' & Hs') Hr]; subst; [done|]. by simplify_eq.
  - split; [by destruct n|]. intros (b & Hb & E).
    inversion Hb as [|? s' ? (t' & Ht' & Hs') Hr]; subst; [done|]. by simplify_eq.
Qed.

Lemma declares_valid p s : declares p s -> is_Some (H !! s).
Proof.
  intros (t & Ht & Hs). pose proof (tw_super _ _ (hw_types Hwf _ _ Ht) _ Hs).
  apply lookup_lt_is_Some. apply lookup_lt_Some in Ht. lia.
Qed.

(** Equal types have equal ancestors. *)
Lemma ancestors_canon p q b : is_Some (H !! p) -> is_Some (H !! q) -> canon p = canon q ->
  rtc declares q b -> exists a, rtc declares p a /\ canon a = canon b.
Proof.
  intros Hp Hq E Hb. revert p Hp Hq E. induction Hb as [q|q s b Hd Hb IH]; intros p Hp Hq E; [by exists p|].
  pose proof (declares_valid _ _ Hd) as Hs. destruct Hd as (u & Hu & Hus), Hp as [t Ht].
  pose proof (canon_super _ _ _ _ Ht Hu E) as Hsr. rewrite Hus in Hsr.
  destruct (super t) as [s'|] eqn:Hts; [|done]. assert (Hd : declares p s') by (by exists t).
  destruct (IH s' (declares_valid _ _ Hd) Hs Hsr) as (a & Ha & Ea). exists a. split; [by eapply rtc_l|done].
Qed.

Lemma type_matches_trans a b c :
  is_Some (H !! a) -> is_Some (H !! b) -> is_Some (H !! c) ->
  turbowasm_validation_defined_type_matches H (Some a) (Some b) = true ->
  turbowasm_validation_defined_type_matches H (Some b) (Some c) = true ->
  turbowasm_validation_defined_type_matches H (Some a) (Some c) = true.
Proof.
  intros Ha Hb Hc. rewrite !type_matches_spec by done. intros (a' & Haa & E1) (b' & Hbb & E2).
  assert (Ha' : is_Some (H !! a')).
  { apply rtc_inv_r in Haa as [->|(z & _ & Hz)]; [done|by eapply declares_valid]. }
  destruct (ancestors_canon a' b b' Ha' Hb E1 Hbb) as (z & Hz & Ez).
  exists z. split; [by etrans|congruence].
Qed.

(** *** The subtype relation of the WebAssembly specification *)

Inductive heaptype := HAbs (k : turbowasm_validation_heap_kind) | HDef (p : nat).

Inductive heap_sub : heaptype -> heaptype -> Prop :=
  | sub_refl k : heap_sub (HAbs k) (HAbs k)
  | sub_trans x y z : heap_sub x y -> heap_sub y z -> heap_sub x z
  | sub_equal p q : is_Some (H !! p) -> is_Some (H !! q) -> canon p = canon q -> heap_sub (HDef p) (HDef q)
  | sub_declared p s : declares p s -> heap_sub (HDef p) (HDef s)
  | sub_func p t : H !! p = Some t -> type_kind t = TYPE_FUNCTION -> heap_sub (HDef p) (HAbs HEAP_FUNC)
  | sub_struct p t : H !! p = Some t -> type_kind t = TYPE_STRUCT -> heap_sub (HDef p) (HAbs HEAP_STRUCT)
  | sub_array p t : H !! p = Some t -> type_kind t = TYPE_ARRAY -> heap_sub (HDef p) (HAbs HEAP_ARRAY)
  | sub_eq k : In k [HEAP_I31; HEAP_STRUCT; HEAP_ARRAY] -> heap_sub (HAbs k) (HAbs HEAP_EQ)
  | sub_any : heap_sub (HAbs HEAP_EQ) (HAbs HEAP_ANY)
  | sub_nofunc : heap_sub (HAbs HEAP_NOFUNC) (HAbs HEAP_FUNC)
  | sub_noextern : heap_sub (HAbs HEAP_NOEXTERN) (HAbs HEAP_EXTERN)
  | sub_noexn : heap_sub (HAbs HEAP_NOEXN) (HAbs HEAP_EXN)
  | sub_none k : heap_carrier k = Some 0x6e -> heap_sub (HAbs HEAP_BOTTOM) (HAbs k)
  | sub_nofunc_def p t : H !! p = Some t -> type_kind t = TYPE_FUNCTION -> heap_sub (HAbs HEAP_NOFUNC) (HDef p)
  | sub_none_def p t : H !! p = Some t -> type_kind t <> TYPE_FUNCTION -> heap_sub (HAbs HEAP_BOTTOM) (HDef p).

(** A deterministic form of the relation. *)
Definition abs_le (k k' : turbowasm_validation_heap_kind) : bool :=
  bool_decide (k = k') ||
  match k, k' with
  | HEAP_BOTTOM, (HEAP_ANY | HEAP_EQ | HEAP_I31 | HEAP_STRUCT | HEAP_ARRAY)
  | (HEAP_EQ | HEAP_I31 | HEAP_STRUCT | HEAP_ARRAY), HEAP_ANY
  | (HEAP_I31 | HEAP_STRUCT | HEAP_ARRAY), HEAP_EQ
  | HEAP_NOFUNC, HEAP_FUNC | HEAP_NOEXTERN, HEAP_EXTERN | HEAP_NOEXN, HEAP_EXN => true
  | _, _ => false
  end.

Definition above_kind (k : turbowasm_validation_type_kind) : turbowasm_validation_heap_kind :=
  match k with TYPE_FUNCTION => HEAP_FUNC | TYPE_STRUCT => HEAP_STRUCT | TYPE_ARRAY => HEAP_ARRAY end.

Definition below_kind (k : turbowasm_validation_type_kind) : turbowasm_validation_heap_kind :=
  match k with TYPE_FUNCTION => HEAP_NOFUNC | TYPE_STRUCT | TYPE_ARRAY => HEAP_BOTTOM end.

Definition heap_matches (x y : heaptype) : Prop :=
  match x, y with
  | HAbs k, HAbs k' => abs_le k k' = true
  | HDef p, HDef q => is_Some (H !! p) /\ is_Some (H !! q) /\
      turbowasm_validation_defined_type_matches H (Some p) (Some q) = true
  | HDef p, HAbs k => exists t, H !! p = Some t /\ abs_le (above_kind (type_kind t)) k = true
  | HAbs k, HDef q => exists t, H !! q = Some t /\ k = below_kind (type_kind t)
  end.

Context (Hb : bodies_ok).

Lemma super_kind p s t u : declares p s -> H !! p = Some t -> H !! s = Some u -> type_kind t = type_kind u.
Proof.
  intros (t' & Ht & Hs) Ht' Hu. simplify_eq. pose proof (Hb _ _ Ht) as Hsb. unfold subtype_body in Hsb.
  rewrite Hs, Hu in Hsb. destruct (final_type u); [done|]. simpl in Hsb. by case_bool_decide.
Qed.

Lemma matches_kind p q t u : H !! p = Some t -> H !! q = Some u ->
  turbowasm_validation_defined_type_matches H (Some p) (Some q) = true -> type_kind t = type_kind u.
Proof.
  intros Hp Hq. rewrite type_matches_spec by (by eexists). intros (b & Hr & E).
  revert t Hp. induction Hr as [p|p s b Hd Hr IH]; intros t Hp; [by eapply canon_kind|].
  destruct (declares_valid _ _ Hd) as [ts Hts]. rewrite (super_kind _ _ _ _ Hd Hp Hts). by apply IH.
Qed.

Lemma abs_le_trans a b c : abs_le a b = true -> abs_le b c = true -> abs_le a c = true.
Proof.
  set (all := [HEAP_NONE; HEAP_FUNC; HEAP_EXTERN; HEAP_EXN; HEAP_NOEXN; HEAP_TYPE_INDEX; HEAP_NOFUNC;
    HEAP_NOEXTERN; HEAP_ANY; HEAP_EQ; HEAP_I31; HEAP_STRUCT; HEAP_ARRAY; HEAP_BOTTOM]).
  assert (Hall : forall k, In k all) by (intros []; simpl; tauto).
  assert (forallb (fun a => forallb (fun b => forallb (fun c =>
    implb (abs_le a b && abs_le b c) (abs_le a c)) all) all) all = true) as E by (vm_compute; reflexivity).
  rewrite forallb_forall in E. specialize (E a (Hall a)). rewrite forallb_forall in E.
  specialize (E b (Hall b)). rewrite forallb_forall in E. specialize (E c (Hall c)).
  intros E1 E2. by rewrite E1, E2 in E.
Qed.

Lemma heap_matches_trans x y z : heap_matches x y -> heap_matches y z -> heap_matches x z.
Proof.
  destruct x as [a|p], y as [b|q], z as [c|r]; simpl.
  - apply abs_le_trans.
  - intros Hab (t & Ht & ->). exists t. split; [done|].
    destruct (type_kind t), a; (reflexivity || (vm_compute in Hab; discriminate Hab)).
  - intros (t & Ht & ->) (t' & Ht' & Hc). simplify_eq. destruct (type_kind t); [|by destruct c..].
    eapply abs_le_trans; [|done]. done.
  - intros (t & Ht & ->) (_ & [u Hu] & Hm). exists u. split; [done|]. by rewrite (matches_kind _ _ _ _ Ht Hu Hm).
  - intros (t & Ht & Hl) Hbc. exists t. split; [done|]. by eapply abs_le_trans.
  - intros (t & Ht & Hl) (u & Hu & ->). destruct (type_kind t), (type_kind u); vm_compute in Hl; discriminate Hl.
  - intros ([t Ht] & _ & Hm) (u & Hu & Hl). exists t. split; [done|]. by rewrite (matches_kind _ _ _ _ Ht Hu Hm).
  - intros (Hp & Hq & H1) (_ & Hr & H2). split_and!; try done. by apply (type_matches_trans p q r).
Qed.

Lemma heap_matches_spec x y : heap_matches x y <-> heap_sub x y.
Proof.
  split.
  - destruct x as [a|p], y as [b|q]; simpl.
    + intros Hl. destruct (decide (a = b)) as [->|]; [constructor|].
      destruct a, b; try done; try (by constructor); try (apply sub_eq; simpl; tauto);
        eapply (sub_trans _ (HAbs HEAP_EQ)); try constructor; simpl; tauto.
    + intros (t & Ht & ->). destruct (type_kind t) eqn:Hk; [by eapply sub_nofunc_def|..];
        (eapply sub_none_def; [done|by rewrite Hk]).
    + intros (t & Ht & Hl). destruct (type_kind t) eqn:Hk; destruct b; try done;
        try (by econstructor); (eapply sub_trans; [by econstructor|]);
        try (by apply sub_eq; simpl; tauto);
        (eapply (sub_trans _ (HAbs HEAP_EQ)); [apply sub_eq; simpl; tauto|constructor]).
    + intros (Hp & Hq & Hm). apply type_matches_spec in Hm as (b & Hr & E); [|done..].
      assert (Hsub : heap_sub (HDef p) (HDef b) /\ is_Some (H !! b)).
      { clear E. induction Hr as [p|p s b Hd Hr IH]; [by split; [apply sub_equal|]|].
        destruct (IH (declares_valid _ _ Hd)) as [IH' ?]. split; [|done].
        eapply sub_trans; [by apply sub_declared|done]. }
      destruct Hsub as [Hs Hbv]. eapply sub_trans; [exact Hs|]. by apply sub_equal.
  - induction 1 as [k|x y z _ IH1 _ IH2|p q Hp Hq E|p s Hd|p t Hp Hk|p t Hp Hk|p t Hp Hk|k Hk| | | | |k Hk|p t Hp Hk|p t Hp Hk];
      simpl; try done.
    + unfold abs_le. by rewrite bool_decide_eq_true_2.
    + by eapply heap_matches_trans.
    + split_and!; try done. apply type_matches_spec; [done..|]. by exists p.
    + assert (Hv : is_Some (H !! s)) by (by eapply declares_valid).
      assert (Hp : is_Some (H !! p)) by (destruct Hd as (t & ? & _); by exists t).
      split_and!; try done. apply type_matches_spec; [done..|]. exists s. split; [by apply rtc_once|done].
    + exists t. by rewrite Hk.
    + exists t. by rewrite Hk.
    + exists t. by rewrite Hk.
    + destruct Hk as [<-|[<-|[<-|[]]]]; done.
    + by destruct k.
    + exists t. by rewrite Hk.
    + exists t. split; [done|]. by destruct (type_kind t).
Qed.

Definition heap_of (v : turbowasm_validation_value_type) : heaptype :=
  match heap_kind v, definition v with
  | HEAP_TYPE_INDEX, Some d => HDef d
  | k, _ => HAbs k
  end.

(** The subtype relation on value types. *)
Definition value_sub (a b : turbowasm_validation_value_type) : Prop :=
  if is_reference a then
    is_reference b = true /\ (nullable a = true -> nullable b = true) /\ heap_sub (heap_of a) (heap_of b)
  else is_reference b = false /\ carrier a = carrier b.

Lemma value_matches_abstract c c' r n n' k k' i i' d d' :
  r = true -> k <> HEAP_TYPE_INDEX -> k' <> HEAP_TYPE_INDEX ->
  heap_carrier k = Some c -> heap_carrier k' = Some c' ->
  turbowasm_validation_value_type_matches H (mk_value_type c r n k i d) (mk_value_type c' r n' k' i' d') =
  implb n n' && abs_le k k'.
Proof.
  intros -> Hk Hk' Hc Hc'. unfold turbowasm_validation_value_type_matches. simpl.
  destruct k; try done; simpl in Hc; injection Hc as <-; destruct k'; try done; simpl in Hc'; injection Hc' as <-;
    destruct n, n'; reflexivity.
Qed.

Lemma value_matches_above c c' n n' k' i i' d d' t :
  H !! d = Some t -> c = (if decide (type_kind t = TYPE_FUNCTION) then 0x70 else 0x6e) ->
  k' <> HEAP_TYPE_INDEX -> heap_carrier k' = Some c' ->
  turbowasm_validation_value_type_matches H (mk_value_type c true n HEAP_TYPE_INDEX i (Some d))
    (mk_value_type c' true n' k' i' d') = implb n n' && abs_le (above_kind (type_kind t)) k'.
Proof.
  intros Ht -> Hk' Hc'. unfold turbowasm_validation_value_type_matches. cbn [heap_kind definition carrier is_reference nullable].
  rewrite Ht. destruct (type_kind t), k'; try done; simpl in Hc'; injection Hc' as <-; destruct n, n'; reflexivity.
Qed.

Lemma value_matches_below c c' n n' k i i' d d' t :
  H !! d' = Some t -> c' = (if decide (type_kind t = TYPE_FUNCTION) then 0x70 else 0x6e) ->
  k <> HEAP_TYPE_INDEX -> heap_carrier k = Some c ->
  turbowasm_validation_value_type_matches H (mk_value_type c true n k i d)
    (mk_value_type c' true n' HEAP_TYPE_INDEX i' (Some d')) =
  implb n n' && bool_decide (k = below_kind (type_kind t)).
Proof.
  intros Ht -> Hk Hc. unfold turbowasm_validation_value_type_matches. cbn [heap_kind definition carrier is_reference nullable].
  destruct (type_kind t), k; try done; simpl in Hc; injection Hc as <-; destruct n, n'; reflexivity.
Qed.

Lemma implb_and n n' b (P : Prop) : (b = true <-> P) ->
  implb n n' && b = true <-> true = true /\ (n = true -> n' = true) /\ P.
Proof. intros <-. destruct n, n', b; simpl; intuition congruence. Qed.

Lemma heap_of_abs v : heap_kind v <> HEAP_TYPE_INDEX -> heap_of v = HAbs (heap_kind v).
Proof. unfold heap_of. by destruct (heap_kind v). Qed.

Lemma value_matches_spec a b : value_bound a -> value_bound b ->
  turbowasm_validation_value_type_matches H a b = true <-> value_sub a b.
Proof.
  unfold value_bound, value_sub. destruct a as [c [] n k i d], b as [c' [] n' k' i' d'];
    cbn [is_reference heap_kind definition carrier nullable].
  - intros Ha Hb'. rewrite <- heap_matches_spec. destruct (decide (k = HEAP_TYPE_INDEX)) as [->|Hk];
      destruct (decide (k' = HEAP_TYPE_INDEX)) as [->|Hk'].
    + destruct Ha as (p & t & -> & Ht & ->), Hb' as (q & u & -> & Hu & ->). unfold heap_of. cbn [heap_kind definition heap_matches].
      rewrite <- (implb_and n n' (turbowasm_validation_defined_type_matches H (Some p) (Some q)))
        by (split; [intros; split_and!; eauto|by intros (_ & _ & ?)]).
      destruct (turbowasm_validation_defined_type_matches H (Some p) (Some q)) eqn:Hm.
      * rewrite (matches_kind _ _ _ _ Ht Hu Hm). unfold turbowasm_validation_value_type_matches.
        cbn [heap_kind definition carrier is_reference nullable]. rewrite Z.eqb_refl, Hm. by destruct n, n'.
      * unfold turbowasm_validation_value_type_matches. cbn [heap_kind definition carrier is_reference nullable].
        rewrite Hm, (andb_false_r (implb n n')). split; [|done]. simpl. destruct (_ =? _); [|done]. by destruct n, n'.
    + destruct Ha as (p & t & -> & Ht & Hc). rewrite (value_matches_above _ _ _ _ _ _ _ _ _ t) by done.
      apply implb_and. rewrite (heap_of_abs (mk_value_type _ _ _ k' _ _)) by done. unfold heap_of. simpl.
      split; [by exists t|]. intros (t' & Ht' & ?). by simplify_eq.
    + destruct Hb' as (p & t & -> & Ht & Hc). rewrite (value_matches_below _ _ _ _ _ _ _ _ _ t) by done.
      apply implb_and. rewrite (heap_of_abs (mk_value_type _ _ _ k _ _)) by done. unfold heap_of. simpl.
      rewrite bool_decide_eq_true. split; [by exists t|]. intros (t' & Ht' & ?). by simplify_eq.
    + rewrite value_matches_abstract by done. apply implb_and. by rewrite !heap_of_abs.
  - intros _ _. split; [|by intros [? _]]. unfold turbowasm_validation_value_type_matches,
      turbowasm_validation_value_type_equal. simpl. by destruct (_ =? _).
  - intros _ _. split; [|by intros [? _]]. unfold turbowasm_validation_value_type_matches,
      turbowasm_validation_value_type_equal. simpl. by destruct (_ =? _).
  - intros _ _. unfold turbowasm_validation_value_type_matches, turbowasm_validation_value_type_equal. simpl.
    destruct (Z.eqb_spec c c'); simpl; intuition congruence.
Qed.

Lemma value_equal_matches a b : value_bound a -> value_bound b ->
  turbowasm_validation_value_type_equal H a b = true ->
  turbowasm_validation_value_type_matches H a b = true.
Proof.
  intros Ha Hb'. unfold turbowasm_validation_value_type_matches.
  unfold turbowasm_validation_value_type_equal at 1.
  destruct (Z.eqb_spec (carrier a) (carrier b)) as [Ec|]; [|done].
  case_bool_decide as Er; [|done]. unfold value_bound in *. rewrite Er in *.
  destruct (is_reference b) eqn:Hr; simpl.
  - case_bool_decide as En; [|done]. case_bool_decide as Ek; [|done]. simpl. rewrite En, Ek.
    case_bool_decide as Eti; [|by destruct (nullable b)]. rewrite Ek, decide_True in Ha by done. rewrite decide_True in Hb' by done.
    destruct Ha as (p & t & -> & Ht & _), Hb' as (q & u & -> & Hu & _). intros E.
    apply type_equal_spec in E; [|by eexists..]. destruct (nullable b); simpl; apply type_matches_spec; eauto using rtc_refl.
  - intros _. unfold turbowasm_validation_value_type_equal. by rewrite Ec, Z.eqb_refl, Er, Hr.
Qed.

Lemma value_matches_trans a b c : value_bound a -> value_bound b -> value_bound c ->
  turbowasm_validation_value_type_matches H a b = true ->
  turbowasm_validation_value_type_matches H b c = true ->
  turbowasm_validation_value_type_matches H a c = true.
Proof.
  intros Ha Hb' Hc. rewrite !value_matches_spec by done. unfold value_sub.
  destruct (is_reference a); [|intros [-> ->] [-> ->]; done].
  intros (-> & H1 & H2) (-> & H3 & H4). split_and!; [done|auto|by eapply sub_trans].
Qed.

Definition same_value (a b : turbowasm_validation_value_type) : Prop :=
  carrier a = carrier b /\ is_reference a = is_reference b /\
  (is_reference a = true -> nullable a = nullable b /\ heap_kind a = heap_kind b /\
     (heap_kind a = HEAP_TYPE_INDEX -> same_ref (definition a) (definition b))).

Lemma value_equal_same a b : value_bound a -> value_bound b ->
  turbowasm_validation_value_type_equal H a b = true <-> same_value a b.
Proof.
  intros Ha Hb'. unfold turbowasm_validation_value_type_equal, same_value.
  destruct (Z.eqb_spec (carrier a) (carrier b)) as [Ec|]; [|simpl; intuition congruence].
  case_bool_decide as Er; [|simpl; intuition congruence]. simpl. unfold value_bound in *. rewrite <- Er in *.
  destruct (is_reference a) eqn:Hr; simpl; [|intuition congruence].
  case_bool_decide as En; [|simpl; intuition congruence]. case_bool_decide as Ek; [|simpl; intuition congruence]. simpl. rewrite <- Ek in *.
  case_bool_decide as Eti; [|tauto]. rewrite decide_True in Ha, Hb' by done.
  destruct Ha as (p & t & -> & Ht & _), Hb' as (q & u & -> & Hu & _). simpl.
  rewrite type_equal_spec by (by eexists). tauto.
Qed.

Lemma same_value_trans a b c : same_value a b -> same_value b c -> same_value a c.
Proof.
  intros (E1 & E2 & E3) (F1 & F2 & F3). split_and!; [congruence..|]. intros Hr.
  destruct (E3 Hr) as (E4 & E5 & E6). rewrite E2 in Hr. destruct (F3 Hr) as (F4 & F5 & F6).
  split_and!; [congruence..|]. intros Hk. specialize (E6 Hk). rewrite E5 in Hk. specialize (F6 Hk).
  destruct (definition a), (definition b), (definition c); simpl in *; try done. congruence.
Qed.

(** The body of [t] can stand for the body of [u]: parameters vary
    contravariantly, results and immutable fields covariantly, mutable fields
    not at all, and further fields may be added at the end. *)
Record body_sub (t u : turbowasm_validation_func_type) : Prop := {
  bs_kind : type_kind t = type_kind u;
  bs_params : Forall2 (fun v w => turbowasm_validation_value_type_matches H v w = true)
                (param_semantics u) (param_semantics t);
  bs_results : Forall2 (fun v w => turbowasm_validation_value_type_matches H v w = true)
                 (result_semantics t) (result_semantics u);
  bs_length : (length (fields u) <= length (fields t))%nat;
  bs_fields : forall i a b, fields t !! i = Some a -> fields u !! i = Some b -> subtype_field H a b = true
}.

Lemma forallb2_Forall2 {A B} (f : A -> B -> bool) l k :
  forallb2 f l k = true <-> Forall2 (fun a b => f a b = true) l k.
Proof.
  revert k. induction l as [|a l IH]; intros [|b k]; simpl.
  - split; [intros _; constructor|intros _; reflexivity].
  - split; [discriminate|intros Hf; inversion Hf].
  - split; [discriminate|intros Hf; inversion Hf].
  - rewrite andb_true_iff, IH. split; [intros []; by constructor|by inversion 1].
Qed.

Lemma declared_body p s t u : declares p s -> H !! p = Some t -> H !! s = Some u -> body_sub t u.
Proof.
  intros (t' & Ht & Hs) Ht' Hu. assert (t' = t) as -> by congruence. pose proof (Hb _ _ Ht) as E. unfold subtype_body in E.
  rewrite Hs, Hu in E. destruct (final_type u); [done|]. simpl in E. case_bool_decide as Hk; [|done]. simpl in E.
  destruct (_ =? _); [|done]. destruct (_ =? _); [|done]. simpl in E.
  destruct (Z.ltb_spec (field_count t) (field_count u)) as [|Hf]; [done|].
  rewrite !andb_true_iff, !forallb2_Forall2 in E. destruct E as [[E1 E2] E3]. unfold field_count in Hf.
  split; try done; [lia|]. intros i a b Ha Hb'. pose proof (lookup_lt_Some _ _ _ Hb').
  eapply (Forall2_lookup_lr (fun a b => subtype_field H a b = true) _ _ i); [exact E3| |exact Hb']. by rewrite lookup_take_lt.
Qed.

Lemma map_eq_Forall2 {A B C} (f : A -> C) (h : B -> C) (P : A -> B -> Prop) l k :
  map f l = map h k -> (forall a b, a ∈ l -> b ∈ k -> f a = h b -> P a b) -> Forall2 P l k.
Proof.
  revert k. induction l as [|a l IH]; intros [|b k] E Hall; try discriminate E; [constructor|].
  injection E as E1 E2. constructor; [apply Hall; [by constructor..|done]|].
  apply IH; [done|]. intros a' b' Ha' Hb'. by apply Hall; constructor.
Qed.

Lemma equal_body p q t u : H !! p = Some t -> H !! q = Some u -> canon p = canon q -> body_sub t u.
Proof.
  intros Hp Hq E. destruct (canon_parts _ _ _ _ Hp Hq E) as (g & g' & Hg & Hg' & Hm & [= E1 _ _ E2 E3 E4]).
  destruct (canon_parts _ _ _ _ Hq Hp (eq_sym E)) as (h & h' & Hh & Hh' & Hm' & [= _ _ _ F2 _ _]).
  pose proof (hw_types Hwf _ _ Hp) as Hwt. pose proof (hw_types Hwf _ _ Hq) as Hwu. split.
  - done.
  - eapply map_eq_Forall2; [exact F2|]. intros v w Hv%elem_params Hw%elem_params Evw.
    apply value_equal_matches; [by apply Hwu|by apply Hwt|].
    exact (canon_value _ _ _ _ _ _ _ _ Hq Hp Hh Hh' Hm' Hv Hw Evw).
  - eapply map_eq_Forall2; [exact E3|]. intros v w Hv%elem_results Hw%elem_results Evw.
    apply value_equal_matches; [by apply Hwt|by apply Hwu|].
    exact (canon_value _ _ _ _ _ _ _ _ Hp Hq Hg Hg' Hm Hv Hw Evw).
  - apply (f_equal length) in E4. rewrite !length_map in E4. lia.
  - intros i a b Ha Hb'.
    assert (Forall2 (fun a b => subtype_field H a b = true) (fields t) (fields u)) as HF.
    { eapply map_eq_Forall2; [exact E4|]. intros x y Hx%elem_fields Hy%elem_fields [[Eb Em]%pair_eq Ev]%pair_eq.
      assert (Evv : turbowasm_validation_value_type_equal H (field_type x) (field_type y) = true)
        by exact (canon_value _ _ _ _ _ _ _ _ Hp Hq Hg Hg' Hm Hx Hy Ev).
      unfold subtype_field. rewrite Eb, Em, Z.eqb_refl, bool_decide_eq_true_2 by done. simpl.
      destruct (mutable_value y); [done|]. apply value_equal_matches; [by apply Hwt|by apply Hwu|done]. }
    by eapply (Forall2_lookup_lr (fun a b => subtype_field H a b = true) _ _ i).
Qed.

Lemma field_sub_trans a b c :
  value_bound (field_type a) -> value_bound (field_type b) -> value_bound (field_type c) ->
  subtype_field H a b = true -> subtype_field H b c = true -> subtype_field H a c = true.
Proof.
  intros Ha Hb' Hc. unfold subtype_field. rewrite !andb_true_iff, !bool_decide_eq_true, !Z.eqb_eq.
  intros [[E1 E2] E3] [[F1 F2] F3]. split_and!; [congruence..|]. rewrite E1 in *. rewrite F1 in *.
  destruct (mutable_value c).
  - rewrite value_equal_same in * by done. by eapply same_value_trans.
  - by apply (value_matches_trans _ (field_type b)).
Qed.

Lemma matches_compose {A} (P : A -> Prop) (R : A -> A -> Prop) l k m :
  (forall a b c, P a -> P b -> P c -> R a b -> R b c -> R a c) ->
  Forall P l -> Forall P k -> Forall P m -> Forall2 R l k -> Forall2 R k m -> Forall2 R l m.
Proof.
  intros HR Hl Hk Hm Hlk. revert m Hl Hk Hm. induction Hlk as [|a b l k Hab Hlk IH]; intros m Hl Hk Hm Hkm.
  - inversion Hkm. constructor.
  - inversion Hkm as [|? c ? m' Hbc Hkm']; subst. rewrite Forall_cons in Hl, Hk, Hm.
    destruct Hl, Hk, Hm. constructor; [by apply (HR a b c)|]. by apply IH.
Qed.

Lemma type_bounds p t : H !! p = Some t -> Forall value_bound (param_semantics t) /\
  Forall value_bound (result_semantics t) /\ forall f, f ∈ fields t -> value_bound (field_type f).
Proof.
  intros Hp. assert (Hv : forall v, v ∈ values_of t -> value_bound v) by apply (tw_values _ _ (hw_types Hwf _ _ Hp)).
  split_and!; [apply Forall_forall; eauto using elem_params, elem_results..|eauto using elem_fields].
Qed.

Lemma body_sub_trans p q r t u v : H !! p = Some t -> H !! q = Some u -> H !! r = Some v ->
  body_sub t u -> body_sub u v -> body_sub t v.
Proof.
  intros Hp Hq Hr A B.
  destruct (type_bounds _ _ Hp) as (P1 & P2 & P3), (type_bounds _ _ Hq) as (Q1 & Q2 & Q3), (type_bounds _ _ Hr) as (R1 & R2 & R3).
  split.
  - rewrite (bs_kind _ _ A). apply B.
  - eapply (matches_compose value_bound _ _ (param_semantics u)); try done; [by apply value_matches_trans|apply B|apply A].
  - eapply (matches_compose value_bound _ _ (result_semantics u)); try done; [by apply value_matches_trans|apply A|apply B].
  - pose proof (bs_length _ _ A). pose proof (bs_length _ _ B). lia.
  - intros i a c Ha Hc. pose proof (bs_length _ _ B). pose proof (lookup_lt_Some _ _ _ Hc).
    destruct (lookup_lt_is_Some_2 (fields u) i ltac:(lia)) as [b Hbb].
    eapply (field_sub_trans a b c); eauto using list_elem_of_lookup_2, bs_fields.
Qed.

Lemma matches_body p q t u : H !! p = Some t -> H !! q = Some u ->
  turbowasm_validation_defined_type_matches H (Some p) (Some q) = true -> body_sub t u.
Proof.
  intros Hp Hq. rewrite type_matches_spec by (by eexists). intros (b & Hr & E).
  revert t Hp. induction Hr as [p|p s b Hd Hr IH]; intros t Hp; [by eapply equal_body|].
  destruct (declares_valid _ _ Hd) as [ts Hts].
  eapply (body_sub_trans p s q); [done..|by eapply declared_body|by apply IH].
Qed.

(** The same in terms of the declarative relations only. *)
Definition field_compatible (a b : turbowasm_validation_field) : Prop :=
  mutable_value a = mutable_value b /\ packed_bits a = packed_bits b /\
  (if mutable_value a then same_value (field_type a) (field_type b)
   else value_sub (field_type a) (field_type b)).

Record body_compatible (t u : turbowasm_validation_func_type) : Prop := {
  bc_kind : type_kind t = type_kind u;
  bc_params : Forall2 value_sub (param_semantics u) (param_semantics t);
  bc_results : Forall2 value_sub (result_semantics t) (result_semantics u);
  bc_length : (length (fields u) <= length (fields t))%nat;
  bc_fields : forall i a b, fields t !! i = Some a -> fields u !! i = Some b -> field_compatible a b
}.

Lemma matches_value_sub l k : Forall value_bound l -> Forall value_bound k ->
  Forall2 (fun v w => turbowasm_validation_value_type_matches H v w = true) l k -> Forall2 value_sub l k.
Proof.
  intros Hl Hk HF. revert Hl Hk. induction HF as [|v w l k Hvw HF IH]; [constructor|].
  rewrite !Forall_cons. intros [] []. constructor; [by apply value_matches_spec|auto].
Qed.

Lemma body_sub_compatible p q t u : H !! p = Some t -> H !! q = Some u -> body_sub t u -> body_compatible t u.
Proof.
  intros Hp Hq [B1 B2 B3 B4 B5]. destruct (type_bounds _ _ Hp) as (P1 & P2 & P3), (type_bounds _ _ Hq) as (Q1 & Q2 & Q3).
  split; [done|by apply matches_value_sub..|done|]. intros i a b Ha Hb'. pose proof (B5 _ _ _ Ha Hb') as E.
  apply list_elem_of_lookup_2, P3 in Ha. apply list_elem_of_lookup_2, Q3 in Hb'.
  unfold subtype_field in E. rewrite !andb_true_iff, bool_decide_eq_true, Z.eqb_eq in E. destruct E as [[E1 E2] E3].
  split_and!; [done..|]. destruct (mutable_value a); [by apply value_equal_same|by apply value_matches_spec].
Qed.

(** ** Properties *)

(** C24. Comparing two type definitions terminates (more recursion than the heap
    is large never changes the answer) and decides whether their recursion groups
    roll up to the same closed tree at the same member: the iso-recursive type
    equality of the specification. In particular it is an equivalence. *)
Theorem type_equality_is_structural l r n :
  is_Some (H !! l) -> is_Some (H !! r) -> (l < n)%nat ->
  type_equal_fuel H n (Some l) (Some r) = turbowasm_validation_defined_type_equal H (Some l) (Some r) /\
  (turbowasm_validation_defined_type_equal H (Some l) (Some r) = true <-> canon l = canon r).
Proof.
  intros Hl Hr Hn. split; [|by apply type_equal_spec].
  apply Bool.eq_iff_eq_true. rewrite type_equal_fuel_spec, type_equal_spec by done. done.
Qed.

(** C25. The validator's matching of value types decides the subtype relation of the
    WebAssembly specification, given here by its rules with transitivity as a rule
    of its own; so matching is itself reflexive and transitive. *)
Theorem value_matching_is_subtyping a b :
  value_bound a -> value_bound b ->
  turbowasm_validation_value_type_matches H a b = true <-> value_sub a b.
Proof. apply value_matches_spec. Qed.

(** C26. Where the validator accepts a definition for another through any chain of
    declared supertypes and structural equalities, its body can stand for the
    other's: same kind, parameters contravariant, results and immutable fields
    covariant, mutable fields and packing unchanged, fields only added at the end. *)
Theorem subtyping_is_sound p q t u :
  H !! p = Some t -> H !! q = Some u ->
  turbowasm_validation_defined_type_matches H (Some p) (Some q) = true -> body_compatible t u.
Proof. intros Hp Hq Hm. eapply body_sub_compatible; [done..|]. by eapply matches_body. Qed.

End Canon.

(** ** Witnesses *)

(** Two copies of a self-referential struct, and a subtype of the first with one
    more field. *)
Definition sample_ref (p : nat) : turbowasm_validation_value_type :=
  mk_value_type 0x6e true true HEAP_TYPE_INDEX (Z.of_nat p) (Some p).

Definition sample_type (p : nat) (sup : option nat) (fs : list turbowasm_validation_field)
    : turbowasm_validation_func_type :=
  mk_func_type true [] [] [] [] TYPE_STRUCT fs false (default UINT32_MAX (Z.of_nat <$> sup)) sup
    (Some p) 1 0 1 (Some p).

Definition sample_heap : type_heap :=
  [sample_type 0 None [mk_field (sample_ref 0) 0 true];
   sample_type 1 None [mk_field (sample_ref 1) 0 true];
   sample_type 2 (Some 0%nat)
     [mk_field (sample_ref 0) 0 true; mk_field (mk_value_type 0x7f false false HEAP_NONE UINT32_MAX None) 8 false]].

Lemma sample_group p : (p < 3)%nat -> group_at sample_heap p 1.
Proof.
  intros Hp i Hi. assert (i = 0) as -> by lia. rewrite Nat.add_0_r.
  destruct p as [|[|[|]]]; [eexists; split; [reflexivity|done]..|lia].
Qed.

Lemma sample_type_wf p t : sample_heap !! p = Some t -> type_wf sample_heap p t.
Proof.
  intros Hp. pose proof (sample_group p (lookup_lt_Some _ _ _ Hp)) as Hg.
  destruct p as [|[|[|]]]; [| | |discriminate]; injection Hp as <-; split; try reflexivity;
    try (eexists; split; [reflexivity|]; split; [simpl; lia|]; split; [reflexivity|]; split; [exact Hg|]);
    try (intros s [= <-]; lia); try discriminate; unfold values_of; simpl;
    intros v; intros;
    repeat match goal with Hx : _ ∈ _ |- _ => progress rewrite ?elem_of_cons, ?elem_of_nil in Hx end;
    destruct_or?; try done; subst; simpl in *;
    try (eexists _, _; split; [reflexivity|]; split; [reflexivity|]; reflexivity);
    simplify_eq; simpl; (lia || first [reflexivity | by split]).
Qed.

Lemma sample_heap_wf : heap_wf sample_heap.
Proof.
  split; [apply sample_type_wf|]. intros p t c Hp Hc.
  assert (c = p) as -> by (destruct p as [|[|[|]]]; [| | |discriminate]; injection Hp as <-; simpl in Hc; congruence).
  split; [by eexists|reflexivity].
Qed.

Lemma sample_bodies_ok : bodies_ok sample_heap.
Proof. intros [|[|[|]]] t [= <-]; vm_compute; reflexivity. Qed.

Lemma type_equality_is_structural_witness :
  turbowasm_validation_defined_type_equal sample_heap (Some 0%nat) (Some 1%nat) = true /\
  canon sample_heap 0 = canon sample_heap 1.
Proof.
  destruct (type_equality_is_structural sample_heap sample_heap_wf 0 1 7
    ltac:(by eexists) ltac:(by eexists) ltac:(lia)) as [_ [E _]].
  split; [vm_compute; reflexivity|apply E; vm_compute; reflexivity].
Defined.

Lemma value_matching_is_subtyping_witness : value_sub sample_heap (sample_ref 2) (sample_ref 1).
Proof.
  apply (value_matching_is_subtyping sample_heap sample_heap_wf sample_bodies_ok);
    [exists 2%nat; eexists; split; [reflexivity|]; split; reflexivity
    |exists 1%nat; eexists; split; [reflexivity|]; split; reflexivity|vm_compute; reflexivity].
Defined.

Lemma subtyping_is_sound_witness :
  exists t u, sample_heap !! 2%nat = Some t /\ sample_heap !! 1%nat = Some u /\ body_compatible sample_heap t u.
Proof.
  eexists _, _. split; [reflexivity|]. split; [reflexivity|].
  apply (subtyping_is_sound sample_heap sample_heap_wf sample_bodies_ok 2 1);
    [reflexivity|reflexivity|vm_compute; reflexivity].
Defined.

End TypeEq.
