(* ===== verification/TypeReader.v ===== *)
(** * Reading and checking the type section
    (src/validate_type.c, src/validate_composite.c)

    The type readers run in the monad [parse] of the module reader, which stops
    at the first status that is not OK. The array of types of a context is the
    part of the type heap that starts at [types_base]. A definition is written
    to the array when it has been read in full; a load that fails discards the
    array. [calloc_ok n] says whether the allocator grants [n] bytes. *)

From S2P Require Import Prelude Reader Types TypeEq.

Module TypeReader.
Import Reader Types TypeEq.

(** The part of a validation context that holds its types. *)
Record types_context := mk_types { types_base : nat; type_count : Z; requires_store : bool }.

Definition turbowasm_validation_value_type_legacy (carrier : Z) : turbowasm_validation_value_type :=
  let ref k := mk_value_type carrier true true k UINT32_MAX None in
  if carrier =? 0x70 then ref HEAP_FUNC
  else if carrier =? 0x6f then ref HEAP_EXTERN
  else if carrier =? 0x69 then ref HEAP_EXN
  else if carrier =? 0x6e then ref HEAP_ANY
  else mk_value_type carrier false false HEAP_NONE UINT32_MAX None.

(** [&context->types[index]] *)
Definition turbowasm_validation_context_type (c : types_context) (index : Z) : option nat :=
  if index >=? type_count c then None else Some (types_base c + Z.to_nat index)%nat.

(** ** The monad of readers *)

Definition parse (A : Type) : Type := turbowasm_reader -> (turbowasm_status + A) * turbowasm_reader.

#[global] Instance parse_ret : MRet parse := fun A a r => (inr a, r).
#[global] Instance parse_bind : MBind parse := fun A B k m r =>
  match m r with
  | (inl status, r') => (inl status, r')
  | (inr a, r') => k a r'
  end.

Definition fail {A} (status : turbowasm_status) : parse A := fun r => (inl status, r).

(** A decoder whose failure is MALFORMED_MODULE. *)
Definition decode {A} (d : turbowasm_reader -> option A * turbowasm_reader) : parse A := fun r =>
  match d r with
  | (Some a, r') => (inr a, r')
  | (None, r') => (inl TURBOWASM_MALFORMED_MODULE, r')
  end.

(** [if (bad) return status;] *)
Definition check (bad : bool) (status : turbowasm_status) : parse unit :=
  if bad then fail status else mret tt.

Definition remaining : parse Z := fun r => (inr (turbowasm_reader_remaining r), r).

(** [*reader->cursor] and a move of the cursor *)
Definition peek (buf : list Z) : parse Z := fun r => (inr (byte_at buf (default 0 (cursor r))), r).
Definition seek (n : Z) : parse unit := fun r => (inr tt, advance r n).

Definition sizeof_value_type : Z := 24.
Definition sizeof_field : Z := 32.
Definition sizeof_func_type : Z := 120.

Section Readers.
Context (buf : list Z) (calloc_ok : Z -> bool).

(** The fields of [*out] that the heap type sets; [nullable] is kept. *)
Definition turbowasm_validation_read_heaptype (H : type_heap) (context : option types_context)
    (nullable : bool) : parse turbowasm_validation_value_type :=
  heap ← decode (turbowasm_validation_read_s33 buf);
  if heap >=? 0 then
    _ ← check (heap >? UINT32_MAX) TURBOWASM_MALFORMED_MODULE;
    match context with
    | None => mret (mk_value_type 0x70 true nullable HEAP_TYPE_INDEX heap None)
    | Some c =>
        _ ← check (heap >=? type_count c) TURBOWASM_MALFORMED_MODULE;
        let d := (types_base c + Z.to_nat heap)%nat in
        let carrier := match H !! d with
                       | Some t => if defined t && negb (bool_decide (type_kind t = TYPE_FUNCTION))
                                   then 0x6e else 0x70
                       | None => 0x70
                       end in
        mret (mk_value_type carrier true nullable HEAP_TYPE_INDEX heap (Some d))
    end
  else
    let out carrier k := mret (mk_value_type carrier true nullable k UINT32_MAX None) : parse _ in
    switch heap
      [(-18, out 0x6e HEAP_ANY); (-19, out 0x6e HEAP_EQ); (-20, out 0x6e HEAP_I31);
       (-21, out 0x6e HEAP_STRUCT); (-22, out 0x6e HEAP_ARRAY); (-15, out 0x6e HEAP_BOTTOM);
       (-13, out 0x70 HEAP_NOFUNC); (-14, out 0x6f HEAP_NOEXTERN); (-16, out 0x70 HEAP_FUNC);
       (-17, out 0x6f HEAP_EXTERN); (-23, out 0x69 HEAP_EXN); (-12, out 0x69 HEAP_NOEXN)]
      (fail TURBOWASM_MALFORMED_MODULE).

(** The second component is [*out_generalized]. *)
Definition turbowasm_validation_read_reftype (H : type_heap) (context : option types_context)
    : parse (turbowasm_validation_value_type * bool) :=
  first ← decode (turbowasm_reader_u8 buf);
  if (first =? 0x70) || (first =? 0x6f) || (first =? 0x69)
  then mret (turbowasm_validation_value_type_legacy first, false)
  else if ((0x6a <=? first) && (first <=? 0x6e)) || ((0x71 <=? first) && (first <=? 0x74)) then
    _ ← seek (-1);
    v ← turbowasm_validation_read_heaptype H context true;
    mret (v, false)
  else
    _ ← check (negb (first =? 0x63) && negb (first =? 0x64)) TURBOWASM_MALFORMED_MODULE;
    v ← turbowasm_validation_read_heaptype H context (first =? 0x63);
    mret (v, true).

Definition turbowasm_validation_read_valtype (H : type_heap) (context : option types_context)
    : parse (turbowasm_validation_value_type * bool) :=
  n ← remaining;
  _ ← check (n =? 0) TURBOWASM_MALFORMED_MODULE;
  first ← peek buf;
  if (first =? 0x7f) || (first =? 0x7e) || (first =? 0x7d) || (first =? 0x7c) || (first =? 0x7b) then
    first ← decode (turbowasm_reader_u8 buf);
    mret (turbowasm_validation_value_type_legacy first, false)
  else turbowasm_validation_read_reftype H context.

Definition turbowasm_validation_read_globaltype (H : type_heap) (context : option types_context)
    : parse (turbowasm_validation_value_type * bool) :=
  tg ← turbowasm_validation_read_valtype H context;
  let type := fst tg in
  _ ← check (bool_decide (heap_kind type = HEAP_TYPE_INDEX) &&
             match context with None => true | Some c => type_index type >=? type_count c end)
        TURBOWASM_MALFORMED_MODULE;
  mutability ← decode (turbowasm_reader_u8 buf);
  _ ← check (mutability >? 1) TURBOWASM_MALFORMED_MODULE;
  mret (type, negb (mutability =? 0)).

Definition read_value (H : type_heap) (context : option types_context) (limit : Z)
    : parse turbowasm_validation_value_type :=
  tg ← turbowasm_validation_read_valtype H context;
  let type := fst tg in
  _ ← check (bool_decide (heap_kind type = HEAP_TYPE_INDEX) && (type_index type >=? limit))
        TURBOWASM_MALFORMED_MODULE;
  mret type.

(** [n] times the reader [p]. *)
Fixpoint repeat_read {A} (n : nat) (p : parse A) : parse (list A) :=
  match n with
  | O => mret []
  | S n' => a ← p; l ← repeat_read n' p; mret (a :: l)
  end.

Definition read_vector (H : type_heap) (context : option types_context) (limit : Z)
    : parse (list turbowasm_validation_value_type) :=
  size ← decode (turbowasm_reader_uleb32 buf);
  n ← remaining;
  _ ← check (size >? n) TURBOWASM_MALFORMED_MODULE;
  _ ← check (match context with
             | None => false
             | Some _ => negb (size =? 0) &&
                         negb (calloc_ok size && calloc_ok (size * sizeof_value_type))
             end) TURBOWASM_OUT_OF_MEMORY;
  repeat_read (Z.to_nat size) (read_value H context limit).

Definition read_field (H : type_heap) (context : option types_context) (limit : Z)
    : parse turbowasm_validation_field :=
  n ← remaining;
  _ ← check (n =? 0) TURBOWASM_MALFORMED_MODULE;
  first ← peek buf;
  tb ← (if (first =? 0x78) || (first =? 0x77) then
          _ ← seek 1;
          mret (turbowasm_validation_value_type_legacy 0x7f, if first =? 0x78 then 8 else 16)
        else v ← read_value H context limit; mret (v, 0));
  mutability ← decode (turbowasm_reader_u8 buf);
  _ ← check (mutability >? 1) TURBOWASM_MALFORMED_MODULE;
  mret (mk_field (fst tb) (snd tb) (negb (mutability =? 0))).

(** The prefix of a definition that says whether it is final and names its
    supertype; the result is [final_type], [super_index] and the next form byte. *)
Definition read_sub_prefix (index : Z) : parse (bool * Z * Z) :=
  form ← decode (turbowasm_reader_u8 buf);
  if (form =? 0x4f) || (form =? 0x50) then
    super_count ← decode (turbowasm_reader_uleb32 buf);
    _ ← check (super_count >? 1) TURBOWASM_MALFORMED_MODULE;
    sup ← (if super_count =? 0 then mret UINT32_MAX
           else s ← decode (turbowasm_reader_uleb32 buf);
                _ ← check (s >=? index) TURBOWASM_MALFORMED_MODULE; mret s);
    form' ← decode (turbowasm_reader_u8 buf);
    mret (form =? 0x4f, sup, form')
  else mret (true, UINT32_MAX, form).

(** What follows the form byte: kind, parameters, results and fields. *)
Definition read_body (H : type_heap) (context : option types_context) (form limit : Z)
    : parse (turbowasm_validation_type_kind * list turbowasm_validation_value_type *
             list turbowasm_validation_value_type * list turbowasm_validation_field) :=
  if form =? 0x60 then
    ps ← read_vector H context limit;
    rs ← read_vector H context limit;
    mret (TYPE_FUNCTION, ps, rs, [])
  else if (form =? 0x5f) || (form =? 0x5e) then
    count ← (if form =? 0x5f then decode (turbowasm_reader_uleb32 buf) else mret 1);
    n ← remaining;
    _ ← check (count >? n / 2) TURBOWASM_MALFORMED_MODULE;
    _ ← check (match context with
               | None => false
               | Some _ => negb (count =? 0) && negb (calloc_ok (count * sizeof_field))
               end) TURBOWASM_OUT_OF_MEMORY;
    fs ← repeat_read (Z.to_nat count) (read_field H context limit);
    mret (if form =? 0x5f then TYPE_STRUCT else TYPE_ARRAY, [], [], fs)
  else fail TURBOWASM_MALFORMED_MODULE.

Definition read_definition (H : type_heap) (context : option types_context)
    (index group_start group_count : Z) : parse turbowasm_validation_func_type :=
  prefix ← read_sub_prefix index;
  let '(final, sup, form) := prefix in
  body ← read_body H context form (u32 (group_start + group_count));
  let '(kind, ps, rs, fs) := body in
  let at_ i := match context with
               | None => None
               | Some c => Some (types_base c + Z.to_nat i)%nat
               end in
  mret (mk_func_type true (map carrier ps) ps (map carrier rs) rs kind fs final sup
          (if sup =? UINT32_MAX then None else at_ sup) (at_ group_start) group_count
          (index - group_start) 0 (at_ index)).

Definition write_type (H : type_heap) (context : option types_context) (index : Z)
    (t : turbowasm_validation_func_type) : type_heap :=
  match context with
  | None => H
  | Some c => <[(types_base c + Z.to_nat index)%nat := t]> H
  end.

Fixpoint read_members (n : nat) (H : type_heap) (context : option types_context)
    (index group_start group_count : Z) : parse type_heap :=
  match n with
  | O => mret H
  | S n' =>
      t ← read_definition H context index group_start group_count;
      read_members n' (write_type H context index t) context (index + 1) group_start group_count
  end.

Fixpoint read_group_list (n : nat) (H : type_heap) (context : option types_context) (total : Z)
    : parse (type_heap * Z) :=
  match n with
  | O => mret (H, total)
  | S n' =>
      rest ← remaining;
      _ ← check (rest =? 0) TURBOWASM_MALFORMED_MODULE;
      first ← peek buf;
      count ← (if first =? 0x4e then _ ← seek 1; decode (turbowasm_reader_uleb32 buf) else mret 1);
      rest ← remaining;
      _ ← check ((count >? UINT32_MAX - total) || (count >? rest)) TURBOWASM_MALFORMED_MODULE;
      H' ← read_members (Z.to_nat count) H context total total count;
      read_group_list n' H' context (total + count)
  end.

Definition read_groups (H : type_heap) (context : option types_context) : parse (type_heap * Z) :=
  groups ← decode (turbowasm_reader_uleb32 buf);
  out ← read_group_list (Z.to_nat groups) H context 0;
  rest ← remaining;
  _ ← check (negb (rest =? 0)) TURBOWASM_MALFORMED_MODULE;
  mret out.

End Readers.
(** ** Finalization *)

Definition TURBOWASM_TYPE_DEPENDENCY_LIMIT : Z := 256.

Definition turbowasm_validation_bind_value (H : type_heap) (c : types_context)
    (value : turbowasm_validation_value_type) : option turbowasm_validation_value_type :=
  if bool_decide (heap_kind value = HEAP_TYPE_INDEX) then
    if negb (is_reference value) || (type_index value >=? type_count c) then None
    else
      let d := (types_base c + Z.to_nat (type_index value))%nat in
      match H !! d with
      | None => None
      | Some t =>
          Some (mk_value_type (if bool_decide (type_kind t = TYPE_FUNCTION) then 0x70 else 0x6e)
                  (is_reference value) (nullable value) HEAP_TYPE_INDEX (type_index value) (Some d))
      end
  else Some (mk_value_type (carrier value) (is_reference value) (nullable value) (heap_kind value)
               (type_index value) None).

Definition bind_field (H : type_heap) (c : types_context) (f : turbowasm_validation_field)
    : option turbowasm_validation_field :=
  v ← turbowasm_validation_bind_value H c (field_type f);
  Some (mk_field v (packed_bits f) (mutable_value f)).

(** One step of the first loop: the type with its references bound. *)
Definition bind_type (H : type_heap) (c : types_context) (i : Z) (t : turbowasm_validation_func_type)
    : option turbowasm_validation_func_type :=
  if (group_offset t >? i) || (group_count t <=? group_offset t) ||
     (group_count t >? type_count c - (i - group_offset t)) then None
  else
    ps ← mapM (turbowasm_validation_bind_value H c) (param_semantics t);
    rs ← mapM (turbowasm_validation_bind_value H c) (result_semantics t);
    fs ← mapM (bind_field H c) (fields t);
    Some (mk_func_type (defined t) (map carrier ps) ps (map carrier rs) rs (type_kind t) fs
            (final_type t) (super_index t) (super t) (group t) (group_count t) (group_offset t)
            (dependency_depth t) (canonical t)).

Fixpoint bind_types (n : nat) (i : Z) (H : type_heap) (c : types_context)
    : option (type_heap * types_context) :=
  match n with
  | O => Some (H, c)
  | S n' =>
      let p := (types_base c + Z.to_nat i)%nat in
      t ← H !! p;
      let c' := mk_types (types_base c) (type_count c)
                  (requires_store c || negb (bool_decide (type_kind t = TYPE_FUNCTION))) in
      t' ← bind_type H c i t;
      bind_types n' (i + 1) (<[p := t']> H) c'
  end.

(** The depth after looking at a reference to a type of index [index]. *)
Definition depth_after (H : type_heap) (i index : Z) (definition : option nat) (depth : Z) : Z :=
  match definition with
  | Some d =>
      match H !! d with
      | Some t => if (index <? i) && (depth <=? dependency_depth t) then u32 (dependency_depth t + 1) else depth
      | None => depth
      end
  | None => depth
  end.

Fixpoint values_depth (H : type_heap) (i count : Z) (vs : list turbowasm_validation_value_type)
    (depth : Z) : option Z :=
  match vs with
  | [] => Some depth
  | v :: vs' =>
      if bool_decide (definition v <> None) && (type_index v >=? i + count) then None
      else values_depth H i count vs' (depth_after H i (type_index v) (definition v) depth)
  end.

(** The loop over the members of the group of [count] types at [i]; [j] is the
    member's offset. *)
Fixpoint members_depth (n : nat) (H : type_heap) (c : types_context) (i count j depth : Z) : option Z :=
  match n with
  | O => Some depth
  | S n' =>
      t ← H !! (types_base c + Z.to_nat (i + j))%nat;
      if negb (bool_decide (group t = Some (types_base c + Z.to_nat i)%nat)) ||
         negb (group_offset t =? j) || negb (group_count t =? count) then None
      else
        let depth := depth_after H i (super_index t) (super t) depth in
        depth ← values_depth H i count (values_of t) depth;
        members_depth n' H c i count (j + 1) depth
  end.

Definition with_depth (depth : Z) (t : turbowasm_validation_func_type) : turbowasm_validation_func_type :=
  mk_func_type (defined t) (params t) (param_semantics t) (results t) (result_semantics t) (type_kind t)
    (fields t) (final_type t) (super_index t) (super t) (group t) (group_count t) (group_offset t)
    depth (canonical t).

Fixpoint check_bodies (n : nat) (H : type_heap) (c : types_context) (i depth : Z) : option type_heap :=
  match n with
  | O => Some H
  | S n' =>
      let p := (types_base c + Z.to_nat i)%nat in
      t ← H !! p;
      let H' := <[p := with_depth depth t]> H in
      if subtype_body H' (with_depth depth t) then check_bodies n' H' c (i + 1) depth else None
  end.

(** The second loop; every round handles at least one type, so [type_count]
    rounds are enough. *)
Fixpoint check_groups (fuel : nat) (i : Z) (H : type_heap) (c : types_context)
    : turbowasm_status * type_heap :=
  if i >=? type_count c then (TURBOWASM_OK, H)
  else match fuel, H !! (types_base c + Z.to_nat i)%nat with
  | S fuel', Some t =>
      let count := group_count t in
      if (count =? 0) || (count >? type_count c - i) then (TURBOWASM_MALFORMED_MODULE, H)
      else match members_depth (Z.to_nat count) H c i count 0 1 with
      | None => (TURBOWASM_MALFORMED_MODULE, H)
      | Some depth =>
          if depth >? TURBOWASM_TYPE_DEPENDENCY_LIMIT then (TURBOWASM_OUT_OF_MEMORY, H)
          else match check_bodies (Z.to_nat count) H c i depth with
               | None => (TURBOWASM_MALFORMED_MODULE, H)
               | Some H' => check_groups fuel' (i + count) H' c
               end
      end
  | _, _ => (TURBOWASM_MALFORMED_MODULE, H)
  end.

Definition turbowasm_validation_types_finalize (H : type_heap) (c : types_context)
    : turbowasm_status * type_heap * types_context :=
  match bind_types (Z.to_nat (type_count c)) 0 H c with
  | None => (TURBOWASM_MALFORMED_MODULE, H, c)
  | Some (H', c') =>
      let '(status, H'') := check_groups (Z.to_nat (type_count c)) 0 H' c' in (status, H'', c')
  end.

(** ** The type section *)

(** Fails when the context already has types. *)
Definition turbowasm_validation_context_allocate_types (calloc_ok : Z -> bool) (H : type_heap)
    (c : types_context) (count : Z) : option (type_heap * types_context) :=
  if negb (type_count c =? 0) then None
  else if count =? 0 then Some (H, c)
  else if count * sizeof_func_type >? UINT64_MAX then None
  else if negb (calloc_ok (count * sizeof_func_type)) then None
  else Some (H ++ replicate (Z.to_nat count) zero_func_type,
             mk_types (length H) count (requires_store c)).

(** The last components are [summary->type_count] and the section's reader. *)
Definition turbowasm_validate_composite_types (buf : list Z) (calloc_ok : Z -> bool)
    (section : turbowasm_reader) (H : type_heap) (c : types_context)
    : turbowasm_status * type_heap * types_context * option Z * turbowasm_reader :=
  match read_groups buf calloc_ok H None section with
  | (inl status, _) => (status, H, c, None, section)
  | (inr (_, count), _) =>
      match turbowasm_validation_context_allocate_types calloc_ok H c count with
      | None => (TURBOWASM_OUT_OF_MEMORY, H, c, None, section)
      | Some (H1, c1) =>
          match read_groups buf calloc_ok H1 (Some c1) section with
          | (inl status, r) => (status, H1, c1, None, r)
          | (inr (H2, count2), r) =>
              let '(status, H3, c3) := turbowasm_validation_types_finalize H2 c1 in
              (status, H3, c3, Some count2, r)
          end
      end
  end.

(** ** Reasoning about readers *)

(** [yields m Q]: whatever [m] returns satisfies [Q]. *)
Definition yields {A} (m : parse A) (Q : A -> Prop) : Prop := forall r a r', m r = (inr a, r') -> Q a.

Lemma yields_bind {A B} (m : parse A) (k : A -> parse B) P Q :
  yields m P -> (forall a, P a -> yields (k a) Q) -> yields (m ≫= k) Q.
Proof.
  intros Hm Hk r b r' E. unfold mbind, parse_bind in E. destruct (m r) as [[st|a] r1] eqn:E1; [discriminate|].
  eapply Hk; [by eapply Hm|exact E].
Qed.

Lemma yields_ret {A} (a : A) (Q : A -> Prop) : Q a -> yields (mret a) Q.
Proof. intros Ha r b r' [= <- <-]. exact Ha. Qed.

Lemma yields_fail {A} st (Q : A -> Prop) : yields (fail st) Q.
Proof. intros r a r' E. discriminate. Qed.

Lemma yields_any {A} (m : parse A) : yields m (fun _ => True).
Proof. done. Qed.

Lemma yields_check bad st : yields (check bad st) (fun _ => bad = false).
Proof. unfold check. destruct bad; [apply yields_fail|by apply yields_ret]. Qed.

Lemma yields_repeat {A} n (p : parse A) Q : yields p Q -> yields (repeat_read n p) (Forall Q).
Proof.
  intros Hp. induction n as [|n IH]; simpl; [by apply yields_ret|].
  eapply yields_bind; [exact Hp|]. intros a Ha. eapply yields_bind; [exact IH|]. intros l Hl.
  apply yields_ret. by constructor.
Qed.

(** [agree m m' R]: when both readers return, they have read the same bytes, and
    their results are related. *)
Definition agree {A B} (m : parse A) (m' : parse B) (R : A -> B -> Prop) : Prop :=
  forall r a r1 b r2, m r = (inr a, r1) -> m' r = (inr b, r2) -> r1 = r2 /\ R a b.

Lemma agree_bind {A A' B B'} (m : parse A) (m' : parse A') (k : A -> parse B) (k' : A' -> parse B') R Q :
  agree m m' R -> (forall a b, R a b -> agree (k a) (k' b) Q) -> agree (m ≫= k) (m' ≫= k') Q.
Proof.
  intros Hm Hk r b r1 b' r2 E E'. unfold mbind, parse_bind in E, E'.
  destruct (m r) as [[st|a] ra] eqn:E1; [discriminate|].
  destruct (m' r) as [[st|a'] ra'] eqn:E2; [discriminate|].
  destruct (Hm _ _ _ _ _ E1 E2) as [<- Haa]. eapply Hk; eauto.
Qed.

Lemma agree_refl {A} (m : parse A) : agree m m eq.
Proof. intros r a r1 b r2 E E'. rewrite E in E'. by simplify_eq. Qed.

Lemma agree_ret {A B} (a : A) (b : B) (R : A -> B -> Prop) : R a b -> agree (mret a) (mret b) R.
Proof. intros HR r x r1 y r2 E E'. unfold mret, parse_ret in *. simplify_eq. done. Qed.

Lemma agree_check b b' st st' : agree (check b st) (check b' st') (fun _ _ => b = false /\ b' = false).
Proof. destruct b, b'; intros r x r1 y r2 E E'; try discriminate. unfold check, mret, parse_ret in *. by simplify_eq. Qed.

Lemma agree_repeat {A B} n (p : parse A) (p' : parse B) R :
  agree p p' R -> agree (repeat_read n p) (repeat_read n p') (Forall2 R).
Proof.
  intros Hp. induction n as [|n IH]; simpl; [by apply agree_ret|].
  eapply agree_bind; [exact Hp|]. intros a b Hab. eapply agree_bind; [exact IH|]. intros l l' Hl.
  apply agree_ret. by constructor.
Qed.

Lemma agree_fail_l {A B} st (m : parse B) (R : A -> B -> Prop) : agree (fail st) m R.
Proof. intros r a r1 b r2 E. discriminate. Qed.

(** *** What the readers return *)

(** A value type as it is read: its index is not bound yet. *)
Definition value_raw (v : turbowasm_validation_value_type) : Prop :=
  if is_reference v then
    if decide (heap_kind v = HEAP_TYPE_INDEX) then 0 <= type_index v
    else heap_carrier (heap_kind v) = Some (carrier v)
  else heap_kind v = HEAP_NONE /\ numeric_carrier (carrier v) = true.

Ltac yields_step :=
  match goal with
  | |- yields (mret _) _ => apply yields_ret
  | |- yields (fail _) _ => apply yields_fail
  | |- yields (check _ _ ≫= _) _ => eapply yields_bind; [apply yields_check|intros ? ?]
  | |- yields (mbind _ _) _ => eapply yields_bind; [apply yields_any|intros ? _]
  end.

Definition reference_carrier (c : Z) : bool := (c =? 0x70) || (c =? 0x6f) || (c =? 0x69) || (c =? 0x6e).

Lemma legacy_raw c : numeric_carrier c || reference_carrier c = true ->
  value_raw (turbowasm_validation_value_type_legacy c).
Proof.
  intros Hc. unfold turbowasm_validation_value_type_legacy, reference_carrier in *.
  repeat match goal with
  | |- value_raw (if c =? ?k then _ else _) => destruct (Z.eqb_spec c k) as [E|]; [by rewrite E|]
  end.
  split; [reflexivity|]. simpl. by destruct (numeric_carrier c).
Qed.

Section Reading.
Context (buf : list Z) (calloc_ok : Z -> bool).

Lemma read_heaptype_raw H c n : yields (turbowasm_validation_read_heaptype buf H c n) value_raw.
Proof.
  unfold turbowasm_validation_read_heaptype. yields_step. destruct (Z.geb_spec a 0).
  - yields_step. destruct c as [c|]; [yields_step|]; yields_step; unfold value_raw; simpl; lia.
  - cbn [switch]. repeat (case_match; [by yields_step|]). yields_step.
Qed.

Lemma read_reftype_raw H c : yields (turbowasm_validation_read_reftype buf H c) (fun x => value_raw x.1).
Proof.
  unfold turbowasm_validation_read_reftype. yields_step. case_match.
  { yields_step. apply legacy_raw, orb_true_iff. right. unfold reference_carrier.
    match goal with E : _ = true |- _ => by rewrite E end. }
  case_match.
  - yields_step. eapply yields_bind; [apply read_heaptype_raw|]. intros v Hv. by yields_step.
  - yields_step. eapply yields_bind; [apply read_heaptype_raw|]. intros v Hv. by yields_step.
Qed.

(** The byte read is the byte peeked at. *)
Lemma yields_peeked {A} (p : Z -> bool) (k : Z -> parse A) (m : parse A) Q :
  (forall b, p b = true -> yields (k b) Q) -> yields m Q ->
  yields (first ← peek buf; if p first then b ← decode (turbowasm_reader_u8 buf); k b else m) Q.
Proof.
  intros Hk Hm r a r'. unfold mbind at 1, parse_bind at 1, peek. destruct (p _) eqn:Ep; [|apply Hm].
  unfold mbind, parse_bind, decode, turbowasm_reader_u8. destruct (_ <? 1); [done|].
  destruct (cursor r); [|done]. simpl in *. by apply Hk.
Qed.

Lemma read_valtype_raw H c : yields (turbowasm_validation_read_valtype buf H c) (fun x => value_raw x.1).
Proof.
  unfold turbowasm_validation_read_valtype. do 2 yields_step.
  apply (yields_peeked numeric_carrier); [|apply read_reftype_raw]. intros b Hb. yields_step.
  apply legacy_raw. by rewrite Hb.
Qed.

Lemma read_value_raw H c limit : yields (read_value buf H c limit) value_raw.
Proof.
  unfold read_value. eapply (yields_bind _ _ (fun x => value_raw x.1)); [|intros tg Htg; yields_step; by yields_step].
  apply read_valtype_raw.
Qed.

Lemma read_vector_raw H c limit : yields (read_vector buf calloc_ok H c limit) (Forall value_raw).
Proof. unfold read_vector. do 4 yields_step. apply yields_repeat, read_value_raw. Qed.

Lemma read_field_raw H c limit : yields (read_field buf H c limit) (fun f => value_raw (field_type f)).
Proof.
  unfold read_field. do 3 yields_step. eapply (yields_bind _ _ (fun x => value_raw x.1)).
  - case_match; [yields_step; yields_step; by apply legacy_raw|].
    eapply yields_bind; [apply read_value_raw|]. intros v Hv. by yields_step.
  - intros [v b] Hv. do 2 yields_step. by yields_step.
Qed.

Lemma read_body_raw H c form limit : yields (read_body buf calloc_ok H c form limit)
  (fun '(_, ps, rs, fs) => Forall value_raw ps /\ Forall value_raw rs /\
                           Forall (fun f => value_raw (field_type f)) fs).
Proof.
  unfold read_body. case_match.
  - eapply yields_bind; [apply read_vector_raw|]. intros ps Hps.
    eapply yields_bind; [apply read_vector_raw|]. intros rs Hrs. by yields_step.
  - case_match; [|apply yields_fail]. do 4 yields_step.
    eapply yields_bind; [apply yields_repeat, read_field_raw|]. intros fs Hfs. by yields_step.
Qed.

Lemma read_sub_prefix_raw index : yields (read_sub_prefix buf index)
  (fun '(_, sup, _) => sup = UINT32_MAX \/ 0 <= sup < index).
Proof.
  unfold read_sub_prefix. yields_step. case_match; [|yields_step; by left]. do 2 yields_step.
  eapply (yields_bind _ _ (fun sup => sup = UINT32_MAX \/ 0 <= sup < index)).
  - case_match; [yields_step; by left|].
    eapply (yields_bind _ _ (fun s => 0 <= s)).
    + intros r v r' E. unfold decode in E. destruct (turbowasm_reader_uleb32 buf r) as [[u|] ru] eqn:Eu; [|done].
      injection E as <- <-. apply (uleb32_range _ _ _ _ Eu).
    + intros s Hs. eapply yields_bind; [apply yields_check|]. intros u Hge. rewrite Z.geb_leb, Z.leb_gt in Hge.
      yields_step. right. lia.
  - intros sup Hsup. yields_step. by yields_step.
Qed.

(** A definition as it is read into place [i] of the array at [b]. *)
Record raw_type (b : nat) (i : Z) (t : turbowasm_validation_func_type) : Prop := {
  rt_defined : defined t = true;
  rt_values : Forall value_raw (values_of t);
  rt_super : super t = None \/ exists s, 0 <= s < i /\ super_index t = s /\ super t = Some (b + Z.to_nat s)%nat;
  rt_canonical : canonical t = Some (b + Z.to_nat i)%nat;
  rt_count : 0 <= group_count t
}.

Lemma read_definition_raw H c index gs gc : 0 <= gc ->
  yields (read_definition buf calloc_ok H (Some c) index gs gc) (raw_type (types_base c) index).
Proof.
  intros Hgc. unfold read_definition. eapply yields_bind; [apply read_sub_prefix_raw|]. intros [[final sup] form] Hsup.
  eapply yields_bind; [apply read_body_raw|]. intros [[[kind ps] rs] fs] (Hps & Hrs & Hfs).
  yields_step. split; cbn -[Z.eqb].
  - done.
  - unfold values_of. cbn. rewrite !Forall_app. split_and!; try done. by apply Forall_fmap.
  - destruct (Z.eqb_spec sup UINT32_MAX); [by left|]. right. exists sup. split_and!; try done; destruct Hsup; lia.
  - done.
  - done.
Qed.

(** The array from [i] to [i + n] holds raw definitions. *)
Definition raw_range (b : nat) (H : type_heap) (i n : Z) : Prop :=
  forall j, i <= j < i + n -> (b + Z.to_nat j < length H)%nat ->
    exists t, H !! (b + Z.to_nat j)%nat = Some t /\ raw_type b j t.

Lemma raw_range_app b H i n m : raw_range b H i n -> raw_range b H (i + n) m -> 0 <= n -> raw_range b H i (n + m).
Proof.
  intros H1 H2 Hn j Hj. destruct (decide (j < i + n)); [apply H1; lia|apply H2; lia].
Qed.

Lemma read_members_raw c gs gc n : 0 <= gc -> forall H index, 0 <= index ->
  yields (read_members buf calloc_ok n H (Some c) index gs gc) (fun H' =>
    length H' = length H /\ (forall p, (p < types_base c + Z.to_nat index)%nat -> H' !! p = H !! p) /\
    raw_range (types_base c) H' index (Z.of_nat n)).
Proof.
  intros Hgc. induction n as [|n IH]; intros H index Hi; cbn [read_members].
  - yields_step. split_and!; try done. intros j Hj. lia.
  - eapply yields_bind; [by apply read_definition_raw|]. intros t Ht r H' r' E.
    destruct (IH _ (index + 1) ltac:(lia) _ _ _ E) as (Hlen & Hsame & Hraw).
    cbn [write_type] in *. rewrite length_insert in Hlen. split_and!; [done| |].
    + intros p Hp. rewrite Hsame by lia. by rewrite list_lookup_insert_ne by lia.
    + replace (Z.of_nat (S n)) with (1 + Z.of_nat n) by lia. apply raw_range_app; [|done|lia].
      intros j Hj Hb. assert (j = index) as -> by lia. exists t. split; [|done].
      rewrite Hsame by lia. apply list_lookup_insert_eq. lia.
Qed.

Lemma read_group_list_raw c n : forall H total, 0 <= total ->
  raw_range (types_base c) H 0 total ->
  yields (read_group_list buf calloc_ok n H (Some c) total) (fun x =>
    length x.1 = length H /\ total <= x.2 /\ raw_range (types_base c) x.1 0 x.2 /\
    forall p, (p < types_base c)%nat -> x.1 !! p = H !! p).
Proof.
  induction n as [|n IH]; intros H total Ht Hraw; cbn [read_group_list].
  - yields_step. done.
  - do 3 yields_step.
    eapply (yields_bind _ _ (fun count => 0 <= count)).
    { case_match; [|yields_step; lia]. yields_step. intros r v r' E. unfold decode in E.
      destruct (turbowasm_reader_uleb32 buf r) as [[u|] ru] eqn:Eu; [|done].
      injection E as <- <-. apply (uleb32_range _ _ _ _ Eu). }
    intros count Hc. do 2 yields_step. eapply yields_bind; [by apply read_members_raw|].
    intros H' (Hlen & Hsame & Hr) r x r' E. rewrite Z2Nat.id in Hr by done.
    apply IH in E; [|lia|].
    + destruct E as (E1 & E2 & E3 & E4). split_and!; try done; [lia|lia|].
      intros p Hp. rewrite E4 by done. apply Hsame. lia.
    + apply raw_range_app; [|done|done]. intros j Hj Hb. rewrite Hlen in Hb.
      destruct (Hraw j Hj Hb) as (t & Hjt & Hrt). exists t. split; [|done]. rewrite Hsame by lia. done.
Qed.

Lemma read_groups_raw H c : yields (read_groups buf calloc_ok H (Some c)) (fun x =>
  length x.1 = length H /\ raw_range (types_base c) x.1 0 x.2 /\
  forall p, (p < types_base c)%nat -> x.1 !! p = H !! p).
Proof.
  unfold read_groups. yields_step. eapply yields_bind; [apply read_group_list_raw; [lia|]|].
  { intros j Hj. lia. }
  intros x (H1 & H2 & H3 & H4). do 2 yields_step. by yields_step.
Qed.

(** *** The scan and the second pass read the same *)

Definition same_index (v w : turbowasm_validation_value_type) : Prop :=
  heap_kind v = heap_kind w /\ type_index v = type_index w.

Ltac agree_step :=
  match goal with
  | |- agree (mret _) (mret _) _ => apply agree_ret
  | |- agree (fail _) _ _ => apply agree_fail_l
  | |- agree (check _ _ ≫= _) _ _ => eapply agree_bind; [apply agree_check|intros ? ? ?]
  | |- agree (mbind _ ?m) (mbind _ ?m) _ => eapply agree_bind; [apply agree_refl|intros ? ? <-]
  end.

Lemma read_heaptype_agree H H' c n :
  agree (turbowasm_validation_read_heaptype buf H None n)
        (turbowasm_validation_read_heaptype buf H' (Some c) n) same_index.
Proof.
  unfold turbowasm_validation_read_heaptype. agree_step. destruct (a >=? 0).
  - agree_step. intros r x r1 y r2 E E'. unfold mbind, parse_bind, check, mret, parse_ret, fail in *.
    destruct (a >=? type_count c); [done|]. simplify_eq. done.
  - intros r x r1 y r2 E E'. rewrite E in E'. by simplify_eq.
Qed.

Lemma read_valtype_agree H H' c :
  agree (turbowasm_validation_read_valtype buf H None) (turbowasm_validation_read_valtype buf H' (Some c))
    (fun x y => same_index x.1 y.1).
Proof.
  unfold turbowasm_validation_read_valtype, turbowasm_validation_read_reftype. do 3 agree_step.
  case_match; [agree_step; by agree_step|]. agree_step. case_match; [by agree_step|]. case_match.
  - agree_step. eapply agree_bind; [apply read_heaptype_agree|]. intros v w Hvw. by agree_step.
  - agree_step. eapply agree_bind; [apply read_heaptype_agree|]. intros v w Hvw. by agree_step.
Qed.

Lemma read_value_agree H H' c limit :
  agree (read_value buf H None limit) (read_value buf H' (Some c) limit) (fun _ _ => True).
Proof.
  unfold read_value. eapply agree_bind; [apply read_valtype_agree|]. intros x y _. agree_step. by agree_step.
Qed.

Lemma read_vector_agree H H' c limit :
  agree (read_vector buf calloc_ok H None limit) (read_vector buf calloc_ok H' (Some c) limit) (fun _ _ => True).
Proof.
  unfold read_vector. do 4 agree_step. intros r x r1 y r2 E E'.
  destruct (agree_repeat _ _ _ _ (read_value_agree H H' c limit) _ _ _ _ _ E E'). done.
Qed.

Lemma read_field_agree H H' c limit :
  agree (read_field buf H None limit) (read_field buf H' (Some c) limit) (fun _ _ => True).
Proof.
  unfold read_field. do 3 agree_step. eapply (agree_bind _ _ _ _ (fun _ _ => True)).
  - case_match; [agree_step; by agree_step|]. eapply agree_bind; [apply read_value_agree|]. intros; by agree_step.
  - intros x y _. do 2 agree_step. by agree_step.
Qed.

Lemma read_definition_agree H H' c index gs gc :
  agree (read_definition buf calloc_ok H None index gs gc)
        (read_definition buf calloc_ok H' (Some c) index gs gc) (fun _ _ => True).
Proof.
  unfold read_definition. agree_step. destruct a as [[final sup] form].
  eapply (agree_bind _ _ _ _ (fun _ _ => True)).
  - unfold read_body. case_match.
    + eapply agree_bind; [apply read_vector_agree|]. intros ps ps' _.
      eapply agree_bind; [apply read_vector_agree|]. intros rs rs' _. by agree_step.
    + case_match; [|agree_step]. do 4 agree_step.
      eapply agree_bind; [apply agree_repeat, read_field_agree|]. intros fs fs' _. by agree_step.
  - intros [[[k ps] rs] fs] [[[k' ps'] rs'] fs'] _. by agree_step.
Qed.

Lemma read_members_agree c gs gc n : forall H H' index,
  agree (read_members buf calloc_ok n H None index gs gc)
        (read_members buf calloc_ok n H' (Some c) index gs gc) (fun _ _ => True).
Proof.
  induction n as [|n IH]; intros H H' index; cbn [read_members]; [by agree_step|].
  eapply agree_bind; [apply read_definition_agree|]. intros t t' _. apply IH.
Qed.

Lemma read_groups_agree H H' c :
  agree (read_groups buf calloc_ok H None) (read_groups buf calloc_ok H' (Some c)) (fun x y => x.2 = y.2).
Proof.
  unfold read_groups. agree_step. eapply (agree_bind _ _ _ _ (fun x y => x.2 = y.2)).
  - generalize 0 as total. generalize (Z.to_nat a) as n. intros n. revert H H'.
    induction n as [|n IH]; intros H H' total; cbn [read_group_list]; [by agree_step|].
    do 6 agree_step. eapply agree_bind; [apply read_members_agree|]. intros G G' _. apply IH.
  - intros x y Hxy. do 2 agree_step. by agree_step.
Qed.

Lemma read_groups_count H c : yields (read_groups buf calloc_ok H c) (fun x => 0 <= x.2 <= UINT32_MAX).
Proof.
  unfold read_groups. yields_step. eapply (yields_bind _ _ (fun x => 0 <= x.2 <= UINT32_MAX)).
  2: { intros x Hx. do 2 yields_step. by yields_step. }
  assert (Hl : forall n H total, 0 <= total <= UINT32_MAX -> yields (read_group_list buf calloc_ok n H c total) (fun x => 0 <= x.2 <= UINT32_MAX)).
  2: { apply Hl. unfold UINT32_MAX. lia. }
  induction n as [|n IH]; intros G total Ht; cbn [read_group_list]; [by yields_step|].
  do 3 yields_step. eapply (yields_bind _ _ (fun count => 0 <= count)).
  { case_match; [|yields_step; lia]. yields_step. intros r v r' E. unfold decode in E.
    destruct (turbowasm_reader_uleb32 buf r) as [[u|] ru] eqn:Eu; [|done].
    injection E as <- <-. apply (uleb32_range _ _ _ _ Eu). }
  intros count Hc. yields_step. eapply yields_bind; [apply yields_check|]. intros u Hck.
  apply orb_false_iff in Hck as [Hck _]. rewrite Z.gtb_ltb, Z.ltb_ge in Hck. yields_step. apply IH. lia.
Qed.

(** *** An early return is never OK *)

Definition strict {A} (m : parse A) : Prop := forall r st r', m r = (inl st, r') -> st <> TURBOWASM_OK.

Lemma strict_bind {A B} (m : parse A) (k : A -> parse B) : strict m -> (forall a, strict (k a)) -> strict (m ≫= k).
Proof.
  intros Hm Hk r st r' E. unfold mbind, parse_bind in E. destruct (m r) as [[st'|a] r1] eqn:E1; [|by eapply Hk].
  injection E as <- <-. by eapply Hm.
Qed.

Lemma strict_ret {A} (a : A) : strict (mret a).
Proof. done. Qed.
Lemma strict_fail {A} st : st <> TURBOWASM_OK -> strict (@fail A st).
Proof. by intros Hst r st' r' [= <- <-]. Qed.
Lemma strict_check b st : st <> TURBOWASM_OK -> strict (check b st).
Proof. intros Hst. unfold check. destruct b; [by apply strict_fail|apply strict_ret]. Qed.
Lemma strict_decode {A} (d : turbowasm_reader -> option A * turbowasm_reader) : strict (decode d).
Proof. intros r st r' E. unfold decode in E. by destruct (d r) as [[a|] r1]; simplify_eq. Qed.
Lemma strict_remaining : strict remaining.
Proof. done. Qed.
Lemma strict_peek : strict (peek buf).
Proof. done. Qed.
Lemma strict_seek n : strict (seek n).
Proof. done. Qed.
Lemma strict_repeat {A} n (p : parse A) : strict p -> strict (repeat_read n p).
Proof.
  intros Hp. induction n as [|n IH]; simpl; [apply strict_ret|].
  apply strict_bind; [done|]. intros a. apply strict_bind; [done|]. intros l. apply strict_ret.
Qed.

Ltac strict_tac :=
  repeat first
    [ apply strict_bind; [|intros ?] | apply strict_ret | apply strict_decode | by apply strict_fail
    | by apply strict_check | apply strict_repeat
    | apply strict_remaining | apply strict_peek | apply strict_seek
    | progress cbv zeta | progress cbn [switch]
    | match goal with
      | |- strict (if ?b then _ else _) => destruct b
      | |- strict (match ?x with _ => _ end) => destruct x
      end ].

Lemma strict_read_value H c limit : strict (read_value buf H c limit).
Proof.
  unfold read_value, turbowasm_validation_read_valtype, turbowasm_validation_read_reftype,
    turbowasm_validation_read_heaptype. cbn [switch]. strict_tac.
Qed.

Lemma strict_read_definition H c index gs gc : strict (read_definition buf calloc_ok H c index gs gc).
Proof.
  unfold read_definition, read_sub_prefix, read_body, read_vector, read_field.
  strict_tac; apply strict_read_value.
Qed.

Lemma strict_read_groups H c : strict (read_groups buf calloc_ok H c).
Proof.
  assert (Hm : forall gs gc n H index, strict (read_members buf calloc_ok n H c index gs gc)).
  { intros gs gc. induction n as [|n IH]; intros G index; cbn [read_members]; [apply strict_ret|].
    apply strict_bind; [apply strict_read_definition|]. intros t. apply IH. }
  assert (Hg : forall n H total, strict (read_group_list buf calloc_ok n H c total)).
  { induction n as [|n IH]; intros G total; cbn [read_group_list]; strict_tac; [apply Hm|apply IH]. }
  unfold read_groups. strict_tac. apply Hg.
Qed.

End Reading.

(** ** Comparisons do not look at dependency depths *)

Definition strip (H : type_heap) : type_heap := map (with_depth 0) H.

Lemma strip_lookup H p : strip H !! p = with_depth 0 <$> H !! p.
Proof. apply list_lookup_fmap. Qed.

Lemma strip_length H : length (strip H) = length H.
Proof. apply length_map. Qed.

Lemma strip_insert H p t d : H !! p = Some t -> strip (<[p := with_depth d t]> H) = strip H.
Proof.
  intros Hp. apply list_eq. intros q. rewrite !strip_lookup.
  destruct (decide (p = q)) as [<-|Hne]; [|by rewrite list_lookup_insert_ne].
  rewrite list_lookup_insert_eq by (by eapply lookup_lt_Some). by rewrite Hp.
Qed.

Lemma forallb2_ext {A B} (f g : A -> B -> bool) l k :
  (forall a b, f a b = g a b) -> forallb2 f l k = forallb2 g l k.
Proof. intros E. revert k. induction l as [|a l IH]; intros [|b k]; simpl; [done..|]. by rewrite E, IH. Qed.

Lemma forallb_ext_in {A} (f g : A -> bool) l :
  (forall a, In a l -> f a = g a) -> forallb f l = forallb g l.
Proof. induction l as [|a l IH]; simpl; intros E; [done|]. rewrite E, IH; auto. Qed.

Section Strip.
Context (H : type_heap).

Lemma strip_value_equal_in f h lg rg v w : (forall x y, f x y = h x y) ->
  group_value_equal (strip H) f lg rg v w = group_value_equal H h lg rg v w.
Proof.
  intros E. unfold group_value_equal, group_reference_equal.
  destruct (definition v) as [l|], (definition w) as [r|]; try done. rewrite !strip_lookup.
  destruct (H !! l), (H !! r); try done. simpl. by rewrite E.
Qed.

Lemma strip_member_equal f h lg rg a b : (forall x y, f x y = h x y) ->
  member_equal (strip H) f lg rg (with_depth 0 a) (with_depth 0 b) = member_equal H h lg rg a b.
Proof.
  intros E. unfold member_equal. apply (f_equal2 andb); [apply (f_equal2 andb); [apply (f_equal2 andb); [apply (f_equal2 andb); [done|]|]|]|].
  - unfold group_reference_equal. cbn [super with_depth]. destruct (super a) as [l|], (super b) as [r|]; try done. rewrite !strip_lookup.
    destruct (H !! l), (H !! r); try done. simpl. by rewrite E.
  - apply forallb2_ext. intros. by apply strip_value_equal_in.
  - apply forallb2_ext. intros. by apply strip_value_equal_in.
  - apply forallb2_ext. intros x y. unfold group_field_equal. by rewrite (strip_value_equal_in f h).
Qed.

Lemma strip_type_equal n : forall l r, type_equal_fuel (strip H) n l r = type_equal_fuel H n l r.
Proof.
  induction n as [|n IH]; intros l r; [done|]. cbn [type_equal_fuel].
  destruct l as [l|], r as [r|]; try done. rewrite !strip_lookup.
  destruct (H !! l) as [lt|], (H !! r) as [rt|]; try done. cbn -[members_equal].
  repeat case_match; try done. unfold members_equal. apply forallb_ext_in. intros i _.
  rewrite !strip_lookup. destruct (H !! (_ + i)%nat), (H !! (_ + i)%nat); try done. by apply strip_member_equal.
Qed.

Lemma strip_defined_equal l r :
  turbowasm_validation_defined_type_equal (strip H) l r = turbowasm_validation_defined_type_equal H l r.
Proof. unfold turbowasm_validation_defined_type_equal. rewrite strip_length. apply strip_type_equal. Qed.

Lemma strip_defined_matches l r :
  turbowasm_validation_defined_type_matches (strip H) l r = turbowasm_validation_defined_type_matches H l r.
Proof.
  unfold turbowasm_validation_defined_type_matches. rewrite strip_length. generalize (S (length H)) as n.
  intros n. revert l. induction n as [|n IH]; intros [l|]; try done. cbn [type_matches_fuel].
  rewrite strip_defined_equal, strip_lookup. destruct (H !! l); [|done]. simpl. by rewrite IH.
Qed.

Lemma strip_value_equal v w :
  turbowasm_validation_value_type_equal (strip H) v w = turbowasm_validation_value_type_equal H v w.
Proof. unfold turbowasm_validation_value_type_equal. by rewrite strip_defined_equal. Qed.

Lemma strip_value_matches v w :
  turbowasm_validation_value_type_matches (strip H) v w = turbowasm_validation_value_type_matches H v w.
Proof.
  unfold turbowasm_validation_value_type_matches. rewrite strip_value_equal, strip_defined_matches.
  destruct (definition v) as [d|]; [|done]. rewrite strip_lookup. by destruct (H !! d).
Qed.

Lemma strip_subtype_body d t : subtype_body (strip H) (with_depth d t) = subtype_body H t.
Proof.
  unfold subtype_body. cbn [super with_depth]. destruct (super t) as [s|]; [|done].
  rewrite strip_lookup. destruct (H !! s) as [u|]; [|done]. cbn [fmap option_fmap option_map].
  assert (Hif : forall b x y : bool, x = y -> (if b then false else x) = (if b then false else y))
    by (by intros [] x y ->).
  apply Hif.
  apply (f_equal2 andb); [apply (f_equal2 andb)|].
  - apply forallb2_ext, strip_value_matches.
  - apply forallb2_ext, strip_value_matches.
  - apply forallb2_ext. intros a b. unfold subtype_field. by rewrite strip_value_equal, strip_value_matches.
Qed.

Lemma strip_value_bound v : value_bound (strip H) v <-> value_bound H v.
Proof.
  unfold value_bound. destruct (is_reference v); [|done]. case_decide; [|done]. split.
  - intros (d & t & Hd & Ht & Hc). rewrite strip_lookup in Ht. destruct (H !! d) as [u|] eqn:Hu; [|done].
    injection Ht as <-. by exists d, u.
  - intros (d & t & Hd & Ht & Hc). exists d, (with_depth 0 t). by rewrite strip_lookup, Ht.
Qed.

Lemma strip_group_at g n : group_at (strip H) g n -> group_at H g n.
Proof.
  intros Hg i Hi. destruct (Hg i Hi) as (u & Hu & Hug). rewrite strip_lookup in Hu.
  destruct (H !! _) as [v|]; [|done]. injection Hu as <-. by exists v.
Qed.

Lemma strip_type_wf p t : type_wf (strip H) p (with_depth 0 t) -> type_wf H p t.
Proof.
  intros [E1 E2 E3 (g & Hg & Ho & Hp & Hat & Hv) E5 E6]. split; try done.
  - exists g. split_and!; try done; try apply Ho. by apply strip_group_at.
  - intros v Hin. by apply strip_value_bound, E5.
Qed.

Lemma strip_bodies : bodies_ok (strip H) -> bodies_ok H.
Proof.
  intros Hb p t Hp. rewrite <- (strip_subtype_body 0). apply (Hb p). by rewrite strip_lookup, Hp.
Qed.

End Strip.

(** ** What the first loop of the finalization leaves

    The statements are about a context whose array starts the heap. *)

Definition value_linked (N : Z) (H : type_heap) (v : turbowasm_validation_value_type) : Prop :=
  value_bound H v /\
  (definition v = None \/ (0 <= type_index v < N /\ definition v = Some (Z.to_nat (type_index v)))).

Record linked_type (N : Z) (H : type_heap) (i : Z) (t : turbowasm_validation_func_type) : Prop := {
  lk_defined : defined t = true;
  lk_params : params t = map carrier (param_semantics t);
  lk_results : results t = map carrier (result_semantics t);
  lk_values : Forall (value_linked N H) (values_of t);
  lk_super : super t = None \/ exists s, 0 <= s < i /\ super_index t = s /\ super t = Some (Z.to_nat s);
  lk_canonical : canonical t = Some (Z.to_nat i);
  lk_count : 0 <= group_count t
}.

Definition same_kinds (H K : type_heap) : Prop := forall p, type_kind <$> H !! p = type_kind <$> K !! p.

Lemma same_kinds_insert H p t t' : H !! p = Some t -> type_kind t' = type_kind t -> same_kinds H (<[p := t']> H).
Proof.
  intros Hp Hk q. destruct (decide (p = q)) as [<-|Hne]; [|by rewrite list_lookup_insert_ne].
  rewrite list_lookup_insert_eq by (by eapply lookup_lt_Some). by rewrite Hp; simpl; rewrite Hk.
Qed.

Lemma value_linked_kinds N H K v : same_kinds H K -> value_linked N H v -> value_linked N K v.
Proof.
  intros HK [Hb Hd]. split; [|done]. unfold value_bound in *. destruct (is_reference v); [|done].
  case_decide; [|done]. destruct Hb as (d & t & Ed & Et & Ec). specialize (HK d). rewrite Et in HK.
  destruct (K !! d) as [u|] eqn:Eu; [|done]. exists d, u. injection HK as HK. by rewrite <- HK.
Qed.

Lemma bind_value_linked H c v v' : types_base c = 0%nat -> value_raw v ->
  turbowasm_validation_bind_value H c v = Some v' -> value_linked (type_count c) H v'.
Proof.
  intros Hb Hr. unfold turbowasm_validation_bind_value, value_raw in *. case_bool_decide as Hk.
  - destruct (is_reference v) eqn:Href; [|done]. rewrite decide_True in Hr by done. simpl.
    destruct (Z.geb_spec (type_index v) (type_count c)); [done|]. rewrite Hb. simpl.
    destruct (H !! Z.to_nat (type_index v)) as [t|] eqn:Ht; [|done]. intros [= <-]. split; [|right; simpl; split; [lia|done]].
    unfold value_bound. simpl. exists (Z.to_nat (type_index v)), t. split_and!; try done.
    case_bool_decide; [by rewrite decide_True|by rewrite decide_False].
  - intros [= <-]. split; [|by left]. unfold value_bound. simpl. destruct (is_reference v); [|done].
    rewrite decide_False in * by done. done.
Qed.

Lemma mapM_Forall {A B} (f : A -> option B) (P : A -> Prop) (Q : B -> Prop) l k :
  (forall a b, P a -> f a = Some b -> Q b) -> Forall P l -> mapM f l = Some k -> Forall Q k.
Proof.
  intros Hf Hl. revert k. induction Hl as [|a l Ha Hl IH]; intros k; simpl; [by intros [= <-]|].
  destruct (f a) as [b|] eqn:Eb; [|done]. simpl. destruct (mapM f l) as [k'|]; [|done]. simpl.
  intros [= <-]. constructor; [by eapply Hf|by apply IH].
Qed.

Lemma bind_type_linked H c i t t' : types_base c = 0%nat -> raw_type 0 i t ->
  bind_type H c i t = Some t' ->
  linked_type (type_count c) H i t' /\ type_kind t' = type_kind t.
Proof.
  intros Hb [R1 R2 R3 R4 R5] E. unfold bind_type in E. destruct (_ || _); [done|].
  unfold values_of in R2. rewrite !Forall_app, Forall_fmap in R2. destruct R2 as (Rp & Rr & Rf).
  apply bind_Some in E as (ps & Eps & E). apply bind_Some in E as (rs & Ers & E). apply bind_Some in E as (fs & Efs & E).
  injection E as <-. split; [|done]. split; try done. unfold values_of. simpl. rewrite !Forall_app, Forall_fmap.
  split_and!.
  - eapply mapM_Forall; [|exact Rp|exact Eps]. intros v w. by apply bind_value_linked.
  - eapply mapM_Forall; [|exact Rr|exact Ers]. intros v w. by apply bind_value_linked.
  - eapply mapM_Forall; [|exact Rf|exact Efs]. intros x y Hx E. unfold bind_field in E.
    apply bind_Some in E as (v & Ev & [= <-]). simpl. by eapply bind_value_linked.
Qed.

Lemma linked_kinds N H K i t : same_kinds H K -> linked_type N H i t -> linked_type N K i t.
Proof.
  intros HK [L1 L2 L3 L4 L5 L6 L7]. split; try done. eapply Forall_impl; [exact L4|].
  intros v. by apply value_linked_kinds.
Qed.

Lemma bind_types_linked n : forall i H c H' c', types_base c = 0%nat -> 0 <= i ->
  (forall j, i <= j < i + Z.of_nat n -> exists t, H !! Z.to_nat j = Some t /\ raw_type 0 j t) ->
  bind_types n i H c = Some (H', c') ->
  types_base c' = 0%nat /\ type_count c' = type_count c /\ length H' = length H /\ same_kinds H H' /\
  (forall p, (p < Z.to_nat i)%nat -> H' !! p = H !! p) /\
  forall j, i <= j < i + Z.of_nat n -> exists t, H' !! Z.to_nat j = Some t /\ linked_type (type_count c) H' j t.
Proof.
  induction n as [|n IH]; intros i H c H' c' Hb Hi Hraw E.
  - injection E as <- <-. split_and!; try done. intros j Hj. lia.
  - cbn [bind_types] in E. rewrite Hb in E. simpl in E.
    destruct (Hraw i ltac:(lia)) as (t & Ht & Hrt). rewrite Ht in E. cbn [mbind option_bind] in E.
    destruct (bind_type H c i t) as [t'|] eqn:Et; [|done]. cbn [mbind option_bind] in E.
    destruct (bind_type_linked _ _ _ _ _ Hb Hrt Et) as [Hl Hk].
    pose proof (same_kinds_insert H _ t t' Ht Hk) as HK.
    apply IH in E as (E1 & E2 & E3 & E4 & E5 & E6); [|done|lia|].
    + rewrite length_insert in E3. split_and!; try done.
      * intros q. by rewrite (HK q), (E4 q).
      * intros p Hp. rewrite E5 by lia. by rewrite list_lookup_insert_ne by lia.
      * intros j Hj. destruct (decide (j = i)) as [->|Hne]; [|apply E6; lia].
        exists t'. split.
        -- rewrite E5 by lia. apply list_lookup_insert_eq. by eapply lookup_lt_Some.
        -- eapply linked_kinds; [|exact Hl]. intros q. by rewrite (HK q), (E4 q).
    + intros j Hj. destruct (Hraw j ltac:(lia)) as (u & Hu & Hru). exists u. split; [|done].
      rewrite list_lookup_insert_ne by lia. done.
Qed.

(** ** What the second loop checks *)

(** The references of a definition, with their indices. *)
Definition refs_of (t : turbowasm_validation_func_type) : list (Z * option nat) :=
  (super_index t, super t) :: map (fun v => (type_index v, definition v)) (values_of t).

Definition refs_ok (t : turbowasm_validation_func_type) : Prop :=
  forall x p, x ∈ refs_of t -> snd x = Some p -> 0 <= fst x /\ p = Z.to_nat (fst x).

Definition depth_of (H : type_heap) (p : nat) : Z :=
  match H !! p with Some t => dependency_depth t | None => 0 end.

Definition depths_ok (H : type_heap) (i : Z) : Prop :=
  forall p, (p < Z.to_nat i)%nat -> 0 <= depth_of H p <= TURBOWASM_TYPE_DEPENDENCY_LIMIT.

(** Every reference of [t] to a type before [i] is less deep than [D]. *)
Definition refs_below (H : type_heap) (i : Z) (l : list (Z * option nat)) (D : Z) : Prop :=
  forall x p, x ∈ l -> fst x < i -> snd x = Some p -> depth_of H p < D.

Lemma refs_below_weaken H i l D D' : refs_below H i l D -> D <= D' -> refs_below H i l D'.
Proof. intros Hr HD x p Hx Hi Hp. specialize (Hr x p Hx Hi Hp). lia. Qed.

Lemma depth_after_spec H i x depth : depths_ok H i -> 1 <= depth ->
  (forall p, snd x = Some p -> 0 <= fst x /\ p = Z.to_nat (fst x)) ->
  depth <= depth_after H i (fst x) (snd x) depth /\
  refs_below H i [x] (depth_after H i (fst x) (snd x) depth).
Proof.
  intros Hd H1 Hx. destruct x as [idx [p|]]; simpl in *.
  - destruct (Hx p eq_refl) as [Hi ->]. unfold refs_below.
    assert (Hlt : idx < i -> 0 <= depth_of H (Z.to_nat idx) <= TURBOWASM_TYPE_DEPENDENCY_LIMIT)
      by (intros; apply Hd; lia).
    assert (depth <= match H !! Z.to_nat idx with
      | Some t => if (idx <? i) && (depth <=? dependency_depth t) then u32 (dependency_depth t + 1) else depth
      | None => depth end /\ (idx < i -> depth_of H (Z.to_nat idx) < match H !! Z.to_nat idx with
      | Some t => if (idx <? i) && (depth <=? dependency_depth t) then u32 (dependency_depth t + 1) else depth
      | None => depth end)) as [E1 E2].
    { unfold depth_of, TURBOWASM_TYPE_DEPENDENCY_LIMIT in *. destruct (H !! Z.to_nat idx) as [t|]; [|lia].
      destruct (Z.ltb_spec idx i); simpl; [|lia]. destruct (Z.leb_spec depth (dependency_depth t)); [|lia].
      rewrite wrap_id; [lia|]. specialize (Hlt ltac:(lia)). split; [lia|]. change (2 ^ 32) with 4294967296. lia. }
    split; [done|]. intros x q Hin Hlt' Hs. apply list_elem_of_singleton in Hin as ->. simpl in *.
    injection Hs as <-. auto.
  - split; [lia|]. intros x q Hin _ Hs. apply list_elem_of_singleton in Hin as ->. done.
Qed.

Lemma values_depth_spec H i count vs : forall depth D, depths_ok H i -> 1 <= depth ->
  (forall v p, v ∈ vs -> definition v = Some p -> 0 <= type_index v /\ p = Z.to_nat (type_index v)) ->
  values_depth H i count vs depth = Some D ->
  depth <= D /\ refs_below H i (map (fun v => (type_index v, definition v)) vs) D /\
  forall v p, v ∈ vs -> definition v = Some p -> type_index v < i + count.
Proof.
  induction vs as [|v vs IH]; intros depth D Hd H1 Hok E; cbn [values_depth] in E.
  - injection E as <-. split_and!; [lia| |]; intros x p Hx; by apply not_elem_of_nil in Hx.
  - destruct (bool_decide (definition v <> None) && (type_index v >=? i + count)) eqn:Eb; [done|].
    destruct (depth_after_spec H i (type_index v, definition v) depth) as [G1 G2]; [done..| |].
    { intros p Hp. apply (Hok v p); [by left|done]. }
    simpl in G1, G2. apply IH in E as (E1 & E2 & E3); [|done|lia|].
    + split_and!; [lia| |].
      * intros x p Hx Hi Hp. apply elem_of_cons in Hx as [->|Hx]; [|by eapply E2].
        assert (depth_of H p < depth_after H i (type_index v) (definition v) depth); [|lia].
        eapply (G2 _ p); [by apply list_elem_of_singleton|done..].
      * intros w p Hw Hp. apply elem_of_cons in Hw as [->|Hw]; [|by eapply E3].
        rewrite Hp in Eb. rewrite bool_decide_eq_true_2 in Eb by done. simpl in Eb.
        rewrite Z.geb_leb, Z.leb_gt in Eb. lia.
    + intros w p Hw. apply Hok. by right.
Qed.

(** A member of the group of [count] types at [i], at place [k]. *)
Record member_ok (H : type_heap) (i count k D : Z) (u : turbowasm_validation_func_type) : Prop := {
  mo_group : group u = Some (Z.to_nat i);
  mo_offset : group_offset u = k;
  mo_count : group_count u = count;
  mo_values : forall v p, v ∈ values_of u -> definition v = Some p -> type_index v < i + count;
  mo_refs : refs_below H i (refs_of u) D
}.

Lemma members_depth_spec c i count n : forall H j depth D, types_base c = 0%nat -> depths_ok H i -> 1 <= depth ->
  (forall p u, H !! p = Some u -> refs_ok u) ->
  members_depth n H c i count j depth = Some D ->
  depth <= D /\ forall k, j <= k < j + Z.of_nat n -> exists u, H !! Z.to_nat (i + k) = Some u /\ member_ok H i count k D u.
Proof.
  induction n as [|n IH]; intros H j depth D Hb Hd H1 Hok E.
  - injection E as <-. split; [lia|]. intros k Hk. lia.
  - cbn [members_depth] in E. rewrite Hb in E. simpl in E.
    destruct (H !! Z.to_nat (i + j)) as [t|] eqn:Ht; [|done]. cbn [mbind option_bind] in E.
    destruct (_ || _) eqn:Ebad; [done|]. apply orb_false_iff in Ebad as [[E1 E2]%orb_false_iff E3].
    apply negb_false_iff in E1, E2, E3. apply bool_decide_eq_true in E1. apply Z.eqb_eq in E2, E3.
    destruct (depth_after_spec H i (super_index t, super t) depth) as [G1 G2]; [done..| |].
    { intros p Hp. apply (Hok _ _ Ht (super_index t, super t) p); [by left|done]. }
    simpl in G1, G2. destruct (values_depth H i count (values_of t) _) as [D1|] eqn:Ev; [|done].
    cbn [mbind option_bind] in E.
    apply values_depth_spec in Ev as (V1 & V2 & V3); [|done|lia|].
    + apply IH in E as (F1 & F2); [|done|done|lia|done]. split; [lia|]. intros k Hk.
      destruct (decide (k = j)) as [->|Hne]; [|apply F2; lia]. exists t. split; [done|]. split; try done.
      intros x p Hx Hi Hp. unfold refs_of in Hx. apply elem_of_cons in Hx as [->|Hx].
      * assert (depth_of H p < depth_after H i (super_index t) (super t) depth); [|lia].
        eapply (G2 _ p); [by apply list_elem_of_singleton|done..].
      * assert (depth_of H p < D1); [|lia]. by eapply V2.
    + intros v p Hv Hp. apply (Hok _ _ Ht (type_index v, definition v) p); [|done].
      right. apply list_elem_of_In, in_map_iff. exists v. split; [done|]. by apply list_elem_of_In.
Qed.

Lemma check_bodies_spec c depth n : forall H i H', types_base c = 0%nat -> 0 <= i ->
  check_bodies n H c i depth = Some H' ->
  length H' = length H /\ strip H' = strip H /\
  (forall p, (p < Z.to_nat i)%nat -> H' !! p = H !! p) /\
  (forall p, (Z.to_nat i + n <= p)%nat -> H' !! p = H !! p) /\
  forall k, i <= k < i + Z.of_nat n -> exists t, H !! Z.to_nat k = Some t /\
    H' !! Z.to_nat k = Some (with_depth depth t) /\ subtype_body (strip H) (with_depth 0 t) = true.
Proof.
  induction n as [|n IH]; intros H i H' Hb Hi E.
  - injection E as <-. split_and!; try done. intros k Hk. lia.
  - cbn [check_bodies] in E. rewrite Hb in E. simpl in E.
    destruct (H !! Z.to_nat i) as [t|] eqn:Ht; [|done]. cbn [mbind option_bind] in E.
    destruct (subtype_body _ _) eqn:Es; [|done]. apply IH in E as (E1 & E2 & E3 & E4 & E5); [|done|lia].
    rewrite length_insert in E1. rewrite strip_insert in E2 by done. split_and!; try done.
    + intros p Hp. rewrite E3 by lia. by rewrite list_lookup_insert_ne by lia.
    + intros p Hp. rewrite E4 by lia. by rewrite list_lookup_insert_ne by lia.
    + intros k Hk. destruct (decide (k = i)) as [->|Hne].
      * exists t. split_and!; [done| |].
        -- rewrite E3 by lia. apply list_lookup_insert_eq. by eapply lookup_lt_Some.
        -- rewrite strip_subtype_body. rewrite <- Es. rewrite <- (strip_subtype_body _ 0 (with_depth _ _)).
           rewrite strip_insert by done. rewrite <- (strip_subtype_body H 0 t). done.
      * destruct (E5 k ltac:(lia)) as (u & Hu & Hu' & Hsb). rewrite list_lookup_insert_ne in Hu by lia.
        rewrite strip_insert in Hsb by done. by exists u.
Qed.

Definition group_checked (H : type_heap) (g n D : Z) : Prop :=
  1 <= D <= TURBOWASM_TYPE_DEPENDENCY_LIMIT /\
  forall k, 0 <= k < n -> exists u, H !! Z.to_nat (g + k) = Some u /\ member_ok H g n k D u /\
    dependency_depth u = D /\ subtype_body (strip H) (with_depth 0 u) = true.

Lemma refs_with_depth d t : refs_of (with_depth d t) = refs_of t.
Proof. done. Qed.

(** Membership only depends on the types before the group. *)
Lemma member_ok_frame H H' i count k D d u : 0 <= i -> refs_ok u ->
  (forall p, (p < Z.to_nat i)%nat -> H' !! p = H !! p) ->
  member_ok H i count k D u -> member_ok H' i count k D (with_depth d u).
Proof.
  intros Hi Hok Hs [M1 M2 M3 M4 M5]. split; try done. intros x p Hx Hlt Hp.
  rewrite refs_with_depth in Hx. destruct (Hok x p Hx Hp) as [H0 ->].
  unfold depth_of. rewrite Hs by lia. by apply (M5 x).
Qed.

Lemma strip_lookup_inv H H' p t : strip H' = strip H -> H' !! p = Some t ->
  exists u d, H !! p = Some u /\ t = with_depth d u.
Proof.
  intros E Ht. assert (Hl : strip H' !! p = strip H !! p) by (by rewrite E). rewrite !strip_lookup, Ht in Hl.
  destruct (H !! p) as [u|]; [|done]. exists u, (dependency_depth t).
  split; [done|]. destruct t, u; unfold with_depth in *; simpl in *.
  injection Hl; intros; subst; reflexivity.
Qed.

Lemma check_groups_spec c fuel : types_base c = 0%nat -> forall i H H', 0 <= i -> depths_ok H i ->
  (forall p u, H !! p = Some u -> refs_ok u /\ 0 <= group_count u) ->
  check_groups fuel i H c = (TURBOWASM_OK, H') ->
  strip H' = strip H /\ (forall p, (p < Z.to_nat i)%nat -> H' !! p = H !! p) /\
  forall j, i <= j < type_count c -> exists g n D, g <= j < g + n /\ i <= g /\ g + n <= type_count c /\
    group_checked H' g n D.
Proof.
  intros Hb. induction fuel as [|fuel IH]; intros i H H' Hi Hd Hok E.
  - cbn [check_groups] in E. destruct (Z.geb_spec i (type_count c)); [|done]. injection E as <-.
    split_and!; try done. intros j Hj. lia.
  - cbn [check_groups] in E. destruct (Z.geb_spec i (type_count c)).
    { injection E as <-. split_and!; try done. intros j Hj. lia. }
    rewrite Hb in E. simpl in E. destruct (H !! Z.to_nat i) as [t|] eqn:Ht; [|done].
    destruct (Hok _ _ Ht) as [_ Hc0]. set (count := group_count t) in *.
    destruct (Z.eqb_spec count 0); [done|]. destruct (Z.gtb_spec count (type_count c - i)); [done|]. simpl in E.
    destruct (members_depth _ _ _ _ _ _ _) as [D|] eqn:Em; [|done].
    apply members_depth_spec in Em as (HD & Hm); [|done|done|lia|by apply Hok].
    destruct (Z.gtb_spec D TURBOWASM_TYPE_DEPENDENCY_LIMIT) as [|HDl]; [done|].
    destruct (check_bodies _ _ _ _ _) as [K|] eqn:Ec; [|done].
    apply check_bodies_spec in Ec as (C1 & C2 & C3 & C4 & C5); [|done|lia].
    rewrite Z2Nat.id in Hm, C5 by lia.
    assert (Hnew : forall k, 0 <= k < count -> depth_of K (Z.to_nat (i + k)) = D).
    { intros k Hk. destruct (C5 (i + k) ltac:(lia)) as (u & _ & Hu & _). unfold depth_of. by rewrite Hu. }
    apply IH in E as (E1 & E2 & E3); [|lia| |].
    + split_and!.
      * by rewrite E1, C2.
      * intros p Hp. by rewrite E2, C3 by lia.
      * intros j Hj. destruct (decide (j < i + count)) as [Hlt|Hge].
        2: { destruct (E3 j ltac:(lia)) as (g & n' & D' & G1 & G2 & G3 & G4). exists g, n', D'.
             split_and!; try done; lia. }
        exists i, count, D. split; [lia|]. split; [lia|]. split; [lia|]. split; [lia|]. intros k Hk.
        destruct (C5 (i + k) ltac:(lia)) as (u & Hu & Hu' & Hsb), (Hm k ltac:(lia)) as (u2 & Hu2 & Hmo).
        rewrite Hu in Hu2. injection Hu2 as <-. exists (with_depth D u). split_and!.
        -- by rewrite E2 by lia.
        -- apply (member_ok_frame H); [lia|by apply (Hok _ _ Hu)| |done]. intros p Hp. by rewrite E2, C3 by lia.
        -- done.
        -- rewrite E1, C2. exact Hsb.
    + intros p Hp. destruct (decide (p < Z.to_nat i)%nat).
      * unfold depth_of. rewrite C3 by done. by apply Hd.
      * replace p with (Z.to_nat (i + (Z.of_nat p - i))) by lia. rewrite Hnew by lia. lia.
    + intros p u Hu. destruct (strip_lookup_inv H K p u C2 Hu) as (w & d & Hw & ->). apply (Hok _ _ Hw).
Qed.

(** ** The checked type section *)

(** Dependency depths bound the recursion of the comparison: every reference out
    of a group leads to a less deep type. *)
Record depth_wf (H : type_heap) : Prop := {
  dw_range : forall p t, H !! p = Some t -> 1 <= dependency_depth t <= TURBOWASM_TYPE_DEPENDENCY_LIMIT;
  dw_group : forall p q t u, H !! p = Some t -> H !! q = Some u -> group t = group u ->
    dependency_depth t = dependency_depth u;
  dw_refs : forall p t d u, H !! p = Some t -> (super t = Some d \/ exists v, v ∈ values_of t /\ definition v = Some d) ->
    H !! d = Some u -> group u <> group t -> dependency_depth u < dependency_depth t
}.

Lemma linked_refs_ok N H i t : linked_type N H i t -> refs_ok t.
Proof.
  intros [L1 L2 L3 L4 L5 L6 L7] x p Hx Hp. apply elem_of_cons in Hx as [->|Hx].
  - simpl in *. destruct L5 as [E|(s & Hs & Hsi & E)]; [congruence|]. rewrite E in Hp. injection Hp as <-.
    rewrite Hsi. split; [lia|done].
  - apply list_elem_of_In, in_map_iff in Hx as (v & <- & Hv%list_elem_of_In). simpl in *.
    rewrite Forall_forall in L4. destruct (L4 v Hv) as [_ [E|[Hr E]]]; [congruence|]. rewrite E in Hp.
    injection Hp as <-. split; [lia|done].
Qed.

Lemma strip_same_kinds H H' : strip H' = strip H -> same_kinds H H'.
Proof.
  intros E p. assert (Hl : strip H' !! p = strip H !! p) by (by rewrite E). rewrite !strip_lookup in Hl.
  destruct (H !! p), (H' !! p); simpl in *; try done. injection Hl; intros. congruence.
Qed.

Section Checked.
Context (N : Z) (K H' : type_heap).
Context (Hlen : Z.of_nat (length H') = N) (Hs : strip H' = strip K).
Context (Hlk : forall j, 0 <= j < N -> exists t, K !! Z.to_nat j = Some t /\ linked_type N K j t).
Context (Hgr : forall j, 0 <= j < N -> exists g n D, g <= j < g + n /\ 0 <= g /\ g + n <= N /\ group_checked H' g n D).

(** The group of a type, and all that is known of it. *)
Lemma checked_info p t : H' !! p = Some t -> exists g n D, g <= Z.of_nat p < g + n /\ 0 <= g /\ g + n <= N /\
  group_checked H' g n D /\ member_ok H' g n (Z.of_nat p - g) D t /\ dependency_depth t = D /\
  subtype_body (strip H') (with_depth 0 t) = true /\ linked_type N H' (Z.of_nat p) t.
Proof.
  intros Hp. pose proof (lookup_lt_Some _ _ _ Hp). destruct (Hgr (Z.of_nat p) ltac:(lia)) as (g & n & D & G1 & G2 & G3 & G4).
  exists g, n, D. pose proof G4 as [_ Hm]. destruct (Hm (Z.of_nat p - g) ltac:(lia)) as (u & Hu & M1 & M2 & M3).
  replace (Z.to_nat (g + (Z.of_nat p - g))) with p in Hu by lia. rewrite Hp in Hu. injection Hu as <-.
  split_and!; try done; try lia. destruct (Hlk (Z.of_nat p) ltac:(lia)) as (w & Hw & Hl). rewrite Nat2Z.id in Hw.
  destruct (strip_lookup_inv K H' p t Hs Hp) as (w' & d & Hw' & ->). rewrite Hw in Hw'. injection Hw' as <-.
  apply (linked_kinds N K H') in Hl; [|by apply strip_same_kinds]. by destruct Hl; split.
Qed.

(** A pointer in a type is the index that comes with it. *)
Lemma checked_index p t g n D d : member_ok H' g n (Z.of_nat p - g) D t -> linked_type N H' (Z.of_nat p) t ->
  g <= Z.of_nat p < g + n -> 0 <= g ->
  (super t = Some d \/ exists v, v ∈ values_of t /\ definition v = Some d) ->
  exists x, x ∈ refs_of t /\ snd x = Some d /\ 0 <= fst x < g + n /\ d = Z.to_nat (fst x).
Proof.
  intros Hmo Hl Hg Hg0 Hd. pose proof (linked_refs_ok _ _ _ _ Hl) as Hok.
  destruct Hd as [Hsup|(v & Hv & Hd)].
  - exists (super_index t, super t). assert (Hin : (super_index t, super t) ∈ refs_of t) by (by left).
    destruct (Hok _ d Hin Hsup) as [H0 Hd]. split_and!; try done.
    destruct (lk_super _ _ _ _ Hl) as [E|(s & Hs1 & Hs2 & _)]; [congruence|]. simpl. lia.
  - exists (type_index v, definition v). assert (Hin : (type_index v, definition v) ∈ refs_of t).
    { right. apply list_elem_of_In, in_map_iff. exists v. split; [done|]. by apply list_elem_of_In. }
    destruct (Hok _ d Hin Hd) as [H0 Hd']. split_and!; try done. by eapply (mo_values _ _ _ _ _ _ Hmo).
Qed.

Lemma checked_heap_wf : heap_wf H'.
Proof.
  split.
  - intros p t Hp. destruct (checked_info p t Hp) as (g & n & D & G1 & G2 & G3 & G4 & G5 & G6 & G7 & G8). split.
    + apply G8.
    + apply (lk_params _ _ _ _ G8).
    + apply (lk_results _ _ _ _ G8).
    + exists (Z.to_nat g). rewrite (mo_group _ _ _ _ _ _ G5), (mo_offset _ _ _ _ _ _ G5), (mo_count _ _ _ _ _ _ G5).
      split_and!; [done|lia|lia|lia| |].
      * intros i Hi. destruct G4 as [_ Hm]. destruct (Hm i Hi) as (u & Hu & [M1 M2 M3 _ _] & _).
        exists u. split_and!; try done. by replace (Z.to_nat g + Z.to_nat i)%nat with (Z.to_nat (g + i)) by lia.
      * intros v d Hv Hd. destruct (checked_index p t g n D d G5 G8 G1 G2) as (x & _ & _ & Hx & ->); [eauto|lia].
    + intros v Hv. pose proof (lk_values _ _ _ _ G8) as Hf. rewrite Forall_forall in Hf. apply (Hf v Hv).
    + intros q Hq. destruct (lk_super _ _ _ _ G8) as [E|(s & Hs1 & _ & E)]; [congruence|]. rewrite E in Hq.
      injection Hq as <-. lia.
  - intros p t q Hp Hq. destruct (checked_info p t Hp) as (g & n & D & _ & _ & _ & _ & _ & _ & _ & G8).
    rewrite (lk_canonical _ _ _ _ G8), Nat2Z.id in Hq. injection Hq as <-. split; [by eexists|done].
Qed.

Lemma checked_bodies : bodies_ok H'.
Proof.
  apply strip_bodies. intros p t Hp. rewrite strip_lookup in Hp. destruct (H' !! p) as [u|] eqn:Hu; [|done].
  injection Hp as <-. by destruct (checked_info p u Hu) as (g & n & D & _ & _ & _ & _ & _ & _ & G7 & _).
Qed.

Lemma checked_depth : depth_wf H'.
Proof.
  split.
  - intros p t Hp. destruct (checked_info p t Hp) as (g & n & D & _ & _ & _ & [HD _] & _ & <- & _). done.
  - intros p q t u Hp Hq Hg. destruct (checked_info p t Hp) as (g & n & D & G1 & G2 & _ & G4 & G5 & -> & _).
    destruct (checked_info q u Hq) as (g' & n' & D' & F1 & F2 & _ & F4 & F5 & -> & _).
    rewrite (mo_group _ _ _ _ _ _ G5), (mo_group _ _ _ _ _ _ F5) in Hg. assert (g' = g) as -> by (injection Hg; lia).
    destruct G4 as [_ Gm], F4 as [_ Fm]. destruct (Gm 0 ltac:(lia)) as (a & Ha & _ & <- & _), (Fm 0 ltac:(lia)) as (b & Hb & _ & <- & _).
    congruence.
  - intros p t d u Hp Hd Hu Hne. destruct (checked_info p t Hp) as (g & n & D & G1 & G2 & _ & G4 & G5 & -> & _ & G8).
    destruct (checked_index p t g n D d G5 G8 G1 G2 Hd) as (x & Hx & Hxs & Hr & Ed).
    destruct (decide (fst x < g)) as [Hlt|Hge].
    + pose proof (mo_refs _ _ _ _ _ _ G5 x d Hx Hlt Hxs) as Hdep. unfold depth_of in Hdep. by rewrite Hu in Hdep.
    + destruct G4 as [_ Gm]. destruct (Gm (fst x - g) ltac:(lia)) as (w & Hw & Hwo & _).
      replace (Z.to_nat (g + (fst x - g))) with d in Hw by (rewrite Ed; lia). rewrite Hu in Hw. injection Hw as <-.
      destruct Hne. by rewrite (mo_group _ _ _ _ _ _ G5), (mo_group _ _ _ _ _ _ Hwo).
Qed.

End Checked.

Lemma finalize_spec H c H' c' : types_base c = 0%nat -> Z.of_nat (length H) = type_count c ->
  (forall j, 0 <= j < type_count c -> exists t, H !! Z.to_nat j = Some t /\ raw_type 0 j t) ->
  turbowasm_validation_types_finalize H c = (TURBOWASM_OK, H', c') ->
  heap_wf H' /\ bodies_ok H' /\ depth_wf H' /\ Z.of_nat (length H') = type_count c' /\ type_count c' = type_count c /\
  types_base c' = 0%nat.
Proof.
  intros Hb Hlen Hraw E. unfold turbowasm_validation_types_finalize in E.
  destruct (bind_types _ _ _ _) as [[K c1]|] eqn:Eb; [|done].
  assert (Hn : Z.of_nat (Z.to_nat (type_count c)) = type_count c) by lia.
  apply bind_types_linked in Eb as (B1 & B2 & B3 & _ & _ & B6); [|done|lia|].
  2: { intros j Hj. apply Hraw. lia. }
  rewrite Hn in B6. destruct (check_groups _ _ _ _) as [st K'] eqn:Ec. injection E as -> <- <-.
  assert (Hl : forall p u, K !! p = Some u -> linked_type (type_count c) K (Z.of_nat p) u).
  { intros p u Hu. pose proof (lookup_lt_Some _ _ _ Hu). destruct (B6 (Z.of_nat p) ltac:(lia)) as (w & Hw & Hlw).
    rewrite Nat2Z.id, Hu in Hw. by injection Hw as <-. }
  apply check_groups_spec in Ec as (C1 & _ & C3); [|done|lia| |].
  2: { intros p Hp. lia. }
  2: { intros p u Hu. split; [by eapply linked_refs_ok, Hl|by apply (lk_count _ _ _ _ (Hl _ _ Hu))]. }
  assert (Hlen' : Z.of_nat (length K') = type_count c).
  { rewrite <- strip_length, C1, strip_length, B3. done. }
  rewrite B2 in C3. replace (0 + type_count c) with (type_count c) in B6 by lia.
  assert (Hgr : forall j, 0 <= j < type_count c -> exists g n D, g <= j < g + n /\ 0 <= g /\ g + n <= type_count c /\
    group_checked K' g n D) by (intros j Hj; apply C3; lia).
  split_and!.
  - by eapply checked_heap_wf.
  - by eapply checked_bodies.
  - by eapply checked_depth.
  - by rewrite B2.
  - done.
  - done.
Qed.

Lemma type_section_spec buf calloc_ok section rs H c n r :
  turbowasm_validate_composite_types buf calloc_ok section [] (mk_types 0 0 rs) = (TURBOWASM_OK, H, c, n, r) ->
  heap_wf H /\ bodies_ok H /\ depth_wf H /\ Z.of_nat (length H) = type_count c /\ n = Some (type_count c) /\
  types_base c = 0%nat /\ type_count c <= UINT32_MAX.
Proof.
  unfold turbowasm_validate_composite_types.
  destruct (read_groups buf calloc_ok [] None section) as [[st|[G0 count]] r1] eqn:E1.
  { intros [= -> _]. by apply strict_read_groups in E1. }
  destruct (turbowasm_validation_context_allocate_types _ _ _ _) as [[H1 c1]|] eqn:Ea; [|done].
  destruct (read_groups buf calloc_ok H1 (Some c1) section) as [[st|[H2 count2]] r2] eqn:E2.
  { intros [= -> _]. by apply strict_read_groups in E2. }
  destruct (turbowasm_validation_types_finalize H2 c1) as [[st H3] c3] eqn:Ef. intros [= -> -> -> <- <-].
  destruct (read_groups_agree _ _ _ _ _ _ _ _ _ _ E1 E2) as [_ Hc]. simpl in Hc. subst count2.
  pose proof (read_groups_raw _ _ _ _ _ _ _ E2) as (R1 & R2 & _). simpl in R1, R2.
  pose proof (read_groups_count _ _ _ _ _ _ _ E1) as Hcount. simpl in Hcount.
  assert (Ha : types_base c1 = 0%nat /\ Z.of_nat (length H1) = type_count c1 /\ type_count c1 = count).
  { unfold turbowasm_validation_context_allocate_types in Ea. simpl in Ea.
    destruct (Z.eqb_spec count 0) as [->|]; [by injection Ea as <- <-|].
    destruct (_ >? _); [done|]. destruct (calloc_ok _); [|done]. injection Ea as <- <-. simpl.
    rewrite length_replicate. split_and!; lia. }
  destruct Ha as (A1 & A2 & A3). rewrite A1 in R2.
  apply finalize_spec in Ef as (F1 & F2 & F3 & F4 & F5 & F6); [|done|by rewrite R1|].
  - split_and!; try done; [f_equal; lia|lia].
  - intros j Hj. apply R2; [lia|]. lia.
Qed.

(** ** Properties *)

(** C7. A type section that the validator accepts yields a well-formed type
    heap: recursion groups tile the array, references are bound to definitions
    no later than the group they occur in, supertypes come first, every declared
    subtype has a compatible body, and the dependency depths decrease along
    references out of a group. The two passes over the section count the same
    definitions, so that the array allocated after the first holds all that the
    second writes. *)
Theorem type_section_checked buf calloc_ok section rs H c n r :
  turbowasm_validate_composite_types buf calloc_ok section [] (mk_types 0 0 rs) = (TURBOWASM_OK, H, c, n, r) ->
  heap_wf H /\ bodies_ok H /\ depth_wf H /\ Z.of_nat (length H) = type_count c /\ n = Some (type_count c).
Proof. intros E. by destruct (type_section_spec _ _ _ _ _ _ _ _ E) as (? & ? & ? & ? & ? & _). Qed.

(** *** Depth of the comparison *)

Section Depth.
Context (H : type_heap) (Hwf : heap_wf H) (Hdw : depth_wf H).

(** [f] and [h] agree on the types less deep than [D]. *)
Definition agree_below (f h : option nat -> option nat -> bool) (D : Z) : Prop :=
  forall d t r, H !! d = Some t -> dependency_depth t < D -> f (Some d) r = h (Some d) r.

Lemma reference_equal_below f h p t g o r rg :
  H !! p = Some t -> group t = Some g -> agree_below f h (dependency_depth t) ->
  (forall d, o = Some d -> super t = Some d \/ exists v, v ∈ values_of t /\ definition v = Some d) ->
  group_reference_equal H f o r g rg = group_reference_equal H h o r g rg.
Proof.
  intros Hp Hg Hf Ho. unfold group_reference_equal. destruct o as [d|], r as [e|]; try done.
  destruct (H !! d) as [u|] eqn:Hu; [|done]. destruct (H !! e) as [w|]; [|done].
  case_bool_decide as Hl; [done|]. case_bool_decide; [done|]. simpl.
  apply (Hf d u); [done|]. eapply (dw_refs _ Hdw p t); [done|by apply Ho|done|congruence].
Qed.

Lemma forallb2_ext_in {A B} (f g : A -> B -> bool) l k :
  (forall a b, a ∈ l -> f a b = g a b) -> forallb2 f l k = forallb2 g l k.
Proof.
  intros E. revert k. induction l as [|a l IH]; intros [|b k]; simpl; [done..|].
  rewrite E by (by left). rewrite IH; [done|]. intros a' b' Ha. apply E. by right.
Qed.

Lemma member_equal_below f h p t g rg u :
  H !! p = Some t -> group t = Some g -> agree_below f h (dependency_depth t) ->
  member_equal H f g rg t u = member_equal H h g rg t u.
Proof.
  intros Hp Hg Hf.
  assert (Hv : forall v w, v ∈ values_of t -> group_value_equal H f g rg v w = group_value_equal H h g rg v w).
  { intros v w Hv. unfold group_value_equal. erewrite reference_equal_below; eauto. }
  unfold member_equal.
  apply (f_equal2 andb); [apply (f_equal2 andb); [apply (f_equal2 andb); [apply (f_equal2 andb); [done|]|]|]|].
  - eapply reference_equal_below; eauto.
  - apply forallb2_ext_in. intros v w Hin. by apply Hv, elem_params.
  - apply forallb2_ext_in. intros v w Hin. by apply Hv, elem_results.
  - apply forallb2_ext_in. intros a b Hin. unfold group_field_equal. by rewrite Hv by (by apply elem_fields).
Qed.

Lemma type_equal_depth n : forall m l r t, H !! l = Some t ->
  dependency_depth t <= Z.of_nat n -> dependency_depth t <= Z.of_nat m ->
  type_equal_fuel H n (Some l) r = type_equal_fuel H m (Some l) r.
Proof.
  induction n as [|n IH]; intros m l r t Hl Hn Hm; pose proof (dw_range _ Hdw _ _ Hl); [lia|].
  destruct m as [|m]; [lia|]. cbn [type_equal_fuel]. destruct r as [r|]; [|done]. rewrite Hl.
  destruct (H !! r) as [rt|]; [|done]. case_match; [done|]. case_match; [done|]. case_match; [done|].
  destruct (tw_group _ _ _ (hw_types _ Hwf _ _ Hl)) as (g & Hg & _ & _ & Hat & _). rewrite Hg.
  destruct (group rt) as [rg|]; [|done]. unfold members_equal. apply forallb_ext_in.
  intros i Hi%in_seq. destruct (Hat (Z.of_nat i) ltac:(lia)) as (a & Ha & Hag & _). rewrite Nat2Z.id in Ha.
  rewrite Ha. destruct (H !! (rg + i)%nat) as [b|]; [|done]. eapply member_equal_below; [done..|].
  intros d u q Hu Hd. assert (dependency_depth a = dependency_depth t) by (eapply (dw_group _ Hdw); [done..|congruence]).
  eapply IH; [done|lia|lia].
Qed.

(** On checked types the comparison never nests deeper than the dependency
    depth of its left argument, hence never deeper than the limit of 256: so
    much recursion already gives the final answer. *)
Theorem comparison_depth_bounded l r t :
  H !! l = Some t -> is_Some (H !! r) ->
  type_equal_fuel H (Z.to_nat (dependency_depth t)) (Some l) (Some r) =
    turbowasm_validation_defined_type_equal H (Some l) (Some r) /\
  1 <= dependency_depth t <= TURBOWASM_TYPE_DEPENDENCY_LIMIT.
Proof.
  intros Hl Hr. pose proof (dw_range _ Hdw _ _ Hl) as Hd. split; [|done].
  rewrite (type_equal_depth _ (Z.to_nat (dependency_depth t) + S (length H)) l _ t) by (done || lia).
  apply Bool.eq_iff_eq_true. rewrite (type_equal_fuel_spec H Hwf) by (eauto || (apply lookup_lt_Some in Hl; lia)).
  symmetry. apply (type_equal_spec H Hwf); eauto.
Qed.

End Depth.

(** ** Witnesses *)

(** Two recursion groups: a struct with a mutable reference to itself, and a
    subtype of it with one more packed field. *)
Definition sample_section : list Z :=
  [0x02; 0x4e; 0x01; 0x50; 0x00; 0x5f; 0x01; 0x63; 0x00; 0x01;
   0x50; 0x01; 0x00; 0x5f; 0x02; 0x63; 0x00; 0x01; 0x78; 0x00].

Definition sample_result :=
  turbowasm_validate_composite_types sample_section (fun _ => true)
    (turbowasm_reader_init (Some 0) 20) [] (mk_types 0 0 false).

Lemma sample_accepted : exists H c r, sample_result = (TURBOWASM_OK, H, c, Some 2, r) /\ length H = 2%nat.
Proof. eexists _, _, _. split; vm_compute; reflexivity. Qed.

Lemma type_section_checked_witness :
  exists H c n r, sample_result = (TURBOWASM_OK, H, c, n, r) /\ heap_wf H /\ Z.of_nat (length H) = 2.
Proof.
  destruct sample_result as [[[[st H] c] n] r] eqn:E. exists H, c, n, r.
  assert (Es : st = TURBOWASM_OK /\ length H = 2%nat).
  { destruct sample_accepted as (H0 & c0 & r0 & E0 & El). rewrite E in E0. clear E. injection E0 as -> -> _ _ _. by split. }
  destruct Es as [-> El]. split; [reflexivity|].
  destruct (type_section_checked sample_section (fun _ => true) (turbowasm_reader_init (Some 0) 20) false H c n r E)
    as (Hw & _). split; [exact Hw|lia].
Defined.

Lemma comparison_depth_bounded_witness :
  exists H c n r, sample_result = (TURBOWASM_OK, H, c, n, r) /\
    type_equal_fuel H 2 (Some 1%nat) (Some 0%nat) = turbowasm_validation_defined_type_equal H (Some 1%nat) (Some 0%nat).
Proof.
  destruct sample_result as [[[[st H] c] n] r] eqn:E. exists H, c, n, r.
  assert (Es : st = TURBOWASM_OK /\ exists t u, H = [t; u] /\ dependency_depth u = 2).
  { vm_compute in E. injection E as <- <- _ _ _. split; [reflexivity|]. eexists _, _. split; reflexivity. }
  destruct Es as (-> & t & u & -> & Hd). split; [reflexivity|].
  destruct (type_section_spec _ _ _ _ _ _ _ _ E) as (Hw & _ & Hdw & _).
  pose proof (comparison_depth_bounded [t; u] Hw Hdw 1 0 u eq_refl ltac:(by eexists)) as [Hc _].
  rewrite Hd in Hc. exact Hc.
Defined.

End TypeReader.
