(* ===== verification/Context.v ===== *)
(** * The validation context (src/validation_context.c)

    The module-wide index spaces the section readers fill and the instruction
    validator and the interpreter look up. A growing array is a [vec]: its live
    elements and the capacity behind them; [realloc_ok n] and [calloc_ok n] say
    whether the allocator grants [n] bytes. Element sizes are those of an LP64
    host. A pointer into the module's bytes is an offset, [None] for NULL. *)

From S2P Require Import Prelude Reader Types ExecStack TypeEq TypeReader.

Module Context.
Import Reader Types ExecStack TypeEq TypeReader.

(** ** Data *)

Record turbowasm_name := mk_name { name_bytes : option Z; name_size : Z }.

Inductive turbowasm_external_kind :=
  | EXTERN_FUNCTION
  | EXTERN_TABLE
  | EXTERN_MEMORY
  | EXTERN_GLOBAL
  | EXTERN_TAG.

#[global] Instance external_kind_eq_dec : EqDecision turbowasm_external_kind.
Proof. solve_decision. Defined.

Record turbowasm_import_desc := mk_import {
  import_module : turbowasm_name;
  import_name : turbowasm_name;
  import_kind : turbowasm_external_kind;
  import_item : Z;
  import_type : Z
}.

Record turbowasm_export_desc := mk_export {
  export_name : turbowasm_name;
  export_kind : turbowasm_external_kind;
  export_item : Z
}.

Record turbowasm_validation_global := mk_global {
  global_carrier : Z;
  global_semantic : turbowasm_validation_value_type;
  global_mutable : bool;
  global_imported : bool;
  global_init : option Z;
  global_init_size : Z
}.

Record turbowasm_validation_limits := mk_limits {
  lim_minimum : Z;
  lim_maximum : Z;
  lim_has_maximum : bool;
  table64 : bool
}.

Record turbowasm_validation_table := mk_table {
  reference_type : Z;
  table_semantic : turbowasm_validation_value_type;
  table_imported : bool;
  table_limits : turbowasm_validation_limits;
  table_init : option Z;
  table_init_size : Z
}.

Record turbowasm_validation_memory_limits := mk_memory_limits {
  mlim_minimum : Z;
  mlim_maximum : Z;
  mlim_has_maximum : bool
}.

Record turbowasm_validation_memory := mk_vmemory {
  vm_imported : bool;
  vm_shared : bool;
  vm_memory64 : bool;
  vm_page_size : Z;
  vm_limits : turbowasm_validation_memory_limits
}.

Record turbowasm_validation_tag := mk_tag { tag_type_index : Z; tag_imported : bool }.

Inductive turbowasm_validation_segment_mode :=
  | SEGMENT_ACTIVE
  | SEGMENT_PASSIVE
  | SEGMENT_DECLARATIVE.

Record turbowasm_validation_expr_span := mk_span {
  span_bytes : option Z;
  span_size : Z;
  span_result : Z
}.

Record turbowasm_validation_data_segment := mk_data {
  data_mode : turbowasm_validation_segment_mode;
  data_memory : Z;
  data_offset : turbowasm_validation_expr_span;
  data_bytes : option Z;
  data_size : Z
}.

Inductive turbowasm_validation_element_item :=
  | ELEMENT_FUNCTION_INDEX (function_index : Z)
  | ELEMENT_CONST_EXPR (expression : turbowasm_validation_expr_span).

Record turbowasm_validation_element_segment := mk_element {
  elem_mode : turbowasm_validation_segment_mode;
  elem_table : Z;
  elem_reference : Z;
  elem_semantic : turbowasm_validation_value_type;
  elem_offset : turbowasm_validation_expr_span;
  elem_items : list turbowasm_validation_element_item
}.

Record vec (A : Type) := mk_vec { items : list A; capacity : Z }.
#[global] Arguments mk_vec {A}.
#[global] Arguments items {A}.
#[global] Arguments capacity {A}.

Definition count {A} (v : vec A) : Z := Z.of_nat (length (items v)).
Definition empty_vec {A} : vec A := mk_vec [] 0.

(** [&v.items[index]], NULL when [index >= count]. *)
Definition at_index {A} (v : vec A) (index : Z) : option A :=
  if index >=? count v then None else items v !! Z.to_nat index.

Record turbowasm_validation_context := mk_context {
  types : types_context;
  imports : vec turbowasm_import_desc;
  exports : vec turbowasm_export_desc;
  functions : vec turbowasm_validation_function;
  globals : vec turbowasm_validation_global;
  tables : vec turbowasm_validation_table;
  memories : vec turbowasm_validation_memory;
  tags : vec turbowasm_validation_tag;
  data_segments : vec turbowasm_validation_data_segment;
  element_segments : vec turbowasm_validation_element_segment;
  declared_refs : option (list bool);
  has_data_count : bool;
  data_count : Z
}.

(** Replacing one index space. *)
Definition set_imports v c := mk_context (types c) v (exports c) (functions c) (globals c) (tables c)
  (memories c) (tags c) (data_segments c) (element_segments c) (declared_refs c) (has_data_count c) (data_count c).
Definition set_exports v c := mk_context (types c) (imports c) v (functions c) (globals c) (tables c)
  (memories c) (tags c) (data_segments c) (element_segments c) (declared_refs c) (has_data_count c) (data_count c).
Definition set_functions v c := mk_context (types c) (imports c) (exports c) v (globals c) (tables c)
  (memories c) (tags c) (data_segments c) (element_segments c) (declared_refs c) (has_data_count c) (data_count c).
Definition set_globals v c := mk_context (types c) (imports c) (exports c) (functions c) v (tables c)
  (memories c) (tags c) (data_segments c) (element_segments c) (declared_refs c) (has_data_count c) (data_count c).
Definition set_tables v c := mk_context (types c) (imports c) (exports c) (functions c) (globals c) v
  (memories c) (tags c) (data_segments c) (element_segments c) (declared_refs c) (has_data_count c) (data_count c).
Definition set_memories v c := mk_context (types c) (imports c) (exports c) (functions c) (globals c) (tables c)
  v (tags c) (data_segments c) (element_segments c) (declared_refs c) (has_data_count c) (data_count c).
Definition set_tags v c := mk_context (types c) (imports c) (exports c) (functions c) (globals c) (tables c)
  (memories c) v (data_segments c) (element_segments c) (declared_refs c) (has_data_count c) (data_count c).
Definition set_data_segments v c := mk_context (types c) (imports c) (exports c) (functions c) (globals c) (tables c)
  (memories c) (tags c) v (element_segments c) (declared_refs c) (has_data_count c) (data_count c).
Definition set_element_segments v c := mk_context (types c) (imports c) (exports c) (functions c) (globals c) (tables c)
  (memories c) (tags c) (data_segments c) v (declared_refs c) (has_data_count c) (data_count c).
Definition set_declared_refs v c := mk_context (types c) (imports c) (exports c) (functions c) (globals c) (tables c)
  (memories c) (tags c) (data_segments c) (element_segments c) v (has_data_count c) (data_count c).

(** ** Lookups *)

(** The type definition a context index names. *)
Definition type_at (H : type_heap) (c : turbowasm_validation_context) (index : Z)
    : option turbowasm_validation_func_type :=
  p ← turbowasm_validation_context_type (types c) index; H !! p.

Definition turbowasm_validation_context_tag (c : turbowasm_validation_context) (index : Z)
    : option turbowasm_validation_tag := at_index (tags c) index.

Definition turbowasm_validation_context_function (c : turbowasm_validation_context) (index : Z)
    : option turbowasm_validation_function := at_index (functions c) index.

Definition turbowasm_validation_context_function_type (H : type_heap) (c : turbowasm_validation_context)
    (function_index : Z) : option turbowasm_validation_func_type :=
  f ← at_index (functions c) function_index;
  type_at H c (function_type_index f).

Definition turbowasm_validation_context_global (c : turbowasm_validation_context) (index : Z)
    : option turbowasm_validation_global := at_index (globals c) index.

Definition turbowasm_validation_context_has_function_ref (c : turbowasm_validation_context)
    (function_index : Z) : bool :=
  match declared_refs c with
  | None => false
  | Some refs => (function_index <? Z.of_nat (length refs)) && default false (refs !! Z.to_nat function_index)
  end.

Definition turbowasm_validation_function_control_at (f : turbowasm_validation_function)
    (offset : Z) : option turbowasm_validation_control :=
  head (filter (fun a => opcode_offset a = offset) (controls_of f)).

(** Start and end carriers of a retained block signature. *)
Definition turbowasm_validation_control_signature (H : type_heap) (c : turbowasm_validation_context)
    (control : turbowasm_validation_control) : option (list Z * list Z) :=
  if negb (control_type_index control =? UINT32_MAX) then
    t ← type_at H c (control_type_index control);
    if defined t then Some (params t, results t) else None
  else if negb (inline_result_type control =? 0) then Some ([], [inline_result_type control])
  else Some ([], []).

(** ** Growing the context *)

Definition sizeof_import : Z := 48.
Definition sizeof_export : Z := 24.
Definition sizeof_function : Z := 64.
Definition sizeof_global : Z := 56.
Definition sizeof_table : Z := 80.
Definition sizeof_memory : Z := 32.
Definition sizeof_tag : Z := 8.
Definition sizeof_data : Z := 40.
Definition sizeof_element : Z := 72.
Definition sizeof_control : Z := 48.

Section Growing.
Context (realloc_ok calloc_ok : Z -> bool).

(** [turbowasm_validation_reserve] *)
Definition turbowasm_validation_reserve (cap required element_size : Z) : option Z :=
  if element_size =? 0 then None else reserve realloc_ok element_size 4 cap required.

(** The common tail of the append functions: refuse a full index space, reserve
    one more element, store it. *)
Definition append {A} (size : Z) (v : vec A) (x : A) : option (vec A) :=
  if count v =? UINT32_MAX then None
  else cap ← turbowasm_validation_reserve (capacity v) (count v + 1) size;
       Some (mk_vec (items v ++ [x]) cap).

Definition turbowasm_validation_context_append_import (c : turbowasm_validation_context)
    (d : turbowasm_import_desc) : option turbowasm_validation_context :=
  v ← append sizeof_import (imports c) d; Some (set_imports v c).

Definition turbowasm_validation_context_append_export (c : turbowasm_validation_context)
    (d : turbowasm_export_desc) : option turbowasm_validation_context :=
  v ← append sizeof_export (exports c) d; Some (set_exports v c).

Definition turbowasm_validation_context_append_function (c : turbowasm_validation_context)
    (type_index : Z) (imported : bool) : option turbowasm_validation_context :=
  if type_index >=? type_count (types c) then None
  else v ← append sizeof_function (functions c)
             (mk_function type_index imported [] [] None 0 [] 0);
       Some (set_functions v c).

Definition is_null {A} (p : option A) : bool := match p with None => true | Some _ => false end.

Definition turbowasm_validation_context_append_global_semantic (c : turbowasm_validation_context)
    (value_type : turbowasm_validation_value_type) (mutable_value imported : bool)
    (initializer : option Z) (initializer_size : Z) : option turbowasm_validation_context :=
  if count (globals c) =? UINT32_MAX then None
  else if negb (Bool.eqb (is_null initializer) (initializer_size =? 0)) then None
  else if imported && negb (is_null initializer) then None
  else v ← append sizeof_global (globals c)
             (mk_global (carrier value_type) value_type mutable_value imported initializer initializer_size);
       Some (set_globals v c).

Definition turbowasm_validation_context_append_global (c : turbowasm_validation_context)
    (value_type : Z) (mutable_value imported : bool) (initializer : option Z) (initializer_size : Z)
    : option turbowasm_validation_context :=
  turbowasm_validation_context_append_global_semantic c
    (turbowasm_validation_value_type_legacy value_type) mutable_value imported initializer initializer_size.

Definition turbowasm_validation_context_append_table_full (c : turbowasm_validation_context)
    (reference : turbowasm_validation_value_type) (limits : turbowasm_validation_limits)
    (imported : bool) (initializer : option Z) (initializer_size : Z)
    : option turbowasm_validation_context :=
  if (count (tables c) =? UINT32_MAX) || negb (is_reference reference) then None
  else if imported && (negb (is_null initializer) || negb (initializer_size =? 0)) then None
  else if negb (Bool.eqb (is_null initializer) (initializer_size =? 0)) then None
  else v ← append sizeof_table (tables c)
             (mk_table (carrier reference) reference imported limits initializer initializer_size);
       Some (set_tables v c).

Definition turbowasm_validation_context_append_table_semantic (c : turbowasm_validation_context)
    (reference : turbowasm_validation_value_type) (limits : turbowasm_validation_limits) (imported : bool)
    : option turbowasm_validation_context :=
  turbowasm_validation_context_append_table_full c reference limits imported None 0.

Definition turbowasm_validation_context_append_table_semantic_initialized
    (c : turbowasm_validation_context) (reference : turbowasm_validation_value_type)
    (limits : turbowasm_validation_limits) (initializer : option Z) (initializer_size : Z)
    : option turbowasm_validation_context :=
  if is_null initializer || (initializer_size =? 0) then None
  else turbowasm_validation_context_append_table_full c reference limits false initializer initializer_size.

Definition turbowasm_validation_context_append_table (c : turbowasm_validation_context)
    (reference : Z) (limits : turbowasm_validation_limits) (imported : bool)
    : option turbowasm_validation_context :=
  turbowasm_validation_context_append_table_semantic c
    (turbowasm_validation_value_type_legacy reference) limits imported.

Definition turbowasm_validation_context_append_memory (c : turbowasm_validation_context)
    (limits : turbowasm_validation_memory_limits) (page_size : Z) (shared memory64 imported : bool)
    : option turbowasm_validation_context :=
  v ← append sizeof_memory (memories c) (mk_vmemory imported shared memory64 page_size limits);
  Some (set_memories v c).

Definition turbowasm_validation_context_append_tag (H : type_heap) (c : turbowasm_validation_context)
    (type_index : Z) (imported : bool) : option turbowasm_validation_context :=
  if (type_index >=? type_count (types c)) || (count (tags c) =? UINT32_MAX) then None
  else t ← type_at H c type_index;
       if negb (defined t) || negb (result_count t =? 0) then None
       else v ← append sizeof_tag (tags c) (mk_tag type_index imported); Some (set_tags v c).

Definition turbowasm_validation_context_append_data_segment (c : turbowasm_validation_context)
    (segment : turbowasm_validation_data_segment) : option turbowasm_validation_context :=
  v ← append sizeof_data (data_segments c) segment; Some (set_data_segments v c).

Definition turbowasm_validation_context_append_element_segment (c : turbowasm_validation_context)
    (segment : turbowasm_validation_element_segment) : option turbowasm_validation_context :=
  v ← append sizeof_element (element_segments c) segment; Some (set_element_segments v c).

(** The second component is [*out_index]. *)
Definition turbowasm_validation_function_append_control (f : turbowasm_validation_function)
    (control : turbowasm_validation_control) : option (turbowasm_validation_function * Z) :=
  v ← append sizeof_control (mk_vec (controls_of f) (control_capacity f)) control;
  Some (mk_function (function_type_index f) (function_imported f) (local_types f) (local_semantics f)
          (code f) (code_size f) (items v) (capacity v), Z.of_nat (length (controls_of f))).

Definition turbowasm_validation_context_declare_function_ref (c : turbowasm_validation_context)
    (function_index : Z) : option turbowasm_validation_context :=
  if function_index >=? count (functions c) then None
  else
    refs ← match declared_refs c with
           | Some refs => Some refs
           | None => if count (functions c) =? 0 then None
                     else if calloc_ok (count (functions c))
                     then Some (replicate (length (items (functions c))) false) else None
           end;
    if function_index >=? Z.of_nat (length refs) then None
    else Some (set_declared_refs (Some (<[Z.to_nat function_index := true]> refs)) c).

End Growing.

End Context.
