(* ===== verification/OpTables.v ===== *)
(** * Instruction descriptor tables (src/atomic.c, src/validate_simd_table.c)

    The static tables that give the threads and SIMD instructions their shape,
    with their lookup functions. *)

From S2P Require Import Prelude Memory.

Module OpTables.
Import Memory.

(** ** Threads *)

Definition LOAD sub type width align := mk_atomic sub ATOMIC_LOAD ATOMIC_OP_NONE type width align.
Definition STORE sub type width align := mk_atomic sub ATOMIC_STORE ATOMIC_OP_NONE type width align.
Definition RMW sub op type width align := mk_atomic sub ATOMIC_RMW op type width align.
Definition CMPXCHG sub type width align := mk_atomic sub ATOMIC_CMPXCHG ATOMIC_OP_NONE type width align.

Definition atomic_descriptors : list turbowasm_atomic_descriptor :=
  [
   LOAD 0x10 ATOMIC_I32 4 2; LOAD 0x11 ATOMIC_I64 8 3; LOAD 0x12 ATOMIC_I32 1 0;
   LOAD 0x13 ATOMIC_I32 2 1; LOAD 0x14 ATOMIC_I64 1 0; LOAD 0x15 ATOMIC_I64 2 1;
   LOAD 0x16 ATOMIC_I64 4 2; STORE 0x17 ATOMIC_I32 4 2; STORE 0x18 ATOMIC_I64 8 3;
   STORE 0x19 ATOMIC_I32 1 0; STORE 0x1a ATOMIC_I32 2 1; STORE 0x1b ATOMIC_I64 1 0;
   STORE 0x1c ATOMIC_I64 2 1; STORE 0x1d ATOMIC_I64 4 2; RMW 0x1e ATOMIC_OP_ADD ATOMIC_I32 4 2;
   RMW 0x1f ATOMIC_OP_ADD ATOMIC_I64 8 3; RMW 0x20 ATOMIC_OP_ADD ATOMIC_I32 1 0;
   RMW 0x21 ATOMIC_OP_ADD ATOMIC_I32 2 1; RMW 0x22 ATOMIC_OP_ADD ATOMIC_I64 1 0;
   RMW 0x23 ATOMIC_OP_ADD ATOMIC_I64 2 1; RMW 0x24 ATOMIC_OP_ADD ATOMIC_I64 4 2;
   RMW 0x25 ATOMIC_OP_SUB ATOMIC_I32 4 2; RMW 0x26 ATOMIC_OP_SUB ATOMIC_I64 8 3;
   RMW 0x27 ATOMIC_OP_SUB ATOMIC_I32 1 0; RMW 0x28 ATOMIC_OP_SUB ATOMIC_I32 2 1;
   RMW 0x29 ATOMIC_OP_SUB ATOMIC_I64 1 0; RMW 0x2a ATOMIC_OP_SUB ATOMIC_I64 2 1;
   RMW 0x2b ATOMIC_OP_SUB ATOMIC_I64 4 2; RMW 0x2c ATOMIC_OP_AND ATOMIC_I32 4 2;
   RMW 0x2d ATOMIC_OP_AND ATOMIC_I64 8 3; RMW 0x2e ATOMIC_OP_AND ATOMIC_I32 1 0;
   RMW 0x2f ATOMIC_OP_AND ATOMIC_I32 2 1; RMW 0x30 ATOMIC_OP_AND ATOMIC_I64 1 0;
   RMW 0x31 ATOMIC_OP_AND ATOMIC_I64 2 1; RMW 0x32 ATOMIC_OP_AND ATOMIC_I64 4 2;
   RMW 0x33 ATOMIC_OP_OR ATOMIC_I32 4 2; RMW 0x34 ATOMIC_OP_OR ATOMIC_I64 8 3;
   RMW 0x35 ATOMIC_OP_OR ATOMIC_I32 1 0; RMW 0x36 ATOMIC_OP_OR ATOMIC_I32 2 1;
   RMW 0x37 ATOMIC_OP_OR ATOMIC_I64 1 0; RMW 0x38 ATOMIC_OP_OR ATOMIC_I64 2 1;
   RMW 0x39 ATOMIC_OP_OR ATOMIC_I64 4 2; RMW 0x3a ATOMIC_OP_XOR ATOMIC_I32 4 2;
   RMW 0x3b ATOMIC_OP_XOR ATOMIC_I64 8 3; RMW 0x3c ATOMIC_OP_XOR ATOMIC_I32 1 0;
   RMW 0x3d ATOMIC_OP_XOR ATOMIC_I32 2 1; RMW 0x3e ATOMIC_OP_XOR ATOMIC_I64 1 0;
   RMW 0x3f ATOMIC_OP_XOR ATOMIC_I64 2 1; RMW 0x40 ATOMIC_OP_XOR ATOMIC_I64 4 2;
   RMW 0x41 ATOMIC_OP_XCHG ATOMIC_I32 4 2; RMW 0x42 ATOMIC_OP_XCHG ATOMIC_I64 8 3;
   RMW 0x43 ATOMIC_OP_XCHG ATOMIC_I32 1 0; RMW 0x44 ATOMIC_OP_XCHG ATOMIC_I32 2 1;
   RMW 0x45 ATOMIC_OP_XCHG ATOMIC_I64 1 0; RMW 0x46 ATOMIC_OP_XCHG ATOMIC_I64 2 1;
   RMW 0x47 ATOMIC_OP_XCHG ATOMIC_I64 4 2; CMPXCHG 0x48 ATOMIC_I32 4 2;
   CMPXCHG 0x49 ATOMIC_I64 8 3; CMPXCHG 0x4a ATOMIC_I32 1 0; CMPXCHG 0x4b ATOMIC_I32 2 1;
   CMPXCHG 0x4c ATOMIC_I64 1 0; CMPXCHG 0x4d ATOMIC_I64 2 1; CMPXCHG 0x4e ATOMIC_I64 4 2
  ].

Definition turbowasm_atomic_descriptor_find (sub : Z) : option turbowasm_atomic_descriptor :=
  if (sub <? 0x10) || (sub >? 0x4e) then None else atomic_descriptors !! Z.to_nat (sub - 0x10).

(** ** SIMD *)

Inductive turbowasm_simd_stack_form :=
  | SIMD_CONST_V128
  | SIMD_SHUFFLE
  | SIMD_V128_UNARY
  | SIMD_V128_BINARY
  | SIMD_V128_TERNARY
  | SIMD_V128_TEST_I32
  | SIMD_SCALAR_SPLAT
  | SIMD_LANE_EXTRACT
  | SIMD_LANE_REPLACE
  | SIMD_V128_SHIFT
  | SIMD_MEMORY_LOAD_V128
  | SIMD_MEMORY_STORE_V128
  | SIMD_MEMORY_LOAD_LANE
  | SIMD_MEMORY_STORE_LANE.

Record turbowasm_simd_descriptor := mk_simd {
  simd_opcode : Z;
  simd_form : turbowasm_simd_stack_form;
  scalar_type : Z;
  lane_count : Z;
  memory_alignment : Z
}.

Definition D_ op form := mk_simd op form 0 0 0.
Definition S_ op type := mk_simd op SIMD_SCALAR_SPLAT type 0 0.
Definition E_ op type lanes := mk_simd op SIMD_LANE_EXTRACT type lanes 0.
Definition R_ op type lanes := mk_simd op SIMD_LANE_REPLACE type lanes 0.
Definition ML op align := mk_simd op SIMD_MEMORY_LOAD_V128 0 0 align.
Definition MS op align := mk_simd op SIMD_MEMORY_STORE_V128 0 0 align.
Definition MLL op align lanes := mk_simd op SIMD_MEMORY_LOAD_LANE 0 lanes align.
Definition MSL op align lanes := mk_simd op SIMD_MEMORY_STORE_LANE 0 lanes align.

Definition simd_descriptors : list turbowasm_simd_descriptor :=
  [
   ML 0x00 4; ML 0x01 3; ML 0x02 3; ML 0x03 3; ML 0x04 3; ML 0x05 3; ML 0x06 3; ML 0x07 0;
   ML 0x08 1; ML 0x09 2; ML 0x0a 3; MS 0x0b 4; D_ 0x0c SIMD_CONST_V128; D_ 0x0d SIMD_SHUFFLE;
   D_ 0x0e SIMD_V128_BINARY; S_ 0x0f 0x7f; S_ 0x10 0x7f; S_ 0x11 0x7f; S_ 0x12 0x7e; S_ 0x13 0x7d;
   S_ 0x14 0x7c; E_ 0x15 0x7f 16; E_ 0x16 0x7f 16; R_ 0x17 0x7f 16; E_ 0x18 0x7f 8; E_ 0x19 0x7f 8;
   R_ 0x1a 0x7f 8; E_ 0x1b 0x7f 4; R_ 0x1c 0x7f 4; E_ 0x1d 0x7e 2; R_ 0x1e 0x7e 2; E_ 0x1f 0x7d 4;
   R_ 0x20 0x7d 4; E_ 0x21 0x7c 2; R_ 0x22 0x7c 2; D_ 0x23 SIMD_V128_BINARY; D_ 0x24 SIMD_V128_BINARY;
   D_ 0x25 SIMD_V128_BINARY; D_ 0x26 SIMD_V128_BINARY; D_ 0x27 SIMD_V128_BINARY;
   D_ 0x28 SIMD_V128_BINARY; D_ 0x29 SIMD_V128_BINARY; D_ 0x2a SIMD_V128_BINARY;
   D_ 0x2b SIMD_V128_BINARY; D_ 0x2c SIMD_V128_BINARY; D_ 0x2d SIMD_V128_BINARY;
   D_ 0x2e SIMD_V128_BINARY; D_ 0x2f SIMD_V128_BINARY; D_ 0x30 SIMD_V128_BINARY;
   D_ 0x31 SIMD_V128_BINARY; D_ 0x32 SIMD_V128_BINARY; D_ 0x33 SIMD_V128_BINARY;
   D_ 0x34 SIMD_V128_BINARY; D_ 0x35 SIMD_V128_BINARY; D_ 0x36 SIMD_V128_BINARY;
   D_ 0x37 SIMD_V128_BINARY; D_ 0x38 SIMD_V128_BINARY; D_ 0x39 SIMD_V128_BINARY;
   D_ 0x3a SIMD_V128_BINARY; D_ 0x3b SIMD_V128_BINARY; D_ 0x3c SIMD_V128_BINARY;
   D_ 0x3d SIMD_V128_BINARY; D_ 0x3e SIMD_V128_BINARY; D_ 0x3f SIMD_V128_BINARY;
   D_ 0x40 SIMD_V128_BINARY; D_ 0x41 SIMD_V128_BINARY; D_ 0x42 SIMD_V128_BINARY;
   D_ 0x43 SIMD_V128_BINARY; D_ 0x44 SIMD_V128_BINARY; D_ 0x45 SIMD_V128_BINARY;
   D_ 0x46 SIMD_V128_BINARY; D_ 0x47 SIMD_V128_BINARY; D_ 0x48 SIMD_V128_BINARY;
   D_ 0x49 SIMD_V128_BINARY; D_ 0x4a SIMD_V128_BINARY; D_ 0x4b SIMD_V128_BINARY;
   D_ 0x4c SIMD_V128_BINARY; D_ 0x4d SIMD_V128_UNARY; D_ 0x4e SIMD_V128_BINARY;
   D_ 0x4f SIMD_V128_BINARY; D_ 0x50 SIMD_V128_BINARY; D_ 0x51 SIMD_V128_BINARY;
   D_ 0x52 SIMD_V128_TERNARY; D_ 0x53 SIMD_V128_TEST_I32; MLL 0x54 0 16; MLL 0x55 1 8;
   MLL 0x56 2 4; MLL 0x57 3 2; MSL 0x58 0 16; MSL 0x59 1 8; MSL 0x5a 2 4; MSL 0x5b 3 2;
   ML 0x5c 2; ML 0x5d 3; D_ 0x5e SIMD_V128_UNARY; D_ 0x5f SIMD_V128_UNARY; D_ 0x60 SIMD_V128_UNARY;
   D_ 0x61 SIMD_V128_UNARY; D_ 0x62 SIMD_V128_UNARY; D_ 0x63 SIMD_V128_TEST_I32;
   D_ 0x64 SIMD_V128_TEST_I32; D_ 0x65 SIMD_V128_BINARY; D_ 0x66 SIMD_V128_BINARY;
   D_ 0x67 SIMD_V128_UNARY; D_ 0x68 SIMD_V128_UNARY; D_ 0x69 SIMD_V128_UNARY;
   D_ 0x6a SIMD_V128_UNARY; D_ 0x6b SIMD_V128_SHIFT; D_ 0x6c SIMD_V128_SHIFT;
   D_ 0x6d SIMD_V128_SHIFT; D_ 0x6e SIMD_V128_BINARY; D_ 0x6f SIMD_V128_BINARY;
   D_ 0x70 SIMD_V128_BINARY; D_ 0x71 SIMD_V128_BINARY; D_ 0x72 SIMD_V128_BINARY;
   D_ 0x73 SIMD_V128_BINARY; D_ 0x74 SIMD_V128_UNARY; D_ 0x75 SIMD_V128_UNARY;
   D_ 0x76 SIMD_V128_BINARY; D_ 0x77 SIMD_V128_BINARY; D_ 0x78 SIMD_V128_BINARY;
   D_ 0x79 SIMD_V128_BINARY; D_ 0x7a SIMD_V128_UNARY; D_ 0x7b SIMD_V128_BINARY;
   D_ 0x7c SIMD_V128_UNARY; D_ 0x7d SIMD_V128_UNARY; D_ 0x7e SIMD_V128_UNARY;
   D_ 0x7f SIMD_V128_UNARY; D_ 0x80 SIMD_V128_UNARY; D_ 0x81 SIMD_V128_UNARY;
   D_ 0x82 SIMD_V128_BINARY; D_ 0x83 SIMD_V128_TEST_I32; D_ 0x84 SIMD_V128_TEST_I32;
   D_ 0x85 SIMD_V128_BINARY; D_ 0x86 SIMD_V128_BINARY; D_ 0x87 SIMD_V128_UNARY;
   D_ 0x88 SIMD_V128_UNARY; D_ 0x89 SIMD_V128_UNARY; D_ 0x8a SIMD_V128_UNARY;
   D_ 0x8b SIMD_V128_SHIFT; D_ 0x8c SIMD_V128_SHIFT; D_ 0x8d SIMD_V128_SHIFT;
   D_ 0x8e SIMD_V128_BINARY; D_ 0x8f SIMD_V128_BINARY; D_ 0x90 SIMD_V128_BINARY;
   D_ 0x91 SIMD_V128_BINARY; D_ 0x92 SIMD_V128_BINARY; D_ 0x93 SIMD_V128_BINARY;
   D_ 0x94 SIMD_V128_UNARY; D_ 0x95 SIMD_V128_BINARY; D_ 0x96 SIMD_V128_BINARY;
   D_ 0x97 SIMD_V128_BINARY; D_ 0x98 SIMD_V128_BINARY; D_ 0x99 SIMD_V128_BINARY;
   D_ 0x9b SIMD_V128_BINARY; D_ 0x9c SIMD_V128_BINARY; D_ 0x9d SIMD_V128_BINARY;
   D_ 0x9e SIMD_V128_BINARY; D_ 0x9f SIMD_V128_BINARY; D_ 0xa0 SIMD_V128_UNARY;
   D_ 0xa1 SIMD_V128_UNARY; D_ 0xa3 SIMD_V128_TEST_I32; D_ 0xa4 SIMD_V128_TEST_I32;
   D_ 0xa7 SIMD_V128_UNARY; D_ 0xa8 SIMD_V128_UNARY; D_ 0xa9 SIMD_V128_UNARY;
   D_ 0xaa SIMD_V128_UNARY; D_ 0xab SIMD_V128_SHIFT; D_ 0xac SIMD_V128_SHIFT;
   D_ 0xad SIMD_V128_SHIFT; D_ 0xae SIMD_V128_BINARY; D_ 0xb1 SIMD_V128_BINARY;
   D_ 0xb5 SIMD_V128_BINARY; D_ 0xb6 SIMD_V128_BINARY; D_ 0xb7 SIMD_V128_BINARY;
   D_ 0xb8 SIMD_V128_BINARY; D_ 0xb9 SIMD_V128_BINARY; D_ 0xba SIMD_V128_BINARY;
   D_ 0xbc SIMD_V128_BINARY; D_ 0xbd SIMD_V128_BINARY; D_ 0xbe SIMD_V128_BINARY;
   D_ 0xbf SIMD_V128_BINARY; D_ 0xc0 SIMD_V128_UNARY; D_ 0xc1 SIMD_V128_UNARY;
   D_ 0xc3 SIMD_V128_TEST_I32; D_ 0xc4 SIMD_V128_TEST_I32; D_ 0xc7 SIMD_V128_UNARY;
   D_ 0xc8 SIMD_V128_UNARY; D_ 0xc9 SIMD_V128_UNARY; D_ 0xca SIMD_V128_UNARY;
   D_ 0xcb SIMD_V128_SHIFT; D_ 0xcc SIMD_V128_SHIFT; D_ 0xcd SIMD_V128_SHIFT;
   D_ 0xce SIMD_V128_BINARY; D_ 0xd1 SIMD_V128_BINARY; D_ 0xd5 SIMD_V128_BINARY;
   D_ 0xd6 SIMD_V128_BINARY; D_ 0xd7 SIMD_V128_BINARY; D_ 0xd8 SIMD_V128_BINARY;
   D_ 0xd9 SIMD_V128_BINARY; D_ 0xda SIMD_V128_BINARY; D_ 0xdb SIMD_V128_BINARY;
   D_ 0xdc SIMD_V128_BINARY; D_ 0xdd SIMD_V128_BINARY; D_ 0xde SIMD_V128_BINARY;
   D_ 0xdf SIMD_V128_BINARY; D_ 0xe0 SIMD_V128_UNARY; D_ 0xe1 SIMD_V128_UNARY;
   D_ 0xe3 SIMD_V128_UNARY; D_ 0xe4 SIMD_V128_BINARY; D_ 0xe5 SIMD_V128_BINARY;
   D_ 0xe6 SIMD_V128_BINARY; D_ 0xe7 SIMD_V128_BINARY; D_ 0xe8 SIMD_V128_BINARY;
   D_ 0xe9 SIMD_V128_BINARY; D_ 0xea SIMD_V128_BINARY; D_ 0xeb SIMD_V128_BINARY;
   D_ 0xec SIMD_V128_UNARY; D_ 0xed SIMD_V128_UNARY; D_ 0xef SIMD_V128_UNARY;
   D_ 0xf0 SIMD_V128_BINARY; D_ 0xf1 SIMD_V128_BINARY; D_ 0xf2 SIMD_V128_BINARY;
   D_ 0xf3 SIMD_V128_BINARY; D_ 0xf4 SIMD_V128_BINARY; D_ 0xf5 SIMD_V128_BINARY;
   D_ 0xf6 SIMD_V128_BINARY; D_ 0xf7 SIMD_V128_BINARY; D_ 0xf8 SIMD_V128_UNARY;
   D_ 0xf9 SIMD_V128_UNARY; D_ 0xfa SIMD_V128_UNARY; D_ 0xfb SIMD_V128_UNARY;
   D_ 0xfc SIMD_V128_UNARY; D_ 0xfd SIMD_V128_UNARY; D_ 0xfe SIMD_V128_UNARY;
   D_ 0xff SIMD_V128_UNARY; D_ 0x100 SIMD_V128_BINARY; D_ 0x101 SIMD_V128_UNARY;
   D_ 0x102 SIMD_V128_UNARY; D_ 0x103 SIMD_V128_UNARY; D_ 0x104 SIMD_V128_UNARY;
   D_ 0x105 SIMD_V128_TERNARY; D_ 0x106 SIMD_V128_TERNARY; D_ 0x107 SIMD_V128_TERNARY;
   D_ 0x108 SIMD_V128_TERNARY; D_ 0x109 SIMD_V128_TERNARY; D_ 0x10a SIMD_V128_TERNARY;
   D_ 0x10b SIMD_V128_TERNARY; D_ 0x10c SIMD_V128_TERNARY; D_ 0x10d SIMD_V128_BINARY;
   D_ 0x10e SIMD_V128_BINARY; D_ 0x10f SIMD_V128_BINARY; D_ 0x110 SIMD_V128_BINARY;
   D_ 0x111 SIMD_V128_BINARY; D_ 0x112 SIMD_V128_BINARY; D_ 0x113 SIMD_V128_TERNARY
  ].

(** The first entry with the opcode. *)
Definition turbowasm_simd_descriptor_find (opcode : Z) : option turbowasm_simd_descriptor :=
  List.find (fun d => simd_opcode d =? opcode) simd_descriptors.

(** ** Coherence of the tables *)

Definition value_bits (t : turbowasm_atomic_value_type) : Z :=
  match t with ATOMIC_I32 => 32 | ATOMIC_I64 => 64 end.

Definition atomic_entry_ok (sub : Z) (d : turbowasm_atomic_descriptor) : Prop :=
  subopcode d = sub /\ atomic_known d /\ atomic_width d = 2 ^ alignment_log2 d /\
  8 * atomic_width d <= value_bits (atomic_value_type d).

(** The bytes of one lane of a scalar type, as the lane count implies them. *)
Definition scalar_bytes (t : Z) : Z := if (t =? 0x7f) || (t =? 0x7d) then 4 else 8.

(** A lane instruction names lanes of a 16-byte vector whose elements fit the
    scalar; a memory instruction accesses at most 16 bytes. *)
Definition simd_entry_ok (d : turbowasm_simd_descriptor) : bool :=
  match simd_form d with
  | SIMD_SCALAR_SPLAT => existsb (Z.eqb (scalar_type d)) [0x7f; 0x7e; 0x7d; 0x7c]
  | SIMD_LANE_EXTRACT | SIMD_LANE_REPLACE =>
      existsb (Z.eqb (scalar_type d)) [0x7f; 0x7e; 0x7d; 0x7c] &&
      existsb (Z.eqb (lane_count d)) [2; 4; 8; 16] && (16 / lane_count d <=? scalar_bytes (scalar_type d))
  | SIMD_MEMORY_LOAD_LANE | SIMD_MEMORY_STORE_LANE => lane_count d * 2 ^ memory_alignment d =? 16
  | SIMD_MEMORY_LOAD_V128 | SIMD_MEMORY_STORE_V128 => memory_alignment d <=? 4
  | _ => true
  end.

#[global] Instance atomic_width_ok_dec w : Decision (atomic_width_ok w).
Proof. unfold atomic_width_ok. apply _. Defined.
#[global] Instance atomic_entry_ok_dec sub d : Decision (atomic_entry_ok sub d).
Proof. unfold atomic_entry_ok, atomic_known. apply _. Defined.

Lemma atomic_entries i d : atomic_descriptors !! i = Some d -> atomic_entry_ok (Z.of_nat i + 0x10) d.
Proof.
  intros Hi. assert (Hall : forallb (fun '(i, d) => bool_decide (atomic_entry_ok (Z.of_nat i + 0x10) d))
    (imap (fun i d => (i, d)) atomic_descriptors) = true) by (vm_compute; reflexivity).
  rewrite forallb_forall in Hall. apply (bool_decide_eq_true_1 (atomic_entry_ok (Z.of_nat i + 0x10) d)).
  apply (Hall (i, d)), list_elem_of_In, (list_elem_of_lookup_2 _ i).
  by rewrite list_lookup_imap, Hi.
Qed.

(** The instruction tables are coherent. The threads table has an entry for
    exactly the opcodes 0x10 to 0x4e, found under its own opcode, whose access
    is naturally aligned, fits the value type and is an operation the memory
    implements. The SIMD table never lists an opcode twice, and the lane and
    memory shapes of its entries fit a 16-byte vector. *)
Theorem descriptor_tables_coherent sub :
  (0x10 <= sub <= 0x4e <-> is_Some (turbowasm_atomic_descriptor_find sub)) /\
  (forall d, turbowasm_atomic_descriptor_find sub = Some d -> atomic_entry_ok sub d) /\
  NoDup (map simd_opcode simd_descriptors) /\
  (forall d, turbowasm_simd_descriptor_find sub = Some d -> simd_opcode d = sub /\ simd_entry_ok d = true).
Proof.
  assert (Hlen : length atomic_descriptors = 63%nat) by reflexivity.
  unfold turbowasm_atomic_descriptor_find. split_and!.
  - destruct (Z.ltb_spec sub 0x10), (Z.gtb_spec sub 0x4e); simpl; try (split; [lia|by intros [? ?]]).
    split; [intros _|lia]. apply lookup_lt_is_Some_2. lia.
  - intros d. destruct (Z.ltb_spec sub 0x10), (Z.gtb_spec sub 0x4e); simpl; try done.
    intros Hd%atomic_entries. by replace (Z.of_nat (Z.to_nat (sub - 16)) + 16) with sub in Hd by lia.
  - apply (bool_decide_unpack _). vm_compute. exact I.
  - unfold turbowasm_simd_descriptor_find. intros d [Hin Hop]%List.find_some. apply Z.eqb_eq in Hop. split; [done|].
    assert (Hall : forallb simd_entry_ok simd_descriptors = true) by (vm_compute; reflexivity).
    rewrite forallb_forall in Hall. by apply Hall.
Qed.

End OpTables.
