(* ===== verification/Validator.v ===== *)
(** * The instruction validator (src/validate_instr.c)

    The validator abstractly executes a function body on a stack of types. Its
    working state (the reader, the type stack, the control stack with the
    journal of initialized locals, the metadata of the function under
    validation and the context's [requires_store] flag) is threaded by the
    monad [vm], which stops at the first status that is not OK. Arrays that
    grow are the list of their live elements, in index order, with a capacity;
    [realloc_ok n] and [malloc_ok n] say whether the allocator grants [n] bytes. *)

From S2P Require Import Prelude Reader Types Memory TypeEq TypeReader Context OpTables.
From S2P Require ExecStack.

Module Validator.
Import Reader Types TypeEq TypeReader Context OpTables.

Definition TW_I32 : Z := 0x7f.
Definition TW_I64 : Z := 0x7e.
Definition TW_F32 : Z := 0x7d.
Definition TW_F64 : Z := 0x7c.
Definition TW_V128 : Z := 0x7b.
Definition TW_FUNCREF : Z := 0x70.
Definition TW_EXTERNREF : Z := 0x6f.
Definition TW_EXNREF : Z := 0x69.
Definition TW_ANY : Z := 0xff.

(** ** State *)

Record turbowasm_type_stack := mk_tstack {
  tvalues : list turbowasm_validation_value_type;
  tcapacity : Z;
  floor : Z;
  unreachable : bool
}.

Definition tsize (s : turbowasm_type_stack) : Z := Z.of_nat (length (tvalues s)).

Inductive turbowasm_control_kind :=
  | CTRL_FUNCTION
  | CTRL_BLOCK
  | CTRL_LOOP
  | CTRL_IF
  | CTRL_TRY_TABLE.

#[global] Instance ctrl_kind_eq_dec : EqDecision turbowasm_control_kind.
Proof. solve_decision. Defined.

Record turbowasm_control_frame := mk_cframe {
  ckind : turbowasm_control_kind;
  cheight : Z;
  parent_floor : Z;
  parent_unreachable : bool;
  else_seen : bool;
  start_types : list turbowasm_validation_value_type;
  end_types : list turbowasm_validation_value_type;
  annotation_index : Z;
  init_height : Z
}.

(** [journal] is the live part of [initialized_locals]. *)
Record turbowasm_control_stack := mk_cstack {
  cframes : list turbowasm_control_frame;
  ccapacity : Z;
  locals_initialized : list bool;
  journal : list Z
}.

Definition csize (c : turbowasm_control_stack) : Z := Z.of_nat (length (cframes c)).
Definition init_count (c : turbowasm_control_stack) : Z := Z.of_nat (length (journal c)).

Record vstate := mk_vstate {
  v_reader : turbowasm_reader;
  v_stack : turbowasm_type_stack;
  v_controls : turbowasm_control_stack;
  v_function : turbowasm_validation_function;
  v_requires_store : bool
}.

Definition set_reader r s := mk_vstate r (v_stack s) (v_controls s) (v_function s) (v_requires_store s).
Definition set_stack st s := mk_vstate (v_reader s) st (v_controls s) (v_function s) (v_requires_store s).
Definition set_controls c s := mk_vstate (v_reader s) (v_stack s) c (v_function s) (v_requires_store s).
Definition set_function f s := mk_vstate (v_reader s) (v_stack s) (v_controls s) f (v_requires_store s).
Definition set_requires_store b s := mk_vstate (v_reader s) (v_stack s) (v_controls s) (v_function s) b.

(** [values[0..size)], then a new size, floor and reachability. *)
Definition set_values vs (st : turbowasm_type_stack) := mk_tstack vs (tcapacity st) (floor st) (unreachable st).
Definition reframe (size fl : Z) (dead : bool) (st : turbowasm_type_stack) :=
  mk_tstack (take (Z.to_nat size) (tvalues st)) (tcapacity st) fl dead.

Definition set_frames fs (c : turbowasm_control_stack) :=
  mk_cstack fs (ccapacity c) (locals_initialized c) (journal c).

(** ** The monad *)

Definition vm (A : Type) : Type := vstate -> (turbowasm_status + A) * vstate.

#[global] Instance vm_ret : MRet vm := fun A a s => (inr a, s).
#[global] Instance vm_bind : MBind vm := fun A B k m s =>
  match m s with
  | (inl status, s') => (inl status, s')
  | (inr a, s') => k a s'
  end.

Definition vfail {A} (status : turbowasm_status) : vm A := fun s => (inl status, s).
Definition malformed {A} : vm A := vfail TURBOWASM_MALFORMED_MODULE.
Definition guard (bad : bool) (status : turbowasm_status) : vm unit :=
  if bad then vfail status else mret tt.
Definition reject_if (bad : bool) : vm unit := guard bad TURBOWASM_MALFORMED_MODULE.
Definition get : vm vstate := fun s => (inr s, s).
Definition update (f : vstate -> vstate) : vm unit := fun s => (inr tt, f s).

(** A reader run on the body. *)
Definition lift {A} (p : parse A) : vm A := fun s =>
  let '(a, r) := p (v_reader s) in (a, set_reader r s).

(** A lookup whose failure is MALFORMED_MODULE. *)
Definition need {A} (o : option A) : vm A := match o with Some a => mret a | None => malformed end.

(** ** Value types *)

Definition turbowasm_instr_valtype (type : Z) : bool :=
  (type =? TW_I32) || (type =? TW_I64) || (type =? TW_F32) || (type =? TW_F64) ||
  (type =? TW_V128) || (type =? TW_FUNCREF) || (type =? TW_EXTERNREF) || (type =? TW_EXNREF) ||
  (type =? 0x6e).

Definition turbowasm_exnref_type (nullable : bool) : turbowasm_validation_value_type :=
  mk_value_type TW_EXNREF true nullable HEAP_EXN UINT32_MAX None.

(** An element of zeroed storage. *)
Definition zero_value_type : turbowasm_validation_value_type :=
  mk_value_type 0 false false HEAP_NONE 0 None.

Definition with_nullable (b : bool) (v : turbowasm_validation_value_type) :=
  mk_value_type (carrier v) (is_reference v) b (heap_kind v) (type_index v) (definition v).

Definition turbowasm_types_equal (H : type_heap) (left right : list turbowasm_validation_value_type) : bool :=
  (length left =? length right)%nat &&
  forallb (fun '(l, r) => turbowasm_validation_value_type_equal H l r) (zip left right).

Definition turbowasm_gc_type (kind : turbowasm_validation_heap_kind) (nullable : bool) :=
  mk_value_type 0x6e true nullable kind UINT32_MAX None.

(** [(ref null index)] for a struct or array type. *)
Definition gc_index_type (p : nat) (index : Z) : turbowasm_validation_value_type :=
  mk_value_type 0x6e true true HEAP_TYPE_INDEX index (Some p).

Definition sizeof_control_frame : Z := 56.
Definition sizeof_local_group : Z := 32.
Definition sizeof_catch : Z := 12.

(** The index of a block type: a signed LEB128 of at most five bytes that must
    be a u32. *)
Definition block_type_index (buf : list Z) (r : turbowasm_reader) : option Z * turbowasm_reader :=
  match leb_loop buf 6 64 5 (fun _ _ _ => false) r 0 0 0 with
  | (Some (value, shift, count, byte), r') =>
      if (count =? 5) && negb (byte .& 0x70 =? 0) then (None, r')
      else
        let value := if negb (byte .& 0x40 =? 0) && (shift <? 64)
                     then value .| u64 (UINT64_MAX ≪ shift) else value in
        let signed_value := s64 value in
        if (signed_value <? 0) || (signed_value >? UINT32_MAX) then (None, r')
        else (Some signed_value, r')
  | (None, r') => (None, r')
  end.

Section Instructions.
Context (buf : list Z) (realloc_ok malloc_ok : Z -> bool).
Context (H : type_heap) (ctx : turbowasm_validation_context).

Definition uleb32 : vm Z := lift (decode (turbowasm_reader_uleb32 buf)).
Definition uleb64 : vm Z := lift (decode (turbowasm_reader_uleb64 buf)).
Definition byte : vm Z := lift (decode (turbowasm_reader_u8 buf)).
Definition slice (n : Z) : vm turbowasm_reader := lift (decode (fun r => turbowasm_reader_slice r n)).
Definition value_matches := turbowasm_validation_value_type_matches H.

(** ** The type stack *)

Definition turbowasm_stack_reserve (st : turbowasm_type_stack) (required : Z)
    : option turbowasm_type_stack :=
  cap ← ExecStack.ExecStack.reserve realloc_ok sizeof_value_type 8 (tcapacity st) required;
  Some (mk_tstack (tvalues st) cap (floor st) (unreachable st)).

Definition turbowasm_stack_push_semantic (type : turbowasm_validation_value_type) : vm unit :=
  _ ← guard (negb (carrier type =? TW_ANY) && negb (turbowasm_instr_valtype (carrier type)))
        TURBOWASM_INVALID_ARGUMENT;
  s ← get;
  _ ← guard (tsize (v_stack s) =? UINT32_MAX) TURBOWASM_OUT_OF_MEMORY;
  match turbowasm_stack_reserve (v_stack s) (tsize (v_stack s) + 1) with
  | None => vfail TURBOWASM_OUT_OF_MEMORY
  | Some st => update (set_stack (set_values (tvalues st ++ [type]) st))
  end.

Definition turbowasm_stack_push (type : Z) : vm unit :=
  turbowasm_stack_push_semantic (turbowasm_validation_value_type_legacy type).

Definition turbowasm_stack_pop_any_semantic : vm turbowasm_validation_value_type :=
  s ← get;
  let st := v_stack s in
  _ ← reject_if (tsize st <? floor st);
  if tsize st =? floor st then
    _ ← reject_if (negb (unreachable st));
    mret (turbowasm_validation_value_type_legacy TW_ANY)
  else
    actual ← need (last (tvalues st));
    _ ← update (set_stack (set_values (take (length (tvalues st) - 1) (tvalues st)) st));
    mret actual.

Definition turbowasm_stack_pop_any : vm Z :=
  actual ← turbowasm_stack_pop_any_semantic; mret (carrier actual).

Definition turbowasm_stack_pop_semantic_actual (expected : turbowasm_validation_value_type)
    : vm turbowasm_validation_value_type :=
  actual ← turbowasm_stack_pop_any_semantic;
  _ ← reject_if (negb (carrier actual =? TW_ANY) && negb (value_matches actual expected));
  mret actual.

Definition turbowasm_stack_pop_semantic (expected : turbowasm_validation_value_type) : vm unit :=
  _ ← turbowasm_stack_pop_semantic_actual expected; mret tt.

Definition turbowasm_stack_pop (expected : Z) : vm unit :=
  turbowasm_stack_pop_semantic (turbowasm_validation_value_type_legacy expected).

Definition turbowasm_stack_unary (input output : Z) : vm unit :=
  _ ← turbowasm_stack_pop input; turbowasm_stack_push output.

Definition turbowasm_stack_binary (input output : Z) : vm unit :=
  _ ← turbowasm_stack_pop input; _ ← turbowasm_stack_pop input; turbowasm_stack_push output.

(** The descending loops: the last type is popped first. *)
Fixpoint pop_reversed (types : list turbowasm_validation_value_type)
    : vm (list turbowasm_validation_value_type) :=
  match types with
  | [] => mret []
  | t :: rest =>
      a ← turbowasm_stack_pop_semantic_actual t;
      l ← pop_reversed rest;
      mret (l ++ [a])
  end.

Definition turbowasm_stack_pop_types_actual (types : list turbowasm_validation_value_type)
    : vm (list turbowasm_validation_value_type) := pop_reversed (reverse types).

Definition turbowasm_stack_pop_types (types : list turbowasm_validation_value_type) : vm unit :=
  _ ← turbowasm_stack_pop_types_actual types; mret tt.

Fixpoint turbowasm_stack_push_types (types : list turbowasm_validation_value_type) : vm unit :=
  match types with
  | [] => mret tt
  | t :: rest => _ ← turbowasm_stack_push_semantic t; turbowasm_stack_push_types rest
  end.

Definition turbowasm_stack_push_results (type : turbowasm_validation_func_type) : vm unit :=
  turbowasm_stack_push_types (result_semantics type).
Definition turbowasm_stack_pop_params (type : turbowasm_validation_func_type) : vm unit :=
  turbowasm_stack_pop_types (param_semantics type).
Definition turbowasm_pop_results (type : turbowasm_validation_func_type) : vm unit :=
  turbowasm_stack_pop_types (result_semantics type).

Definition turbowasm_validate_result_stack (type : turbowasm_validation_func_type) : vm unit :=
  _ ← turbowasm_pop_results type;
  s ← get;
  reject_if (negb (tsize (v_stack s) =? 0)).

(** ** Blocks and frames *)

Record turbowasm_block_signature := mk_bsig {
  bs_start : list turbowasm_validation_value_type;
  bs_end : list turbowasm_validation_value_type;
  bs_type_index : Z;
  bs_inline_end : turbowasm_validation_value_type
}.

Definition turbowasm_read_block_signature : parse turbowasm_block_signature :=
  n ← remaining;
  _ ← check (n =? 0) TURBOWASM_MALFORMED_MODULE;
  first ← peek buf;
  if first =? 0x40 then
    _ ← decode (turbowasm_reader_u8 buf);
    mret (mk_bsig [] [] UINT32_MAX zero_value_type)
  else if turbowasm_instr_valtype first || ((0x6a <=? first) && (first <=? 0x74)) ||
          (first =? 0x73) || (first =? 0x72) || (first =? 0x63) || (first =? 0x64) then
    tg ← turbowasm_validation_read_valtype buf H (Some (types ctx));
    let inline_end := fst tg in
    _ ← check (bool_decide (heap_kind inline_end = HEAP_TYPE_INDEX) &&
               (type_index inline_end >=? type_count (types ctx))) TURBOWASM_MALFORMED_MODULE;
    mret (mk_bsig [] [inline_end] UINT32_MAX inline_end)
  else
    index ← decode (block_type_index buf);
    match type_at H ctx index with
    | None => fail TURBOWASM_MALFORMED_MODULE
    | Some t =>
        _ ← check (negb (defined t) || negb (bool_decide (type_kind t = TYPE_FUNCTION)))
              TURBOWASM_MALFORMED_MODULE;
        mret (mk_bsig (param_semantics t) (result_semantics t) index zero_value_type)
    end.

Definition turbowasm_control_reserve (c : turbowasm_control_stack) (required : Z)
    : option turbowasm_control_stack :=
  cap ← ExecStack.ExecStack.reserve realloc_ok sizeof_control_frame 8 (ccapacity c) required;
  Some (mk_cstack (cframes c) cap (locals_initialized c) (journal c)).

(** Whether the copy could be allocated. *)
Definition turbowasm_copy_types (source : list turbowasm_validation_value_type) : bool :=
  match source with
  | [] => true
  | _ => malloc_ok (Z.of_nat (length source) * sizeof_value_type)
  end.

Definition turbowasm_control_top (c : turbowasm_control_stack) : option turbowasm_control_frame :=
  last (cframes c).

Definition turbowasm_control_target (c : turbowasm_control_stack) (depth : Z)
    : option turbowasm_control_frame :=
  if depth >=? csize c then None else cframes c !! Z.to_nat (csize c - 1 - depth).

Definition turbowasm_control_push (kind : turbowasm_control_kind)
    (starts ends : list turbowasm_validation_value_type) (annotation : Z) : vm unit :=
  s ← get;
  _ ← guard (csize (v_controls s) =? UINT32_MAX) TURBOWASM_OUT_OF_MEMORY;
  _ ← guard (negb (turbowasm_copy_types starts && turbowasm_copy_types ends)) TURBOWASM_OUT_OF_MEMORY;
  _ ← turbowasm_stack_pop_types starts;
  s ← get;
  let st := v_stack s in
  match turbowasm_control_reserve (v_controls s) (csize (v_controls s) + 1) with
  | None => vfail TURBOWASM_OUT_OF_MEMORY
  | Some c =>
      let frame := mk_cframe kind (tsize st) (floor st) (unreachable st) false starts ends
                     annotation (init_count c) in
      _ ← update (set_controls (set_frames (cframes c ++ [frame]) c));
      _ ← update (set_stack (mk_tstack (tvalues st) (tcapacity st) (tsize st) false));
      turbowasm_stack_push_types starts
  end.

Definition turbowasm_control_mark_unreachable : vm unit :=
  update (fun s => set_stack (reframe (floor (v_stack s)) (floor (v_stack s)) true (v_stack s)) s).

(** Undo the journal entries above [height]. *)
Definition turbowasm_control_reset_locals (height : Z) (c : turbowasm_control_stack)
    : turbowasm_control_stack :=
  mk_cstack (cframes c) (ccapacity c)
    (foldl (fun init i => <[Z.to_nat i := false]> init) (locals_initialized c)
       (reverse (drop (Z.to_nat height) (journal c))))
    (take (Z.to_nat height) (journal c)).

Definition turbowasm_control_validate_end (frame : turbowasm_control_frame) : vm unit :=
  _ ← turbowasm_stack_pop_types (end_types frame);
  s ← get;
  reject_if (negb (tsize (v_stack s) =? cheight frame)).

Definition with_else_seen (f : turbowasm_control_frame) : turbowasm_control_frame :=
  mk_cframe (ckind f) (cheight f) (parent_floor f) (parent_unreachable f) true (start_types f)
    (end_types f) (annotation_index f) (init_height f).

Definition turbowasm_control_else : vm unit :=
  s ← get;
  frame ← need (turbowasm_control_top (v_controls s));
  _ ← reject_if (negb (bool_decide (ckind frame = CTRL_IF)) || else_seen frame);
  _ ← turbowasm_control_validate_end frame;
  _ ← update (fun s => set_stack (reframe (cheight frame) (cheight frame) false (v_stack s)) s);
  _ ← turbowasm_stack_push_types (start_types frame);
  update (fun s =>
    let c := v_controls s in
    let c := set_frames (take (length (cframes c) - 1) (cframes c) ++ [with_else_seen frame]) c in
    set_controls (turbowasm_control_reset_locals (init_height frame) c) s).

Definition turbowasm_control_end : vm unit :=
  s ← get;
  frame ← need (turbowasm_control_top (v_controls s));
  _ ← reject_if (bool_decide (ckind frame = CTRL_FUNCTION));
  _ ← reject_if (bool_decide (ckind frame = CTRL_IF) && negb (else_seen frame) &&
                 negb (turbowasm_types_equal H (start_types frame) (end_types frame)));
  _ ← turbowasm_control_validate_end frame;
  _ ← update (fun s =>
        set_stack (reframe (cheight frame) (parent_floor frame) (parent_unreachable frame) (v_stack s)) s);
  _ ← update (fun s =>
        let c := turbowasm_control_reset_locals (init_height frame) (v_controls s) in
        set_controls (set_frames (take (length (cframes c) - 1) (cframes c)) c) s);
  turbowasm_stack_push_types (end_types frame).

Definition turbowasm_control_label_types (target : turbowasm_control_frame)
    : list turbowasm_validation_value_type :=
  if bool_decide (ckind target = CTRL_LOOP) then start_types target else end_types target.

Definition turbowasm_control_branch (depth : Z) (conditional : bool) : vm unit :=
  s ← get;
  target ← need (turbowasm_control_target (v_controls s) depth);
  let labels := turbowasm_control_label_types target in
  _ ← turbowasm_stack_pop_types labels;
  if conditional then turbowasm_stack_push_types labels else turbowasm_control_mark_unreachable.

(** ** Locals *)

(** The loop over the declared groups; [total] counts the locals so far. *)
Fixpoint read_local_groups (n : nat) (total : Z)
    : parse (list (Z * turbowasm_validation_value_type) * Z) :=
  match n with
  | O => mret ([], total)
  | S n' =>
      count ← decode (turbowasm_reader_uleb32 buf);
      tg ← turbowasm_validation_read_valtype buf H (Some (types ctx));
      let type := fst tg in
      _ ← check (bool_decide (heap_kind type = HEAP_TYPE_INDEX) &&
                 (type_index type >=? type_count (types ctx))) TURBOWASM_MALFORMED_MODULE;
      _ ← check (total + count >? UINT32_MAX) TURBOWASM_MALFORMED_MODULE;
      rest ← read_local_groups n' (total + count);
      mret ((count, type) :: fst rest, snd rest)
  end.

(** The carriers and types of the parameters and the declared locals. *)
Definition turbowasm_read_locals (function_type : turbowasm_validation_func_type)
    : parse (list Z * list turbowasm_validation_value_type) :=
  group_count ← decode (turbowasm_reader_uleb32 buf);
  _ ← check (negb (group_count =? 0) && (group_count * sizeof_local_group >? ExecStack.ExecStack.SIZE_MAX))
        TURBOWASM_OUT_OF_MEMORY;
  _ ← check (negb (group_count =? 0) && negb (malloc_ok (group_count * sizeof_local_group)))
        TURBOWASM_OUT_OF_MEMORY;
  gt ← read_local_groups (Z.to_nat group_count) (param_count function_type);
  let '(groups, total) := gt in
  _ ← check (negb (total =? 0) && negb (malloc_ok total && malloc_ok (total * sizeof_value_type)))
        TURBOWASM_OUT_OF_MEMORY;
  mret (params function_type ++ concat (map (fun '(n, t) => replicate (Z.to_nat n) (carrier t)) groups),
        param_semantics function_type ++ concat (map (fun '(n, t) => replicate (Z.to_nat n) t) groups)).

(** ** Calls *)

Definition turbowasm_validate_call : vm unit :=
  function_index ← uleb32;
  type ← need (turbowasm_validation_context_function_type H ctx function_index);
  _ ← turbowasm_stack_pop_params type;
  turbowasm_stack_push_results type.

Definition table_address (t : turbowasm_validation_table) : Z :=
  if table64 (table_limits t) then TW_I64 else TW_I32.

(** A type index that must name a function type. *)
Definition function_type_at (index : Z) : vm turbowasm_validation_func_type :=
  type ← need (type_at H ctx index);
  _ ← reject_if (negb (defined type) || negb (bool_decide (type_kind type = TYPE_FUNCTION)));
  mret type.

Definition funcref_table (index : Z) : vm turbowasm_validation_table :=
  t ← need (at_index (tables ctx) index);
  _ ← reject_if (negb (reference_type t =? TW_FUNCREF));
  mret t.

Definition turbowasm_validate_call_indirect : vm unit :=
  index ← uleb32;
  table_index ← uleb32;
  t ← funcref_table table_index;
  type ← function_type_at index;
  _ ← turbowasm_stack_pop (table_address t);
  _ ← turbowasm_stack_pop_params type;
  turbowasm_stack_push_results type.

Definition turbowasm_tail_results_match (callee current : turbowasm_validation_func_type) : bool :=
  defined callee && defined current &&
  (length (result_semantics callee) =? length (result_semantics current))%nat &&
  forallb (fun '(a, b) => value_matches a b) (zip (result_semantics callee) (result_semantics current)).

Definition turbowasm_validate_return_call (current : turbowasm_validation_func_type) : vm unit :=
  function_index ← uleb32;
  callee ← need (turbowasm_validation_context_function_type H ctx function_index);
  _ ← reject_if (negb (turbowasm_tail_results_match callee current));
  turbowasm_stack_pop_params callee.

Definition turbowasm_validate_return_call_indirect (current : turbowasm_validation_func_type) : vm unit :=
  index ← uleb32;
  table_index ← uleb32;
  t ← funcref_table table_index;
  callee ← function_type_at index;
  _ ← reject_if (negb (turbowasm_tail_results_match callee current));
  _ ← turbowasm_stack_pop (table_address t);
  turbowasm_stack_pop_params callee.

(** [tail_type] is the current function's type in a tail call. *)
Definition turbowasm_validate_call_ref (tail_type : option turbowasm_validation_func_type) : vm unit :=
  index ← uleb32;
  type ← function_type_at index;
  _ ← reject_if (match tail_type with
                 | Some current => negb (turbowasm_tail_results_match type current)
                 | None => false
                 end);
  let reference := mk_value_type TW_FUNCREF true true HEAP_TYPE_INDEX index
                     (turbowasm_validation_context_type (types ctx) index) in
  _ ← turbowasm_stack_pop_semantic reference;
  _ ← turbowasm_stack_pop_params type;
  match tail_type with
  | Some _ => turbowasm_control_mark_unreachable
  | None => turbowasm_stack_push_results type
  end.

Definition turbowasm_validate_ref_branch (branch_on_non_null : bool) : vm unit :=
  depth ← uleb32;
  s ← get;
  target ← need (turbowasm_control_target (v_controls s) depth);
  reference ← turbowasm_stack_pop_any_semantic;
  _ ← reject_if (negb (carrier reference =? TW_ANY) && negb (is_reference reference));
  let reference := with_nullable false reference in
  if negb branch_on_non_null then
    _ ← turbowasm_control_branch depth true;
    turbowasm_stack_push_semantic reference
  else
    let labels := turbowasm_control_label_types target in
    _ ← reject_if (match last labels with None => true | Some l => negb (is_reference l) end);
    _ ← turbowasm_stack_push_semantic reference;
    _ ← turbowasm_stack_pop_types labels;
    turbowasm_stack_push_types (take (length labels - 1) labels).

(** ** Memory *)

Definition memory_address (m : turbowasm_validation_memory) : Z :=
  if vm_memory64 m then TW_I64 else TW_I32.

Definition turbowasm_validate_indexed_memarg (maximum_alignment : Z) : vm Z :=
  flags ← uleb32;
  _ ← reject_if (flags >=? 0x80);
  memory_index ← (if negb (flags .& 0x40 =? 0) then uleb32 else mret 0);
  m ← need (at_index (memories ctx) memory_index);
  _ ← (if vm_memory64 m then uleb64 else uleb32);
  _ ← reject_if (flags .& 0x3f >? maximum_alignment);
  mret (memory_address m).

Definition turbowasm_validate_load (result_type maximum_alignment : Z) : vm unit :=
  address_type ← turbowasm_validate_indexed_memarg maximum_alignment;
  _ ← turbowasm_stack_pop address_type;
  turbowasm_stack_push result_type.

Definition turbowasm_validate_store (value_type maximum_alignment : Z) : vm unit :=
  address_type ← turbowasm_validate_indexed_memarg maximum_alignment;
  _ ← turbowasm_stack_pop value_type;
  turbowasm_stack_pop address_type.

Definition turbowasm_validate_memory_size_or_grow (grow : bool) : vm unit :=
  memory_index ← uleb32;
  m ← need (at_index (memories ctx) memory_index);
  _ ← (if grow then turbowasm_stack_pop (memory_address m) else mret tt);
  turbowasm_stack_push (memory_address m).

Definition turbowasm_validate_conversion (input_type output_type : Z) : vm unit :=
  turbowasm_stack_unary input_type output_type.

(** ** Exceptions *)

Definition turbowasm_catch_payload_matches_label (target : turbowasm_control_frame)
    (kind : turbowasm_validation_catch_kind) (tag_index : Z) : bool :=
  let with_ref := bool_decide (kind = VALIDATION_CATCH_REF) || bool_decide (kind = VALIDATION_CATCH_ALL_REF) in
  let labels := turbowasm_control_label_types target in
  let payload :=
    if bool_decide (kind = VALIDATION_CATCH) || bool_decide (kind = VALIDATION_CATCH_REF) then
      tag ← turbowasm_validation_context_tag ctx tag_index;
      t ← type_at H ctx (tag_type_index tag);
      if negb (defined t) || negb (result_count t =? 0) then None else Some (param_semantics t)
    else Some [] in
  match payload with
  | None => false
  | Some ps =>
      let param_count := Z.of_nat (length ps) in
      if with_ref && (param_count =? UINT32_MAX) then false
      else if negb (Z.of_nat (length labels) =? param_count + (if with_ref then 1 else 0)) then false
      else forallb (fun '(p, l) => value_matches p l) (zip ps labels) &&
           (negb with_ref ||
            match labels !! length ps with
            | Some l => value_matches (turbowasm_exnref_type false) l
            | None => false
            end)
  end.

Definition catch_kind_of (kind : Z) : option turbowasm_validation_catch_kind :=
  switch kind [(0, Some VALIDATION_CATCH); (1, Some VALIDATION_CATCH_REF);
               (2, Some VALIDATION_CATCH_ALL); (3, Some VALIDATION_CATCH_ALL_REF)] None.

Fixpoint read_catch_list (n : nat) : vm (list turbowasm_validation_catch) :=
  match n with
  | O => mret []
  | S n' =>
      b ← byte;
      kind ← need (catch_kind_of b);
      tag ← (if bool_decide (kind = VALIDATION_CATCH) || bool_decide (kind = VALIDATION_CATCH_REF)
             then uleb32 else mret UINT32_MAX);
      depth ← uleb32;
      s ← get;
      target ← need (turbowasm_control_target (v_controls s) depth);
      _ ← reject_if (negb (turbowasm_catch_payload_matches_label target kind tag));
      rest ← read_catch_list n';
      mret (mk_catch kind tag depth :: rest)
  end.

Definition turbowasm_read_try_catches : vm (list turbowasm_validation_catch) :=
  count ← uleb32;
  _ ← guard (negb (count =? 0) && negb (malloc_ok (count * sizeof_catch))) TURBOWASM_OUT_OF_MEMORY;
  read_catch_list (Z.to_nat count).

Definition turbowasm_validate_throw : vm unit :=
  tag_index ← uleb32;
  tag ← need (turbowasm_validation_context_tag ctx tag_index);
  type ← function_type_at (tag_type_index tag);
  _ ← reject_if (negb (result_count type =? 0));
  _ ← turbowasm_stack_pop_types (param_semantics type);
  turbowasm_control_mark_unreachable.

Definition turbowasm_validate_throw_ref : vm unit :=
  _ ← turbowasm_stack_pop_semantic (turbowasm_exnref_type true);
  turbowasm_control_mark_unreachable.

(** ** br_table *)

Fixpoint read_depths (n : nat) : vm (list Z) :=
  match n with
  | O => mret []
  | S n' => d ← uleb32; rest ← read_depths n'; mret (d :: rest)
  end.

(** Each label takes its operands off the stack and puts back what was there. *)
Fixpoint check_labels (depths : list Z) (arity : nat) : vm unit :=
  match depths with
  | [] => mret tt
  | d :: rest =>
      s ← get;
      target ← need (turbowasm_control_target (v_controls s) d);
      let labels := turbowasm_control_label_types target in
      _ ← reject_if (negb (length labels =? arity)%nat);
      actual ← turbowasm_stack_pop_types_actual labels;
      _ ← turbowasm_stack_push_types actual;
      check_labels rest arity
  end.

Definition turbowasm_validate_br_table : vm unit :=
  count ← uleb32;
  _ ← guard (negb (count =? 0) && negb (malloc_ok (count * 4))) TURBOWASM_OUT_OF_MEMORY;
  depths ← read_depths (Z.to_nat count);
  default_depth ← uleb32;
  s ← get;
  target ← need (turbowasm_control_target (v_controls s) default_depth);
  let default_types := turbowasm_control_label_types target in
  _ ← turbowasm_stack_pop TW_I32;
  _ ← guard (negb (turbowasm_copy_types default_types)) TURBOWASM_OUT_OF_MEMORY;
  _ ← check_labels depths (length default_types);
  _ ← turbowasm_stack_pop_types default_types;
  turbowasm_control_mark_unreachable.

(** ** Garbage collection *)

Definition turbowasm_gc_pop (type : turbowasm_validation_value_type) : vm unit :=
  turbowasm_stack_pop_semantic type.

Definition defaultable (t : turbowasm_validation_value_type) : bool :=
  negb (is_reference t && negb (nullable t)).

Fixpoint pop_copies (n : nat) (t : turbowasm_validation_value_type) : vm unit :=
  match n with
  | O => mret tt
  | S n' => _ ← turbowasm_gc_pop t; pop_copies n' t
  end.

(** The operand count of [array.new_fixed]: in unreachable code no more than
    the operands that are there. *)
Definition fixed_count (extra : Z) : vm Z :=
  s ← get;
  let have := tsize (v_stack s) - floor (v_stack s) in
  if extra >? have then _ ← reject_if (negb (unreachable (v_stack s))); mret have else mret extra.

(** Opcodes 0 to 19 except 15: they name a struct or array type [t], and all
    but the first two a field of it. *)
Definition gc_typed (op : Z) (t : turbowasm_validation_func_type)
    (reference : turbowasm_validation_value_type) (field : turbowasm_validation_field) : vm unit :=
  let ft := field_type field in
  let push_new := turbowasm_stack_push_semantic (with_nullable false reference) in
  if op =? 0 then
    _ ← turbowasm_stack_pop_types (map field_type (fields t)); push_new
  else if op =? 1 then
    _ ← reject_if (negb (forallb (fun f => defaultable (field_type f)) (fields t))); push_new
  else if (op =? 2) || (op =? 3) || (op =? 4) || (op =? 11) || (op =? 12) || (op =? 13) then
    _ ← reject_if (negb (Bool.eqb (negb (packed_bits field =? 0)) (negb (op =? 2) && negb (op =? 11))));
    _ ← (if op >=? 11 then turbowasm_stack_pop TW_I32 else mret tt);
    _ ← turbowasm_gc_pop reference;
    turbowasm_stack_push_semantic ft
  else if (op =? 5) || (op =? 14) || (op =? 16) then
    _ ← reject_if (negb (mutable_value field));
    _ ← (if op =? 16 then turbowasm_stack_pop TW_I32 else mret tt);
    _ ← turbowasm_gc_pop ft;
    _ ← (if op =? 5 then mret tt else turbowasm_stack_pop TW_I32);
    turbowasm_gc_pop reference
  else if op =? 8 then
    extra ← uleb32;
    n ← fixed_count extra;
    _ ← pop_copies (Z.to_nat n) ft; push_new
  else if (op =? 6) || (op =? 7) then
    _ ← turbowasm_stack_pop TW_I32;
    _ ← reject_if ((op =? 7) && negb (defaultable ft));
    _ ← pop_copies (if op =? 6 then 1 else 0) ft; push_new
  else if (op =? 9) || (op =? 10) || (op =? 18) || (op =? 19) then
    extra ← uleb32;
    _ ← (if (op =? 9) || (op =? 18) then
           reject_if (negb (has_data_count ctx) || (extra >=? data_count ctx) || is_reference ft)
         else e ← need (at_index (element_segments ctx) extra);
              reject_if (negb (value_matches (elem_semantic e) ft)));
    _ ← turbowasm_stack_pop TW_I32;
    _ ← turbowasm_stack_pop TW_I32;
    if op >=? 18 then
      _ ← reject_if (negb (mutable_value field));
      _ ← turbowasm_stack_pop TW_I32;
      turbowasm_gc_pop reference
    else push_new
  else if op =? 17 then
    extra ← uleb32;
    p ← need (turbowasm_validation_context_type (types ctx) extra);
    source ← need (H !! p);
    _ ← reject_if (negb (bool_decide (type_kind source = TYPE_ARRAY)) || negb (mutable_value field));
    source_field ← need (fields source !! 0%nat);
    _ ← reject_if (negb (packed_bits field =? packed_bits source_field) ||
                   negb (value_matches (field_type source_field) ft));
    _ ← turbowasm_stack_pop TW_I32;
    _ ← turbowasm_stack_pop TW_I32;
    _ ← turbowasm_gc_pop (gc_index_type p extra);
    _ ← turbowasm_stack_pop TW_I32;
    turbowasm_gc_pop reference
  else malformed.

Definition gc_cast_branch (op : Z) : vm unit :=
  flags ← byte;
  _ ← reject_if (flags >? 3);
  depth ← uleb32;
  reference ← lift (turbowasm_validation_read_heaptype buf H (Some (types ctx)) (negb (flags .& 1 =? 0)));
  other ← lift (turbowasm_validation_read_heaptype buf H (Some (types ctx)) (negb (flags .& 2 =? 0)));
  _ ← reject_if (negb (value_matches other reference));
  s ← get;
  target ← need (turbowasm_control_target (v_controls s) depth);
  let labels := turbowasm_control_label_types target in
  let difference := with_nullable (nullable reference && negb (nullable other)) reference in
  let branch := if op =? 24 then other else difference in
  let rest := take (length labels - 1) labels in
  _ ← reject_if (match last labels with Some l => negb (value_matches branch l) | None => true end);
  _ ← turbowasm_gc_pop reference;
  _ ← turbowasm_stack_pop_types rest;
  _ ← turbowasm_stack_push_types rest;
  turbowasm_stack_push_semantic (if op =? 24 then difference else other).

(** Opcodes 15 and 20 to 30. *)
Definition gc_untyped (op : Z) : vm unit :=
  if op =? 15 then
    _ ← turbowasm_gc_pop (turbowasm_gc_type HEAP_ARRAY true); turbowasm_stack_push TW_I32
  else if (op =? 20) || (op =? 21) || (op =? 22) || (op =? 23) then
    reference ← lift (turbowasm_validation_read_heaptype buf H (Some (types ctx)) (negb (op .& 1 =? 0)));
    _ ← turbowasm_gc_pop (turbowasm_validation_value_type_legacy (carrier reference));
    if op <=? 21 then turbowasm_stack_push TW_I32 else turbowasm_stack_push_semantic reference
  else if (op =? 24) || (op =? 25) then gc_cast_branch op
  else if (op =? 26) || (op =? 27) then
    reference ← turbowasm_stack_pop_semantic_actual
                  (turbowasm_validation_value_type_legacy (if op =? 26 then TW_EXTERNREF else 0x6e));
    let other := turbowasm_validation_value_type_legacy (if op =? 26 then 0x6e else TW_EXTERNREF) in
    turbowasm_stack_push_semantic
      (with_nullable (if carrier reference =? TW_ANY then false else nullable reference) other)
  else if op =? 28 then
    _ ← turbowasm_stack_pop TW_I32;
    turbowasm_stack_push_semantic (turbowasm_gc_type HEAP_I31 false)
  else if (op =? 29) || (op =? 30) then
    _ ← turbowasm_gc_pop (turbowasm_gc_type HEAP_I31 true); turbowasm_stack_push TW_I32
  else malformed.

Definition zero_field : turbowasm_validation_field := mk_field zero_value_type 0 false.

Definition turbowasm_validate_gc : vm unit :=
  op ← uleb32;
  _ ← reject_if (op >? 30);
  _ ← update (set_requires_store true);
  if (op <=? 19) && negb (op =? 15) then
    index ← uleb32;
    p ← need (turbowasm_validation_context_type (types ctx) index);
    t ← need (H !! p);
    _ ← reject_if (negb (bool_decide (type_kind t = if op <=? 5 then TYPE_STRUCT else TYPE_ARRAY)));
    field ← (if (op >=? 2) && (op <=? 5) then
               extra ← uleb32;
               _ ← reject_if (extra >=? Z.of_nat (length (fields t)));
               need (fields t !! Z.to_nat extra)
             else if op >=? 6 then need (fields t !! 0%nat)
             else mret zero_field);
    gc_typed op t (gc_index_type p index) field
  else gc_untyped op.

(** ** Saturating conversions and bulk operations *)

Definition turbowasm_stack_pop_i32_n (count : nat) : vm unit :=
  pop_copies count (turbowasm_validation_value_type_legacy TW_I32).

Definition data_index_ok (data_index : Z) : bool :=
  has_data_count ctx && (data_index <? data_count ctx).

Definition fc_memory (subopcode : Z) : vm unit :=
  if subopcode =? 8 then
    data_index ← uleb32;
    memory_index ← uleb32;
    m ← need (at_index (memories ctx) memory_index);
    _ ← reject_if (negb (data_index_ok data_index));
    _ ← turbowasm_stack_pop TW_I32;
    _ ← turbowasm_stack_pop TW_I32;
    turbowasm_stack_pop (memory_address m)
  else if subopcode =? 9 then
    data_index ← uleb32;
    reject_if (negb (data_index_ok data_index))
  else if subopcode =? 10 then
    destination_memory ← uleb32;
    source_memory ← uleb32;
    d ← need (at_index (memories ctx) destination_memory);
    m ← need (at_index (memories ctx) source_memory);
    let length_type := if (memory_address d =? TW_I32) || (memory_address m =? TW_I32)
                       then TW_I32 else TW_I64 in
    _ ← turbowasm_stack_pop length_type;
    _ ← turbowasm_stack_pop (memory_address m);
    turbowasm_stack_pop (memory_address d)
  else
    memory_index ← uleb32;
    m ← need (at_index (memories ctx) memory_index);
    _ ← turbowasm_stack_pop (memory_address m);
    _ ← turbowasm_stack_pop TW_I32;
    turbowasm_stack_pop (memory_address m).

Definition fc_table (subopcode : Z) : vm unit :=
  if subopcode =? 12 then
    element_index ← uleb32;
    table_index ← uleb32;
    e ← need (at_index (element_segments ctx) element_index);
    t ← need (at_index (tables ctx) table_index);
    _ ← reject_if (negb (value_matches (elem_semantic e) (table_semantic t)));
    _ ← turbowasm_stack_pop_i32_n 2;
    turbowasm_stack_pop (table_address t)
  else if subopcode =? 13 then
    element_index ← uleb32;
    reject_if (element_index >=? count (element_segments ctx))
  else if subopcode =? 14 then
    destination_table ← uleb32;
    source_table ← uleb32;
    d ← need (at_index (tables ctx) destination_table);
    t ← need (at_index (tables ctx) source_table);
    _ ← reject_if (negb (value_matches (table_semantic t) (table_semantic d)));
    _ ← turbowasm_stack_pop (if table64 (table_limits t) && table64 (table_limits d) then TW_I64 else TW_I32);
    _ ← turbowasm_stack_pop (table_address t);
    turbowasm_stack_pop (table_address d)
  else
    table_index ← uleb32;
    t ← need (at_index (tables ctx) table_index);
    if subopcode =? 15 then
      _ ← turbowasm_stack_pop (table_address t);
      _ ← turbowasm_stack_pop_semantic (table_semantic t);
      turbowasm_stack_push (table_address t)
    else if subopcode =? 16 then turbowasm_stack_push (table_address t)
    else
      _ ← turbowasm_stack_pop (table_address t);
      _ ← turbowasm_stack_pop_semantic (table_semantic t);
      turbowasm_stack_pop (table_address t).

Definition turbowasm_validate_fc : vm unit :=
  subopcode ← uleb32;
  if subopcode <=? 1 then turbowasm_validate_conversion TW_F32 TW_I32
  else if subopcode <=? 3 then turbowasm_validate_conversion TW_F64 TW_I32
  else if subopcode <=? 5 then turbowasm_validate_conversion TW_F32 TW_I64
  else if subopcode <=? 7 then turbowasm_validate_conversion TW_F64 TW_I64
  else if subopcode <=? 11 then fc_memory subopcode
  else if subopcode <=? 17 then fc_table subopcode
  else vfail TURBOWASM_UNSUPPORTED.

(** ** Threads *)

Definition turbowasm_validate_atomic_memarg_alignment (required_alignment : Z) : vm Z :=
  s ← get;
  match turbowasm_reader_uleb32 buf (v_reader s) with
  | (Some flags, _) =>
      _ ← reject_if (negb (flags .& 0x3f =? required_alignment));
      turbowasm_validate_indexed_memarg required_alignment
  | (None, _) => malformed
  end.

(** Pop the operands, the last first, then the address; the wait and notify
    instructions and the read-modify-writes push a result. *)
Fixpoint pop_carriers (types : list Z) : vm unit :=
  match types with
  | [] => mret tt
  | t :: rest => _ ← turbowasm_stack_pop t; pop_carriers rest
  end.

Definition atomic_shape (alignment : Z) (operands : list Z) (result : option Z) : vm unit :=
  address_type ← turbowasm_validate_atomic_memarg_alignment alignment;
  _ ← pop_carriers operands;
  _ ← turbowasm_stack_pop address_type;
  match result with Some t => turbowasm_stack_push t | None => mret tt end.

Definition turbowasm_validate_atomic : vm unit :=
  subopcode ← uleb32;
  if subopcode =? 0 then atomic_shape 2 [TW_I32] (Some TW_I32)
  else if subopcode =? 1 then atomic_shape 2 [TW_I64; TW_I32] (Some TW_I32)
  else if subopcode =? 2 then atomic_shape 3 [TW_I64; TW_I64] (Some TW_I32)
  else if subopcode =? 3 then reserved ← byte; reject_if (negb (reserved =? 0))
  else
    match turbowasm_atomic_descriptor_find subopcode with
    | None => vfail TURBOWASM_UNSUPPORTED
    | Some d =>
        let type := match Memory.Memory.atomic_value_type d with
                    | Memory.Memory.ATOMIC_I32 => TW_I32
                    | Memory.Memory.ATOMIC_I64 => TW_I64
                    end in
        let align := Memory.Memory.alignment_log2 d in
        match Memory.Memory.atomic_kind d with
        | Memory.Memory.ATOMIC_LOAD => atomic_shape align [] (Some type)
        | Memory.Memory.ATOMIC_STORE => atomic_shape align [type] None
        | Memory.Memory.ATOMIC_RMW => atomic_shape align [type] (Some type)
        | Memory.Memory.ATOMIC_CMPXCHG => atomic_shape align [type; type] (Some type)
        end
    end.

(** ** SIMD *)

Fixpoint read_lanes (n : nat) : vm unit :=
  match n with
  | O => mret tt
  | S n' => lane ← byte; _ ← reject_if (lane >=? 32); read_lanes n'
  end.

Definition read_lane (d : turbowasm_simd_descriptor) : vm unit :=
  lane ← byte; reject_if (lane >=? lane_count d).

Definition turbowasm_validate_simd_descriptor (d : turbowasm_simd_descriptor) : vm unit :=
  match simd_form d with
  | SIMD_CONST_V128 => _ ← slice 16; turbowasm_stack_push TW_V128
  | SIMD_SHUFFLE => _ ← read_lanes 16; turbowasm_stack_binary TW_V128 TW_V128
  | SIMD_V128_UNARY => turbowasm_stack_unary TW_V128 TW_V128
  | SIMD_V128_BINARY => turbowasm_stack_binary TW_V128 TW_V128
  | SIMD_V128_TERNARY =>
      _ ← turbowasm_stack_pop TW_V128;
      _ ← turbowasm_stack_pop TW_V128;
      _ ← turbowasm_stack_pop TW_V128;
      turbowasm_stack_push TW_V128
  | SIMD_V128_TEST_I32 => turbowasm_stack_unary TW_V128 TW_I32
  | SIMD_SCALAR_SPLAT => turbowasm_stack_unary (scalar_type d) TW_V128
  | SIMD_LANE_EXTRACT => _ ← read_lane d; turbowasm_stack_unary TW_V128 (scalar_type d)
  | SIMD_LANE_REPLACE =>
      _ ← read_lane d;
      _ ← turbowasm_stack_pop (scalar_type d);
      _ ← turbowasm_stack_pop TW_V128;
      turbowasm_stack_push TW_V128
  | SIMD_V128_SHIFT =>
      _ ← turbowasm_stack_pop TW_I32;
      _ ← turbowasm_stack_pop TW_V128;
      turbowasm_stack_push TW_V128
  | SIMD_MEMORY_LOAD_V128 => turbowasm_validate_load TW_V128 (memory_alignment d)
  | SIMD_MEMORY_STORE_V128 => turbowasm_validate_store TW_V128 (memory_alignment d)
  | SIMD_MEMORY_LOAD_LANE =>
      address_type ← turbowasm_validate_indexed_memarg (memory_alignment d);
      _ ← read_lane d;
      _ ← turbowasm_stack_pop TW_V128;
      _ ← turbowasm_stack_pop address_type;
      turbowasm_stack_push TW_V128
  | SIMD_MEMORY_STORE_LANE =>
      address_type ← turbowasm_validate_indexed_memarg (memory_alignment d);
      _ ← read_lane d;
      _ ← turbowasm_stack_pop TW_V128;
      turbowasm_stack_pop address_type
  end.

Definition turbowasm_validate_simd : vm unit :=
  subopcode ← uleb32;
  match turbowasm_simd_descriptor_find subopcode with
  | None => vfail TURBOWASM_UNSUPPORTED
  | Some d => turbowasm_validate_simd_descriptor d
  end.

(** ** The cases of the dispatcher *)

Section Body.
Context (function_type : turbowasm_validation_func_type)
        (semantics : list turbowasm_validation_value_type) (code_start : option Z).

(** [body->cursor - code_start] *)
Definition code_offset (s : vstate) : Z :=
  default 0 (cursor (v_reader s)) - default 0 code_start.

Definition append_annotation (a : turbowasm_validation_control) : vm Z :=
  s ← get;
  match turbowasm_validation_function_append_control realloc_ok (v_function s) a with
  | None => vfail TURBOWASM_OUT_OF_MEMORY
  | Some (f, index) => _ ← update (set_function f); mret index
  end.

Definition opcode_position : vm Z :=
  s ← get;
  _ ← reject_if (is_null code_start || (code_offset s <=? 0) || (code_offset s - 1 >? UINT32_MAX));
  mret (code_offset s - 1).

Definition body_position : vm Z :=
  s ← get;
  _ ← guard (code_offset s >? UINT32_MAX) TURBOWASM_OUT_OF_MEMORY;
  mret (code_offset s).

(** block, loop, if *)
Definition op_block (opcode : Z) : vm unit :=
  let kind := if opcode =? 0x02 then CTRL_BLOCK else if opcode =? 0x03 then CTRL_LOOP else CTRL_IF in
  let annotation_kind := if opcode =? 0x02 then VALIDATION_CONTROL_BLOCK
                         else if opcode =? 0x03 then VALIDATION_CONTROL_LOOP else VALIDATION_CONTROL_IF in
  at_opcode ← opcode_position;
  _ ← (if opcode =? 0x04 then turbowasm_stack_pop TW_I32 else mret tt);
  signature ← lift turbowasm_read_block_signature;
  at_body ← body_position;
  index ← append_annotation
            (mk_control annotation_kind at_opcode at_body UINT32_MAX UINT32_MAX (bs_type_index signature)
               (carrier (bs_inline_end signature)) []);
  turbowasm_control_push kind (bs_start signature) (bs_end signature) index.

Definition op_try_table : vm unit :=
  at_opcode ← opcode_position;
  signature ← lift turbowasm_read_block_signature;
  cs ← turbowasm_read_try_catches;
  at_body ← body_position;
  index ← append_annotation
            (mk_control VALIDATION_CONTROL_TRY_TABLE at_opcode at_body UINT32_MAX UINT32_MAX
               (bs_type_index signature) (carrier (bs_inline_end signature)) cs);
  turbowasm_control_push CTRL_TRY_TABLE (bs_start signature) (bs_end signature) index.

(** The innermost frame's annotation index. *)
Definition open_annotation : vm Z :=
  s ← get;
  frame ← need (turbowasm_control_top (v_controls s));
  _ ← reject_if (annotation_index frame =? UINT32_MAX);
  mret (annotation_index frame).

Definition turbowasm_validation_function_control_mut (f : turbowasm_validation_function) (index : Z)
    : option turbowasm_validation_control :=
  if index >=? Z.of_nat (length (controls_of f)) then None else controls_of f !! Z.to_nat index.

Definition with_else_offset (off : Z) (a : turbowasm_validation_control) :=
  mk_control (control_kind a) (opcode_offset a) (body_offset a) off (end_offset a)
    (control_type_index a) (inline_result_type a) (catches a).
Definition with_end_offset (off : Z) (a : turbowasm_validation_control) :=
  mk_control (control_kind a) (opcode_offset a) (body_offset a) (else_offset a) off
    (control_type_index a) (inline_result_type a) (catches a).

Definition set_annotation (index : Z) (a : turbowasm_validation_control)
    (f : turbowasm_validation_function) : turbowasm_validation_function :=
  mk_function (function_type_index f) (function_imported f) (local_types f) (local_semantics f)
    (code f) (code_size f) (<[Z.to_nat index := a]> (controls_of f)) (control_capacity f).

(** Record the offset of the opcode just read in the annotation, once. *)
Definition close_annotation (index : Z) (field : turbowasm_validation_control -> Z)
    (write : Z -> turbowasm_validation_control -> turbowasm_validation_control) : vm unit :=
  s ← get;
  a ← need (turbowasm_validation_function_control_mut (v_function s) index);
  _ ← reject_if (negb (field a =? UINT32_MAX) || is_null code_start || (code_offset s - 1 >? UINT32_MAX));
  update (set_function (set_annotation index (write (code_offset s - 1) a) (v_function s))).

Definition op_else : vm unit :=
  index ← open_annotation;
  _ ← turbowasm_control_else;
  close_annotation index else_offset with_else_offset.

(** Whether the function body is complete. *)
Definition op_end : vm bool :=
  s ← get;
  if csize (v_controls s) =? 1 then
    _ ← reject_if (negb (turbowasm_reader_remaining (v_reader s) =? 0));
    _ ← turbowasm_validate_result_stack function_type;
    mret true
  else
    index ← open_annotation;
    _ ← turbowasm_control_end;
    _ ← close_annotation index end_offset with_end_offset;
    mret false.

(** br, br_if, br_table, return *)
Definition op_branch (opcode : Z) : vm unit :=
  if (opcode =? 0x0c) || (opcode =? 0x0d) then
    depth ← uleb32;
    _ ← (if opcode =? 0x0d then turbowasm_stack_pop TW_I32 else mret tt);
    turbowasm_control_branch depth (opcode =? 0x0d)
  else if opcode =? 0x0e then turbowasm_validate_br_table
  else
    _ ← turbowasm_pop_results function_type;
    turbowasm_control_mark_unreachable.

Definition op_call (opcode : Z) : vm unit :=
  if opcode =? 0x10 then turbowasm_validate_call
  else if opcode =? 0x11 then turbowasm_validate_call_indirect
  else if opcode =? 0x12 then
    _ ← turbowasm_validate_return_call function_type; turbowasm_control_mark_unreachable
  else if opcode =? 0x13 then
    _ ← turbowasm_validate_return_call_indirect function_type; turbowasm_control_mark_unreachable
  else turbowasm_validate_call_ref (if opcode =? 0x15 then Some function_type else None).

(** select without a type *)
Definition op_select : vm unit :=
  _ ← turbowasm_stack_pop TW_I32;
  right ← turbowasm_stack_pop_any;
  left ← turbowasm_stack_pop_any;
  _ ← reject_if (negb (left =? TW_ANY) && negb (right =? TW_ANY) && negb (left =? right));
  if (left =? TW_ANY) && (right =? TW_ANY) then turbowasm_stack_push TW_ANY
  else
    let left := if left =? TW_ANY then right else left in
    _ ← reject_if ((left =? TW_FUNCREF) || (left =? TW_EXTERNREF) || (left =? TW_EXNREF) || (left =? 0x6e));
    turbowasm_stack_push left.

Definition op_typed_select : vm unit :=
  type_count ← uleb32;
  _ ← reject_if (negb (type_count =? 1));
  tg ← lift (turbowasm_validation_read_valtype buf H (Some (types ctx)));
  let type := fst tg in
  _ ← reject_if (bool_decide (heap_kind type = HEAP_TYPE_INDEX) &&
                 (type_index type >=? TypeReader.type_count (types ctx)));
  _ ← turbowasm_stack_pop TW_I32;
  _ ← turbowasm_stack_pop_semantic type;
  _ ← turbowasm_stack_pop_semantic type;
  turbowasm_stack_push_semantic type.

(** Record the first initialization of a local. *)
Definition initialize_local (index : Z) : vm unit :=
  update (fun s =>
    let c := v_controls s in
    if default true (locals_initialized c !! Z.to_nat index) then s
    else set_controls (mk_cstack (cframes c) (ccapacity c)
                         (<[Z.to_nat index := true]> (locals_initialized c)) (journal c ++ [index])) s).

(** local.get, local.set, local.tee *)
Definition op_local (opcode : Z) : vm unit :=
  local_index ← uleb32;
  type ← need (if local_index >=? Z.of_nat (length semantics) then None
               else semantics !! Z.to_nat local_index);
  s ← get;
  _ ← reject_if ((opcode =? 0x20) &&
                 negb (default true (locals_initialized (v_controls s) !! Z.to_nat local_index)));
  _ ← (if negb (opcode =? 0x20)
       then _ ← turbowasm_stack_pop_semantic type; initialize_local local_index else mret tt);
  if negb (opcode =? 0x21) then turbowasm_stack_push_semantic type else mret tt.

Definition op_global (opcode : Z) : vm unit :=
  global_index ← uleb32;
  global ← need (turbowasm_validation_context_global ctx global_index);
  if opcode =? 0x23 then turbowasm_stack_push_semantic (global_semantic global)
  else
    _ ← reject_if (negb (global_mutable global));
    turbowasm_stack_pop_semantic (global_semantic global).

Definition op_table (opcode : Z) : vm unit :=
  table_index ← uleb32;
  t ← need (at_index (tables ctx) table_index);
  if opcode =? 0x25 then
    _ ← turbowasm_stack_pop (table_address t);
    turbowasm_stack_push_semantic (table_semantic t)
  else
    _ ← turbowasm_stack_pop_semantic (table_semantic t);
    turbowasm_stack_pop (table_address t).

(** Loads, stores, memory.size and memory.grow *)
Definition op_memory (opcode : Z) : vm unit :=
  let load := turbowasm_validate_load in
  let store := turbowasm_validate_store in
  switch opcode
    [(0x28, load TW_I32 2); (0x29, load TW_I64 3); (0x2a, load TW_F32 2); (0x2b, load TW_F64 3);
     (0x2c, load TW_I32 0); (0x2d, load TW_I32 0); (0x2e, load TW_I32 1); (0x2f, load TW_I32 1);
     (0x30, load TW_I64 0); (0x31, load TW_I64 0); (0x32, load TW_I64 1); (0x33, load TW_I64 1);
     (0x34, load TW_I64 2); (0x35, load TW_I64 2);
     (0x36, store TW_I32 2); (0x37, store TW_I64 3); (0x38, store TW_F32 2); (0x39, store TW_F64 3);
     (0x3a, store TW_I32 0); (0x3b, store TW_I32 1); (0x3c, store TW_I64 0); (0x3d, store TW_I64 1);
     (0x3e, store TW_I64 2);
     (0x3f, turbowasm_validate_memory_size_or_grow false);
     (0x40, turbowasm_validate_memory_size_or_grow true)]
    malformed.

Definition op_const (opcode : Z) : vm unit :=
  switch opcode
    [(0x41, _ ← lift (decode (turbowasm_reader_sleb32 buf)); turbowasm_stack_push TW_I32);
     (0x42, _ ← lift (decode (turbowasm_reader_sleb64 buf)); turbowasm_stack_push TW_I64);
     (0x43, _ ← slice 4; turbowasm_stack_push TW_F32);
     (0x44, _ ← slice 8; turbowasm_stack_push TW_F64)]
    malformed.

(** Comparisons and arithmetic, 0x45 to 0xa6: operand count, operand type and
    result type. *)
Definition numeric_shape (opcode : Z) : Z * Z * Z :=
  if opcode =? 0x45 then (1, TW_I32, TW_I32)
  else if opcode <=? 0x4f then (2, TW_I32, TW_I32)
  else if opcode =? 0x50 then (1, TW_I64, TW_I32)
  else if opcode <=? 0x5a then (2, TW_I64, TW_I32)
  else if opcode <=? 0x60 then (2, TW_F32, TW_I32)
  else if opcode <=? 0x66 then (2, TW_F64, TW_I32)
  else if opcode <=? 0x69 then (1, TW_I32, TW_I32)
  else if opcode <=? 0x78 then (2, TW_I32, TW_I32)
  else if opcode <=? 0x7b then (1, TW_I64, TW_I64)
  else if opcode <=? 0x8a then (2, TW_I64, TW_I64)
  else if opcode <=? 0x91 then (1, TW_F32, TW_F32)
  else if opcode <=? 0x98 then (2, TW_F32, TW_F32)
  else if opcode <=? 0x9f then (1, TW_F64, TW_F64)
  else (2, TW_F64, TW_F64).

(** Conversions and sign extensions, 0xa7 to 0xc4: operand and result type. *)
Definition conversion_shape (opcode : Z) : Z * Z :=
  if opcode =? 0xa7 then (TW_I64, TW_I32)
  else if opcode <=? 0xa9 then (TW_F32, TW_I32)
  else if opcode <=? 0xab then (TW_F64, TW_I32)
  else if opcode <=? 0xad then (TW_I32, TW_I64)
  else if opcode <=? 0xaf then (TW_F32, TW_I64)
  else if opcode <=? 0xb1 then (TW_F64, TW_I64)
  else if opcode <=? 0xb3 then (TW_I32, TW_F32)
  else if opcode <=? 0xb5 then (TW_I64, TW_F32)
  else if opcode =? 0xb6 then (TW_F64, TW_F32)
  else if opcode <=? 0xb8 then (TW_I32, TW_F64)
  else if opcode <=? 0xba then (TW_I64, TW_F64)
  else if opcode =? 0xbb then (TW_F32, TW_F64)
  else if opcode =? 0xbc then (TW_F32, TW_I32)
  else if opcode =? 0xbd then (TW_F64, TW_I64)
  else if opcode =? 0xbe then (TW_I32, TW_F32)
  else if opcode =? 0xbf then (TW_I64, TW_F64)
  else if opcode <=? 0xc1 then (TW_I32, TW_I32)
  else (TW_I64, TW_I64).

Definition op_numeric (opcode : Z) : vm unit :=
  if opcode <=? 0xa6 then
    let '(n, input, output) := numeric_shape opcode in
    if n =? 1 then turbowasm_stack_unary input output else turbowasm_stack_binary input output
  else let '(input, output) := conversion_shape opcode in turbowasm_validate_conversion input output.

(** The reference instructions, 0xd0 to 0xd6 *)
Definition op_reference (opcode : Z) : vm unit :=
  if opcode =? 0xd0 then
    type ← lift (turbowasm_validation_read_heaptype buf H (Some (types ctx)) true);
    _ ← reject_if (bool_decide (heap_kind type = HEAP_TYPE_INDEX) &&
                   (type_index type >=? TypeReader.type_count (types ctx)));
    turbowasm_stack_push_semantic (with_nullable true type)
  else if (opcode =? 0xd1) || (opcode =? 0xd4) then
    type ← turbowasm_stack_pop_any_semantic;
    _ ← reject_if (negb (carrier type =? TW_ANY) && negb (is_reference type));
    if opcode =? 0xd1 then turbowasm_stack_push TW_I32
    else turbowasm_stack_push_semantic (with_nullable false type)
  else if opcode =? 0xd2 then
    ref_index ← uleb32;
    f ← need (turbowasm_validation_context_function ctx ref_index);
    _ ← reject_if (negb (turbowasm_validation_context_has_function_ref ctx ref_index));
    turbowasm_stack_push_semantic
      (mk_value_type TW_FUNCREF true false HEAP_TYPE_INDEX (function_type_index f)
         (Some (types_base (types ctx) + Z.to_nat (function_type_index f))%nat))
  else if opcode =? 0xd3 then
    _ ← turbowasm_gc_pop (turbowasm_gc_type HEAP_EQ true);
    _ ← turbowasm_gc_pop (turbowasm_gc_type HEAP_EQ true);
    turbowasm_stack_push TW_I32
  else turbowasm_validate_ref_branch (opcode =? 0xd6).

(** [a <= x <= b] *)
Definition between (a x b : Z) : bool := (a <=? x) && (x <=? b).

Definition no_end (m : vm unit) : vm bool := _ ← m; mret false.

(** One instruction; the result says whether the body has ended. *)
Definition dispatch (opcode : Z) : vm bool :=
  if opcode =? 0x00 then no_end turbowasm_control_mark_unreachable
  else if opcode =? 0x01 then mret false
  else if between 0x02 opcode 0x04 then no_end (op_block opcode)
  else if opcode =? 0x05 then no_end op_else
  else if opcode =? 0x08 then no_end turbowasm_validate_throw
  else if opcode =? 0x0a then no_end turbowasm_validate_throw_ref
  else if opcode =? 0x0b then op_end
  else if between 0x0c opcode 0x0f then no_end (op_branch opcode)
  else if between 0x10 opcode 0x15 then no_end (op_call opcode)
  else if opcode =? 0x1a then no_end (_ ← turbowasm_stack_pop_any; mret tt)
  else if opcode =? 0x1b then no_end op_select
  else if opcode =? 0x1c then no_end op_typed_select
  else if opcode =? 0x1f then no_end op_try_table
  else if between 0x20 opcode 0x22 then no_end (op_local opcode)
  else if between 0x23 opcode 0x24 then no_end (op_global opcode)
  else if between 0x25 opcode 0x26 then no_end (op_table opcode)
  else if between 0x28 opcode 0x40 then no_end (op_memory opcode)
  else if between 0x41 opcode 0x44 then no_end (op_const opcode)
  else if between 0x45 opcode 0xc4 then no_end (op_numeric opcode)
  else if between 0xd0 opcode 0xd6 then no_end (op_reference opcode)
  else if opcode =? 0xfb then no_end turbowasm_validate_gc
  else if opcode =? 0xfc then no_end turbowasm_validate_fc
  else if opcode =? 0xfd then no_end turbowasm_validate_simd
  else if opcode =? 0xfe then no_end turbowasm_validate_atomic
  else malformed.

(** The loop over the body. Every round reads at least one byte, so as many
    rounds as there are bytes are enough. *)
Fixpoint body_loop (fuel : nat) : vm unit :=
  s ← get;
  if turbowasm_reader_remaining (v_reader s) =? 0 then malformed
  else match fuel with
       | O => malformed
       | S fuel' =>
           opcode ← byte;
           finished ← dispatch opcode;
           if finished : bool then mret tt else body_loop fuel'
       end.

End Body.

(** ** Function bodies *)

(** The state in which the loop starts. *)
Definition initial_state (body : turbowasm_reader) (f : turbowasm_validation_function)
    (function_type : turbowasm_validation_func_type) (semantics : list turbowasm_validation_value_type)
    : vstate :=
  mk_vstate body (mk_tstack [] 0 0 false)
    (mk_cstack [] 0
       (imap (fun i t => (Z.of_nat i <? param_count function_type) || negb (is_reference t) || nullable t)
          semantics) [])
    f (requires_store (types ctx)).

(** The status, the metadata of the function and the [requires_store] flag
    after the body, and the reader. *)
Definition validate_body (body : turbowasm_reader) (function_index : Z)
    : turbowasm_status * turbowasm_validation_function * bool * turbowasm_reader :=
  match turbowasm_validation_context_function_type H ctx function_index,
        turbowasm_validation_context_function ctx function_index with
  | Some function_type, Some f =>
      let unchanged st r := (st, f, requires_store (types ctx), r) in
      if negb (defined function_type) || function_imported f then unchanged TURBOWASM_MALFORMED_MODULE body
      else match turbowasm_read_locals function_type body with
      | (inl status, r) => unchanged status r
      | (inr (locals, semantics), r) =>
          let n := Z.of_nat (length semantics) in
          if negb (n =? 0) && negb (malloc_ok n && malloc_ok (n * 4)) then unchanged TURBOWASM_OUT_OF_MEMORY r
          else if turbowasm_reader_remaining r >? UINT32_MAX then unchanged TURBOWASM_OUT_OF_MEMORY r
          else
            let run := _ ← turbowasm_control_push CTRL_FUNCTION [] (result_semantics function_type) UINT32_MAX;
                       body_loop function_type semantics (cursor r)
                         (Z.to_nat (turbowasm_reader_remaining r)) in
            match run (initial_state r f function_type semantics) with
            | (inl status, s) => (status, v_function s, v_requires_store s, v_reader s)
            | (inr _, s) =>
                let f' := v_function s in
                match local_types f', local_semantics f', code f' with
                | [], [], None =>
                    (TURBOWASM_OK,
                     mk_function (function_type_index f') (function_imported f') locals semantics
                       (cursor r) (turbowasm_reader_remaining r) (controls_of f') (control_capacity f'),
                     v_requires_store s, v_reader s)
                | _, _, _ => (TURBOWASM_MALFORMED_MODULE, f', v_requires_store s, v_reader s)
                end
            end
      end
  | _, f => (TURBOWASM_MALFORMED_MODULE, default (mk_function 0 false [] [] None 0 [] 0) f,
             requires_store (types ctx), body)
  end.

End Instructions.

Definition turbowasm_validate_function_body (buf : list Z) (realloc_ok malloc_ok : Z -> bool)
    (H : type_heap) (body : turbowasm_reader) (ctx : turbowasm_validation_context) (function_index : Z)
    : turbowasm_status * turbowasm_validation_context * turbowasm_reader :=
  let '(status, f, store, r) := validate_body buf realloc_ok malloc_ok H ctx body function_index in
  (status,
   mk_context (mk_types (types_base (types ctx)) (type_count (types ctx)) store) (imports ctx) (exports ctx)
     (mk_vec (<[Z.to_nat function_index := f]> (items (functions ctx))) (capacity (functions ctx)))
     (globals ctx) (tables ctx) (memories ctx) (tags ctx) (data_segments ctx) (element_segments ctx)
     (declared_refs ctx) (has_data_count ctx) (data_count ctx), r).

(** A constant expression's GC instruction, on the expression's own stack. *)
Definition turbowasm_validate_gc_constant (buf : list Z) (realloc_ok : Z -> bool)
    (H : type_heap) (reader : turbowasm_reader) (ctx : turbowasm_validation_context)
    (values : list turbowasm_validation_value_type) (cap : Z)
    : turbowasm_status * turbowasm_reader * list turbowasm_validation_value_type * Z * bool :=
  let store := requires_store (types ctx) in
  match turbowasm_reader_uleb32 buf reader with
  | (None, _) => (TURBOWASM_MALFORMED_MODULE, reader, values, cap, store)
  | (Some op, _) =>
      if negb ((op <=? 1) || ((op >=? 6) && (op <=? 8)) || ((op >=? 26) && (op <=? 28)))
      then (TURBOWASM_MALFORMED_MODULE, reader, values, cap, store)
      else
        let s := mk_vstate reader (mk_tstack values cap 0 false) (mk_cstack [] 0 [] [])
                   (mk_function 0 false [] [] None 0 [] 0) store in
        let '(res, s') := turbowasm_validate_gc buf realloc_ok H ctx s in
        (match res with inl st => st | inr _ => TURBOWASM_OK end, v_reader s',
         tvalues (v_stack s'), tcapacity (v_stack s'), v_requires_store s')
  end.

End Validator.
