(* ===== verification/ValidatorSteps.v ===== *)
(** * What one step of the instruction validator does

    Every instruction leaves the control stack alone and only touches the part
    of the type stack above the floor ([plain]), except the ones that open a
    frame, turn an if around at its else, or close a frame. *)

From S2P Require Import Prelude Reader Types TypeEq TypeReader Context OpTables Validator.
From S2P Require ExecStack.

Module ValidatorSteps.
Import Reader Types TypeEq TypeReader Context OpTables Validator.

(** ** Readers only move forward *)

Definition moved (r r' : turbowasm_reader) : Prop :=
  exists n, 0 <= n <= turbowasm_reader_remaining r /\ r' = advance r n.

Lemma remaining_nonneg r : 0 <= turbowasm_reader_remaining r.
Proof.
  unfold turbowasm_reader_remaining. destruct (cursor r), (rend r); try lia. destruct (Z.gtb_spec z z0); lia.
Qed.

Lemma remaining_advance r n : 0 <= n <= turbowasm_reader_remaining r ->
  turbowasm_reader_remaining (advance r n) = turbowasm_reader_remaining r - n.
Proof.
  unfold turbowasm_reader_remaining, advance. destruct (cursor r) as [c|], (rend r) as [e|]; simpl; try lia.
  destruct (Z.gtb_spec c e), (Z.gtb_spec (c + n) e); lia.
Qed.

Lemma moved_refl r : moved r r.
Proof. exists 0. split; [pose proof (remaining_nonneg r); lia|]. by rewrite advance_0. Qed.

Lemma moved_trans r1 r2 r3 : moved r1 r2 -> moved r2 r3 -> moved r1 r3.
Proof.
  intros (m & Hm & ->) (n & Hn & ->). rewrite remaining_advance in Hn by done.
  exists (m + n). split; [lia|]. apply advance_add.
Qed.

(** [forward p]: when [p] returns, the reader has moved forward; when it fails,
    it says so. *)
Record forward {A} (p : parse A) : Prop := {
  fw_moved : forall r a r', p r = (inr a, r') -> moved r r';
  fw_strict : strict p
}.

Lemma forward_bind {A B} (p : parse A) (k : A -> parse B) :
  forward p -> (forall a, forward (k a)) -> forward (p ≫= k).
Proof.
  intros [Hp Hsp] Hk. split; [|apply strict_bind; [done|intros a; exact (fw_strict _ (Hk a))]].
  intros r b r' E. unfold mbind, parse_bind in E. destruct (p r) as [[st|a] r1] eqn:E1; [discriminate|].
  eapply moved_trans; [by eapply Hp|by eapply (fw_moved _ (Hk a))].
Qed.

Lemma forward_ret {A} (a : A) : forward (mret a).
Proof. split; [|apply strict_ret]. intros r b r' [= <- <-]. apply moved_refl. Qed.

Lemma forward_fail {A} st : st <> TURBOWASM_OK -> forward (@fail A st).
Proof. intros Hst. split; [|by apply strict_fail]. intros r b r' E. discriminate. Qed.

Lemma forward_check b st : st <> TURBOWASM_OK -> forward (check b st).
Proof. intros Hst. unfold check. destruct b; [by apply forward_fail|apply forward_ret]. Qed.

Lemma forward_remaining : forward remaining.
Proof. split; [|apply strict_remaining]. intros r b r' [= <- <-]. apply moved_refl. Qed.

Lemma forward_peek buf : forward (peek buf).
Proof. split; [|apply strict_peek]. intros r b r' [= <- <-]. apply moved_refl. Qed.

Lemma u8_moved buf r b r' : turbowasm_reader_u8 buf r = (Some b, r') ->
  r' = advance r 1 /\ 1 <= turbowasm_reader_remaining r.
Proof.
  unfold turbowasm_reader_u8. destruct (Z.ltb_spec (turbowasm_reader_remaining r) 1); [done|].
  destruct (cursor r); [|done]. intros [= _ <-]. done.
Qed.

Lemma leb_loop_moved buf w limit reject fuel : forall r value shift count x r',
  leb_loop buf fuel w limit reject r value shift count = (Some x, r') ->
  exists n, 1 <= n <= turbowasm_reader_remaining r /\ r' = advance r n.
Proof.
  induction fuel as [|fuel IH]; intros r value shift count x r'; [done|]. cbn [leb_loop].
  destruct (count =? limit); [done|]. destruct (turbowasm_reader_u8 buf r) as [[b|] r1] eqn:E1; [|done].
  apply u8_moved in E1 as [-> Hr]. destruct (reject shift count b); [done|].
  destruct (_ =? 0); [intros [= _ <-]; exists 1; by split; [lia|]|].
  intros (n & Hn & ->)%IH. rewrite remaining_advance in Hn by lia.
  exists (1 + n). split; [lia|]. apply advance_add.
Qed.

Lemma forward_decode {A} (d : turbowasm_reader -> option A * turbowasm_reader) :
  (forall r a r', d r = (Some a, r') -> moved r r') -> forward (decode d).
Proof.
  intros Hd. split; [|apply strict_decode]. intros r a r'. unfold decode. destruct (d r) as [[a'|] r1] eqn:E; [|done]. intros [= <- <-]. by eapply Hd.
Qed.

Create HintDb forward.

Section Forward.
Context (buf : list Z).

Lemma forward_u8 : forward (decode (turbowasm_reader_u8 buf)).
Proof. apply forward_decode. intros r a r' [-> ?]%u8_moved. exists 1. split; [lia|done]. Qed.

Ltac leb_forward d :=
  apply forward_decode; intros r a r'; unfold d;
  let E := fresh "E" in
  destruct (leb_loop _ _ _ _ _ _ _ _ _) as [[[[[? ?] ?] ?]|] ?] eqn:E;
  [apply leb_loop_moved in E as (n & Hn & ->)|done]; intros Heq;
  repeat case_match; simplify_eq; (eexists; split; [|reflexivity]; lia).

Lemma forward_uleb32 : forward (decode (turbowasm_reader_uleb32 buf)).
Proof. leb_forward turbowasm_reader_uleb32. Qed.
Lemma forward_uleb64 : forward (decode (turbowasm_reader_uleb64 buf)).
Proof. leb_forward turbowasm_reader_uleb64. Qed.
Lemma forward_sleb32 : forward (decode (turbowasm_reader_sleb32 buf)).
Proof. leb_forward turbowasm_reader_sleb32. Qed.
Lemma forward_sleb64 : forward (decode (turbowasm_reader_sleb64 buf)).
Proof. leb_forward turbowasm_reader_sleb64. Qed.
Lemma forward_s33 : forward (decode (turbowasm_validation_read_s33 buf)).
Proof. leb_forward turbowasm_validation_read_s33. Qed.
Lemma forward_block_type_index : forward (decode (block_type_index buf)).
Proof. leb_forward block_type_index. Qed.

Lemma forward_slice n : 0 <= n -> forward (decode (fun r => turbowasm_reader_slice r n)).
Proof.
  intros Hn. apply forward_decode. intros r a r'. unfold turbowasm_reader_slice.
  destruct (Z.ltb_spec (turbowasm_reader_remaining r) n); [done|]. intros [= _ <-]. exists n. split; [lia|done].
Qed.

Hint Extern 1 (_ <> TURBOWASM_OK) => discriminate : forward.
Hint Resolve forward_ret forward_fail forward_check forward_remaining forward_peek forward_u8
  forward_uleb32 forward_uleb64 forward_sleb32 forward_sleb64 forward_s33 forward_block_type_index : forward.

Ltac forward_tac :=
  repeat match goal with
  | |- forward (_ ≫= _) => apply forward_bind; [|intros ?]
  | |- forward (if ?b then _ else _) => destruct b
  | |- forward (match ?x with _ => _ end) => destruct x
  | |- forward _ => solve [eauto with forward]
  end.

Lemma forward_heaptype H c n : forward (turbowasm_validation_read_heaptype buf H c n).
Proof. unfold turbowasm_validation_read_heaptype. cbn [switch]. forward_tac. Qed.

(** The step back over the first byte is undone by reading it again. *)
Lemma forward_reftype H c : forward (turbowasm_validation_read_reftype buf H c).
Proof.
  split.
  2: { unfold turbowasm_validation_read_reftype.
       repeat first [apply fw_strict, forward_heaptype | apply strict_bind; [|intros ?] | apply strict_ret
         | apply strict_decode | apply strict_seek | apply strict_check; discriminate
         | match goal with |- strict (if ?b then _ else _) => destruct b end]. }
  intros r a r' E. unfold turbowasm_validation_read_reftype in E. unfold mbind, parse_bind in E.
  destruct (decode (turbowasm_reader_u8 buf) r) as [[st|b] r1] eqn:E1; [discriminate|].
  destruct (_ || _ || _).
  { injection E as _ <-. by eapply (fw_moved _ forward_u8). }
  destruct (_ || _).
  - assert (Hback : advance r1 (-1) = r).
    { revert E1. unfold decode. destruct (turbowasm_reader_u8 buf r) as [[u|] r2] eqn:E2; [|done].
      apply u8_moved in E2 as [-> _]. intros [= _ <-]. rewrite advance_add. apply advance_0. }
    unfold seek in E. rewrite Hback in E.
    destruct (turbowasm_validation_read_heaptype buf H c true r) as [[st|v] r2] eqn:E2; [discriminate|].
    injection E as _ <-. by eapply (fw_moved _ (forward_heaptype _ _ _)).
  - eapply moved_trans; [by eapply (fw_moved _ forward_u8)|]. revert E.
    destruct (check _ _ r1) as [[st|u] r2] eqn:E3; [discriminate|].
    destruct (turbowasm_validation_read_heaptype buf H c _ r2) as [[st|v] r3] eqn:E2; [discriminate|].
    intros [= _ <-]. eapply moved_trans; [|by eapply (fw_moved _ (forward_heaptype _ _ _))].
    unfold check in E3. destruct (negb _ && _); [discriminate|]. injection E3 as _ <-. apply moved_refl.
Qed.

Hint Resolve forward_heaptype forward_reftype : forward.

Lemma forward_valtype H c : forward (turbowasm_validation_read_valtype buf H c).
Proof. unfold turbowasm_validation_read_valtype. forward_tac. Qed.

Hint Resolve forward_valtype : forward.

Lemma forward_signature H ctx : forward (turbowasm_read_block_signature buf H ctx).
Proof. unfold turbowasm_read_block_signature. forward_tac. Qed.

Lemma forward_local_groups H ctx n : forall total, forward (read_local_groups buf H ctx n total).
Proof. induction n as [|n IH]; intros total; cbn [read_local_groups]; forward_tac; apply IH. Qed.

Lemma forward_locals malloc_ok H ctx t : forward (turbowasm_read_locals buf malloc_ok H ctx t).
Proof. unfold turbowasm_read_locals. forward_tac. apply forward_local_groups. Qed.

End Forward.

#[export] Hint Extern 1 (_ <> TURBOWASM_OK) => discriminate : forward.
#[export] Hint Resolve forward_ret forward_fail forward_check forward_remaining forward_peek forward_u8
  forward_uleb32 forward_uleb64 forward_sleb32 forward_sleb64 forward_s33 forward_block_type_index
  forward_heaptype forward_reftype forward_valtype forward_signature : forward.

(** ** Steps that stay inside the current frame *)

(** The journal lists distinct locals that are marked initialized, so it never
    outgrows the array of [n] entries it is stored in. *)
Record locals_ok (n : nat) (c : turbowasm_control_stack) : Prop := {
  lo_length : length (locals_initialized c) = n;
  lo_nodup : NoDup (journal c);
  lo_marked : Forall (fun i => 0 <= i /\ locals_initialized c !! Z.to_nat i = Some true) (journal c)
}.

Definition floor_ok (st : turbowasm_type_stack) : Prop := 0 <= floor st <= tsize st.
Definition room_ok (st : turbowasm_type_stack) : Prop := tsize st <= tcapacity st <= UINT32_MAX.
Definition croom_ok (c : turbowasm_control_stack) : Prop := csize c <= ccapacity c <= UINT32_MAX.

(** The part of the type stack below the floor. *)
Definition base (st : turbowasm_type_stack) : list turbowasm_validation_value_type :=
  take (Z.to_nat (floor st)) (tvalues st).

(** [plain n s s']: from [s] to [s'] nothing below the floor and no frame or
    annotation has changed, and the reader has moved forward. *)
Record plain (s s' : vstate) : Prop := {
  pl_reader : moved (v_reader s) (v_reader s');
  pl_frames : cframes (v_controls s') = cframes (v_controls s);
  pl_ccap : ccapacity (v_controls s') = ccapacity (v_controls s);
  pl_function : v_function s' = v_function s;
  pl_floor : floor (v_stack s') = floor (v_stack s);
  pl_base : floor_ok (v_stack s) -> floor_ok (v_stack s') /\ base (v_stack s') = base (v_stack s);
  pl_room : room_ok (v_stack s) -> room_ok (v_stack s');
  pl_dead : unreachable (v_stack s) = true -> unreachable (v_stack s') = true;
  pl_journal : journal (v_controls s) `prefix_of` journal (v_controls s');
  pl_locals : forall n, locals_ok n (v_controls s) -> locals_ok n (v_controls s')
}.

Lemma plain_refl s : plain s s.
Proof. by constructor; [apply moved_refl|..]. Qed.

Lemma plain_trans s1 s2 s3 : plain s1 s2 -> plain s2 s3 -> plain s1 s3.
Proof.
  intros H H'. constructor; try (etrans; [apply H'|apply H]).
  - eapply moved_trans; [apply H|apply H'].
  - intros Hf. destruct (pl_base _ _ H Hf) as [Hf2 Hb2]. destruct (pl_base _ _ H' Hf2) as [Hf3 Hb3].
    split; [done|congruence].
  - intros Hr. by apply (pl_room _ _ H'), (pl_room _ _ H).
  - intros Hd. by apply (pl_dead _ _ H'), (pl_dead _ _ H).
  - etrans; [apply H|apply H'].
  - intros n Hn. by apply (pl_locals _ _ H'), (pl_locals _ _ H).
Qed.

(** [stays m]: whenever [m] returns, it has made a plain step; when it fails, it
    says so. *)
Record stays {A} (m : vm A) : Prop := {
  st_plain : forall s a s', m s = (inr a, s') -> plain s s';
  st_strict : forall s st s', m s = (inl st, s') -> st <> TURBOWASM_OK
}.

(** Failures say so. *)
Definition vstrict {A} (m : vm A) : Prop := forall s st s', m s = (inl st, s') -> st <> TURBOWASM_OK.

Lemma stays_vstrict {A} (m : vm A) : stays m -> vstrict m.
Proof. by intros [_ Hm]. Qed.

Lemma vstrict_bind {A B} (m : vm A) (k : A -> vm B) : vstrict m -> (forall a, vstrict (k a)) -> vstrict (m ≫= k).
Proof.
  intros Hm Hk s st s' E. unfold mbind, vm_bind in E. destruct (m s) as [[st1|a] s1] eqn:E1; [|by eapply Hk].
  injection E as -> ->. by eapply Hm.
Qed.

Lemma stays_bind {A B} (m : vm A) (k : A -> vm B) :
  stays m -> (forall a, stays (k a)) -> stays (m ≫= k).
Proof.
  intros [Hm Hsm] Hk. split; [|apply vstrict_bind; [done|intros a; apply stays_vstrict, Hk]].
  intros s b s' E. unfold mbind, vm_bind in E. destruct (m s) as [[st|a] s1] eqn:E1; [discriminate|].
  eapply plain_trans; [by eapply Hm|by eapply (st_plain _ (Hk a))].
Qed.

Lemma stays_ret {A} (a : A) : stays (mret a).
Proof. split; [|done]. intros s b s' [= <- <-]. apply plain_refl. Qed.

Lemma stays_fail {A} st : st <> TURBOWASM_OK -> stays (@vfail A st).
Proof. intros Hst. split; [done|]. by intros s st' s' [= <- _]. Qed.

Lemma stays_malformed {A} : stays (@malformed A).
Proof. by apply stays_fail. Qed.

Lemma stays_guard b st : st <> TURBOWASM_OK -> stays (guard b st).
Proof. intros Hst. unfold guard. destruct b; [by apply stays_fail|apply stays_ret]. Qed.

Lemma stays_reject b : stays (reject_if b).
Proof. by apply stays_guard. Qed.

Lemma stays_get : stays get.
Proof. split; [|done]. intros s b s' [= <- <-]. apply plain_refl. Qed.

Lemma stays_need {A} (o : option A) : stays (need o).
Proof. destruct o; [apply stays_ret|apply stays_malformed]. Qed.

Lemma stays_lift {A} (p : parse A) : forward p -> stays (lift p).
Proof.
  intros Hp. split; intros s a s'; unfold lift; destruct (p (v_reader s)) as [x r] eqn:E; intros [= -> <-].
  - constructor; simpl; try done. by eapply (fw_moved _ Hp).
  - by eapply (fw_strict _ Hp).
Qed.

Create HintDb stays.
#[export] Hint Extern 1 (_ <> TURBOWASM_OK) => discriminate : stays.
#[export] Hint Resolve stays_ret stays_fail stays_malformed stays_guard stays_reject stays_get
  stays_need : stays.

(** Decompose a program into its primitive steps. *)
Ltac stays_tac :=
  repeat match goal with
  | |- stays (mbind _ _) => apply stays_bind; [|intros ?]
  | |- stays (if ?b then _ else _) => destruct b
  | |- stays (match ?x with _ => _ end) => destruct x
  | |- stays (let '_ := ?x in _) => destruct x
  | |- stays (lift _) => apply stays_lift; solve [eauto with forward]
  | |- stays _ => solve [eauto with stays]
  end.

Lemma stays_set_requires_store b : stays (update (set_requires_store b)).
Proof. split; [|done]. intros s a s' [= _ <-]. by constructor; [apply moved_refl|..]. Qed.
#[export] Hint Resolve stays_set_requires_store : stays.

(** ** The primitive stack operations *)

(** Inversion of a bind that returned. *)
Lemma bind_inv {A B} (m : vm A) (k : A -> vm B) s b s' :
  (m ≫= k) s = (inr b, s') -> exists a s1, m s = (inr a, s1) /\ k a s1 = (inr b, s').
Proof.
  unfold mbind, vm_bind. destruct (m s) as [[st|a] s1]; [discriminate|]. intros E. by exists a, s1.
Qed.

Lemma reject_inv b s u s' : reject_if b s = (inr u, s') -> b = false /\ s' = s.
Proof. unfold reject_if, guard. destruct b; [discriminate|]. by intros [= _ <-]. Qed.

Lemma guard_inv b st s u s' : guard b st s = (inr u, s') -> b = false /\ s' = s.
Proof. unfold guard. destruct b; [discriminate|]. by intros [= _ <-]. Qed.

Lemma need_inv {A} (o : option A) s a s' : need o s = (inr a, s') -> o = Some a /\ s' = s.
Proof. destruct o; [|discriminate]. by intros [= <- <-]. Qed.

Lemma get_inv s a s' : get s = (inr a, s') -> a = s /\ s' = s.
Proof. by intros [= <- <-]. Qed.

Lemma ret_inv {A} (a b : A) (s s' : vstate) : (mret a : vm A) s = (inr b, s') -> a = b /\ s = s'.
Proof. by intros [= <- <-]. Qed.

Lemma update_inv f s u s' : update f s = (inr u, s') -> s' = f s.
Proof. by intros [= _ <-]. Qed.

Lemma lift_inv {A} (p : parse A) s a s' : lift p s = (inr a, s') ->
  exists r, p (v_reader s) = (inr a, r) /\ s' = set_reader r s.
Proof. unfold lift. destruct (p (v_reader s)) as [x r]. intros [= -> <-]. by exists r. Qed.

(** Take apart the hypotheses that say a program returned. *)
Ltac vm_inv :=
  repeat match goal with
  | E : mbind _ _ _ = (inr _, _) |- _ =>
      let a := fresh "a" in let s1 := fresh "s1" in let E1 := fresh "E" in
      apply bind_inv in E as (a & s1 & E1 & E); cbv beta in E
  | E : reject_if _ _ = (inr _, _) |- _ => let G := fresh "G" in apply reject_inv in E as [G ->]
  | E : guard _ _ _ = (inr _, _) |- _ => let G := fresh "G" in apply guard_inv in E as [G ->]
  | E : need _ _ = (inr _, _) |- _ => let G := fresh "G" in apply need_inv in E as [G ->]
  | E : get _ = (inr _, _) |- _ => apply get_inv in E as [-> ->]
  | E : update _ _ = (inr _, _) |- _ => apply update_inv in E as ->
  | E : mret _ _ = (inr _, _) |- _ => apply ret_inv in E as [? ?]; subst
  | E : vfail _ _ = (inr _, _) |- _ => discriminate E
  | E : malformed _ = (inr _, _) |- _ => discriminate E
  end.

(** The state after a push. *)
Definition pushed (t : turbowasm_validation_value_type) (cap : Z) (s : vstate) : vstate :=
  set_stack (mk_tstack (tvalues (v_stack s) ++ [t]) cap (floor (v_stack s)) (unreachable (v_stack s))) s.

(** The state whose stack holds [vs]. *)
Definition popped (vs : list turbowasm_validation_value_type) (s : vstate) : vstate :=
  set_stack (set_values vs (v_stack s)) s.

Section Primitives.
Context (buf : list Z) (realloc_ok malloc_ok : Z -> bool).
Context (H : type_heap) (ctx : turbowasm_validation_context).

Lemma push_inv t s u s' : turbowasm_stack_push_semantic realloc_ok t s = (inr u, s') ->
  exists cap, s' = pushed t cap s /\
    ((carrier t =? TW_ANY) || turbowasm_instr_valtype (carrier t) = true) /\
    (room_ok (v_stack s) -> tsize (v_stack s) + 1 <= cap <= UINT32_MAX).
Proof.
  unfold turbowasm_stack_push_semantic. intros E. vm_inv.
  unfold turbowasm_stack_reserve in E. destruct (ExecStack.ExecStack.reserve _ _ _ _ _) as [cap|] eqn:Er; [|discriminate].
  simpl in E. vm_inv. exists cap. split_and!; [done| |].
  - destruct (carrier t =? TW_ANY); [done|]. by apply negb_false_iff.
  - intros [Hsz Hcap]. apply Z.eqb_neq in G. unfold tsize in *.
    apply ExecStack.ExecStack.reserve_spec in Er; unfold UINT32_MAX in *; lia.
Qed.

Lemma pop_any_inv s a s' : turbowasm_stack_pop_any_semantic s = (inr a, s') ->
  floor (v_stack s) <= tsize (v_stack s) /\
  ((tsize (v_stack s) = floor (v_stack s) /\ unreachable (v_stack s) = true /\
    a = turbowasm_validation_value_type_legacy TW_ANY /\ s' = s) \/
   (exists vs, tvalues (v_stack s) = vs ++ [a] /\ floor (v_stack s) < tsize (v_stack s) /\ s' = popped vs s)).
Proof.
  unfold turbowasm_stack_pop_any_semantic. intros E. vm_inv. apply Z.ltb_ge in G. split; [done|].
  destruct (Z.eqb_spec (tsize (v_stack s)) (floor (v_stack s))) as [Heq|Hne]; vm_inv.
  - left. split_and!; try done. by apply negb_false_iff.
  - right. apply last_Some in G0 as [vs Hvs]. exists vs. split_and!; [done|lia|].
    unfold popped. by rewrite Hvs, length_app, Nat.add_sub, take_app_length.
Qed.

Lemma push_strict t : vstrict (turbowasm_stack_push_semantic realloc_ok t).
Proof.
  unfold turbowasm_stack_push_semantic. repeat (apply vstrict_bind; [apply stays_vstrict; (by apply stays_guard) || apply stays_get|intros ?]).
  destruct (turbowasm_stack_reserve _ _ _); [done|]. by intros s st s' [= <- _].
Qed.

Lemma stays_push t : stays (turbowasm_stack_push_semantic realloc_ok t).
Proof.
  split; [|apply push_strict]. intros s a s' (cap & -> & _ & Hcap)%push_inv.
  constructor; simpl; try done; [apply moved_refl| |].
  - unfold floor_ok, base, tsize. simpl. rewrite length_app. intros Hf.
    split; [simpl; lia|]. by rewrite take_app_le by lia.
  - intros Hr. specialize (Hcap Hr). revert Hr Hcap. unfold room_ok, tsize. simpl. rewrite length_app. simpl. lia.
Qed.

Lemma pop_any_strict : vstrict turbowasm_stack_pop_any_semantic.
Proof.
  unfold turbowasm_stack_pop_any_semantic. apply vstrict_bind; [apply stays_vstrict, stays_get|intros s]. cbv zeta.
  apply vstrict_bind; [apply stays_vstrict, stays_reject|intros _]. destruct (_ =? _).
  - apply vstrict_bind; [apply stays_vstrict, stays_reject|intros _]. done.
  - apply vstrict_bind; [apply stays_vstrict, stays_need|intros a]. by apply vstrict_bind.
Qed.

Lemma stays_pop_any : stays turbowasm_stack_pop_any_semantic.
Proof.
  split; [|apply pop_any_strict]. intros s a s' (Hle & [(_ & _ & _ & ->)|(vs & Hvs & Hlt & ->)])%pop_any_inv; [apply plain_refl|].
  constructor; simpl; try done; [apply moved_refl| |].
  - revert Hlt. unfold floor_ok, base, tsize. simpl. rewrite Hvs, length_app. simpl. intros Hlt Hf.
    split; [lia|]. by rewrite take_app_le by lia.
  - unfold room_ok, tsize. rewrite Hvs, length_app. simpl. lia.
Qed.

Hint Resolve stays_push stays_pop_any : stays.

Lemma stays_uleb32 : stays (uleb32 buf).
Proof. apply stays_lift, forward_uleb32. Qed.
Lemma stays_uleb64 : stays (uleb64 buf).
Proof. apply stays_lift, forward_uleb64. Qed.
Lemma stays_byte : stays (byte buf).
Proof. apply stays_lift, forward_u8. Qed.
Lemma stays_slice n : 0 <= n -> stays (slice n).
Proof. intros. by apply stays_lift, forward_slice. Qed.
Hint Resolve stays_uleb32 stays_uleb64 stays_byte : stays.

Lemma stays_push_carrier t : stays (turbowasm_stack_push realloc_ok t).
Proof. apply stays_push. Qed.
Lemma stays_pop_any_carrier : stays turbowasm_stack_pop_any.
Proof. unfold turbowasm_stack_pop_any. stays_tac. Qed.
Lemma stays_pop_actual t : stays (turbowasm_stack_pop_semantic_actual H t).
Proof. unfold turbowasm_stack_pop_semantic_actual. stays_tac. Qed.
Hint Resolve stays_push_carrier stays_pop_any_carrier stays_pop_actual : stays.
Lemma stays_pop t : stays (turbowasm_stack_pop_semantic H t).
Proof. unfold turbowasm_stack_pop_semantic. stays_tac. Qed.
Lemma stays_pop_carrier t : stays (turbowasm_stack_pop H t).
Proof. apply stays_pop. Qed.
Hint Resolve stays_pop stays_pop_carrier : stays.
Lemma stays_unary a b : stays (turbowasm_stack_unary realloc_ok H a b).
Proof. unfold turbowasm_stack_unary. stays_tac. Qed.
Lemma stays_binary a b : stays (turbowasm_stack_binary realloc_ok H a b).
Proof. unfold turbowasm_stack_binary. stays_tac. Qed.
Lemma stays_pop_reversed ts : stays (pop_reversed H ts).
Proof. induction ts as [|t ts IH]; simpl; stays_tac. Qed.
Hint Resolve stays_unary stays_binary stays_pop_reversed : stays.
Lemma stays_pop_types_actual ts : stays (turbowasm_stack_pop_types_actual H ts).
Proof. apply stays_pop_reversed. Qed.
Hint Resolve stays_pop_types_actual : stays.
Lemma stays_pop_types ts : stays (turbowasm_stack_pop_types H ts).
Proof. unfold turbowasm_stack_pop_types. stays_tac. Qed.
Lemma stays_push_types ts : stays (turbowasm_stack_push_types realloc_ok ts).
Proof. induction ts as [|t ts IH]; simpl; stays_tac. Qed.
Hint Resolve stays_pop_types stays_push_types : stays.
Lemma stays_push_results t : stays (turbowasm_stack_push_results realloc_ok t).
Proof. apply stays_push_types. Qed.
Lemma stays_pop_params t : stays (turbowasm_stack_pop_params H t).
Proof. apply stays_pop_types. Qed.
Lemma stays_pop_results t : stays (turbowasm_pop_results H t).
Proof. apply stays_pop_types. Qed.
Hint Resolve stays_push_results stays_pop_params stays_pop_results : stays.
Lemma stays_result_stack t : stays (turbowasm_validate_result_stack H t).
Proof. unfold turbowasm_validate_result_stack. stays_tac. Qed.
Lemma stays_validate_end f : stays (turbowasm_control_validate_end H f).
Proof. unfold turbowasm_control_validate_end. stays_tac. Qed.
Hint Resolve stays_result_stack stays_validate_end : stays.

Lemma stays_unreachable : stays turbowasm_control_mark_unreachable.
Proof.
  split; [|done]. intros s a s' [= _ <-]. constructor; simpl; try done; [apply moved_refl| |].
  - unfold floor_ok, base, tsize. simpl. rewrite length_take, take_take. intros Hf. split; [lia|]. by rewrite Nat.min_id.
  - unfold room_ok, tsize. simpl. rewrite length_take. lia.
Qed.
Hint Resolve stays_unreachable : stays.

Lemma stays_branch depth c : stays (turbowasm_control_branch realloc_ok H depth c).
Proof. unfold turbowasm_control_branch. stays_tac. Qed.
Hint Resolve stays_branch : stays.

Ltac stays_by d := unfold d; stays_tac.

Lemma stays_function_type_at i : stays (function_type_at H ctx i).
Proof. stays_by function_type_at. Qed.
Lemma stays_funcref_table i : stays (funcref_table ctx i).
Proof. stays_by funcref_table. Qed.
Hint Resolve stays_function_type_at stays_funcref_table : stays.
Lemma stays_call : stays (turbowasm_validate_call buf realloc_ok H ctx).
Proof. stays_by turbowasm_validate_call. Qed.
Lemma stays_call_indirect : stays (turbowasm_validate_call_indirect buf realloc_ok H ctx).
Proof. stays_by turbowasm_validate_call_indirect. Qed.
Lemma stays_return_call t : stays (turbowasm_validate_return_call buf H ctx t).
Proof. stays_by turbowasm_validate_return_call. Qed.
Lemma stays_return_call_indirect t : stays (turbowasm_validate_return_call_indirect buf H ctx t).
Proof. stays_by turbowasm_validate_return_call_indirect. Qed.
Lemma stays_call_ref t : stays (turbowasm_validate_call_ref buf realloc_ok H ctx t).
Proof. stays_by turbowasm_validate_call_ref. Qed.
Lemma stays_ref_branch b : stays (turbowasm_validate_ref_branch buf realloc_ok H b).
Proof. stays_by turbowasm_validate_ref_branch. Qed.
Lemma stays_memarg a : stays (turbowasm_validate_indexed_memarg buf ctx a).
Proof. stays_by turbowasm_validate_indexed_memarg. Qed.
Hint Resolve stays_call stays_call_indirect stays_return_call stays_return_call_indirect stays_call_ref
  stays_ref_branch stays_memarg : stays.
Lemma stays_load t a : stays (turbowasm_validate_load buf realloc_ok H ctx t a).
Proof. stays_by turbowasm_validate_load. Qed.
Lemma stays_store t a : stays (turbowasm_validate_store buf H ctx t a).
Proof. stays_by turbowasm_validate_store. Qed.
Lemma stays_size_or_grow b : stays (turbowasm_validate_memory_size_or_grow buf realloc_ok H ctx b).
Proof. stays_by turbowasm_validate_memory_size_or_grow. Qed.
Hint Resolve stays_load stays_store stays_size_or_grow : stays.

Lemma stays_catch_list n : stays (read_catch_list buf H ctx n).
Proof. induction n as [|n IH]; cbn [read_catch_list]; stays_tac. Qed.
Hint Resolve stays_catch_list : stays.
Lemma stays_catches : stays (turbowasm_read_try_catches buf malloc_ok H ctx).
Proof. stays_by turbowasm_read_try_catches. Qed.
Lemma stays_throw : stays (turbowasm_validate_throw buf H ctx).
Proof. stays_by turbowasm_validate_throw. Qed.
Lemma stays_throw_ref : stays (turbowasm_validate_throw_ref H).
Proof. stays_by turbowasm_validate_throw_ref. Qed.
Lemma stays_depths n : stays (read_depths buf n).
Proof. induction n as [|n IH]; cbn [read_depths]; stays_tac. Qed.
Lemma stays_check_labels ds n : stays (check_labels realloc_ok H ds n).
Proof. induction ds as [|d ds IH]; cbn [check_labels]; stays_tac. Qed.
Hint Resolve stays_catches stays_throw stays_throw_ref stays_depths stays_check_labels : stays.
Lemma stays_br_table : stays (turbowasm_validate_br_table buf realloc_ok malloc_ok H).
Proof. stays_by turbowasm_validate_br_table. Qed.
Hint Resolve stays_br_table : stays.

Lemma stays_gc_pop t : stays (turbowasm_gc_pop H t).
Proof. apply stays_pop. Qed.
Hint Resolve stays_gc_pop : stays.
Lemma stays_pop_copies n t : stays (pop_copies H n t).
Proof. induction n as [|n IH]; cbn [pop_copies]; stays_tac. Qed.
Lemma stays_fixed_count e : stays (fixed_count e).
Proof. stays_by fixed_count. Qed.
Hint Resolve stays_pop_copies stays_fixed_count : stays.
Lemma stays_gc_typed op t r f : stays (gc_typed buf realloc_ok H ctx op t r f).
Proof. unfold gc_typed. cbv zeta. stays_tac. Qed.
Lemma stays_gc_cast_branch op : stays (gc_cast_branch buf realloc_ok H ctx op).
Proof. stays_by gc_cast_branch. Qed.
Hint Resolve stays_gc_typed stays_gc_cast_branch : stays.
Lemma stays_gc_untyped op : stays (gc_untyped buf realloc_ok H ctx op).
Proof. stays_by gc_untyped. Qed.
Hint Resolve stays_gc_untyped : stays.
Lemma stays_gc : stays (turbowasm_validate_gc buf realloc_ok H ctx).
Proof. stays_by turbowasm_validate_gc. Qed.
Lemma stays_fc_memory op : stays (fc_memory buf H ctx op).
Proof. stays_by fc_memory. Qed.
Lemma stays_pop_i32_n n : stays (turbowasm_stack_pop_i32_n H n).
Proof. apply stays_pop_copies. Qed.
Hint Resolve stays_gc stays_fc_memory stays_pop_i32_n : stays.
Lemma stays_fc_table op : stays (fc_table buf realloc_ok H ctx op).
Proof. stays_by fc_table. Qed.
Hint Resolve stays_fc_table : stays.
Lemma stays_fc : stays (turbowasm_validate_fc buf realloc_ok H ctx).
Proof. unfold turbowasm_validate_fc, turbowasm_validate_conversion. stays_tac. Qed.

Lemma stays_atomic_memarg a : stays (turbowasm_validate_atomic_memarg_alignment buf ctx a).
Proof. stays_by turbowasm_validate_atomic_memarg_alignment. Qed.
Lemma stays_pop_carriers ts : stays (pop_carriers H ts).
Proof. induction ts as [|t ts IH]; cbn [pop_carriers]; stays_tac. Qed.
Hint Resolve stays_fc stays_atomic_memarg stays_pop_carriers : stays.
Lemma stays_atomic_shape a ts r : stays (atomic_shape buf realloc_ok H ctx a ts r).
Proof. stays_by atomic_shape. Qed.
Hint Resolve stays_atomic_shape : stays.
Lemma stays_atomic : stays (turbowasm_validate_atomic buf realloc_ok H ctx).
Proof. stays_by turbowasm_validate_atomic. Qed.

Lemma stays_lanes n : stays (read_lanes buf n).
Proof. induction n as [|n IH]; cbn [read_lanes]; stays_tac. Qed.
Lemma stays_lane d : stays (read_lane buf d).
Proof. stays_by read_lane. Qed.
Hint Resolve stays_atomic stays_lanes stays_lane : stays.
Lemma stays_simd_descriptor d : stays (turbowasm_validate_simd_descriptor buf realloc_ok H ctx d).
Proof. unfold turbowasm_validate_simd_descriptor. stays_tac. apply stays_slice. lia. Qed.
Hint Resolve stays_simd_descriptor : stays.
Lemma stays_simd : stays (turbowasm_validate_simd buf realloc_ok H ctx).
Proof. stays_by turbowasm_validate_simd. Qed.
Hint Resolve stays_simd : stays.

Lemma stays_op_branch t op : stays (op_branch buf realloc_ok malloc_ok H t op).
Proof. stays_by op_branch. Qed.
Lemma stays_op_call t op : stays (op_call buf realloc_ok H ctx t op).
Proof. stays_by op_call. Qed.
Lemma stays_op_select : stays (op_select realloc_ok H).
Proof. stays_by op_select. Qed.
Lemma stays_op_typed_select : stays (op_typed_select buf realloc_ok H ctx).
Proof. stays_by op_typed_select. Qed.
Lemma stays_op_global op : stays (op_global buf realloc_ok H ctx op).
Proof. stays_by op_global. Qed.
Lemma stays_op_table op : stays (op_table buf realloc_ok H ctx op).
Proof. stays_by op_table. Qed.
Lemma stays_switch {A} k (cases : list (Z * vm A)) d :
  Forall (fun c => stays (snd c)) cases -> stays d -> stays (switch k cases d).
Proof. induction 1 as [|[l m] cs Hm _ IH]; intros Hd; simpl; [done|]. destruct (k =? l); [done|by apply IH]. Qed.
Lemma stays_op_memory op : stays (op_memory buf realloc_ok H ctx op).
Proof. apply stays_switch; [repeat apply Forall_cons_2; [..|apply Forall_nil_2]; simpl|]; stays_tac. Qed.
Lemma stays_op_const op : stays (op_const buf realloc_ok op).
Proof. apply stays_switch; [repeat apply Forall_cons_2; [..|apply Forall_nil_2]; simpl|]; stays_tac; apply stays_slice; lia. Qed.
Lemma stays_op_numeric op : stays (op_numeric realloc_ok H op).
Proof. unfold op_numeric, turbowasm_validate_conversion. stays_tac. Qed.
Lemma stays_op_reference op : stays (op_reference buf realloc_ok H ctx op).
Proof. stays_by op_reference. Qed.
Hint Resolve stays_op_branch stays_op_call stays_op_select stays_op_typed_select stays_op_global
  stays_op_table stays_op_memory stays_op_const stays_op_numeric stays_op_reference : stays.

Lemma stays_initialize i : 0 <= i -> stays (initialize_local i).
Proof.
  intros Hi. split; [|done]. intros s a s' [= _ <-]. simpl. destruct (locals_initialized (v_controls s) !! Z.to_nat i) as [[]|] eqn:Hl;
    simpl; try apply plain_refl.
  constructor; simpl; try done; [apply moved_refl|by eexists|].
  intros n [Hlen Hnd Hmk]. constructor; simpl.
  - by rewrite length_insert.
  - apply NoDup_app. split_and!; [done| |apply NoDup_singleton].
    intros j Hj ->%list_elem_of_singleton. rewrite Forall_forall in Hmk. destruct (Hmk _ Hj) as [_ Hj']. congruence.
  - apply Forall_app. split; [|constructor; [|constructor]; split; [done|]; apply list_lookup_insert_eq;
      by eapply lookup_lt_Some].
    eapply Forall_impl; [exact Hmk|]. intros j [Hj0 Hj]. split; [done|].
    destruct (decide (Z.to_nat j = Z.to_nat i)) as [e|Hne]; [rewrite e in Hj; congruence|].
    by rewrite list_lookup_insert_ne.
Qed.

(** The index read is not negative, so the local is the one it names. *)
Lemma stays_bind_uleb32 {B} (k : Z -> vm B) : (forall i, 0 <= i -> stays (k i)) -> stays (uleb32 buf ≫= k).
Proof.
  intros Hk. split; intros s b s' E; unfold mbind, vm_bind in E;
    destruct (uleb32 buf s) as [[st|i] s1] eqn:E1; try discriminate.
  2: { injection E as -> ->. by eapply (st_strict _ stays_uleb32). }
  all: assert (Hi : 0 <= i) by (apply lift_inv in E1 as (r & Er & _); unfold decode in Er;
    destruct (turbowasm_reader_uleb32 buf (v_reader s)) as [[v|] r'] eqn:Eu; [|done];
    injection Er as -> _; apply (uleb32_range _ _ _ _ Eu)).
  - eapply plain_trans; [by eapply (st_plain _ stays_uleb32)|by eapply (st_plain _ (Hk i Hi))].
  - by eapply (st_strict _ (Hk i Hi)).
Qed.

Lemma stays_op_local sem op : stays (op_local buf realloc_ok H sem op).
Proof. unfold op_local. apply stays_bind_uleb32. intros i Hi. stays_tac. by apply stays_initialize. Qed.
Hint Resolve stays_op_local : stays.

(** ** Exact effects of the compound stack operations *)

Lemma popped_self s : popped (tvalues (v_stack s)) s = s.
Proof. by destruct s as [? [] ? ? ?]. Qed.

Lemma popped_popped vs ws s : popped ws (popped vs s) = popped ws s.
Proof. done. Qed.

Lemma pop_actual_inv t s a s' : turbowasm_stack_pop_semantic_actual H t s = (inr a, s') ->
  exists vs, s' = popped vs s /\ vs `prefix_of` tvalues (v_stack s) /\
    (unreachable (v_stack s) = false ->
     tvalues (v_stack s) = vs ++ [a] /\ floor (v_stack s) < tsize (v_stack s) /\
     ((carrier a =? TW_ANY) || value_matches H a t = true)).
Proof.
  unfold turbowasm_stack_pop_semantic_actual. intros E. vm_inv.
  destruct (pop_any_inv _ _ _ E0) as (_ & [(_ & Hu & _ & ->)|(vs & Hvs & Hlt & ->)]).
  - exists (tvalues (v_stack s)). rewrite popped_self. split_and!; [done..|]. congruence.
  - exists vs. split_and!; [done|by eexists|]. intros _. split_and!; [done..|].
    destruct (carrier _ =? TW_ANY); [done|]. by apply negb_false_iff.
Qed.

(** In reachable code the popped types are the top of the stack, each matching
    the type asked for. *)
Lemma pop_reversed_inv ts : forall s l s', pop_reversed H ts s = (inr l, s') ->
  exists vs, s' = popped vs s /\ vs `prefix_of` tvalues (v_stack s) /\
    (unreachable (v_stack s) = false ->
     tvalues (v_stack s) = vs ++ l /\
     Forall2 (fun a t => (carrier a =? TW_ANY) || value_matches H a t = true) l (reverse ts)).
Proof.
  induction ts as [|t ts IH]; intros s l s' E; cbn [pop_reversed] in E; vm_inv.
  - exists (tvalues (v_stack s')). rewrite popped_self. split_and!; [done..|]. intros _. rewrite app_nil_r. by split; [|constructor].
  - destruct (pop_actual_inv _ _ _ _ E0) as (vs & -> & Hpre & Hv).
    destruct (IH _ _ _ E1) as (ws & -> & Hpre' & Hw). exists ws. split_and!; [done|simpl in Hpre'; by etrans|].
    intros Hu. destruct (Hv Hu) as (Hvs & _ & Ha). destruct (Hw Hu) as [Hws Hl]. simpl in Hws.
    rewrite Hvs, Hws, reverse_cons. split; [by rewrite app_assoc|]. apply Forall2_app; [done|]. by constructor.
Qed.

Lemma pop_types_actual_inv ts s l s' : turbowasm_stack_pop_types_actual H ts s = (inr l, s') ->
  exists vs, s' = popped vs s /\ vs `prefix_of` tvalues (v_stack s) /\
    (unreachable (v_stack s) = false ->
     tvalues (v_stack s) = vs ++ l /\
     Forall2 (fun a t => (carrier a =? TW_ANY) || value_matches H a t = true) l ts).
Proof. intros E. apply pop_reversed_inv in E. by rewrite reverse_involutive in E. Qed.

Lemma pop_types_inv ts s u s' : turbowasm_stack_pop_types H ts s = (inr u, s') ->
  exists vs, s' = popped vs s /\ vs `prefix_of` tvalues (v_stack s) /\
    (unreachable (v_stack s) = false -> exists l,
     tvalues (v_stack s) = vs ++ l /\
     Forall2 (fun a t => (carrier a =? TW_ANY) || value_matches H a t = true) l ts).
Proof.
  unfold turbowasm_stack_pop_types. intros E. vm_inv.
  destruct (pop_types_actual_inv _ _ _ _ E0) as (vs & -> & Hpre & Hv). exists vs. split_and!; [done..|].
  intros Hu. exists a. by apply Hv.
Qed.

Lemma push_types_inv ts : forall s u s', turbowasm_stack_push_types realloc_ok ts s = (inr u, s') ->
  exists cap, s' = set_stack (mk_tstack (tvalues (v_stack s) ++ ts) cap (floor (v_stack s))
                                (unreachable (v_stack s))) s /\
    (room_ok (v_stack s) -> room_ok (v_stack s')).
Proof.
  induction ts as [|t ts IH]; intros s u s' E; cbn [turbowasm_stack_push_types] in E; vm_inv.
  - exists (tcapacity (v_stack s')). rewrite app_nil_r. split; [by destruct s' as [? [] ? ? ?]|done].
  - destruct (push_inv _ _ _ _ E0) as (cap & -> & _ & Hcap). destruct (IH _ _ _ E) as (cap' & -> & Hr).
    exists cap'. split; [simpl; by rewrite <- app_assoc|]. intros Hroom. apply Hr.
    specialize (Hcap Hroom). revert Hcap. unfold room_ok, tsize. simpl. rewrite length_app. simpl. lia.
Qed.

End Primitives.

#[export] Hint Resolve stays_push stays_pop_any stays_uleb32 stays_uleb64 stays_byte
  stays_push_carrier stays_pop_any_carrier stays_pop_actual stays_pop stays_pop_carrier stays_unary
  stays_binary stays_pop_reversed stays_pop_types_actual stays_pop_types stays_push_types
  stays_push_results stays_pop_params stays_pop_results stays_result_stack stays_validate_end
  stays_unreachable stays_branch stays_function_type_at stays_funcref_table stays_call
  stays_call_indirect stays_return_call stays_return_call_indirect stays_call_ref stays_ref_branch
  stays_memarg stays_load stays_store stays_size_or_grow stays_catch_list stays_catches stays_throw
  stays_throw_ref stays_depths stays_check_labels stays_br_table stays_gc stays_fc stays_atomic
  stays_simd stays_op_branch stays_op_call stays_op_select stays_op_typed_select stays_op_global
  stays_op_table stays_op_memory stays_op_const stays_op_numeric stays_op_reference stays_op_local : stays.

End ValidatorSteps.
