(* ===== verification/ValidatorFrames.v ===== *)
(** * The control discipline of the instruction validator

    Exact effects of the instructions that open, turn around and close frames,
    and the classification of every step of the validator into those and
    [plain] steps. *)

From S2P Require Import Prelude Reader Types TypeEq TypeReader Context OpTables Validator ValidatorSteps.
From S2P Require ExecStack.

Module ValidatorFrames.
Import Reader Types TypeEq TypeReader Context OpTables Validator ValidatorSteps.

(** What of a type decides the kind of its values. *)
Definition face (ty : turbowasm_validation_value_type) : Z * bool := (carrier ty, is_reference ty).

(** What an annotation update leaves alone. *)
Definition header (f : turbowasm_validation_function) :=
  (function_type_index f, function_imported f, local_types f, local_semantics f, code f, code_size f).

(** Journal and flags after a frame of height [h] is left. *)
Definition reset (h : Z) (c c' : turbowasm_control_stack) : Prop :=
  journal c' = take (Z.to_nat h) (journal c) /\ forall n, locals_ok n c -> locals_ok n c'.

(** What an opcode does to the nesting of a body: opens a frame, turns an if
    around to its else, closes a frame, or nothing. *)
Inductive bracket :=
  | Opens (kind : turbowasm_validation_control_kind)
  | Turns
  | Closes
  | Neutral.

Definition bracket_of (opcode : Z) : bracket :=
  if opcode =? 0x02 then Opens VALIDATION_CONTROL_BLOCK
  else if opcode =? 0x03 then Opens VALIDATION_CONTROL_LOOP
  else if opcode =? 0x04 then Opens VALIDATION_CONTROL_IF
  else if opcode =? 0x05 then Turns
  else if opcode =? 0x0b then Closes
  else if opcode =? 0x1f then Opens VALIDATION_CONTROL_TRY_TABLE
  else Neutral.

Section Shapes.
Context (code_start : option Z).
Abbreviation offset := (code_offset code_start).

(** A frame [f] with annotation [a] is opened; [s] is the state after the opcode
    byte. *)
Record opens (s s' : vstate) (f : turbowasm_control_frame) (a : turbowasm_validation_control) : Prop := {
  op_reader : moved (v_reader s) (v_reader s');
  op_frames : cframes (v_controls s') = cframes (v_controls s) ++ [f];
  op_kind : ckind f <> CTRL_FUNCTION;
  op_fresh : else_seen f = false;
  op_pfloor : parent_floor f = floor (v_stack s);
  op_pdead : parent_unreachable f = unreachable (v_stack s);
  op_values : exists vs, tvalues (v_stack s') = vs ++ start_types f /\ cheight f = Z.of_nat (length vs) /\
    vs `prefix_of` tvalues (v_stack s);
  op_above : floor_ok (v_stack s) -> floor (v_stack s) <= cheight f;
  op_floor : floor (v_stack s') = cheight f;
  op_live : unreachable (v_stack s') = false;
  op_journal : journal (v_controls s') = journal (v_controls s) /\ init_height f = init_count (v_controls s);
  op_locals : locals_initialized (v_controls s') = locals_initialized (v_controls s);
  op_room : room_ok (v_stack s) -> room_ok (v_stack s');
  op_croom : croom_ok (v_controls s) -> croom_ok (v_controls s');
  op_header : header (v_function s') = header (v_function s);
  op_controls : controls_of (v_function s') = controls_of (v_function s) ++ [a] /\
    annotation_index f = Z.of_nat (length (controls_of (v_function s))) /\
    annotation_index f <> UINT32_MAX;
  op_opcode : opcode_offset a = offset s - 1 /\ 0 < offset s /\ offset s - 1 <= UINT32_MAX;
  op_body : body_offset a = offset s' /\ offset s' <= UINT32_MAX;
  op_unset : else_offset a = UINT32_MAX /\ end_offset a = UINT32_MAX
}.

(** An if frame reaches its else. *)
Record turns (s s' : vstate) (fs : list turbowasm_control_frame) (f : turbowasm_control_frame)
    (a : turbowasm_validation_control) : Prop := {
  tu_reader : v_reader s' = v_reader s;
  tu_before : cframes (v_controls s) = fs ++ [f];
  tu_after : cframes (v_controls s') = fs ++ [with_else_seen f];
  tu_kind : ckind f = CTRL_IF;
  tu_fresh : else_seen f = false;
  tu_values : exists vs, tvalues (v_stack s') = vs ++ start_types f /\ cheight f = Z.of_nat (length vs) /\
    vs `prefix_of` tvalues (v_stack s);
  tu_floor : floor (v_stack s') = cheight f;
  tu_live : unreachable (v_stack s') = false;
  tu_journal : reset (init_height f) (v_controls s) (v_controls s');
  tu_room : room_ok (v_stack s) -> room_ok (v_stack s');
  tu_ccap : ccapacity (v_controls s') = ccapacity (v_controls s);
  tu_index : annotation_index f <> UINT32_MAX /\
    controls_of (v_function s) !! Z.to_nat (annotation_index f) = Some a;
  tu_unset : else_offset a = UINT32_MAX;
  tu_function : v_function s' = set_annotation (annotation_index f) (with_else_offset (offset s - 1) a) (v_function s)
}.

(** The innermost frame is closed. *)
Record closes (s s' : vstate) (fs : list turbowasm_control_frame) (f : turbowasm_control_frame)
    (a : turbowasm_validation_control) : Prop := {
  cl_reader : v_reader s' = v_reader s;
  cl_before : cframes (v_controls s) = fs ++ [f];
  cl_after : cframes (v_controls s') = fs;
  cl_kind : ckind f <> CTRL_FUNCTION;
  cl_else : ckind f = CTRL_IF -> else_seen f = false -> map face (start_types f) = map face (end_types f);
  cl_values : exists vs, tvalues (v_stack s') = vs ++ end_types f /\ cheight f = Z.of_nat (length vs) /\
    vs `prefix_of` tvalues (v_stack s);
  cl_floor : floor (v_stack s') = parent_floor f;
  cl_live : unreachable (v_stack s') = parent_unreachable f;
  cl_journal : reset (init_height f) (v_controls s) (v_controls s');
  cl_room : room_ok (v_stack s) -> room_ok (v_stack s');
  cl_ccap : ccapacity (v_controls s') = ccapacity (v_controls s);
  cl_index : annotation_index f <> UINT32_MAX /\
    controls_of (v_function s) !! Z.to_nat (annotation_index f) = Some a;
  cl_unset : end_offset a = UINT32_MAX;
  cl_function : v_function s' = set_annotation (annotation_index f) (with_end_offset (offset s - 1) a) (v_function s)
}.

Inductive shape (opcode : Z) (s s' : vstate) : Prop :=
  | shape_plain : bracket_of opcode = Neutral -> plain s s' -> shape opcode s s'
  | shape_opens f a : bracket_of opcode = Opens (control_kind a) -> opens s s' f a -> shape opcode s s'
  | shape_turns fs f a : opcode = 0x05 -> turns s s' fs f a -> shape opcode s s'
  | shape_closes fs f a : opcode = 0x0b -> closes s s' fs f a -> shape opcode s s'.

End Shapes.

(** ** Undoing the journal *)

Lemma unmark_keeps js (i : nat) : forall flags : list bool, (forall j, j ∈ js -> Z.to_nat j <> i) ->
  foldl (fun init j => <[Z.to_nat j := false]> init) flags js !! i = flags !! i.
Proof.
  induction js as [|j js IH]; intros flags Hj; simpl; [done|].
  rewrite IH by (intros k Hk; apply Hj, elem_of_cons; by right).
  apply list_lookup_insert_ne, Hj, elem_of_cons. by left.
Qed.

Lemma unmark_length js : forall flags : list bool,
  length (foldl (fun init j => <[Z.to_nat j := false]> init) flags js) = length flags.
Proof. induction js as [|j js IH]; intros flags; simpl; [done|]. by rewrite IH, length_insert. Qed.

Lemma reset_locals_ok h c : reset h c (turbowasm_control_reset_locals h c).
Proof.
  split; [done|]. intros n [Hlen Hnd Hmk]. unfold turbowasm_control_reset_locals. constructor; simpl.
  - by rewrite unmark_length.
  - rewrite <- (take_drop (Z.to_nat h) (journal c)) in Hnd. by apply NoDup_app in Hnd as (? & _ & _).
  - rewrite <- (take_drop (Z.to_nat h) (journal c)) in Hnd, Hmk. apply NoDup_app in Hnd as (_ & Hdisj & _).
    apply Forall_app in Hmk as [Hmk Hmk2]. rewrite Forall_forall in Hmk |- *. intros i Hi.
    destruct (Hmk i Hi) as [Hi0 Hti]. split; [done|]. rewrite unmark_keeps; [done|].
    intros j Hj Hij. rewrite elem_of_reverse in Hj. rewrite Forall_forall in Hmk2.
    destruct (Hmk2 j Hj) as [Hj0 _]. assert (j = i) as -> by lia. by apply (Hdisj i).
Qed.

(** ** Programs that only read *)

Definition reads {A} (m : vm A) : Prop := forall s a s', m s = (inr a, s') ->
  exists r, moved (v_reader s) r /\ s' = set_reader r s.

Lemma reads_same {A} (m : vm A) : (forall s a s', m s = (inr a, s') -> s' = s) -> reads m.
Proof. intros Hm s a s' E. exists (v_reader s). split; [apply moved_refl|]. rewrite (Hm _ _ _ E). by destruct s. Qed.

Lemma reads_bind {A B} (m : vm A) (k : A -> vm B) : reads m -> (forall a, reads (k a)) -> reads (m ≫= k).
Proof.
  intros Hm Hk s b s' E. vm_inv. destruct (Hm _ _ _ E0) as (r1 & Hr1 & ->). destruct (Hk _ _ _ _ E) as (r2 & Hr2 & ->).
  exists r2. split; [by eapply moved_trans|done].
Qed.

Lemma reads_lift {A} (p : parse A) : forward p -> reads (lift p).
Proof. intros Hp s a s' (r & Er & ->)%lift_inv. exists r. split; [by eapply (fw_moved _ Hp)|done]. Qed.

Lemma reads_ret {A} (a : A) : reads (mret a).
Proof. apply reads_same. intros s b s' E. by vm_inv. Qed.
Lemma reads_fail {A} st : reads (@vfail A st).
Proof. intros s b s' E. by vm_inv. Qed.
Lemma reads_reject b : reads (reject_if b).
Proof. apply reads_same. intros s u s' E. by vm_inv. Qed.
Lemma reads_guard b st : reads (guard b st).
Proof. apply reads_same. intros s u s' E. by vm_inv. Qed.
Lemma reads_get : reads get.
Proof. apply reads_same. intros s u s' E. by vm_inv. Qed.
Lemma reads_need {A} (o : option A) : reads (need o).
Proof. apply reads_same. intros s u s' E. by vm_inv. Qed.
Lemma reads_uleb32 buf : reads (uleb32 buf).
Proof. apply reads_lift, forward_uleb32. Qed.
Lemma reads_uleb64 buf : reads (uleb64 buf).
Proof. apply reads_lift, forward_uleb64. Qed.
Lemma reads_byte buf : reads (byte buf).
Proof. apply reads_lift, forward_u8. Qed.

Create HintDb reads.
#[export] Hint Resolve reads_ret reads_fail reads_reject reads_guard reads_get reads_need reads_uleb32
  reads_uleb64 reads_byte : reads.

Ltac reads_tac :=
  repeat match goal with
  | |- reads (mbind _ _) => apply reads_bind; [|intros ?]
  | |- reads (if ?b then _ else _) => destruct b
  | |- reads (match ?x with _ => _ end) => destruct x
  | |- reads _ => solve [eauto with reads]
  end.

Lemma reads_catch_list buf H ctx n : reads (read_catch_list buf H ctx n).
Proof. induction n as [|n IH]; cbn [read_catch_list]; reads_tac. Qed.
#[export] Hint Resolve reads_catch_list : reads.
Lemma reads_catches buf malloc_ok H ctx : reads (turbowasm_read_try_catches buf malloc_ok H ctx).
Proof. unfold turbowasm_read_try_catches. reads_tac. Qed.
Lemma reads_memarg buf ctx a : reads (turbowasm_validate_indexed_memarg buf ctx a).
Proof. unfold turbowasm_validate_indexed_memarg. reads_tac. Qed.

(** ** The frame operations *)

Section Frames.
Context (buf : list Z) (realloc_ok malloc_ok : Z -> bool).
Context (H : type_heap) (ctx : turbowasm_validation_context).

(** The state with a frame over the operands [vs]. *)
Definition framed (vs : list turbowasm_validation_value_type) (cap ccap : Z)
    (f : turbowasm_control_frame) (s : vstate) : vstate :=
  mk_vstate (v_reader s) (mk_tstack (vs ++ start_types f) cap (cheight f) false)
    (mk_cstack (cframes (v_controls s) ++ [f]) ccap (locals_initialized (v_controls s)) (journal (v_controls s)))
    (v_function s) (v_requires_store s).

Lemma control_push_inv kind starts ends ai s u s' :
  turbowasm_control_push realloc_ok malloc_ok H kind starts ends ai s = (inr u, s') ->
  exists vs cap ccap, turbowasm_stack_pop_types H starts s = (inr tt, popped vs s) /\
    vs `prefix_of` tvalues (v_stack s) /\
    s' = framed vs cap ccap
           (mk_cframe kind (Z.of_nat (length vs)) (floor (v_stack s)) (unreachable (v_stack s)) false starts ends
              ai (init_count (v_controls s))) s /\
    (room_ok (v_stack s) -> room_ok (v_stack s')) /\ (croom_ok (v_controls s) -> croom_ok (v_controls s')).
Proof.
  unfold turbowasm_control_push. intros E. vm_inv.
  match goal with E : turbowasm_stack_pop_types _ _ _ = (inr ?x, _) |- _ => destruct x; rename E into Ep end.
  destruct (pop_types_inv _ _ _ _ _ Ep) as (vs & -> & Hpre & _).
  destruct (turbowasm_control_reserve realloc_ok _ _) as [c|] eqn:Er; [|discriminate E]. vm_inv.
  unfold turbowasm_control_reserve in Er. destruct (ExecStack.ExecStack.reserve _ _ _ _ _) as [cc|] eqn:Ecc; [|discriminate].
  injection Er as <-. destruct (push_types_inv _ _ _ _ _ E) as (cap & -> & Hroom).
  exists vs, cap, cc. split_and!; [done|done|by destruct s| |].
  - intros Hr. apply Hroom. revert Hr. unfold room_ok, tsize. simpl. apply prefix_length in Hpre. lia.
  - unfold croom_ok, csize in *. simpl in *. intros Hr. rewrite length_app. simpl.
    match goal with G : (_ =? UINT32_MAX) = false |- _ => apply Z.eqb_neq in G end.
    apply ExecStack.ExecStack.reserve_spec in Ecc; unfold UINT32_MAX in *; lia.
Qed.

(** The innermost frame and the rest. *)
Lemma control_top_inv c f : turbowasm_control_top c = Some f ->
  exists fs, cframes c = fs ++ [f] /\ take (length (cframes c) - 1) (cframes c) = fs.
Proof.
  intros [fs Hfs]%last_Some. exists fs. split; [done|]. by rewrite Hfs, length_app, Nat.add_sub, take_app_length.
Qed.

Lemma validate_end_inv f s u s' : turbowasm_control_validate_end H f s = (inr u, s') ->
  exists vs, turbowasm_stack_pop_types H (end_types f) s = (inr tt, s') /\ s' = popped vs s /\
    vs `prefix_of` tvalues (v_stack s) /\ cheight f = Z.of_nat (length vs).
Proof.
  unfold turbowasm_control_validate_end. intros E. vm_inv. apply negb_false_iff, Z.eqb_eq in G.
  match goal with E : turbowasm_stack_pop_types _ _ _ = (inr ?x, _) |- _ => destruct x; rename E into Ep end.
  destruct (pop_types_inv _ _ _ _ _ Ep) as (vs & -> & Hpre & _). exists vs. by split_and!.
Qed.

Lemma control_else_inv s u s' : turbowasm_control_else realloc_ok H s = (inr u, s') ->
  exists fs f vs cap, cframes (v_controls s) = fs ++ [f] /\ ckind f = CTRL_IF /\ else_seen f = false /\
    turbowasm_stack_pop_types H (end_types f) s = (inr tt, popped vs s) /\
    vs `prefix_of` tvalues (v_stack s) /\ cheight f = Z.of_nat (length vs) /\
    s' = mk_vstate (v_reader s) (mk_tstack (vs ++ start_types f) cap (cheight f) false)
           (turbowasm_control_reset_locals (init_height f) (set_frames (fs ++ [with_else_seen f]) (v_controls s)))
           (v_function s) (v_requires_store s) /\
    (room_ok (v_stack s) -> room_ok (v_stack s')).
Proof.
  unfold turbowasm_control_else. intros E. vm_inv.
  match goal with G : turbowasm_control_top _ = Some ?x |- _ =>
    destruct (control_top_inv _ _ G) as (fs & Hfs & Htake); rename x into f end.
  match goal with G : negb _ || _ = false |- _ => apply orb_false_iff in G as [Gk Ge] end.
  apply negb_false_iff, bool_decide_eq_true in Gk.
  match goal with E : turbowasm_control_validate_end _ _ _ = _ |- _ =>
    destruct (validate_end_inv _ _ _ _ E) as (vs & Ep & -> & Hpre & Hh) end.
  match goal with E : turbowasm_stack_push_types _ _ _ = _ |- _ =>
    destruct (push_types_inv _ _ _ _ _ E) as (cap & -> & Hroom) end.
  assert (Hv : take (Z.to_nat (cheight f)) vs = vs) by (rewrite Hh, Nat2Z.id; apply firstn_all).
  exists fs, f, vs, cap. split_and!; try done.
  - simpl. rewrite Hv, Htake. done.
  - intros Hr. apply Hroom. revert Hr. unfold room_ok, tsize. simpl. rewrite Hv. apply prefix_length in Hpre. lia.
Qed.

Lemma value_equal_face a b : turbowasm_validation_value_type_equal H a b = true -> face a = face b.
Proof.
  unfold turbowasm_validation_value_type_equal, face. destruct (Z.eqb_spec (carrier a) (carrier b)) as [->|]; [|done].
  simpl. by case_bool_decide as E; [rewrite E|].
Qed.

Lemma value_matches_face a b : value_matches H a b = true -> face a = face b.
Proof.
  unfold value_matches, turbowasm_validation_value_type_matches. destruct (is_reference a) eqn:Ea; simpl;
    [destruct (is_reference b) eqn:Eb; simpl|]; try apply value_equal_face.
  unfold face. rewrite Ea, Eb. by destruct (Z.eqb_spec (carrier a) (carrier b)) as [->|].
Qed.

Lemma types_equal_faces l : forall r, turbowasm_types_equal H l r = true -> map face l = map face r.
Proof.
  unfold turbowasm_types_equal. induction l as [|a l IH]; intros [|b r]; simpl; try done.
  rewrite !andb_true_iff. intros (Hl & Hab & Hr). f_equal; [by apply value_equal_face|].
  apply IH. by rewrite andb_true_iff.
Qed.

Lemma control_end_inv s u s' : turbowasm_control_end realloc_ok H s = (inr u, s') ->
  exists fs f vs cap, cframes (v_controls s) = fs ++ [f] /\ ckind f <> CTRL_FUNCTION /\
    (ckind f = CTRL_IF -> else_seen f = false ->
     turbowasm_types_equal H (start_types f) (end_types f) = true) /\
    turbowasm_stack_pop_types H (end_types f) s = (inr tt, popped vs s) /\
    vs `prefix_of` tvalues (v_stack s) /\ cheight f = Z.of_nat (length vs) /\
    s' = mk_vstate (v_reader s) (mk_tstack (vs ++ end_types f) cap (parent_floor f) (parent_unreachable f))
           (set_frames fs (turbowasm_control_reset_locals (init_height f) (v_controls s)))
           (v_function s) (v_requires_store s) /\
    (room_ok (v_stack s) -> room_ok (v_stack s')).
Proof.
  unfold turbowasm_control_end. intros E. vm_inv.
  match goal with G : turbowasm_control_top _ = Some ?x |- _ =>
    destruct (control_top_inv _ _ G) as (fs & Hfs & Htake); rename x into f end.
  match goal with G : bool_decide _ = false |- _ => apply bool_decide_eq_false in G; rename G into Gk end.
  match goal with G : _ && negb (turbowasm_types_equal _ _ _) = false |- _ => rename G into Ge end.
  match goal with E : turbowasm_control_validate_end _ _ _ = _ |- _ =>
    destruct (validate_end_inv _ _ _ _ E) as (vs & Ep & -> & Hpre & Hh) end.
  destruct (push_types_inv _ _ _ _ _ E) as (cap & -> & Hroom).
  assert (Hv : take (Z.to_nat (cheight f)) vs = vs) by (rewrite Hh, Nat2Z.id; apply firstn_all).
  exists fs, f, vs, cap. split_and!; try done.
  - intros Hk Hs. rewrite Hs, bool_decide_eq_true_2 in Ge by done. by apply negb_false_iff.
  - simpl. rewrite Hv, Htake. done.
  - intros Hr. apply Hroom. revert Hr. unfold room_ok, tsize. simpl. rewrite Hv. apply prefix_length in Hpre. lia.
Qed.

(** *** The instructions that use them *)

Section Opcodes.
Context (code_start : option Z).
Abbreviation offset := (code_offset code_start).

Lemma append_annotation_inv a s i s' : append_annotation realloc_ok a s = (inr i, s') ->
  exists f, s' = set_function f s /\ header f = header (v_function s) /\
    controls_of f = controls_of (v_function s) ++ [a] /\
    i = Z.of_nat (length (controls_of (v_function s))) /\ i <> UINT32_MAX.
Proof.
  unfold append_annotation, turbowasm_validation_function_append_control, append. intros E. vm_inv.
  unfold count in E. simpl in E. destruct (Z.eqb_spec (Z.of_nat (length (controls_of (v_function s)))) UINT32_MAX);
    [discriminate E|].
  destruct (turbowasm_validation_reserve _ _ _ _) as [cap|]; simpl in E; [|discriminate E]. vm_inv.
  eexists. split_and!; done.
Qed.

Lemma opcode_position_inv s i s' : opcode_position code_start s = (inr i, s') ->
  s' = s /\ i = offset s - 1 /\ 0 < offset s /\ offset s - 1 <= UINT32_MAX.
Proof.
  unfold opcode_position. intros E. vm_inv. apply orb_false_iff in G as [G Gm]. apply orb_false_iff in G as [_ Gp].
  rewrite Z.leb_gt in Gp. rewrite Z.gtb_ltb, Z.ltb_ge in Gm. by split_and!.
Qed.

Lemma body_position_inv s i s' : body_position code_start s = (inr i, s') ->
  s' = s /\ i = offset s /\ offset s <= UINT32_MAX.
Proof.
  unfold body_position. intros E. vm_inv. rewrite Z.gtb_ltb, Z.ltb_ge in G. by split_and!.
Qed.

(** In reachable code a frame with start types [starts] takes matching operands
    off the stack [vs1]. *)
Definition takes (vs1 starts : list turbowasm_validation_value_type) (f : turbowasm_control_frame) (s' : vstate) : Prop :=
  exists vs l, vs1 = vs ++ l /\
    Forall2 (fun a t => (carrier a =? TW_ANY) || value_matches H a t = true) l starts /\
    cheight f = Z.of_nat (length vs) /\ tvalues (v_stack s') = vs ++ starts.

(** Opening a frame from a state [s1] that differs from [s] by operands popped
    and bytes read. *)
Lemma open_frame s s1 a i kind starts ends u s2 s' vs1 r1 :
  kind <> CTRL_FUNCTION ->
  s1 = set_reader r1 (popped vs1 s) -> moved (v_reader s) r1 -> vs1 `prefix_of` tvalues (v_stack s) ->
  (floor_ok (v_stack s) -> floor_ok (v_stack s1)) ->
  append_annotation realloc_ok a s1 = (inr i, s2) ->
  turbowasm_control_push realloc_ok malloc_ok H kind starts ends i s2 = (inr u, s') ->
  opcode_offset a = offset s - 1 /\ 0 < offset s /\ offset s - 1 <= UINT32_MAX ->
  body_offset a = offset s1 -> offset s1 <= UINT32_MAX ->
  else_offset a = UINT32_MAX -> end_offset a = UINT32_MAX ->
  exists f, opens code_start s s' f a /\ ckind f = kind /\ start_types f = starts /\ end_types f = ends /\
    v_reader s' = r1 /\ (unreachable (v_stack s) = false -> takes vs1 starts f s').
Proof.
  intros Hk -> Hmv Hpre Hfl Ea Ep Hop Hb Hbm Hel Hen.
  destruct (append_annotation_inv _ _ _ _ Ea) as (fn & -> & Hhd & Hctl & -> & Hne).
  apply control_push_inv in Ep as (vs & cap & ccap & Epop & Hpre' & -> & Hroom & Hcroom).
  match goal with |- exists f, opens _ _ (framed _ _ _ ?g _) _ _ /\ _ => exists g end.
  split; [|split_and!; try done].
  2: { intros Hu. destruct (pop_types_inv _ _ _ _ _ Epop) as (ws & Hws & _ & Hl).
       assert (ws = vs) as -> by (pose proof (f_equal (fun s => tvalues (v_stack s)) Hws) as Hx; done).
       destruct (Hl Hu) as (l & Hv & HF). by exists vs, l. }
  simpl in *. constructor; simpl; try done.
  - exists vs. split_and!; [done|done|by etrans].
  - intros Hf. specialize (Hfl Hf). pose proof Epop as Hpl. apply (st_plain _ (stays_pop_types _ _)) in Hpl.
    destruct (pl_base _ _ Hpl) as [[_ Hge] _]; [exact Hfl|]. unfold tsize in Hge. simpl in Hge. done.
  - intros Hr. apply Hroom. revert Hr. unfold room_ok, tsize. simpl. apply prefix_length in Hpre. lia.
Qed.

(** What the annotation of a block says about its opcode and signature. *)
Definition annotated (kind : turbowasm_validation_control_kind) (sg : turbowasm_block_signature)
    (a : turbowasm_validation_control) : Prop :=
  control_kind a = kind /\ control_type_index a = bs_type_index sg /\
  inline_result_type a = carrier (bs_inline_end sg).

Lemma op_block_inv opcode s u s' :
  op_block buf realloc_ok malloc_ok H ctx code_start opcode s = (inr u, s') ->
  exists f a sg vs, opens code_start s s' f a /\
    ckind f = (if opcode =? 0x02 then CTRL_BLOCK else if opcode =? 0x03 then CTRL_LOOP else CTRL_IF) /\
    annotated (if opcode =? 0x02 then VALIDATION_CONTROL_BLOCK
               else if opcode =? 0x03 then VALIDATION_CONTROL_LOOP else VALIDATION_CONTROL_IF) sg a /\
    turbowasm_read_block_signature buf H ctx (v_reader s) = (inr sg, v_reader s') /\
    start_types f = bs_start sg /\ end_types f = bs_end sg /\
    (unreachable (v_stack s) = false -> takes vs (bs_start sg) f s' /\
       if opcode =? 0x04 then exists c, tvalues (v_stack s) = vs ++ [c] /\
         ((carrier c =? TW_ANY) || value_matches H c (turbowasm_validation_value_type_legacy TW_I32) = true)
       else tvalues (v_stack s) = vs).
Proof.
  unfold op_block. intros E. vm_inv.
  match goal with E : opcode_position _ _ = _ |- _ => destruct (opcode_position_inv _ _ _ E) as (-> & -> & Hop) end.
  match goal with E : lift _ _ = _ |- _ => apply lift_inv in E as (r & Er & ->) end.
  match goal with E : body_position _ _ = _ |- _ => apply body_position_inv in E as (-> & -> & Hbm) end.
  match goal with E : (if _ then turbowasm_stack_pop _ _ else _) _ = (inr _, ?s1) |- _ =>
    rename E into Ec; rename s1 into sc end.
  assert (Hsc : exists vs, sc = popped vs s /\ vs `prefix_of` tvalues (v_stack s) /\
    (unreachable (v_stack s) = false ->
     if opcode =? 0x04 then exists c, tvalues (v_stack s) = vs ++ [c] /\
       ((carrier c =? TW_ANY) || value_matches H c (turbowasm_validation_value_type_legacy TW_I32) = true)
     else tvalues (v_stack s) = vs)).
  { destruct (opcode =? 4).
    - unfold turbowasm_stack_pop, turbowasm_stack_pop_semantic in Ec. vm_inv.
      match goal with E : turbowasm_stack_pop_semantic_actual _ _ _ = _ |- _ =>
        destruct (pop_actual_inv _ _ _ _ _ E) as (vs & -> & Hpre & Hl) end.
      exists vs. split_and!; [done..|]. intros Hu. destruct (Hl Hu) as (Hv & _ & Hc). by eexists.
    - vm_inv. eexists. rewrite popped_self. done. }
  assert (Hpl : plain s sc).
  { refine (st_plain _ _ _ _ _ Ec). destruct (opcode =? 4); eauto with stays. }
  destruct Hsc as (vs & -> & Hpre & Hlive).
  match goal with E : append_annotation _ _ _ = _ |- _ => rename E into Ea end.
  edestruct (open_frame s (set_reader r (popped vs s))) as (f & Hf & Hk & Hst & Hen & Hrd & Htk);
    [|reflexivity| |exact Hpre| |exact Ea|exact E|exact (conj eq_refl Hop)|reflexivity|exact Hbm|reflexivity..|].
  - by repeat destruct (_ =? _).
  - by eapply (fw_moved _ (forward_signature _ _ _)).
  - intros Hfl. apply (pl_base _ _ Hpl Hfl).
  - eexists f, _, _, vs. split_and!; [exact Hf|exact Hk|done|by rewrite Hrd|exact Hst|exact Hen|].
    intros Hu. split; [by apply Htk|by apply Hlive].
Qed.

Lemma op_block_opens opcode s u s' :
  op_block buf realloc_ok malloc_ok H ctx code_start opcode s = (inr u, s') ->
  between 0x02 opcode 0x04 = true -> exists f a, bracket_of opcode = Opens (control_kind a) /\ opens code_start s s' f a.
Proof.
  intros (f & a & _ & _ & Ho & _ & (Hk & _) & _)%op_block_inv Hr. exists f, a. split; [|done]. rewrite Hk.
  unfold between, bracket_of in *. rewrite andb_true_iff, !Z.leb_le in Hr.
  destruct (Z.eqb_spec opcode 2); [done|]. destruct (Z.eqb_spec opcode 3); [done|].
  by rewrite (proj2 (Z.eqb_eq opcode 4)) by lia.
Qed.

(** The catch clauses lie between the signature and the body. *)
Lemma op_try_table_inv s u s' :
  op_try_table buf realloc_ok malloc_ok H ctx code_start s = (inr u, s') ->
  exists f a sg r, opens code_start s s' f a /\ ckind f = CTRL_TRY_TABLE /\
    annotated VALIDATION_CONTROL_TRY_TABLE sg a /\
    turbowasm_read_block_signature buf H ctx (v_reader s) = (inr sg, r) /\ moved r (v_reader s') /\
    start_types f = bs_start sg /\ end_types f = bs_end sg /\
    (unreachable (v_stack s) = false -> takes (tvalues (v_stack s)) (bs_start sg) f s').
Proof.
  unfold op_try_table. intros E. vm_inv.
  match goal with E : opcode_position _ _ = _ |- _ => destruct (opcode_position_inv _ _ _ E) as (-> & -> & Hop) end.
  match goal with E : lift _ _ = _ |- _ => apply lift_inv in E as (r & Er & ->) end.
  match goal with E : turbowasm_read_try_catches _ _ _ _ _ = _ |- _ =>
    apply reads_catches in E as (r' & Hr' & ->) end.
  match goal with E : body_position _ _ = _ |- _ => apply body_position_inv in E as (-> & -> & Hbm) end.
  match goal with E : append_annotation _ _ _ = _ |- _ => rename E into Ea end.
  edestruct (open_frame s (set_reader r' (popped (tvalues (v_stack s)) s))) as (f & Hf & Hk & Hst & Hen & Hrd & Htk);
    [|reflexivity| |reflexivity| |rewrite popped_self; exact Ea|exact E|exact (conj eq_refl Hop)|reflexivity|exact Hbm|reflexivity..|].
  - done.
  - eapply moved_trans; [by eapply (fw_moved _ (forward_signature _ _ _))|exact Hr'].
  - by rewrite popped_self.
  - eexists f, _, _, r. split_and!; [exact Hf|exact Hk|done|exact Er|by rewrite Hrd|exact Hst|exact Hen|exact Htk].
Qed.

Lemma op_try_table_opens s u s' :
  op_try_table buf realloc_ok malloc_ok H ctx code_start s = (inr u, s') ->
  exists f a, control_kind a = VALIDATION_CONTROL_TRY_TABLE /\ opens code_start s s' f a.
Proof. intros (f & a & _ & _ & Ho & _ & (Hk & _) & _)%op_try_table_inv. by exists f, a. Qed.

Lemma open_annotation_inv s i s' : open_annotation s = (inr i, s') ->
  s' = s /\ exists fs f, cframes (v_controls s) = fs ++ [f] /\ i = annotation_index f /\ i <> UINT32_MAX.
Proof.
  unfold open_annotation. intros E. vm_inv. split; [done|].
  match goal with G : turbowasm_control_top _ = _ |- _ => destruct (control_top_inv _ _ G) as (fs & Hfs & _) end.
  match goal with G : (_ =? _) = false |- _ => apply Z.eqb_neq in G end. by eexists _, _.
Qed.

Lemma close_annotation_inv i field write s u s' : close_annotation code_start i field write s = (inr u, s') ->
  exists a, controls_of (v_function s) !! Z.to_nat i = Some a /\ field a = UINT32_MAX /\
    s' = set_function (set_annotation i (write (offset s - 1) a) (v_function s)) s.
Proof.
  unfold close_annotation, turbowasm_validation_function_control_mut. intros E. vm_inv.
  match goal with G : (if _ then _ else _) = Some _ |- _ => destruct (i >=? _); [discriminate G|] end.
  match goal with G : _ || _ || _ = false |- _ => apply orb_false_iff in G as [[G _]%orb_false_iff _] end.
  apply negb_false_iff, Z.eqb_eq in G. by eexists.
Qed.

Lemma reset_frames h c c' fs : reset h c c' -> reset h c (set_frames fs c').
Proof. intros [Hj Hl]. split; [done|]. intros n Hn. by destruct (Hl n Hn). Qed.

Lemma op_else_turns s u s' : op_else realloc_ok H code_start s = (inr u, s') ->
  exists fs f a, turns code_start s s' fs f a.
Proof.
  unfold op_else. intros E. vm_inv.
  match goal with E : open_annotation _ = _ |- _ =>
    apply open_annotation_inv in E as (-> & fs & f & Hfs & -> & Hne) end.
  match goal with E : turbowasm_control_else _ _ _ = _ |- _ =>
    apply control_else_inv in E as (fs' & f' & vs & cap & Hfs' & Hk & He & Ep & Hpre & Hh & -> & Hroom) end.
  rewrite Hfs in Hfs'. apply app_inj_2 in Hfs' as [<- [= <-]]; [|done].
  apply close_annotation_inv in E as (a & Ha & Hun & ->). simpl in *.
  exists fs, f, a. constructor; simpl; try done; [by exists vs|].
  exact (reset_frames _ _ _ (fs ++ [with_else_seen f]) (reset_locals_ok (init_height f) (v_controls s))).
Qed.

Lemma op_end_shape t s b s' : op_end realloc_ok H t code_start s = (inr b, s') ->
  (b = true /\ csize (v_controls s) = 1 /\ turbowasm_reader_remaining (v_reader s) = 0 /\
   turbowasm_validate_result_stack H t s = (inr tt, s')) \/
  (b = false /\ exists fs f a, closes code_start s s' fs f a).
Proof.
  unfold op_end. intros E. vm_inv. destruct (Z.eqb_spec (csize (v_controls s)) 1) as [H1|H1]; vm_inv; [left|right].
  - match goal with E : turbowasm_validate_result_stack _ _ _ = (inr ?u, _) |- _ => destruct u end.
    apply negb_false_iff, Z.eqb_eq in G. done.
  - split; [done|].
    match goal with E : open_annotation _ = _ |- _ =>
      apply open_annotation_inv in E as (-> & fs & f & Hfs & -> & Hne) end.
    match goal with E : turbowasm_control_end _ _ _ = _ |- _ =>
      apply control_end_inv in E as (fs' & f' & vs & cap & Hfs' & Hk & Hel & Ep & Hpre & Hh & -> & Hroom) end.
    rewrite Hfs in Hfs'. apply app_inj_2 in Hfs' as [<- [= <-]]; [|done].
    match goal with E : close_annotation _ _ _ _ _ = _ |- _ => apply close_annotation_inv in E as (a & Ha & Hun & ->) end.
    simpl in *. exists fs, f, a. constructor; simpl; try done.
    + intros Hk' Hs'. by apply types_equal_faces, Hel.
    + by exists vs.
    + apply reset_frames, reset_locals_ok.
Qed.

(** In reachable code the operands above the frame match its end types. *)
Definition yields_ends (f : turbowasm_control_frame) (s : vstate) : Prop :=
  exists vs l, tvalues (v_stack s) = vs ++ l /\ cheight f = Z.of_nat (length vs) /\
    Forall2 (fun a t => (carrier a =? TW_ANY) || value_matches H a t = true) l (end_types f).

Lemma popped_ends f vs s : turbowasm_stack_pop_types H (end_types f) s = (inr tt, popped vs s) ->
  cheight f = Z.of_nat (length vs) -> unreachable (v_stack s) = false -> yields_ends f s.
Proof.
  intros Ep Hh Hu. destruct (pop_types_inv _ _ _ _ _ Ep) as (ws & Hws & _ & Hl).
  assert (ws = vs) as -> by (pose proof (f_equal (fun s => tvalues (v_stack s)) Hws) as Hx; done).
  destruct (Hl Hu) as (l & Hv & HF). by exists vs, l.
Qed.

Lemma op_else_operands s u s' fs f : op_else realloc_ok H code_start s = (inr u, s') ->
  cframes (v_controls s) = fs ++ [f] -> unreachable (v_stack s) = false -> yields_ends f s.
Proof.
  unfold op_else. intros E Hfs Hu. vm_inv.
  match goal with E : open_annotation _ = _ |- _ => apply open_annotation_inv in E as (-> & _) end.
  match goal with E : turbowasm_control_else _ _ _ = _ |- _ =>
    apply control_else_inv in E as (fs' & f' & vs & cap & Hfs' & _ & _ & Ep & _ & Hh & _) end.
  rewrite Hfs in Hfs'. apply app_inj_2 in Hfs' as [<- [= <-]]; [|done]. by eapply popped_ends.
Qed.

Lemma op_end_operands t s s' fs f : op_end realloc_ok H t code_start s = (inr false, s') ->
  cframes (v_controls s) = fs ++ [f] -> unreachable (v_stack s) = false -> yields_ends f s.
Proof.
  unfold op_end. intros E Hfs Hu. vm_inv. destruct (csize (v_controls s) =? 1); vm_inv; [discriminate|].
  match goal with E : open_annotation _ = _ |- _ => apply open_annotation_inv in E as (-> & _) end.
  match goal with E : turbowasm_control_end _ _ _ = _ |- _ =>
    apply control_end_inv in E as (fs' & f' & vs & cap & Hfs' & _ & _ & Ep & _ & Hh & _) end.
  rewrite Hfs in Hfs'. apply app_inj_2 in Hfs' as [<- [= <-]]; [|done]. by eapply popped_ends.
Qed.

(** Every instruction that does not end the body has one of the four shapes. *)
Lemma dispatch_shape t sem opcode s s' :
  dispatch buf realloc_ok malloc_ok H ctx t sem code_start opcode s = (inr false, s') -> shape code_start opcode s s'.
Proof.
  assert (Hneutral : opcode <> 5 -> opcode <> 0xb -> opcode <> 0x1f -> between 2 opcode 4 = false ->
    bracket_of opcode = Neutral).
  { unfold between, bracket_of. rewrite andb_false_iff, !Z.leb_gt. intros.
    by rewrite !(proj2 (Z.eqb_neq opcode _)) by lia. }
  assert (Hst : forall m b, bracket_of opcode = Neutral -> stays m -> no_end m s = (inr b, s') -> shape code_start opcode s s').
  { intros m b Hn Hm E. unfold no_end in E. vm_inv. apply shape_plain; [done|]. by eapply (st_plain _ Hm). }
  unfold dispatch. destruct (Z.eqb_spec opcode 0); [subst; apply Hst; [done|eauto with stays]|].
  destruct (Z.eqb_spec opcode 1); [intros E; vm_inv; subst; apply shape_plain; [done|apply plain_refl]|].
  destruct (between 2 opcode 4) eqn:Eb.
  { unfold no_end. intros E. vm_inv. destruct (op_block_opens _ _ _ _ E0 Eb) as (fr & an & Hk & Ho). by eapply shape_opens. }
  destruct (Z.eqb_spec opcode 5) as [->|].
  { unfold no_end. intros E. vm_inv. destruct (op_else_turns _ _ _ E0) as (frs & fr & an & Ho). by eapply shape_turns. }
  destruct (Z.eqb_spec opcode 8); [subst; apply Hst; [done|eauto with stays]|].
  destruct (Z.eqb_spec opcode 0xa); [subst; apply Hst; [done|eauto with stays]|].
  destruct (Z.eqb_spec opcode 0xb) as [->|].
  { intros E. destruct (op_end_shape _ _ _ _ E) as [[? _]|(_ & frs & fr & an & Ho)]; [done|by eapply shape_closes]. }
  destruct (Z.eqb_spec opcode 0x1f) as [->|].
  { unfold no_end. simpl. intros E. vm_inv. destruct (op_try_table_opens _ _ _ E0) as (fr & an & Hk & Ho).
    eapply shape_opens; [by rewrite Hk|done]. }
  specialize (Hneutral ltac:(done) ltac:(done) ltac:(done) eq_refl).
  repeat match goal with |- (if ?b then _ else _) s = _ -> _ => destruct b end;
    try (apply Hst; [done|]; solve [eauto with stays|stays_tac]).
  intros E. vm_inv.
Qed.

Lemma dispatch_final t sem opcode s s' :
  dispatch buf realloc_ok malloc_ok H ctx t sem code_start opcode s = (inr true, s') ->
  opcode = 0x0b /\ csize (v_controls s) = 1 /\ turbowasm_reader_remaining (v_reader s) = 0 /\
  turbowasm_validate_result_stack H t s = (inr tt, s').
Proof.
  assert (Hst : forall m, no_end m s = (inr true, s') -> False).
  { intros m E. unfold no_end in E. by vm_inv. }
  unfold dispatch. destruct (Z.eqb_spec opcode 0x0b) as [->|Hne].
  - intros E. destruct (op_end_shape _ _ _ _ E) as [(_ & ?)|[? _]]; [done|discriminate].
  - repeat match goal with |- (if ?b then _ else _) s = _ -> _ => destruct b end;
      try (intros E; by apply Hst in E); intros E; by vm_inv.
Qed.

(** *** Failures *)

Lemma vstrict_update f : vstrict (update f).
Proof. done. Qed.
Lemma vstrict_signature : vstrict (lift (turbowasm_read_block_signature buf H ctx)).
Proof. apply stays_vstrict, stays_lift, forward_signature. Qed.

Ltac vstrict_tac :=
  repeat match goal with
  | |- vstrict (lift (turbowasm_read_block_signature _ _ _)) => apply vstrict_signature
  | |- vstrict (update _) => apply vstrict_update
  | |- vstrict (mbind _ _) => apply vstrict_bind; [|intros ?]
  | |- vstrict (if ?b then _ else _) => destruct b
  | |- vstrict (match ?x with _ => _ end) => destruct x
  | |- vstrict _ => solve [apply stays_vstrict; eauto with stays]
  end.

Lemma control_push_strict kind starts ends i :
  vstrict (turbowasm_control_push realloc_ok malloc_ok H kind starts ends i).
Proof. unfold turbowasm_control_push. vstrict_tac. Qed.

Lemma append_annotation_strict a : vstrict (append_annotation realloc_ok a).
Proof. unfold append_annotation. vstrict_tac. Qed.

Lemma op_block_strict op : vstrict (op_block buf realloc_ok malloc_ok H ctx code_start op).
Proof.
  unfold op_block, opcode_position, body_position. vstrict_tac; [apply append_annotation_strict|apply control_push_strict].
Qed.

Lemma op_try_table_strict : vstrict (op_try_table buf realloc_ok malloc_ok H ctx code_start).
Proof.
  unfold op_try_table, opcode_position, body_position. vstrict_tac; [apply append_annotation_strict|apply control_push_strict].
Qed.

Lemma op_else_strict : vstrict (op_else realloc_ok H code_start).
Proof. unfold op_else, open_annotation, close_annotation, turbowasm_control_else. vstrict_tac. Qed.

Lemma op_end_strict t : vstrict (op_end realloc_ok H t code_start).
Proof. unfold op_end, open_annotation, close_annotation, turbowasm_control_end. vstrict_tac. Qed.

Lemma dispatch_strict t sem op : vstrict (dispatch buf realloc_ok malloc_ok H ctx t sem code_start op).
Proof.
  unfold dispatch, no_end.
  repeat match goal with |- vstrict (if ?b then _ else _) => destruct b end;
    try apply op_end_strict; try (apply vstrict_bind; [|intros ?]);
    first [apply op_block_strict | apply op_else_strict | apply op_try_table_strict | vstrict_tac].
Qed.

Lemma body_loop_strict t sem fuel : vstrict (body_loop buf realloc_ok malloc_ok H ctx t sem code_start fuel).
Proof.
  induction fuel as [|fuel IH]; cbn [body_loop]; vstrict_tac; [apply dispatch_strict|apply IH].
Qed.

End Opcodes.

End Frames.

End ValidatorFrames.
