(* ===== verification/ValidatorRun.v ===== *)
(** * Runs of the instruction validator

    The loop over a function body as a transition relation between validator
    states, the invariant of its states, and the run behind an accepted body. *)

From S2P Require Import Prelude Reader Types TypeEq TypeReader Context OpTables Validator ValidatorSteps ValidatorFrames.
From S2P Require ExecStack.

Module ValidatorRun.
Import Reader Types TypeEq TypeReader Context OpTables Validator ValidatorSteps ValidatorFrames.

(** ** Annotations

    Offsets into the code up to [cur]; UINT32_MAX is an offset not set yet. *)

Record ann_ok (cur : Z) (a : turbowasm_validation_control) : Prop := {
  ao_start : 0 <= opcode_offset a < body_offset a;
  ao_body : body_offset a <= cur;
  ao_end : end_offset a <> UINT32_MAX -> body_offset a <= end_offset a < cur;
  ao_else : else_offset a <> UINT32_MAX -> body_offset a <= else_offset a < cur /\
    (end_offset a <> UINT32_MAX -> else_offset a < end_offset a)
}.

(** The annotations of the frames [fs] that are open, innermost last, are the
    ones without an end; annotations are listed by opcode and bracket properly. *)
Record ainv (fs : list turbowasm_control_frame) (cs : list turbowasm_validation_control) (cur : Z) : Prop := {
  ai_open : forall k f, fs !! k = Some f -> 0 <= annotation_index f /\
    exists a, cs !! Z.to_nat (annotation_index f) = Some a /\ end_offset a = UINT32_MAX /\
      (else_seen f = false -> else_offset a = UINT32_MAX);
  ai_order : forall j k f g, (j < k)%nat -> fs !! j = Some f -> fs !! k = Some g ->
    annotation_index f < annotation_index g;
  ai_closed : forall i a, cs !! i = Some a -> end_offset a = UINT32_MAX ->
    exists k f, fs !! k = Some f /\ annotation_index f = Z.of_nat i;
  ai_ann : forall i a, cs !! i = Some a -> ann_ok cur a;
  ai_sorted : forall i j a b, (i < j)%nat -> cs !! i = Some a -> cs !! j = Some b ->
    opcode_offset a < opcode_offset b /\ body_offset a <= opcode_offset b;
  ai_nested : forall i j a b, (i < j)%nat -> cs !! i = Some a -> cs !! j = Some b ->
    end_offset a <> UINT32_MAX ->
    end_offset a < opcode_offset b \/ (end_offset b <> UINT32_MAX /\ end_offset b < end_offset a)
}.

Lemma ann_ok_mono cur cur' a : cur <= cur' -> ann_ok cur a -> ann_ok cur' a.
Proof. intros Hle [? ? He Hl]. constructor; [done|lia|intros ?; specialize (He ltac:(done)); lia|].
  intros Hn. destruct (Hl Hn) as [? ?]. split; [lia|done]. Qed.

Lemma ainv_mono fs cs cur cur' : cur <= cur' -> ainv fs cs cur -> ainv fs cs cur'.
Proof. intros Hle []. constructor; try done. intros i a Hi. by eapply ann_ok_mono, ai_ann0. Qed.

Lemma lookup_snoc_inv {A} (l : list A) x i y : (l ++ [x]) !! i = Some y ->
  l !! i = Some y \/ (i = length l /\ y = x).
Proof. rewrite lookup_snoc_Some. naive_solver. Qed.

Lemma ainv_open fs cs cur cur' f a :
  ainv fs cs cur -> 0 <= cur < cur' -> else_seen f = false ->
  annotation_index f = Z.of_nat (length cs) -> opcode_offset a = cur -> body_offset a = cur' ->
  else_offset a = UINT32_MAX -> end_offset a = UINT32_MAX ->
  ainv (fs ++ [f]) (cs ++ [a]) cur'.
Proof.
  intros Hi Hcur Hes Hix Hop Hbody Hel Hen. constructor.
  - intros k g [Hg|[-> ->]]%lookup_snoc_inv.
    + destruct (ai_open _ _ _ Hi k g Hg) as (H0 & b & Hb & Hrest). split; [done|]. exists b. split; [|done].
      by apply lookup_app_l_Some.
    + rewrite Hix. split; [lia|]. exists a. rewrite Nat2Z.id. by rewrite lookup_app_r, Nat.sub_diag by lia.
  - intros j k g h Hjk [Hg|[-> ->]]%lookup_snoc_inv [Hh|[-> ->]]%lookup_snoc_inv; [|..|lia].
    + by eapply (ai_order _ _ _ Hi).
    + destruct (ai_open _ _ _ Hi j g Hg) as (H0 & b & Hb & _). apply lookup_lt_Some in Hb. lia.
    + apply lookup_lt_Some in Hh. lia.
  - intros i b [Hb|[-> ->]]%lookup_snoc_inv Hun.
    + destruct (ai_closed _ _ _ Hi i b Hb Hun) as (k & g & Hg & Hk). exists k, g. split; [by apply lookup_app_l_Some|done].
    + exists (length fs), f. by rewrite lookup_app_r, Nat.sub_diag by lia.
  - intros i b [Hb|[-> ->]]%lookup_snoc_inv; [eapply ann_ok_mono, (ai_ann _ _ _ Hi _ _ Hb); lia|].
    constructor; [lia|lia|congruence|congruence].
  - intros i j b c Hij [Hb|[-> ->]]%lookup_snoc_inv [Hc|[-> ->]]%lookup_snoc_inv; [| | |lia].
    + by eapply (ai_sorted _ _ _ Hi).
    + destruct (ai_ann _ _ _ Hi _ _ Hb). lia.
    + apply lookup_lt_Some in Hc. lia.
  - intros i j b c Hij [Hb|[-> ->]]%lookup_snoc_inv [Hc|[-> ->]]%lookup_snoc_inv Hne; [| | |lia].
    + by eapply (ai_nested _ _ _ Hi).
    + left. destruct (ai_ann _ _ _ Hi _ _ Hb) as [_ _ He _]. specialize (He Hne). lia.
    + apply lookup_lt_Some in Hc. lia.
Qed.

Lemma ainv_insert_lookup (cs : list turbowasm_validation_control) i a' j b :
  <[i := a']> cs !! j = Some b -> (j = i /\ b = a') \/ (j <> i /\ cs !! j = Some b).
Proof. rewrite list_lookup_insert_Some. naive_solver. Qed.

Lemma ainv_else fs f cs cur cur' a :
  ainv (fs ++ [f]) cs cur -> cur < cur' <= UINT32_MAX -> cs !! Z.to_nat (annotation_index f) = Some a ->
  ainv (fs ++ [with_else_seen f]) (<[Z.to_nat (annotation_index f) := with_else_offset cur a]> cs) cur'.
Proof.
  intros Hi Hcur Ha. set (ix := Z.to_nat (annotation_index f)) in *.
  destruct (ai_open _ _ _ Hi (length fs) f) as (Hix0 & a0 & Ha0 & Hen & _);
    [by rewrite lookup_app_r, Nat.sub_diag by lia|]. fold ix in Ha0. assert (a0 = a) as -> by congruence.
  pose proof (ai_ann _ _ _ Hi _ _ Ha) as Hann. pose proof (lookup_lt_Some _ _ _ Ha) as Hlt.
  assert (Hidx : forall k g, (fs ++ [with_else_seen f]) !! k = Some g ->
    exists g', (fs ++ [f]) !! k = Some g' /\ annotation_index g = annotation_index g' /\
      (else_seen g = false -> else_seen g' = false /\ g = g' /\ k <> length fs)).
  { intros k g [Hg|[-> ->]]%lookup_snoc_inv.
    - exists g. split_and!; [by apply lookup_app_l_Some|done|]. intros ?. split_and!; [done..|].
      apply lookup_lt_Some in Hg. lia.
    - exists f. split_and!; [by rewrite lookup_app_r, Nat.sub_diag by lia|done|done]. }
  constructor.
  - intros k g (g' & Hg' & Hx & Hes)%Hidx. destruct (ai_open _ _ _ Hi k g' Hg') as (H0 & b & Hb & Hbe & Hbs).
    split; [lia|]. rewrite Hx. destruct (decide (Z.to_nat (annotation_index g') = ix)) as [e|Hne].
    + exists (with_else_offset cur a). rewrite e, list_lookup_insert_eq by done. split_and!; [done|done|].
      intros Hg. destruct (Hes Hg) as (_ & -> & Hk). destruct Hk.
      destruct (decide (k = length fs)) as [|Hkn]; [done|].
      assert (Hkl : (k < length fs)%nat).
      { apply lookup_lt_Some in Hg'. rewrite length_app in Hg'. simpl in Hg'. lia. }
      pose proof (ai_order _ _ _ Hi k (length fs) g' f Hkl Hg') as Ho.
      rewrite lookup_app_r, Nat.sub_diag in Ho by lia. specialize (Ho eq_refl). lia.
    + exists b. rewrite list_lookup_insert_ne by done. split_and!; [done..|]. intros Hg. by apply Hbs, Hes.
  - intros j k g h Hjk (g' & Hg' & Hx & _)%Hidx (h' & Hh' & Hy & _)%Hidx. rewrite Hx, Hy.
    by eapply (ai_order _ _ _ Hi).
  - intros i b Hb Hun.
    assert (exists b0, cs !! i = Some b0 /\ end_offset b0 = UINT32_MAX) as (b0 & Hb0 & Hun0).
    { apply ainv_insert_lookup in Hb as [[-> ->]|[_ Hb]]; eauto. }
    destruct (ai_closed _ _ _ Hi i b0 Hb0 Hun0) as (k & g & [Hg|[-> ->]]%lookup_snoc_inv & Hk).
    + exists k, g. split; [by apply lookup_app_l_Some|done].
    + exists (length fs), (with_else_seen f). by rewrite lookup_app_r, Nat.sub_diag by lia.
  - intros i b [[-> ->]|[_ Hb]]%ainv_insert_lookup; [|eapply ann_ok_mono, (ai_ann _ _ _ Hi _ _ Hb); lia].
    destruct Hann. constructor; simpl; [done|lia|congruence|]. intros _. split; [lia|congruence].
  - intros i j b c Hij Hb Hc.
    assert (Hsame : forall i b, <[ix := with_else_offset cur a]> cs !! i = Some b ->
      exists b0, cs !! i = Some b0 /\ opcode_offset b0 = opcode_offset b /\ body_offset b0 = body_offset b).
    { intros i' b' [[-> ->]|[_ Hb']]%ainv_insert_lookup; eauto. }
    destruct (Hsame _ _ Hb) as (b0 & Hb0 & <- & <-). destruct (Hsame _ _ Hc) as (c0 & Hc0 & <- & _).
    by eapply (ai_sorted _ _ _ Hi).
  - intros i j b c Hij Hb Hc.
    assert (Hsame : forall i b, <[ix := with_else_offset cur a]> cs !! i = Some b ->
      exists b0, cs !! i = Some b0 /\ opcode_offset b0 = opcode_offset b /\ end_offset b0 = end_offset b).
    { intros i' b' [[-> ->]|[_ Hb']]%ainv_insert_lookup; eauto. }
    destruct (Hsame _ _ Hb) as (b0 & Hb0 & _ & <-). destruct (Hsame _ _ Hc) as (c0 & Hc0 & <- & <-).
    by eapply (ai_nested _ _ _ Hi).
Qed.

Lemma ainv_close fs f cs cur cur' a :
  ainv (fs ++ [f]) cs cur -> cur < cur' <= UINT32_MAX -> cs !! Z.to_nat (annotation_index f) = Some a ->
  ainv fs (<[Z.to_nat (annotation_index f) := with_end_offset cur a]> cs) cur'.
Proof.
  intros Hi Hcur Ha. set (ix := Z.to_nat (annotation_index f)) in *.
  assert (Hflast : (fs ++ [f]) !! length fs = Some f) by (by rewrite lookup_app_r, Nat.sub_diag by lia).
  destruct (ai_open _ _ _ Hi _ _ Hflast) as (Hix0 & a0 & Ha0 & Hen & _). fold ix in Ha0.
  assert (a0 = a) as -> by congruence.
  pose proof (ai_ann _ _ _ Hi _ _ Ha) as Hann. pose proof (lookup_lt_Some _ _ _ Ha) as Hlt.
  assert (Hold : forall k g, fs !! k = Some g -> (fs ++ [f]) !! k = Some g /\ annotation_index g < annotation_index f).
  { intros k g Hg. assert (Hg' : (fs ++ [f]) !! k = Some g) by (by apply lookup_app_l_Some).
    split; [done|]. eapply (ai_order _ _ _ Hi k (length fs)); [by eapply lookup_lt_Some|done|done]. }
  constructor.
  - intros k g [Hg Hlt']%Hold. destruct (ai_open _ _ _ Hi k g Hg) as (H0 & b & Hb & Hbe). split; [done|].
    exists b. by rewrite list_lookup_insert_ne by lia.
  - intros j k g h Hjk [Hg _]%Hold [Hh _]%Hold. by eapply (ai_order _ _ _ Hi).
  - intros i b [[-> ->]|[Hne Hb]]%ainv_insert_lookup Hun; [simpl in Hun; unfold UINT32_MAX in *; lia|].
    destruct (ai_closed _ _ _ Hi i b Hb Hun) as (k & g & [Hg|[-> ->]]%lookup_snoc_inv & Hk); [by exists k, g|]. lia.
  - intros i b [[-> ->]|[_ Hb]]%ainv_insert_lookup; [|eapply ann_ok_mono, (ai_ann _ _ _ Hi _ _ Hb); lia].
    destruct Hann as [? ? ? Hel]. constructor; simpl; [done|lia|lia|]. intros Hn. destruct (Hel Hn). split; lia.
  - intros i j b c Hij Hb Hc.
    assert (Hsame : forall i b, <[ix := with_end_offset cur a]> cs !! i = Some b ->
      exists b0, cs !! i = Some b0 /\ opcode_offset b0 = opcode_offset b /\ body_offset b0 = body_offset b).
    { intros i' b' [[-> ->]|[_ Hb']]%ainv_insert_lookup; eauto. }
    destruct (Hsame _ _ Hb) as (b0 & Hb0 & <- & <-). destruct (Hsame _ _ Hc) as (c0 & Hc0 & <- & _).
    by eapply (ai_sorted _ _ _ Hi).
  - intros i j b c Hij [[-> ->]|[Hni Hb]]%ainv_insert_lookup [[-> ->]|[Hnj Hc]]%ainv_insert_lookup Hne; simpl in *.
    + lia.
    + right. assert (Hcl : end_offset c <> UINT32_MAX).
      { intros Hun. destruct (ai_closed _ _ _ Hi j c Hc Hun) as (k & g & [Hg|[-> ->]]%lookup_snoc_inv & Hk); [|lia].
        apply Hold in Hg as [_ Hg]. lia. }
      split; [done|]. destruct (ai_ann _ _ _ Hi _ _ Hc) as [_ _ He _]. specialize (He Hcl). lia.
    + destruct (ai_nested _ _ _ Hi i ix b a Hij Hb Ha Hne) as [?|[? _]]; [by left|done].
    + by eapply (ai_nested _ _ _ Hi).
Qed.

Section Run.
Context (buf : list Z) (realloc_ok malloc_ok : Z -> bool).
Context (H : type_heap) (ctx : turbowasm_validation_context).
Context (function_type : turbowasm_validation_func_type)
        (semantics : list turbowasm_validation_value_type) (code_start : option Z).

Abbreviation offset := (code_offset code_start).
Abbreviation left s := (turbowasm_reader_remaining (v_reader s)).
Abbreviation step := (dispatch buf realloc_ok malloc_ok H ctx function_type semantics code_start).
Abbreviation loop := (body_loop buf realloc_ok malloc_ok H ctx function_type semantics code_start).

(** One instruction that does not end the body, and the one that does. *)
Definition vstep (s s' : vstate) : Prop :=
  exists opcode s1, byte buf s = (inr opcode, s1) /\ step opcode s1 = (inr false, s').
Definition vfinal (s s' : vstate) : Prop :=
  exists opcode s1, byte buf s = (inr opcode, s1) /\ step opcode s1 = (inr true, s').

Lemma byte_inv s b s1 : byte buf s = (inr b, s1) ->
  s1 = set_reader (advance (v_reader s) 1) s /\ 1 <= left s.
Proof.
  unfold byte. intros (r & Er & ->)%lift_inv. unfold decode in Er.
  destruct (turbowasm_reader_u8 buf (v_reader s)) as [[v|] r1] eqn:E; [|done]. injection Er as _ <-.
  apply u8_moved in E as [-> ?]. done.
Qed.

Lemma shape_moved op s s' : shape code_start op s s' -> moved (v_reader s) (v_reader s').
Proof.
  destruct 1 as [_ Hp|f a _ Ho|fs f a _ Ht|fs f a _ Hc]; [apply Hp|apply Ho|rewrite (tu_reader _ _ _ _ _ _ Ht)|
    rewrite (cl_reader _ _ _ _ _ _ Hc)]; apply moved_refl.
Qed.

(** Every step consumes input. *)
Lemma vstep_consumes s s' : vstep s s' -> left s' < left s.
Proof.
  intros (op & s1 & [-> Hl]%byte_inv & E). apply dispatch_shape, shape_moved in E as (n & Hn & Hr).
  rewrite Hr. simpl in *. rewrite !remaining_advance in * by (rewrite ?remaining_advance in * by lia; lia). lia.
Qed.

(** The loop returns exactly at the end of an accepted run. *)
Lemma loop_runs fuel : forall s u s', loop fuel s = (inr u, s') -> exists s1, rtc vstep s s1 /\ vfinal s1 s'.
Proof.
  induction fuel as [|fuel IH]; intros s u s' E; cbn [body_loop] in E; vm_inv;
    destruct (_ =? 0); vm_inv.
  destruct a0; vm_inv.
  - exists s. split; [apply rtc_refl|]. by eexists _, _.
  - destruct (IH _ _ _ E) as (s3 & Hrun & Hfin). exists s3. split; [|done]. eapply rtc_l; [|done]. by eexists _, _.
Qed.

Lemma loop_0 s : loop 0 s = (inl TURBOWASM_MALFORMED_MODULE, s).
Proof. cbn [body_loop]. unfold mbind, vm_bind, get. by destruct (_ =? 0). Qed.

Lemma loop_S n s : loop (S n) s =
  if left s =? 0 then (inl TURBOWASM_MALFORMED_MODULE, s)
  else match byte buf s with
       | (inl st, s1) => (inl st, s1)
       | (inr opcode, s1) =>
           match step opcode s1 with
           | (inl st, s2) => (inl st, s2)
           | (inr true, s2) => (inr tt, s2)
           | (inr false, s2) => loop n s2
           end
       end.
Proof.
  cbn [body_loop]. unfold mbind, vm_bind, get. destruct (_ =? 0); [done|].
  destruct (byte buf s) as [[st|op] s1]; [done|]. by destruct (step op s1) as [[st|[]] s2].
Qed.

(** Once there is a round per byte, more rounds change nothing. *)
Lemma loop_fuel n : forall m s, left s <= Z.of_nat n -> left s <= Z.of_nat m -> loop n s = loop m s.
Proof.
  induction n as [|n IH]; intros m s Hn Hm; pose proof (remaining_nonneg (v_reader s)).
  - rewrite loop_0. destruct m as [|m]; [by rewrite loop_0|]. rewrite loop_S.
    by rewrite (proj2 (Z.eqb_eq (left s) 0)) by lia.
  - rewrite loop_S. destruct (Z.eqb_spec (left s) 0) as [He|Hne].
    + destruct m as [|m]; [by rewrite loop_0|]. rewrite loop_S. by rewrite (proj2 (Z.eqb_eq (left s) 0)) by lia.
    + destruct m as [|m]; [lia|]. rewrite loop_S, (proj2 (Z.eqb_neq (left s) 0)) by lia.
      destruct (byte buf s) as [[st|op] s1] eqn:Eb; [done|].
      destruct (step op s1) as [[st|[]] s2] eqn:Es; try done.
      assert (Hst : vstep s s2) by (by eexists _, _). apply vstep_consumes in Hst. apply IH; lia.
Qed.

(** ** The invariant of validator states

    [total] is the size of the code, [n] the number of locals. *)
Record vinv (total : Z) (n : nat) (s : vstate) : Prop := {
  vi_size : 0 <= offset s /\ offset s + left s = total /\ total <= UINT32_MAX;
  vi_bottom : exists f0 fs, cframes (v_controls s) = f0 :: fs /\ ckind f0 = CTRL_FUNCTION /\ cheight f0 = 0 /\
    end_types f0 = result_semantics function_type /\ Forall (fun f => ckind f <> CTRL_FUNCTION) fs /\
    ainv fs (controls_of (v_function s)) (offset s);
  vi_top : exists fs f, cframes (v_controls s) = fs ++ [f] /\ floor (v_stack s) = cheight f;
  vi_floor : floor_ok (v_stack s);
  vi_room : room_ok (v_stack s);
  vi_croom : croom_ok (v_controls s);
  vi_locals : locals_ok n (v_controls s);
  vi_nest : forall k f g, cframes (v_controls s) !! k = Some f -> cframes (v_controls s) !! S k = Some g ->
    parent_floor g = cheight f /\ cheight f <= cheight g /\ init_height f <= init_height g;
  vi_init : Forall (fun f => 0 <= init_height f <= init_count (v_controls s)) (cframes (v_controls s))
}.

(** Moving the reader. *)
Lemma offset_moved s s' : moved (v_reader s) (v_reader s') -> exists d, 0 <= d /\
  offset s' = offset s + d /\ left s' = left s - d.
Proof.
  intros (d & Hd & Hr). rewrite Hr, remaining_advance by done. exists d. split_and!; [lia| |done].
  unfold code_offset. rewrite Hr. unfold advance, turbowasm_reader_remaining in *.
  destruct (cursor (v_reader s)) as [c|]; simpl in *; [lia|]. lia.
Qed.

Lemma plain_vinv total n s s' : plain s s' -> vinv total n s -> vinv total n s'.
Proof.
  intros Hp [Hsz Hb Ht Hf Hr Hcr0 Hl Hn Hi].
  destruct (offset_moved _ _ (pl_reader _ _ Hp)) as (d & Hd & Ho & Hle).
  destruct (pl_base _ _ Hp Hf) as [Hf' Hbase].
  constructor; rewrite ?(pl_frames _ _ Hp), ?(pl_function _ _ Hp), ?(pl_floor _ _ Hp); try done.
  - lia.
  - destruct Hb as (f0 & fs & ? & ? & ? & ? & ? & Ha). exists f0, fs. split_and!; try done. eapply ainv_mono, Ha. lia.
  - by apply (pl_room _ _ Hp).
  - unfold croom_ok, csize in *. by rewrite (pl_frames _ _ Hp), (pl_ccap _ _ Hp).
  - by apply (pl_locals _ _ Hp).
  - eapply Forall_impl; [exact Hi|]. intros f Hf0. simpl in *. pose proof (prefix_length _ _ (pl_journal _ _ Hp)).
    unfold init_count in *. lia.
Qed.

(** Two views of a non-empty list of frames. *)
Lemma frames_views {A} (l : list A) f0 fs gs g : l = f0 :: fs -> l = gs ++ [g] ->
  (gs = [] /\ fs = [] /\ g = f0) \/ (exists hs, gs = f0 :: hs /\ fs = hs ++ [g]).
Proof.
  intros -> E. destruct gs as [|h hs]; simpl in E; [left|right].
  - by simplify_eq.
  - injection E as <- ->. by exists hs.
Qed.

Lemma nest_snoc (fs : list turbowasm_control_frame) f (P : turbowasm_control_frame -> turbowasm_control_frame -> Prop) :
  (forall k g h, fs !! k = Some g -> fs !! S k = Some h -> P g h) ->
  (forall g, last fs = Some g -> P g f) ->
  forall k g h, (fs ++ [f]) !! k = Some g -> (fs ++ [f]) !! S k = Some h -> P g h.
Proof.
  intros Hfs Hlast k g h [Hg|[-> ->]]%lookup_snoc_inv [Hh|[Hk ->]]%lookup_snoc_inv.
  - by eapply Hfs.
  - apply Hlast. rewrite last_lookup. destruct fs; simpl in *; [done|]. by injection Hk as <-.
  - apply lookup_lt_Some in Hh. lia.
  - lia.
Qed.

(** Monotone quantities along the frames. *)
Lemma sorted_along (q : turbowasm_control_frame -> Z) (fs : list turbowasm_control_frame) :
  (forall k g h, fs !! k = Some g -> fs !! S k = Some h -> q g <= q h) ->
  forall i j g h, (i <= j)%nat -> fs !! i = Some g -> fs !! j = Some h -> q g <= q h.
Proof.
  intros Hn i j g h Hij. revert h. induction Hij as [|j Hij IH]; intros h Hg Hh; [simplify_eq; lia|].
  destruct (lookup_lt_is_Some_2 fs j) as [m Hm]; [apply lookup_lt_Some in Hh; lia|].
  specialize (IH m Hg Hm). specialize (Hn j m h Hm Hh). lia.
Qed.

Lemma heights_nonneg (fs : list turbowasm_control_frame) f0 gs :
  (forall k g h, fs !! k = Some g -> fs !! S k = Some h -> cheight g <= cheight h) ->
  fs = f0 :: gs -> cheight f0 = 0 -> forall g, g ∈ fs -> 0 <= cheight g.
Proof.
  intros Hn -> H0 g [k Hk]%list_elem_of_lookup_1. rewrite <- H0.
  by apply (sorted_along cheight _ Hn 0 k); [lia|..].
Qed.

Lemma prefix_take_length {A} (vs l : list A) m : vs `prefix_of` l -> (m <= length vs)%nat -> take m vs = take m l.
Proof. intros [k ->] Hm. by rewrite take_app_le. Qed.

(** The state after the opcode byte. *)
Lemma opcode_read s0 : 1 <= left s0 ->
  offset (set_reader (advance (v_reader s0) 1) s0) = offset s0 + 1 /\
  left (set_reader (advance (v_reader s0) 1) s0) = left s0 - 1.
Proof.
  intros Hl. simpl. rewrite remaining_advance by lia. split; [|done]. unfold code_offset. simpl.
  destruct (cursor (v_reader s0)) eqn:Hc; simpl; [lia|]. unfold turbowasm_reader_remaining in Hl. rewrite Hc in Hl. lia.
Qed.

Lemma opens_vinv total n s s0 s' f a : s = set_reader (advance (v_reader s0) 1) s0 -> 1 <= left s0 ->
  opens code_start s s' f a -> vinv total n s0 -> vinv total n s'.
Proof.
  intros -> Hl1 Ho [Hsz Hb Ht Hf Hr Hcr0 Hl Hn Hi].
  destruct (offset_moved _ _ (op_reader _ _ _ _ _ Ho)) as (d & Hd & Hoff & Hleft).
  destruct (opcode_read s0 Hl1) as [Ho1 Hl2]. rewrite Ho1 in Hoff. rewrite Hl2 in Hleft.
  destruct Ho as [_ Hfr Hk Hes Hpf Hpd (vs & Hv & Hh & Hpre) Hab Hfl Hlive [Hj Hih] Hli Hroom Hcr Hhd (Hc & Hx & Hxn) (Hop & Hop1 & Hop2) (Hbo & Hbo2) (Hel & Hen)].
  simpl in *. destruct Ht as (fs & g & Hfs & Hg).
  constructor.
  - lia.
  - destruct Hb as (f0 & gs & Hgs & Hk0 & Hh0 & He0 & Hall & Ha). exists f0, (gs ++ [f]).
    rewrite Hfr, Hgs. split_and!; try done; [by apply Forall_app; split; [|constructor]|].
    rewrite Hc. eapply ainv_open; [exact Ha|lia|done|done|lia|lia|done|done].
  - exists (cframes (v_controls s0)), f. by rewrite Hfr.
  - unfold floor_ok, tsize. rewrite Hfl, Hv, Hh, length_app. lia.
  - by apply Hroom.
  - by apply Hcr.
  - destruct Hl as [H1 H2 H3]. constructor; rewrite ?Hj, ?Hli; done.
  - rewrite Hfr. apply (nest_snoc _ _ (fun f g => parent_floor g = cheight f /\ cheight f <= cheight g /\ init_height f <= init_height g)); [exact Hn|].
    intros g'. rewrite Hfs, last_snoc. intros [= <-]. split_and!; [congruence|specialize (Hab Hf); lia|].
    rewrite Hih. rewrite Forall_forall in Hi. apply Hi. rewrite Hfs. apply elem_of_app. right. by apply list_elem_of_singleton.
  - rewrite Hfr. apply Forall_app. split; [|constructor; [|constructor]].
    + eapply Forall_impl; [exact Hi|]. intros h. unfold init_count in *. simpl. by rewrite Hj.
    + rewrite Hih. unfold init_count. rewrite Hj. lia.
Qed.

Lemma turns_vinv total n s s0 s' gs f a : s = set_reader (advance (v_reader s0) 1) s0 -> 1 <= left s0 ->
  turns code_start s s' gs f a -> vinv total n s0 -> vinv total n s'.
Proof.
  intros -> Hl1 Ho [Hsz Hb Ht Hf Hr Hcr0 Hl Hn Hi]. destruct (opcode_read s0 Hl1) as [Ho1 Hl2].
  destruct Ho as [Hrd Hbef Haft Hk Hes (vs & Hv & Hh & Hpre) Hfl Hlive [Hj Hlo] Hroom Hcap [Hxn Hx] Hun Hfun].
  simpl in *.
  assert (Hof : offset s' = offset s0 + 1) by (unfold code_offset in *; rewrite Hrd; exact Ho1).
  constructor.
  - rewrite Hof, Hrd. lia.
  - destruct Hb as (f0 & fs & Hgs & Hk0 & Hh0 & He0 & Hall & Ha).
    destruct (frames_views _ _ _ _ _ Hgs Hbef) as [(_ & _ & ->)|(hs & -> & ->)]; [congruence|].
    exists f0, (hs ++ [with_else_seen f]). apply Forall_app in Hall as [Hall Hall2].
    rewrite Haft, Hfun. simpl. split_and!; try done.
    + apply Forall_app. split; [done|]. apply Forall_singleton. simpl. by rewrite Hk.
    + replace (offset (set_reader _ s0) - 1) with (offset s0) by lia. eapply ainv_else; [exact Ha|lia|done].
  - exists gs, (with_else_seen f). by rewrite Haft.
  - unfold floor_ok, tsize. rewrite Hfl, Hv, Hh, length_app. lia.
  - by apply Hroom.
  - revert Hcr0. unfold croom_ok, csize. rewrite Haft, Hbef, Hcap, ?length_app. simpl. lia.
  - by apply Hlo.
  - assert (Hsame : forall k g, (gs ++ [with_else_seen f]) !! k = Some g -> exists g', (gs ++ [f]) !! k = Some g' /\
      parent_floor g = parent_floor g' /\ cheight g = cheight g' /\ init_height g = init_height g').
    { intros k g [Hg|[-> ->]]%lookup_snoc_inv; [exists g; split; [by apply lookup_app_l_Some|done]|].
      exists f. by rewrite lookup_app_r, Nat.sub_diag by lia. }
    intros k g h. rewrite Haft. intros (g' & Hg' & _ & Hgh & Hgi)%Hsame (h' & Hh' & Hhp & Hhh & Hhi)%Hsame.
    rewrite Hhp, Hgh, Hhh, Hgi, Hhi. rewrite <- Hbef in Hg', Hh'. by eapply Hn.
  - rewrite Haft. rewrite Hbef in Hi, Hn. apply Forall_app in Hi as [Hi Hif]. rewrite Forall_singleton in Hif.
    unfold init_count in *. rewrite Hj, length_take.
    apply Forall_app. split; [|apply Forall_singleton; simpl; lia].
    rewrite Forall_lookup in Hi |- *. intros k g Hg. specialize (Hi k g Hg). simpl in Hi.
    assert (init_height g <= init_height f); [|lia].
    refine (sorted_along init_height (gs ++ [f]) _ k (length gs) g f _ _ _); [exact (fun k g h A B => proj2 (proj2 (Hn k g h A B)))| |
      by apply lookup_app_l_Some|by rewrite lookup_app_r, Nat.sub_diag by lia].
    apply lookup_lt_Some in Hg. lia.
Qed.

Lemma closes_vinv total n s s0 s' gs f a : s = set_reader (advance (v_reader s0) 1) s0 -> 1 <= left s0 ->
  closes code_start s s' gs f a -> vinv total n s0 -> vinv total n s'.
Proof.
  intros -> Hl1 Ho [Hsz Hb Ht Hf Hr Hcr0 Hl Hn Hi]. destruct (opcode_read s0 Hl1) as [Ho1 Hl2].
  destruct Ho as [Hrd Hbef Haft Hk Hes (vs & Hv & Hh & Hpre) Hfl Hlive [Hj Hlo] Hroom Hcap [Hxn Hx] Hun Hfun].
  simpl in *.
  assert (Hof : offset s' = offset s0 + 1) by (unfold code_offset in *; rewrite Hrd; exact Ho1).
  destruct Hb as (f0 & fs & Hgs & Hk0 & Hh0 & He0 & Hall & Ha).
  destruct (frames_views _ _ _ _ _ Hgs Hbef) as [(_ & _ & ->)|(hs & -> & ->)]; [congruence|].
  apply Forall_app in Hall as [Hall _].
  assert (Hp : exists g ks, f0 :: hs = ks ++ [g] /\ parent_floor f = cheight g /\ cheight g <= cheight f).
  { destruct (exists_last (l := f0 :: hs)) as (ks & g & Hks); [done|]. exists g, ks. split; [done|].
    destruct (Hn (length ks) g f) as (? & ? & ?); [| |done]; rewrite Hbef, Hks.
    - rewrite <- app_assoc. by rewrite lookup_app_r, Nat.sub_diag by lia.
    - rewrite lookup_app_r, length_app by (rewrite length_app; simpl; lia). simpl.
      by replace (S (length ks) - (length ks + 1))%nat with 0%nat by lia. }
  destruct Hp as (g & ks & Hks & Hpg & Hpl).
  rewrite Hbef in Hi, Hn. apply Forall_app in Hi as [Hi Hif]. rewrite Forall_singleton in Hif.
  constructor.
  - rewrite Hof, Hrd. lia.
  - exists f0, hs. rewrite Haft, Hfun. simpl. split_and!; try done.
    replace (offset (set_reader _ s0) - 1) with (offset s0) by lia. eapply ainv_close; [exact Ha|lia|done].
  - exists ks, g. rewrite Haft, Hks. split; [done|]. congruence.
  - unfold floor_ok, tsize. rewrite Hfl, Hv, length_app. split; [|lia]. rewrite Hpg.
    eapply (heights_nonneg (f0 :: hs ++ [f])); [exact (fun k g h A B => proj1 (proj2 (Hn k g h A B)))|reflexivity|done|].
    apply elem_of_cons. rewrite elem_of_app. assert (g ∈ f0 :: hs) as [->|Hin]%elem_of_cons; [|by left|by right; left].
    rewrite Hks. apply elem_of_app. right. by apply list_elem_of_singleton.
  - by apply Hroom.
  - revert Hcr0. unfold croom_ok, csize. rewrite Haft, Hbef, Hcap, ?length_app. simpl. lia.
  - by apply Hlo.
  - rewrite Haft. intros k g1 g2 Hg1 Hg2. eapply (Hn k); by apply lookup_app_l_Some.
  - rewrite Haft. unfold init_count in *. rewrite Hj, length_take.
    rewrite Forall_lookup in Hi |- *. intros k h Hg. specialize (Hi k h Hg). simpl in Hi.
    assert (init_height h <= init_height f); [|lia].
    refine (sorted_along init_height ((f0 :: hs) ++ [f]) _ k (length (f0 :: hs)) h f _ _ _); [exact (fun k g h A B => proj2 (proj2 (Hn k g h A B)))| |
      by apply lookup_app_l_Some|by rewrite lookup_app_r, Nat.sub_diag by lia].
    apply lookup_lt_Some in Hg. lia.
Qed.

Lemma vstep_vinv total n s s' : vstep s s' -> vinv total n s -> vinv total n s'.
Proof.
  intros (op & s1 & [-> Hl]%byte_inv & E) Hv. apply dispatch_shape in E as [_ Hp|f a _ Ho|fs f a _ Ho|fs f a _ Ho].
  - eapply plain_vinv; [|exact Hv]. eapply plain_trans; [|exact Hp]. constructor; try done. exists 1. by split; [lia|].
  - by eapply opens_vinv.
  - by eapply turns_vinv.
  - by eapply closes_vinv.
Qed.

Lemma run_vinv total n s s' : rtc vstep s s' -> vinv total n s -> vinv total n s'.
Proof. induction 1; [done|]. intros Hv. by eapply IHrtc, vstep_vinv. Qed.

(** ** The first state *)

Lemma initial_vinv r f u s :
  controls_of f = [] -> cursor r = code_start -> turbowasm_reader_remaining r <= UINT32_MAX ->
  turbowasm_control_push realloc_ok malloc_ok H CTRL_FUNCTION [] (result_semantics function_type) UINT32_MAX
    (initial_state ctx r f function_type semantics) = (inr u, s) ->
  vinv (turbowasm_reader_remaining r) (length semantics) s /\ v_reader s = r /\
  unreachable (v_stack s) = false /\ tvalues (v_stack s) = [] /\ v_function s = f.
Proof.
  intros Hc Hr Hsz E. apply control_push_inv in E as (vs & cap & ccap & _ & Hpre & -> & Hroom & Hcroom).
  apply prefix_nil_inv in Hpre as ->. split; [|done].
  assert (Hoff : forall s, v_reader s = r -> offset s = 0).
  { intros s Hs. unfold code_offset. rewrite Hs, Hr. lia. }
  constructor; simpl in *.
  - rewrite Hoff by done. pose proof (remaining_nonneg r). lia.
  - eexists _, []. split_and!; try done. rewrite Hc. constructor; intros; done.
  - eexists [], _. split; done.
  - done.
  - apply Hroom. split; unfold tsize, UINT32_MAX; simpl; lia.
  - apply Hcroom. split; unfold csize, UINT32_MAX; simpl; lia.
  - constructor; simpl; [by rewrite length_imap|constructor|constructor].
  - intros [|k] g h; simpl; done.
  - apply Forall_singleton. unfold init_count. simpl. lia.
Qed.

(** What the last [end] finds: only the function's frame, whose results are
    exactly the operands. *)
Lemma vfinal_inv total n s s' : vinv total n s -> vfinal s s' ->
  exists s1, byte buf s = (inr 0x0b, s1) /\ s1 = set_reader (advance (v_reader s) 1) s /\ left s = 1 /\
    ainv [] (controls_of (v_function s)) (offset s) /\ v_function s' = v_function s /\
    turbowasm_validate_result_stack H function_type s1 = (inr tt, s') /\
    exists f0, cframes (v_controls s) = [f0].
Proof.
  intros Hv (op & s1 & Eb & E). destruct (byte_inv _ _ _ Eb) as [-> Hl]. apply dispatch_final in E as (-> & Hcs & Hrem & Er).
  eexists. split_and!; [exact Eb|done| | | |exact Er|].
  - simpl in Hrem. rewrite remaining_advance in Hrem by lia. lia.
  - destruct (vi_bottom _ _ _ Hv) as (f0 & fs & Hfs & _ & _ & _ & _ & Ha). unfold csize in Hcs. simpl in Hcs.
    rewrite Hfs in Hcs. destruct fs; [done|simpl in Hcs; lia].
  - apply (st_plain _ (stays_result_stack _ _)) in Er. by rewrite (pl_function _ _ Er).
  - destruct (vi_bottom _ _ _ Hv) as (f0 & fs & Hfs & _). unfold csize in Hcs. simpl in Hcs. rewrite Hfs in Hcs.
    destruct fs; [by exists f0|simpl in Hcs; lia].
Qed.

(** No step touches the rest of the function's metadata. *)
Lemma vstep_header s s' : vstep s s' -> header (v_function s') = header (v_function s).
Proof.
  intros (op & s1 & [-> Hl]%byte_inv & E). apply dispatch_shape in E as [_ Hp|f a _ Ho|fs f a _ Ho|fs f a _ Ho].
  - by rewrite (pl_function _ _ Hp).
  - by rewrite (op_header _ _ _ _ _ Ho).
  - by rewrite (tu_function _ _ _ _ _ _ Ho).
  - by rewrite (cl_function _ _ _ _ _ _ Ho).
Qed.

Lemma run_header s s' : rtc vstep s s' -> header (v_function s') = header (v_function s).
Proof. induction 1 as [|s1 s2 s3 Hs _ IH]; [done|]. rewrite IH. by apply vstep_header. Qed.

End Run.

(** ** Accepted bodies *)

Section Bodies.
Context (buf : list Z) (realloc_ok malloc_ok : Z -> bool).
Context (H : type_heap) (ctx : turbowasm_validation_context).

(** The run behind an accepted body. *)
Record accepted_run (body : turbowasm_reader) (function_index : Z) (F : turbowasm_validation_function)
    (t : turbowasm_validation_func_type) (f : turbowasm_validation_function)
    (locals : list Z) (sem : list turbowasm_validation_value_type) (r : turbowasm_reader)
    (s0 s1 s2 : vstate) : Prop := {
  ar_type : turbowasm_validation_context_function_type H ctx function_index = Some t;
  ar_function : turbowasm_validation_context_function ctx function_index = Some f;
  ar_locals : turbowasm_read_locals buf malloc_ok H ctx t body = (inr (locals, sem), r);
  ar_size : turbowasm_reader_remaining r <= UINT32_MAX;
  ar_start : turbowasm_control_push realloc_ok malloc_ok H CTRL_FUNCTION [] (result_semantics t) UINT32_MAX
               (initial_state ctx r f t sem) = (inr tt, s0);
  ar_run : rtc (vstep buf realloc_ok malloc_ok H ctx t sem (cursor r)) s0 s1;
  ar_final : vfinal buf realloc_ok malloc_ok H ctx t sem (cursor r) s1 s2;
  ar_result : F = mk_function (function_type_index f) (function_imported f) locals sem (cursor r)
                    (turbowasm_reader_remaining r) (controls_of (v_function s2)) (control_capacity (v_function s2))
}.

Lemma validate_body_run body function_index F store rd :
  validate_body buf realloc_ok malloc_ok H ctx body function_index = (TURBOWASM_OK, F, store, rd) ->
  exists t f locals sem r s0 s1 s2, accepted_run body function_index F t f locals sem r s0 s1 s2.
Proof.
  unfold validate_body.
  destruct (turbowasm_validation_context_function_type H ctx function_index) as [t|] eqn:Et; [|done].
  destruct (turbowasm_validation_context_function ctx function_index) as [f|] eqn:Ef; [|done].
  destruct (negb (defined t) || function_imported f); [done|].
  destruct (turbowasm_read_locals buf malloc_ok H ctx t body) as [[st|[locals sem]] r] eqn:El.
  { intros [= -> _ _ _]. exfalso. by apply (fw_strict _ (forward_locals _ _ _ _ _)) in El. }
  destruct (_ && _); [done|]. destruct (Z.gtb_spec (turbowasm_reader_remaining r) UINT32_MAX); [done|].
  match goal with |- context [?m (initial_state ctx r f t sem)] =>
    destruct (m (initial_state ctx r f t sem)) as [[st|u] s2] eqn:Er end.
  { intros [= -> _ _ _]. exfalso. revert Er. unfold mbind, vm_bind.
    destruct (turbowasm_control_push _ _ _ _ _ _ _ _) as [[st|u] s0] eqn:E0; intros Er.
    - injection Er as -> _. by apply control_push_strict in E0.
    - by apply body_loop_strict in Er. }
  apply bind_inv in Er as ([] & s0 & E0 & Erun). pose proof Erun as Erun'. apply loop_runs in Erun as (s1 & Hrun & Hfin).
  destruct (local_types (v_function s2)), (local_semantics (v_function s2)), (code (v_function s2)); try done.
  intros [= <- _ _]. exists t, f, locals, sem, r, s0, s1, s2. constructor; try done.
  assert (Hh : header (v_function s2) = header f).
  { destruct Hfin as (op & sb & [-> _]%byte_inv & E). apply dispatch_final in E as (_ & _ & _ & E).
    apply (st_plain _ (stays_result_stack _ _)) in E. rewrite (pl_function _ _ E). simpl.
    rewrite (run_header _ _ _ _ _ _ _ _ _ _ Hrun).
    apply control_push_inv in E0 as (vs & cap & ccap & _ & _ & -> & _). done. }
  injection Hh as Hti Him _ _ _ _. by rewrite Hti, Him.
Qed.

End Bodies.

(** ** Properties *)

Lemma frame_heights t start total n s : vinv t start total n s -> forall g, g ∈ cframes (v_controls s) ->
  0 <= cheight g <= floor (v_stack s).
Proof.
  intros Hv g Hg. destruct (vi_bottom _ _ _ _ _ Hv) as (f0 & fs & Hfs & _ & Hh0 & _).
  pose proof (vi_nest _ _ _ _ _ Hv) as Hn. split.
  - eapply (heights_nonneg (cframes (v_controls s))); [|done..]. intros k a b Ha Hb. by destruct (Hn k a b Ha Hb) as (_ & ? & _).
  - destruct (vi_top _ _ _ _ _ Hv) as (gs & h & Hgs & ->). apply list_elem_of_lookup_1 in Hg as [i Hi].
    eapply (sorted_along cheight (cframes (v_controls s))); [| |exact Hi|].
    + intros k a b Ha Hb. by destruct (Hn k a b Ha Hb) as (_ & ? & _).
    + rewrite Hgs in Hi. apply lookup_lt_Some in Hi. rewrite length_app in Hi. simpl in Hi.
      instantiate (1 := length gs). lia.
    + rewrite Hgs. by rewrite lookup_app_r, Nat.sub_diag by lia.
Qed.

(** Distinct locals of the function are at most as many as its locals. *)
Lemma journal_bound n c : locals_ok n c -> init_count c <= Z.of_nat n.
Proof.
  intros [Hlen Hnd Hmk]. unfold init_count. apply inj_le.
  replace n with (length (seqZ 0 (Z.of_nat n))) by (rewrite length_seqZ; lia).
  apply submseteq_length, NoDup_submseteq; [done|]. intros i Hi. rewrite Forall_forall in Hmk.
  destruct (Hmk i Hi) as [Hi0 Hl]. apply lookup_lt_Some in Hl. apply elem_of_seqZ. lia.
Qed.

Lemma control_at_sorted F i a :
  (forall i j a b, (i < j)%nat -> controls_of F !! i = Some a -> controls_of F !! j = Some b ->
     opcode_offset a < opcode_offset b) ->
  controls_of F !! i = Some a -> turbowasm_validation_function_control_at F (opcode_offset a) = Some a.
Proof.
  unfold turbowasm_validation_function_control_at. generalize (controls_of F). intros cs. revert i.
  induction cs as [|b cs IH]; intros i Hs Hi; [done|]. rewrite filter_cons. destruct i as [|i].
  - injection Hi as ->. by rewrite decide_True.
  - specialize (Hs 0%nat (S i) b a ltac:(lia) eq_refl Hi) as Hlt.
    rewrite decide_False by lia. apply (IH i); [|done]. intros j k c d Hjk. apply (Hs (S j) (S k)). lia.
Qed.

(** What acceptance of a body means for its run. *)
Lemma body_accepted buf realloc_ok malloc_ok H body ctx function_index ctx' rd f :
  turbowasm_validation_context_function ctx function_index = Some f -> 0 <= function_index ->
  turbowasm_validate_function_body buf realloc_ok malloc_ok H body ctx function_index = (TURBOWASM_OK, ctx', rd) ->
  exists F t locals sem r s0 s1 s2, turbowasm_validation_context_function ctx' function_index = Some F /\
    accepted_run buf realloc_ok malloc_ok H ctx body function_index F t f locals sem r s0 s1 s2.
Proof.
  intros Hf Hi. unfold turbowasm_validate_function_body.
  destruct (validate_body _ _ _ _ _ _ _) as [[[st F] store] r] eqn:E. intros [= -> <- <-].
  destruct (validate_body_run _ _ _ _ _ _ _ _ _ _ E) as (t & f' & locals & sem & r' & s0 & s1 & s2 & Hr).
  assert (f' = f) as -> by (pose proof (ar_function _ _ _ _ _ _ _ _ _ _ _ _ _ _ _ _ Hr); congruence).
  exists F, t, locals, sem, r', s0, s1, s2. split; [|done].
  unfold turbowasm_validation_context_function, at_index, count in *. simpl in *. rewrite length_insert.
  destruct (_ >=? _); [done|]. apply list_lookup_insert_eq. by eapply lookup_lt_Some.
Qed.

(** C37. At every instruction of every body, whether the body is accepted or not,
    the validator's arrays are used within bounds: the type stack and the
    control stack fit their allocations, the type stack never falls below the
    innermost frame, whose heights are nested, and the journal of initialized locals holds distinct locals of the
    function, so it fits the array of one entry per local. *)
Theorem validator_memory_safe buf realloc_ok malloc_ok H ctx r f t sem u s0 s :
  controls_of f = [] -> turbowasm_reader_remaining r <= UINT32_MAX ->
  turbowasm_control_push realloc_ok malloc_ok H CTRL_FUNCTION [] (result_semantics t) UINT32_MAX
    (initial_state ctx r f t sem) = (inr u, s0) ->
  rtc (vstep buf realloc_ok malloc_ok H ctx t sem (cursor r)) s0 s ->
  0 <= floor (v_stack s) <= tsize (v_stack s) /\ tsize (v_stack s) <= tcapacity (v_stack s) <= UINT32_MAX /\
  1 <= csize (v_controls s) <= ccapacity (v_controls s) /\ ccapacity (v_controls s) <= UINT32_MAX /\
  (forall g, g ∈ cframes (v_controls s) -> 0 <= cheight g <= floor (v_stack s)) /\
  init_count (v_controls s) <= Z.of_nat (length sem) /\ NoDup (journal (v_controls s)) /\
  Forall (fun i => 0 <= i < Z.of_nat (length sem)) (journal (v_controls s)).
Proof.
  intros Hc Hsz E Hrun. destruct (initial_vinv _ _ _ _ _ _ _ _ _ _ _ Hc eq_refl Hsz E) as (Hv0 & _).
  pose proof (run_vinv _ _ _ _ _ _ _ _ _ _ _ _ Hrun Hv0) as Hv.
  assert (Hin : Forall (fun i => 0 <= i < Z.of_nat (length sem)) (journal (v_controls s))).
  { destruct (vi_locals _ _ _ _ _ Hv) as [Hlen _ Hmk]. eapply Forall_impl; [exact Hmk|]. intros i [Hi Hl].
    apply lookup_lt_Some in Hl. lia. }
  split_and!; try apply (vi_floor _ _ _ _ _ Hv); try apply (vi_room _ _ _ _ _ Hv); try apply (vi_croom _ _ _ _ _ Hv); [| |..|done].
  - destruct (vi_bottom _ _ _ _ _ Hv) as (f0 & fs & Hfs & _). unfold csize. rewrite Hfs. simpl. lia.
  - apply (frame_heights _ _ _ _ _ Hv).
  - by apply journal_bound, (vi_locals _ _ _ _ _ Hv).
  - apply (vi_locals _ _ _ _ _ Hv).
Qed.

(** C38. Validation of a body terminates: every round of the loop consumes input,
    so with one round per byte left the result no longer depends on the bound. *)
Theorem validation_terminates buf realloc_ok malloc_ok H ctx t sem start fuel s :
  turbowasm_reader_remaining (v_reader s) <= Z.of_nat fuel ->
  body_loop buf realloc_ok malloc_ok H ctx t sem start fuel s =
  body_loop buf realloc_ok malloc_ok H ctx t sem start (Z.to_nat (turbowasm_reader_remaining (v_reader s))) s /\
  (forall s', vstep buf realloc_ok malloc_ok H ctx t sem start s s' ->
     turbowasm_reader_remaining (v_reader s') < turbowasm_reader_remaining (v_reader s)).
Proof.
  intros Hf. pose proof (remaining_nonneg (v_reader s)). split; [apply loop_fuel; lia|].
  intros s'. apply vstep_consumes.
Qed.

(** ** Witnesses *)

(** [(func (param i32) (result i32) local.get 0 (if (result i32) i32.const 1 else i32.const 2 end))] *)
Definition i32_type : turbowasm_validation_value_type := turbowasm_validation_value_type_legacy TW_I32.
Definition sample_type : turbowasm_validation_func_type :=
  mk_func_type true [TW_I32] [i32_type] [TW_I32] [i32_type] TYPE_FUNCTION [] true UINT32_MAX None
    (Some 0%nat) 1 0 0 (Some 0%nat).
Definition sample_heap : type_heap := [sample_type].
Definition sample_function : turbowasm_validation_function := mk_function 0 false [] [] None 0 [] 0.
Definition sample_context : turbowasm_validation_context :=
  mk_context (mk_types 0 1 false) empty_vec empty_vec (mk_vec [sample_function] 4) empty_vec empty_vec
    empty_vec empty_vec empty_vec empty_vec None false 0.
Definition sample_body : list Z := [0x00; 0x20; 0x00; 0x04; 0x7f; 0x41; 0x01; 0x05; 0x41; 0x02; 0x0b; 0x0b].
Definition sample_outcome :=
  turbowasm_validate_function_body sample_body (fun _ => true) (fun _ => true) sample_heap
    (turbowasm_reader_init (Some 0) 12) sample_context 0.

(** The control frame of the if: opcode at 2, body at 4, else at 6, end at 9. *)
Lemma sample_controls : exists ctx' r F, sample_outcome = (TURBOWASM_OK, ctx', r) /\
  turbowasm_validation_context_function ctx' 0 = Some F /\
  controls_of F = [mk_control VALIDATION_CONTROL_IF 2 4 6 9 UINT32_MAX TW_I32 []].
Proof. do 3 eexists. split_and!; vm_compute; reflexivity. Qed.

Definition sample_start : vstate :=
  snd (turbowasm_control_push (fun _ => true) (fun _ => true) sample_heap CTRL_FUNCTION [] [i32_type] UINT32_MAX
    (initial_state sample_context (mk_reader (Some 1) (Some 12)) sample_function
       sample_type
       [i32_type])).

Lemma validator_memory_safe_witness :
  0 <= floor (v_stack sample_start) <= tsize (v_stack sample_start) /\
  init_count (v_controls sample_start) <= 1.
Proof.
  edestruct (validator_memory_safe sample_body (fun _ => true) (fun _ => true) sample_heap sample_context
    (mk_reader (Some 1) (Some 12)) sample_function
    sample_type
    [i32_type] tt sample_start sample_start) as (Hf & _ & _ & _ & _ & Hj & _);
    [reflexivity|vm_compute; discriminate|vm_compute; reflexivity|apply rtc_refl|].
  split; [exact Hf|exact Hj].
Defined.

Lemma validation_terminates_witness :
  body_loop sample_body (fun _ => true) (fun _ => true) sample_heap sample_context
    sample_type
    [i32_type] (Some 1) 100 sample_start =
  body_loop sample_body (fun _ => true) (fun _ => true) sample_heap sample_context
    sample_type
    [i32_type] (Some 1) 11 sample_start.
Proof.
  apply (validation_terminates sample_body (fun _ => true) (fun _ => true) sample_heap sample_context _ [i32_type] (Some 1) 100 sample_start).
  vm_compute. discriminate.
Defined.

End ValidatorRun.
