(* ===== verification/ValidatorPaths.v ===== *)
(** * Where control goes in an accepted body

    The interpreter does not run the validator's states in order: a branch goes
    to the end of its block or back to the start of its loop, an if goes to its
    else or its end. On an accepted run each of these places is a state of the
    validator too, and what it says about the operands there depends only on the
    frame that is open now. *)

From S2P Require Import Prelude Reader Types TypeEq TypeReader Context Validator ValidatorSteps ValidatorFrames ValidatorRun.

Module ValidatorPaths.
Import Reader Types TypeEq TypeReader Context Validator ValidatorSteps ValidatorFrames ValidatorRun.

Section Paths.
Context (buf : list Z) (realloc_ok malloc_ok : Z -> bool).
Context (H : type_heap) (ctx : turbowasm_validation_context).
Context (t : turbowasm_validation_func_type) (sem : list turbowasm_validation_value_type).
Context (code_start : option Z) (total : Z) (n : nat).

Abbreviation offset := (code_offset code_start).
Abbreviation step := (dispatch buf realloc_ok malloc_ok H ctx t sem code_start).
Abbreviation vstep := (vstep buf realloc_ok malloc_ok H ctx t sem code_start).
Abbreviation inv := (vinv t code_start total n).
Abbreviation frames_of s := (cframes (v_controls s)).
Abbreviation types_of s := (tvalues (v_stack s)).
Abbreviation annotations_of s := (controls_of (v_function s)).

(** ** The first event of an open frame *)

(** Operands below a frame survive as long as the frame is open. *)
Definition below (g : turbowasm_control_frame) (s s' : vstate) : Prop :=
  take (Z.to_nat (cheight g)) (types_of s') = take (Z.to_nat (cheight g)) (types_of s).

Lemma below_prefix g (vs l l' : list turbowasm_validation_value_type) :
  vs `prefix_of` l -> cheight g <= Z.of_nat (length vs) ->
  take (Z.to_nat (cheight g)) (vs ++ l') = take (Z.to_nat (cheight g)) l.
Proof.
  intros [k ->] Hh. rewrite !take_app_le by lia. done.
Qed.

Lemma take_app_lookup {A} (l : list A) k g : l !! k = Some g -> S k = length l -> l = take k l ++ [g].
Proof. intros Hk Hl. rewrite <- (take_drop k l) at 1. f_equal. erewrite drop_S by done. f_equal. apply drop_ge. lia. Qed.

Lemma plain_below s s' g : inv s -> plain s s' -> g ∈ frames_of s -> below g s s'.
Proof.
  intros Hv Hp Hg. destruct (frame_heights _ _ _ _ _ Hv g Hg) as [H0 Hfl].
  destruct (pl_base _ _ Hp (vi_floor _ _ _ _ _ Hv)) as [_ Hb]. unfold base in Hb. rewrite (pl_floor _ _ Hp) in Hb.
  unfold below. apply (f_equal (take (Z.to_nat (cheight g)))) in Hb. rewrite !take_take in Hb.
  by rewrite !Nat.min_l in Hb by lia.
Qed.

(** What happens to the frame number [k]: it stays, or it is the innermost one
    and reaches its else or its end. *)
Lemma step_frame s s' k g : inv s -> vstep s s' -> frames_of s !! k = Some g ->
  (frames_of s' !! k = Some g /\ take (S k) (frames_of s') = take (S k) (frames_of s) /\ below g s s') \/
  exists op sb a, byte buf s = (inr op, sb) /\ step op sb = (inr false, s') /\
    frames_of s = take k (frames_of s) ++ [g] /\
    ((op = 0x05 /\ turns code_start sb s' (take k (frames_of s)) g a) \/
     (op = 0x0b /\ closes code_start sb s' (take k (frames_of s)) g a)).
Proof.
  intros Hv (op & sb & Eb & E) Hg. destruct (byte_inv _ _ _ _ Eb) as [Hsb Hl].
  assert (Hin : g ∈ frames_of s) by (by eapply list_elem_of_lookup_2).
  destruct (frame_heights _ _ _ _ _ Hv g Hin) as [H0 Hfl].
  pose proof (lookup_lt_Some _ _ _ Hg) as Hlt.
  destruct (dispatch_shape _ _ _ _ _ _ _ _ _ _ _ E) as [_ Hp|f a _ Ho|fs f a Hop Ht|fs f a Hop Hc].
  - left. assert (Hps : plain s s').
    { eapply plain_trans; [|exact Hp]. rewrite Hsb. constructor; try done. exists 1. by split; [lia|]. }
    rewrite (pl_frames _ _ Hps). split_and!; [done..|]. by apply plain_below.
  - left. pose proof (op_frames _ _ _ _ _ Ho) as Hfr. rewrite Hsb in Hfr. simpl in Hfr. rewrite Hfr.
    split_and!; [by apply lookup_app_l_Some|by rewrite take_app_le by lia|].
    destruct (op_values _ _ _ _ _ Ho) as (vs & Hvs & Hh & Hpre). rewrite Hsb in Hpre. unfold below. rewrite Hvs.
    apply below_prefix; [done|]. rewrite <- Hh. pose proof (op_above _ _ _ _ _ Ho) as Hab. rewrite Hsb in Hab.
    specialize (Hab (vi_floor _ _ _ _ _ Hv)). simpl in Hab. lia.
  - pose proof (tu_before _ _ _ _ _ _ Ht) as Hbef. pose proof (tu_after _ _ _ _ _ _ Ht) as Haft.
    rewrite Hsb in Hbef. simpl in Hbef. rewrite Hbef in Hg, Hlt |- *. rewrite length_app in Hlt. simpl in Hlt.
    destruct (decide (k = length fs)) as [->|Hk].
    + right. rewrite lookup_app_r, Nat.sub_diag in Hg by lia. injection Hg as <-.
      exists op, sb, a. rewrite take_app_length. split_and!; [done..|]. by left.
    + left. rewrite Haft. rewrite lookup_app_l in Hg |- * by lia. split_and!; [done|by rewrite !take_app_le by lia|].
      destruct (tu_values _ _ _ _ _ _ Ht) as (vs & Hvs & Hh & Hpre). rewrite Hsb in Hpre. unfold below. rewrite Hvs.
      apply below_prefix; [done|]. rewrite <- Hh. pose proof (tu_floor _ _ _ _ _ _ Ht).
      destruct (vi_top _ _ _ _ _ Hv) as (gs & h & Hgs & Hfh). rewrite Hbef in Hgs.
      apply app_inj_2 in Hgs as [_ [= <-]]; [|done]. lia.
  - pose proof (cl_before _ _ _ _ _ _ Hc) as Hbef. pose proof (cl_after _ _ _ _ _ _ Hc) as Haft.
    rewrite Hsb in Hbef. simpl in Hbef. rewrite Hbef in Hg, Hlt |- *. rewrite length_app in Hlt. simpl in Hlt.
    destruct (decide (k = length fs)) as [->|Hk].
    + right. rewrite lookup_app_r, Nat.sub_diag in Hg by lia. injection Hg as <-.
      exists op, sb, a. rewrite take_app_length. split_and!; [done..|]. by right.
    + left. rewrite Haft. rewrite lookup_app_l in Hg by lia. split_and!; [done|by rewrite take_app_le by lia|].
      destruct (cl_values _ _ _ _ _ _ Hc) as (vs & Hvs & Hh & Hpre). rewrite Hsb in Hpre. unfold below. rewrite Hvs.
      apply below_prefix; [done|]. rewrite <- Hh.
      destruct (vi_top _ _ _ _ _ Hv) as (gs & h & Hgs & Hfh). rewrite Hbef in Hgs.
      apply app_inj_2 in Hgs as [_ [= <-]]; [|done]. lia.
Qed.

(** On a run that ends with the function's frame alone, every other open frame
    has such an event. *)
Record event (s s1 : vstate) (k : nat) (g : turbowasm_control_frame) (op : Z) (sm sb se : vstate) : Prop := {
  ev_before : rtc vstep s sm;
  ev_byte : byte buf sm = (inr op, sb);
  ev_step : step op sb = (inr false, se);
  ev_after : rtc vstep se s1;
  ev_frames : frames_of sm = take k (frames_of s) ++ [g];
  ev_below : below g s sm
}.

Lemma event_vstep s s1 k g op sm sb se : event s s1 k g op sm sb se -> vstep sm se.
Proof. intros Hev. exists op, sb. split; apply Hev. Qed.

Lemma frame_event s s1 k g : rtc vstep s s1 -> length (frames_of s1) = 1%nat -> inv s ->
  frames_of s !! k = Some g -> (1 <= k)%nat ->
  exists op sm sb se a, event s s1 k g op sm sb se /\
    ((op = 0x05 /\ turns code_start sb se (take k (frames_of s)) g a) \/
     (op = 0x0b /\ closes code_start sb se (take k (frames_of s)) g a)).
Proof.
  intros Hrun Hlen. induction Hrun as [s|s s' s1 Hst Hrun IH]; intros Hv Hg Hk.
  { apply lookup_lt_Some in Hg. lia. }
  specialize (IH Hlen). pose proof (vstep_vinv _ _ _ _ _ _ _ _ _ _ _ _ Hst Hv) as Hv'.
  destruct (step_frame _ _ _ _ Hv Hst Hg) as [(Hg' & Hfr & Hb)|(op & sb & a & Eb & E & Hfr & Hcase)].
  - destruct (IH Hv' Hg' Hk) as (op & sm & sb & se & a & [E1 E2 E3 E4 E5 E6] & Hcase).
    assert (Htk : take k (frames_of s') = take k (frames_of s)).
    { apply (f_equal (take k)) in Hfr. rewrite !take_take, !Nat.min_l in Hfr by lia. done. }
    exists op, sm, sb, se, a. rewrite Htk in E5, Hcase. split; [|done]. constructor; try done; [by eapply rtc_l|].
    unfold below in *. by rewrite E6.
  - exists op, s, sb, s', a. split; [|done]. by constructor; [apply rtc_refl|..].
Qed.

(** The frame as it is when it is closed. *)
Definition like (g g' : turbowasm_control_frame) : Prop :=
  g' = g \/ (ckind g = CTRL_IF /\ else_seen g = false /\ g' = with_else_seen g).

Lemma turns_frames s s1 k g sm sb se a : event s s1 k g 0x05 sm sb se ->
  turns code_start sb se (take k (frames_of s)) g a -> (k < length (frames_of s))%nat ->
  frames_of se !! k = Some (with_else_seen g) /\ take k (frames_of se) = take k (frames_of s) /\ below g s se.
Proof.
  intros Hev Ht Hk. rewrite (tu_after _ _ _ _ _ _ Ht).
  assert (Hl : length (take k (frames_of s)) = k) by (rewrite length_take; lia).
  split_and!; [rewrite lookup_app_r by lia; by rewrite Hl, Nat.sub_diag|rewrite take_app_le by lia; apply take_ge; lia|].
  destruct (tu_values _ _ _ _ _ _ Ht) as (vs & Hvs & Hh & Hpre). unfold below. rewrite Hvs.
  rewrite (below_prefix g vs (types_of sb)) by (done || lia).
  destruct (byte_inv _ _ _ _ (ev_byte _ _ _ _ _ _ _ _ Hev)) as [-> _]. simpl. apply Hev.
Qed.

Lemma close_event s s1 k g : rtc vstep s s1 -> length (frames_of s1) = 1%nat -> inv s ->
  frames_of s !! k = Some g -> (1 <= k)%nat ->
  exists g' sm sb se a, like g g' /\ event s s1 k g' 0x0b sm sb se /\
    closes code_start sb se (take k (frames_of s)) g' a.
Proof.
  intros Hrun Hlen Hv Hg Hk.
  destruct (frame_event _ _ _ _ Hrun Hlen Hv Hg Hk) as (op & sm & sb & se & a & Hev & [[-> Ht]|[-> Hc]]).
  2: { exists g, sm, sb, se, a. split_and!; [by left|done..]. }
  assert (Hvm : inv se).
  { eapply vstep_vinv; [by eapply event_vstep|]. eapply run_vinv; [apply Hev|done]. }
  destruct (turns_frames _ _ _ _ _ _ _ _ Hev Ht) as (Hg' & Htk & Hb); [by eapply lookup_lt_Some|].
  destruct (frame_event _ _ _ _ (ev_after _ _ _ _ _ _ _ _ Hev) Hlen Hvm Hg' Hk)
    as (op & sm2 & sb2 & se2 & a2 & Hev2 & [[-> Ht2]|[-> Hc2]]).
  { by pose proof (tu_fresh _ _ _ _ _ _ Ht2). }
  rewrite Htk in Hc2. exists (with_else_seen g), sm2, sb2, se2, a2. split_and!; [|destruct Hev2 as [E1 E2 E3 E4 E5 E6]|done].
  - right. split_and!; [apply Ht|apply Ht|done].
  - rewrite Htk in E5. constructor; try done.
    + etrans; [apply Hev|]. eapply rtc_l; [by eapply event_vstep|done].
    + unfold below in *. simpl in *. by rewrite E6, Hb.
Qed.

(** ** Annotations on the way to the end of the body *)

Definition same_static (a a' : turbowasm_validation_control) : Prop :=
  control_kind a' = control_kind a /\ opcode_offset a' = opcode_offset a /\ body_offset a' = body_offset a /\
  control_type_index a' = control_type_index a /\ inline_result_type a' = inline_result_type a /\
  catches a' = catches a.

(** An annotation only gets its else and its end, each once. *)
Record evolves (a a' : turbowasm_validation_control) : Prop := {
  ev_static : same_static a a';
  ev_end : end_offset a <> UINT32_MAX -> a' = a;
  ev_else : else_offset a <> UINT32_MAX -> else_offset a' = else_offset a
}.

Lemma evolves_refl a : evolves a a.
Proof. by constructor. Qed.

Lemma evolves_trans a b c : evolves a b -> evolves b c -> evolves a c.
Proof.
  intros [(A1 & A2 & A3 & A4 & A5 & A6) A7 A8] [(B1 & B2 & B3 & B4 & B5 & B6) B7 B8]. constructor.
  - unfold same_static. split_and!; congruence.
  - intros Ha. specialize (A7 Ha). subst b. by apply B7.
  - intros Ha. specialize (A8 Ha). rewrite B8; [done|congruence].
Qed.

Lemma open_annotation_end s k g a : inv s -> frames_of s !! k = Some g -> (1 <= k)%nat ->
  annotations_of s !! Z.to_nat (annotation_index g) = Some a ->
  end_offset a = UINT32_MAX /\ (else_seen g = false -> else_offset a = UINT32_MAX).
Proof.
  intros Hv Hg Hk Ha. destruct (vi_bottom _ _ _ _ _ Hv) as (f0 & fs & Hfs & _ & _ & _ & _ & Hai).
  rewrite Hfs in Hg. destruct k as [|k]; [lia|]. simpl in Hg.
  destruct (ai_open _ _ _ Hai k g Hg) as (_ & a' & Ha' & He & Hel).
  assert (a' = a) as -> by congruence. done.
Qed.

Lemma step_annotation s s' i a : inv s -> vstep s s' -> annotations_of s !! i = Some a ->
  exists a', annotations_of s' !! i = Some a' /\ evolves a a'.
Proof.
  intros Hv Hst Ha. pose proof Hst as (op & sb & Eb & E). destruct (byte_inv _ _ _ _ Eb) as [Hsb Hl].
  assert (Hset : forall g fs b b', frames_of s = fs ++ [g] -> ckind g <> CTRL_FUNCTION ->
    annotations_of s !! Z.to_nat (annotation_index g) = Some b ->
    (end_offset b = UINT32_MAX -> (else_seen g = false -> else_offset b = UINT32_MAX) -> evolves b b') ->
    exists a', <[Z.to_nat (annotation_index g) := b']> (annotations_of s) !! i = Some a' /\ evolves a a').
  { intros g fs b b' Hfs Hk Hb Hev. destruct (decide (i = Z.to_nat (annotation_index g))) as [->|Hne].
    - exists b'. rewrite list_lookup_insert_eq by (by eapply lookup_lt_Some). split; [done|].
      assert (a = b) as -> by congruence. destruct (vi_bottom _ _ _ _ _ Hv) as (f0 & gs & Hgs & Hk0 & _).
      destruct (frames_views _ _ _ _ _ Hgs Hfs) as [(_ & _ & ->)|(hs & -> & _)]; [done|].
      destruct (open_annotation_end s (length (f0 :: hs)) g b Hv) as [He Hel]; [|simpl; lia|done|by apply Hev].
      rewrite Hfs. by rewrite lookup_app_r, Nat.sub_diag by lia.
    - exists a. rewrite list_lookup_insert_ne by done. split; [done|apply evolves_refl]. }
  destruct (dispatch_shape _ _ _ _ _ _ _ _ _ _ _ E) as [_ Hp|f an _ Ho|fs f an Hop Ht|fs f an Hop Hc]; subst sb.
  - rewrite (pl_function _ _ Hp). exists a. split; [done|apply evolves_refl].
  - destruct (op_controls _ _ _ _ _ Ho) as [-> _]. exists a. split; [by apply lookup_app_l_Some|apply evolves_refl].
  - rewrite (tu_function _ _ _ _ _ _ Ht). destruct (tu_index _ _ _ _ _ _ Ht) as [_ Hix]. simpl in *.
    eapply Hset; [apply (tu_before _ _ _ _ _ _ Ht)|by rewrite (tu_kind _ _ _ _ _ _ Ht)|done|].
    intros He Hel. constructor; [done|congruence|]. rewrite (tu_unset _ _ _ _ _ _ Ht). congruence.
  - rewrite (cl_function _ _ _ _ _ _ Hc). destruct (cl_index _ _ _ _ _ _ Hc) as [_ Hix]. simpl in *.
    eapply Hset; [apply (cl_before _ _ _ _ _ _ Hc)|apply (cl_kind _ _ _ _ _ _ Hc)|done|].
    intros He Hel. constructor; [done|congruence|done].
Qed.

Lemma run_annotation s s' i a : rtc vstep s s' -> inv s -> annotations_of s !! i = Some a ->
  exists a', annotations_of s' !! i = Some a' /\ evolves a a'.
Proof.
  intros Hrun. revert a. induction Hrun as [s|s s2 s3 Hst Hrun IH]; intros a Hv Ha; [exists a; split; [done|apply evolves_refl]|].
  destruct (step_annotation _ _ _ _ Hv Hst Ha) as (b & Hb & Hab).
  destruct (IH b) as (c & Hc & Hbc); [by eapply vstep_vinv|done|]. exists c. split; [done|]. by eapply evolves_trans.
Qed.

(** ** Offsets along a run *)

Lemma offset_bound s : inv s -> 0 <= offset s <= total /\ total <= UINT32_MAX.
Proof. intros Hv. destruct (vi_size _ _ _ _ _ Hv) as (H0 & H1 & H2). pose proof (remaining_nonneg (v_reader s)). lia. Qed.

(** The opcode byte of an event, and the state right after it. *)
Lemma event_offset s s1 k g op sm sb se : inv s -> event s s1 k g op sm sb se ->
  inv sm /\ inv se /\ offset sb = offset sm + 1 /\ offset sm < total.
Proof.
  intros Hv Hev. assert (Hvm : inv sm) by (eapply run_vinv; [apply Hev|done]).
  destruct (byte_inv _ _ _ _ (ev_byte _ _ _ _ _ _ _ _ Hev)) as [-> Hl].
  destruct (opcode_read code_start sm Hl) as [Ho _]. split_and!; [done| |done|].
  - eapply vstep_vinv; [by eapply event_vstep|done].
  - destruct (vi_size _ _ _ _ _ Hvm) as (_ & H1 & _). lia.
Qed.

(** The end and the else the final annotation [A] of a frame records. *)
Lemma closed_annotation s s1 k g sm sb se a A : inv s -> event s s1 k g 0x0b sm sb se ->
  closes code_start sb se (take k (frames_of s)) g a ->
  annotations_of s1 !! Z.to_nat (annotation_index g) = Some A ->
  end_offset A = offset sm /\ else_offset A = else_offset a /\ offset se = offset sm + 1.
Proof.
  intros Hv Hev Hc HA. destruct (event_offset _ _ _ _ _ _ _ _ Hv Hev) as (Hvm & Hve & Hob & Hlt).
  destruct (cl_index _ _ _ _ _ _ Hc) as [_ Hix].
  assert (Hse : annotations_of se !! Z.to_nat (annotation_index g) = Some (with_end_offset (offset sb - 1) a)).
  { rewrite (cl_function _ _ _ _ _ _ Hc). simpl. apply list_lookup_insert_eq. by eapply lookup_lt_Some. }
  destruct (run_annotation _ _ _ _ (ev_after _ _ _ _ _ _ _ _ Hev) Hve Hse) as (A' & HA' & Hevo).
  assert (A' = A) as -> by congruence. destruct (offset_bound _ Hvm) as [_ Hmax].
  rewrite (ev_end _ _ Hevo) by (simpl; lia). simpl. split_and!; [lia|done|].
  unfold code_offset. rewrite (cl_reader _ _ _ _ _ _ Hc). exact Hob.
Qed.

Lemma turned_annotation s s1 k g sm sb se a A : inv s -> event s s1 k g 0x05 sm sb se ->
  turns code_start sb se (take k (frames_of s)) g a ->
  annotations_of s1 !! Z.to_nat (annotation_index g) = Some A ->
  else_offset A = offset sm /\ offset se = offset sm + 1.
Proof.
  intros Hv Hev Ht HA. destruct (event_offset _ _ _ _ _ _ _ _ Hv Hev) as (Hvm & Hve & Hob & Hlt).
  destruct (tu_index _ _ _ _ _ _ Ht) as [_ Hix].
  assert (Hse : annotations_of se !! Z.to_nat (annotation_index g) = Some (with_else_offset (offset sb - 1) a)).
  { rewrite (tu_function _ _ _ _ _ _ Ht). simpl. apply list_lookup_insert_eq. by eapply lookup_lt_Some. }
  destruct (run_annotation _ _ _ _ (ev_after _ _ _ _ _ _ _ _ Hev) Hve Hse) as (A' & HA' & Hevo).
  assert (A' = A) as -> by congruence. destruct (offset_bound _ Hvm) as [_ Hmax].
  rewrite (ev_else _ _ Hevo) by (simpl; lia). simpl. split; [lia|].
  unfold code_offset. rewrite (tu_reader _ _ _ _ _ _ Ht). exact Hob.
Qed.

Lemma vstep_moved s s' : vstep s s' -> moved (v_reader s) (v_reader s').
Proof.
  intros (op & sb & Eb & E). destruct (byte_inv _ _ _ _ Eb) as [Hsb Hl].
  eapply moved_trans; [|by eapply shape_moved, dispatch_shape]. rewrite Hsb. exists 1. split; [lia|done].
Qed.

(** The reader of every state is over the same bytes. *)
Lemma run_reader s s' base stop : rtc vstep s s' -> v_reader s = mk_reader (Some base) stop ->
  exists d, v_reader s' = mk_reader (Some d) stop.
Proof.
  intros Hrun Hr. assert (Hm : moved (v_reader s) (v_reader s')).
  { clear Hr. induction Hrun as [|s2 s3 s4 Hst _ IH]; [apply moved_refl|]. eapply moved_trans; [|exact IH]. by apply vstep_moved. }
  destruct Hm as (d & _ & ->). rewrite Hr. simpl. by eexists.
Qed.

(** ** Back to the start of a loop *)

(** The state in which the body of frame [g], number [k], starts. *)
Record entered (s0 s : vstate) (k : nat) (g : turbowasm_control_frame) (se : vstate) : Prop := {
  en_before : rtc vstep s0 se;
  en_after : rtc vstep se s;
  en_frames : frames_of se = take (S k) (frames_of s);
  en_types : types_of se = take (Z.to_nat (cheight g)) (types_of s) ++ start_types g;
  en_live : unreachable (v_stack se) = false;
  en_body : exists a, annotations_of se !! Z.to_nat (annotation_index g) = Some a /\ body_offset a = offset se
}.

(** Where an open frame was one step earlier. *)
Lemma frame_before s s' k g : inv s -> vstep s s' -> frames_of s' !! k = Some g -> ckind g <> CTRL_IF ->
  (frames_of s !! k = Some g /\ take (S k) (frames_of s') = take (S k) (frames_of s) /\ below g s s') \/
  (exists sb a, opens code_start sb s' g a /\ k = length (frames_of s) /\ frames_of s' = frames_of s ++ [g]).
Proof.
  intros Hv Hst Hg Hk. pose proof Hst as (op & sb & Eb & E). destruct (byte_inv _ _ _ _ Eb) as [Hsb Hl].
  assert (Hold : frames_of s !! k = Some g ->
    frames_of s !! k = Some g /\ take (S k) (frames_of s') = take (S k) (frames_of s) /\ below g s s').
  { intros Hgs. destruct (step_frame _ _ _ _ Hv Hst Hgs) as [(_ & ? & ?)|(op' & sb' & a & _ & _ & _ & [[_ Ht]|[_ Hc]])]; [done| |].
    - by rewrite (tu_kind _ _ _ _ _ _ Ht) in Hk.
    - rewrite (cl_after _ _ _ _ _ _ Hc) in Hg. apply lookup_lt_Some in Hg. rewrite length_take in Hg. lia. }
  destruct (dispatch_shape _ _ _ _ _ _ _ _ _ _ _ E) as [_ Hp|f a _ Ho|fs f a Hop Ht|fs f a Hop Hc].
  - left. apply Hold. rewrite (pl_frames _ _ Hp), Hsb in Hg. done.
  - pose proof (op_frames _ _ _ _ _ Ho) as Hfr. rewrite Hsb in Hfr. simpl in Hfr. rewrite Hfr in Hg.
    apply lookup_snoc_inv in Hg as [Hg|[-> ->]]; [left; by apply Hold|right]. by exists sb, a.
  - left. apply Hold. rewrite (tu_after _ _ _ _ _ _ Ht) in Hg. pose proof (tu_before _ _ _ _ _ _ Ht) as Hbef.
    rewrite Hsb in Hbef. simpl in Hbef. rewrite Hbef. apply lookup_snoc_inv in Hg as [Hg|[_ ->]].
    + by apply lookup_app_l_Some.
    + by rewrite <- (tu_kind _ _ _ _ _ _ Ht) in Hk.
  - left. apply Hold. rewrite (cl_after _ _ _ _ _ _ Hc) in Hg. pose proof (cl_before _ _ _ _ _ _ Hc) as Hbef.
    rewrite Hsb in Hbef. simpl in Hbef. rewrite Hbef. by apply lookup_app_l_Some.
Qed.

Lemma entered_step s0 s s' k g se : entered s0 s k g se -> vstep s s' ->
  take (S k) (frames_of s') = take (S k) (frames_of s) -> below g s s' -> entered s0 s' k g se.
Proof.
  intros [E1 E2 E3 E4 E5 E6] Hst Hfr Hb. constructor; try done; [by eapply rtc_r|by rewrite Hfr|]. by rewrite Hb.
Qed.

Lemma entered_open s0 s sb s' g a : rtc vstep s0 s' -> opens code_start sb s' g a -> frames_of s' = frames_of s ++ [g] ->
  entered s0 s' (length (frames_of s)) g s'.
Proof.
  intros Hrun Ho Hfr. constructor; [done|apply rtc_refl| | |apply (op_live _ _ _ _ _ Ho)|].
  - rewrite take_ge; [done|]. rewrite Hfr, length_app. simpl. lia.
  - destruct (op_values _ _ _ _ _ Ho) as (vs & -> & -> & _). by rewrite Nat2Z.id, take_app_length.
  - destruct (op_controls _ _ _ _ _ Ho) as (-> & -> & _). exists a. rewrite Nat2Z.id, lookup_app_r, Nat.sub_diag by lia.
    split; [done|apply (op_body _ _ _ _ _ Ho)].
Qed.

Lemma frames_entered s0 s : rtc vstep s0 s -> inv s0 -> length (frames_of s0) = 1%nat -> forall k g, (1 <= k)%nat ->
  frames_of s !! k = Some g -> ckind g <> CTRL_IF -> exists se, entered s0 s k g se.
Proof.
  intros Hrun Hv0 Hone. revert s Hrun. refine (rtc_ind_r _ _ _ _).
  { intros k g Hk Hg%lookup_lt_Some _. lia. }
  intros s s' Hrun Hst IH k g Hk Hg Hi.
  assert (Hv : inv s) by (by eapply run_vinv).
  destruct (frame_before _ _ _ _ Hv Hst Hg Hi) as [(Hgs & Hfr & Hb)|(sb & a & Ho & -> & Hfr)].
  - destruct (IH _ _ Hk Hgs Hi) as [se Hse]. exists se. by eapply entered_step.
  - exists s'. eapply entered_open; [by eapply rtc_r|done..].
Qed.

End Paths.

#[global] Arguments ev_before {buf realloc_ok malloc_ok H ctx t sem code_start s s1 k g op sm sb se}.
#[global] Arguments ev_byte {buf realloc_ok malloc_ok H ctx t sem code_start s s1 k g op sm sb se}.
#[global] Arguments ev_step {buf realloc_ok malloc_ok H ctx t sem code_start s s1 k g op sm sb se}.
#[global] Arguments ev_after {buf realloc_ok malloc_ok H ctx t sem code_start s s1 k g op sm sb se}.
#[global] Arguments ev_frames {buf realloc_ok malloc_ok H ctx t sem code_start s s1 k g op sm sb se}.
#[global] Arguments ev_below {buf realloc_ok malloc_ok H ctx t sem code_start s s1 k g op sm sb se}.
#[global] Arguments event_vstep {buf realloc_ok malloc_ok H ctx t sem code_start s s1 k g op sm sb se}.
#[global] Arguments en_frames {buf realloc_ok malloc_ok H ctx t sem code_start s0 s k g se}.
#[global] Arguments en_types {buf realloc_ok malloc_ok H ctx t sem code_start s0 s k g se}.
#[global] Arguments en_body {buf realloc_ok malloc_ok H ctx t sem code_start s0 s k g se}.
#[global] Arguments run_annotation {buf realloc_ok malloc_ok H ctx t sem code_start total n s s' i a}.
#[global] Arguments frame_event {buf realloc_ok malloc_ok H ctx t sem code_start total n s s1 k g}.
#[global] Arguments close_event {buf realloc_ok malloc_ok H ctx t sem code_start total n s s1 k g}.
#[global] Arguments turns_frames {buf realloc_ok malloc_ok H ctx t sem code_start s s1 k g sm sb se a}.
#[global] Arguments event_offset {buf realloc_ok malloc_ok H ctx t sem code_start total n s s1 k g op sm sb se}.
#[global] Arguments closed_annotation {buf realloc_ok malloc_ok H ctx t sem code_start total n s s1 k g sm sb se a A}.
#[global] Arguments turned_annotation {buf realloc_ok malloc_ok H ctx t sem code_start total n s s1 k g sm sb se a A}.
#[global] Arguments run_reader {buf realloc_ok malloc_ok H ctx t sem code_start s s' base stop}.
#[global] Arguments frames_entered {buf realloc_ok malloc_ok H ctx t sem code_start total n s0 s}.

End ValidatorPaths.
