(* ===== verification/ValidatorTrace.v ===== *)
(** * The instructions of an accepted body and their annotations

    The sequence of instructions the validator decodes, the bracket structure
    that the opcodes alone determine, and the proof that the annotations the
    validator leaves for the interpreter are exactly that structure. *)

From S2P Require Import Prelude Reader Types TypeEq TypeReader Context Validator ValidatorSteps ValidatorFrames ValidatorRun.

Module ValidatorTrace.
Import Reader Types TypeEq TypeReader Context Validator ValidatorSteps ValidatorFrames ValidatorRun.

(** ** Instructions and brackets *)

(** An instruction: the offset of its opcode in the code, the opcode, and the
    offset behind its immediates. *)
Record instruction := mk_instruction { at_offset : Z; opcode_of : Z; next_offset : Z }.

(** The offset of the end that closes a frame after [depth] inner ones. *)
Fixpoint end_after (depth : nat) (tr : list instruction) : option Z :=
  match tr with
  | [] => None
  | i :: rest =>
      match bracket_of (opcode_of i), depth with
      | Opens _, _ => end_after (S depth) rest
      | Closes, O => Some (at_offset i)
      | Closes, S d => end_after d rest
      | _, _ => end_after depth rest
      end
  end.

(** The offset of the else of that frame, if there is one. *)
Fixpoint else_after (depth : nat) (tr : list instruction) : option Z :=
  match tr with
  | [] => None
  | i :: rest =>
      match bracket_of (opcode_of i), depth with
      | Opens _, _ => else_after (S depth) rest
      | Turns, O => Some (at_offset i)
      | Closes, O => None
      | Closes, S d => else_after d rest
      | _, _ => else_after depth rest
      end
  end.

(** One entry per instruction that opens a frame: its kind, its opcode, its
    body, its else and its end. *)
Fixpoint brackets (tr : list instruction) : list (turbowasm_validation_control_kind * Z * Z * Z * option Z) :=
  match tr with
  | [] => []
  | i :: rest =>
      match bracket_of (opcode_of i) with
      | Opens kind => (kind, at_offset i, next_offset i, default UINT32_MAX (else_after 0 rest), end_after 0 rest) :: brackets rest
      | _ => brackets rest
      end
  end.

Definition entry (a : turbowasm_validation_control) :=
  (control_kind a, opcode_offset a, body_offset a, else_offset a, Some (end_offset a)).

(** The instructions follow one another from [from] to [to] in the code at
    [base]. *)
Fixpoint tiles (buf : list Z) (base from to : Z) (tr : list instruction) : Prop :=
  match tr with
  | [] => from = to
  | i :: rest => at_offset i = from /\ opcode_of i = byte_at buf (base + from) /\ from < next_offset i /\
      tiles buf base (next_offset i) to rest
  end.

(** ** The trace of a run *)

Section Trace.
Context (buf : list Z) (realloc_ok malloc_ok : Z -> bool).
Context (H : type_heap) (ctx : turbowasm_validation_context).
Context (function_type : turbowasm_validation_func_type)
        (semantics : list turbowasm_validation_value_type) (code_start : option Z).

Abbreviation offset := (code_offset code_start).
Abbreviation left s := (turbowasm_reader_remaining (v_reader s)).
Abbreviation step := (dispatch buf realloc_ok malloc_ok H ctx function_type semantics code_start).
Abbreviation inv := (vinv function_type code_start).

(** [trace s tr s']: from [s] the loop decodes the instructions [tr] and ends
    in [s']. *)
Inductive trace : vstate -> list instruction -> vstate -> Prop :=
  | trace_final op s sb s' : byte buf s = (inr op, sb) -> step op sb = (inr true, s') ->
      trace s [mk_instruction (offset s) op (offset s')] s'
  | trace_step op s sb s1 tr s' : byte buf s = (inr op, sb) -> step op sb = (inr false, s1) -> trace s1 tr s' ->
      trace s (mk_instruction (offset s) op (offset s1) :: tr) s'.

Lemma run_trace s s1 s' : rtc (vstep buf realloc_ok malloc_ok H ctx function_type semantics code_start) s s1 ->
  vfinal buf realloc_ok malloc_ok H ctx function_type semantics code_start s1 s' -> exists tr, trace s tr s'.
Proof.
  induction 1 as [s|s s2 s3 (op & sb & Eb & E) _ IH]; intros Hf.
  - destruct Hf as (op & sb & Eb & E). eexists. by eapply trace_final.
  - destruct (IH Hf) as [tr Htr]. eexists. by eapply trace_step.
Qed.

Lemma byte_value s op sb : byte buf s = (inr op, sb) ->
  exists c, cursor (v_reader s) = Some c /\ op = byte_at buf c.
Proof.
  unfold byte. intros (r & Er & _)%lift_inv. unfold decode, turbowasm_reader_u8 in Er.
  destruct (_ <? 1); [done|]. destruct (cursor (v_reader s)) as [c|]; [|done]. injection Er as <- _. by exists c.
Qed.

Lemma final_offset total n s op sb s' : inv total n s -> byte buf s = (inr op, sb) -> step op sb = (inr true, s') ->
  op = 0x0b /\ v_function s' = v_function s /\ tail (cframes (v_controls s)) = [] /\ offset s' = total /\ offset s < total.
Proof.
  intros Hv Eb E. assert (Hf : vfinal buf realloc_ok malloc_ok H ctx function_type semantics code_start s s') by (by exists op, sb).
  destruct (vfinal_inv _ _ _ _ _ _ _ _ _ _ _ _ Hv Hf) as (s1 & Eb1 & Hs1 & Hl & _ & Hfn & Er & f0 & Hf0).
  rewrite Eb in Eb1. injection Eb1 as -> ->. split_and!; [done|done|by rewrite Hf0| |];
    destruct (vi_size _ _ _ _ _ Hv) as (_ & Hsz & _); [|lia].
  apply (st_plain _ (stays_result_stack _ _)), pl_reader in Er. destruct (opcode_read code_start s) as [Ho Hr]; [lia|].
  destruct (offset_moved code_start _ _ Er) as (d & Hd & Ho' & Hl'). rewrite Hs1 in Ho', Hl'.
  pose proof (remaining_nonneg (v_reader s')). lia.
Qed.

Lemma trace_tiles total n base s tr s' : code_start = Some base -> trace s tr s' -> inv total n s ->
  tiles buf base (offset s) total tr.
Proof.
  intros Hb. induction 1 as [op s sb s' Eb E|op s sb s1 tr s' Eb E _ IH]; intros Hv; simpl;
    destruct (byte_value _ _ _ Eb) as (c & Hc & ->).
  - destruct (final_offset _ _ _ _ _ _ Hv Eb E) as (_ & _ & _ & Ho & Hlt). split_and!; [done| |lia|lia].
    f_equal. unfold code_offset. rewrite Hb, Hc. simpl. lia.
  - assert (Hst : vstep buf realloc_ok malloc_ok H ctx function_type semantics code_start s s1) by (by eexists _, _).
    pose proof (vstep_vinv _ _ _ _ _ _ _ _ _ _ _ _ Hst Hv) as Hv1. split_and!; [done| | |by apply IH].
    + f_equal. unfold code_offset. rewrite Hb, Hc. simpl. lia.
    + apply vstep_consumes in Hst. destruct (vi_size _ _ _ _ _ Hv) as (_ & ? & _).
      destruct (vi_size _ _ _ _ _ Hv1) as (_ & ? & _). lia.
Qed.

(** ** Annotations along a run *)

(** The annotations that are left to be written at [s], before the instructions
    [tr], against those at the end: closed ones keep, the one of a frame with
    [depth] inner ones gets its else and its end from [tr]. *)
Record completes (s : vstate) (tr : list instruction) (cs' : list turbowasm_validation_control) : Prop := {
  cm_old : forall i a, controls_of (v_function s) !! i = Some a -> exists a', cs' !! i = Some a' /\
    control_kind a' = control_kind a /\ opcode_offset a' = opcode_offset a /\ body_offset a' = body_offset a /\
    (end_offset a <> UINT32_MAX -> a' = a) /\
    forall k f, tail (cframes (v_controls s)) !! k = Some f -> annotation_index f = Z.of_nat i ->
      let depth := (length (tail (cframes (v_controls s))) - S k)%nat in
      end_after depth tr = Some (end_offset a') /\
      else_offset a' = default (else_offset a) (else_after depth tr) /\
      (else_seen f = true -> else_after depth tr = None);
  cm_new : map entry (drop (length (controls_of (v_function s))) cs') = brackets tr
}.

Lemma completes_plain s s1 i tr cs' : bracket_of (opcode_of i) = Neutral ->
  controls_of (v_function s1) = controls_of (v_function s) -> cframes (v_controls s1) = cframes (v_controls s) ->
  completes s1 tr cs' -> completes s (i :: tr) cs'.
Proof. intros Hb Hc Hf [H1 H2]. rewrite Hc, Hf in *. split; simpl; by rewrite ?Hb. Qed.

Lemma completes_opens s s1 i tr cs' f a : bracket_of (opcode_of i) = Opens (control_kind a) -> else_seen f = false ->
  tail (cframes (v_controls s1)) = tail (cframes (v_controls s)) ++ [f] ->
  controls_of (v_function s1) = controls_of (v_function s) ++ [a] ->
  annotation_index f = Z.of_nat (length (controls_of (v_function s))) ->
  opcode_offset a = at_offset i -> body_offset a = next_offset i -> else_offset a = UINT32_MAX ->
  completes s1 tr cs' -> completes s (i :: tr) cs'.
Proof.
  intros Hb Hes Hf Hc Hix Hop Hbo Hel [H1 H2]. rewrite Hf, Hc in *. rewrite length_app in *. simpl in *. split; simpl; rewrite ?Hb.
  - intros j b Hj. destruct (H1 j b) as (b' & Hb' & E1 & E2 & E3 & E4 & E5); [by apply lookup_app_l_Some|].
    exists b'. split_and!; try done. intros k g Hg Hgi. pose proof (lookup_lt_Some _ _ _ Hg) as Hlt.
    destruct (E5 k g) as (X1 & X2 & X3); [by apply lookup_app_l_Some|done|].
    replace (length (tail (cframes (v_controls s))) + 1 - S k)%nat with (S (length (tail (cframes (v_controls s))) - S k)) in X1, X2, X3 by lia.
    done.
  - destruct (H1 (length (controls_of (v_function s))) a) as (a' & Ha' & E1 & E2 & E3 & _ & E5);
      [by rewrite lookup_app_r, Nat.sub_diag by lia|].
    destruct (E5 (length (tail (cframes (v_controls s)))) f) as (X1 & X2 & X3);
      [by rewrite lookup_app_r, Nat.sub_diag by lia|done|].
    replace (length (tail (cframes (v_controls s))) + 1 - S (length (tail (cframes (v_controls s)))))%nat with 0%nat in X1, X2 by lia.
    rewrite (drop_S _ a') by done. simpl. rewrite <- H2, Nat.add_1_r. unfold entry at 1. by rewrite E1, E2, E3, X1, X2, Hop, Hbo, Hel.
Qed.

Lemma innermost_last gs f cs cur k g : ainv (gs ++ [f]) cs cur -> gs !! k = Some g -> annotation_index g < annotation_index f.
Proof.
  intros Hai Hg. apply (ai_order _ _ _ Hai k (length gs)); [by eapply lookup_lt_Some|by apply lookup_app_l_Some|].
  by rewrite lookup_app_r, Nat.sub_diag by lia.
Qed.

Lemma completes_turns s s1 i tr cs' gs f a : bracket_of (opcode_of i) = Turns -> else_seen f = false ->
  ainv (gs ++ [f]) (controls_of (v_function s)) (at_offset i) ->
  tail (cframes (v_controls s)) = gs ++ [f] -> tail (cframes (v_controls s1)) = gs ++ [with_else_seen f] ->
  controls_of (v_function s) !! Z.to_nat (annotation_index f) = Some a ->
  controls_of (v_function s1) = <[Z.to_nat (annotation_index f) := with_else_offset (at_offset i) a]> (controls_of (v_function s)) ->
  completes s1 tr cs' -> completes s (i :: tr) cs'.
Proof.
  intros Hb Hes Hai Hf Hf1 Ha Hc [H1 H2]. rewrite Hf1, Hc in H1. rewrite Hc, length_insert in H2. rewrite length_app in H1. simpl in H1.
  set (ix := Z.to_nat (annotation_index f)) in *. pose proof (lookup_lt_Some _ _ _ Ha) as Hlt.
  destruct (ai_open _ _ _ Hai (length gs) f) as (Hix0 & a0 & Ha0 & Hen & _); [by rewrite lookup_app_r, Nat.sub_diag by lia|].
  fold ix in Ha0. assert (a0 = a) as -> by congruence.
  split; simpl; rewrite ?Hb, ?Hf, ?length_app; simpl; [|done].
  intros j b Hj. destruct (decide (j = ix)) as [->|Hne].
  - assert (b = a) as -> by congruence. destruct (H1 ix (with_else_offset (at_offset i) a)) as (a' & Ha' & E1 & E2 & E3 & _ & E5);
      [by rewrite list_lookup_insert_eq|].
    exists a'. split_and!; [done..|by rewrite Hen|]. intros k g [Hg|[-> ->]]%lookup_snoc_inv Hgi.
    + apply (innermost_last _ _ _ _ _ _ Hai) in Hg. unfold ix in Hgi. lia.
    + destruct (E5 (length gs) (with_else_seen f)) as (X1 & X2 & X3); [by rewrite lookup_app_r, Nat.sub_diag by lia|done|].
      replace (length gs + 1 - S (length gs))%nat with 0%nat in * by lia. rewrite (X3 eq_refl) in X2. simpl in X2.
      split_and!; [done|done|congruence].
  - destruct (H1 j b) as (b' & Hb' & E1 & E2 & E3 & E4 & E5); [by rewrite list_lookup_insert_ne|].
    exists b'. split_and!; try done. intros k g [Hg|[-> ->]]%lookup_snoc_inv Hgi; [|unfold ix in Hne; lia].
    pose proof (lookup_lt_Some _ _ _ Hg). destruct (E5 k g) as (X1 & X2 & X3); [by apply lookup_app_l_Some|done|].
    destruct (length gs + 1 - S k)%nat eqn:Ed; [lia|]. done.
Qed.

Lemma completes_closes s s1 i tr cs' gs f a : bracket_of (opcode_of i) = Closes -> at_offset i <> UINT32_MAX ->
  ainv (gs ++ [f]) (controls_of (v_function s)) (at_offset i) ->
  tail (cframes (v_controls s)) = gs ++ [f] -> tail (cframes (v_controls s1)) = gs ->
  controls_of (v_function s) !! Z.to_nat (annotation_index f) = Some a ->
  controls_of (v_function s1) = <[Z.to_nat (annotation_index f) := with_end_offset (at_offset i) a]> (controls_of (v_function s)) ->
  completes s1 tr cs' -> completes s (i :: tr) cs'.
Proof.
  intros Hb Hmax Hai Hf Hf1 Ha Hc [H1 H2]. rewrite Hf1, Hc in H1. rewrite Hc, length_insert in H2.
  set (ix := Z.to_nat (annotation_index f)) in *. pose proof (lookup_lt_Some _ _ _ Ha) as Hlt.
  destruct (ai_open _ _ _ Hai (length gs) f) as (Hix0 & a0 & Ha0 & Hen & _); [by rewrite lookup_app_r, Nat.sub_diag by lia|].
  fold ix in Ha0. assert (a0 = a) as -> by congruence.
  split; simpl; rewrite ?Hb, ?Hf, ?length_app; simpl; [|done].
  intros j b Hj. destruct (decide (j = ix)) as [->|Hne].
  - assert (b = a) as -> by congruence. destruct (H1 ix (with_end_offset (at_offset i) a)) as (a' & Ha' & E1 & E2 & E3 & E4 & _);
      [by rewrite list_lookup_insert_eq|].
    specialize (E4 Hmax) as ->. eexists. split_and!; [done..|by rewrite Hen|]. intros k g [Hg|[-> ->]]%lookup_snoc_inv Hgi.
    + apply (innermost_last _ _ _ _ _ _ Hai) in Hg. unfold ix in Hgi. lia.
    + by replace (length gs + 1 - S (length gs))%nat with 0%nat by lia.
  - destruct (H1 j b) as (b' & Hb' & E1 & E2 & E3 & E4 & E5); [by rewrite list_lookup_insert_ne|].
    exists b'. split_and!; try done. intros k g [Hg|[-> ->]]%lookup_snoc_inv Hgi; [|unfold ix in Hne; lia].
    pose proof (lookup_lt_Some _ _ _ Hg). destruct (E5 k g) as (X1 & X2 & X3); [done..|].
    replace (length gs + 1 - S k)%nat with (S (length gs - S k)) by lia. done.
Qed.

Lemma trace_completes total n s tr s' : trace s tr s' -> inv total n s -> completes s tr (controls_of (v_function s')).
Proof.
  induction 1 as [op s sb s' Eb E|op s sb s1 tr s' Eb E _ IH]; intros Hv.
  - destruct (final_offset _ _ _ _ _ _ Hv Eb E) as (-> & -> & Hfr & _). split; simpl; [|by rewrite drop_all].
    intros i a Hi. exists a. split_and!; try done. intros k f Hf. by rewrite Hfr in Hf.
  - assert (Hst : vstep buf realloc_ok malloc_ok H ctx function_type semantics code_start s s1) by (by eexists _, _).
    pose proof (vstep_vinv _ _ _ _ _ _ _ _ _ _ _ _ Hst Hv) as Hv1. specialize (IH Hv1).
    destruct (byte_inv _ _ _ _ Eb) as [Hsb Hl]. destruct (opcode_read code_start s Hl) as [Ho1 _]. rewrite <- Hsb in Ho1.
    destruct (vi_size _ _ _ _ _ Hv) as (? & ? & ?).
    destruct (vi_bottom _ _ _ _ _ Hv) as (f0 & fs & Hfs & Hk0 & _ & _ & _ & Ha).
    destruct (dispatch_shape _ _ _ _ _ _ _ _ _ _ _ E) as [Hb Hp|f a Hb Ho|gs f a -> Ho|gs f a -> Ho].
    + eapply completes_plain; [done|by rewrite (pl_function _ _ Hp), Hsb|by rewrite (pl_frames _ _ Hp), Hsb|done].
    + destruct (op_controls _ _ _ _ _ Ho) as (Hc & Hix & _). pose proof (op_frames _ _ _ _ _ Ho) as Hfr.
      eapply (completes_opens _ _ _ _ _ f a); try done; rewrite ?Hfr, ?Hsb; simpl; rewrite ?Hfs.
      * apply Ho.
      * done.
      * by rewrite Hc, Hsb.
      * by rewrite Hix, Hsb.
      * destruct (op_opcode _ _ _ _ _ Ho) as [-> _]. lia.
      * by destruct (op_body _ _ _ _ _ Ho) as [-> _].
      * apply Ho.
    + pose proof (tu_before _ _ _ _ _ _ Ho) as Hbef. rewrite Hsb in Hbef. simpl in Hbef.
      destruct (frames_views _ _ _ _ _ Hfs Hbef) as [(_ & _ & ->)|(hs & -> & ->)]; [by rewrite (tu_kind _ _ _ _ _ _ Ho) in Hk0|].
      destruct (tu_index _ _ _ _ _ _ Ho) as [_ Hix].
      eapply (completes_turns _ _ _ _ _ hs f a); try done; simpl.
      * apply Ho.
      * by rewrite Hfs.
      * by rewrite (tu_after _ _ _ _ _ _ Ho).
      * by rewrite Hsb in Hix.
      * rewrite (tu_function _ _ _ _ _ _ Ho). simpl. rewrite Ho1, Hsb. simpl. by replace (offset s + 1 - 1) with (offset s) by lia.
    + pose proof (cl_before _ _ _ _ _ _ Ho) as Hbef. rewrite Hsb in Hbef. simpl in Hbef.
      destruct (frames_views _ _ _ _ _ Hfs Hbef) as [(_ & _ & ->)|(hs & -> & ->)]; [by destruct (cl_kind _ _ _ _ _ _ Ho)|].
      destruct (cl_index _ _ _ _ _ _ Ho) as [_ Hix].
      eapply (completes_closes _ _ _ _ _ hs f a); try done; simpl.
      * lia.
      * by rewrite Hfs.
      * by rewrite (cl_after _ _ _ _ _ _ Ho).
      * by rewrite Hsb in Hix.
      * rewrite (cl_function _ _ _ _ _ _ Ho). simpl. rewrite Ho1, Hsb. simpl. by replace (offset s + 1 - 1) with (offset s) by lia.
Qed.

End Trace.

(** The instructions of an accepted body: those of the run that accepted it. *)
Definition decoded (buf : list Z) (realloc_ok malloc_ok : Z -> bool) (H : type_heap) (ctx : turbowasm_validation_context)
    (body : turbowasm_reader) (function_index : Z) (F : turbowasm_validation_function) (tr : list instruction) : Prop :=
  exists t f locals sem r s0 s1 s2, accepted_run buf realloc_ok malloc_ok H ctx body function_index F t f locals sem r s0 s1 s2 /\
    trace buf realloc_ok malloc_ok H ctx t sem (cursor r) s0 tr s2.

Lemma closed_annotations cs cur : ainv [] cs cur -> cur <= UINT32_MAX ->
  (forall i a, cs !! i = Some a -> 0 <= opcode_offset a < body_offset a /\ body_offset a <= end_offset a < cur /\
     (else_offset a = UINT32_MAX \/ body_offset a <= else_offset a < end_offset a)) /\
  (forall i j a b, (i < j)%nat -> cs !! i = Some a -> cs !! j = Some b ->
     end_offset a < opcode_offset b \/ (body_offset a <= opcode_offset b /\ end_offset b < end_offset a)).
Proof.
  intros Ha Hcur. assert (Hclosed : forall i a, cs !! i = Some a -> end_offset a <> UINT32_MAX).
  { intros i a Hia Hun. destruct (ai_closed _ _ _ Ha i a Hia Hun) as (k & g & Hk & _). by rewrite lookup_nil in Hk. }
  split.
  - intros i a Hia. destruct (ai_ann _ _ _ Ha _ _ Hia) as [A1 A2 A3 A4]. specialize (A3 (Hclosed _ _ Hia)).
    split_and!; [lia..|]. destruct (decide (else_offset a = UINT32_MAX)) as [|Hne]; [by left|right]. destruct (A4 Hne) as [? B].
    specialize (B (Hclosed _ _ Hia)). lia.
  - intros i j a b Hij Hia Hjb. destruct (ai_nested _ _ _ Ha i j a b Hij Hia Hjb (Hclosed _ _ Hia)) as [?|[_ ?]]; [by left|right].
    split; [|done]. by eapply (ai_sorted _ _ _ Ha).
Qed.

(** ** Properties *)

(** C6. The annotations the validator leaves for the interpreter are complete and
    exact: the instructions an accepted body consists of tile its code, and the
    list of annotations is the list of its block, loop, if and try_table
    instructions in order, each with its kind, the offset of its opcode, the
    offset of its body, the offset of the else that belongs to it (none if there
    is none) and the offset of the end that closes it, as the nesting of the
    opcodes determines them. They lie inside the code, two of them are disjoint or
    nested, and looking one up by the offset of its opcode finds it. *)
Theorem annotations_complete buf realloc_ok malloc_ok H body ctx function_index ctx' rd f :
  turbowasm_validation_context_function ctx function_index = Some f -> 0 <= function_index ->
  controls_of f = [] ->
  turbowasm_validate_function_body buf realloc_ok malloc_ok H body ctx function_index = (TURBOWASM_OK, ctx', rd) ->
  exists F base tr, turbowasm_validation_context_function ctx' function_index = Some F /\
    decoded buf realloc_ok malloc_ok H ctx body function_index F tr /\
    code F = Some base /\ code_size F <= UINT32_MAX /\ tiles buf base 0 (code_size F) tr /\
    map entry (controls_of F) = brackets tr /\
    (forall a, a ∈ controls_of F ->
       0 <= opcode_offset a < body_offset a /\ body_offset a <= end_offset a < code_size F /\
       (else_offset a = UINT32_MAX \/ body_offset a <= else_offset a < end_offset a) /\
       turbowasm_validation_function_control_at F (opcode_offset a) = Some a) /\
    (forall i j a b, (i < j)%nat -> controls_of F !! i = Some a -> controls_of F !! j = Some b ->
       end_offset a < opcode_offset b \/ (body_offset a <= opcode_offset b /\ end_offset b < end_offset a)).
Proof.
  intros Hf Hi Hc E. destruct (body_accepted _ _ _ _ _ _ _ _ _ _ Hf Hi E) as (F & t & locals & sem & r & s0 & s1 & s2 & HF & Hr).
  pose proof Hr as [_ _ _ Hsz Hst Hrun Hfin HFeq].
  destruct (initial_vinv _ _ _ _ _ _ _ _ _ _ _ Hc eq_refl Hsz Hst) as (Hv0 & Hr0 & _ & _ & Hf0).
  pose proof (run_vinv _ _ _ _ _ _ _ _ _ _ _ _ Hrun Hv0) as Hv1.
  destruct (vfinal_inv _ _ _ _ _ _ _ _ _ _ _ _ Hv1 Hfin) as (sb & _ & _ & Hl & Ha & Hfn & _).
  destruct (run_trace _ _ _ _ _ _ _ _ _ _ _ Hrun Hfin) as [tr Htr].
  assert (exists base, cursor r = Some base) as [base Hb].
  { rewrite <- Hr0. inversion Htr; subst; destruct (byte_value _ _ _ _ ltac:(eassumption)) as (c & Hcur & _); by exists c. }
  exists F, base, tr. split; [done|]. split; [by exists t, f, locals, sem, r, s0, s1, s2|].
  destruct (vi_size _ _ _ _ _ Hv1) as (Ho1 & Ho2 & Ho3).
  destruct (closed_annotations _ _ Ha) as [Hall Hnest]; [lia|].
  rewrite HFeq. simpl. rewrite Hfn. split_and!; [done|done| | | |done].
  - replace 0 with (code_offset (cursor r) s0) by (unfold code_offset; rewrite Hr0; lia). by eapply trace_tiles.
  - pose proof (cm_new _ _ _ (trace_completes _ _ _ _ _ _ _ _ _ _ _ _ _ Htr Hv0)) as Hm. by rewrite Hf0, Hc, Hfn in Hm.
  - intros a [i Hia]%list_elem_of_lookup_1. destruct (Hall _ _ Hia) as (H1 & H2 & H3). split_and!; [lia..|done|].
    eapply (control_at_sorted _ i); [|done]. intros j k b c Hjk Hb' Hc'. by eapply (ai_sorted _ _ _ Ha).
Qed.

(** ** Witness *)

(** The if of the sample body: its opcode at 2, its body at 4, its else at 6, its
    end at 9. *)
Lemma annotations_complete_witness : exists ctx' r F base tr, sample_outcome = (TURBOWASM_OK, ctx', r) /\
  turbowasm_validation_context_function ctx' 0 = Some F /\ tiles sample_body base 0 (code_size F) tr /\
  brackets tr = [(VALIDATION_CONTROL_IF, 2, 4, 6, Some 9)].
Proof.
  destruct sample_controls as (ctx' & r & F & HE & HF & Hcs). exists ctx', r, F.
  destruct (annotations_complete sample_body (fun _ => true) (fun _ => true) sample_heap
    (turbowasm_reader_init (Some 0) 12) sample_context 0 ctx' r sample_function) as (F' & base & tr & HF' & _ & _ & _ & Ht & Hb & _);
    [reflexivity|lia|reflexivity|exact HE|].
  pose proof (Some_inj _ _ (eq_trans (eq_sym HF) HF')) as Heq. subst F'. exists base, tr.
  split; [exact HE|]. split; [exact HF|]. split; [exact Ht|]. rewrite Hcs in Hb. exact (eq_sym Hb).
Defined.

End ValidatorTrace.
