(* ===== verification/Unicode.v ===== *)
(** * UTF-8 (src/validate_linkage.c)

    The check of names in modules, against the encoding of Unicode scalar values
    that the Unicode standard defines. A pointer to the bytes is an offset into
    the buffer [buf]. *)

From S2P Require Import Prelude Reader.

Module Unicode.
Import Reader.

Local Ltac Zify.zify_post_hook ::= Z.div_mod_to_equations.

(** ** The check of the source *)

Definition turbowasm_utf8_cont (byte : Z) : bool := (byte >=? 0x80) && (byte <=? 0xbf).

Section Check.
Context (buf : list Z) (bytes size : Z).

Definition byte (i : Z) : Z := byte_at buf (bytes + i).

(** The [while] loop; every round consumes a byte. *)
Fixpoint utf8_loop (fuel : nat) (i : Z) : bool :=
  match fuel with
  | O => false
  | S fuel' =>
      if i <? size then
        let a := byte i in
        let i := i + 1 in
        if a <=? 0x7f then utf8_loop fuel' i
        else if (a >=? 0xc2) && (a <=? 0xdf) then
          if (i >=? size) || negb (turbowasm_utf8_cont (byte i)) then false
          else utf8_loop fuel' (i + 1)
        else if a =? 0xe0 then
          if (i + 1 >=? size) || (byte i <? 0xa0) || (byte i >? 0xbf) ||
             negb (turbowasm_utf8_cont (byte (i + 1))) then false
          else utf8_loop fuel' (i + 2)
        else if ((a >=? 0xe1) && (a <=? 0xec)) || ((a >=? 0xee) && (a <=? 0xef)) then
          if (i + 1 >=? size) || negb (turbowasm_utf8_cont (byte i)) ||
             negb (turbowasm_utf8_cont (byte (i + 1))) then false
          else utf8_loop fuel' (i + 2)
        else if a =? 0xed then
          if (i + 1 >=? size) || (byte i <? 0x80) || (byte i >? 0x9f) ||
             negb (turbowasm_utf8_cont (byte (i + 1))) then false
          else utf8_loop fuel' (i + 2)
        else if a =? 0xf0 then
          if (i + 2 >=? size) || (byte i <? 0x90) || (byte i >? 0xbf) ||
             negb (turbowasm_utf8_cont (byte (i + 1))) || negb (turbowasm_utf8_cont (byte (i + 2))) then false
          else utf8_loop fuel' (i + 3)
        else if (a >=? 0xf1) && (a <=? 0xf3) then
          if (i + 2 >=? size) || negb (turbowasm_utf8_cont (byte i)) ||
             negb (turbowasm_utf8_cont (byte (i + 1))) || negb (turbowasm_utf8_cont (byte (i + 2))) then false
          else utf8_loop fuel' (i + 3)
        else if a =? 0xf4 then
          if (i + 2 >=? size) || (byte i <? 0x80) || (byte i >? 0x8f) ||
             negb (turbowasm_utf8_cont (byte (i + 1))) || negb (turbowasm_utf8_cont (byte (i + 2))) then false
          else utf8_loop fuel' (i + 3)
        else false
      else true
  end.

Definition turbowasm_utf8_valid : bool := utf8_loop (S (Z.to_nat size)) 0.

End Check.

(** ** The encoding form *)

(** Unicode scalar values: code points that are not surrogates. *)
Definition scalar (c : Z) : Prop := 0 <= c < 0xd800 \/ 0xe000 <= c < 0x110000.

Definition trail (c : Z) : Z := 0x80 + c mod 64.

Definition utf8 (c : Z) : list Z :=
  if c <? 0x80 then [c]
  else if c <? 0x800 then [0xc0 + c / 64; trail c]
  else if c <? 0x10000 then [0xe0 + c / 4096; trail (c / 64); trail c]
  else [0xf0 + c / 262144; trail (c / 4096); trail (c / 64); trail c].

(** A well-formed sequence of code units. *)
Definition text (l : list Z) : Prop := exists cs, Forall scalar cs /\ l = concat (map utf8 cs).

Definition cont (b : Z) : Prop := 0x80 <= b <= 0xbf.

Lemma text_nil : text [].
Proof. by exists []. Qed.

Lemma text_app c l : scalar c -> text l -> text (utf8 c ++ l).
Proof. intros Hc (cs & Hs & ->). exists (c :: cs). split; [by constructor|done]. Qed.

Lemma text_inv a l : text (a :: l) -> exists c k, scalar c /\ a :: l = utf8 c ++ k /\ text k.
Proof.
  intros ([|c cs] & Hs & E); [done|]. inversion Hs; subst. exists c, (concat (map utf8 cs)).
  split; [done|]. split; [done|]. by exists cs.
Qed.

(** The four shapes of an encoded scalar value, read off its first byte. *)
Lemma utf8_shape c a l k : scalar c -> a :: l = utf8 c ++ k ->
  (0 <= a <= 0x7f /\ l = k) \/
  (0xc2 <= a <= 0xdf /\ exists b, l = b :: k /\ cont b) \/
  (0xe0 <= a <= 0xef /\ exists b d, l = b :: d :: k /\ cont b /\ cont d /\
     (a = 0xe0 -> 0xa0 <= b) /\ (a = 0xed -> b <= 0x9f)) \/
  (0xf0 <= a <= 0xf4 /\ exists b d e, l = b :: d :: e :: k /\ cont b /\ cont d /\ cont e /\
     (a = 0xf0 -> 0x90 <= b) /\ (a = 0xf4 -> b <= 0x8f)).
Proof.
  unfold utf8, trail, cont, scalar. intros Hc.
  destruct (Z.ltb_spec c 0x80) as [H1|H1]; [|destruct (Z.ltb_spec c 0x800) as [H2|H2]; [|destruct (Z.ltb_spec c 0x10000) as [H3|H3]]];
    simpl; intros E; injection E as -> ->.
  - left. split; [lia|done].
  - right. left. split; [lia|]. eexists. split; [done|lia].
  - right. right. left. split; [lia|]. do 2 eexists. split; [done|]. lia.
  - right. right. right. split; [lia|]. do 3 eexists. split; [done|]. lia.
Qed.

Lemma text_one a l : 0 <= a <= 0x7f -> text (a :: l) <-> text l.
Proof.
  intros Ha. split.
  - intros (c & k & Hc & E & Hk)%text_inv.
    destruct (utf8_shape _ _ _ _ Hc E) as [[_ ->]|[[]|[[]|[]]]]; [done|lia..].
  - intros Hl. replace (a :: l) with (utf8 a ++ l); [apply text_app; [unfold scalar; lia|done]|].
    unfold utf8. by destruct (Z.ltb_spec a 0x80); [|lia].
Qed.

Lemma text_two a l : 0xc2 <= a <= 0xdf -> text (a :: l) <-> exists b k, l = b :: k /\ cont b /\ text k.
Proof.
  intros Ha. split.
  - intros (c & k & Hc & E & Hk)%text_inv.
    destruct (utf8_shape _ _ _ _ Hc E) as [[]|[[_ (b & -> & Hb)]|[[]|[]]]]; [lia| |lia..]. by exists b, k.
  - intros (b & k & -> & Hb & Hk). unfold cont in Hb.
    replace (a :: b :: k) with (utf8 ((a - 0xc0) * 64 + (b - 0x80)) ++ k); [apply text_app; [unfold scalar; lia|done]|].
    unfold utf8, trail. destruct (Z.ltb_spec ((a - 0xc0) * 64 + (b - 0x80)) 0x80); [lia|].
    destruct (Z.ltb_spec ((a - 0xc0) * 64 + (b - 0x80)) 0x800); [|lia]. simpl. repeat f_equal; lia.
Qed.

Lemma text_three a l : 0xe0 <= a <= 0xef ->
  text (a :: l) <-> exists b d k, l = b :: d :: k /\ cont b /\ cont d /\
    (a = 0xe0 -> 0xa0 <= b) /\ (a = 0xed -> b <= 0x9f) /\ text k.
Proof.
  intros Ha. split.
  - intros (c & k & Hc & E & Hk)%text_inv.
    destruct (utf8_shape _ _ _ _ Hc E) as [[]|[[]|[[_ (b & d & -> & Hb & Hd & H1 & H2)]|[]]]]; [lia..| |lia].
    by exists b, d, k.
  - intros (b & d & k & -> & Hb & Hd & H1 & H2 & Hk). unfold cont in Hb, Hd.
    set (c := (a - 0xe0) * 4096 + (b - 0x80) * 64 + (d - 0x80)).
    replace (a :: b :: d :: k) with (utf8 c ++ k); [apply text_app; [unfold scalar, c; lia|done]|].
    unfold utf8, trail. destruct (Z.ltb_spec c 0x80); [lia|].
    destruct (Z.ltb_spec c 0x800); [lia|]. destruct (Z.ltb_spec c 0x10000); [|lia]. simpl. unfold c. repeat f_equal; lia.
Qed.

Lemma text_four a l : 0xf0 <= a <= 0xf4 ->
  text (a :: l) <-> exists b d e k, l = b :: d :: e :: k /\ cont b /\ cont d /\ cont e /\
    (a = 0xf0 -> 0x90 <= b) /\ (a = 0xf4 -> b <= 0x8f) /\ text k.
Proof.
  intros Ha. split.
  - intros (c & k & Hc & E & Hk)%text_inv.
    destruct (utf8_shape _ _ _ _ Hc E) as [[]|[[]|[[]|[_ (b & d & e & -> & Hb & Hd & He & H1 & H2)]]]]; [lia..|].
    by exists b, d, e, k.
  - intros (b & d & e & k & -> & Hb & Hd & He & H1 & H2 & Hk). unfold cont in Hb, Hd, He.
    set (c := (a - 0xf0) * 262144 + (b - 0x80) * 4096 + (d - 0x80) * 64 + (e - 0x80)).
    replace (a :: b :: d :: e :: k) with (utf8 c ++ k); [apply text_app; [unfold scalar, c; lia|done]|].
    unfold utf8, trail. destruct (Z.ltb_spec c 0x80); [lia|].
    destruct (Z.ltb_spec c 0x800); [lia|]. destruct (Z.ltb_spec c 0x10000); [lia|]. simpl. unfold c. repeat f_equal; lia.
Qed.

Lemma text_first a l : text (a :: l) -> 0 <= a <= 0x7f \/ 0xc2 <= a <= 0xdf \/ 0xe0 <= a <= 0xef \/ 0xf0 <= a <= 0xf4.
Proof. intros (c & k & Hc & E & Hk)%text_inv. destruct (utf8_shape _ _ _ _ Hc E) as [[]|[[]|[[]|[]]]]; lia. Qed.

(** ** The check decides well-formedness *)

(** The [size] bytes at the offset [bytes]. *)
Definition span (buf : list Z) (bytes size : Z) : list Z := take (Z.to_nat size) (drop (Z.to_nat bytes) buf).

Lemma cont_spec b : turbowasm_utf8_cont b = true <-> cont b.
Proof. unfold turbowasm_utf8_cont, cont. rewrite andb_true_iff, Z.geb_leb, !Z.leb_le. lia. Qed.

Lemma cont_refused b : negb (turbowasm_utf8_cont b) = false <-> cont b.
Proof. rewrite negb_false_iff. apply cont_spec. Qed.

Section Decides.
Context (buf : list Z) (bytes size : Z).
Context (Hbuf : Forall (fun b => 0 <= b < 256) buf) (Hb : 0 <= bytes) (Hin : bytes + size <= Z.of_nat (length buf)).

(** What is left to check from position [i] on. *)
Definition rest (i : Z) : list Z := drop (Z.to_nat i) (span buf bytes size).

Lemma span_length : length (span buf bytes size) = Z.to_nat size.
Proof. unfold span. rewrite length_take, length_drop. lia. Qed.

Lemma rest_length i : 0 <= i -> Z.of_nat (length (rest i)) = Z.max 0 (size - i).
Proof. intros Hi. unfold rest. rewrite length_drop, span_length. lia. Qed.

Lemma rest_cons i : 0 <= i < size -> rest i = byte buf bytes i :: rest (i + 1).
Proof.
  intros Hi. unfold rest. replace (Z.to_nat (i + 1)) with (S (Z.to_nat i)) by lia.
  assert (Hl : span buf bytes size !! Z.to_nat i = Some (byte buf bytes i)).
  { unfold span, byte, byte_at. rewrite lookup_take_lt, lookup_drop by lia.
    replace (Z.to_nat (bytes + i)) with (Z.to_nat bytes + Z.to_nat i)%nat by lia.
    destruct (buf !! (Z.to_nat bytes + Z.to_nat i)%nat) eqn:E; [done|]. apply lookup_ge_None in E. lia. }
  by rewrite (drop_S _ _ _ Hl).
Qed.

Lemma rest_end i : size <= i -> rest i = [].
Proof. intros Hi. unfold rest. apply drop_ge. rewrite span_length. lia. Qed.

Lemma byte_bound i : 0 <= i < size -> 0 <= byte buf bytes i < 256.
Proof.
  intros Hi. unfold byte, byte_at. destruct (buf !! Z.to_nat (bytes + i)) as [b|] eqn:E; simpl; [|lia].
  rewrite Forall_lookup in Hbuf. by apply (Hbuf _ _ E).
Qed.

(** The end of a sequence of [n] more bytes, as the source tests it. *)
Lemma rest_short i n : 0 <= i -> size <= i + Z.of_nat n -> (length (rest i) <= n)%nat.
Proof. intros Hi H. pose proof (rest_length i Hi). lia. Qed.

Lemma rest_two i : 0 <= i -> i + 1 < size -> rest i = byte buf bytes i :: byte buf bytes (i + 1) :: rest (i + 2).
Proof. intros H1 H2. rewrite rest_cons by lia. rewrite (rest_cons (i + 1)) by lia. do 3 f_equal. lia. Qed.

Lemma rest_three i : 0 <= i -> i + 2 < size ->
  rest i = byte buf bytes i :: byte buf bytes (i + 1) :: byte buf bytes (i + 2) :: rest (i + 3).
Proof. intros H1 H2. rewrite rest_two by lia. rewrite (rest_cons (i + 2)) by lia. do 4 f_equal. lia. Qed.

(** One round of the loop: the source gives up ([bad]) exactly when the bytes
    after the first are not those of an encoded scalar value. *)
Lemma step_two i a (bad next : bool) : 0 <= i -> 0xc2 <= a <= 0xdf ->
  (bad = false <-> i < size /\ cont (byte buf bytes i)) ->
  (next = true <-> text (rest (i + 1))) -> ((if bad then false else next) = true <-> text (a :: rest i)).
Proof.
  intros Hi Ha Hbad Hn. rewrite (text_two a _ Ha). destruct bad.
  - split; [done|]. intros (b & k & E & Hc & _). destruct (Z.lt_ge_cases i size); [|by rewrite rest_end in E by lia].
    rewrite rest_cons in E by lia. injection E as <- <-. discriminate (proj2 Hbad (conj H Hc)).
  - destruct (proj1 Hbad eq_refl) as [Hlt Hc]. rewrite rest_cons, Hn by lia. split; [by eauto|].
    intros (b & k & E & _ & Hk). by injection E as <- <-.
Qed.

Lemma step_three i a (bad next : bool) : 0 <= i -> 0xe0 <= a <= 0xef ->
  (bad = false <-> i + 1 < size /\ cont (byte buf bytes i) /\ cont (byte buf bytes (i + 1)) /\
     (a = 0xe0 -> 0xa0 <= byte buf bytes i) /\ (a = 0xed -> byte buf bytes i <= 0x9f)) ->
  (next = true <-> text (rest (i + 2))) -> ((if bad then false else next) = true <-> text (a :: rest i)).
Proof.
  intros Hi Ha Hbad Hn. rewrite (text_three a _ Ha). destruct bad.
  - split; [done|]. intros (b & d & k & E & H1 & H2 & H3 & H4 & _). destruct (Z.lt_ge_cases (i + 1) size) as [Hl|Hl].
    + rewrite rest_two in E by lia. injection E as <- <- <-. discriminate (proj2 Hbad ltac:(tauto)).
    + pose proof (rest_short i 1 Hi ltac:(lia)) as Hr. rewrite E in Hr. simpl in Hr. lia.
  - destruct (proj1 Hbad eq_refl) as (Hlt & H1 & H2 & H3 & H4). rewrite rest_two, Hn by lia. split; [by eauto 10|].
    intros (b & d & k & E & _ & _ & _ & _ & Hk). by injection E as <- <- <-.
Qed.

Lemma step_four i a (bad next : bool) : 0 <= i -> 0xf0 <= a <= 0xf4 ->
  (bad = false <-> i + 2 < size /\ cont (byte buf bytes i) /\ cont (byte buf bytes (i + 1)) /\
     cont (byte buf bytes (i + 2)) /\ (a = 0xf0 -> 0x90 <= byte buf bytes i) /\ (a = 0xf4 -> byte buf bytes i <= 0x8f)) ->
  (next = true <-> text (rest (i + 3))) -> ((if bad then false else next) = true <-> text (a :: rest i)).
Proof.
  intros Hi Ha Hbad Hn. rewrite (text_four a _ Ha). destruct bad.
  - split; [done|]. intros (b & d & e & k & E & H1 & H2 & H3 & H4 & H5 & _). destruct (Z.lt_ge_cases (i + 2) size) as [Hl|Hl].
    + rewrite rest_three in E by lia. injection E as <- <- <- <-. discriminate (proj2 Hbad ltac:(tauto)).
    + pose proof (rest_short i 2 Hi ltac:(lia)) as Hr. rewrite E in Hr. simpl in Hr. lia.
  - destruct (proj1 Hbad eq_refl) as (Hlt & H1 & H2 & H3 & H4 & H5). rewrite rest_three, Hn by lia. split; [by eauto 12|].
    intros (b & d & e & k & E & _ & _ & _ & _ & _ & Hk). by injection E as <- <- <- <-.
Qed.

(** The condition under which a round goes on, from the boolean of the source. *)
Local Ltac bounds := unfold turbowasm_utf8_cont, cont;
  repeat rewrite ?orb_false_iff, ?negb_false_iff, ?andb_true_iff, ?Z.geb_leb, ?Z.gtb_ltb, ?Z.leb_gt, ?Z.ltb_ge, ?Z.leb_le; lia.

Local Ltac range E := rewrite ?orb_true_iff, ?orb_false_iff, ?andb_true_iff, ?andb_false_iff, ?Z.geb_leb, ?Z.leb_gt,
  ?Z.leb_le, ?Z.eqb_eq, ?Z.eqb_neq in E.

Lemma utf8_loop_spec fuel : forall i, 0 <= i -> Z.max 0 (size - i) < Z.of_nat fuel -> utf8_loop buf bytes size fuel i = true <-> text (rest i).
Proof.
  induction fuel as [|fuel IH]; intros i Hi Hf; [lia|].
  cbn [utf8_loop]. destruct (Z.ltb_spec i size) as [Hlt|Hge]; [|rewrite rest_end by lia; split; [intros _; apply text_nil|done]].
  rewrite rest_cons by lia. pose proof (byte_bound i ltac:(lia)) as Ha. cbv zeta. set (a := byte buf bytes i) in *.
  destruct (Z.leb_spec a 0x7f) as [H1|H1]; [rewrite text_one by lia; apply IH; lia|].
  destruct ((a >=? 0xc2) && (a <=? 0xdf)) eqn:E2; range E2; [apply step_two; [lia|lia|bounds|apply IH; lia]|].
  destruct (a =? 0xe0) eqn:E3; range E3; [apply step_three; [lia|lia|bounds|apply IH; lia]|].
  destruct (((a >=? 0xe1) && (a <=? 0xec)) || ((a >=? 0xee) && (a <=? 0xef))) eqn:E4; range E4; [apply step_three; [lia|lia|bounds|apply IH; lia]|].
  destruct (a =? 0xed) eqn:E5; range E5; [apply step_three; [lia|lia|bounds|apply IH; lia]|].
  destruct (a =? 0xf0) eqn:E6; range E6; [apply step_four; [lia|lia|bounds|apply IH; lia]|].
  destruct ((a >=? 0xf1) && (a <=? 0xf3)) eqn:E7; range E7; [apply step_four; [lia|lia|bounds|apply IH; lia]|].
  destruct (a =? 0xf4) eqn:E8; range E8; [apply step_four; [lia|lia|bounds|apply IH; lia]|].
  split; [done|]. intros Ht%text_first. lia.
Qed.

End Decides.

(** ** Properties *)

(** C5. The check of names accepts exactly the well-formed UTF-8: the byte
    sequences that encode a sequence of Unicode scalar values, so that overlong
    forms, surrogates, values above U+10FFFF and cut-off sequences are refused.
    Its loop ends within one round per byte. *)
Theorem names_are_utf8 buf bytes size :
  Forall (fun b => 0 <= b < 256) buf -> 0 <= bytes -> 0 <= size -> bytes + size <= Z.of_nat (length buf) ->
  turbowasm_utf8_valid buf bytes size = true <-> text (span buf bytes size).
Proof.
  intros Hbuf Hb Hs Hin. unfold turbowasm_utf8_valid. rewrite (utf8_loop_spec buf bytes size Hbuf Hb Hin) by lia.
  unfold rest. by rewrite Z2Nat.inj_0, drop_0.
Qed.

(** ** Witnesses *)

(** A cent sign, a euro sign and a Gothic letter, behind one other byte. *)
Definition sample_name : list Z := [0xff; 0xc2; 0xa2; 0xe2; 0x82; 0xac; 0xf0; 0x90; 0x8d; 0x88].

Lemma names_are_utf8_witness : text (span sample_name 1 9) /\ ~ text (span sample_name 1 8).
Proof.
  assert (Hb : Forall (fun b => 0 <= b < 256) sample_name) by (repeat constructor; lia). split.
  - apply (names_are_utf8 sample_name 1 9 Hb); [lia|lia|simpl; lia|vm_compute; reflexivity].
  - intros Ht. apply (names_are_utf8 sample_name 1 8 Hb) in Ht; [|lia|lia|simpl; lia]. vm_compute in Ht. discriminate Ht.
Defined.

End Unicode.
