(* ===== verification/TypeGraph.v ===== *)
(** * Component type graphs (src/component_type_graph.c)

    The types of a component are the nodes of a graph: a reference is a node or a
    scalar type named in place. Nodes are defined once, in any order; a graph as a
    whole is validated afterwards.

    The names of fields, cases and labels are lists of bytes. An allocation asks
    [malloc_ok], which says whether the host grants so many bytes. *)

From S2P Require Import Prelude Value ExecStack.

Module TypeGraph.
Import ExecStack.

Inductive turbowasm_component_type_kind :=
  | TYPE_UNDEFINED | TYPE_BOOL | TYPE_S8 | TYPE_U8 | TYPE_S16 | TYPE_U16 | TYPE_S32 | TYPE_U32 | TYPE_S64 | TYPE_U64
  | TYPE_F32 | TYPE_F64 | TYPE_CHAR | TYPE_STRING | TYPE_LIST | TYPE_RECORD | TYPE_TUPLE | TYPE_VARIANT | TYPE_OPTION
  | TYPE_RESULT | TYPE_ENUM | TYPE_FLAGS | TYPE_FUNCTION | TYPE_RESOURCE | TYPE_OWN | TYPE_BORROW | TYPE_INSTANCE
  | TYPE_FUTURE | TYPE_STREAM.

#[export] Instance kind_eq_dec : EqDecision turbowasm_component_type_kind.
Proof. solve_decision. Defined.

Inductive turbowasm_component_type_ref :=
  | REF_INDEXED (id : Z)
  | REF_INLINE (kind : turbowasm_component_type_kind).

#[export] Instance ref_eq_dec : EqDecision turbowasm_component_type_ref.
Proof. solve_decision. Defined.

Abbreviation name := (list Z).

Record turbowasm_component_record_field := mk_field { field_name : name; field_type : turbowasm_component_type_ref }.

Record turbowasm_component_variant_case := mk_case {
  case_name : name;
  case_payload : option turbowasm_component_type_ref
}.

Record resource_type := mk_resource {
  identity : Z;
  instance_key : option Z;
  rep_type : Z;
  has_destructor : bool;
  identity_alias : bool;
  destructor_index : Z
}.

Record function_type := mk_function {
  params : list turbowasm_component_type_ref;
  is_async : bool;
  result : option turbowasm_component_type_ref
}.

Inductive turbowasm_component_instance_type_export_kind := EXPORT_FUNCTION | EXPORT_TYPE.

Record turbowasm_component_instance_type_export := mk_export {
  export_name : name;
  export_kind : turbowasm_component_instance_type_export_kind;
  export_type_index : Z
}.

(** A node, by the member of the union that its kind selects. An instance type has a
    graph of its own. *)
Inductive turbowasm_component_type :=
  | Undefined
  | Scalar (kind : turbowasm_component_type_kind)
  | String_
  | List_ (element_type : turbowasm_component_type_ref)
  | Async (future : bool) (payload : option turbowasm_component_type_ref)
  | Record_ (fields : list turbowasm_component_record_field)
  | Tuple (elements : list turbowasm_component_type_ref)
  | Variant (cases : list turbowasm_component_variant_case)
  | Option_ (payload : turbowasm_component_type_ref)
  | Result (ok error : option turbowasm_component_type_ref)
  | Enum (labels : list name)
  | Flags (labels : list name)
  | Function_ (f : function_type)
  | Resource_ (r : resource_type)
  | Handle (own : bool) (resource : Z)
  | Instance_ (types : list turbowasm_component_type) (exports : list turbowasm_component_instance_type_export).

Abbreviation turbowasm_component_type_graph := (list turbowasm_component_type).

Definition kind_of (t : turbowasm_component_type) : turbowasm_component_type_kind :=
  match t with
  | Undefined => TYPE_UNDEFINED
  | Scalar kind => kind
  | String_ => TYPE_STRING
  | List_ _ => TYPE_LIST
  | Async future _ => if future then TYPE_FUTURE else TYPE_STREAM
  | Record_ _ => TYPE_RECORD
  | Tuple _ => TYPE_TUPLE
  | Variant _ => TYPE_VARIANT
  | Option_ _ => TYPE_OPTION
  | Result _ _ => TYPE_RESULT
  | Enum _ => TYPE_ENUM
  | Flags _ => TYPE_FLAGS
  | Function_ _ => TYPE_FUNCTION
  | Resource_ _ => TYPE_RESOURCE
  | Handle own _ => if own then TYPE_OWN else TYPE_BORROW
  | Instance_ _ _ => TYPE_INSTANCE
  end.

Definition scalar_kind (kind : turbowasm_component_type_kind) : bool :=
  match kind with
  | TYPE_BOOL | TYPE_S8 | TYPE_U8 | TYPE_S16 | TYPE_U16 | TYPE_S32 | TYPE_U32 | TYPE_S64 | TYPE_U64
  | TYPE_F32 | TYPE_F64 | TYPE_CHAR => true
  | _ => false
  end.

Definition inline_kind (kind : turbowasm_component_type_kind) : bool :=
  scalar_kind kind || bool_decide (kind = TYPE_STRING).

Definition turbowasm_component_type_ref_indexed (id : Z) : turbowasm_component_type_ref := REF_INDEXED id.
Definition turbowasm_component_type_ref_inline (kind : turbowasm_component_type_kind) : turbowasm_component_type_ref := REF_INLINE kind.

Definition undefined (t : turbowasm_component_type) : bool := bool_decide (kind_of t = TYPE_UNDEFINED).

Definition turbowasm_component_type_graph_get (graph : turbowasm_component_type_graph) (id : Z) : option turbowasm_component_type :=
  if id >=? Z.of_nat (length graph) then None else graph !! Z.to_nat id.

Definition turbowasm_component_type_ref_validate (graph : turbowasm_component_type_graph) (ref : turbowasm_component_type_ref) : bool :=
  match ref with
  | REF_INLINE kind => inline_kind kind
  | REF_INDEXED id =>
      match turbowasm_component_type_graph_get graph id with
      | None => false
      | Some t => negb (undefined t)
      end
  end.

(** ** Defining nodes *)

Section Define.
Context (malloc_ok : Z -> bool) (sizeof : turbowasm_component_type_kind -> Z).

Definition turbowasm_component_type_graph_allocate (graph : turbowasm_component_type_graph) (count : Z)
    : bool * turbowasm_component_type_graph :=
  if negb (bool_decide (graph = [])) then (false, graph)
  else if count =? 0 then (true, graph)
  else if count >? SIZE_MAX / sizeof TYPE_UNDEFINED then (false, graph)
  else if negb (malloc_ok (count * sizeof TYPE_UNDEFINED)) then (false, graph)
  else (true, replicate (Z.to_nat count) Undefined).

(** Fill the slot [id], if it is there and still undefined and [ok] holds. *)
Definition define (graph : turbowasm_component_type_graph) (id : Z) (ok : bool) (t : turbowasm_component_type)
    : bool * turbowasm_component_type_graph :=
  match turbowasm_component_type_graph_get graph id with
  | None => (false, graph)
  | Some old => if negb (undefined old) || negb ok then (false, graph) else (true, <[Z.to_nat id := t]> graph)
  end.

(** A copy of [count] descriptors of a kind. *)
Definition copy_ok (kind : turbowasm_component_type_kind) (count : Z) : bool :=
  negb (count >? SIZE_MAX / sizeof kind) && malloc_ok (count * sizeof kind).

Definition retained_ref_in_range (graph : turbowasm_component_type_graph) (ref : turbowasm_component_type_ref) : bool :=
  match ref with
  | REF_INLINE kind => inline_kind kind
  | REF_INDEXED id => id <? Z.of_nat (length graph)
  end.

Definition optional_in_range (graph : turbowasm_component_type_graph) (ref : option turbowasm_component_type_ref) : bool :=
  match ref with None => true | Some ref => retained_ref_in_range graph ref end.

Definition turbowasm_component_type_graph_define_scalar graph id kind :=
  define graph id (scalar_kind kind) (Scalar kind).

Definition turbowasm_component_type_graph_define_string graph id := define graph id true String_.

Definition turbowasm_component_type_graph_define_list_ref graph id element_type :=
  define graph id (retained_ref_in_range graph element_type) (List_ element_type).

Definition turbowasm_component_type_graph_define_list graph id element_type :=
  turbowasm_component_type_graph_define_list_ref graph id (turbowasm_component_type_ref_indexed element_type).

Definition turbowasm_component_type_graph_define_async_value graph id kind payload :=
  define graph id
    ((bool_decide (kind = TYPE_FUTURE) || bool_decide (kind = TYPE_STREAM)) && optional_in_range graph payload)
    (Async (bool_decide (kind = TYPE_FUTURE)) payload).

Definition turbowasm_component_type_graph_define_record graph id (fields : list turbowasm_component_record_field) :=
  define graph id
    (negb (bool_decide (fields = nil)) && forallb (fun f => retained_ref_in_range graph (field_type f)) fields &&
     copy_ok TYPE_RECORD (Z.of_nat (length fields)))
    (Record_ fields).

Definition turbowasm_component_type_graph_define_tuple graph id (elements : list turbowasm_component_type_ref) :=
  define graph id
    (negb (bool_decide (elements = [])) && forallb (retained_ref_in_range graph) elements &&
     copy_ok TYPE_TUPLE (Z.of_nat (length elements)))
    (Tuple elements).

(** The name differs from those before it. *)
Definition fresh_name (previous : list name) (n : name) : bool := forallb (fun p => negb (bool_decide (p = n))) previous.

(** The cases after those whose names are [previous]. *)
Fixpoint cases_valid (payload_ok : turbowasm_component_type_ref -> bool) (previous : list name)
    (cases : list turbowasm_component_variant_case) : bool :=
  match cases with
  | [] => true
  | c :: cases =>
      negb (bool_decide (case_name c = nil)) &&
      match case_payload c with None => true | Some payload => payload_ok payload end &&
      fresh_name previous (case_name c) && cases_valid payload_ok (previous ++ [case_name c]) cases
  end.

Definition turbowasm_component_variant_cases_valid (graph : turbowasm_component_type_graph)
    (cases : list turbowasm_component_variant_case) : bool :=
  negb (bool_decide (cases = nil)) && cases_valid (retained_ref_in_range graph) [] cases.

Definition turbowasm_component_type_graph_define_variant graph id (cases : list turbowasm_component_variant_case) :=
  define graph id
    (turbowasm_component_variant_cases_valid graph cases && copy_ok TYPE_VARIANT (Z.of_nat (length cases)))
    (Variant cases).

Definition turbowasm_component_type_graph_define_option graph id payload :=
  define graph id (retained_ref_in_range graph payload) (Option_ payload).

Definition turbowasm_component_type_graph_define_result graph id ok error :=
  define graph id (optional_in_range graph ok && optional_in_range graph error) (Result ok error).

Fixpoint labels_distinct (previous labels : list name) : bool :=
  match labels with
  | [] => true
  | l :: labels => negb (bool_decide (l = nil)) && fresh_name previous l && labels_distinct (previous ++ [l]) labels
  end.

Definition turbowasm_component_labels_valid (labels : list name) : bool :=
  negb (bool_decide (labels = nil)) && labels_distinct [] labels.

Definition define_labels graph id kind (labels : list name) :=
  define graph id
    (turbowasm_component_labels_valid labels &&
     negb (bool_decide (kind = TYPE_FLAGS) && (Z.of_nat (length labels) >? 32)) && copy_ok kind (Z.of_nat (length labels)))
    (if bool_decide (kind = TYPE_ENUM) then Enum labels else Flags labels).

Definition turbowasm_component_type_graph_define_enum graph id labels := define_labels graph id TYPE_ENUM labels.
Definition turbowasm_component_type_graph_define_flags graph id labels := define_labels graph id TYPE_FLAGS labels.

Definition turbowasm_component_type_graph_define_function graph id (params : list turbowasm_component_type_ref) result :=
  define graph id
    (bool_decide (params = []) || copy_ok TYPE_FUNCTION (Z.of_nat (length params)))
    (Function_ (mk_function params false result)).

Definition turbowasm_component_type_graph_define_resource_full graph id nominal_identity rep_type has_destructor destructor_index :=
  define graph id (negb (nominal_identity =? 0))
    (Resource_ (mk_resource nominal_identity None rep_type has_destructor false destructor_index)).

Definition turbowasm_component_type_graph_define_resource_alias graph id nominal_identity rep_type has_destructor destructor_index :=
  define graph id (negb (nominal_identity =? 0))
    (Resource_ (mk_resource nominal_identity None rep_type has_destructor true destructor_index)).

Definition turbowasm_component_type_graph_define_resource graph id nominal_identity :=
  turbowasm_component_type_graph_define_resource_full graph id nominal_identity 0 false UINT32_MAX.

Definition turbowasm_component_type_graph_define_handle (graph : turbowasm_component_type_graph) id kind resource :=
  define graph id
    ((bool_decide (kind = TYPE_OWN) || bool_decide (kind = TYPE_BORROW)) && negb (resource >=? Z.of_nat (length graph)))
    (Handle (bool_decide (kind = TYPE_OWN)) resource).

End Define.

(** ** Walking types *)

(** [depth > count] is answered with yes: a graph without cycles is not that deep.
    The bound is [count + 1 - depth]. *)
Fixpoint type_ref_contains_borrow (fuel : nat) (graph : turbowasm_component_type_graph) (ref : turbowasm_component_type_ref) : bool :=
  match fuel with
  | O => true
  | S fuel =>
      let inside := type_ref_contains_borrow fuel graph in
      let optional := fun r => match r with None => false | Some r => inside r end in
      match ref with
      | REF_INLINE _ => false
      | REF_INDEXED id =>
          match turbowasm_component_type_graph_get graph id with
          | None => true
          | Some (Handle own _) => negb own
          | Some (Async _ payload) => optional payload
          | Some (List_ element_type) => inside element_type
          | Some (Record_ fields) => existsb (fun f => inside (field_type f)) fields
          | Some (Tuple elements) => existsb inside elements
          | Some (Variant cases) => existsb (fun c => optional (case_payload c)) cases
          | Some (Option_ payload) => inside payload
          | Some (Result ok error) => optional ok || optional error
          | Some _ => false
          end
      end
  end.

Definition contains_borrow (graph : turbowasm_component_type_graph) (ref : turbowasm_component_type_ref) (depth : Z) : bool :=
  type_ref_contains_borrow (Z.to_nat (Z.of_nat (length graph) + 1 - depth)) graph ref.

Definition is_definition (nominal : Z) (t : turbowasm_component_type) : bool :=
  match t with
  | Resource_ r => negb (identity_alias r) && (identity r =? nominal)
  | _ => false
  end.

(** Aliases of a resource lead to its definition, where the graph has one. *)
Definition turbowasm_component_resource_definition (graph : turbowasm_component_type_graph) (resource : Z)
    : option resource_type :=
  match turbowasm_component_type_graph_get graph resource with
  | Some (Resource_ r) =>
      if negb (identity_alias r) then Some r
      else match List.find (is_definition (identity r)) graph with
           | Some (Resource_ definition) => Some definition
           | _ => Some r
           end
  | _ => None
  end.

Definition VALUE_MAX_DEPTH : nat := 64.
Definition VALUE_DYNAMIC_MEMORY : Z := 1.
Definition VALUE_RESOURCES : Z := 2.
Definition VALUE_ENDPOINTS : Z := 4.

(** A walk over references that stops at the first that is refused. *)
Fixpoint walk {A S} (visit : A -> S -> option S) (l : list A) (s : S) : option S :=
  match l with
  | [] => Some s
  | a :: l => match visit a s with None => None | Some s => walk visit l s end
  end.

Section Features.
Context (graph : turbowasm_component_type_graph) (inspect_payloads imported : bool).

(** The features that a value of the type needs, added to those seen so far; [None]
    for what is no value type. The bound is the depth that is left. *)
Fixpoint value_type_features (fuel : nat) (allow_async : bool) (ref : turbowasm_component_type_ref) (features : Z) : option Z :=
  match fuel with
  | O => None
  | S fuel' =>
      let inside := value_type_features fuel' allow_async in
      let optional := fun r f => match r with None => Some f | Some r => inside r f end in
      match ref with
      | REF_INLINE kind =>
          let features := if bool_decide (kind = TYPE_STRING) then features .| VALUE_DYNAMIC_MEMORY else features in
          if inline_kind kind then Some features else None
      | REF_INDEXED id =>
          match turbowasm_component_type_graph_get graph id with
          | None => None
          | Some (Async _ payload) =>
              let depth := Z.of_nat (VALUE_MAX_DEPTH - fuel) in
              if imported && match payload with None => false | Some p => contains_borrow graph p (depth + 1) end then None
              else
                let features := features .| VALUE_ENDPOINTS in
                if negb allow_async then None
                else match payload with
                     | None => Some features
                     | Some payload =>
                         if inspect_payloads then value_type_features fuel' true payload features
                         else match value_type_features fuel' true payload 0 with
                              | None => None
                              | Some _ => Some features
                              end
                     end
          | Some String_ => Some (features .| VALUE_DYNAMIC_MEMORY)
          | Some (List_ element_type) => inside element_type (features .| VALUE_DYNAMIC_MEMORY)
          | Some (Handle _ resource) =>
              let features := features .| VALUE_RESOURCES in
              if imported then
                match turbowasm_component_resource_definition graph resource with
                | Some r => if bool_decide (instance_key r = None) then None else Some features
                | None => None
                end
              else Some features
          | Some (Scalar kind) => if scalar_kind kind then Some features else None
          | Some (Record_ fields) => walk (fun f => inside (field_type f)) fields features
          | Some (Tuple elements) => walk inside elements features
          | Some (Variant cases) => walk (fun c => optional (case_payload c)) cases features
          | Some (Option_ payload) => inside payload features
          | Some (Result ok error) => match optional ok features with None => None | Some f => optional error f end
          | Some (Enum _) | Some (Flags _) => Some features
          | Some _ => None
          end
      end
  end.

End Features.

Definition turbowasm_component_value_type_features graph ref : option Z :=
  value_type_features graph false false VALUE_MAX_DEPTH false ref 0.

Definition turbowasm_component_transfer_type_features graph ref : option Z :=
  value_type_features graph false false VALUE_MAX_DEPTH true ref 0.

Definition turbowasm_component_value_type_resource_free graph ref : bool :=
  match value_type_features graph true false VALUE_MAX_DEPTH true ref 0 with
  | Some features => features .& VALUE_RESOURCES =? 0
  | None => false
  end.

Definition turbowasm_component_value_type_async_importable graph ref : bool :=
  match value_type_features graph true true VALUE_MAX_DEPTH true ref 0 with Some _ => true | None => false end.

(** ** Validation *)

Definition payload_char (graph : turbowasm_component_type_graph) (payload : turbowasm_component_type_ref) : bool :=
  match payload with
  | REF_INLINE kind => bool_decide (kind = TYPE_CHAR)
  | REF_INDEXED id =>
      match turbowasm_component_type_graph_get graph id with
      | Some t => bool_decide (kind_of t = TYPE_CHAR)
      | None => false
      end
  end.

Definition async_valid (graph : turbowasm_component_type_graph) (future : bool) (payload : option turbowasm_component_type_ref) : bool :=
  match payload with
  | None => true
  | Some payload =>
      negb (negb future && payload_char graph payload) &&
      match value_type_features graph false false (VALUE_MAX_DEPTH - 1) true payload 0 with None => false | Some _ => true end &&
      negb (contains_borrow graph payload 0)
  end.

Fixpoint fields_valid (graph : turbowasm_component_type_graph) (previous : list name) (fields : list turbowasm_component_record_field) : bool :=
  match fields with
  | [] => true
  | f :: fields =>
      turbowasm_component_type_ref_validate graph (field_type f) && fresh_name previous (field_name f) &&
      fields_valid graph (previous ++ [field_name f]) fields
  end.

Definition optional_valid (graph : turbowasm_component_type_graph) (ref : option turbowasm_component_type_ref) : bool :=
  match ref with None => true | Some ref => turbowasm_component_type_ref_validate graph ref end.

Definition function_valid (graph : turbowasm_component_type_graph) (f : function_type) : bool :=
  forallb (turbowasm_component_type_ref_validate graph) (params f) &&
  match result f with
  | None => true
  | Some r => turbowasm_component_type_ref_validate graph r && negb (contains_borrow graph r 0)
  end.

Definition resource_valid (graph : turbowasm_component_type_graph) (i : nat) (r : resource_type) : bool :=
  negb (identity r =? 0) &&
  (identity_alias r || forallb (fun t => negb (is_definition (identity r) t)) (take i graph)).

Definition handle_valid (graph : turbowasm_component_type_graph) (resource : Z) : bool :=
  match turbowasm_component_type_graph_get graph resource with
  | Some (Resource_ _) => true
  | _ => false
  end.

Definition export_valid (graph : turbowasm_component_type_graph) (e : turbowasm_component_instance_type_export) : bool :=
  match turbowasm_component_type_graph_get graph (export_type_index e) with
  | None => false
  | Some t =>
      match export_kind e with
      | EXPORT_FUNCTION => bool_decide (kind_of t = TYPE_FUNCTION)
      | EXPORT_TYPE => negb (undefined t)
      end
  end.

(** The node [i] of the graph. *)
Fixpoint type_valid (graph : turbowasm_component_type_graph) (i : nat) (t : turbowasm_component_type) : bool :=
  match t with
  | Undefined => false
  | Async future payload => async_valid graph future payload
  | List_ element_type => turbowasm_component_type_ref_validate graph element_type
  | Record_ fields => negb (bool_decide (fields = nil)) && fields_valid graph [] fields
  | Tuple elements => negb (bool_decide (elements = [])) && forallb (turbowasm_component_type_ref_validate graph) elements
  | Variant cases => negb (bool_decide (cases = nil)) && cases_valid (turbowasm_component_type_ref_validate graph) [] cases
  | Option_ payload => turbowasm_component_type_ref_validate graph payload
  | Result ok error => optional_valid graph ok && optional_valid graph error
  | Enum labels => turbowasm_component_labels_valid labels
  | Flags labels => turbowasm_component_labels_valid labels && negb (Z.of_nat (length labels) >? 32)
  | Function_ f => function_valid graph f
  | Resource_ r => resource_valid graph i r
  | Handle _ resource => handle_valid graph resource
  | Instance_ types exports =>
      (fix all (j : nat) (l : list turbowasm_component_type) : bool :=
         match l with
         | [] => true
         | t :: l => type_valid types j t && all (S j) l
         end) 0%nat types &&
      forallb (export_valid types) exports
  | Scalar kind => scalar_kind kind
  | String_ => true
  end.

Fixpoint types_valid (graph : turbowasm_component_type_graph) (i : nat) (l : list turbowasm_component_type) : bool :=
  match l with
  | [] => true
  | t :: l => type_valid graph i t && types_valid graph (S i) l
  end.

Definition turbowasm_component_type_graph_validate (graph : turbowasm_component_type_graph) : bool := types_valid graph 0 graph.

Definition turbowasm_component_type_graph_define_instance graph id (types : turbowasm_component_type_graph) exports :=
  define graph id (turbowasm_component_type_graph_validate types) (Instance_ types exports).

(** ** Equality of value types *)

Definition resolve (graph : turbowasm_component_type_graph) (ref : turbowasm_component_type_ref) : turbowasm_component_type :=
  match ref with
  | REF_INLINE kind => if bool_decide (kind = TYPE_STRING) then String_ else Scalar kind
  | REF_INDEXED id => default Undefined (turbowasm_component_type_graph_get graph id)
  end.

(** The counts are compared before the elements. *)
Definition all2 {A B} (eq : A -> B -> bool) (l : list A) (k : list B) : bool :=
  bool_decide (length l = length k) && forallb (fun p => eq (fst p) (snd p)) (zip l k).

Definition equal_resource (a b : option resource_type) : bool :=
  match a, b with
  | Some a, Some b =>
      match instance_key a, instance_key b with
      | None, None => identity a =? identity b
      | Some j, Some k => j =? k
      | _, _ => false
      end
  | _, _ => false
  end.

(** Two arrays, item by item; an array without items is a null pointer, which
    equals nothing. *)
Definition arrays {A B} (eq : A -> B -> bool) (a : list A) (b : list B) : bool :=
  match a, b with [], _ | _, [] => false | _, _ => all2 eq a b end.

Fixpoint equal_value_type (fuel : nat) (lg : turbowasm_component_type_graph) (lr : turbowasm_component_type_ref)
    (rg : turbowasm_component_type_graph) (rr : turbowasm_component_type_ref) : bool :=
  match fuel with
  | O => false
  | S fuel =>
      if negb (turbowasm_component_type_ref_validate lg lr) || negb (turbowasm_component_type_ref_validate rg rr) then false
      else
        let equal := fun l r => equal_value_type fuel lg l rg r in
        let optional := fun l r =>
          match l, r with Some l, Some r => equal l r | None, None => true | _, _ => false end in
        match resolve lg lr, resolve rg rr with
        | Scalar k, Scalar k' => bool_decide (k = k')
        | String_, String_ => true
        | List_ a, List_ b => equal a b
        | Option_ a, Option_ b => equal a b
        | Async f a, Async f' b => Bool.eqb f f' && optional a b
        | Result ok error, Result ok' error' =>
            Bool.eqb (bool_decide (ok = None)) (bool_decide (ok' = None)) &&
            Bool.eqb (bool_decide (error = None)) (bool_decide (error' = None)) && optional ok ok' && optional error error'
        | Record_ a, Record_ b => arrays (fun f g => bool_decide (field_name f = field_name g) && equal (field_type f) (field_type g)) a b
        | Tuple a, Tuple b => arrays equal a b
        | Variant a, Variant b => arrays (fun c d => bool_decide (case_name c = case_name d) && optional (case_payload c) (case_payload d)) a b
        | Enum a, Enum b => arrays (fun x y => bool_decide (x = y)) a b
        | Flags a, Flags b => arrays (fun x y => bool_decide (x = y)) a b
        | Handle own r, Handle own' r' =>
            Bool.eqb own own' && equal_resource (turbowasm_component_resource_definition lg r) (turbowasm_component_resource_definition rg r')
        | _, _ => false
        end
  end.

Definition turbowasm_component_value_type_equal lg l rg r : bool := equal_value_type VALUE_MAX_DEPTH lg l rg r.

End TypeGraph.
