(* ===== verification/Strings.v ===== *)
(** * Strings of the canonical ABI (src/component_string.c)

    A component string is UTF-8 outside the guest; in a guest's memory it is
    UTF-8, UTF-16, or Latin-1 with UTF-16 for what Latin-1 cannot say. Lifting
    reads a string out of a memory, lowering writes one into memory that the
    guest's own [realloc] hands out.

    [realloc] is a function of the guest and so a parameter; [malloc_ok n] says
    whether the host grants [n] bytes. *)

From S2P Require Import Prelude Value ExecStack Memory.

Module Strings.
Import ExecStack Memory.

Definition TW_STRING_MAX_BYTES : Z := (1 ≪ 28) - 1.
Definition TW_ASCII_END : Z := 0x80.
Definition TW_LATIN1_END : Z := 0x100.
Definition TW_UTF8_TWO_END : Z := 0x800.
Definition TW_BMP_END : Z := 0x10000.
Definition TW_UNICODE_END : Z := 0x110000.
Definition TW_HIGH_SURROGATE : Z := 0xd800.
Definition TW_LOW_SURROGATE : Z := 0xdc00.
Definition TW_SURROGATE_END : Z := 0xe000.

Definition STRING_UTF8 : Z := 0.
Definition STRING_UTF16 : Z := 1.
Definition STRING_LATIN1_UTF16 : Z := 2.

Definition ORIGIN_UTF8 : Z := 0.
Definition ORIGIN_UTF16 : Z := 1.
Definition ORIGIN_LATIN1 : Z := 2.
Definition ORIGIN_COMPACT_UTF16 : Z := 3.

Definition POINTER_I32 : Z := 0.
Definition POINTER_I64 : Z := 1.

(** The guest's [realloc]: old pointer, old size, alignment, new size. *)
Definition realloc_fn : Type := store -> Z -> Z -> Z -> Z -> turbowasm_status * Z * store.

Record turbowasm_component_canonical_memory := mk_canonical {
  cm_instance : option nat;
  cm_memory : Z;
  pointer_type : Z;
  string_encoding : Z;
  guest_realloc : option realloc_fn
}.

(** [None] is a null pointer. *)
Record turbowasm_component_owned_string := mk_string {
  os_data : option (list Z);
  os_size : Z;
  os_origin : Z
}.

Definition turbowasm_component_string_encoding_valid (encoding : Z) : bool :=
  (encoding =? STRING_UTF8) || (encoding =? STRING_UTF16) || (encoding =? STRING_LATIN1_UTF16).

Definition memory_valid (cm : turbowasm_component_canonical_memory) : bool :=
  negb (bool_decide (cm_instance cm = None)) &&
  ((pointer_type cm =? POINTER_I32) || (pointer_type cm =? POINTER_I64)) &&
  turbowasm_component_string_encoding_valid (string_encoding cm).

Definition utf16_tag (cm : turbowasm_component_canonical_memory) : Z :=
  if pointer_type cm =? POINTER_I64 then 1 ≪ 63 else 1 ≪ 31.

Definition scalar_valid (scalar : Z) : bool :=
  (scalar <? TW_UNICODE_END) && ((scalar <? TW_HIGH_SURROGATE) || (scalar >=? TW_SURROGATE_END)).

(** ** Code points *)

Definition at_byte (bytes : list Z) (i : Z) : Z := default 0 (bytes !! Z.to_nat i).

Definition read_utf16 (bytes : list Z) (p : Z) : Z := at_byte bytes p .| u32 (at_byte bytes (p + 1) ≪ 8).

(** The continuation bytes of a UTF-8 sequence. *)
Fixpoint trailing_bytes (n : nat) (bytes : list Z) (cursor scalar : Z) : option (Z * Z) :=
  match n with
  | O => Some (scalar, cursor)
  | S n =>
      let byte := at_byte bytes cursor in
      if negb (byte .& 0xc0 =? 0x80) then None
      else trailing_bytes n bytes (cursor + 1) (u32 (scalar ≪ 6) .| (byte .& 0x3f))
  end.

(** The number of continuation bytes, the least scalar value and the bits of the
    first byte. *)
Definition utf8_lead (scalar : Z) : option (nat * Z * Z) :=
  if (scalar >=? 0xc0) && (scalar <? 0xe0) then Some (1%nat, TW_ASCII_END, scalar .& 0x1f)
  else if (scalar >=? 0xe0) && (scalar <? 0xf0) then Some (2%nat, TW_UTF8_TWO_END, scalar .& 0x0f)
  else if (scalar >=? 0xf0) && (scalar <? 0xf8) then Some (3%nat, TW_BMP_END, scalar .& 0x07)
  else None.

Definition next_utf16 (bytes : list Z) (size cursor : Z) : option (Z * Z) :=
  if size - cursor <? 2 then None
  else
    let scalar := read_utf16 bytes cursor in
    let cursor := cursor + 2 in
    if (scalar >=? TW_HIGH_SURROGATE) && (scalar <? TW_LOW_SURROGATE) then
      if size - cursor <? 2 then None
      else
        let low := read_utf16 bytes cursor in
        if (low <? TW_LOW_SURROGATE) || (low >=? TW_SURROGATE_END) then None
        else Some (TW_BMP_END + u32 ((scalar - TW_HIGH_SURROGATE) ≪ 10) + (low - TW_LOW_SURROGATE), cursor + 2)
    else Some (scalar, cursor).

Definition next_utf8 (bytes : list Z) (size cursor : Z) : option (Z * Z) :=
  let scalar := at_byte bytes cursor in
  let cursor := cursor + 1 in
  if scalar >=? TW_ASCII_END then
    match utf8_lead scalar with
    | None => None
    | Some (trailing, minimum, scalar) =>
        if size - cursor <? Z.of_nat trailing then None
        else match trailing_bytes trailing bytes cursor scalar with
             | None => None
             | Some (scalar, cursor) => if scalar <? minimum then None else Some (scalar, cursor)
             end
    end
  else Some (scalar, cursor).

(** The scalar value at [cursor] and where the next one starts. *)
Definition next_scalar (bytes : list Z) (size cursor origin : Z) : option (Z * Z) :=
  if cursor >=? size then None
  else if origin =? ORIGIN_LATIN1 then Some (at_byte bytes cursor, cursor + 1)
  else
    match (if negb (origin =? ORIGIN_UTF8) then next_utf16 bytes size cursor else next_utf8 bytes size cursor) with
    | None => None
    | Some (scalar, cursor) => if negb (scalar_valid scalar) then None else Some (scalar, cursor)
    end.

(** The loop from the last byte to the second: what it wrote and what is left. *)
Fixpoint encode_trailing (n : nat) (scalar : Z) (written : list Z) : list Z * Z :=
  match n with
  | O => (written, scalar)
  | S n => encode_trailing n (scalar ≫ 6) (u8 (0x80 .| (scalar .& 0x3f)) :: written)
  end.

Definition encode_utf8 (scalar : Z) : list Z :=
  if scalar <? TW_ASCII_END then [u8 scalar]
  else
    let count := if scalar <? TW_UTF8_TWO_END then 2%nat else if scalar <? TW_BMP_END then 3%nat else 4%nat in
    let '(written, scalar) := encode_trailing (count - 1) scalar [] in
    u8 ((if bool_decide (count = 2%nat) then 0xc0 else if bool_decide (count = 3%nat) then 0xe0 else 0xf0) .| scalar) :: written.

Definition encode_utf16 (scalar : Z) : list Z :=
  if scalar <? TW_BMP_END then [u8 scalar; u8 (scalar ≫ 8)]
  else
    let scalar := scalar - TW_BMP_END in
    let high := TW_HIGH_SURROGATE + (scalar ≫ 10) in
    let low := TW_LOW_SURROGATE + (scalar .& 0x3ff) in
    [u8 high; u8 (high ≫ 8); u8 low; u8 (low ≫ 8)].

(** ** Measuring *)

Record string_measure := mk_measure {
  scalars : Z;
  utf16_units : Z;
  ascii_prefix : Z;
  latin1_prefix : Z;
  latin1_prefix_bytes : Z;
  latin1 : bool
}.

(** One round: the scalar value that started at [before]. *)
Definition measure_one (size before scalar : Z) (r : string_measure) : string_measure :=
  let ascii := if (scalar >=? TW_ASCII_END) && (ascii_prefix r =? size) then before else ascii_prefix r in
  let wide := latin1 r && (scalar >=? TW_LATIN1_END) in
  mk_measure (scalars r + 1) (utf16_units r + (if scalar >=? TW_BMP_END then 2 else 1)) ascii
    (if wide then scalars r else latin1_prefix r) (if wide then before else latin1_prefix_bytes r)
    (if wide then false else latin1 r).

(** Every round takes at least a byte. *)
Fixpoint measure_loop (fuel : nat) (bytes : list Z) (size cursor : Z) (r : string_measure) : option string_measure :=
  if cursor <? size then
    match fuel with
    | O => None
    | S fuel =>
        match next_scalar bytes size cursor ORIGIN_UTF8 with
        | None => None
        | Some (scalar, next) => measure_loop fuel bytes size next (measure_one size cursor scalar r)
        end
    end
  else Some r.

Definition measure (s : turbowasm_component_owned_string) : turbowasm_status * option string_measure :=
  if (os_origin s >? ORIGIN_COMPACT_UTF16) || (negb (os_size s =? 0) && bool_decide (os_data s = None))
  then (TURBOWASM_INVALID_ARGUMENT, None)
  else
    let maximum_utf8_bytes :=
      if os_origin s =? ORIGIN_UTF8 then TW_STRING_MAX_BYTES
      else if os_origin s =? ORIGIN_LATIN1 then TW_STRING_MAX_BYTES * 2
      else (TW_STRING_MAX_BYTES / 2) * 3 in
    if os_size s >? maximum_utf8_bytes then (TURBOWASM_INVALID_ARGUMENT, None)
    else
      match measure_loop (Z.to_nat (os_size s)) (default [] (os_data s)) (os_size s) 0 (mk_measure 0 0 (os_size s) 0 0 true) with
      | None => (TURBOWASM_INVALID_ARGUMENT, None)
      | Some r =>
          let r := if latin1 r
                   then mk_measure (scalars r) (utf16_units r) (ascii_prefix r) (scalars r) (os_size s) true
                   else r in
          if (os_origin s =? ORIGIN_LATIN1) && negb (latin1 r) then (TURBOWASM_INVALID_ARGUMENT, None)
          else
            let source_bytes :=
              if os_origin s =? ORIGIN_UTF8 then os_size s
              else if os_origin s =? ORIGIN_LATIN1 then scalars r
              else utf16_units r * 2 in
            if source_bytes >? TW_STRING_MAX_BYTES then (TURBOWASM_INVALID_ARGUMENT, None)
            else (TURBOWASM_OK, Some r)
      end.

Definition turbowasm_component_string_validate (s : turbowasm_component_owned_string) : turbowasm_status := fst (measure s).

(** ** Lifting *)

Section Memory.
Context (cm : turbowasm_component_canonical_memory) (malloc_ok : Z -> bool).

(** [memory->instance->impl], after [memory_valid]. *)
Abbreviation impl := (default 0%nat (cm_instance cm)).

Definition bounds (w : store) (pointer size alignment : Z) : turbowasm_status :=
  if negb (pointer mod alignment =? 0) || (size >? SIZE_MAX) ||
     ((pointer_type cm =? POINTER_I32) && (pointer >? UINT32_MAX))
  then TURBOWASM_TRAPPED
  else fst (turbowasm_instance_memory_bounds w impl (cm_memory cm) pointer 0 size).

(** The first pass over the bytes: the size of the string in UTF-8. *)
Fixpoint lift_size (fuel : nat) (raw : list Z) (length cursor origin size : Z) : option Z :=
  if cursor <? length then
    match fuel with
    | O => None
    | S fuel =>
        match next_scalar raw length cursor origin with
        | None => None
        | Some (scalar, next) => lift_size fuel raw length next origin (size + Z.of_nat (List.length (encode_utf8 scalar)))
        end
    end
  else Some size.

(** The second pass: the string in UTF-8. *)
Fixpoint lift_encode (fuel : nat) (raw : list Z) (length cursor origin : Z) (encoded : list Z) : option (list Z) :=
  if cursor <? length then
    match fuel with
    | O => None
    | S fuel =>
        match next_scalar raw length cursor origin with
        | None => None
        | Some (scalar, next) => lift_encode fuel raw length next origin (encoded ++ encode_utf8 scalar)
        end
    end
  else Some encoded.

(** The origin, the width of a unit, the alignment and the length without its tag. *)
Definition lift_form (tagged_length : Z) : Z * Z * Z * Z :=
  if string_encoding cm =? STRING_UTF16 then (ORIGIN_UTF16, 2, 2, tagged_length)
  else if string_encoding cm =? STRING_LATIN1_UTF16 then
    if negb (tagged_length .& utf16_tag cm =? 0)
    then (ORIGIN_COMPACT_UTF16, 2, 2, tagged_length .^ utf16_tag cm)
    else (ORIGIN_LATIN1, 1, 2, tagged_length)
  else (ORIGIN_UTF8, 1, 1, tagged_length).

Definition lift_bytes (w : store) (pointer length : Z) : turbowasm_status * option (list Z) :=
  if length =? 0 then (TURBOWASM_OK, None)
  else if negb (malloc_ok length) then (TURBOWASM_OUT_OF_MEMORY, None)
  else match turbowasm_instance_memory_read_bytes w impl (cm_memory cm) pointer 0 length with
       | (TURBOWASM_OK, raw) => (TURBOWASM_OK, Some raw)
       | (status, _) => (status, None)
       end.

Definition turbowasm_component_string_lift (w : store) (pointer tagged_length : Z)
    : turbowasm_status * option turbowasm_component_owned_string :=
  if negb (memory_valid cm) then (TURBOWASM_INVALID_ARGUMENT, None)
  else
    let '(origin, width, alignment, length) := lift_form tagged_length in
    if length >? TW_STRING_MAX_BYTES / width then (TURBOWASM_TRAPPED, None)
    else
      let length := length * width in
      match bounds w pointer length alignment with
      | TURBOWASM_OK =>
          match lift_bytes w pointer length with
          | (TURBOWASM_OK, raw) =>
              let bytes := default [] raw in
              match lift_size (Z.to_nat length) bytes length 0 origin 0 with
              | None => (TURBOWASM_TRAPPED, None)
              | Some size =>
                  if origin =? ORIGIN_UTF8 then (TURBOWASM_OK, Some (mk_string raw size origin))
                  else if negb (size =? 0) then
                    if negb (malloc_ok size) then (TURBOWASM_OUT_OF_MEMORY, None)
                    else match lift_encode (Z.to_nat length) bytes length 0 origin [] with
                         | None => (TURBOWASM_TRAPPED, None)
                         | Some encoded => (TURBOWASM_OK, Some (mk_string (Some encoded) size origin))
                         end
                  else (TURBOWASM_OK, Some (mk_string None size origin))
              end
          | (status, _) => (status, None)
          end
      | status => (status, None)
      end.

(** ** Lowering *)

(** The store and the block the guest has given out. *)
Record guest_string := mk_guest { g_store : store; g_pointer : Z; g_capacity : Z }.

Definition gm (A : Type) : Type := guest_string -> (turbowasm_status + A) * guest_string.

#[global] Instance gm_ret : MRet gm := fun A a g => (inr a, g).
#[global] Instance gm_bind : MBind gm := fun A B k m g =>
  match m g with
  | (inl status, g) => (inl status, g)
  | (inr a, g) => k a g
  end.

Definition gfail {A} (status : turbowasm_status) : gm A := fun g => (inl status, g).
Definition gcapacity : gm Z := fun g => (inr (g_capacity g), g).
Definition gwhen (b : bool) (m : gm unit) : gm unit := if b then m else mret tt.

Definition resize (alignment size : Z) : gm unit := fun g =>
  if size >? UINT32_MAX then (inl TURBOWASM_TRAPPED, g)
  else match guest_realloc cm with
       | None => (inl TURBOWASM_UNSUPPORTED, g)
       | Some realloc =>
           let '(status, pointer, w) := realloc (g_store g) (g_pointer g) (g_capacity g) alignment size in
           let g := mk_guest w (g_pointer g) (g_capacity g) in
           if negb (bool_decide (status = TURBOWASM_OK)) then (inl status, g)
           else match bounds w pointer size alignment with
                | TURBOWASM_OK => (inr tt, mk_guest w pointer size)
                | status => (inl status, g)
                end
       end.

Definition write_bytes (offset : Z) (bytes : list Z) : gm unit := fun g =>
  if (offset >? g_capacity g) || (Z.of_nat (length bytes) >? g_capacity g - offset) then (inl TURBOWASM_TRAPPED, g)
  else match turbowasm_instance_memory_write_bytes (g_store g) impl (cm_memory cm) (g_pointer g) offset bytes with
       | (TURBOWASM_OK, w) => (inr tt, mk_guest w (g_pointer g) (g_capacity g))
       | (status, w) => (inl status, mk_guest w (g_pointer g) (g_capacity g))
       end.

Definition read_byte (offset : Z) : gm Z := fun g =>
  match turbowasm_instance_memory_read_bytes (g_store g) impl (cm_memory cm) (g_pointer g) offset 1 with
  | (TURBOWASM_OK, bytes) => (inr (at_byte bytes 0), g)
  | (status, _) => (inl status, g)
  end.

Fixpoint write_scalars (fuel : nat) (data : list Z) (cursor source_end destination : Z) (utf16 : bool) : gm unit :=
  if cursor <? source_end then
    match fuel with
    | O => gfail TURBOWASM_INVALID_ARGUMENT
    | S fuel =>
        match next_scalar data source_end cursor ORIGIN_UTF8 with
        | None => gfail TURBOWASM_INVALID_ARGUMENT
        | Some (scalar, next) =>
            if negb utf16 && (scalar >=? TW_LATIN1_END) then gfail TURBOWASM_INVALID_ARGUMENT
            else
              let bytes := if utf16 then encode_utf16 scalar else [u8 scalar] in
              _ ← write_bytes destination bytes;
              write_scalars fuel data next source_end (destination + Z.of_nat (length bytes)) utf16
        end
    end
  else mret tt.

(** Widening goes from the last character to the first, narrowing the other way. *)
Fixpoint adjust_loop (n : nat) (count index : Z) (inflate : bool) : gm unit :=
  match n with
  | O => mret tt
  | S n =>
      let at_ := if inflate then count - index - 1 else index in
      b ← read_byte (if inflate then at_ else at_ * 2);
      _ ← write_bytes (if inflate then at_ * 2 else at_) (if inflate then [b; 0] else [b]);
      adjust_loop n count (index + 1) inflate
  end.

Definition adjust_latin1_prefix (count : Z) (inflate : bool) : gm unit := adjust_loop (Z.to_nat count) count 0 inflate.

(** Give back what the guest's block has too much. *)
Definition shrink (alignment size : Z) : gm unit :=
  capacity ← gcapacity;
  gwhen (capacity >? size) (resize alignment size).

Section Lower.
Context (s : turbowasm_component_owned_string) (measured : string_measure) (source_units : Z).

Abbreviation bytes := (default [] (os_data s)).

Definition lower_utf8 : gm Z :=
  let prefix := if os_origin s =? ORIGIN_UTF8 then os_size s else ascii_prefix measured in
  _ ← resize 1 source_units;
  _ ← gwhen (negb (prefix =? 0)) (write_bytes 0 (take (Z.to_nat prefix) bytes));
  _ ← gwhen (negb (prefix =? os_size s))
        (let factor := if os_origin s =? ORIGIN_LATIN1 then 2 else 3 in
         _ ← resize 1 (source_units * factor);
         _ ← write_bytes prefix (take (Z.to_nat (os_size s - prefix)) (drop (Z.to_nat prefix) bytes));
         shrink 1 (os_size s));
  mret (os_size s).

Definition lower_utf16 : gm Z :=
  _ ← resize 2 (source_units * 2);
  _ ← write_scalars (Z.to_nat (os_size s)) bytes 0 (os_size s) 0 true;
  _ ← shrink 2 (utf16_units measured * 2);
  mret (utf16_units measured).

Definition lower_compact : gm Z :=
  if os_origin s =? ORIGIN_COMPACT_UTF16 then
    length ← lower_utf16;
    if negb (latin1 measured) then mret (length .| utf16_tag cm)
    else
      _ ← adjust_latin1_prefix (scalars measured) false;
      _ ← resize 1 (scalars measured);
      mret (scalars measured)
  else
    _ ← resize 2 source_units;
    _ ← write_scalars (Z.to_nat (os_size s)) bytes 0 (latin1_prefix_bytes measured) 0 false;
    if negb (latin1 measured) then
      _ ← resize 2 (source_units * 2);
      _ ← adjust_latin1_prefix (latin1_prefix measured) true;
      _ ← write_scalars (Z.to_nat (os_size s)) bytes (latin1_prefix_bytes measured) (os_size s) (latin1_prefix measured * 2) true;
      _ ← shrink 2 (utf16_units measured * 2);
      mret (utf16_units measured .| utf16_tag cm)
    else
      _ ← shrink 2 (scalars measured);
      mret (scalars measured).

End Lower.

(** The pointer and the tagged length, and the store afterwards. *)
Definition turbowasm_component_string_lower (s : turbowasm_component_owned_string) (w : store)
    : turbowasm_status * option (Z * Z) * store :=
  if negb (memory_valid cm) then (TURBOWASM_INVALID_ARGUMENT, None, w)
  else match measure s with
       | (TURBOWASM_OK, Some measured) =>
           let source_units := if os_origin s =? ORIGIN_UTF8 then os_size s
                               else if os_origin s =? ORIGIN_LATIN1 then scalars measured
                               else utf16_units measured in
           let lower := if string_encoding cm =? STRING_UTF8 then lower_utf8 s measured source_units
                        else if string_encoding cm =? STRING_UTF16 then lower_utf16 s measured source_units
                        else lower_compact s measured source_units in
           match lower (mk_guest w 0 0) with
           | (inr length, g) => (TURBOWASM_OK, Some (g_pointer g, length), g_store g)
           | (inl status, g) => (status, None, g_store g)
           end
       | (status, _) => (status, None, w)
       end.

End Memory.

End Strings.
