(* ===== verification/StringCodec.v ===== *)
(** * Code points of component strings

    What the decoders and encoders of [Strings] compute, one Unicode scalar value
    at a time: UTF-8 and UTF-16 as Unicode defines them, and Latin-1. *)

From S2P Require Import Prelude Value Memory Unicode Strings.

Module StringCodec.
Import Memory Unicode Strings.

Ltac Zify.zify_post_hook ::= Z.div_mod_to_equations.

(** The position behind the bytes [l]. *)
Abbreviation zlen l := (Z.of_nat (length l)).

Lemma zlen_app (l k : list Z) : zlen (l ++ k) = zlen l + zlen k.
Proof. rewrite length_app. lia. Qed.

Lemma at_byte_app l k i : 0 <= i -> at_byte (l ++ k) (zlen l + i) = at_byte k i.
Proof.
  intros. unfold at_byte. rewrite lookup_app_r by lia. do 2 f_equal. lia.
Qed.

Lemma at_byte_next l b k : at_byte (l ++ b :: k) (zlen l) = b.
Proof. pose proof (at_byte_app l (b :: k) 0 ltac:(lia)) as H. by rewrite Z.add_0_r in H. Qed.

(** The byte after the next moves into the prefix. *)
Lemma shift_byte (l : list Z) b k : l ++ b :: k = (l ++ [b]) ++ k.
Proof. by rewrite <- app_assoc. Qed.

Lemma zlen_snoc (l : list Z) b : zlen l + 1 = zlen (l ++ [b]).
Proof. rewrite zlen_app. done. Qed.

Lemma at_least_one (l k : list Z) (size n : Z) : size <= zlen (l ++ k) -> 1 <= n -> n <= size - zlen l -> exists b k', k = b :: k'.
Proof. rewrite zlen_app. destruct k; [simpl; lia|eauto]. Qed.

Lemma scalar_valid_spec c : 0 <= c -> scalar_valid c = true <-> scalar c.
Proof.
  intros Hc. unfold scalar_valid, scalar, TW_UNICODE_END, TW_HIGH_SURROGATE, TW_SURROGATE_END.
  rewrite andb_true_iff, orb_true_iff, Z.geb_leb, !Z.ltb_lt, Z.leb_le. lia.
Qed.

Lemma land_mask b n : 0 <= n -> b .& (2 ^ n - 1) = b mod 2 ^ n.
Proof. intros. rewrite <- Z.land_ones, Z.ones_equiv by done. f_equal. Qed.

(** ** UTF-8 *)

Lemma cont_mark b : is_uint 8 b -> (b .& 0xc0 =? 0x80) = bool_decide (cont b).
Proof.
  intros Hb.
  assert (Hall : forallb (fun n => Bool.eqb (Z.of_nat n .& 0xc0 =? 0x80) ((0x80 <=? Z.of_nat n) && (Z.of_nat n <? 0xc0))) (seq 0 256) = true)
    by (vm_compute; reflexivity).
  unfold is_uint in Hb. rewrite forallb_forall in Hall. specialize (Hall (Z.to_nat b) ltac:(apply in_seq; lia)).
  rewrite Z2Nat.id in Hall by lia. apply Bool.eqb_prop in Hall. rewrite Hall. unfold cont.
  case_bool_decide; [apply andb_true_iff|apply andb_false_iff]; rewrite Z.leb_gt || rewrite Z.leb_le;
    rewrite ?Z.ltb_lt, ?Z.ltb_ge; lia.
Qed.

Lemma add_bits s y : 0 <= s < 2 ^ 20 -> 0 <= y < 64 -> u32 (s ≪ 6) .| y = s * 64 + y.
Proof.
  intros Hs Hy. rewrite wrap_id by (rewrite Z.shiftl_mul_pow2 by lia; split; lia).
  rewrite Z.lor_comm, lor_shiftl_add by (split; lia). lia.
Qed.

Lemma trailing_step n l b k s : is_uint 8 b -> 0 <= s < 2 ^ 20 ->
  trailing_bytes (S n) (l ++ b :: k) (zlen l) s =
    if bool_decide (cont b) then trailing_bytes n ((l ++ [b]) ++ k) (zlen (l ++ [b])) (s * 64 + b mod 64) else None.
Proof.
  intros Hb Hs. cbn [trailing_bytes]. rewrite at_byte_next, cont_mark by done.
  case_bool_decide; [|done]. cbn [negb]. change 0x3f with (2 ^ 6 - 1). rewrite land_mask by lia. change (2 ^ 6) with 64.
  rewrite add_bits; [|done|apply Z.mod_pos_bound; lia]. by rewrite <- shift_byte, <- zlen_snoc.
Qed.

(** What a lead byte says. *)
Lemma lead_spec b : is_uint 8 b -> 0x80 <= b -> utf8_lead b =
  if b <? 0xc0 then None
  else if b <? 0xe0 then Some (1%nat, 0x80, b - 0xc0)
  else if b <? 0xf0 then Some (2%nat, 0x800, b - 0xe0)
  else if b <? 0xf8 then Some (3%nat, 0x10000, b - 0xf0)
  else None.
Proof.
  intros Hb H80. unfold is_uint in Hb. unfold utf8_lead. rewrite !Z.geb_leb.
  change 0x1f with (2 ^ 5 - 1). change 0x0f with (2 ^ 4 - 1). change 0x07 with (2 ^ 3 - 1). rewrite !land_mask by lia.
  destruct (Z.ltb_spec b 0xc0), (Z.ltb_spec b 0xe0), (Z.ltb_spec b 0xf0), (Z.ltb_spec b 0xf8),
    (Z.leb_spec 0xc0 b), (Z.leb_spec 0xe0 b), (Z.leb_spec 0xf0 b); try lia; cbn [andb]; try done; do 2 f_equal; lia.
Qed.

(** The four shapes of an encoded scalar value, put together from its bytes. *)
Lemma utf8_two b0 b1 : 0xc0 <= b0 < 0xe0 -> cont b1 -> let c := (b0 - 0xc0) * 64 + b1 mod 64 in
  0x80 <= c -> utf8 c = [b0; b1].
Proof.
  intros H0 H1 c Hc. unfold cont in H1. subst c. unfold utf8, trail.
  rewrite (proj2 (Z.ltb_ge _ 0x80)) by lia. rewrite (proj2 (Z.ltb_lt _ 0x800)) by lia. repeat (f_equal; try lia).
Qed.

Lemma utf8_three b0 b1 b2 : 0xe0 <= b0 < 0xf0 -> cont b1 -> cont b2 ->
  let c := ((b0 - 0xe0) * 64 + b1 mod 64) * 64 + b2 mod 64 in
  0x800 <= c -> utf8 c = [b0; b1; b2].
Proof.
  intros H0 H1 H2 c Hc. unfold cont in H1, H2. subst c. unfold utf8, trail.
  rewrite (proj2 (Z.ltb_ge _ 0x80)) by lia. rewrite (proj2 (Z.ltb_ge _ 0x800)) by lia.
  rewrite (proj2 (Z.ltb_lt _ 0x10000)) by lia. repeat (f_equal; try lia).
Qed.

Lemma utf8_four b0 b1 b2 b3 : 0xf0 <= b0 < 0xf8 -> cont b1 -> cont b2 -> cont b3 ->
  let c := (((b0 - 0xf0) * 64 + b1 mod 64) * 64 + b2 mod 64) * 64 + b3 mod 64 in
  0x10000 <= c -> utf8 c = [b0; b1; b2; b3].
Proof.
  intros H0 H1 H2 H3 c Hc. unfold cont in H1, H2, H3. subst c. unfold utf8, trail.
  rewrite (proj2 (Z.ltb_ge _ 0x80)) by lia. rewrite (proj2 (Z.ltb_ge _ 0x800)) by lia.
  rewrite (proj2 (Z.ltb_ge _ 0x10000)) by lia. repeat (f_equal; try lia).
Qed.

(** The continuation bytes that [trailing_bytes] took. *)
Lemma trailing_inv n : forall l k s c next, bytes_ok k -> Z.of_nat n <= zlen k -> (n <= 3)%nat -> 0 <= s < 2 ^ (20 - 6 * Z.of_nat n + 6) ->
  trailing_bytes n (l ++ k) (zlen l) s = Some (c, next) ->
  exists ts k', k = ts ++ k' /\ length ts = n /\ Forall cont ts /\ next = zlen (l ++ ts) /\
    c = foldl (fun s b => s * 64 + b mod 64) s ts.
Proof.
  induction n as [|n IH]; intros l k s c next Hk Hl Hn Hs H.
  - cbn [trailing_bytes] in H. injection H as <- <-. exists [], k. rewrite app_nil_r. done.
  - destruct k as [|b k]; [simpl in Hl; lia|]. inversion Hk as [|? ? Hb Hk']; subst.
    rewrite trailing_step in H; [|done|split; [lia|eapply Z.lt_le_trans; [apply Hs|apply Z.pow_le_mono_r; lia]]].
    case_bool_decide as Hc; [|done].
    apply IH in H as (ts & k' & -> & Hts & Hcs & -> & ->); [|done|cbn [length] in Hl; lia|lia|].
    + exists (b :: ts), k'. cbn [length foldl]. rewrite <- shift_byte. repeat split; [lia|by constructor].
    + replace (20 - 6 * Z.of_nat n + 6) with (6 + (20 - 6 * Z.of_nat (S n) + 6)) by lia. rewrite Z.pow_add_r by lia.
      change (2 ^ 6) with 64. pose proof (Z.mod_pos_bound b 64). lia.
Qed.

Lemma sequence_inv n m l b k size s c next : bytes_ok k -> size <= zlen (l ++ b :: k) -> (n <= 3)%nat ->
  0 <= s < 2 ^ (20 - 6 * Z.of_nat n + 6) ->
  (if size - (zlen l + 1) <? Z.of_nat n then None
   else match trailing_bytes n (l ++ b :: k) (zlen l + 1) s with
        | None => None
        | Some (scalar, cursor) => if scalar <? m then None else Some (scalar, cursor)
        end) = Some (c, next) ->
  exists ts k', k = ts ++ k' /\ length ts = n /\ Forall cont ts /\ next = zlen (l ++ b :: ts) /\ next <= size /\
    m <= c /\ c = foldl (fun s b => s * 64 + b mod 64) s ts.
Proof.
  intros Hk Hs Hn Hs0. destruct (Z.ltb_spec (size - (zlen l + 1)) (Z.of_nat n)) as [|Hroom]; [done|].
  rewrite shift_byte, (zlen_snoc l b). destruct (trailing_bytes _ _ _ _) as [[c' next']|] eqn:E; [|done].
  destruct (Z.ltb_spec c' m); [done|]. intros [= -> ->].
  apply trailing_inv in E as (ts & k' & -> & Hts & Hcs & -> & ->); [| |rewrite zlen_app in Hs; cbn [length] in Hs|..]; try done; try lia.
  exists ts, k'. rewrite <- shift_byte. repeat split; try done. rewrite zlen_app. cbn [length]. lia.
Qed.

(** A decoded scalar value is what stands at the cursor. *)
Lemma next_utf8_inv l k size c next : bytes_ok k -> zlen l < size <= zlen (l ++ k) ->
  next_scalar (l ++ k) size (zlen l) ORIGIN_UTF8 = Some (c, next) ->
  exists k', k = utf8 c ++ k' /\ scalar c /\ next = zlen (l ++ utf8 c) /\ next <= size.
Proof.
  intros Hk Hs. unfold next_scalar. rewrite Z.geb_leb, (proj2 (Z.leb_gt size (zlen l))) by lia. cbn [Z.eqb ORIGIN_UTF8 ORIGIN_LATIN1 negb].
  destruct k as [|b k]; [rewrite app_nil_r in Hs; lia|]. inversion Hk as [|? ? Hb Hk']; subst.
  destruct (next_utf8 _ _ _) as [[c' next']|] eqn:E; [|done]. destruct (scalar_valid c') eqn:Hv; [|done].
  cbn [negb]. intros [= -> ->]. revert E. unfold next_utf8. rewrite at_byte_next, Z.geb_leb. unfold TW_ASCII_END.
  unfold is_uint in Hb. destruct (Z.leb_spec 0x80 b) as [H80|H80].
  - rewrite lead_spec by done.
    assert (Hend : forall ts k', k = ts ++ k' -> next = zlen (l ++ b :: ts) -> next <= size -> 0 <= c -> utf8 c = b :: ts ->
      exists k', b :: k = utf8 c ++ k' /\ scalar c /\ next = zlen (l ++ utf8 c) /\ next <= size).
    { intros ts k' -> -> Hle Hc ->. exists k'. split; [done|]. split; [by apply scalar_valid_spec|done]. }
    destruct (Z.ltb_spec b 0xc0); [done|]. destruct (Z.ltb_spec b 0xe0); [|destruct (Z.ltb_spec b 0xf0); [|destruct (Z.ltb_spec b 0xf8); [|done]]];
      intros (ts & k' & Hk0 & Hts & Hcs & Hnx & Hn & Hm & Hc)%sequence_inv; try done; try lia;
      (apply (Hend ts k'); [done|done|done|lia|]); subst c.
    + destruct ts as [|b1 [|]]; try discriminate. rewrite !Forall_cons in Hcs. cbn [foldl] in *. apply utf8_two; [lia|tauto|lia].
    + destruct ts as [|b1 [|b2 [|]]]; try discriminate. rewrite !Forall_cons in Hcs. cbn [foldl] in *. apply utf8_three; [lia|tauto|tauto|lia].
    + destruct ts as [|b1 [|b2 [|b3 [|]]]]; try discriminate. rewrite !Forall_cons in Hcs. cbn [foldl] in *. apply utf8_four; [lia|tauto|tauto|tauto|lia].
  - intros [= -> <-]. exists k. assert (Hu : utf8 c = [c]) by (unfold utf8; by rewrite (proj2 (Z.ltb_lt c 0x80))). rewrite Hu, <- zlen_snoc.
    split; [done|]. split; [by apply scalar_valid_spec; [lia|]|]. lia.
Qed.

(** ... and an encoded one is decoded again. *)
Lemma trailing_run ts : forall l k s, Forall cont ts -> (length ts <= 3)%nat -> 0 <= s < 2 ^ (20 - 6 * zlen ts + 6) ->
  trailing_bytes (length ts) (l ++ ts ++ k) (zlen l) s = Some (foldl (fun s b => s * 64 + b mod 64) s ts, zlen (l ++ ts)).
Proof.
  induction ts as [|b ts IH]; intros l k s Hc Hl Hs.
  - cbn. by rewrite app_nil_r.
  - inversion Hc as [|? ? Hb Hc']; subst. cbn [length foldl app] in *.
    rewrite trailing_step; [|unfold cont in Hb; unfold is_uint; lia|split; [lia|eapply Z.lt_le_trans; [apply Hs|apply Z.pow_le_mono_r; lia]]].
    rewrite bool_decide_eq_true_2 by done. rewrite IH; [by rewrite <- shift_byte|done|lia|].
    replace (20 - 6 * zlen ts + 6) with (6 + (20 - 6 * Z.of_nat (S (length ts)) + 6)) by lia. rewrite Z.pow_add_r by lia.
    change (2 ^ 6) with 64. pose proof (Z.mod_pos_bound b 64). lia.
Qed.

Lemma trail_cont c : cont (trail c).
Proof. unfold cont, trail. pose proof (Z.mod_pos_bound c 64). lia. Qed.

Lemma sequence_run l b ts k size n m s : Forall cont ts -> length ts = n -> (n <= 3)%nat -> 0 <= s < 2 ^ (20 - 6 * Z.of_nat n + 6) ->
  zlen (l ++ b :: ts) <= size -> m <= foldl (fun s b => s * 64 + b mod 64) s ts ->
  (if size - (zlen l + 1) <? Z.of_nat n then None
   else match trailing_bytes n (l ++ b :: ts ++ k) (zlen l + 1) s with
        | None => None
        | Some (scalar, cursor) => if scalar <? m then None else Some (scalar, cursor)
        end) = Some (foldl (fun s b => s * 64 + b mod 64) s ts, zlen (l ++ b :: ts)).
Proof.
  intros Hc <- Hn Hs Hsz Hm. rewrite zlen_app in Hsz. cbn [length] in Hsz. rewrite (proj2 (Z.ltb_ge _ _)) by lia.
  rewrite shift_byte, (zlen_snoc l b), trailing_run, (proj2 (Z.ltb_ge _ m)) by done. by rewrite <- shift_byte.
Qed.

(** One encoded scalar value: lead byte, then continuation bytes. *)
Lemma utf8_parts c : scalar c -> 0x80 <= c -> exists b ts m s, utf8 c = b :: ts /\ Forall cont ts /\ (length ts <= 3)%nat /\ is_uint 8 b /\
  0x80 <= b /\ utf8_lead b = Some (length ts, m, s) /\ 0 <= s < 2 ^ (20 - 6 * zlen ts + 6) /\ m <= c /\
  c = foldl (fun s b => s * 64 + b mod 64) s ts.
Proof.
  intros Hc H80. unfold scalar in Hc. unfold utf8. rewrite (proj2 (Z.ltb_ge c 0x80)) by lia.
  pose proof trail_cont as Ht. unfold is_uint.
  destruct (Z.ltb_spec c 0x800); [|destruct (Z.ltb_spec c 0x10000)];
    (eexists _, _, _, _; split; [reflexivity|]; split; [auto using Forall_cons_2, Forall_nil_2|]; split; [simpl; lia|];
     split; [lia|]; split; [lia|]; split; [rewrite lead_spec by (unfold is_uint; lia)|]).
  - rewrite (proj2 (Z.ltb_ge _ 0xc0)), (proj2 (Z.ltb_lt _ 0xe0)) by lia. reflexivity.
  - cbn [length foldl]. unfold trail. change (2 ^ (20 - 6 * Z.of_nat 1 + 6)) with 1048576. lia.
  - rewrite (proj2 (Z.ltb_ge _ 0xc0)), (proj2 (Z.ltb_ge _ 0xe0)), (proj2 (Z.ltb_lt _ 0xf0)) by lia. reflexivity.
  - cbn [length foldl]. unfold trail. change (2 ^ (20 - 6 * Z.of_nat 2 + 6)) with 16384. lia.
  - rewrite (proj2 (Z.ltb_ge _ 0xc0)), (proj2 (Z.ltb_ge _ 0xe0)), (proj2 (Z.ltb_ge _ 0xf0)), (proj2 (Z.ltb_lt _ 0xf8)) by lia. reflexivity.
  - cbn [length foldl]. unfold trail. change (2 ^ (20 - 6 * Z.of_nat 3 + 6)) with 256. lia.
Qed.

Lemma next_utf8_run l c k size : scalar c -> zlen (l ++ utf8 c) <= size ->
  next_scalar (l ++ utf8 c ++ k) size (zlen l) ORIGIN_UTF8 = Some (c, zlen (l ++ utf8 c)).
Proof.
  intros Hc Hs. assert (Hc0 : 0 <= c) by (unfold scalar in Hc; lia).
  assert (Hcore : next_utf8 (l ++ utf8 c ++ k) size (zlen l) = Some (c, zlen (l ++ utf8 c))).
  { unfold next_utf8, TW_ASCII_END. destruct (Z.ltb_spec c 0x80) as [Ha|Ha].
    - assert (Hu : utf8 c = [c]) by (unfold utf8; by rewrite (proj2 (Z.ltb_lt c 0x80))). rewrite Hu. cbn [app].
      rewrite at_byte_next, Z.geb_leb, (proj2 (Z.leb_gt 0x80 c)), <- zlen_snoc by lia. done.
    - destruct (utf8_parts c Hc Ha) as (b & ts & m & s & Hu & Hts & Hn & Hb & Hb80 & Hlead & Hs0 & Hm & Hval).
      rewrite Hu in Hs |- *. cbn [app]. rewrite at_byte_next, Z.geb_leb, (proj2 (Z.leb_le 0x80 b)), Hlead by lia.
      rewrite Hval at 1. apply sequence_run; try done. by rewrite <- Hval. }
  unfold next_scalar. rewrite Z.geb_leb, (proj2 (Z.leb_gt size (zlen l))).
  - cbn [Z.eqb ORIGIN_UTF8 ORIGIN_LATIN1 negb]. rewrite Hcore. by rewrite (proj2 (scalar_valid_spec c Hc0) Hc).
  - rewrite zlen_app in Hs. assert (0 < zlen (utf8 c)); [|lia]. unfold utf8. repeat case_match; simpl; lia.
Qed.

(** The encoder writes UTF-8. *)
Lemma mark_bits n a y : 0 <= n -> is_uint n y -> a * 2 ^ n .| y = a * 2 ^ n + y.
Proof. intros Hn Hy. rewrite <- Z.shiftl_mul_pow2, Z.lor_comm, lor_shiftl_add, Z.shiftl_mul_pow2 by done. lia. Qed.

Lemma encode_trail c : u8 (0x80 .| (c .& 0x3f)) = trail c.
Proof.
  change 0x3f with (2 ^ 6 - 1). rewrite land_mask by lia. change 0x80 with (2 * 2 ^ 6).
  pose proof (Z.mod_pos_bound c 64) as Hm. change (2 ^ 6) with 64 in *.
  rewrite (mark_bits 6) by (unfold is_uint; lia). rewrite wrap_id by (unfold is_uint; lia). done.
Qed.

Lemma encode_lead n a y : 0 <= n <= 8 -> is_uint n y -> 0 <= a * 2 ^ n <= 2 ^ 8 - 2 ^ n -> u8 (a * 2 ^ n .| y) = a * 2 ^ n + y.
Proof. intros Hn Hy Ha. rewrite mark_bits by (lia || done). unfold is_uint in Hy. apply wrap_id. unfold is_uint. lia. Qed.

Lemma encode_utf8_spec c : scalar c -> encode_utf8 c = utf8 c.
Proof.
  intros Hc. unfold scalar in Hc. unfold encode_utf8, utf8, TW_ASCII_END, TW_UTF8_TWO_END, TW_BMP_END.
  destruct (Z.ltb_spec c 0x80); [rewrite wrap_id by (unfold is_uint; lia); done|].
  destruct (Z.ltb_spec c 0x800); [|destruct (Z.ltb_spec c 0x10000)]; cbn [Nat.sub encode_trailing];
    rewrite !encode_trail, !Z.shiftr_div_pow2 by lia; change (2 ^ 6) with 64; rewrite ?Z.div_div by lia;
    repeat case_bool_decide; try lia; f_equal.
  - change 0xc0 with (6 * 2 ^ 5). apply encode_lead; unfold is_uint; lia.
  - change 0xe0 with (14 * 2 ^ 4). change (64 * 64) with 4096. apply encode_lead; unfold is_uint; lia.
  - change 0xf0 with (30 * 2 ^ 3). apply encode_lead; unfold is_uint; lia.
Qed.

Lemma utf8_bytes c : scalar c -> bytes_ok (utf8 c).
Proof.
  intros Hc. unfold scalar in Hc. unfold utf8, trail, bytes_ok, is_uint.
  repeat case_match; repeat apply Forall_cons_2; try apply Forall_nil_2; lia.
Qed.

(** ** UTF-16 *)

Definition utf16 (c : Z) : list Z :=
  if c <? 0x10000 then [c mod 256; c / 256]
  else
    let v := c - 0x10000 in
    [v / 1024 mod 256; (0xd800 + v / 1024) / 256; v mod 256; (0xdc00 + v mod 1024) / 256].

Lemma encode_utf16_spec c : scalar c -> encode_utf16 c = utf16 c.
Proof.
  intros Hc. unfold scalar in Hc. unfold encode_utf16, utf16, TW_BMP_END, TW_HIGH_SURROGATE, TW_LOW_SURROGATE.
  change 0x3ff with (2 ^ 10 - 1). rewrite !land_mask, !Z.shiftr_div_pow2 by lia. unfold wrap. change (2 ^ 8) with 256. change (2 ^ 10) with 1024.
  destruct (Z.ltb_spec c 0x10000); repeat (apply (f_equal2 (@cons Z)); [lia|]); done.
Qed.

Lemma read_utf16_spec l lo hi k : is_uint 8 lo -> is_uint 8 hi -> read_utf16 (l ++ lo :: hi :: k) (zlen l) = lo + hi * 256.
Proof.
  intros Hlo Hhi. unfold read_utf16. rewrite at_byte_next, shift_byte, (zlen_snoc l lo), at_byte_next. unfold is_uint in *.
  rewrite (wrap_id 32) by (rewrite Z.shiftl_mul_pow2 by lia; unfold is_uint; lia). apply (lor_shiftl_add lo hi 8). done.
Qed.

Lemma next_utf16_run l c k size : scalar c -> zlen (l ++ utf16 c) <= size ->
  next_utf16 (l ++ utf16 c ++ k) size (zlen l) = Some (c, zlen (l ++ utf16 c)).
Proof.
  intros Hc Hs. unfold scalar in Hc. rewrite zlen_app in *. unfold next_utf16, TW_HIGH_SURROGATE, TW_LOW_SURROGATE, TW_SURROGATE_END, TW_BMP_END.
  revert Hs. unfold utf16. destruct (Z.ltb_spec c 0x10000) as [Hb|Hb]; cbn [length app]; intros Hs.
  - rewrite (proj2 (Z.ltb_ge _ 2)) by lia. rewrite read_utf16_spec by (unfold is_uint; lia).
    replace (c mod 256 + c / 256 * 256) with c by lia.
    destruct ((c >=? 0xd800) && (c <? 0xdc00)) eqn:E; [|done].
    rewrite Z.geb_leb, andb_true_iff, Z.leb_le, Z.ltb_lt in E. lia.
  - rewrite (proj2 (Z.ltb_ge _ 2)) by lia. rewrite read_utf16_spec by (unfold is_uint; lia). set (v := c - 0x10000) in *.
    replace (v / 1024 mod 256 + (0xd800 + v / 1024) / 256 * 256) with (0xd800 + v / 1024) by lia.
    rewrite Z.geb_leb, (proj2 (Z.leb_le 0xd800 _)), (proj2 (Z.ltb_lt _ 0xdc00)) by lia. cbn [andb].
    rewrite (proj2 (Z.ltb_ge _ 2)) by lia.
    do 2 rewrite shift_byte. replace (zlen l + 2) with (zlen ((l ++ [v / 1024 mod 256]) ++ [(0xd800 + v / 1024) / 256])) by (rewrite <- !zlen_snoc; lia).
    rewrite read_utf16_spec by (unfold is_uint; lia).
    replace (v mod 256 + (0xdc00 + v mod 1024) / 256 * 256) with (0xdc00 + v mod 1024) by lia.
    rewrite Z.geb_leb, (proj2 (Z.ltb_ge _ 0xdc00)), (proj2 (Z.leb_gt 0xe000 _)) by lia. cbn [orb].
    replace (0xd800 + v / 1024 - 0xd800) with (v / 1024) by lia. rewrite Z.shiftl_mul_pow2 by lia. change (2 ^ 10) with 1024.
    rewrite wrap_id by (unfold is_uint; lia). rewrite <- !zlen_snoc. f_equal. f_equal; lia.
Qed.

Lemma utf16_bytes c : scalar c -> bytes_ok (utf16 c).
Proof.
  intros Hc. unfold scalar in Hc. unfold utf16, bytes_ok, is_uint.
  case_match; repeat apply Forall_cons_2; try apply Forall_nil_2; lia.
Qed.

(** ** The forms of a string *)

(** The code units of a scalar value in each of the four origins. *)
Definition units (origin c : Z) : list Z :=
  if origin =? ORIGIN_UTF8 then utf8 c else if origin =? ORIGIN_LATIN1 then [c] else utf16 c.

(** What the origin can say. *)
Definition sayable (origin c : Z) : Prop := scalar c /\ (origin = ORIGIN_LATIN1 -> c < 256).

Definition encoded (origin : Z) (cs : list Z) : list Z := concat (map (units origin) cs).

Lemma units_positive origin c : 0 < zlen (units origin c).
Proof. unfold units, utf8, utf16. repeat case_match; simpl; lia. Qed.

Lemma next_scalar_run origin l c k size : sayable origin c -> zlen (l ++ units origin c) <= size ->
  next_scalar (l ++ units origin c ++ k) size (zlen l) origin = Some (c, zlen (l ++ units origin c)).
Proof.
  intros [Hc H1] Hs. assert (Hc0 : 0 <= c) by (unfold scalar in Hc; lia).
  destruct (decide (origin = ORIGIN_UTF8)) as [->|H8]; [by apply next_utf8_run|].
  pose proof (units_positive origin c) as Hpos. unfold next_scalar.
  rewrite Z.geb_leb, (proj2 (Z.leb_gt size (zlen l))) by (rewrite zlen_app in Hs; lia).
  revert Hs. clear Hpos. unfold units. rewrite (proj2 (Z.eqb_neq origin ORIGIN_UTF8) H8).
  destruct (Z.eqb_spec origin ORIGIN_LATIN1) as [E|E]; intros Hs.
  - cbn [app]. by rewrite at_byte_next, <- zlen_snoc.
  - cbn [negb]. by rewrite next_utf16_run, (proj2 (scalar_valid_spec c Hc0) Hc).
Qed.


End StringCodec.
