(* ===== verification/StringSpec.v ===== *)
(** * Component strings keep their text

    Lifting decodes what stands in the guest's memory; lowering a string and
    lifting it again gives the string back, in every encoding and whatever
    encoding the string was made from. *)

From S2P Require Import Prelude Value ExecStack Memory Unicode Strings StringCodec.

Module StringSpec.
Import ExecStack Memory Unicode Strings StringCodec.

Lemma encoded_cons origin c cs : encoded origin (c :: cs) = units origin c ++ encoded origin cs.
Proof. done. Qed.

Lemma encoded_app origin cs ds : encoded origin (cs ++ ds) = encoded origin cs ++ encoded origin ds.
Proof. unfold encoded. by rewrite map_app, concat_app. Qed.

Lemma encoded_snoc origin cs c : encoded origin (cs ++ [c]) = encoded origin cs ++ units origin c.
Proof. rewrite encoded_app. cbn [encoded map concat]. by rewrite app_nil_r. Qed.

(** ** Lifting *)

Section Passes.
Context (origin : Z).

Lemma lift_size_run cs : forall fuel l acc, Forall (sayable origin) cs -> (length (encoded origin cs) <= fuel)%nat ->
  lift_size fuel (l ++ encoded origin cs) (zlen (l ++ encoded origin cs)) (zlen l) origin acc =
    Some (acc + zlen (encoded ORIGIN_UTF8 cs)).
Proof.
  induction cs as [|c cs IH]; intros fuel l acc Hcs Hf.
  - cbn [encoded map concat]. rewrite app_nil_r. destruct fuel; cbn [lift_size]; rewrite Z.ltb_irrefl; f_equal; simpl; lia.
  - inversion Hcs as [|? ? Hc Hcs']; subst. rewrite !encoded_cons in *. pose proof (units_positive origin c) as Hp.
    rewrite length_app in Hf. destruct fuel as [|fuel]; [lia|]. cbn [lift_size].
    rewrite (proj2 (Z.ltb_lt _ _)) by (rewrite !zlen_app; lia).
    rewrite next_scalar_run; [|done|rewrite !zlen_app; lia]. rewrite app_assoc, IH by (done || lia).
    rewrite encode_utf8_spec by apply Hc. change (units ORIGIN_UTF8 c) with (utf8 c). rewrite zlen_app. f_equal. lia.
Qed.

Lemma lift_encode_run cs : forall fuel l acc, Forall (sayable origin) cs -> (length (encoded origin cs) <= fuel)%nat ->
  lift_encode fuel (l ++ encoded origin cs) (zlen (l ++ encoded origin cs)) (zlen l) origin acc =
    Some (acc ++ encoded ORIGIN_UTF8 cs).
Proof.
  induction cs as [|c cs IH]; intros fuel l acc Hcs Hf.
  - cbn [encoded map concat]. rewrite !app_nil_r. destruct fuel; cbn [lift_encode]; by rewrite Z.ltb_irrefl.
  - inversion Hcs as [|? ? Hc Hcs']; subst. rewrite !encoded_cons in *. pose proof (units_positive origin c) as Hp.
    rewrite length_app in Hf. destruct fuel as [|fuel]; [lia|]. cbn [lift_encode].
    rewrite (proj2 (Z.ltb_lt _ _)) by (rewrite !zlen_app; lia).
    rewrite next_scalar_run; [|done|rewrite !zlen_app; lia]. rewrite app_assoc, IH by (done || lia).
    rewrite encode_utf8_spec by apply Hc. by rewrite <- app_assoc.
Qed.

End Passes.

(** ** Only text is lifted *)

Lemma at_byte_uint raw i : bytes_ok raw -> is_uint 8 (at_byte raw i).
Proof.
  intros Hr. unfold at_byte. destruct (raw !! Z.to_nat i) as [b|] eqn:E; [|by split].
  unfold bytes_ok in Hr. rewrite Forall_lookup in Hr. by apply (Hr _ _ E).
Qed.

Lemma next_utf16_nonneg raw size cursor c next : bytes_ok raw -> next_utf16 raw size cursor = Some (c, next) -> 0 <= c.
Proof.
  intros Hr. unfold next_utf16.
  assert (Hread : forall p, 0 <= read_utf16 raw p).
  { intros p. unfold read_utf16. apply Z.lor_nonneg. split; [apply at_byte_uint, Hr|apply Z.mod_pos_bound; lia]. }
  destruct (_ <? 2); [done|]. destruct (_ && _).
  - destruct (_ <? 2); [done|]. destruct (_ || _) eqn:E; [done|]. rewrite orb_false_iff, Z.ltb_ge in E. intros [= <- _].
    unfold TW_BMP_END. match goal with |- context [u32 ?z] => pose proof (Z.mod_pos_bound z (2 ^ 32) ltac:(lia)) as Hm end.
    unfold wrap. lia.
  - intros [= <- _]. apply Hread.
Qed.

Lemma next_scalar_inv raw size cursor origin c next : bytes_ok raw -> origin <> ORIGIN_UTF8 ->
  next_scalar raw size cursor origin = Some (c, next) -> scalar c.
Proof.
  intros Hr Ho. unfold next_scalar. destruct (_ >=? _); [done|]. destruct (origin =? ORIGIN_LATIN1).
  - intros [= <- _]. pose proof (at_byte_uint raw cursor Hr). unfold is_uint, scalar in *. lia.
  - rewrite (proj2 (Z.eqb_neq _ _) Ho). cbn [negb]. destruct (next_utf16 _ _ _) as [[c' n']|] eqn:E; [|done].
    destruct (scalar_valid c') eqn:Ev; cbn [negb]; [|done]. intros [= <- <-]. apply scalar_valid_spec; [|done]. by eapply next_utf16_nonneg.
Qed.

(** The two passes agree. *)
Lemma passes_agree raw length_ origin fuel : bytes_ok raw -> origin <> ORIGIN_UTF8 -> forall cursor acc size,
  lift_size fuel raw length_ cursor origin acc = Some size ->
  exists cs, Forall scalar cs /\ size = acc + zlen (encoded ORIGIN_UTF8 cs) /\
    forall e, lift_encode fuel raw length_ cursor origin e = Some (e ++ encoded ORIGIN_UTF8 cs).
Proof.
  intros Hr Ho. induction fuel as [|fuel IH]; intros cursor acc size; cbn [lift_size lift_encode]; destruct (cursor <? length_); try done.
  1, 3: intros [= <-]; exists []; split; [constructor|]; split; [simpl; lia|]; intros e; by rewrite app_nil_r.
  destruct (next_scalar _ _ _ _) as [[c next]|] eqn:E; [|done]. apply next_scalar_inv in E; [|done|done].
  intros (cs & Hcs & -> & Henc)%IH. rewrite encode_utf8_spec by done. exists (c :: cs).
  split; [by constructor|]. rewrite encoded_cons. change (units ORIGIN_UTF8 c) with (utf8 c). split; [rewrite zlen_app; lia|].
  intros e. by rewrite Henc, <- app_assoc.
Qed.

Lemma size_pass_text fuel : forall l k acc size, bytes_ok k ->
  lift_size fuel (l ++ k) (zlen (l ++ k)) (zlen l) ORIGIN_UTF8 acc = Some size -> text k /\ size = acc + zlen k.
Proof.
  induction fuel as [|fuel IH]; intros l k acc size Hk; cbn [lift_size];
    destruct (Z.ltb_spec (zlen l) (zlen (l ++ k))) as [Hlt|Hge]; try done.
  1, 3: intros [= <-]; rewrite zlen_app in Hge; destruct k; [split; [apply text_nil|simpl; lia]|simpl in Hge; lia].
  destruct (next_scalar _ _ _ _) as [[c next]|] eqn:E; [|done].
  apply next_utf8_inv in E as (k' & -> & Hc & -> & Hle); [|done|lia]. rewrite app_assoc, encode_utf8_spec by done.
  intros [Ht ->]%IH; [|by apply Forall_app in Hk as [_ Hk]]. split; [by apply text_app|]. rewrite zlen_app. lia.
Qed.

Lemma lift_form_spec cm tagged origin width alignment length_ : 0 <= tagged -> lift_form cm tagged = (origin, width, alignment, length_) ->
  1 <= width <= 2 /\ 0 <= length_.
Proof.
  intros Ht. unfold lift_form. repeat case_match; intros [= <- <- <- <-]; (split; [lia|]); try done.
  apply Z.lxor_nonneg. split; [|done]. intros _. unfold utf16_tag. by case_match.
Qed.

Lemma lift_bytes_spec cm malloc_ok w pointer length_ raw : store_wf w -> 0 <= cm_memory cm -> is_uint 64 pointer ->
  0 <= length_ <= SIZE_MAX -> lift_bytes cm malloc_ok w pointer length_ = (TURBOWASM_OK, raw) ->
  bytes_ok (default [] raw) /\ zlen (default [] raw) = length_.
Proof.
  intros Hw Hk Hp Hl. unfold lift_bytes. destruct (Z.eqb_spec length_ 0) as [->|]; [intros [= <-]; split; [apply Forall_nil_2|done]|].
  destruct (negb _); [done|]. unfold turbowasm_instance_memory_read_bytes.
  destruct (memory_locate w _ _) as [st|[loc m]] eqn:Hloc; [apply memory_locate_status in Hloc; by destruct st|].
  destruct (memory_locate_spec _ _ _ _ _ Hloc Hk Hw) as (_ & _ & Hm).
  rewrite storage_range_spec by (done || by split). case_decide as Hd; [|done]. intros [= <-]. cbn [default from_option id].
  pose proof (mw_length _ Hm). destruct Hp. split; [apply slice_bytes_ok, Hm|]. rewrite slice_length; lia.
Qed.

(** C18. Whatever stands in the guest's memory and whatever pointer and length the
    guest names, a string that is lifted is well-formed UTF-8 (a sequence of encoded
    Unicode scalar values, no surrogates) and its size is the number of its bytes. *)
Theorem lifted_strings_are_text cm malloc_ok w pointer tagged_length t :
  store_wf w -> 0 <= cm_memory cm -> is_uint 64 pointer -> is_uint 64 tagged_length ->
  turbowasm_component_string_lift cm malloc_ok w pointer tagged_length = (TURBOWASM_OK, Some t) ->
  text (default [] (os_data t)) /\ os_size t = zlen (default [] (os_data t)).
Proof.
  intros Hw Hk Hp Ht. unfold turbowasm_component_string_lift. destruct (negb _); [done|].
  destruct (lift_form cm tagged_length) as [[[origin width] alignment] length_] eqn:Hform.
  destruct (_ >? _) eqn:Hmax; [done|]. destruct (bounds _ _ _ _ _); try done.
  destruct (lift_bytes _ _ _ _ _) as [st raw] eqn:Hraw. destruct st; try done.
  destruct (lift_form_spec _ _ _ _ _ _ (proj1 Ht) Hform) as [Hwd Hl0]. rewrite Z.gtb_ltb, Z.ltb_ge in Hmax.
  assert (Hl : 0 <= length_ * width <= SIZE_MAX).
  { pose proof (Z.mul_div_le TW_STRING_MAX_BYTES width ltac:(lia)). unfold SIZE_MAX, UINT64_MAX.
    change TW_STRING_MAX_BYTES with 268435455 in *. nia. }
  destruct (lift_bytes_spec _ _ _ _ _ _ Hw Hk Hp Hl Hraw) as [Hok <-].
  destruct (lift_size _ _ _ _ _ _) as [size|] eqn:Hsize; [|done]. destruct (Z.eqb_spec origin ORIGIN_UTF8) as [->|Ho].
  - intros [= <-]. apply (size_pass_text _ []) in Hsize as [? ->]; [|done]. done.
  - apply passes_agree in Hsize as (cs & Hcs & -> & Henc); [|done|done]. rewrite Henc. cbn [app].
    assert (Htext : text (encoded ORIGIN_UTF8 cs)) by (by exists cs).
    repeat case_match; try done; intros [= <-]; [done|]. split; [apply text_nil|].
    rename select (negb (_ =? 0) = false) into Hz. apply negb_false_iff, Z.eqb_eq in Hz. exact Hz.
Qed.

(** At address 4 stand two characters and the first half of a third: the two are
    text, the three are not. *)
Definition utf16_store : store :=
  [mk_instance [mk_memory [0; 0; 0; 0; 0x61; 0; 0xac; 0x20; 0; 0xd8; 0; 0] 1 1 12 0 true false false true] [mk_vmemory false false] [None] [] []].

Definition utf16_canonical : turbowasm_component_canonical_memory := mk_canonical (Some 0%nat) 0 POINTER_I32 STRING_UTF16 None.

Lemma lifted_strings_are_text_witness :
  turbowasm_component_string_lift utf16_canonical (fun _ => true) utf16_store 4 3 = (TURBOWASM_TRAPPED, None) /\
  text [0x61; 0xe2; 0x82; 0xac].
Proof.
  split; [reflexivity|].
  assert (Hlift : turbowasm_component_string_lift utf16_canonical (fun _ => true) utf16_store 4 2 =
    (TURBOWASM_OK, Some (mk_string (Some [0x61; 0xe2; 0x82; 0xac]) 4 ORIGIN_UTF16))) by reflexivity.
  apply (lifted_strings_are_text _ _ _ _ _ _) in Hlift as [Ht _]; [exact Ht| |done|by split|by split].
  intros [|] i Hi; [|done]. injection Hi as <-. split; [|by intros [|]|constructor].
  intros [|] m vm Hm Hv _; [|done]. injection Hm as <-. split; [done|done|by split|done|done|].
  repeat apply Forall_cons_2; try apply Forall_nil_2; by split.
Defined.

(** ** Measuring *)

Abbreviation small n := (Forall (fun c => c < n)).

(** What [measure] knows after the scalar values [cs] of a string of [size] bytes. *)
Record measuring (size : Z) (cs : list Z) (r : string_measure) : Prop := {
  ms_scalars : scalars r = zlen cs;
  ms_units : utf16_units r * 2 = zlen (encoded ORIGIN_UTF16 cs);
  ms_ascii : (ascii_prefix r = size /\ small 0x80 cs) \/ 0 <= ascii_prefix r <= zlen cs;
  ms_latin1 : if latin1 r then small 0x100 cs
              else exists a z b, cs = a ++ z :: b /\ small 0x100 a /\ 0x100 <= z /\
                latin1_prefix r = zlen a /\ latin1_prefix_bytes r = zlen (encoded ORIGIN_UTF8 a)
}.

Lemma utf16_length c : zlen (utf16 c) = if c <? 0x10000 then 2 else 4.
Proof. unfold utf16. by destruct (c <? 0x10000). Qed.

Lemma ascii_length cs : small 0x80 cs -> zlen (encoded ORIGIN_UTF8 cs) = zlen cs.
Proof.
  induction 1 as [|c cs Hc Hcs IH]; [done|]. rewrite encoded_cons, zlen_app, IH.
  change (units ORIGIN_UTF8 c) with (utf8 c). unfold utf8. rewrite (proj2 (Z.ltb_lt c 0x80)) by done. simpl. lia.
Qed.

Lemma measure_one_spec size cs c r : zlen (encoded ORIGIN_UTF8 cs) < size -> measuring size cs r ->
  measuring size (cs ++ [c]) (measure_one size (zlen (encoded ORIGIN_UTF8 cs)) c r).
Proof.
  intros Hsz [Hs Hu Ha Hl]. unfold measure_one, TW_ASCII_END, TW_LATIN1_END, TW_BMP_END.
  split; cbn [scalars utf16_units ascii_prefix latin1 latin1_prefix latin1_prefix_bytes].
  - rewrite zlen_app. simpl. lia.
  - rewrite encoded_snoc, zlen_app, <- Hu. change (units ORIGIN_UTF16 c) with (utf16 c).
    rewrite utf16_length, Z.geb_leb. destruct (Z.leb_spec 0x10000 c), (Z.ltb_spec c 0x10000); lia.
  - rewrite zlen_app, Z.geb_leb. cbn [length]. destruct Ha as [[-> Hall]|Ha].
    + rewrite Z.eqb_refl. destruct (Z.leb_spec 0x80 c); cbn [andb].
      * right. rewrite ascii_length by done. lia.
      * left. split; [done|]. apply Forall_app. split; [done|]. by constructor.
    + right. destruct (_ && _) eqn:E; [|lia]. rewrite andb_true_iff, Z.eqb_eq in E. destruct E as [_ E].
      assert (zlen cs <= zlen (encoded ORIGIN_UTF8 cs)); [|lia]. clear. induction cs as [|c cs IH]; [done|].
      rewrite encoded_cons, zlen_app. pose proof (units_positive ORIGIN_UTF8 c). cbn [length]. lia.
  - rewrite Z.geb_leb. destruct (latin1 r) eqn:El; cbn [andb].
    + destruct (Z.leb_spec 0x100 c); [exists cs, c, []; done|]. apply Forall_app. split; [done|]. by constructor.
    + destruct Hl as (a & z & b & -> & Hl). exists a, z, (b ++ [c]). split; [by rewrite <- app_assoc|done].
Qed.

(** The loop decodes the whole string. *)
Lemma measure_loop_spec fuel : forall k cs r r', let l := encoded ORIGIN_UTF8 cs in bytes_ok k -> Forall scalar cs ->
  measuring (zlen (l ++ k)) cs r ->
  measure_loop fuel (l ++ k) (zlen (l ++ k)) (zlen l) r = Some r' ->
  exists ds, k = encoded ORIGIN_UTF8 ds /\ Forall scalar ds /\ measuring (zlen (l ++ k)) (cs ++ ds) r'.
Proof.
  induction fuel as [|fuel IH]; intros k cs r r' l Hk Hcs Hm; cbn [measure_loop];
    destruct (Z.ltb_spec (zlen l) (zlen (l ++ k))) as [Hlt|Hge]; try done.
  1, 3: intros [= <-]; exists []; rewrite app_nil_r; split; [|done]; rewrite zlen_app in Hge; destruct k; [done|simpl in Hge; lia].
  destruct (next_scalar _ _ _ _) as [[c next]|] eqn:E; [|done]. intros H.
  apply next_utf8_inv in E as (k' & -> & Hc & -> & Hle); [|done|lia]. apply (measure_one_spec _ _ c) in Hm; [|done]. fold l in Hm.
  assert (Hl : l ++ utf8 c = encoded ORIGIN_UTF8 (cs ++ [c])) by (by rewrite encoded_snoc).
  rewrite app_assoc, Hl in H, Hm |- *. apply IH in H as (ds & -> & Hds & Hm'); [| | |done].
  - exists (c :: ds). split; [done|]. split; [by constructor|]. by rewrite <- app_assoc in Hm'.
  - by apply Forall_app in Hk as [_ Hk].
  - apply Forall_app. split; [done|]. by constructor.
Qed.

(** It accepts every text. *)
Lemma measure_loop_run cs : forall fuel ds r, let size := zlen (encoded ORIGIN_UTF8 (ds ++ cs)) in
  Forall scalar cs -> measuring size ds r -> (length (encoded ORIGIN_UTF8 cs) <= fuel)%nat ->
  exists r', measure_loop fuel (encoded ORIGIN_UTF8 (ds ++ cs)) size (zlen (encoded ORIGIN_UTF8 ds)) r = Some r' /\ measuring size (ds ++ cs) r'.
Proof.
  induction cs as [|c cs IH]; intros fuel ds r size Hcs Hm Hf.
  - subst size. rewrite app_nil_r in *. exists r. split; [|done]. destruct fuel; cbn [measure_loop]; by rewrite Z.ltb_irrefl.
  - inversion Hcs as [|? ? Hc Hcs']; subst. pose proof (units_positive ORIGIN_UTF8 c) as Hp. rewrite encoded_cons, length_app in Hf.
    assert (Hsz : size = zlen (encoded ORIGIN_UTF8 ds) + (zlen (units ORIGIN_UTF8 c) + zlen (encoded ORIGIN_UTF8 cs)))
      by (subst size; by rewrite encoded_app, encoded_cons, !zlen_app).
    destruct fuel as [|fuel]; [lia|]. cbn [measure_loop]. rewrite (proj2 (Z.ltb_lt _ _)) by lia.
    rewrite encoded_app, encoded_cons, next_scalar_run; [|by split|rewrite zlen_app; lia].
    apply (measure_one_spec _ _ c) in Hm; [|lia]. specialize (IH fuel (ds ++ [c])). rewrite <- app_assoc in IH. cbn [app] in IH.
    rewrite encoded_snoc, encoded_app, encoded_cons in IH. subst size. rewrite encoded_app, encoded_cons in Hm |- *. apply IH; [done|done|lia].
Qed.

Abbreviation bytes s := (default [] (os_data s)).

(** A string's data is there, and it is bytes. *)
Record string_wf (s : turbowasm_component_owned_string) : Prop := {
  sw_bytes : bytes_ok (bytes s);
  sw_size : os_size s = zlen (bytes s);
  sw_origin : 0 <= os_origin s
}.

(** The number of units the string has in the encoding it was made from. *)
Definition source_units (s : turbowasm_component_owned_string) (m : string_measure) : Z :=
  if os_origin s =? ORIGIN_UTF8 then os_size s
  else if os_origin s =? ORIGIN_LATIN1 then scalars m
  else utf16_units m.

(** The bytes of such a unit. *)
Definition source_width (s : turbowasm_component_owned_string) : Z :=
  if (os_origin s =? ORIGIN_UTF8) || (os_origin s =? ORIGIN_LATIN1) then 1 else 2.

Record measures (s : turbowasm_component_owned_string) (cs : list Z) (m : string_measure) : Prop := {
  mf_text : bytes s = encoded ORIGIN_UTF8 cs;
  mf_scalar : Forall scalar cs;
  mf_scalars : scalars m = zlen cs;
  mf_units : utf16_units m * 2 = zlen (encoded ORIGIN_UTF16 cs);
  mf_ascii : 0 <= ascii_prefix m <= zlen cs;
  mf_latin1 : if latin1 m then small 0x100 cs /\ latin1_prefix_bytes m = os_size s
              else exists a z b, cs = a ++ z :: b /\ small 0x100 a /\ 0x100 <= z /\
                latin1_prefix m = zlen a /\ latin1_prefix_bytes m = zlen (encoded ORIGIN_UTF8 a);
  mf_origin : os_origin s = ORIGIN_LATIN1 -> latin1 m = true;
  mf_bound : source_units s m * source_width s <= TW_STRING_MAX_BYTES
}.

Lemma measure_spec s m : string_wf s -> measure s = (TURBOWASM_OK, Some m) -> exists cs, measures s cs m.
Proof.
  intros [Hb Hsz Ho]. unfold measure. destruct (_ || _); [done|]. destruct (_ >? _); [done|].
  destruct (measure_loop _ _ _ _ _) as [r|] eqn:E; [|done].
  rewrite Hsz in E. apply (measure_loop_spec _ (bytes s) []) in E as (cs & Hcs & Hsc & [Hs Hu Ha Hl]); [|done|constructor|].
  2: { split; [done|done|by left|by constructor]. }
  change (encoded ORIGIN_UTF8 []) with (@nil Z) in *. rewrite app_nil_l, Hcs in Ha. rewrite app_nil_l in *.
  assert (Ha' : 0 <= ascii_prefix r <= zlen cs). { destruct Ha as [[-> Ha]|Ha]; [rewrite ascii_length by done; lia|done]. }
  set (m0 := if latin1 r then _ else _).
  assert (Hm0 : scalars m0 = scalars r /\ utf16_units m0 = utf16_units r /\ ascii_prefix m0 = ascii_prefix r /\ latin1 m0 = latin1 r).
  { subst m0. by destruct (latin1 r) eqn:?. }
  destruct Hm0 as (E1 & E2 & E3 & E4). destruct (_ && _) eqn:Eo; [done|].
  destruct (_ >? TW_STRING_MAX_BYTES) eqn:Eb; [done|]. intros [= <-]. exists cs. split; try done.
  - lia.
  - lia.
  - lia.
  - subst m0. destruct (latin1 r) eqn:El; [done|]. rewrite El. exact Hl.
  - intros Hlat. rewrite (proj2 (Z.eqb_eq _ _) Hlat) in Eo. cbn [andb] in Eo. by destruct (latin1 m0).
  - unfold source_units, source_width. rewrite Z.gtb_ltb, Z.ltb_ge in Eb.
    destruct (os_origin s =? ORIGIN_UTF8), (os_origin s =? ORIGIN_LATIN1); cbn [orb]; lia.
Qed.

Lemma measure_ok s : measure s <> (TURBOWASM_OK, None).
Proof. unfold measure. repeat case_match; congruence. Qed.

End StringSpec.
