(* ===== verification/StringLower.v ===== *)
(** * Lowering component strings, and lifting them again

    The block of the guest's memory that a string is lowered into, as a list of
    bytes: [resize] keeps what fits, writing changes the bytes it names, and
    nothing else stops [turbowasm_component_string_lower] but a refusal of the
    guest's [realloc]. *)

From S2P Require Import Prelude Value ExecStack Memory Unicode Strings StringCodec StringSpec.

Module StringLower.
Import ExecStack Memory Unicode Strings StringCodec StringSpec.

(** ** Lists of bytes *)

Lemma slice_slice d p n q k : 0 <= p -> 0 <= q -> 0 <= k -> q + k <= n -> slice (slice d p n) q k = slice d (p + q) k.
Proof.
  intros. unfold slice. rewrite skipn_firstn_comm, drop_drop, firstn_firstn. f_equal; [lia|]. f_equal. lia.
Qed.

Lemma take_slice d p n k : 0 <= k <= n -> take (Z.to_nat k) (slice d p n) = slice d p k.
Proof. intros. unfold slice. rewrite firstn_firstn. f_equal. lia. Qed.

Lemma slice_splice_in d p n off x : 0 <= p -> 0 <= off -> off + zlen x <= n -> p + n <= zlen d ->
  slice (splice d (p + off) x) p n = splice (slice d p n) off x.
Proof.
  intros. apply list_eq. intros i. destruct (decide (i < Z.to_nat n)%nat).
  - rewrite slice_lookup, !splice_lookup, slice_lookup; try (rewrite ?slice_length; lia).
    repeat case_decide; try lia; f_equal; lia.
  - rewrite !lookup_ge_None_2; [done| |]; rewrite ?splice_length, ?slice_length; rewrite ?splice_length, ?slice_length; lia.
Qed.

Lemma splice_app (d x k : list Z) : (length x <= length k)%nat -> splice (d ++ k) (zlen d) x = (d ++ x) ++ drop (length x) k.
Proof.
  intros. unfold splice. rewrite <- app_assoc. rewrite take_app_length' by lia. do 2 f_equal.
  rewrite drop_app_ge by lia. f_equal. lia.
Qed.

(** ** How long a text is in each form *)

Lemma utf8_length c : 0 <= c ->
  zlen (utf8 c) = if c <? 0x80 then 1 else if c <? 0x800 then 2 else if c <? 0x10000 then 3 else 4.
Proof. intros Hc. unfold utf8. by repeat case_match. Qed.

Lemma lengths cs : Forall scalar cs ->
  zlen cs * 2 <= zlen (encoded ORIGIN_UTF16 cs) <= 2 * zlen (encoded ORIGIN_UTF8 cs) /\
  2 * zlen (encoded ORIGIN_UTF8 cs) <= 3 * zlen (encoded ORIGIN_UTF16 cs) /\ zlen cs <= zlen (encoded ORIGIN_UTF8 cs).
Proof.
  intros Hcs. induction Hcs as [|c cs Hc Hcs IH]; [done|]. rewrite !encoded_cons, !zlen_app. cbn [length].
  change (units ORIGIN_UTF8 c) with (utf8 c). change (units ORIGIN_UTF16 c) with (utf16 c).
  rewrite utf16_length, utf8_length by (unfold scalar in Hc; lia). revert IH.
  destruct (Z.ltb_spec c 0x80), (Z.ltb_spec c 0x800), (Z.ltb_spec c 0x10000); lia.
Qed.

Lemma lengths_latin1 cs : Forall scalar cs -> small 0x100 cs ->
  zlen (encoded ORIGIN_UTF16 cs) = zlen cs * 2 /\ zlen (encoded ORIGIN_UTF8 cs) <= zlen cs * 2.
Proof.
  intros Hcs Hs. induction Hcs as [|c cs Hc Hcs IH]; [done|]. inversion Hs as [|? ? Hc1 Hs']; subst. specialize (IH Hs').
  rewrite !encoded_cons, !zlen_app. cbn [length].
  change (units ORIGIN_UTF8 c) with (utf8 c). change (units ORIGIN_UTF16 c) with (utf16 c).
  rewrite utf16_length, utf8_length by (unfold scalar in Hc; lia). revert IH.
  destruct (Z.ltb_spec c 0x80), (Z.ltb_spec c 0x800), (Z.ltb_spec c 0x10000); lia.
Qed.

(** ** The tag of a UTF-16 length *)

Lemma tag_clear k u : 0 <= k -> 0 <= u < 2 ^ k -> u .& (1 ≪ k) = 0.
Proof.
  intros Hk0 Hu. apply Z.bits_inj. intros i. rewrite Z.land_spec, Z.bits_0. destruct (Z.ltb_spec i 0); [by rewrite !Z.testbit_neg_r|].
  rewrite Z.shiftl_1_l, Z.pow2_bits_eqb by lia. destruct (Z.eqb_spec k i) as [<-|]; [|apply andb_false_r].
  rewrite andb_true_r. rewrite Z.testbit_false, Z.div_small by lia. done.
Qed.

Lemma tag_set k u : 0 <= k -> 0 <= u < 2 ^ k ->
  (u .| (1 ≪ k)) .& (1 ≪ k) = 1 ≪ k /\ (u .| (1 ≪ k)) .^ (1 ≪ k) = u.
Proof.
  intros Hk0 Hu. pose proof (tag_clear k u Hk0 Hu) as Hc. split.
  - apply Z.bits_inj. intros i. rewrite Z.land_spec, Z.lor_spec. by destruct (Z.testbit u i), (Z.testbit (1 ≪ k) i).
  - apply Z.bits_inj. intros i. apply (f_equal (fun z => Z.testbit z i)) in Hc. rewrite Z.land_spec, Z.bits_0 in Hc.
    rewrite Z.lxor_spec, Z.lor_spec. by destruct (Z.testbit u i), (Z.testbit (1 ≪ k) i).
Qed.

(** ** The guest's block *)

Section Block.
Context (cm : turbowasm_component_canonical_memory) (Hk : 0 <= cm_memory cm).

Abbreviation impl := (default 0%nat (cm_instance cm)).

(** [n] bytes at [p] of the memory hold [bs]. *)
Record block (w : store) (p n : Z) (bs : list Z) : Prop := {
  bl_wf : store_wf w;
  bl_pointer : is_uint 64 p;
  bl_size : 0 <= n <= UINT32_MAX;
  bl_memory : exists loc m, memory_locate w impl (cm_memory cm) = inr (loc, m) /\ shared m = false /\
    p + n <= memory_size m /\ slice (data m) p n = bs
}.

Lemma block_length w p n bs : block w p n bs -> zlen bs = n.
Proof.
  intros [Hw [Hp1 Hp2] Hn (loc & m & Hl & _ & Hs & <-)].
  destruct (memory_locate_spec _ _ _ _ _ Hl Hk Hw) as (_ & _ & Hm). pose proof (mw_length _ Hm).
  rewrite slice_length; lia.
Qed.

Lemma block_read w p n bs off k : block w p n bs -> 0 <= off -> 0 <= k -> off + k <= n ->
  turbowasm_instance_memory_read_bytes w impl (cm_memory cm) p off k = (TURBOWASM_OK, slice bs off k).
Proof.
  intros [Hw Hp Hn (loc & m & Hl & _ & Hs & <-)] Ho Hk0 Hin.
  destruct (memory_locate_spec _ _ _ _ _ Hl Hk Hw) as (_ & _ & Hm).
  unfold turbowasm_instance_memory_read_bytes. rewrite Hl, storage_range_spec; try done.
  - rewrite decide_True by lia. destruct Hp. by rewrite slice_slice by lia.
  - unfold is_uint. unfold UINT32_MAX in Hn. lia.
  - unfold UINT32_MAX, SIZE_MAX, UINT64_MAX in *. lia.
Qed.

Lemma block_write w p n bs off x : block w p n bs -> 0 <= off -> off + zlen x <= n -> bytes_ok x ->
  exists w', turbowasm_instance_memory_write_bytes w impl (cm_memory cm) p off x = (TURBOWASM_OK, w') /\
    block w' p n (splice bs off x).
Proof.
  intros [Hw Hp Hn (loc & m & Hl & Hsh & Hs & <-)] Ho Hin Hx.
  destruct (memory_locate_spec _ _ _ _ _ Hl Hk Hw) as (_ & Hat & Hm). pose proof (mw_length _ Hm) as Hlen.
  unfold turbowasm_instance_memory_write_bytes. rewrite Hl, storage_range_spec; try done.
  - rewrite decide_True by lia. eexists. split; [reflexivity|]. destruct Hp as [Hp0 Hp1].
    split; [|done|done|].
    + eapply put_wf; [done|done|]. apply splice_wf; try done; lia.
    + eexists loc, _. split; [by apply (put_locate _ _ _ _ _ _ _ _ Hat Hl)|]. rewrite decide_True by done.
      split; [done|]. split; [done|]. apply slice_splice_in; lia.
  - unfold is_uint. unfold UINT32_MAX in Hn. lia.
  - unfold UINT32_MAX, SIZE_MAX, UINT64_MAX in *. lia.
Qed.

Lemma block_bounds w p n bs a : block w p n bs -> 0 < a -> p mod a = 0 -> (pointer_type cm = POINTER_I32 -> p <= UINT32_MAX) ->
  bounds cm w p n a = TURBOWASM_OK.
Proof.
  intros [Hw Hp Hn (loc & m & Hl & Hsh & Hs & _)] Ha Hmod H32. unfold bounds.
  rewrite Hmod, Z.eqb_refl. cbn [negb orb]. unfold UINT32_MAX, SIZE_MAX, UINT64_MAX in *. rewrite !Z.gtb_ltb, (proj2 (Z.ltb_ge _ n)) by lia. cbn [orb].
  destruct (_ && _) eqn:E.
  { rewrite andb_true_iff, Z.eqb_eq, Z.ltb_lt in E. destruct E as [E ?]. specialize (H32 E). lia. }
  destruct (memory_locate_spec _ _ _ _ _ Hl Hk Hw) as (_ & _ & Hm).
  rewrite (bounds_spec _ _ _ _ _ _ _ _ Hl Hsh Hm), storage_range_spec; try (unfold is_uint, SIZE_MAX, UINT64_MAX in *; lia || done).
  by rewrite decide_True by lia.
Qed.

(** ** What the guest's [realloc] promises *)

(** A granted block holds what the old one held as far as both go. *)
Definition keeps_bytes (f : realloc_fn) : Prop := forall w p n bs a n' p' w',
  block w p n bs -> 0 <= n' <= UINT32_MAX -> f w p n a n' = (TURBOWASM_OK, p', w') -> bounds cm w' p' n' a = TURBOWASM_OK ->
  exists bs', block w' p' n' bs' /\ take (Z.to_nat (Z.min n n')) bs' = take (Z.to_nat (Z.min n n')) bs.

(** The status [e] of a [realloc] that fails, or whose block is out of bounds. *)
Definition refused (f : realloc_fn) (e : turbowasm_status) : Prop := e <> TURBOWASM_OK /\
  exists w p n a n' st p' w', f w p n a n' = (st, p', w') /\
    e = (if decide (st = TURBOWASM_OK) then bounds cm w' p' n' a else st).

(** A request without an alignment that is granted at an odd address, in a guest whose
    strings are Latin-1 or UTF-16. *)
Definition misplaced (f : realloc_fn) : Prop := string_encoding cm = STRING_LATIN1_UTF16 /\
  exists w p n n' p' w', f w p n 1 n' = (TURBOWASM_OK, p', w') /\ p' mod 2 <> 0.

(** What else the guest's memory keeps while a block lies at [p], as far as [realloc]
    and writing into the block are concerned. *)
Definition keeps_under (J : store -> Z -> Z -> Prop) (f : realloc_fn) : Prop := forall w p n bs a n' p' w',
  block w p n bs -> J w p n -> 0 <= n' <= UINT32_MAX -> f w p n a n' = (TURBOWASM_OK, p', w') -> bounds cm w' p' n' a = TURBOWASM_OK ->
  J w' p' n' /\
  exists bs', block w' p' n' bs' /\ take (Z.to_nat (Z.min n n')) bs' = take (Z.to_nat (Z.min n n')) bs.

Definition writes_under (J : store -> Z -> Z -> Prop) : Prop := forall w p n bs off x w',
  block w p n bs -> J w p n -> 0 <= off -> off + zlen x <= n -> bytes_ok x ->
  turbowasm_instance_memory_write_bytes w impl (cm_memory cm) p off x = (TURBOWASM_OK, w') -> J w' p n.

Context (J : store -> Z -> Z -> Prop) (Hwrite : writes_under J).
Context (f : realloc_fn) (Hf : guest_realloc cm = Some f) (Hkeep : keeps_under J f).

Record holds (g : guest_string) (bs : list Z) : Prop := {
  ho_block : block (g_store g) (g_pointer g) (g_capacity g) bs;
  ho_fits : pointer_type cm = POINTER_I32 -> g_pointer g <= UINT32_MAX
}.

(** From a block that holds [bs], [m] succeeds with [Q], or the guest refuses. *)
Definition spec {A} (bs : list Z) (m : gm A) (Q : A -> list Z -> Prop) : Prop := forall g, holds g bs ->
  J (g_store g) (g_pointer g) (g_capacity g) ->
  match m g with
  | (inr a, g') => exists bs', holds g' bs' /\ J (g_store g') (g_pointer g') (g_capacity g') /\ Q a bs'
  | (inl e, _) => refused f e
  end.

Lemma spec_ret {A} bs (a : A) (Q : A -> list Z -> Prop) : Q a bs -> spec bs (mret a) Q.
Proof. intros HQ g Hg HJ. cbn. eauto. Qed.

Lemma spec_bind {A B} bs (m : gm A) (k : A -> gm B) Q : spec bs m (fun a bs' => spec bs' (k a) Q) -> spec bs (m ≫= k) Q.
Proof.
  intros Hm g Hg HJ. specialize (Hm g Hg HJ). unfold mbind, gm_bind. destruct (m g) as [[e|a] g']; [done|].
  destruct Hm as (bs' & Hg' & HJ' & Hk'). apply (Hk' _ Hg' HJ').
Qed.

Lemma spec_mono {A} bs (m : gm A) (Q R : A -> list Z -> Prop) : spec bs m Q -> (forall a bs', Q a bs' -> R a bs') -> spec bs m R.
Proof. intros Hm HQR g Hg HJ. specialize (Hm g Hg HJ). destruct (m g) as [[e|a] g']; [done|]. destruct Hm as (bs' & ? & ? & ?). eauto. Qed.

Lemma spec_resize bs a n (Q : unit -> list Z -> Prop) : 0 <= n <= UINT32_MAX ->
  (forall bs', zlen bs' = n -> take (Z.to_nat (Z.min (zlen bs) n)) bs' = take (Z.to_nat (Z.min (zlen bs) n)) bs -> Q tt bs') ->
  spec bs (resize cm a n) Q.
Proof.
  intros Hn HQ g [Hb H32] HJ. pose proof (block_length _ _ _ _ Hb) as Hl. unfold resize.
  rewrite Z.gtb_ltb, (proj2 (Z.ltb_ge _ n)), Hf by lia.
  destruct (f _ _ _ _ _) as [[st p'] w'] eqn:E. case_bool_decide as Hst; cbn [negb].
  - subst st. destruct (bounds cm w' p' n a) eqn:Eb; try (split; [done|]; eexists _, _, _, _, _, _, _, _; split; [exact E|]; by rewrite decide_True).
    destruct (Hkeep _ _ _ _ _ _ _ _ Hb HJ Hn E Eb) as (HJ' & bs' & Hb' & Hsame). exists bs'. rewrite <- Hl in Hsame.
    split; [|split; [done|apply HQ; [by eapply block_length|done]]]. split; [done|]. cbn [g_pointer].
    unfold bounds in Eb. destruct (_ || _) eqn:Eo; [done|]. rewrite !orb_false_iff, andb_false_iff, Z.eqb_neq, Z.gtb_ltb, Z.ltb_ge in Eo.
    rewrite Z.gtb_ltb, Z.ltb_ge in Eo. tauto.
  - split; [done|]. eexists _, _, _, _, _, _, _, _. split; [exact E|]. by rewrite decide_False.
Qed.

Lemma spec_grow bs a n (Q : unit -> list Z -> Prop) : zlen bs <= n <= UINT32_MAX ->
  (forall junk, zlen junk = n - zlen bs -> Q tt (bs ++ junk)) -> spec bs (resize cm a n) Q.
Proof.
  intros Hn HQ. apply spec_resize; [lia|]. intros bs' Hl Ht. rewrite Z.min_l in Ht by lia. rewrite Nat2Z.id in Ht.
  rewrite <- (take_drop (length bs) bs'), Ht, (firstn_all bs). apply HQ. rewrite length_drop. lia.
Qed.

Lemma spec_cut bs a n (Q : unit -> list Z -> Prop) : 0 <= n <= zlen bs -> zlen bs <= UINT32_MAX ->
  Q tt (take (Z.to_nat n) bs) -> spec bs (resize cm a n) Q.
Proof.
  intros Hn Hmax HQ. apply spec_resize; [lia|]. intros bs' Hl Ht. rewrite Z.min_r in Ht by lia.
  rewrite (take_ge bs') in Ht by lia. by rewrite Ht.
Qed.

Lemma spec_write bs off x (Q : unit -> list Z -> Prop) : 0 <= off -> off + zlen x <= zlen bs -> bytes_ok x ->
  Q tt (splice bs off x) -> spec bs (write_bytes cm off x) Q.
Proof.
  intros Ho Hin Hx HQ g [Hb H32] HJ. pose proof (block_length _ _ _ _ Hb) as Hl. unfold write_bytes.
  rewrite !Z.gtb_ltb, (proj2 (Z.ltb_ge _ off)), (proj2 (Z.ltb_ge _ (zlen x))) by lia. cbn [orb].
  destruct (block_write _ _ _ _ off x Hb) as (w' & E & Hb'); [lia..|done|]. rewrite E. exists (splice bs off x). split; [by split|].
  split; [|done]. refine (Hwrite _ _ _ _ off x _ Hb HJ _ _ Hx E); lia.
Qed.

(** Writing right behind [d]. *)
Lemma spec_append d junk x (Q : unit -> list Z -> Prop) : zlen x <= zlen junk -> bytes_ok x ->
  Q tt ((d ++ x) ++ drop (length x) junk) -> spec (d ++ junk) (write_bytes cm (zlen d) x) Q.
Proof. intros Hl Hx HQ. apply spec_write; [lia|rewrite zlen_app; lia|done|]. by rewrite splice_app by lia. Qed.

Lemma spec_read d b k (Q : Z -> list Z -> Prop) : Q b (d ++ b :: k) -> spec (d ++ b :: k) (read_byte cm (zlen d)) Q.
Proof.
  intros HQ g [Hb H32] HJ. pose proof (block_length _ _ _ _ Hb) as Hl. rewrite zlen_app in Hl. cbn [length] in Hl.
  unfold read_byte. rewrite (block_read _ _ _ _ (zlen d) 1 Hb) by lia.
  exists (d ++ b :: k). split; [by split|]. split; [done|]. unfold slice. rewrite drop_app_length' by lia. exact HQ.
Qed.

Lemma spec_shrink bs a n (Q : unit -> list Z -> Prop) : 0 <= n <= zlen bs -> zlen bs <= UINT32_MAX ->
  Q tt (take (Z.to_nat n) bs) -> spec bs (shrink cm a n) Q.
Proof.
  intros Hn Hm HQ. apply spec_bind. intros g Hg HJ. cbn. exists bs. split; [done|]. split; [done|].
  pose proof (block_length _ _ _ _ (ho_block _ _ Hg)) as Hl. rewrite Z.gtb_ltb. destruct (Z.ltb_spec n (g_capacity g)); cbn [gwhen].
  - by apply spec_cut.
  - apply spec_ret. by rewrite take_ge in HQ by lia.
Qed.

(** ** Writing characters *)

Abbreviation form utf16 := (if (utf16 : bool) then ORIGIN_UTF16 else ORIGIN_LATIN1).

Lemma spec_write_scalars (utf16 : bool) cs (Q : unit -> list Z -> Prop) : forall fuel pre post d junk,
  Forall (sayable (form utf16)) cs -> (length (encoded ORIGIN_UTF8 cs) <= fuel)%nat ->
  zlen (encoded (form utf16) cs) <= zlen junk ->
  Q tt ((d ++ encoded (form utf16) cs) ++ drop (length (encoded (form utf16) cs)) junk) ->
  spec (d ++ junk) (write_scalars cm fuel (pre ++ encoded ORIGIN_UTF8 cs ++ post) (zlen pre)
    (zlen (pre ++ encoded ORIGIN_UTF8 cs)) (zlen d) utf16) Q.
Proof.
  induction cs as [|c cs IH]; intros fuel pre post d junk Hcs Hfuel Hroom HQ.
  - cbn [encoded map concat app length drop] in *. rewrite !app_nil_r in *. destruct fuel; cbn [write_scalars]; rewrite Z.ltb_irrefl; by apply spec_ret.
  - inversion Hcs as [|? ? [Hc H1] Hcs']; subst. rewrite !encoded_cons in *. rewrite !zlen_app in Hroom.
    pose proof (units_positive ORIGIN_UTF8 c). pose proof (units_positive (form utf16) c). rewrite length_app in Hfuel.
    destruct fuel as [|fuel]; [lia|]. cbn [write_scalars]. rewrite (proj2 (Z.ltb_lt _ _)) by (rewrite !zlen_app; lia).
    rewrite <- app_assoc, next_scalar_run; [|done|rewrite !zlen_app; lia].
    assert (Hw : negb utf16 && (c >=? TW_LATIN1_END) = false).
    { destruct utf16; [done|]. specialize (H1 eq_refl). unfold TW_LATIN1_END. rewrite Z.geb_leb. apply Z.leb_gt. lia. }
    rewrite Hw. assert (Hx : (if utf16 then encode_utf16 c else [u8 c]) = units (form utf16) c /\ bytes_ok (units (form utf16) c)).
    { destruct utf16; [split; [by apply encode_utf16_spec|by apply utf16_bytes]|]. specialize (H1 eq_refl). unfold scalar in Hc.
      assert (is_uint 8 c) by (unfold is_uint; lia). rewrite wrap_id by done. split; [done|]. by apply Forall_singleton. }
    destruct Hx as [-> Hx]. apply spec_bind, spec_append; [lia|done|].
    rewrite !app_assoc, <- (app_assoc _ _ post), <- zlen_app. apply IH; [done|lia|rewrite length_drop; lia|].
    rewrite drop_drop. rewrite length_app, app_assoc in HQ. exact HQ.
Qed.

(** ... from the start of the string and of the block. *)
Lemma spec_write_prefix utf16 cs post junk fuel bs (Q : unit -> list Z -> Prop) : Forall (sayable (form utf16)) cs ->
  (length (encoded ORIGIN_UTF8 cs) <= fuel)%nat -> zlen (encoded (form utf16) cs) <= zlen junk ->
  bs = encoded ORIGIN_UTF8 cs ++ post ->
  Q tt (encoded (form utf16) cs ++ drop (length (encoded (form utf16) cs)) junk) ->
  spec junk (write_scalars cm fuel bs 0 (zlen (encoded ORIGIN_UTF8 cs)) 0 utf16) Q.
Proof. intros Hcs Hf' Hr -> HQ. apply (spec_write_scalars utf16 cs Q fuel [] post [] junk Hcs Hf' Hr HQ). Qed.

(** ... and up to the end of the string. *)
Lemma spec_write_rest utf16 cs fuel pre d junk (Q : unit -> list Z -> Prop) : Forall (sayable (form utf16)) cs ->
  (length (encoded ORIGIN_UTF8 cs) <= fuel)%nat -> zlen (encoded (form utf16) cs) <= zlen junk ->
  Q tt ((d ++ encoded (form utf16) cs) ++ drop (length (encoded (form utf16) cs)) junk) ->
  spec (d ++ junk) (write_scalars cm fuel (pre ++ encoded ORIGIN_UTF8 cs) (zlen pre) (zlen (pre ++ encoded ORIGIN_UTF8 cs)) (zlen d) utf16) Q.
Proof.
  intros Hcs Hf' Hr HQ. pose proof (spec_write_scalars utf16 cs Q fuel pre [] d junk Hcs Hf' Hr HQ) as H.
  by rewrite app_nil_r in H.
Qed.

(** ** Moving between Latin-1 and UTF-16 *)

Lemma utf16_latin1 c : 0 <= c < 0x100 -> units ORIGIN_UTF16 c = [c; 0].
Proof. intros Hc. unfold units, utf16. cbn. rewrite (proj2 (Z.ltb_lt c 0x10000)) by lia. repeat (apply (f_equal2 (@cons Z)); [lia|]). done. Qed.

Lemma latin1_encoded cs : encoded ORIGIN_LATIN1 cs = cs.
Proof. induction cs as [|c cs IH]; [done|]. rewrite encoded_cons, IH. done. Qed.

Abbreviation chars := (Forall (fun c => 0 <= c < 0x100)).

Lemma chars_of cs : Forall scalar cs -> small 0x100 cs -> chars cs.
Proof. rewrite !Forall_forall. unfold scalar. intros H1 H2 c Hc. specialize (H1 c Hc). specialize (H2 c Hc). lia. Qed.

Lemma sayable_latin1 cs : Forall scalar cs -> small 0x100 cs -> Forall (sayable ORIGIN_LATIN1) cs.
Proof. rewrite !Forall_forall. intros H1 H2 c Hc. split; [by apply H1|]. intros _. by apply H2. Qed.

Lemma chars_utf16_length cs : chars cs -> length (encoded ORIGIN_UTF16 cs) = (2 * length cs)%nat.
Proof. induction 1 as [|c cs Hc Hcs IH]; [done|]. rewrite encoded_cons, utf16_latin1 by done. cbn [app length]. lia. Qed.

(** Widening: the last character first, so that none is overwritten before it was read. *)
Lemma spec_inflate count cs (Q : unit -> list Z -> Prop) : forall mid tail index, chars cs -> length mid = length cs ->
  count - index = zlen cs ->
  Q tt (encoded ORIGIN_UTF16 cs ++ tail) -> spec (cs ++ mid ++ tail) (adjust_loop cm (length cs) count index true) Q.
Proof.
  induction cs as [|c cs IH] using rev_ind; intros mid tail index Hcs Hmid Hcount HQ.
  - destruct mid; [|discriminate]. by apply spec_ret.
  - apply Forall_app in Hcs as [Hcs Hc]. inversion Hc as [|? ? Hc0 _]; subst. rewrite length_app in Hmid. rewrite zlen_app in Hcount.
    cbn [length] in Hmid, Hcount. rewrite length_app, Nat.add_comm. cbn [length Nat.add adjust_loop].
    replace (count - index - 1) with (zlen cs) by lia. rewrite <- app_assoc. cbn [app]. apply spec_bind, spec_read, spec_bind.
    (* the two bytes that are written *)
    set (mid' := take (length cs) (c :: mid)).
    assert (Hsplit : exists x y, c :: mid = mid' ++ [x; y]).
    { destruct (drop (length cs) (c :: mid)) as [|x [|y [|]]] eqn:E; apply (f_equal length) in E as El; rewrite length_drop in El; cbn [length] in El; try lia.
      exists x, y. subst mid'. by rewrite <- E, take_drop. }
    destruct Hsplit as (x & y & Hsplit). assert (Hm' : length mid' = length cs) by (subst mid'; rewrite length_take; cbn [length]; lia).
    replace (cs ++ c :: mid ++ tail) with ((cs ++ mid') ++ [x; y] ++ tail)
      by (rewrite <- !app_assoc, (app_assoc mid'), <- Hsplit; done).
    replace (zlen cs * 2) with (zlen (cs ++ mid')) by (rewrite zlen_app; lia).
    apply spec_append; [simpl; lia|repeat apply Forall_cons_2; try apply Forall_nil_2; unfold is_uint; lia|]. cbn [length drop app].
    rewrite <- !app_assoc. apply IH; [done|done|lia|]. rewrite encoded_snoc, utf16_latin1, <- app_assoc in HQ by done. exact HQ.
Qed.

(** Narrowing: the first character first. *)
Lemma spec_deflate count cs (Q : unit -> list Z -> Prop) : forall done_ mid tail, chars cs -> length mid = length done_ ->
  (forall mid', length mid' = length (done_ ++ cs) -> Q tt ((done_ ++ cs) ++ mid' ++ tail)) ->
  spec (done_ ++ mid ++ encoded ORIGIN_UTF16 cs ++ tail) (adjust_loop cm (length cs) count (zlen done_) false) Q.
Proof.
  induction cs as [|c cs IH]; intros done_ mid tail Hcs Hmid HQ.
  - apply spec_ret. rewrite app_nil_r in HQ. by apply HQ.
  - inversion Hcs as [|? ? Hc Hcs']; subst. cbn [length adjust_loop]. rewrite encoded_cons, utf16_latin1 by done. cbn [app].
    replace (zlen done_ * 2) with (zlen (done_ ++ mid)) by (rewrite zlen_app; lia). rewrite app_assoc.
    apply spec_bind, spec_read, spec_bind. rewrite <- app_assoc.
    apply spec_append; [rewrite zlen_app; simpl; lia|apply Forall_singleton; unfold is_uint; lia|]. cbn [length].
    assert (Hmid' : exists mid', drop 1 (mid ++ c :: 0 :: encoded ORIGIN_UTF16 cs ++ tail) = mid' ++ encoded ORIGIN_UTF16 cs ++ tail /\ length mid' = length (done_ ++ [c])).
    { exists (drop 1 (mid ++ [c; 0])). change (c :: 0 :: ?l) with ([c; 0] ++ l). rewrite (app_assoc mid).
      rewrite drop_app_le by (rewrite length_app; simpl; lia). split; [done|]. rewrite length_drop, !length_app. simpl. lia. }
    destruct Hmid' as (mid' & -> & Hl'). replace (zlen done_ + 1) with (zlen (done_ ++ [c])) by (by rewrite <- zlen_snoc).
    apply IH; [done|done|]. intros m Hm. rewrite <- shift_byte in Hm |- *. by apply HQ.
Qed.

(** ** Lowering *)

Section Lower.
Context (s : turbowasm_component_owned_string) (cs : list Z) (m : string_measure) (Hwf : string_wf s) (Hms : measures s cs m).

Abbreviation utf8_text := (encoded ORIGIN_UTF8 cs).
Abbreviation utf16_text := (encoded ORIGIN_UTF16 cs).
Abbreviation room := (source_units s m).

Lemma size_text : os_size s = zlen utf8_text.
Proof using Hwf Hms. by rewrite <- (mf_text _ _ _ Hms), <- (sw_size _ Hwf). Qed.

Lemma origin_latin1 : os_origin s = ORIGIN_LATIN1 -> small 0x100 cs.
Proof using Hms. intros Ho. pose proof (mf_latin1 _ _ _ Hms) as H. rewrite (mf_origin _ _ _ Hms Ho) in H. apply H. Qed.

(** The first block has room for every character. *)
Lemma room_bounds : zlen cs <= room <= TW_STRING_MAX_BYTES /\ zlen utf16_text <= room * 2 /\
  (os_origin s <> ORIGIN_UTF8 -> zlen utf8_text <= room * (if os_origin s =? ORIGIN_LATIN1 then 2 else 3) /\ room <= zlen utf8_text).
Proof using Hwf Hms.
  destruct Hms as [_ Hsc Hs Hu _ _ _ Hb]. pose proof (lengths cs Hsc) as Hl. pose proof (lengths_latin1 cs Hsc) as H1.
  pose proof origin_latin1 as Ho. pose proof size_text as Hsz. revert Hb. unfold source_units, source_width.
  destruct (Z.eqb_spec (os_origin s) ORIGIN_UTF8); [|destruct (Z.eqb_spec (os_origin s) ORIGIN_LATIN1) as [E|]]; try specialize (H1 (Ho E)); cbn [orb]; lia.
Qed.

Lemma room_sizes n : 0 <= n <= 3 -> 0 <= room * n <= UINT32_MAX.
Proof using Hwf Hms. intros Hn. pose proof room_bounds as [Hr _]. unfold TW_STRING_MAX_BYTES, UINT32_MAX in *. change (1 ≪ 28) with 268435456 in Hr. nia. Qed.

Lemma text_whole : take (Z.to_nat (os_size s)) (bytes s) = utf8_text.
Proof using Hwf Hms. rewrite size_text, (mf_text _ _ _ Hms), Nat2Z.id. apply firstn_all. Qed.

Lemma text_bytes : bytes_ok utf8_text.
Proof using Hwf Hms. rewrite <- (mf_text _ _ _ Hms). apply Hwf. Qed.

Lemma spec_start x junk (Q : unit -> list Z -> Prop) : zlen x <= zlen junk -> bytes_ok x -> Q tt (x ++ drop (length x) junk) ->
  spec junk (gwhen (negb (zlen x =? 0)) (write_bytes cm 0 x)) Q.
Proof using Hk Hf Hkeep Hwrite.
  intros Hl Hx HQ. destruct (Z.eqb_spec (zlen x) 0); cbn [negb gwhen].
  - destruct x; [|simpl in *; lia]. by apply spec_ret.
  - by apply (spec_append [] junk x).
Qed.

Lemma spec_lower_utf8 : spec [] (lower_utf8 cm s m room) (fun n bs => n = zlen utf8_text /\ bs = utf8_text).
Proof using Hwf Hms Hk Hf Hkeep Hwrite.
  pose proof room_bounds as (Hr & _ & H8). pose proof (room_sizes 1 ltac:(lia)) as Hmax. pose proof text_bytes as Hok.
  pose proof (lengths cs (mf_scalar _ _ _ Hms)) as Hlen. pose proof (mf_ascii _ _ _ Hms) as Ha. pose proof size_text as Hsz.
  unfold lower_utf8. set (prefix := if os_origin s =? ORIGIN_UTF8 then _ else _).
  assert (Hp : 0 <= prefix <= zlen utf8_text /\ prefix <= room /\ (prefix = os_size s -> room = zlen utf8_text)).
  { subst prefix. destruct (Z.eqb_spec (os_origin s) ORIGIN_UTF8) as [E|E]; [|specialize (H8 E); lia].
    unfold source_units. rewrite E. cbn. lia. }
  destruct Hp as (Hp & Hpr & Hpe). rewrite (mf_text _ _ _ Hms), Hsz in *.
  set (x := take (Z.to_nat prefix) utf8_text). assert (Hx : zlen x = prefix) by (subst x; rewrite length_take; lia).
  apply spec_bind, spec_grow; [simpl; lia|]. intros junk Hj. cbn [app length] in *. apply spec_bind. rewrite <- Hx at 1.
  apply spec_start; [lia|by apply Forall_take|]. apply spec_bind.
  destruct (Z.eqb_spec prefix (zlen utf8_text)) as [E|E]; cbn [negb gwhen].
  - do 2 apply spec_ret. split; [done|]. rewrite drop_ge by lia. subst x. by rewrite app_nil_r, E, Nat2Z.id, firstn_all.
  - assert (Ho : os_origin s <> ORIGIN_UTF8) by (intros Ho; apply E; subst prefix; rewrite Ho; done).
    pose proof (room_sizes (if os_origin s =? ORIGIN_LATIN1 then 2 else 3) ltac:(case_match; lia)) as Hmax'. specialize (H8 Ho).
    apply spec_bind, spec_grow; [rewrite zlen_app, length_drop; case_match; lia|]. intros junk' Hj'. rewrite zlen_app, length_drop in Hj'.
    set (y := take (Z.to_nat (zlen utf8_text - prefix)) (drop (Z.to_nat prefix) utf8_text)).
    assert (Hxy : x ++ y = utf8_text). { subst x y. rewrite (take_ge (drop _ _)) by (rewrite length_drop; lia). apply take_drop. }
    assert (Hy : zlen y = zlen utf8_text - prefix) by (apply (f_equal (fun l => zlen l)) in Hxy; rewrite zlen_app in Hxy; lia).
    apply spec_bind. rewrite <- Hx at 1. rewrite <- app_assoc.
    apply spec_append; [rewrite zlen_app, length_drop; lia|by apply Forall_take, Forall_drop|].
    rewrite Hxy. apply spec_shrink.
    + rewrite zlen_app. lia.
    + repeat (rewrite length_app || rewrite length_drop). lia.
    + apply spec_ret. split; [done|]. rewrite Nat2Z.id. apply take_app_length.
Qed.

Lemma sayable_utf16 : Forall (sayable ORIGIN_UTF16) cs.
Proof using Hms. eapply Forall_impl; [apply (mf_scalar _ _ _ Hms)|]. intros c Hc. by split. Qed.

Lemma spec_lower_utf16 : spec [] (lower_utf16 cm s m room) (fun n bs => n * 2 = zlen utf16_text /\ bs = utf16_text).
Proof using Hwf Hms Hk Hf Hkeep Hwrite.
  pose proof room_bounds as (Hr & H16 & _). pose proof (room_sizes 2 ltac:(lia)) as Hmax. pose proof (mf_units _ _ _ Hms) as Hu.
  unfold lower_utf16. apply spec_bind, spec_grow; [simpl; lia|]. intros junk Hj. cbn [app length] in *. apply spec_bind.
  rewrite size_text. apply (spec_write_prefix true cs []); [apply sayable_utf16|lia|lia|by rewrite app_nil_r, (mf_text _ _ _ Hms)|].
  apply spec_bind, spec_shrink; [rewrite zlen_app; lia|rewrite zlen_app, length_drop; lia|]. apply spec_ret.
  split; [done|]. rewrite Hu, Nat2Z.id. apply take_app_length.
Qed.

(** Latin-1 when every character is in it, else tagged UTF-16. *)
Definition compact (n : Z) (bs : list Z) : Prop :=
  if latin1 m then n = zlen cs /\ bs = cs
  else exists u, n = u .| utf16_tag cm /\ u * 2 = zlen utf16_text /\ bs = utf16_text.

Lemma spec_compact_utf16 : os_origin s = ORIGIN_COMPACT_UTF16 -> spec [] (lower_compact cm s m room) compact.
Proof using Hwf Hms Hk Hf Hkeep Hwrite.
  intros Ho. unfold lower_compact. rewrite Ho. cbn [Z.eqb ORIGIN_COMPACT_UTF16 Pos.eqb]. apply spec_bind.
  eapply spec_mono; [apply spec_lower_utf16|]. intros n bs [Hn ->]. unfold compact.
  destruct (latin1 m) eqn:E; cbn [negb]; [|apply spec_ret; by exists n].
  pose proof room_bounds as (Hr & H16 & _). pose proof (room_sizes 2 ltac:(lia)) as Hmax.
  pose proof (mf_latin1 _ _ _ Hms) as Hl. rewrite E in Hl. destruct Hl as [Hl _].
  pose proof (chars_of cs (mf_scalar _ _ _ Hms) Hl) as Hch. pose proof (chars_utf16_length _ Hch).
  rewrite (mf_scalars _ _ _ Hms). unfold adjust_latin1_prefix. rewrite Nat2Z.id. apply spec_bind.
  rewrite <- (app_nil_r utf16_text). apply (spec_deflate (zlen cs) cs _ [] [] [] Hch eq_refl). cbn [app]. intros mid Hmid.
  apply spec_bind, spec_cut; [rewrite zlen_app; lia|rewrite !length_app; simpl; lia|].
  apply spec_ret. split; [done|]. rewrite Nat2Z.id. apply take_app_length.
Qed.

Lemma spec_compact_latin1 : os_origin s <> ORIGIN_COMPACT_UTF16 -> latin1 m = true -> spec [] (lower_compact cm s m room) compact.
Proof using Hwf Hms Hk Hf Hkeep Hwrite.
  intros Ho E. unfold lower_compact, compact. rewrite (proj2 (Z.eqb_neq _ _) Ho), E. cbn [negb].
  pose proof room_bounds as (Hr & _ & _). pose proof (room_sizes 1 ltac:(lia)) as Hmax.
  pose proof (mf_latin1 _ _ _ Hms) as Hl. rewrite E in Hl. destruct Hl as [Hl ->].
  apply spec_bind, spec_grow; [simpl; lia|]. intros junk Hj. cbn [app length] in *. apply spec_bind. rewrite size_text.
  apply (spec_write_prefix false cs []); [by apply sayable_latin1, Hl; apply Hms|lia|rewrite latin1_encoded; lia|by rewrite app_nil_r, (mf_text _ _ _ Hms)|].
  rewrite latin1_encoded, (mf_scalars _ _ _ Hms). apply spec_bind, spec_shrink; [rewrite zlen_app; lia|rewrite zlen_app, length_drop; lia|].
  apply spec_ret. split; [done|]. rewrite Nat2Z.id. apply take_app_length.
Qed.

Lemma spec_compact_wide : os_origin s <> ORIGIN_COMPACT_UTF16 -> latin1 m = false -> spec [] (lower_compact cm s m room) compact.
Proof using Hwf Hms Hk Hf Hkeep Hwrite.
  intros Ho E. unfold lower_compact, compact. rewrite (proj2 (Z.eqb_neq _ _) Ho), E. cbn [negb].
  pose proof room_bounds as (Hr & H16 & _). pose proof (room_sizes 2 ltac:(lia)) as Hmax. pose proof (mf_units _ _ _ Hms) as Hu.
  pose proof sayable_utf16 as Hsay. pose proof (mf_scalar _ _ _ Hms) as Hsc. pose proof (mf_text _ _ _ Hms) as Ht. pose proof size_text as Hsz.
  pose proof (mf_latin1 _ _ _ Hms) as Hl. rewrite E in Hl. destruct Hl as (a & z & b & Hcs & Ha & Hz & -> & ->).
  assert (Hla : zlen a <= zlen cs) by (rewrite Hcs, zlen_app; lia).
  assert (Hsa : Forall scalar a) by (rewrite Hcs in Hsc; by apply Forall_app in Hsc as [? _]).
  pose proof (chars_of a Hsa Ha) as Hch. pose proof (chars_utf16_length _ Hch) as Hc16.
  assert (H8 : encoded ORIGIN_UTF8 cs = encoded ORIGIN_UTF8 a ++ encoded ORIGIN_UTF8 (z :: b)) by (by rewrite Hcs, encoded_app).
  assert (Hu16 : encoded ORIGIN_UTF16 cs = encoded ORIGIN_UTF16 a ++ encoded ORIGIN_UTF16 (z :: b)) by (by rewrite Hcs, encoded_app).
  apply (f_equal (fun l => zlen l)) in H8 as Hl8. apply (f_equal (fun l => zlen l)) in Hu16 as Hl16. rewrite zlen_app in Hl8, Hl16.
  apply spec_bind, spec_grow; [simpl; lia|]. intros junk Hj. cbn [app length] in *. apply spec_bind.
  apply (spec_write_prefix false a (encoded ORIGIN_UTF8 (z :: b))); [by apply sayable_latin1|lia|rewrite latin1_encoded; lia|by rewrite Ht|].
  rewrite latin1_encoded. apply spec_bind, spec_grow; [rewrite zlen_app, length_drop; lia|]. intros junk' Hj'. rewrite zlen_app, length_drop in Hj'.
  apply spec_bind. rewrite <- app_assoc. set (tail := drop (length a) junk ++ junk').
  assert (Htl : zlen tail = room * 2 - zlen a) by (subst tail; rewrite zlen_app, length_drop; lia).
  rewrite <- (take_drop (length a) tail). unfold adjust_latin1_prefix. rewrite Nat2Z.id.
  apply (spec_inflate (zlen a) a); [done|rewrite length_take; lia|lia|].
  apply spec_bind. rewrite Ht, Hsz, H8. replace (zlen a * 2) with (zlen (encoded ORIGIN_UTF16 a)) by lia.
  apply (spec_write_rest true (z :: b)); [by rewrite Hcs in Hsay; apply Forall_app in Hsay as [_ ?]|rewrite Nat2Z.id, length_app; lia|rewrite length_drop; lia|].
  rewrite <- Hu16. apply spec_bind, spec_shrink; [rewrite zlen_app; lia|repeat (rewrite length_app || rewrite length_drop); lia|].
  apply spec_ret. exists (utf16_units m). split; [done|]. split; [done|]. rewrite Hu, Nat2Z.id. apply take_app_length.
Qed.

Lemma spec_lower_compact : spec [] (lower_compact cm s m room) compact.
Proof using Hwf Hms Hk Hf Hkeep Hwrite.
  destruct (decide (os_origin s = ORIGIN_COMPACT_UTF16)) as [Ho|Ho]; [by apply spec_compact_utf16|].
  destruct (latin1 m) eqn:E; [by apply spec_compact_latin1|by apply spec_compact_wide].
Qed.

End Lower.

(** ** Lifting what was lowered *)

Section Lift.
Context (malloc_ok : Z -> bool) (Hmalloc : forall n, malloc_ok n = true) (Hvalid : memory_valid cm = true).

(** The text of a lifted string. *)
Definition lifts (w : store) (p tagged origin : Z) (cs : list Z) : Prop := exists t,
  turbowasm_component_string_lift cm malloc_ok w p tagged = (TURBOWASM_OK, Some t) /\
  bytes t = encoded ORIGIN_UTF8 cs /\ os_size t = zlen (encoded ORIGIN_UTF8 cs) /\ os_origin t = origin.

Lemma lift_block g cs tagged origin width alignment length_ : holds g (encoded origin cs) -> Forall (sayable origin) cs ->
  lift_form cm tagged = (origin, width, alignment, length_) ->
  zlen (encoded origin cs) = length_ * width -> length_ <= TW_STRING_MAX_BYTES / width ->
  0 < alignment -> g_pointer g mod alignment = 0 -> lifts (g_store g) (g_pointer g) tagged origin cs.
Proof using Hk Hmalloc Hvalid.
  intros [Hb H32] Hcs Hform Hlen Hmax Hpos Hal. pose proof (block_length _ _ _ _ Hb) as Hcap. rewrite <- Hcap in Hb.
  unfold lifts, turbowasm_component_string_lift. rewrite Hvalid, Hform. cbn [negb].
  rewrite Z.gtb_ltb, (proj2 (Z.ltb_ge _ length_)), <- Hlen by lia.
  rewrite (block_bounds _ _ _ _ alignment Hb) by done.
  pose proof (lift_size_run origin cs (Z.to_nat (zlen (encoded origin cs))) [] 0 Hcs ltac:(lia)) as Hsize. cbn [app length] in Hsize.
  pose proof (lift_encode_run origin cs (Z.to_nat (zlen (encoded origin cs))) [] [] Hcs ltac:(lia)) as Henc. cbn [app length] in Henc.
  assert (Hraw : exists raw, lift_bytes cm malloc_ok (g_store g) (g_pointer g) (zlen (encoded origin cs)) = (TURBOWASM_OK, raw) /\
    default [] raw = encoded origin cs).
  { unfold lift_bytes. destruct (Z.eqb_spec (zlen (encoded origin cs)) 0) as [Hz|Hz].
    - exists None. split; [done|]. destruct (encoded origin cs); [done|simpl in Hz; lia].
    - rewrite Hmalloc, (block_read _ _ _ _ 0 _ Hb) by lia. eexists. split; [done|]. unfold slice. rewrite drop_0, Nat2Z.id. apply firstn_all. }
  destruct Hraw as (raw & -> & Hraw). rewrite Hraw. change (Z.of_nat 0) with 0 in *. rewrite Hsize, Henc, Z.add_0_l.
  destruct (Z.eqb_spec origin ORIGIN_UTF8) as [->|Ho]; [by eexists|]. rewrite Hmalloc.
  destruct (Z.eqb_spec (zlen (encoded ORIGIN_UTF8 cs)) 0) as [Hz|Hz]; cbn [negb]; eexists; [|done].
  split; [done|]. cbn. split; [|done]. destruct (encoded ORIGIN_UTF8 cs); [done|simpl in Hz; lia].
Qed.

(** The length that comes back, read as [turbowasm_component_string_lift] reads it. *)
Lemma tag_bits : exists k, utf16_tag cm = 1 ≪ k /\ 31 <= k.
Proof using. unfold utf16_tag. destruct (_ =? _); eexists; (split; [reflexivity|lia]). Qed.

Lemma lift_compact g cs m s n bs : measures s cs m -> 2 * zlen (encoded ORIGIN_UTF8 cs) <= TW_STRING_MAX_BYTES ->
  string_encoding cm = STRING_LATIN1_UTF16 -> compact cs m n bs -> holds g bs -> g_pointer g mod 2 = 0 ->
  exists origin, lifts (g_store g) (g_pointer g) n origin cs.
Proof using Hk Hmalloc Hvalid.
  intros Hms Hmax He Hc Hg Hev. pose proof (mf_scalar _ _ _ Hms) as Hsc. pose proof (lengths cs Hsc) as Hl.
  destruct tag_bits as (k & Htag & Hk31).
  assert (Hbig : TW_STRING_MAX_BYTES < 2 ^ k) by (eapply Z.lt_le_trans; [|apply (Z.pow_le_mono_r 2 31); lia]; reflexivity).
  unfold compact in Hc. pose proof (mf_latin1 _ _ _ Hms) as Hlat. destruct (latin1 m).
  - destruct Hc as [-> ->], Hlat as [Hlat _]. exists ORIGIN_LATIN1. rewrite <- (latin1_encoded cs) in Hg.
    apply (lift_block _ _ _ _ 1 2 (zlen cs) Hg); [by apply sayable_latin1| |rewrite latin1_encoded; lia|rewrite Z.div_1_r; lia|done|done].
    unfold lift_form. rewrite He, Htag, tag_clear by lia. done.
  - destruct Hc as (u & -> & Hu & ->). exists ORIGIN_COMPACT_UTF16.
    change (encoded ORIGIN_UTF16 cs) with (encoded ORIGIN_COMPACT_UTF16 cs) in Hg, Hu, Hl.
    apply (lift_block _ _ _ _ 2 2 u Hg); [| |done|apply Z.div_le_lower_bound; lia|done|done].
    + eapply Forall_impl; [exact Hsc|]. intros c Hc. by split.
    + unfold lift_form. rewrite He, Htag. destruct (tag_set k u) as [-> ->]; [lia..|].
      rewrite (proj2 (Z.eqb_neq (1 ≪ k) 0)); [done|]. rewrite Z.shiftl_1_l. lia.
Qed.

Lemma lift_lowered g cs m s n bs : measures s cs m -> 2 * zlen (encoded ORIGIN_UTF8 cs) <= TW_STRING_MAX_BYTES -> holds g bs ->
  string_encoding cm = STRING_UTF8 \/ g_pointer g mod 2 = 0 ->
  (if string_encoding cm =? STRING_UTF8 then n = zlen (encoded ORIGIN_UTF8 cs) /\ bs = encoded ORIGIN_UTF8 cs
   else if string_encoding cm =? STRING_UTF16 then n * 2 = zlen (encoded ORIGIN_UTF16 cs) /\ bs = encoded ORIGIN_UTF16 cs
   else compact cs m n bs) ->
  exists origin, lifts (g_store g) (g_pointer g) n origin cs.
Proof using Hk Hmalloc Hvalid.
  intros Hms Hmax Hg Hev Hc. pose proof (mf_scalar _ _ _ Hms) as Hsc. pose proof (lengths cs Hsc) as Hl.
  assert (Hsay : forall o, o <> ORIGIN_LATIN1 -> Forall (sayable o) cs).
  { intros o Ho. eapply Forall_impl; [exact Hsc|]. intros c Hsc'. by split. }
  destruct (Z.eqb_spec (string_encoding cm) STRING_UTF8) as [E8|E8]; [|destruct (Z.eqb_spec (string_encoding cm) STRING_UTF16) as [E16|E16]].
  - destruct Hc as [-> ->]. exists ORIGIN_UTF8.
    apply (lift_block _ _ _ _ 1 1 (zlen (encoded ORIGIN_UTF8 cs)) Hg); [by apply Hsay| |lia|rewrite Z.div_1_r; lia|done|apply Z.mod_1_r].
    unfold lift_form. by rewrite E8.
  - destruct Hc as [Hn ->]. exists ORIGIN_UTF16.
    apply (lift_block _ _ _ _ 2 2 n Hg); [by apply Hsay| |lia|apply Z.div_le_lower_bound; lia|done|by destruct Hev].
    unfold lift_form. by rewrite E16.
  - apply (lift_compact g cs m s n bs); try done; [|by destruct Hev]. unfold memory_valid, turbowasm_component_string_encoding_valid in Hvalid.
    rewrite !andb_true_iff, !orb_true_iff, !Z.eqb_eq in Hvalid. tauto.
Qed.

(** The length leaves room for its tag. *)
Lemma lowered_length cs m s n bs : measures s cs m -> 2 * zlen (encoded ORIGIN_UTF8 cs) <= TW_STRING_MAX_BYTES ->
  (if string_encoding cm =? STRING_UTF8 then n = zlen (encoded ORIGIN_UTF8 cs) /\ bs = encoded ORIGIN_UTF8 cs
   else if string_encoding cm =? STRING_UTF16 then n * 2 = zlen (encoded ORIGIN_UTF16 cs) /\ bs = encoded ORIGIN_UTF16 cs
   else compact cs m n bs) -> 0 <= n < 2 * utf16_tag cm.
Proof using.
  intros Hms Hmax Hc. pose proof (lengths cs (mf_scalar _ _ _ Hms)) as Hl. destruct tag_bits as (k & Htag & Hk31). rewrite Htag in *.
  assert (Hbig : TW_STRING_MAX_BYTES < 2 ^ k) by (eapply Z.lt_le_trans; [|apply (Z.pow_le_mono_r 2 31); lia]; reflexivity).
  rewrite Z.shiftl_1_l. assert (Hsmall : forall u, 0 <= u <= TW_STRING_MAX_BYTES -> 0 <= u < 2 * 2 ^ k) by lia.
  repeat case_match; [lia|lia|]. unfold compact in Hc. destruct (latin1 m); [apply Hsmall; lia|]. destruct Hc as (u & -> & Hu & _).
  rewrite Htag, lor_shiftl_add by (unfold is_uint; lia). lia.
Qed.

End Lift.

(** *** Where a string ends up *)

(** The block stays where it is, or moves to an even address. *)
Definition stays_even {A} (m : gm A) : Prop := forall g a g', m g = (inr a, g') -> g_pointer g mod 2 = 0 -> g_pointer g' mod 2 = 0.

Lemma even_ret {A} (a : A) : stays_even (mret a).
Proof using. by intros g a' g' [= _ <-]. Qed.

Lemma even_bind {A B} (m : gm A) (k : A -> gm B) : stays_even m -> (forall a, stays_even (k a)) -> stays_even (m ≫= k).
Proof using.
  intros Hm Hk' g b g' E Hg. unfold mbind, gm_bind in E. destruct (m g) as [[e|a] g1] eqn:Em; [done|].
  by eapply Hk', Hm.
Qed.

Lemma even_write off x : stays_even (write_bytes cm off x).
Proof using.
  intros g a g' E Hg. unfold write_bytes in E. destruct (_ || _); [done|].
  destruct (turbowasm_instance_memory_write_bytes _ _ _ _ _ _) as [[] w]; simplify_eq; done.
Qed.

Lemma even_read off : stays_even (read_byte cm off).
Proof using.
  intros g a g' E Hg. unfold read_byte in E. destruct (turbowasm_instance_memory_read_bytes _ _ _ _ _ _) as [[] w]; by simplify_eq.
Qed.

(** What a successful request got. *)
Lemma resize_granted a n g u g' : resize cm a n g = (inr u, g') ->
  f (g_store g) (g_pointer g) (g_capacity g) a n = (TURBOWASM_OK, g_pointer g', g_store g') /\ g_pointer g' mod a = 0.
Proof using Hf.
  unfold resize. destruct (_ >? _); [done|]. rewrite Hf. destruct (f _ _ _ _ _) as [[st p] w] eqn:E.
  case_bool_decide as Hst; cbn [negb]; [subst st|done]. destruct (bounds cm w p n a) eqn:Eb; try done. intros [= _ <-]. split; [done|].
  unfold bounds in Eb. cbn [g_pointer]. destruct (Z.eqb_spec (p mod a) 0); [done|discriminate].
Qed.

Lemma even_resize n : stays_even (resize cm 2 n).
Proof using Hf. intros g a g' E _. by apply resize_granted in E as [_ ?]. Qed.

Lemma even_shrink n : stays_even (shrink cm 2 n).
Proof using Hf. apply even_bind; [by intros g a g' [= _ <-]|]. intros c. destruct (_ >? _); [apply even_resize|apply even_ret]. Qed.

Lemma even_scalars data source_end utf16 fuel : forall cursor destination, stays_even (write_scalars cm fuel data cursor source_end destination utf16).
Proof using.
  induction fuel as [|fuel IH]; intros cursor destination; cbn [write_scalars]; (destruct (_ <? _); [|apply even_ret]); [by intros g a g'|].
  destruct (next_scalar _ _ _ _) as [[c next]|]; [|by intros g a g']. destruct (_ && _); [by intros g a g'|].
  apply even_bind; [apply even_write|]. intros _. apply IH.
Qed.

Lemma even_adjust count inflate n : forall index, stays_even (adjust_loop cm n count index inflate).
Proof using.
  induction n as [|n IH]; intros index; cbn [adjust_loop]; [apply even_ret|]. apply even_bind; [apply even_read|]. intros b.
  apply even_bind; [apply even_write|]. intros _. apply IH.
Qed.

Lemma even_lower_utf16 s m room : stays_even (lower_utf16 cm s m room).
Proof using Hf.
  apply even_bind; [apply even_resize|]. intros _. apply even_bind; [apply even_scalars|]. intros _.
  apply even_bind; [apply even_shrink|]. intros _. apply even_ret.
Qed.

(** Only a string from a compact guest that turns out to be Latin-1 ends with a request
    without an alignment. *)
Lemma lower_compact_place s m room g n g' : lower_compact cm s m room g = (inr n, g') -> g_pointer g mod 2 = 0 ->
  g_pointer g' mod 2 = 0 \/
  (os_origin s = ORIGIN_COMPACT_UTF16 /\ exists w p k n', f w p k 1 n' = (TURBOWASM_OK, g_pointer g', g_store g')).
Proof using Hf.
  unfold lower_compact. destruct (Z.eqb_spec (os_origin s) ORIGIN_COMPACT_UTF16) as [Ho|Ho].
  - unfold mbind at 1, gm_bind. destruct (lower_utf16 cm s m room g) as [[e|k] g1] eqn:E1; [done|]. intros E Hg.
    pose proof (even_lower_utf16 s m room g k g1 E1 Hg) as He. destruct (negb (latin1 m)).
    { injection E as _ <-. by left. }
    unfold mbind at 1, gm_bind in E. destruct (adjust_latin1_prefix _ _ _ _) as [[e|[]] g2]; [done|].
    unfold mbind, gm_bind in E. destruct (resize cm 1 _ g2) as [[e|[]] g3] eqn:E3; [done|]. injection E as _ <-.
    right. split; [done|]. apply resize_granted in E3 as [E3 _]. by eexists _, _, _, _.
  - intros E Hg. left. revert E Hg. generalize g n g'. change (stays_even
      (_ ← resize cm 2 room;
       _ ← write_scalars cm (Z.to_nat (os_size s)) (default [] (os_data s)) 0 (latin1_prefix_bytes m) 0 false;
       if negb (latin1 m) then
         _ ← resize cm 2 (room * 2);
         _ ← adjust_latin1_prefix cm (latin1_prefix m) true;
         _ ← write_scalars cm (Z.to_nat (os_size s)) (default [] (os_data s)) (latin1_prefix_bytes m) (os_size s) (latin1_prefix m * 2) true;
         _ ← shrink cm 2 (utf16_units m * 2);
         mret (utf16_units m .| utf16_tag cm)
       else
         _ ← shrink cm 2 (scalars m);
         mret (scalars m))).
    apply even_bind; [apply even_resize|]. intros _. apply even_bind; [apply even_scalars|]. intros _. destruct (negb _).
    + apply even_bind; [apply even_resize|]. intros _. apply even_bind; [apply even_adjust|]. intros _.
      apply even_bind; [apply even_scalars|]. intros _. apply even_bind; [apply even_shrink|]. intros _. apply even_ret.
    + apply even_bind; [apply even_shrink|]. intros _. apply even_ret.
Qed.

(** A compact guest's string at an odd address is not lifted. *)
Lemma lift_misplaced malloc_ok w p n : memory_valid cm = true -> string_encoding cm = STRING_LATIN1_UTF16 -> p mod 2 <> 0 ->
  turbowasm_component_string_lift cm malloc_ok w p n = (TURBOWASM_TRAPPED, None).
Proof using.
  intros Hvalid He Hp. unfold turbowasm_component_string_lift, lift_form. rewrite Hvalid, He. cbn [negb].
  change (STRING_LATIN1_UTF16 =? STRING_UTF16) with false. change (STRING_LATIN1_UTF16 =? STRING_LATIN1_UTF16) with true. cbv iota.
  assert (Hb : forall k, bounds cm w p k 2 = TURBOWASM_TRAPPED). { intros k. unfold bounds. by rewrite (proj2 (Z.eqb_neq _ 0)). }
  by destruct (negb _); destruct (_ >? _); rewrite ?Hb.
Qed.

Lemma lower_place s m room w n g : memory_valid cm = true ->
  (if string_encoding cm =? STRING_UTF8 then lower_utf8 cm s m room
   else if string_encoding cm =? STRING_UTF16 then lower_utf16 cm s m room else lower_compact cm s m room) (mk_guest w 0 0) = (inr n, g) ->
  (string_encoding cm = STRING_UTF8 \/ g_pointer g mod 2 = 0) \/
  (g_pointer g mod 2 <> 0 /\ os_origin s = ORIGIN_COMPACT_UTF16 /\ misplaced f).
Proof using Hf.
  intros Hvalid. destruct (Z.eqb_spec (string_encoding cm) STRING_UTF8) as [E8|E8]; [by left; left|].
  destruct (Z.eqb_spec (string_encoding cm) STRING_UTF16) as [E16|E16]; intros E.
  - left. right. by eapply even_lower_utf16.
  - destruct (Z.eq_dec (g_pointer g mod 2) 0) as [He|He]; [by left; right|right]. split; [done|].
    apply lower_compact_place in E as [?|[Ho (w0 & p0 & k0 & n0 & Er)]]; [done| |done]. split; [done|]. split; [|by eexists _, _, _, _, _, _].
    unfold memory_valid, turbowasm_component_string_encoding_valid in Hvalid.
    rewrite !andb_true_iff, !orb_true_iff, !Z.eqb_eq in Hvalid. tauto.
Qed.

(** What becomes of a string that was lowered to [p]: it is lifted from any store in
    which the block still holds its bytes, or it ended up where no compact guest's
    string may be. *)
Definition string_stored (malloc_ok : Z -> bool) (s : turbowasm_component_owned_string) (p n len : Z) (bs : list Z) : Prop :=
  (forall w'', holds (mk_guest w'' p len) bs -> exists t,
     turbowasm_component_string_lift cm malloc_ok w'' p n = (TURBOWASM_OK, Some t) /\ bytes t = bytes s /\ os_size t = os_size s) \/
  (p mod 2 <> 0 /\ os_origin s = ORIGIN_COMPACT_UTF16 /\ misplaced f).

(** A string ends up in a block from which it is lifted again, as long as the block
    holds it; the rest of what the guest's memory keeps is kept. *)
Lemma string_lower_under malloc_ok s w : (forall n, malloc_ok n = true) -> memory_valid cm = true ->
  block w 0 0 [] -> J w 0 0 ->
  string_wf s -> turbowasm_component_string_validate s = TURBOWASM_OK -> 2 * os_size s <= TW_STRING_MAX_BYTES ->
  match turbowasm_component_string_lower cm s w with
  | (TURBOWASM_OK, Some (p, n), w') => exists len bs, holds (mk_guest w' p len) bs /\ J w' p len /\ 0 <= n < 2 * utf16_tag cm /\
      string_stored malloc_ok s p n len bs
  | (status, None, _) => refused f status
  | _ => False
  end.
Proof using Hk Hf Hkeep Hwrite.
  intros Hmalloc Hvalid Hb HJ Hwf Hv Hmax. unfold turbowasm_component_string_validate in Hv.
  unfold turbowasm_component_string_lower. rewrite Hvalid. cbn [negb].
  destruct (measure s) as [st [m|]] eqn:Em; cbn [fst] in Hv; subst st; [|by apply measure_ok in Em].
  destruct (measure_spec s m Hwf Em) as (cs & Hms). fold (source_units s m).
  pose proof (size_text s cs m Hwf Hms) as Hsz. rewrite Hsz in Hmax.
  pose proof (spec_lower_utf8 s cs m Hwf Hms) as H8.
  pose proof (spec_lower_utf16 s cs m Hwf Hms) as H16.
  pose proof (spec_lower_compact s cs m Hwf Hms) as Hc.
  assert (Hspec : spec []
    (if string_encoding cm =? STRING_UTF8 then lower_utf8 cm s m (source_units s m)
     else if string_encoding cm =? STRING_UTF16 then lower_utf16 cm s m (source_units s m)
     else lower_compact cm s m (source_units s m))
    (fun n bs =>
     if string_encoding cm =? STRING_UTF8 then n = zlen (encoded ORIGIN_UTF8 cs) /\ bs = encoded ORIGIN_UTF8 cs
     else if string_encoding cm =? STRING_UTF16 then n * 2 = zlen (encoded ORIGIN_UTF16 cs) /\ bs = encoded ORIGIN_UTF16 cs
     else compact cs m n bs)) by (by repeat case_match).
  specialize (Hspec (mk_guest w 0 0) ltac:(by split) HJ).
  pose proof (fun n g E => lower_place s m (source_units s m) w n g Hvalid E) as Hplace.
  match goal with |- context [?k (mk_guest w 0 0)] => destruct (k (mk_guest w 0 0)) as [[e|n] g] end.
  - by destruct e; try apply Hspec; destruct Hspec.
  - destruct Hspec as (bs & Hg & HJ' & Hq). exists (g_capacity g), bs.
    assert (Eg : mk_guest (g_store g) (g_pointer g) (g_capacity g) = g) by by destruct g. rewrite Eg. split; [done|]. split; [done|].
    split; [by eapply lowered_length|]. destruct (Hplace n g eq_refl) as [Hal|Hodd]; [left|by right]. intros w'' Hw''.
    destruct (lift_lowered malloc_ok Hmalloc Hvalid _ cs m s n bs Hms Hmax Hw'' Hal Hq) as (o & t & Ht & Hbt & Hst & _).
    exists t. split; [exact Ht|]. by rewrite (mf_text _ _ _ Hms), Hsz.
Qed.

End Block.

(** ** Which strings are valid *)

(** A string of a host: Unicode scalar values in UTF-8, with one of the four origins,
    all of them Latin-1 if that is the origin, and in the encoding of the origin no
    longer than the limit. *)
Definition string_text (s : turbowasm_component_owned_string) : Prop := os_origin s <= ORIGIN_COMPACT_UTF16 /\
  exists cs, Forall (sayable (os_origin s)) cs /\ bytes s = encoded ORIGIN_UTF8 cs /\ zlen (encoded (os_origin s) cs) <= TW_STRING_MAX_BYTES.

(** The length in the encoding of the origin. *)
Lemma source_length s cs scalars_ units_ : string_wf s -> os_origin s <= ORIGIN_COMPACT_UTF16 -> bytes s = encoded ORIGIN_UTF8 cs ->
  scalars_ = zlen cs -> units_ * 2 = zlen (encoded ORIGIN_UTF16 cs) ->
  (if os_origin s =? ORIGIN_UTF8 then os_size s else if os_origin s =? ORIGIN_LATIN1 then scalars_ else units_ * 2) = zlen (encoded (os_origin s) cs).
Proof.
  intros [_ Hsz Ho0] Ho Ht -> ->. rewrite Hsz, Ht. destruct (Z.eqb_spec (os_origin s) ORIGIN_UTF8) as [->|H8]; [done|].
  destruct (Z.eqb_spec (os_origin s) ORIGIN_LATIN1) as [->|H1]; [by rewrite latin1_encoded|]. unfold encoded. do 3 f_equal. apply map_ext.
  intros c. unfold units. by rewrite (proj2 (Z.eqb_neq _ _) H8), (proj2 (Z.eqb_neq _ _) H1).
Qed.

Lemma validate_text s : string_wf s -> turbowasm_component_string_validate s = TURBOWASM_OK <-> string_text s.
Proof.
  intros Hwf. unfold turbowasm_component_string_validate. split.
  - intros Hv. destruct (measure s) as [st [m|]] eqn:Em; cbn [fst] in Hv; subst st; [|by apply measure_ok in Em].
    assert (Ho : os_origin s <= ORIGIN_COMPACT_UTF16). { revert Em. unfold measure. destruct (Z.gtb_spec (os_origin s) ORIGIN_COMPACT_UTF16); [done|lia]. }
    destruct (measure_spec s m Hwf Em) as (cs & Hms). pose proof (origin_latin1 s cs m Hms) as Hl. destruct Hms as [Ht Hsc Hs Hu _ _ _ Hb].
    split; [done|]. exists cs. split; [|split; [done|]].
    + apply Forall_forall. intros c Hc. rewrite Forall_forall in Hsc. split; [by apply Hsc|]. intros E. specialize (Hl E). rewrite Forall_forall in Hl. by apply Hl.
    + rewrite <- (source_length s cs _ _ Hwf Ho Ht Hs Hu). revert Hb. unfold source_units, source_width.
      destruct (os_origin s =? ORIGIN_UTF8), (os_origin s =? ORIGIN_LATIN1); cbn [orb]; lia.
  - intros (Ho & cs & Hcs & Ht & Hmax). pose proof Hwf as [_ Hsz _].
    assert (Hsc : Forall scalar cs) by (eapply Forall_impl; [exact Hcs|]; by intros c [? _]).
    pose proof (lengths cs Hsc) as Hlen. pose proof (lengths_latin1 cs Hsc) as Hlen1.
    destruct (measure_loop_run cs (Z.to_nat (os_size s)) [] (mk_measure 0 0 (os_size s) 0 0 true)) as (r & Er & [Hs Hu _ Hl]);
      [done|split; [done|done|left; by rewrite Hsz, Ht|by constructor]|rewrite Hsz, Ht; lia|]. cbn [app] in Er, Hl, Hs, Hu.
    rewrite <- (source_length s cs _ _ Hwf Ho Ht Hs Hu) in Hmax.
    assert (Hl1 : os_origin s = ORIGIN_LATIN1 -> small 0x100 cs) by (intros E; eapply Forall_impl; [exact Hcs|]; intros c [_ Hc]; by apply Hc).
    unfold measure. destruct (_ || _) eqn:E1.
    { exfalso. rewrite orb_true_iff, andb_true_iff, negb_true_iff, Z.gtb_ltb, Z.ltb_lt, Z.eqb_neq, bool_decide_eq_true in E1.
      destruct E1 as [?|[Hn Hd]]; [lia|]. rewrite Hd in Hsz. done. }
    destruct (os_size s >? _) eqn:E2.
    { exfalso. rewrite Z.gtb_ltb, Z.ltb_lt in E2. change (TW_STRING_MAX_BYTES / 2 * 3) with 402653181 in E2. change TW_STRING_MAX_BYTES with 268435455 in E2, Hmax.
      rewrite Ht in Hsz. destruct (Z.eqb_spec (os_origin s) ORIGIN_UTF8); [lia|].
      destruct (Z.eqb_spec (os_origin s) ORIGIN_LATIN1) as [E|E]; [specialize (Hlen1 (Hl1 E)); lia|lia]. }
    clear E1 E2. rewrite Ht. rewrite Hsz, Ht in Er |- *. change (zlen (encoded ORIGIN_UTF8 [])) with 0 in Er. rewrite Er.
    destruct (latin1 r) eqn:El.
    + cbn [negb]. rewrite andb_false_r. cbn [scalars utf16_units]. rewrite Hsz, Ht in Hmax. by rewrite Z.gtb_ltb, (proj2 (Z.ltb_ge _ _)).
    + rewrite El. cbn [negb]. rewrite andb_true_r. destruct (Z.eqb_spec (os_origin s) ORIGIN_LATIN1) as [E|E].
      * exfalso. destruct Hl as (a & z & b & -> & _ & Hz & _). specialize (Hl1 E). apply Forall_app in Hl1 as [_ Hl1]. inversion Hl1. lia.
      * rewrite Hsz, Ht in Hmax. by rewrite Z.gtb_ltb, (proj2 (Z.ltb_ge _ _)).
Qed.

(** ** An allocator that moves its blocks *)

Section Moving.
Context (cm : turbowasm_component_canonical_memory) (Hk : 0 <= cm_memory cm) (next : Z -> Z -> Z).
Context (Hnext : forall p n, is_uint 64 (next p n)).

(** Every block is copied to where [next] says. *)
Definition moving_realloc : realloc_fn := fun w p n _ n' =>
  match turbowasm_instance_memory_read_bytes w (default 0%nat (cm_instance cm)) (cm_memory cm) p 0 (Z.min n n') with
  | (TURBOWASM_OK, bs) =>
      let '(st, w') := turbowasm_instance_memory_write_bytes w (default 0%nat (cm_instance cm)) (cm_memory cm) (next p n) 0 bs in
      (st, next p n, w')
  | (st, _) => (st, 0, w)
  end.

(** A block that is in bounds is a block. *)
Lemma bounds_block w p n a loc m : store_wf w -> is_uint 64 p -> 0 <= n <= UINT32_MAX ->
  memory_locate w (default 0%nat (cm_instance cm)) (cm_memory cm) = inr (loc, m) -> shared m = false ->
  bounds cm w p n a = TURBOWASM_OK -> p + n <= memory_size m /\ block cm w p n (slice (data m) p n).
Proof using Hk.
  intros Hw Hp Hn Hl Hs. unfold bounds. destruct (_ || _); [done|].
  destruct (memory_locate_spec _ _ _ _ _ Hl Hk Hw) as (_ & _ & Hm). unfold UINT32_MAX in Hn.
  rewrite (bounds_spec _ _ _ _ _ _ _ _ Hl Hs Hm), storage_range_spec; try (unfold is_uint, SIZE_MAX, UINT64_MAX in *; lia || done).
  case_decide; [|done]. intros _. split; [lia|]. split; try done. exists loc, m. repeat split; try done. lia.
Qed.

Lemma moving_realloc_keeps : keeps_bytes cm moving_realloc.
Proof using Hk Hnext.
  intros w p n bs a n' p' w' Hb Hn' E Hbounds. unfold moving_realloc in E. pose proof (bl_size _ _ _ _ _ Hb) as Hn.
  rewrite (block_read _ Hk _ _ _ _ 0 (Z.min n n') Hb) in E by lia. destruct (turbowasm_instance_memory_write_bytes _ _ _ _ _ _) as [st w1] eqn:Ew.
  injection E as -> <- ->. pose proof (Hnext p n) as Hp'.
  pose proof (block_length _ Hk _ _ _ _ Hb) as Hlen. destruct Hb as [Hw _ _ (loc & m & Hl & Hs & Hin & Hbs)].
  destruct (memory_locate_spec _ _ _ _ _ Hl Hk Hw) as (_ & Hat & Hm). pose proof (mw_length _ Hm) as Hml.
  assert (Hx : zlen (slice bs 0 (Z.min n n')) = Z.min n n') by (rewrite slice_length; lia).
  apply write_effect in Ew as [[[] _]|[_ (loc' & m' & Hl' & Hch)]]; [done| |done|done|done|by split|unfold UINT32_MAX, SIZE_MAX, UINT64_MAX in *; lia|].
  2: { apply slice_bytes_ok. rewrite <- Hbs. apply slice_bytes_ok, Hm. }
  rewrite Hl in Hl'. injection Hl' as <- <-. pose proof (changes_wf _ _ _ _ _ _ Hw Hch) as Hw'. destruct Hch as (_ & _ & Hp0 & Hroom & _ & ->).
  rewrite Z.add_0_r in *. pose proof (put_locate _ _ _ (with_data m (splice (data m) (next p n) (slice bs 0 (Z.min n n')))) _ _ _ _ Hat Hl) as Hl2.
  rewrite decide_True in Hl2 by done. destruct (bounds_block _ _ _ _ _ _ Hw' Hp' Hn' Hl2 Hs Hbounds) as [Hin' Hblock].
  eexists. split; [exact Hblock|]. cbn [data with_data].
  rewrite take_slice by lia. rewrite <- Hx at 2. rewrite slice_splice_same by lia. unfold slice. by rewrite drop_0.
Qed.

End Moving.

Lemma keeps_anything cm f : keeps_bytes cm f -> keeps_under cm (fun _ _ _ => True) f.
Proof. intros Hkeep w p n bs a n' p' w' Hb _ Hn E Eb. split; [done|]. by eapply Hkeep. Qed.

(** ** The round trip *)

(** C13. A valid string of at most half the limit on sizes that is lowered into a
    guest's memory is lifted from there again with the same bytes, in each of the
    guest's three encodings and from each of the four origins a string can have, when
    the host's allocations succeed; when the string is not lowered, it is because the
    guest's [realloc] failed or gave a block out of bounds. The guest's [realloc] may
    move the block, as long as it copies what fits. There is one exception: a string
    that came as UTF-16 from a guest with compact strings, lowered as Latin-1 into a
    guest with compact strings, is shrunk by a request without an alignment, and if
    [realloc] then answers with an odd address, lifting traps. *)
Theorem string_roundtrip cm f malloc_ok s w :
  memory_valid cm = true -> 0 <= cm_memory cm -> block cm w 0 0 [] ->
  guest_realloc cm = Some f -> keeps_bytes cm f -> (forall n, malloc_ok n = true) ->
  string_wf s -> turbowasm_component_string_validate s = TURBOWASM_OK -> 2 * os_size s <= TW_STRING_MAX_BYTES ->
  match turbowasm_component_string_lower cm s w with
  | (TURBOWASM_OK, Some (pointer, tagged_length), w') =>
      (exists t, turbowasm_component_string_lift cm malloc_ok w' pointer tagged_length = (TURBOWASM_OK, Some t) /\
         bytes t = bytes s /\ os_size t = os_size s) \/
      (string_encoding cm = STRING_LATIN1_UTF16 /\ os_origin s = ORIGIN_COMPACT_UTF16 /\ pointer mod 2 <> 0 /\
       turbowasm_component_string_lift cm malloc_ok w' pointer tagged_length = (TURBOWASM_TRAPPED, None))
  | (status, None, _) => refused cm f status
  | _ => False
  end.
Proof.
  intros Hvalid Hk Hb Hf Hkeep Hmalloc Hwf Hv Hmax.
  pose proof (string_lower_under cm Hk (fun _ _ _ => True) ltac:(by intros ?) f Hf (keeps_anything cm f Hkeep) malloc_ok s w
    Hmalloc Hvalid Hb I Hwf Hv Hmax) as H.
  destruct (turbowasm_component_string_lower cm s w) as [[[] [[p n]|]] w']; try done.
  destruct H as (len & bs & Hg & _ & _ & [Hl|(Hp & Ho & [He _])]); [left; apply (Hl _ Hg)|right].
  split_and!; [done..|]. by apply lift_misplaced.
Qed.

(** The string "a", e acute, the euro sign and a character beyond the BMP, from
    UTF-8 into Latin-1 with UTF-16, between two halves of a memory. *)
Definition text_store : store :=
  [mk_instance [mk_memory (replicate 64 0) 1 1 64 0 true false false true] [mk_vmemory false false] [None] [] []].

Definition text_canonical : turbowasm_component_canonical_memory :=
  let cm := mk_canonical (Some 0%nat) 0 POINTER_I32 STRING_LATIN1_UTF16 None in
  mk_canonical (Some 0%nat) 0 POINTER_I32 STRING_LATIN1_UTF16 (Some (moving_realloc cm (fun p _ => if p =? 0 then 32 else 0))).

Definition text_string : turbowasm_component_owned_string :=
  mk_string (Some [0x61; 0xc3; 0xa9; 0xe2; 0x82; 0xac; 0xf0; 0x9f; 0x98; 0x80]) 10 ORIGIN_UTF8.

Lemma text_string_valid : string_text text_string.
Proof.
  split; [done|]. exists [0x61; 0xe9; 0x20ac; 0x1f600]. split; [|split; [reflexivity|vm_compute; discriminate]].
  repeat apply Forall_cons_2; try apply Forall_nil_2; (split; [unfold scalar; lia|done]).
Qed.

Lemma text_store_block : block text_canonical text_store 0 0 [].
Proof.
  split; [|by split|by split|by eexists _, _].
  intros [|] i Hi; [|done]. injection Hi as <-. split; [|by intros [|]|constructor].
  intros [|] m vm Hm Hv _; [|done]. injection Hm as <-. split; [done|done|by split|done|done|]. apply (Forall_replicate (is_uint 8) 64 0). by split.
Qed.

Lemma string_roundtrip_witness : fst (fst (turbowasm_component_string_lower text_canonical text_string text_store)) = TURBOWASM_OK /\
  match turbowasm_component_string_lower text_canonical text_string text_store with
  | (TURBOWASM_OK, Some (pointer, tagged_length), w') =>
      (exists t, turbowasm_component_string_lift text_canonical (fun _ => true) w' pointer tagged_length = (TURBOWASM_OK, Some t) /\
         bytes t = bytes text_string /\ os_size t = os_size text_string) \/
      (string_encoding text_canonical = STRING_LATIN1_UTF16 /\ os_origin text_string = ORIGIN_COMPACT_UTF16 /\ pointer mod 2 <> 0 /\
       turbowasm_component_string_lift text_canonical (fun _ => true) w' pointer tagged_length = (TURBOWASM_TRAPPED, None))
  | (status, None, _) => refused text_canonical (default (fun w _ _ _ _ => (TURBOWASM_OK, 0, w)) (guest_realloc text_canonical)) status
  | _ => False
  end.
Proof.
  split; [vm_compute; reflexivity|].
  apply (string_roundtrip text_canonical _ (fun _ => true)); [done|done|apply text_store_block|done| |done| |vm_compute; reflexivity|done].
  - apply (moving_realloc_keeps text_canonical); [done|]. intros p n. case_match; by split.
  - split; [|done|done]. repeat apply Forall_cons_2; try apply Forall_nil_2; by split.
Defined.

End StringLower.
