(* ===== verification/Canonical.v ===== *)
(** * Layout and flattening of component values (src/component_canonical.c)

    How a value of a component type lies in a guest's memory, and which core values
    carry it in a call. *)

From S2P Require Import Prelude Value ExecStack Memory Strings TypeGraph.

Module Canonical.
Import ExecStack Strings TypeGraph.

(** ** Results *)

(** A status other than OK, or a result. *)
Definition res (A : Type) : Type := turbowasm_status + A.

#[global] Instance res_ret : MRet res := fun A a => inr a.
#[global] Instance res_bind : MBind res := fun A B k m => match m with inl status => inl status | inr a => k a end.

Definition require {A} (o : option A) (status : turbowasm_status) : res A :=
  match o with Some a => inr a | None => inl status end.
Definition guard_ (b : bool) (status : turbowasm_status) : res unit := if b then inr tt else inl status.

(** ** Kinds *)

Definition CANONICAL_MAX_DEPTH : nat := 64.
Definition MAX_LOWERED_PARAMS : Z := 17.
Definition MAX_FLAT_PARAMS : Z := 16.
Definition MAX_FLAT_ASYNC_PARAMS : Z := 4.
Definition MAX_FLAT_RESULTS : Z := 1.

Inductive turbowasm_component_flat_type := FLAT_I32 | FLAT_I64 | FLAT_F32 | FLAT_F64.

#[export] Instance flat_eq_dec : EqDecision turbowasm_component_flat_type.
Proof. solve_decision. Defined.

Inductive turbowasm_component_canonical_context := CANONICAL_LIFT | CANONICAL_LOWER.

#[export] Instance context_eq_dec : EqDecision turbowasm_component_canonical_context.
Proof. solve_decision. Defined.

Inductive turbowasm_component_canonical_abi := ABI_SYNC | ABI_ASYNC | ABI_ASYNC_CALLBACK.

#[export] Instance abi_eq_dec : EqDecision turbowasm_component_canonical_abi.
Proof. solve_decision. Defined.

Record turbowasm_component_layout := mk_layout { alignment : Z; size : Z }.

Definition pointer_type_valid (p : Z) : bool := (p =? POINTER_I32) || (p =? POINTER_I64).

Definition pointer_size (p : Z) : Z := if p =? POINTER_I64 then 8 else 4.

Definition pointer_flat_type (p : Z) : turbowasm_component_flat_type := if p =? POINTER_I64 then FLAT_I64 else FLAT_I32.

(** The kind and the node; a scalar or string named in place has no node, here it
    is the node of its kind. *)
Definition resolved_kind (graph : turbowasm_component_type_graph) (ref : turbowasm_component_type_ref) : res turbowasm_component_type :=
  match ref with
  | REF_INLINE kind => if inline_kind kind then mret (resolve graph ref) else inl TURBOWASM_UNSUPPORTED
  | REF_INDEXED id =>
      match turbowasm_component_type_graph_get graph id with
      | None => inl TURBOWASM_MALFORMED_MODULE
      | Some t => if undefined t then inl TURBOWASM_MALFORMED_MODULE else mret t
      end
  end.

Definition align_up_u64 (value alignment : Z) : option Z :=
  if alignment =? 0 then None
  else
    let remainder := value mod alignment in
    if remainder =? 0 then Some value
    else
      let delta := alignment - remainder in
      if value >? UINT64_MAX - delta then None else Some (value + delta).

Definition enum_storage_width (count : Z) : Z :=
  if count =? 0 then 0 else if count <=? 256 then 1 else if count <=? 65536 then 2 else 4.

Definition flags_storage_width (count : Z) : Z :=
  if (count =? 0) || (count >? 32) then 0 else if count <=? 8 then 1 else if count <=? 16 then 2 else 4.

Definition flags_valid_mask (count : Z) : Z :=
  if count >=? 32 then UINT32_MAX else if count =? 0 then 0 else u32 (1 ≪ count) - 1.

(** The payloads of the cases of a variant, an option or a result, in order. *)
Definition variant_cases (t : turbowasm_component_type) : list (option turbowasm_component_type_ref) :=
  match t with
  | Variant cases => map case_payload cases
  | Option_ payload => [None; Some payload]
  | Result ok error => [ok; error]
  | _ => []
  end.

Definition variant_case_count (t : turbowasm_component_type) : Z := Z.of_nat (length (variant_cases t)).

Definition variant_case_ref (t : turbowasm_component_type) (case_index : Z) : res (option turbowasm_component_type_ref) :=
  if case_index >=? variant_case_count t then inl TURBOWASM_INVALID_ARGUMENT
  else require (variant_cases t !! Z.to_nat case_index) TURBOWASM_INVALID_ARGUMENT.

(** The elements of a record or a tuple. *)
Definition sequence_refs (t : turbowasm_component_type) : list turbowasm_component_type_ref :=
  match t with
  | Record_ fields => map field_type fields
  | Tuple elements => elements
  | _ => []
  end.

Definition resource_of (graph : turbowasm_component_type_graph) (resource : Z) : res unit :=
  match turbowasm_component_type_graph_get graph resource with
  | Some (Resource_ _) => mret tt
  | _ => inl TURBOWASM_MALFORMED_MODULE
  end.

(** ** Layout *)

Definition scalar_layout (kind : turbowasm_component_type_kind) : res turbowasm_component_layout :=
  match kind with
  | TYPE_BOOL | TYPE_S8 | TYPE_U8 => mret (mk_layout 1 1)
  | TYPE_S16 | TYPE_U16 => mret (mk_layout 2 2)
  | TYPE_S32 | TYPE_U32 | TYPE_F32 | TYPE_CHAR => mret (mk_layout 4 4)
  | TYPE_S64 | TYPE_U64 | TYPE_F64 => mret (mk_layout 8 8)
  | _ => inl TURBOWASM_UNSUPPORTED
  end.

(** The elements of a record behind [offset]. *)
Fixpoint sequence_layout (child : turbowasm_component_type_ref -> res turbowasm_component_layout) (overflow : turbowasm_status)
    (refs : list turbowasm_component_type_ref) (alignment_ offset : Z) : res (Z * Z) :=
  match refs with
  | [] => mret (alignment_, offset)
  | ref :: refs =>
      l ← child ref;
      let alignment_ := Z.max alignment_ (alignment l) in
      aligned ← require (align_up_u64 offset (alignment l)) overflow;
      _ ← guard_ (negb (aligned >? UINT64_MAX - size l)) overflow;
      sequence_layout child overflow refs alignment_ (aligned + size l)
  end.

Fixpoint cases_layout (child : turbowasm_component_type_ref -> res turbowasm_component_layout)
    (cases : list (option turbowasm_component_type_ref)) (payload_alignment payload_size : Z) : res (Z * Z) :=
  match cases with
  | [] => mret (payload_alignment, payload_size)
  | None :: cases => cases_layout child cases payload_alignment payload_size
  | Some payload :: cases =>
      l ← child payload;
      cases_layout child cases (Z.max payload_alignment (alignment l)) (Z.max payload_size (size l))
  end.

Definition variant_layout (child : turbowasm_component_type_ref -> res turbowasm_component_layout) (t : turbowasm_component_type)
    : res turbowasm_component_layout :=
  let discriminant_width := enum_storage_width (variant_case_count t) in
  _ ← guard_ (negb ((variant_case_count t =? 0) || (discriminant_width =? 0))) TURBOWASM_MALFORMED_MODULE;
  '(payload_alignment, payload_size) ← cases_layout child (variant_cases t) 1 0;
  let alignment_ := Z.max payload_alignment discriminant_width in
  payload_offset ← require (align_up_u64 discriminant_width payload_alignment) TURBOWASM_UNSUPPORTED;
  _ ← guard_ (negb (payload_offset >? UINT64_MAX - payload_size)) TURBOWASM_UNSUPPORTED;
  total ← require (align_up_u64 (payload_offset + payload_size) alignment_) TURBOWASM_UNSUPPORTED;
  mret (mk_layout alignment_ total).

Section Layout.
Context (graph : turbowasm_component_type_graph) (ptype : Z).

Abbreviation ptr := (pointer_size ptype).

(** The bound is the depth that is left. *)
Fixpoint canonical_layout_inner (fuel : nat) (ref : turbowasm_component_type_ref) : res turbowasm_component_layout :=
  match fuel with
  | O => inl (if pointer_type_valid ptype then TURBOWASM_UNSUPPORTED else TURBOWASM_INVALID_ARGUMENT)
  | S fuel =>
      _ ← guard_ (pointer_type_valid ptype) TURBOWASM_INVALID_ARGUMENT;
      t ← resolved_kind graph ref;
      match t with
      | Scalar kind => scalar_layout kind
      | String_ => mret (mk_layout ptr (2 * ptr))
      | List_ element_type =>
          _ ← guard_ (turbowasm_component_type_ref_validate graph element_type) TURBOWASM_MALFORMED_MODULE;
          mret (mk_layout ptr (2 * ptr))
      | Record_ _ | Tuple _ =>
          _ ← guard_ (negb (bool_decide (sequence_refs t = []))) TURBOWASM_MALFORMED_MODULE;
          '(alignment_, offset) ← sequence_layout (canonical_layout_inner fuel) TURBOWASM_UNSUPPORTED (sequence_refs t) 1 0;
          total ← require (align_up_u64 offset alignment_) TURBOWASM_UNSUPPORTED;
          mret (mk_layout alignment_ total)
      | Variant _ | Option_ _ | Result _ _ => variant_layout (canonical_layout_inner fuel) t
      | Enum labels =>
          let width := enum_storage_width (Z.of_nat (length labels)) in
          _ ← guard_ (negb (width =? 0)) TURBOWASM_MALFORMED_MODULE;
          mret (mk_layout width width)
      | Flags labels =>
          let width := flags_storage_width (Z.of_nat (length labels)) in
          _ ← guard_ (negb (width =? 0)) TURBOWASM_MALFORMED_MODULE;
          mret (mk_layout width width)
      | Handle _ resource => _ ← resource_of graph resource; mret (mk_layout 4 4)
      | Async _ _ => mret (mk_layout 4 4)
      | _ => inl TURBOWASM_UNSUPPORTED
      end
  end.

Definition turbowasm_component_canonical_layout (ref : turbowasm_component_type_ref) : res turbowasm_component_layout :=
  canonical_layout_inner CANONICAL_MAX_DEPTH ref.

Definition turbowasm_component_canonical_parameter_layout (function_type : Z) : res turbowasm_component_layout :=
  _ ← guard_ (pointer_type_valid ptype) TURBOWASM_INVALID_ARGUMENT;
  match turbowasm_component_type_graph_get graph function_type with
  | Some (Function_ f) =>
      '(maximum_alignment, offset) ←
        sequence_layout turbowasm_component_canonical_layout TURBOWASM_OUT_OF_MEMORY (params f) 1 0;
      total ← require (align_up_u64 offset maximum_alignment) TURBOWASM_OUT_OF_MEMORY;
      mret (mk_layout maximum_alignment total)
  | _ => inl TURBOWASM_MALFORMED_MODULE
  end.

(** ** Flattening *)

Definition append_flat_capped (out part : list turbowasm_component_flat_type) : option (list turbowasm_component_flat_type) :=
  if (Z.of_nat (length out) >? MAX_LOWERED_PARAMS) || (Z.of_nat (length part) >? MAX_LOWERED_PARAMS) then None
  else Some (out ++ take (Z.to_nat MAX_LOWERED_PARAMS - length out) part).

Definition join_flat_type (left right : turbowasm_component_flat_type) : turbowasm_component_flat_type :=
  if bool_decide (left = right) then left
  else match left, right with
       | FLAT_I32, FLAT_F32 | FLAT_F32, FLAT_I32 => FLAT_I32
       | _, _ => FLAT_I64
       end.

(** The carriers that the cases share. *)
Fixpoint join_part (j : nat) (joined part : list turbowasm_component_flat_type) : list turbowasm_component_flat_type :=
  match part with
  | [] => joined
  | p :: part =>
      join_part (S j)
        (match joined !! j with
         | Some f => <[j := join_flat_type f p]> joined
         | None => if Z.of_nat (length joined) <? MAX_LOWERED_PARAMS then joined ++ [p] else joined
         end) part
  end.

Fixpoint sequence_flat (child : turbowasm_component_type_ref -> res (list turbowasm_component_flat_type))
    (refs : list turbowasm_component_type_ref) (out : list turbowasm_component_flat_type) : res (list turbowasm_component_flat_type) :=
  match refs with
  | [] => mret out
  | ref :: refs =>
      part ← child ref;
      out ← require (append_flat_capped out part) TURBOWASM_UNSUPPORTED;
      sequence_flat child refs out
  end.

Fixpoint cases_flat (child : turbowasm_component_type_ref -> res (list turbowasm_component_flat_type))
    (cases : list (option turbowasm_component_type_ref)) (joined : list turbowasm_component_flat_type)
    : res (list turbowasm_component_flat_type) :=
  match cases with
  | [] => mret joined
  | None :: cases => cases_flat child cases joined
  | Some payload :: cases =>
      part ← child payload;
      cases_flat child cases (join_part 0 joined part)
  end.

Definition scalar_flat (kind : turbowasm_component_type_kind) : res (list turbowasm_component_flat_type) :=
  match kind with
  | TYPE_BOOL | TYPE_S8 | TYPE_U8 | TYPE_S16 | TYPE_U16 | TYPE_S32 | TYPE_U32 | TYPE_CHAR => mret [FLAT_I32]
  | TYPE_S64 | TYPE_U64 => mret [FLAT_I64]
  | TYPE_F32 => mret [FLAT_F32]
  | TYPE_F64 => mret [FLAT_F64]
  | _ => inl TURBOWASM_UNSUPPORTED
  end.

Fixpoint canonical_flatten_type_inner (fuel : nat) (ref : turbowasm_component_type_ref) : res (list turbowasm_component_flat_type) :=
  match fuel with
  | O => inl (if pointer_type_valid ptype then TURBOWASM_UNSUPPORTED else TURBOWASM_INVALID_ARGUMENT)
  | S fuel =>
      _ ← guard_ (pointer_type_valid ptype) TURBOWASM_INVALID_ARGUMENT;
      t ← resolved_kind graph ref;
      match t with
      | Scalar kind => scalar_flat kind
      | Async _ _ => mret [FLAT_I32]
      | Handle _ resource => _ ← resource_of graph resource; mret [FLAT_I32]
      | String_ => mret [pointer_flat_type ptype; pointer_flat_type ptype]
      | List_ element_type =>
          _ ← guard_ (turbowasm_component_type_ref_validate graph element_type) TURBOWASM_MALFORMED_MODULE;
          mret [pointer_flat_type ptype; pointer_flat_type ptype]
      | Record_ _ | Tuple _ =>
          _ ← guard_ (negb (bool_decide (sequence_refs t = []))) TURBOWASM_MALFORMED_MODULE;
          sequence_flat (canonical_flatten_type_inner fuel) (sequence_refs t) []
      | Variant _ | Option_ _ | Result _ _ =>
          _ ← guard_ (negb (variant_case_count t =? 0)) TURBOWASM_MALFORMED_MODULE;
          joined ← cases_flat (canonical_flatten_type_inner fuel) (variant_cases t) [];
          require (append_flat_capped [FLAT_I32] joined) TURBOWASM_UNSUPPORTED
      | Enum labels => _ ← guard_ (negb (bool_decide (labels = []))) TURBOWASM_MALFORMED_MODULE; mret [FLAT_I32]
      | Flags labels =>
          _ ← guard_ (negb (bool_decide (labels = []) || (Z.of_nat (length labels) >? 32))) TURBOWASM_MALFORMED_MODULE;
          mret [FLAT_I32]
      | _ => inl TURBOWASM_UNSUPPORTED
      end
  end.

Definition turbowasm_component_canonical_flatten_type (ref : turbowasm_component_type_ref) : res (list turbowasm_component_flat_type) :=
  canonical_flatten_type_inner CANONICAL_MAX_DEPTH ref.

Record turbowasm_component_flat_signature := mk_signature {
  flat_params : list turbowasm_component_flat_type;
  flat_results : list turbowasm_component_flat_type;
  params_indirect : bool;
  results_indirect : bool
}.

Definition append_flat_type (out : list turbowasm_component_flat_type) (flat : list turbowasm_component_flat_type)
    : res (list turbowasm_component_flat_type) :=
  if (Z.of_nat (length out) >? MAX_LOWERED_PARAMS) || (Z.of_nat (length flat) >? MAX_LOWERED_PARAMS - Z.of_nat (length out))
  then inl TURBOWASM_INVALID_ARGUMENT
  else mret (out ++ flat).

(** The first pass counts the carriers, the second collects them. *)
Fixpoint count_params (refs : list turbowasm_component_type_ref) (raw_param_count : Z) : res Z :=
  match refs with
  | [] => mret raw_param_count
  | ref :: refs =>
      flat ← turbowasm_component_canonical_flatten_type ref;
      let raw_param_count := raw_param_count + Z.of_nat (length flat) in
      _ ← guard_ (negb (raw_param_count >? UINT32_MAX)) TURBOWASM_UNSUPPORTED;
      count_params refs raw_param_count
  end.

Fixpoint collect_params (refs : list turbowasm_component_type_ref) (out : list turbowasm_component_flat_type)
    : res (list turbowasm_component_flat_type) :=
  match refs with
  | [] => mret out
  | ref :: refs =>
      flat ← turbowasm_component_canonical_flatten_type ref;
      out ← append_flat_type out flat;
      collect_params refs out
  end.

(** The parameters and whether they are indirect. *)
Definition flatten_parameters (refs : list turbowasm_component_type_ref) (max_flat_params : Z)
    : res (list turbowasm_component_flat_type * bool) :=
  raw_param_count ← count_params refs 0;
  if raw_param_count >? max_flat_params then mret ([pointer_flat_type ptype], true)
  else out ← collect_params refs []; mret (out, false).

Definition turbowasm_component_canonical_flatten_function_abi (function_type : Z) (context : turbowasm_component_canonical_context)
    (abi : turbowasm_component_canonical_abi) : res turbowasm_component_flat_signature :=
  _ ← guard_ (pointer_type_valid ptype && negb (bool_decide (abi = ABI_ASYNC_CALLBACK) && bool_decide (context = CANONICAL_LOWER))) TURBOWASM_INVALID_ARGUMENT;
  match turbowasm_component_type_graph_get graph function_type with
  | Some (Function_ f) =>
      let max_params := if negb (bool_decide (abi = ABI_SYNC)) && bool_decide (context = CANONICAL_LOWER)
                        then MAX_FLAT_ASYNC_PARAMS else MAX_FLAT_PARAMS in
      '(fparams, indirect) ← flatten_parameters (params f) max_params;
      flat ← match result f with None => mret [] | Some r => turbowasm_component_canonical_flatten_type r end;
      let pointer := pointer_flat_type ptype in
      if negb (bool_decide (abi = ABI_SYNC)) then
        if bool_decide (context = CANONICAL_LOWER) then
          if negb (bool_decide (flat = [])) then mret (mk_signature (fparams ++ [pointer]) [FLAT_I32] indirect true)
          else mret (mk_signature fparams [FLAT_I32] indirect false)
        else if bool_decide (abi = ABI_ASYNC_CALLBACK) then mret (mk_signature fparams [FLAT_I32] indirect false)
        else mret (mk_signature fparams [] indirect false)
      else if Z.of_nat (length flat) <=? MAX_FLAT_RESULTS then mret (mk_signature fparams flat indirect false)
      else if bool_decide (context = CANONICAL_LIFT) then mret (mk_signature fparams [pointer] indirect true)
      else if Z.of_nat (length fparams) >=? MAX_LOWERED_PARAMS then inl TURBOWASM_UNSUPPORTED
      else mret (mk_signature (fparams ++ [pointer]) [] indirect true)
  | _ => inl TURBOWASM_INVALID_ARGUMENT
  end.

Definition turbowasm_component_canonical_flatten_function (function_type : Z) (context : turbowasm_component_canonical_context)
    : res turbowasm_component_flat_signature :=
  turbowasm_component_canonical_flatten_function_abi function_type context ABI_SYNC.

Definition turbowasm_component_canonical_flatten_task_return (result : option turbowasm_component_type_ref)
    : res turbowasm_component_flat_signature :=
  _ ← guard_ (pointer_type_valid ptype) TURBOWASM_INVALID_ARGUMENT;
  '(fparams, indirect) ← flatten_parameters (match result with None => [] | Some r => [r] end) MAX_FLAT_PARAMS;
  mret (mk_signature fparams [] indirect false).

End Layout.

End Canonical.
