(* ===== verification/TypeTrees.v ===== *)
(** * Component types as trees

    A reference into a type graph stands for a finite tree, if the walk from it ends
    within the depth that the runtime allows. The comparison of types compares these
    trees, and the types that the runtime admits as values have one. *)

From S2P Require Import Prelude Value ExecStack TypeGraph.

Module TypeTrees.
Import ExecStack TypeGraph.

Inductive tree :=
  | TScalar (kind : turbowasm_component_type_kind)
  | TString
  | TList (element : tree)
  | TAsync (future : bool) (payload : option tree)
  | TRecord (names : list name) (fields : list tree)
  | TTuple (elements : list tree)
  | TVariant (names : list name) (cases : list (option tree))
  | TOption (payload : tree)
  | TResult (ok error : option tree)
  | TEnum (labels : list name)
  | TFlags (labels : list name)
  | THandle (own : bool) (resource : Z + Z).

(** A resource is known by its instance, or by its declaration while it has none. *)
Definition resource_name (r : resource_type) : Z + Z :=
  match instance_key r with Some k => inl k | None => inr (identity r) end.

(** An optional part. *)
Definition part {A B} (f : A -> option B) (o : option A) : option (option B) :=
  match o with None => Some None | Some a => Some <$> f a end.

(** A node with an array that has no items. *)
Definition hollow (t : turbowasm_component_type) : bool :=
  match t with
  | Record_ [] | Tuple [] | Variant [] | Enum [] | Flags [] => true
  | _ => false
  end.

Fixpoint tree_of (fuel : nat) (graph : turbowasm_component_type_graph) (ref : turbowasm_component_type_ref) : option tree :=
  match fuel with
  | O => None
  | S fuel =>
      if negb (turbowasm_component_type_ref_validate graph ref) then None
      else if hollow (resolve graph ref) then None
      else
        let inside := tree_of fuel graph in
        match resolve graph ref with
        | Scalar kind => Some (TScalar kind)
        | String_ => Some TString
        | List_ e => TList <$> inside e
        | Async future payload => TAsync future <$> part inside payload
        | Record_ fields => TRecord (map field_name fields) <$> mapM inside (map field_type fields)
        | Tuple elements => TTuple <$> mapM inside elements
        | Variant cases => TVariant (map case_name cases) <$> mapM (part inside) (map case_payload cases)
        | Option_ payload => TOption <$> inside payload
        | Result ok error => ok ← part inside ok; error ← part inside error; Some (TResult ok error)
        | Enum labels => Some (TEnum labels)
        | Flags labels => Some (TFlags labels)
        | Handle own r => THandle own <$> (resource_name <$> turbowasm_component_resource_definition graph r)
        | _ => None
        end
  end.

(** ** Equality *)

(** [eq] says that [f] and [g] give the same. *)
Definition agrees {A B C} (eq : A -> B -> bool) (f : A -> option C) (g : B -> option C) : Prop :=
  forall a b, eq a b = true <-> exists c, f a = Some c /\ g b = Some c.

Lemma agrees_all2 {A B C} eq (f : A -> option C) (g : B -> option C) : agrees eq f g ->
  forall l k, all2 eq l k = true <-> exists cs, mapM f l = Some cs /\ mapM g k = Some cs.
Proof.
  intros He l. unfold all2. induction l as [|a l IH]; intros [|b k]; cbn [length zip zip_with forallb].
  - rewrite bool_decide_eq_true_2 by done. split; [|done]. intros _. by exists [].
  - rewrite bool_decide_eq_false_2 by done. split; [done|]. intros (cs & [= <-] & H). cbn in H.
    destruct (g b); [|done]. by destruct (mapM g k).
  - rewrite bool_decide_eq_false_2 by done. split; [done|]. intros (cs & H & [= <-]). cbn in H.
    destruct (f a); [|done]. by destruct (mapM f l).
  - specialize (IH k). cbn [fst snd].
    assert (Hd : bool_decide (S (length l) = S (length k)) = bool_decide (length l = length k)) by (apply bool_decide_ext; lia).
    rewrite Hd, andb_assoc, (andb_comm (bool_decide _)), <- andb_assoc, andb_true_iff, IH, (He a b). cbn [mapM].
    split.
    + intros [(c & Ha & Hb) (cs & Hl & Hk)]. exists (c :: cs). rewrite Ha, Hb. cbn. by rewrite Hl, Hk.
    + intros (cs & H1 & H2). cbn in H1, H2. destruct (f a) as [c|] eqn:Ea; [|done]. cbn in H1. destruct (mapM f l) as [cs1|]; [|done].
      destruct (g b) as [c'|] eqn:Eb; [|done]. cbn in H2. destruct (mapM g k) as [cs2|]; [|done].
      injection H1 as <-. injection H2 as -> ->. split; by eexists.
Qed.

(** An optional part is the same on both sides, or missing on both. *)
Definition both {A B} (eq : A -> B -> bool) (l : option A) (r : option B) : bool :=
  match l, r with Some l, Some r => eq l r | None, None => true | _, _ => false end.

Lemma agrees_both {A B C} eq (f : A -> option C) (g : B -> option C) : agrees eq f g -> agrees (both eq) (part f) (part g).
Proof.
  intros He [a|] [b|]; cbn [both part].
  - rewrite (He a b). split.
    + intros (c & -> & ->). by exists (Some c).
    + intros (c & H1 & H2). destruct (f a) as [x|]; [|done]. destruct (g b) as [y|]; [|done]. cbn in H1, H2. simplify_eq. repeat split; by eexists.
  - split; [done|]. intros (c & H1 & [= <-]). by destruct (f a).
  - split; [done|]. intros (c & [= <-] & H2). by destruct (g b).
  - split; [|done]. intros _. by exists None.
Qed.

(** A name beside a part. *)
Lemma agrees_named {A B C} (na : A -> name) (nb : B -> name) eq (f : A -> option C) (g : B -> option C) : agrees eq f g ->
  agrees (fun a b => bool_decide (na a = nb b) && eq a b) (fun a => pair (na a) <$> f a) (fun b => pair (nb b) <$> g b).
Proof.
  intros He a b. rewrite andb_true_iff, bool_decide_eq_true, (He a b). split.
  - intros [Hn (c & -> & ->)]. rewrite Hn. by eexists.
  - intros ([n c] & H1 & H2). destruct (f a) as [x|]; [|done]. destruct (g b) as [y|]; [|done]. cbn in H1, H2. simplify_eq. split; [congruence|eauto].
Qed.

Lemma mapM_named {A C} (n : A -> name) (f : A -> option C) l cs ns :
  mapM (fun a => pair (n a) <$> f a) l = Some (zip ns cs) -> length ns = length cs -> ns = map n l /\ mapM f l = Some cs.
Proof.
  revert cs ns. induction l as [|a l IH]; intros cs ns; cbn.
  - destruct ns, cs; cbn; intros [=] Hl; try done.
  - destruct (f a) as [c|]; [|done]. cbn. destruct (mapM _ l) as [ps|] eqn:E; [|done]. cbn.
    destruct ns as [|x ns], cs as [|y cs]; cbn; intros [= <- <- ->] Hl; try done. destruct (IH cs ns eq_refl ltac:(lia)) as [-> ->]. done.
Qed.

Lemma mapM_named_back {A C} (n : A -> name) (f : A -> option C) l cs :
  mapM f l = Some cs -> mapM (fun a => pair (n a) <$> f a) l = Some (zip (map n l) cs).
Proof.
  revert cs. induction l as [|a l IH]; intros cs; cbn; [by intros [= <-]|].
  destruct (f a) as [c|]; [|done]. cbn. destruct (mapM f l) as [cs'|] eqn:E; [|done]. cbn. intros [= <-]. by rewrite (IH _ eq_refl).
Qed.

Lemma map_length_mapM {A C} (f : A -> option C) l cs : mapM f l = Some cs -> length cs = length l.
Proof. intros H%length_mapM. done. Qed.

(** Lists of named parts. *)
Lemma agrees_fields {A B C} (na : A -> name) (nb : B -> name) eq (f : A -> option C) (g : B -> option C) : agrees eq f g ->
  forall l k, all2 (fun a b => bool_decide (na a = nb b) && eq a b) l k = true <->
    exists cs, mapM f l = Some cs /\ mapM g k = Some cs /\ map na l = map nb k.
Proof.
  intros He l k. rewrite (agrees_all2 _ _ _ (agrees_named na nb _ _ _ He) l k). split.
  - intros (ps & H1 & H2).
    assert (Hps : ps = zip (map fst ps) (map snd ps)) by (clear; induction ps as [|[] ps IH]; cbn; congruence).
    rewrite Hps in H1, H2. apply mapM_named in H1 as [E1 H1]; [|by rewrite !length_map]. apply mapM_named in H2 as [E2 H2]; [|by rewrite !length_map].
    exists (map snd ps). split; [done|]. split; [done|]. congruence.
  - intros (cs & H1 & H2 & Hn). exists (zip (map na l) cs). split; [by apply mapM_named_back|]. rewrite Hn. by apply mapM_named_back.
Qed.

Lemma tree_some {A B} (k : A -> B) o b : k <$> o = Some b <-> exists a, o = Some a /\ b = k a.
Proof. rewrite fmap_Some. done. Qed.

(** The outermost constructor, on both sides. *)
Definition shape (t : turbowasm_component_type) : nat :=
  match t with
  | Scalar _ => 1 | String_ => 2 | List_ _ => 3 | Async _ _ => 4 | Record_ _ => 5 | Tuple _ => 6 | Variant _ => 7
  | Option_ _ => 8 | Result _ _ => 9 | Enum _ => 10 | Flags _ => 11 | Handle _ _ => 12 | _ => 0
  end%nat.

Definition tree_shape (t : tree) : nat :=
  match t with
  | TScalar _ => 1 | TString => 2 | TList _ => 3 | TAsync _ _ => 4 | TRecord _ _ => 5 | TTuple _ => 6 | TVariant _ _ => 7
  | TOption _ => 8 | TResult _ _ => 9 | TEnum _ => 10 | TFlags _ => 11 | THandle _ _ => 12
  end%nat.

Lemma tree_of_shape fuel g r t : tree_of fuel g r = Some t -> tree_shape t = shape (resolve g r).
Proof.
  destruct fuel as [|fuel]; [done|]. cbn [tree_of]. destruct (negb _); [done|]. destruct (hollow _); [done|]. destruct (resolve g r); try done;
    rewrite ?tree_some; try (by intros [= <-]); try (by intros (? & _ & ->)).
  intros (a & _ & H)%bind_Some. apply bind_Some in H as (b & _ & [= <-]). done.
Qed.

Lemma agrees_resource lg rg l r :
  equal_resource (turbowasm_component_resource_definition lg l) (turbowasm_component_resource_definition rg r) = true <->
  exists n, resource_name <$> turbowasm_component_resource_definition lg l = Some n /\
            resource_name <$> turbowasm_component_resource_definition rg r = Some n.
Proof.
  destruct (turbowasm_component_resource_definition lg l) as [a|], (turbowasm_component_resource_definition rg r) as [b|]; cbn;
    try (split; [done|]; intros (n & H1 & H2); done).
  unfold resource_name. destruct (instance_key a), (instance_key b); rewrite ?Z.eqb_eq; split; try done;
    try (intros ->; by eexists); intros (n & [= <-] & [=]); done.
Qed.

Lemma agrees_inj {C D} (k : C -> D) (Hk : forall x y, k x = k y -> x = y) (o o' : option C) :
  (exists t, k <$> o = Some t /\ k <$> o' = Some t) <-> exists c, o = Some c /\ o' = Some c.
Proof.
  split.
  - intros (t & H1 & H2). apply tree_some in H1 as (a & -> & ->). apply tree_some in H2 as (b & -> & E). apply Hk in E as ->. eauto.
  - intros (c & -> & ->). by eexists.
Qed.

(** Two kinds of a constructor with a flag. *)
Lemma agrees_flag {C} (k : bool -> C -> tree) (Hk : forall f g x y, k f x = k g y -> f = g /\ x = y) f g (o o' : option C) (eq : bool) :
  (eq = true <-> exists c, o = Some c /\ o' = Some c) ->
  Bool.eqb f g && eq = true <-> exists t, k f <$> o = Some t /\ k g <$> o' = Some t.
Proof.
  intros He. rewrite andb_true_iff, eqb_true_iff, He. split.
  - intros [-> (c & -> & ->)]. by eexists.
  - intros (t & H1 & H2). apply tree_some in H1 as (a & -> & ->). apply tree_some in H2 as (b & -> & E). apply Hk in E as [-> ->]. split; [done|]. by eexists.
Qed.

Lemma mapM_compose {A B C} (f : B -> option C) (g : A -> B) l : mapM f (map g l) = mapM (fun a => f (g a)) l.
Proof. induction l as [|a l IH]; cbn; [done|]. destruct (f (g a)); cbn; [|done]. by rewrite IH. Qed.

(** Named parts of a node. *)
Lemma agrees_list {A B C D} (na : A -> name) (nb : B -> name) (pa : A -> D) (pb : B -> D) (k : list name -> list C -> tree)
    (Hk : forall n n' x y, k n x = k n' y -> n = n' /\ x = y) eq (f g : D -> option C) l r : agrees eq f g ->
  all2 (fun a b => bool_decide (na a = nb b) && eq (pa a) (pb b)) l r = true <->
  exists t, k (map na l) <$> mapM f (map pa l) = Some t /\ k (map nb r) <$> mapM g (map pb r) = Some t.
Proof.
  intros He. rewrite !mapM_compose.
  rewrite (agrees_fields na nb (fun a b => eq (pa a) (pb b)) (fun a => f (pa a)) (fun b => g (pb b))) by (intros a b; apply He). split.
  - intros (cs & -> & -> & ->). by eexists.
  - intros (t & H1 & H2). apply tree_some in H1 as (a & -> & ->). apply tree_some in H2 as (b & -> & E). apply Hk in E as [-> ->]. by eexists.
Qed.

Lemma agrees_labels (l r : list name) : all2 (fun x y => bool_decide (x = y)) l r = true <-> l = r.
Proof.
  unfold all2. split.
  - intros [Hl H]%andb_true_iff. apply bool_decide_eq_true in Hl. revert r Hl H.
    induction l as [|x l IH]; intros [|y r] Hl H; try done. cbn in H. apply andb_true_iff in H as [Hx H]. apply bool_decide_eq_true in Hx.
    rewrite Hx, (IH r); [done|by injection Hl|done].
  - intros ->. rewrite bool_decide_eq_true_2 by done. cbn [andb]. induction r as [|x r IH]; [done|]. cbn. by rewrite bool_decide_eq_true_2.
Qed.

Lemma agrees_result eq (f g : turbowasm_component_type_ref -> option tree) ok error ok' error' : agrees eq f g ->
  Bool.eqb (bool_decide (ok = None)) (bool_decide (ok' = None)) && Bool.eqb (bool_decide (error = None)) (bool_decide (error' = None)) &&
    both eq ok ok' && both eq error error' = true <->
  exists t, (a ← part f ok; b ← part f error; Some (TResult a b)) = Some t /\ (a ← part g ok'; b ← part g error'; Some (TResult a b)) = Some t.
Proof.
  intros He%agrees_both. rewrite !andb_true_iff, (He ok ok'), (He error error'). split.
  - intros [[_ (a & -> & ->)] (b & -> & ->)]. by eexists.
  - intros (t & H1 & H2). apply bind_Some in H1 as (a & E1 & H1). apply bind_Some in H1 as (b & E2 & [= <-]).
    apply bind_Some in H2 as (a' & E1' & H2). apply bind_Some in H2 as (b' & E2' & [= -> ->]).
    rewrite E1, E2, E1', E2'. split; [split; [|by eexists]|by eexists]. rewrite !eqb_true_iff.
    destruct ok, ok', error, error'; cbn in *; simplify_eq; repeat (destruct (f _) || destruct (g _)); simplify_eq; done.
Qed.

Lemma arrays_all2 {A B} eq (a : list A) (b : list B) : a <> [] /\ b <> [] -> arrays eq a b = all2 eq a b.
Proof. by intros [Ha Hb]; destruct a, b. Qed.

(** The comparison at one depth, by the shape of the two nodes. *)
Lemma equal_trees fuel lg rg :
  agrees (fun l r => equal_value_type fuel lg l rg r) (tree_of fuel lg) (tree_of fuel rg).
Proof.
  induction fuel as [|fuel IH]; intros l r; [split; [done|]; by intros (c & ? & _)|].
  destruct (decide (shape (resolve lg l) = shape (resolve rg r))) as [Hs|Hs]; last first.
  { split.
    - cbn [equal_value_type]. destruct (_ || _); [done|]. destruct (resolve lg l), (resolve rg r); done.
    - intros (c & H1%tree_of_shape & H2%tree_of_shape). congruence. }
  cbn [equal_value_type tree_of]. destruct (turbowasm_component_type_ref_validate lg l); cbn [negb orb]; [|split; [done|]; by intros (c & ? & _)].
  destruct (turbowasm_component_type_ref_validate rg r); cbn [negb]; [|split; [done|]; by intros (c & _ & ?)].
  pose proof (agrees_both _ _ _ IH) as Hboth.
  destruct (hollow (resolve lg l)) eqn:Hl.
  { split; [|by intros (c & ? & _)]. by destruct (resolve lg l) as [| | | | |[]|[]|[]| | |[]|[]| | | |], (resolve rg r). }
  destruct (hollow (resolve rg r)) eqn:Hr.
  { split; [|by intros (c & _ & ?)]. by destruct (resolve lg l) as [| | | | |[]|[]|[]| | |[]|[]| | | |], (resolve rg r) as [| | | | |[]|[]|[]| | |[]|[]| | | |]. }
  destruct (resolve lg l), (resolve rg r); cbn [shape] in Hs; try discriminate; clear Hs;
    try (split; [done|]; by intros (c & ? & ?)); try rewrite arrays_all2 by (split; intros ->; discriminate).
  - rewrite bool_decide_eq_true. split; [intros ->; by eexists|]. by intros (c & [= <-] & [=]).
  - split; [by eexists|done].
  - rewrite agrees_inj by (by intros ?? [=]). apply IH.
  - apply agrees_flag; [by intros ???? [= -> ->]|]. apply Hboth.
  - apply (agrees_list field_name field_name field_type field_type TRecord) with (eq := fun l r => equal_value_type fuel lg l rg r); [by intros ???? [= -> ->]|done].
  - rewrite agrees_inj by (by intros ?? [=]). by apply agrees_all2.
  - apply (agrees_list case_name case_name case_payload case_payload TVariant) with (eq := both (fun l r => equal_value_type fuel lg l rg r)); [by intros ???? [= -> ->]|done].
  - rewrite agrees_inj by (by intros ?? [=]). apply IH.
  - by apply agrees_result.
  - rewrite agrees_labels. split; [intros ->; by eexists|]. by intros (c & [= <-] & [=]).
  - rewrite agrees_labels. split; [intros ->; by eexists|]. by intros (c & [= <-] & [=]).
  - apply agrees_flag; [by intros ???? [= -> ->]|]. apply agrees_resource.
Qed.

(** ** Admitted types have trees *)

Lemma types_valid_at graph i l j t : types_valid graph i l = true -> l !! j = Some t -> type_valid graph (i + j) t = true.
Proof.
  revert i j. induction l as [|t0 l IH]; intros i j; [done|]. cbn [types_valid]. intros [Ht Hl]%andb_true_iff.
  destruct j as [|j]; cbn [lookup list_lookup]; [intros [= ->]; by rewrite Nat.add_0_r|]. intros Hj.
  rewrite Nat.add_succ_r. by apply (IH (S i)).
Qed.

Lemma get_valid graph id t : turbowasm_component_type_graph_validate graph = true ->
  turbowasm_component_type_graph_get graph id = Some t -> exists i, type_valid graph i t = true.
Proof.
  intros Hv. unfold turbowasm_component_type_graph_get. destruct (_ >=? _); [done|]. intros Ht.
  exists (0 + Z.to_nat id)%nat. by apply (types_valid_at graph 0 graph).
Qed.

Lemma valid_defined graph i t : type_valid graph i t = true -> undefined t = false.
Proof. destruct t; try done. destruct kind; done. destruct future; done. destruct own; done. Qed.

Lemma valid_solid graph i t : type_valid graph i t = true -> hollow t = false.
Proof. by destruct t as [| | | | |[]|[]|[]| | |[]|[]| | | |]. Qed.

Lemma valid_resource graph resource : handle_valid graph resource = true -> is_Some (turbowasm_component_resource_definition graph resource).
Proof.
  unfold handle_valid, turbowasm_component_resource_definition.
  destruct (turbowasm_component_type_graph_get graph resource) as [[]|]; try done. intros _.
  destruct (identity_alias r); cbn [negb]; [|done]. by destruct (List.find _ graph) as [[]|].
Qed.

Lemma walk_each {A S} (visit : A -> S -> option S) l : forall s s', walk visit l s = Some s' ->
  Forall (fun a => exists s s', visit a s = Some s') l.
Proof.
  induction l as [|a l IH]; intros s s'; [constructor|]. cbn [walk]. destruct (visit a s) as [s1|] eqn:E; [|done]. intros H.
  constructor; [by eexists _, _|by eapply IH].
Qed.

Lemma part_some {A B} (f : A -> option B) o : (forall a, o = Some a -> is_Some (f a)) -> is_Some (part f o).
Proof. destruct o as [a|]; cbn; [|done]. intros H. destruct (H a eq_refl) as [b ->]. done. Qed.

(** The walk over an admitted type visits the whole tree. *)
Lemma features_tree graph inspect imported fuel : turbowasm_component_type_graph_validate graph = true ->
  forall allow ref f f', value_type_features graph inspect imported fuel allow ref f = Some f' -> is_Some (tree_of fuel graph ref).
Proof.
  intros Hv. induction fuel as [|fuel IH]; intros allow ref f f'; [done|]. cbn [value_type_features tree_of].
  destruct ref as [id|kind].
  - cbn [resolve turbowasm_component_type_ref_validate].
    destruct (turbowasm_component_type_graph_get graph id) as [t|] eqn:Hg; [|done]. destruct (get_valid _ _ _ Hv Hg) as (i & Ht).
    rewrite (valid_defined _ _ _ Ht). cbn [negb]; change (default Undefined (Some t)) with t. rewrite (valid_solid _ _ _ Ht).
    assert (Hopt : forall o a s s', match o with None => Some s | Some r => value_type_features graph inspect imported fuel a r s end = Some s' ->
      is_Some (part (tree_of fuel graph) o)).
    { intros o a s s' H. apply part_some. intros r ->. by eapply IH. }
    destruct t; try done.
    + intros H. destruct (IH _ _ _ _ H) as [x ->]. done.
    + destruct (_ && _); [done|]. destruct allow; cbn [negb]; [|done]. intros H.
      assert (Hp : is_Some (part (tree_of fuel graph) payload)); [|by destruct Hp as [x ->]].
      apply part_some. intros r ->. destruct inspect; [by eapply IH|].
      destruct (value_type_features _ _ _ _ _ r 0) eqn:E; [by eapply IH|done].
    + intros H%walk_each. assert (Hm : is_Some (mapM (tree_of fuel graph) (map field_type fields))); [|by destruct Hm as [x ->]].
      apply mapM_is_Some, Forall_map. eapply Forall_impl; [exact H|]. intros a (s & s' & Ha). by eapply IH.
    + intros H%walk_each. assert (Hm : is_Some (mapM (tree_of fuel graph) elements)); [|by destruct Hm as [x ->]].
      apply mapM_is_Some. eapply Forall_impl; [exact H|]. intros a (s & s' & Ha). by eapply IH.
    + intros H%walk_each. assert (Hm : is_Some (mapM (part (tree_of fuel graph)) (map case_payload cases))); [|by destruct Hm as [x ->]].
      apply mapM_is_Some, Forall_map. eapply Forall_impl; [exact H|]. intros a (s & s' & Ha). by eapply Hopt.
    + intros H. destruct (IH _ _ _ _ H) as [x ->]. done.
    + destruct (match ok with Some _ => _ | None => _ end) as [f1|] eqn:E; [|done]. intros H.
      destruct (Hopt ok allow _ _ E) as [a ->]. destruct (Hopt error allow _ _ H) as [b ->]. done.
    + intros _. destruct (valid_resource graph resource) as [r ->]; done.
  - cbn [resolve turbowasm_component_type_ref_validate]. destruct (inline_kind kind); [|done]. intros _. cbn [negb]. by case_bool_decide.
Qed.

(** ** Depth *)

Lemma mapM_more {A B} (f g : A -> option B) l cs : (forall a b, f a = Some b -> g a = Some b) -> mapM f l = Some cs -> mapM g l = Some cs.
Proof.
  intros Hfg H%mapM_Some. apply mapM_Some. eapply Forall2_impl; [exact H|]. intros a b. apply Hfg.
Qed.

Lemma part_more {A B} (f g : A -> option B) o c : (forall a b, f a = Some b -> g a = Some b) -> part f o = Some c -> part g o = Some c.
Proof. intros Hfg. destruct o as [a|]; [|done]. cbn [part]. rewrite !tree_some. intros (b & Hb & ->). exists b. auto. Qed.

(** With more depth a tree stays what it is. *)
Lemma tree_more graph n : forall m ref t, (n <= m)%nat -> tree_of n graph ref = Some t -> tree_of m graph ref = Some t.
Proof.
  induction n as [|n IH]; intros m ref t Hm; [done|]. destruct m as [|m]; [lia|]. cbn [tree_of].
  destruct (negb _); [done|]. destruct (hollow _); [done|]. assert (Hin : forall r t, tree_of n graph r = Some t -> tree_of m graph r = Some t) by (intros; apply IH; [lia|done]).
  destruct (resolve graph ref); try done.
  - rewrite !tree_some. intros (t' & Ht & ->). eauto.
  - rewrite !tree_some. intros (t' & Ht & ->). exists t'. split; [|done]. by eapply part_more.
  - rewrite !tree_some. intros (t' & Ht & ->). exists t'. split; [|done]. by eapply mapM_more.
  - rewrite !tree_some. intros (t' & Ht & ->). exists t'. split; [|done]. by eapply mapM_more.
  - rewrite !tree_some. intros (t' & Ht & ->). exists t'. split; [|done]. eapply mapM_more; [|exact Ht]. intros a b. by apply part_more.
  - rewrite !tree_some. intros (t' & Ht & ->). eauto.
  - intros (a & Ha & Hb)%bind_Some. apply bind_Some in Hb as (b & Hb & [= <-]).
    by rewrite (part_more _ _ _ _ Hin Ha), (part_more _ _ _ _ Hin Hb).
Qed.

(** C16. Two references denote the same value type, for the runtime, exactly when
    both unfold within 64 levels to the same tree of types: field, case and label
    names included, and resources by their instance or declaration. A type with
    more levels, or with a record, tuple, variant, enum or flags without parts, has
    no such tree and equals nothing, not even itself. *)
Theorem component_type_equality lg l rg r :
  turbowasm_component_value_type_equal lg l rg r = true <->
  exists t, tree_of VALUE_MAX_DEPTH lg l = Some t /\ tree_of VALUE_MAX_DEPTH rg r = Some t.
Proof. apply equal_trees. Qed.

End TypeTrees.
