(* ===== verification/CanonicalSpec.v ===== *)
(** * Layout and flattening against the canonical ABI

    The canonical ABI defines the alignment, the size and the flat form of a value on
    its type; here on trees of types, with unbounded numbers. The runtime computes
    the same, and refuses a type whose size it cannot count. *)

From S2P Require Import Prelude Value ExecStack Memory Strings TypeGraph TypeTrees Canonical.

Module CanonicalSpec.
Import ExecStack Strings TypeGraph TypeTrees Canonical.

(** ** The canonical ABI *)

Definition align_to (offset a : Z) : Z := (offset + a - 1) / a * a.

Definition max_of (l : list Z) (d : Z) : Z := fold_right Z.max d l.

Definition discriminant_size (n : nat) : Z :=
  if Z.of_nat n <=? 256 then 1 else if Z.of_nat n <=? 65536 then 2 else 4.

Definition flags_size (n : nat) : Z :=
  if Z.of_nat n <=? 8 then 1 else if Z.of_nat n <=? 16 then 2 else 4.

Definition scalar_size (kind : turbowasm_component_type_kind) : Z :=
  match kind with
  | TYPE_BOOL | TYPE_S8 | TYPE_U8 => 1
  | TYPE_S16 | TYPE_U16 => 2
  | TYPE_S32 | TYPE_U32 | TYPE_F32 | TYPE_CHAR => 4
  | _ => 8
  end.

Section Spec.
Context (ptr : Z).

Definition opt {A B} (f : A -> B) (d : B) (o : option A) : B := match o with Some a => f a | None => d end.

(** Options and results are variants of two cases. *)
Fixpoint tree_alignment (t : tree) : Z :=
  match t with
  | TScalar kind => scalar_size kind
  | TString | TList _ => ptr
  | TAsync _ _ | THandle _ _ => 4
  | TRecord _ ts | TTuple ts => max_of (map tree_alignment ts) 1
  | TVariant _ cases =>
      Z.max (max_of (map (fun o => match o with Some t => tree_alignment t | None => 1 end) cases) 1) (discriminant_size (length cases))
  | TOption t => Z.max (Z.max 1 (Z.max (tree_alignment t) 1)) 1
  | TResult a b =>
      Z.max (Z.max match a with Some t => tree_alignment t | None => 1 end
               (Z.max match b with Some t => tree_alignment t | None => 1 end 1)) 1
  | TEnum labels => discriminant_size (length labels)
  | TFlags labels => flags_size (length labels)
  end.

(** The end of elements with these alignments and sizes behind [offset]. *)
Definition sequence_end (offset : Z) (l : list (Z * Z)) : Z :=
  fold_left (fun offset p => align_to offset (fst p) + snd p) l offset.

(** A variant of the payloads' alignment and size, and so many cases. *)
Definition variant_size (payload_alignment payload_size : Z) (n : nat) : Z :=
  align_to (align_to (discriminant_size n) payload_alignment + payload_size) (Z.max payload_alignment (discriminant_size n)).

Fixpoint tree_size (t : tree) : Z :=
  match t with
  | TScalar kind => scalar_size kind
  | TString | TList _ => 2 * ptr
  | TAsync _ _ | THandle _ _ => 4
  | TRecord _ ts | TTuple ts =>
      align_to (sequence_end 0 (map (fun t => (tree_alignment t, tree_size t)) ts)) (max_of (map tree_alignment ts) 1)
  | TVariant _ cases =>
      variant_size (max_of (map (fun o => match o with Some t => tree_alignment t | None => 1 end) cases) 1)
        (max_of (map (fun o => match o with Some t => tree_size t | None => 0 end) cases) 0) (length cases)
  | TOption t => variant_size (Z.max 1 (Z.max (tree_alignment t) 1)) (Z.max 0 (Z.max (tree_size t) 0)) 2
  | TResult a b =>
      variant_size (Z.max match a with Some t => tree_alignment t | None => 1 end
                     (Z.max match b with Some t => tree_alignment t | None => 1 end 1))
        (Z.max match a with Some t => tree_size t | None => 0 end (Z.max match b with Some t => tree_size t | None => 0 end 0)) 2
  | TEnum labels => discriminant_size (length labels)
  | TFlags labels => flags_size (length labels)
  end.

Definition cases_alignment (cs : list (option tree)) : Z := max_of (map (opt tree_alignment 1) cs) 1.
Definition cases_size (cs : list (option tree)) : Z := max_of (map (opt tree_size 0) cs) 0.
Definition items_alignment (ts : list tree) : Z := max_of (map tree_alignment ts) 1.
Definition items_end (offset : Z) (ts : list tree) : Z := sequence_end offset (map (fun t => (tree_alignment t, tree_size t)) ts).

(** ** Trees, by induction *)

Lemma tree_ind' (P : tree -> Prop) :
  (forall k, P (TScalar k)) -> P TString -> (forall t, P t -> P (TList t)) -> (forall f o, opt P True o -> P (TAsync f o)) ->
  (forall ns ts, Forall P ts -> P (TRecord ns ts)) -> (forall ts, Forall P ts -> P (TTuple ts)) ->
  (forall ns cs, Forall (opt P True) cs -> P (TVariant ns cs)) -> (forall t, P t -> P (TOption t)) ->
  (forall a b, opt P True a -> opt P True b -> P (TResult a b)) -> (forall l, P (TEnum l)) -> (forall l, P (TFlags l)) ->
  (forall o r, P (THandle o r)) -> forall t, P t.
Proof.
  intros Hsc Hst Hli Has Hre Htu Hva Hop Hrs Hen Hfl Hha.
  fix IH 1. intros t.
  destruct t as [| |t|f o|ns ts|ts|ns cs|t|a b| | |].
  - apply Hsc.
  - apply Hst.
  - apply Hli, IH.
  - apply Has. destruct o; [apply IH|exact I].
  - apply Hre. induction ts as [|t ts IHts]; constructor; [apply IH|exact IHts].
  - apply Htu. induction ts as [|t ts IHts]; constructor; [apply IH|exact IHts].
  - apply Hva. induction cs as [|o cs IHcs]; constructor; [|exact IHcs]. destruct o; [apply IH|exact I].
  - apply Hop, IH.
  - apply Hrs; [destruct a|destruct b]; try exact I; apply IH.
  - apply Hen.
  - apply Hfl.
  - apply Hha.
Qed.

(** ** Alignment *)

Definition power (a : Z) : Prop := a = 1 \/ a = 2 \/ a = 4 \/ a = 8.

Lemma power_max a b : power a -> power b -> power (Z.max a b).
Proof. unfold power. lia. Qed.

Lemma power_max_of l : Forall power l -> power (max_of l 1).
Proof. induction 1 as [|a l Ha Hl IH]; [by left|]. cbn [max_of fold_right]. by apply power_max. Qed.

Lemma discriminant_power n : power (discriminant_size n).
Proof. unfold discriminant_size, power. repeat case_match; lia. Qed.

Lemma align_to_spec offset a : 0 < a -> offset <= align_to offset a < offset + a /\ align_to offset a mod a = 0.
Proof.
  intros Ha. unfold align_to. pose proof (Z.div_mod (offset + a - 1) a ltac:(lia)) as Hd. pose proof (Z.mod_pos_bound (offset + a - 1) a Ha).
  split; [|by apply Z_mod_mult]. lia.
Qed.

Context (Hptr : ptr = 4 \/ ptr = 8).

Lemma alignment_power t : power (tree_alignment t).
Proof using Hptr.
  assert (Hopt : forall o, opt (fun t => power (tree_alignment t)) True o -> power match o with Some t => tree_alignment t | None => 1 end)
    by (intros [t'|]; [done|by left]).
  induction t using tree_ind'; cbn [tree_alignment]; unfold power in *; try (destruct k; cbn; lia); try lia.
  - apply power_max_of, Forall_map. done.
  - apply power_max_of, Forall_map. done.
  - apply power_max; [|apply discriminant_power]. apply power_max_of, Forall_map. eapply Forall_impl; [done|]. intros o. apply Hopt.
  - apply Hopt in H, H0. unfold power in *. lia.
  - apply discriminant_power.
  - unfold flags_size. repeat case_match; lia.
Qed.

(** ** Size *)

Lemma max_of_ge l d : d <= max_of l d /\ Forall (fun a => a <= max_of l d) l.
Proof.
  induction l as [|a l [IH1 IH2]]; [split; [done|constructor]|].
  change (max_of (a :: l) d) with (Z.max a (max_of l d)). split; [lia|]. constructor; [lia|].
  eapply Forall_impl; [exact IH2|]. intros b Hb. cbv beta in *. lia.
Qed.

Lemma max_of_le l d m : d <= m -> Forall (fun a => a <= m) l -> max_of l d <= m.
Proof. intros Hd. induction 1 as [|a l Ha Hl IH]; [done|]. cbn [max_of fold_right]. fold (max_of l d). lia. Qed.

Lemma sequence_end_ge l : forall offset, Forall (fun p => 0 < fst p /\ 0 <= snd p) l -> offset <= sequence_end offset l.
Proof.
  induction l as [|[a z] l IH]; intros offset H; [cbn; lia|]. inversion H as [|? ? [Ha Hz] Hl]; subst. cbn [sequence_end fold_left fst snd] in *.
  fold (sequence_end (align_to offset a + z) l). specialize (IH (align_to offset a + z) Hl). pose proof (align_to_spec offset a Ha). lia.
Qed.

Lemma variant_size_spec pa ps n : power pa -> 0 <= ps ->
  let d := discriminant_size n in
  d <= align_to d pa <= align_to d pa + ps /\ align_to d pa + ps <= variant_size pa ps n /\ variant_size pa ps n mod Z.max pa d = 0.
Proof.
  intros Hpa Hps d. pose proof (discriminant_power n) as Hd. fold d in Hd. unfold variant_size. fold d.
  assert (0 < pa /\ 0 < Z.max pa d) by (unfold power in *; lia). pose proof (align_to_spec d pa ltac:(lia)) as H1.
  pose proof (align_to_spec (align_to d pa + ps) (Z.max pa d) ltac:(lia)) as H2. lia.
Qed.

Lemma cases_power cs : power (cases_alignment cs).
Proof using Hptr.
  apply power_max_of, Forall_map, Forall_forall. intros [t|] _; [apply alignment_power|by left].
Qed.

Lemma power_positive a : power a -> 0 < a.
Proof. unfold power. lia. Qed.

Lemma items_positive ts : Forall (fun t => 0 <= tree_size t) ts -> Forall (fun p => 0 < fst p /\ 0 <= snd p) (map (fun t => (tree_alignment t, tree_size t)) ts).
Proof using Hptr. intros H. apply Forall_map. eapply Forall_impl; [exact H|]. intros t Ht. split; [apply power_positive, alignment_power|done]. Qed.

(** Sizes are multiples of the alignment. *)
Lemma size_spec t : 0 <= tree_size t /\ tree_size t mod tree_alignment t = 0.
Proof using Hptr.
  assert (Hvar : forall cs, Forall (opt (fun t => 0 <= tree_size t /\ tree_size t mod tree_alignment t = 0) True) cs ->
    0 <= variant_size (cases_alignment cs) (cases_size cs) (length cs) /\
    variant_size (cases_alignment cs) (cases_size cs) (length cs) mod Z.max (cases_alignment cs) (discriminant_size (length cs)) = 0).
  { intros cs _. pose proof (cases_power cs) as Hp. pose proof (proj1 (max_of_ge (map (opt tree_size 0) cs) 0)) as Hge.
    pose proof (variant_size_spec (cases_alignment cs) (cases_size cs) (length cs) Hp Hge) as Hv. cbv zeta in Hv.
    pose proof (power_positive _ (discriminant_power (length cs))). unfold cases_size in *. lia. }
  assert (Hseq : forall ts, Forall (fun t => 0 <= tree_size t /\ tree_size t mod tree_alignment t = 0) ts ->
    0 <= align_to (items_end 0 ts) (items_alignment ts) /\ align_to (items_end 0 ts) (items_alignment ts) mod items_alignment ts = 0).
  { intros ts H. assert (Hp : 0 < items_alignment ts).
    { apply power_positive, power_max_of, Forall_map, Forall_forall. intros t' _. apply alignment_power. }
    pose proof (align_to_spec (items_end 0 ts) _ Hp). unfold items_end in *.
    pose proof (sequence_end_ge (map (fun t => (tree_alignment t, tree_size t)) ts) 0) as Hge.
    specialize (Hge ltac:(apply items_positive; eapply Forall_impl; [exact H|by intros ? []])). lia. }
  induction t using tree_ind'; cbn [tree_size tree_alignment].
  - destruct k; cbn; done.
  - destruct Hptr as [-> | ->]; done.
  - destruct Hptr as [-> | ->]; done.
  - done.
  - by apply Hseq.
  - by apply Hseq.
  - by apply Hvar.
  - apply (Hvar [None; Some t]). by repeat apply Forall_cons_2.
  - apply (Hvar [a; b]). auto using Forall_cons_2, Forall_nil_2.
  - pose proof (power_positive _ (discriminant_power (length l))). split; [lia|]. apply Z_mod_same_full.
  - unfold flags_size. repeat case_match; done.
  - done.
Qed.

(** ** The runtime's arithmetic *)

Lemma align_up_spec v a : 0 < a -> 0 <= v <= UINT64_MAX -> align_up_u64 v a = if align_to v a <=? UINT64_MAX then Some (align_to v a) else None.
Proof.
  intros Ha Hv. unfold align_up_u64. rewrite (proj2 (Z.eqb_neq a 0)) by lia.
  assert (Hal : align_to v a = if v mod a =? 0 then v else v + (a - v mod a)).
  { unfold align_to. pose proof (Z.div_mod v a ltac:(lia)) as Hd. pose proof (Z.mod_pos_bound v a Ha) as Hm. destruct (Z.eqb_spec (v mod a) 0) as [E|E].
    - replace (v + a - 1) with (a - 1 + v / a * a) by lia. rewrite Z.div_add, (Z.div_small (a - 1)) by lia. lia.
    - replace (v + a - 1) with (v mod a - 1 + (v / a + 1) * a) by lia. rewrite Z.div_add, (Z.div_small (v mod a - 1)) by lia. lia. }
  rewrite Hal. destruct (Z.eqb_spec (v mod a) 0); [by rewrite (proj2 (Z.leb_le v _)) by lia|].
  rewrite Z.gtb_ltb. destruct (Z.ltb_spec (UINT64_MAX - (a - v mod a)) v), (Z.leb_spec (v + (a - v mod a)) UINT64_MAX); lia || done.
Qed.

(** A result whose size the runtime can count. *)
Definition counted {A} (n : Z) (a : A) : res A := if n <=? UINT64_MAX then inr a else inl TURBOWASM_UNSUPPORTED.

Definition tree_layout (t : tree) : res turbowasm_component_layout := counted (tree_size t) (mk_layout (tree_alignment t) (tree_size t)).

(** Elements behind [offset]: each is aligned and none is beyond what can be counted. *)
Lemma sequence_layout_spec child refs ts : Forall2 (fun ref t => child ref = tree_layout t) refs ts ->
  forall a offset, power a -> 0 <= offset <= UINT64_MAX ->
  sequence_layout child TURBOWASM_UNSUPPORTED refs a offset =
    counted (items_end offset ts) (Z.max a (items_alignment ts), items_end offset ts).
Proof using Hptr.
  induction 1 as [|ref t refs ts Hc Hf IH]; intros a offset Ha Ho.
  - cbn [sequence_layout items_end sequence_end fold_left map items_alignment max_of fold_right]. unfold counted.
    rewrite (proj2 (Z.leb_le offset _)) by lia. unfold power in Ha. do 2 f_equal. lia.
  - cbn [sequence_layout]. rewrite Hc. unfold tree_layout, counted at 1.
    destruct (size_spec t) as [Hs0 _]. pose proof (alignment_power t) as Hpt. pose proof (align_to_spec offset _ (power_positive _ Hpt)) as [Hal _].
    change (items_end offset (t :: ts)) with (items_end (align_to offset (tree_alignment t) + tree_size t) ts).
    change (items_alignment (t :: ts)) with (Z.max (tree_alignment t) (items_alignment ts)).
    assert (Hge : forall o, o <= items_end o ts). { intros o. apply sequence_end_ge, items_positive, Forall_forall. intros t' _. apply size_spec. }
    pose proof (Hge (align_to offset (tree_alignment t) + tree_size t)) as Hge1.
    destruct (Z.leb_spec (tree_size t) UINT64_MAX) as [Hle|Hgt]; cbn [mbind res_bind alignment size];
      [|unfold counted; rewrite (proj2 (Z.leb_gt _ _)) by lia; done].
    rewrite align_up_spec; [|by apply power_positive|done].
    destruct (Z.leb_spec (align_to offset (tree_alignment t)) UINT64_MAX); cbn [require mbind res_bind];
      [|unfold counted; rewrite (proj2 (Z.leb_gt _ _)) by lia; done]. unfold guard_. rewrite Z.gtb_ltb.
    destruct (Z.ltb_spec (UINT64_MAX - tree_size t) (align_to offset (tree_alignment t))); cbn [negb mbind res_bind];
      [unfold counted; rewrite (proj2 (Z.leb_gt _ _)) by lia; done|].
    rewrite IH by (lia || by apply power_max). unfold counted. destruct (_ <=? _); [|done]. do 2 f_equal. lia.
Qed.

Lemma cases_layout_spec child cases cs : Forall2 (fun o c => match o, c with
    | Some ref, Some t => child ref = tree_layout t | None, None => True | _, _ => False end) cases cs ->
  forall a z, power a -> 0 <= z <= UINT64_MAX ->
  cases_layout child cases a z = counted (Z.max z (cases_size cs)) (Z.max a (cases_alignment cs), Z.max z (cases_size cs)).
Proof using Hptr.
  induction 1 as [|o c cases cs Hc Hf IH]; intros a z Ha Hz.
  - cbn [cases_layout cases_size cases_alignment map max_of fold_right]. unfold counted. unfold power in Ha.
    rewrite (proj2 (Z.leb_le _ _)) by lia. do 2 f_equal; lia.
  - change (cases_size (c :: cs)) with (Z.max (opt tree_size 0 c) (cases_size cs)).
    change (cases_alignment (c :: cs)) with (Z.max (opt tree_alignment 1 c) (cases_alignment cs)).
    pose proof (proj1 (max_of_ge (map (opt tree_size 0) cs) 0)) as H0. fold (cases_size cs) in H0. pose proof (power_positive _ (cases_power cs)).
    destruct o as [ref|], c as [t|]; try done; cbn [cases_layout opt].
    + rewrite Hc. unfold tree_layout, counted at 1. destruct (size_spec t) as [Hs0 _].
      destruct (Z.leb_spec (tree_size t) UINT64_MAX); cbn [mbind res_bind alignment size];
        [|unfold counted; rewrite (proj2 (Z.leb_gt _ _)) by lia; done].
      rewrite IH by (lia || (apply power_max; [done|apply alignment_power])). unfold counted.
      rewrite !Z.max_assoc. done.
    + rewrite IH by done. rewrite (Z.max_r 0), (Z.max_r 1) by lia. done.
Qed.

(** A record or tuple, a variant, option or result. *)
Lemma items_layout child refs ts : Forall2 (fun ref t => child ref = tree_layout t) refs ts ->
  ('(a, offset) ← sequence_layout child TURBOWASM_UNSUPPORTED refs 1 0;
   total ← require (align_up_u64 offset a) TURBOWASM_UNSUPPORTED;
   mret (mk_layout a total)) =
  let z := align_to (items_end 0 ts) (items_alignment ts) in counted z (mk_layout (items_alignment ts) z).
Proof using Hptr.
  intros Hf. rewrite (sequence_layout_spec _ _ _ Hf 1 0) by (by left || done).
  assert (Hp : power (items_alignment ts)). { apply power_max_of, Forall_map, Forall_forall. intros t' _. apply alignment_power. }
  rewrite Z.max_r by (unfold power in Hp; lia). pose proof (align_to_spec (items_end 0 ts) _ (power_positive _ Hp)) as [Hal _].
  assert (H0 : 0 <= items_end 0 ts). { apply sequence_end_ge, items_positive, Forall_forall. intros t' _. apply size_spec. }
  cbv zeta. unfold counted at 1. destruct (Z.leb_spec (items_end 0 ts) UINT64_MAX); cbn [mbind res_bind].
  - rewrite align_up_spec by (lia || by apply power_positive). unfold counted. by destruct (_ <=? _).
  - unfold counted. by rewrite (proj2 (Z.leb_gt _ _)) by lia.
Qed.

Lemma width_discriminant n : (0 < n)%nat -> enum_storage_width (Z.of_nat n) = discriminant_size n.
Proof.
  intros Hn. unfold enum_storage_width, discriminant_size. by rewrite (proj2 (Z.eqb_neq _ 0)) by lia.
Qed.

Lemma variant_layout_spec child node cs : (0 < length cs)%nat -> Forall2 (fun o c => match o, c with
    | Some ref, Some t => child ref = tree_layout t | None, None => True | _, _ => False end) (variant_cases node) cs ->
  variant_layout child node =
    let z := variant_size (cases_alignment cs) (cases_size cs) (length cs) in
    counted z (mk_layout (Z.max (cases_alignment cs) (discriminant_size (length cs))) z).
Proof using Hptr.
  intros Hn Hf. pose proof (Forall2_length _ _ _ Hf) as Hlen. unfold variant_layout, variant_case_count. rewrite Hlen.
  rewrite width_discriminant by done. pose proof (discriminant_power (length cs)) as Hd. set (d := discriminant_size (length cs)) in *.
  pose proof (power_positive _ Hd) as Hd0. rewrite !(proj2 (Z.eqb_neq _ 0)) by lia. cbn [orb negb guard_ mbind res_bind].
  rewrite (cases_layout_spec _ _ _ Hf 1 0) by (by left || done). pose proof (cases_power cs) as Hp. pose proof (power_positive _ Hp).
  pose proof (proj1 (max_of_ge (map (opt tree_size 0) cs) 0)) as H0. fold (cases_size cs) in H0.
  rewrite (Z.max_r 0), (Z.max_r 1) by lia. pose proof (variant_size_spec (cases_alignment cs) (cases_size cs) (length cs) Hp H0) as Hv.
  cbv zeta in *. fold d in Hv. pose proof (align_to_spec d _ (power_positive _ Hp)) as [Hal _].
  unfold counted at 1. destruct (Z.leb_spec (cases_size cs) UINT64_MAX); cbn [mbind res_bind];
    [|unfold counted; rewrite (proj2 (Z.leb_gt _ _)) by lia; done].
  assert (Hsmall : align_to d (cases_alignment cs) <= UINT64_MAX) by (unfold power, UINT64_MAX in *; lia).
  rewrite align_up_spec by (unfold power, UINT64_MAX in *; lia). rewrite (proj2 (Z.leb_le _ _) Hsmall). cbn [require mbind res_bind].
  unfold guard_. rewrite Z.gtb_ltb. destruct (Z.ltb_spec (UINT64_MAX - cases_size cs) (align_to d (cases_alignment cs))); cbn [negb mbind res_bind];
    [unfold counted; rewrite (proj2 (Z.leb_gt _ _)) by lia; done|].
  rewrite align_up_spec by lia. unfold counted, variant_size. fold d. by destruct (_ <=? _).
Qed.

End Spec.

(** ** Layout *)

Section Graph.
Context (graph : turbowasm_component_type_graph) (Hv : turbowasm_component_type_graph_validate graph = true).
Context (ptype : Z) (Hp : pointer_type_valid ptype = true).

Abbreviation ptr := (pointer_size ptype).

Lemma pointer_sizes : ptr = 4 \/ ptr = 8.
Proof using. unfold pointer_size. case_match; [by right|by left]. Qed.

(** A reference with a tree leads to a valid node. *)
Lemma resolved ref : turbowasm_component_type_ref_validate graph ref = true ->
  resolved_kind graph ref = inr (resolve graph ref) /\ exists i, type_valid graph i (resolve graph ref) = true.
Proof using Hv.
  destruct ref as [id|kind]; cbn [turbowasm_component_type_ref_validate resolved_kind resolve].
  - destruct (turbowasm_component_type_graph_get graph id) as [t|] eqn:Hg; [|done]. intros Hu. destruct (undefined t); [done|].
    split; [done|]. by eapply get_valid.
  - intros Hi. rewrite Hi. split; [done|]. exists 0%nat. unfold inline_kind in Hi. case_bool_decide; cbn in *; [done|]. by rewrite orb_false_r in Hi.
Qed.

Lemma scalar_layout_spec kind : scalar_kind kind = true -> scalar_layout kind = tree_layout ptr (TScalar kind).
Proof using. by destruct kind. Qed.

Lemma parts_spec (P : turbowasm_component_type_ref -> tree -> Prop) f os cs : mapM (part f) os = Some cs -> (forall r t, f r = Some t -> P r t) ->
  Forall2 (fun o c => match o, c with Some ref, Some t => P ref t | None, None => True | _, _ => False end) os cs.
Proof using.
  intros H%mapM_Some HP. eapply Forall2_impl; [exact H|]. intros [r|] c; cbn [part]; [|by intros [= <-]].
  rewrite tree_some. intros (t & Ht & ->). by apply HP.
Qed.

Lemma nonempty_length {A} (l : list A) : l <> [] -> (0 < length l)%nat.
Proof using. destruct l; [done|simpl; lia]. Qed.

Lemma layout_trees fuel : forall ref t, tree_of fuel graph ref = Some t -> canonical_layout_inner graph ptype fuel ref = tree_layout ptr t.
Proof using Hv Hp.
  pose proof pointer_sizes as Hptr. induction fuel as [|fuel IH]; intros ref t; [done|]. cbn [tree_of canonical_layout_inner].
  rewrite Hp. cbn [guard_ mbind res_bind]. destruct (turbowasm_component_type_ref_validate graph ref) eqn:Hr; [|done]. cbn [negb]. destruct (hollow _); [done|].
  destruct (resolved ref Hr) as [-> (i & Ht)]. cbn [mbind res_bind].
  destruct (resolve graph ref) as [|kind| |e|fut pl|fields|elements|cases|pl|ok error|labels|labels|fn|r|own r|tys ex] eqn:Hnode; try done;
    cbn [type_valid] in Ht.
  - intros [= <-]. by apply scalar_layout_spec.
  - intros [= <-]. unfold tree_layout, counted. cbn. destruct Hptr as [-> | ->]; done.
  - rewrite tree_some. intros (t' & _ & ->). rewrite Ht. cbn [guard_ mbind res_bind]. unfold tree_layout, counted. cbn. destruct Hptr as [-> | ->]; done.
  - rewrite tree_some. intros (t' & _ & ->). done.
  - rewrite tree_some. intros (ts & Hts%mapM_Some & ->). apply andb_true_iff in Ht as [Ht _]. apply negb_true_iff, bool_decide_eq_false in Ht.
    unfold guard_. rewrite bool_decide_eq_false_2 by (cbn; by destruct fields). cbn [negb mbind res_bind sequence_refs].
    apply (items_layout ptr Hptr). eapply Forall2_impl; [exact Hts|]. apply IH.
  - rewrite tree_some. intros (ts & Hts%mapM_Some & ->). apply andb_true_iff in Ht as [Ht _]. apply negb_true_iff, bool_decide_eq_false in Ht.
    unfold guard_. rewrite bool_decide_eq_false_2 by done. cbn [negb mbind res_bind sequence_refs].
    apply (items_layout ptr Hptr). eapply Forall2_impl; [exact Hts|]. apply IH.
  - rewrite tree_some. intros (cs & Hcs & ->). apply andb_true_iff in Ht as [Ht _]. apply negb_true_iff, bool_decide_eq_false in Ht.
    apply (parts_spec (fun r t => canonical_layout_inner graph ptype fuel r = tree_layout ptr t)) in Hcs; [|done].
    apply (variant_layout_spec ptr Hptr); [|done]. apply Forall2_length in Hcs. rewrite length_map in Hcs. rewrite <- Hcs. by apply nonempty_length.
  - rewrite tree_some. intros (t' & Ht' & ->). apply (variant_layout_spec ptr Hptr _ _ [None; Some t']); [simpl; lia|].
    repeat constructor. by apply IH.
  - intros (a & Ha & Hb)%bind_Some. apply bind_Some in Hb as (b & Hb & [= <-]). apply (variant_layout_spec ptr Hptr _ _ [a; b]); [simpl; lia|].
    apply (parts_spec _ (tree_of fuel graph)); [|apply IH]. cbn. rewrite Ha. cbn. by rewrite Hb.
  - intros [= <-]. apply andb_true_iff in Ht as [Ht _]. apply negb_true_iff, bool_decide_eq_false in Ht.
    rewrite width_discriminant by (by apply nonempty_length). pose proof (discriminant_power (length labels)) as Hd. unfold power in Hd.
    unfold guard_. rewrite (proj2 (Z.eqb_neq _ 0)) by lia. cbn [negb mbind res_bind]. unfold tree_layout, counted. cbn [tree_size tree_alignment].
    by rewrite (proj2 (Z.leb_le _ _)) by (unfold UINT64_MAX; lia).
  - intros [= <-]. apply andb_true_iff in Ht as [Ht H32]. apply andb_true_iff in Ht as [Ht _]. apply negb_true_iff, bool_decide_eq_false in Ht.
    apply negb_true_iff in H32. apply nonempty_length in Ht. unfold flags_storage_width. rewrite H32, (proj2 (Z.eqb_neq _ 0)) by lia. cbn [orb].
    unfold tree_layout, counted. cbn [tree_size tree_alignment]. unfold flags_size. by repeat case_match.
  - rewrite tree_some. intros (n & _ & ->). unfold handle_valid in Ht. unfold resource_of.
    by destruct (turbowasm_component_type_graph_get graph r) as [[]|].
Qed.

(** Values take room. *)
Lemma size_positive fuel : forall ref t, tree_of fuel graph ref = Some t -> 0 < tree_size ptr t.
Proof using Hv.
  pose proof pointer_sizes as Hptr. induction fuel as [|fuel IH]; intros ref t; [done|]. cbn [tree_of].
  destruct (turbowasm_component_type_ref_validate graph ref) eqn:Hr; [|done]. cbn [negb]. destruct (hollow _); [done|]. destruct (resolved ref Hr) as [_ (i & Ht)].
  assert (Hvar : forall pa ps n, power pa -> 0 <= ps -> 0 < variant_size pa ps n).
  { intros pa ps n Hpa Hps. pose proof (variant_size_spec pa ps n Hpa Hps) as H. cbv zeta in H. pose proof (power_positive _ (discriminant_power n)). lia. }
  assert (Hcases : forall cs, 0 < variant_size (cases_alignment ptr cs) (cases_size ptr cs) (length cs)).
  { intros cs. apply Hvar; [by apply cases_power|]. apply (proj1 (max_of_ge _ 0)). }
  assert (Hitems : forall refs ts, Forall2 (fun r t => tree_of fuel graph r = Some t) refs ts -> refs <> [] ->
    0 < align_to (items_end ptr 0 ts) (items_alignment ptr ts)).
  { intros refs ts Hts Hne. destruct Hts as [|r t0 refs ts Ht0 Hts]; [done|]. apply IH in Ht0.
    assert (Hpow : power (items_alignment ptr (t0 :: ts))). { apply power_max_of, Forall_map, Forall_forall. intros t' _. by apply alignment_power. }
    pose proof (align_to_spec (items_end ptr 0 (t0 :: ts)) _ (power_positive _ Hpow)) as [Hal _].
    change (items_end ptr 0 (t0 :: ts)) with (items_end ptr (align_to 0 (tree_alignment ptr t0) + tree_size ptr t0) ts) in *.
    pose proof (align_to_spec 0 _ (power_positive _ (alignment_power ptr Hptr t0))) as [H0 _].
    assert (Hge : forall o, o <= items_end ptr o ts). { intros o. apply sequence_end_ge, items_positive, Forall_forall; [done|]. intros t' _. by apply size_spec. }
    specialize (Hge (align_to 0 (tree_alignment ptr t0) + tree_size ptr t0)). lia. }
  destruct (resolve graph ref) as [|kind| |e|fut pl|fields|elements|cases|pl|ok error|labels|labels|fn|r|own r|tys ex] eqn:Hnode; try done;
    cbn [type_valid] in Ht.
  - intros [= <-]. by destruct kind.
  - intros [= <-]. cbn. lia.
  - rewrite tree_some. intros (t' & _ & ->). cbn. lia.
  - rewrite tree_some. intros (t' & _ & ->). done.
  - rewrite tree_some. intros (ts & Hts%mapM_Some & ->). apply andb_true_iff in Ht as [Ht _]. apply negb_true_iff, bool_decide_eq_false in Ht.
    apply (Hitems _ _ Hts). by destruct fields.
  - rewrite tree_some. intros (ts & Hts%mapM_Some & ->). apply andb_true_iff in Ht as [Ht _]. apply negb_true_iff, bool_decide_eq_false in Ht.
    by apply (Hitems _ _ Hts).
  - rewrite tree_some. intros (cs & _ & ->). apply Hcases.
  - rewrite tree_some. intros (t' & _ & ->). apply (Hcases [None; Some t']).
  - intros (a & _ & Hb)%bind_Some. apply bind_Some in Hb as (b & _ & [= <-]). apply (Hcases [a; b]).
  - intros [= <-]. apply power_positive, discriminant_power.
  - intros [= <-]. cbn. unfold flags_size. by repeat case_match.
  - rewrite tree_some. by intros (n & _ & ->).
Qed.

End Graph.

#[local] Strategy expand [turbowasm_component_transfer_type_features turbowasm_component_canonical_layout turbowasm_component_canonical_flatten_type].
#[local] Strategy 100 [value_type_features canonical_layout_inner canonical_flatten_type_inner tree_of].

(** The two walks and the trees have one bound on depth. *)
Lemma one_depth : CANONICAL_MAX_DEPTH = VALUE_MAX_DEPTH.
Proof. reflexivity. Qed.

Lemma admitted_tree graph ref features : turbowasm_component_type_graph_validate graph = true ->
  turbowasm_component_transfer_type_features graph ref = Some features -> is_Some (tree_of VALUE_MAX_DEPTH graph ref).
Proof. intros Hv Hf. unfold turbowasm_component_transfer_type_features in Hf. exact (features_tree graph false false VALUE_MAX_DEPTH Hv true ref 0 features Hf). Qed.

Lemma layout_depth graph ptype ref t : turbowasm_component_type_graph_validate graph = true -> pointer_type_valid ptype = true ->
  tree_of VALUE_MAX_DEPTH graph ref = Some t -> turbowasm_component_canonical_layout graph ptype ref = tree_layout (pointer_size ptype) t.
Proof. intros Hv Hp Ht. unfold turbowasm_component_canonical_layout. rewrite one_depth. exact (layout_trees graph Hv ptype Hp VALUE_MAX_DEPTH ref t Ht). Qed.

(** C14. On a validated graph, every type that is admitted as a value has the
    alignment and the size that the canonical ABI gives it, and an alignment of 1, 2,
    4 or 8 that divides the size; a type too large for 64 bits is refused, never
    given a wrapped size. *)
Theorem layout_refines_abi graph ref ptype features :
  turbowasm_component_type_graph_validate graph = true -> pointer_type_valid ptype = true ->
  turbowasm_component_transfer_type_features graph ref = Some features ->
  exists t, tree_of VALUE_MAX_DEPTH graph ref = Some t /\
    let a := tree_alignment (pointer_size ptype) t in let n := tree_size (pointer_size ptype) t in
    turbowasm_component_canonical_layout graph ptype ref = (if n <=? UINT64_MAX then inr (mk_layout a n) else inl TURBOWASM_UNSUPPORTED) /\
    (a = 1 \/ a = 2 \/ a = 4 \/ a = 8) /\ 0 < n /\ n mod a = 0.
Proof.
  intros Hv Hp Hf. destruct (admitted_tree _ _ _ Hv Hf) as [t Ht]. exists t. split; [exact Ht|]. cbv zeta.
  split; [exact (layout_depth _ _ _ _ Hv Hp Ht)|]. split; [apply alignment_power, pointer_sizes|].
  split; [exact (size_positive graph Hv ptype _ ref t Ht)|]. apply size_spec, pointer_sizes.
Qed.

(** ** Flattening *)

(** The carrier of two cases. *)
Definition join (a b : turbowasm_component_flat_type) : turbowasm_component_flat_type :=
  match a, b with
  | FLAT_F32, FLAT_F32 => FLAT_F32
  | FLAT_F64, FLAT_F64 => FLAT_F64
  | FLAT_I32, FLAT_I32 | FLAT_I32, FLAT_F32 | FLAT_F32, FLAT_I32 => FLAT_I32
  | _, _ => FLAT_I64
  end.

Lemma join_flat_type_spec a b : join_flat_type a b = join a b.
Proof. by destruct a, b. Qed.

Fixpoint join_flats (l k : list turbowasm_component_flat_type) : list turbowasm_component_flat_type :=
  match l, k with
  | a :: l, b :: k => join a b :: join_flats l k
  | [], k => k
  | l, [] => l
  end.

Definition scalar_carrier (kind : turbowasm_component_type_kind) : turbowasm_component_flat_type :=
  match kind with
  | TYPE_S64 | TYPE_U64 => FLAT_I64
  | TYPE_F32 => FLAT_F32
  | TYPE_F64 => FLAT_F64
  | _ => FLAT_I32
  end.

(** The flat form of a type; the cases of a variant share their carriers. *)
Fixpoint tree_flat (pointer : turbowasm_component_flat_type) (t : tree) : list turbowasm_component_flat_type :=
  match t with
  | TScalar kind => [scalar_carrier kind]
  | TString | TList _ => [pointer; pointer]
  | TAsync _ _ | THandle _ _ | TEnum _ | TFlags _ => [FLAT_I32]
  | TRecord _ ts | TTuple ts => concat (map (tree_flat pointer) ts)
  | TVariant _ cases =>
      FLAT_I32 :: fold_left join_flats (map (fun o => match o with Some t => tree_flat pointer t | None => [] end) cases) []
  | TOption t => FLAT_I32 :: join_flats (join_flats [] []) (tree_flat pointer t)
  | TResult a b =>
      FLAT_I32 :: join_flats (join_flats [] match a with Some t => tree_flat pointer t | None => [] end)
                    match b with Some t => tree_flat pointer t | None => [] end
  end.

Abbreviation cap := (take 17).

Lemma join_flats_nil_r l : join_flats l [] = l.
Proof. by destruct l. Qed.

Lemma join_flats_cap n : forall l k, take n (join_flats l k) = join_flats (take n l) (take n k).
Proof. induction n as [|n IH]; intros [|a l] [|b k]; cbn [take join_flats]; try done. by rewrite IH. Qed.

Lemma join_flats_length l : forall k, length (join_flats l k) = Nat.max (length l) (length k).
Proof. induction l as [|a l IH]; intros [|b k]; cbn [join_flats length]; try lia. rewrite IH. lia. Qed.

Lemma join_part_spec part : forall pre joined, (length pre + length joined <= 17)%nat -> (length pre + length part <= 17)%nat ->
  join_part (length pre) (pre ++ joined) part = pre ++ join_flats joined part.
Proof.
  induction part as [|p part IH]; intros pre joined Hj Hl; cbn [join_part length] in *.
  - by rewrite join_flats_nil_r.
  - destruct joined as [|f joined]; cbn [length] in *.
    + rewrite app_nil_r, lookup_ge_None_2 by lia. unfold MAX_LOWERED_PARAMS. rewrite (proj2 (Z.ltb_lt _ _)) by lia.
      replace (S (length pre)) with (length (pre ++ [p])) by (rewrite length_app; simpl; lia).
      pose proof (IH (pre ++ [p]) []) as H. rewrite app_nil_r in H. rewrite H, <- app_assoc; [done|rewrite length_app; simpl; lia..].
    + rewrite list_lookup_middle, join_flat_type_spec by done. rewrite insert_app_r_alt, Nat.sub_diag by lia. cbn [insert list_insert].
      replace (S (length pre)) with (length (pre ++ [join f p])) by (rewrite length_app; simpl; lia).
      change (pre ++ join f p :: joined) with (pre ++ [join f p] ++ joined). rewrite app_assoc, IH, <- app_assoc; [done|rewrite length_app; simpl; lia..].
Qed.

Lemma append_spec out part : append_flat_capped (cap out) (cap part) = Some (cap (out ++ part)).
Proof.
  unfold append_flat_capped, MAX_LOWERED_PARAMS. pose proof (length_take out 17) as H1. pose proof (length_take part 17) as H2.
  rewrite !Z.gtb_ltb, !(proj2 (Z.ltb_ge _ _)) by lia. cbn [orb]. f_equal. rewrite take_app, length_take. f_equal.
  rewrite take_take. f_equal. change (Z.to_nat 17) with 17%nat. lia.
Qed.

Section Flat.
Context (pointer : turbowasm_component_flat_type).

Abbreviation flat := (tree_flat pointer).

Lemma sequence_flat_spec child refs ts : Forall2 (fun ref t => child ref = inr (cap (flat t))) refs ts ->
  forall out, sequence_flat child refs (cap out) = inr (cap (out ++ concat (map flat ts))).
Proof.
  induction 1 as [|ref t refs ts Hc Hf IH]; intros out; cbn [sequence_flat map concat].
  - by rewrite app_nil_r.
  - rewrite Hc. cbn [mbind res_bind]. rewrite append_spec. cbn [require mbind res_bind]. by rewrite IH, <- app_assoc.
Qed.

Lemma cases_flat_spec child cases cs : Forall2 (fun o c => match o, c with
    | Some ref, Some t => child ref = inr (cap (flat t)) | None, None => True | _, _ => False end) cases cs ->
  forall joined, cases_flat child cases (cap joined) = inr (cap (fold_left join_flats (map (opt flat []) cs) joined)).
Proof.
  induction 1 as [|o c cases cs Hc Hf IH]; intros joined; [done|]. destruct o as [ref|], c as [t|]; try done; cbn [cases_flat map fold_left opt].
  - rewrite Hc. cbn [mbind res_bind]. pose proof (length_take joined 17). pose proof (length_take (flat t) 17).
    rewrite (join_part_spec _ [] (cap joined)) by (simpl; lia). cbn [app]. by rewrite <- join_flats_cap, IH.
  - by rewrite join_flats_nil_r, IH.
Qed.

Lemma variant_flat_spec child cases cs : Forall2 (fun o c => match o, c with
    | Some ref, Some t => child ref = inr (cap (flat t)) | None, None => True | _, _ => False end) cases cs ->
  (joined ← cases_flat child cases []; require (append_flat_capped [FLAT_I32] joined) TURBOWASM_UNSUPPORTED) =
    (inr (cap (FLAT_I32 :: fold_left join_flats (map (opt flat []) cs) [])) : res _).
Proof.
  intros Hf. rewrite (cases_flat_spec _ _ _ Hf [] : cases_flat child cases [] = _). cbn [mbind res_bind].
  by rewrite (append_spec [FLAT_I32] _ : append_flat_capped [FLAT_I32] _ = _).
Qed.

End Flat.

Section FlatGraph.
Context (graph : turbowasm_component_type_graph) (Hv : turbowasm_component_type_graph_validate graph = true).
Context (ptype : Z) (Hp : pointer_type_valid ptype = true).

Abbreviation flat := (tree_flat (pointer_flat_type ptype)).

Lemma flatten_trees fuel : forall ref t, tree_of fuel graph ref = Some t -> canonical_flatten_type_inner graph ptype fuel ref = inr (cap (flat t)).
Proof using Hv Hp.
  induction fuel as [|fuel IH]; intros ref t; [done|]. cbn [tree_of canonical_flatten_type_inner].
  rewrite Hp. cbn [guard_ mbind res_bind]. destruct (turbowasm_component_type_ref_validate graph ref) eqn:Hr; [|done]. cbn [negb]. destruct (hollow _); [done|].
  destruct (resolved graph Hv ref Hr) as [-> (i & Ht)]. cbn [mbind res_bind].
  destruct (resolve graph ref) as [|kind| |e|fut pl|fields|elements|cases|pl|ok error|labels|labels|fn|r|own r|tys ex] eqn:Hnode; try done;
    cbn [type_valid] in Ht.
  - intros [= <-]. by destruct kind.
  - intros [= <-]. done.
  - rewrite tree_some. intros (t' & _ & ->). by rewrite Ht.
  - rewrite tree_some. intros (t' & _ & ->). done.
  - rewrite tree_some. intros (ts & Hts%mapM_Some & ->). apply andb_true_iff in Ht as [Ht _]. apply negb_true_iff, bool_decide_eq_false in Ht.
    unfold guard_. rewrite bool_decide_eq_false_2 by (cbn; by destruct fields). cbn [negb mbind res_bind sequence_refs].
    apply (sequence_flat_spec _ _ _ ts) with (out := []). eapply Forall2_impl; [exact Hts|]. apply IH.
  - rewrite tree_some. intros (ts & Hts%mapM_Some & ->). apply andb_true_iff in Ht as [Ht _]. apply negb_true_iff, bool_decide_eq_false in Ht.
    unfold guard_. rewrite bool_decide_eq_false_2 by done. cbn [negb mbind res_bind sequence_refs].
    apply (sequence_flat_spec _ _ _ ts) with (out := []). eapply Forall2_impl; [exact Hts|]. apply IH.
  - rewrite tree_some. intros (cs & Hcs & ->). apply andb_true_iff in Ht as [Ht _]. apply negb_true_iff, bool_decide_eq_false in Ht.
    apply (parts_spec (fun r t => canonical_flatten_type_inner graph ptype fuel r = inr (cap (flat t)))) in Hcs; [|done].
    unfold guard_, variant_case_count. cbn [variant_cases]. rewrite (proj2 (Z.eqb_neq _ 0)) by (rewrite length_map; destruct cases; [done|simpl; lia]).
    cbn [negb mbind res_bind]. apply (variant_flat_spec _ _ _ cs Hcs).
  - rewrite tree_some. intros (t' & Ht' & ->). apply (variant_flat_spec _ _ _ [None; Some t']). repeat constructor. by apply IH.
  - intros (a & Ha & Hb)%bind_Some. apply bind_Some in Hb as (b & Hb & [= <-]). apply (variant_flat_spec _ _ _ [a; b]).
    apply (parts_spec _ (tree_of fuel graph)); [|apply IH]. cbn. rewrite Ha. cbn. by rewrite Hb.
  - intros [= <-]. apply andb_true_iff in Ht as [Ht _]. unfold guard_. by rewrite Ht.
  - intros [= <-]. apply andb_true_iff in Ht as [Ht H32]. apply andb_true_iff in Ht as [Ht _]. unfold guard_. by rewrite negb_orb, Ht, H32.
  - rewrite tree_some. intros (n & _ & ->). unfold handle_valid in Ht. unfold resource_of.
    by destruct (turbowasm_component_type_graph_get graph r) as [[]|].
Qed.

Lemma flatten_depth ref t : tree_of VALUE_MAX_DEPTH graph ref = Some t -> turbowasm_component_canonical_flatten_type graph ptype ref = inr (cap (flat t)).
Proof using Hv Hp. intros Ht. unfold turbowasm_component_canonical_flatten_type. rewrite one_depth. exact (flatten_trees VALUE_MAX_DEPTH ref t Ht). Qed.

(** *** Parameters *)

Abbreviation trees := (Forall2 (fun ref t => tree_of VALUE_MAX_DEPTH graph ref = Some t)).

(** The carriers that the first pass counts. *)
Definition counted_flats (ts : list tree) : nat := sum_list_with (fun t => length (cap (flat t))) ts.

Lemma count_params_spec refs ts : trees refs ts -> forall n, 0 <= n -> n + 17 * Z.of_nat (length refs) <= UINT32_MAX ->
  count_params graph ptype refs n = inr (n + Z.of_nat (counted_flats ts)).
Proof using Hv Hp.
  induction 1 as [|ref t refs ts Ht Hts IH]; intros n Hn Hle; cbn [count_params counted_flats sum_list_with].
  - by rewrite Z.add_0_r.
  - rewrite (flatten_depth _ _ Ht). cbn [mbind res_bind length] in *. pose proof (length_take (flat t) 17).
    unfold guard_. rewrite Z.gtb_ltb, (proj2 (Z.ltb_ge _ _)) by lia. cbn [negb mbind res_bind].
    rewrite IH by lia. f_equal. unfold counted_flats. lia.
Qed.

(** Cutting each part off does not bring a sum that is too large within the limit. *)
Lemma counted_limit ts m : (m <= 16)%nat ->
  ((counted_flats ts <= m)%nat <-> (length (concat (map flat ts)) <= m)%nat).
Proof.
  revert m. induction ts as [|t ts IH]; intros m Hm; cbn [counted_flats sum_list_with map concat length]; [done|].
  rewrite length_app, length_take. fold (counted_flats ts).
  destruct (decide (length (flat t) <= m)%nat); [|lia]. rewrite Nat.min_r by lia. specialize (IH (m - length (flat t))%nat ltac:(lia)). lia.
Qed.

Lemma collect_params_spec refs ts : trees refs ts -> forall out, (length out + length (concat (map flat ts)) <= 17)%nat ->
  collect_params graph ptype refs out = inr (out ++ concat (map flat ts)).
Proof using Hv Hp.
  induction 1 as [|ref t refs ts Ht Hts IH]; intros out Hl; cbn [collect_params map concat] in *.
  - by rewrite app_nil_r.
  - rewrite length_app in Hl. rewrite (flatten_depth _ _ Ht), take_ge by lia. cbn [mbind res_bind]. unfold append_flat_type, MAX_LOWERED_PARAMS.
    rewrite !Z.gtb_ltb, !(proj2 (Z.ltb_ge _ _)) by lia. cbn [orb mbind res_bind mret res_ret].
    rewrite IH by (rewrite length_app; lia). by rewrite app_assoc.
Qed.

(** The parameters by themselves, or a pointer to them. *)
Definition abi_params (limit : nat) (ts : list tree) : list turbowasm_component_flat_type * bool :=
  let flats := concat (map flat ts) in
  if decide (length flats <= limit)%nat then (flats, false) else ([pointer_flat_type ptype], true).

Lemma flatten_parameters_spec refs ts m : trees refs ts -> 17 * Z.of_nat (length refs) <= UINT32_MAX -> (m <= 16)%nat ->
  flatten_parameters graph ptype refs (Z.of_nat m) = inr (abi_params m ts).
Proof using Hv Hp.
  intros Hts Hle Hm. unfold flatten_parameters, abi_params. rewrite (count_params_spec _ _ Hts) by lia. cbn [mbind res_bind].
  pose proof (counted_limit ts m Hm) as Hc. rewrite Z.gtb_ltb.
  destruct (decide _) as [Hd|Hd], (Z.ltb_spec (Z.of_nat m) (0 + Z.of_nat (counted_flats ts))); try lia; [|done].
  by rewrite (collect_params_spec _ _ Hts []) by (simpl; lia).
Qed.

Lemma abi_params_length m ts : (1 <= m)%nat -> (length (fst (abi_params m ts)) <= m)%nat.
Proof. intros Hm. unfold abi_params. destruct (decide _); simpl; lia. Qed.

End FlatGraph.

(** The core signature of a function, as the canonical ABI has it. *)
Definition abi_signature (ptype : Z) (context : turbowasm_component_canonical_context) (abi : turbowasm_component_canonical_abi)
    (ts : list tree) (r : option tree) : turbowasm_component_flat_signature :=
  let pointer := pointer_flat_type ptype in
  let results := opt (tree_flat pointer) [] r in
  let in_memory := decide (1 < length results)%nat in
  match abi, context with
  | ABI_SYNC, CANONICAL_LIFT =>
      let '(ps, indirect) := abi_params ptype 16 ts in
      if in_memory then mk_signature ps [pointer] indirect true else mk_signature ps results indirect false
  | ABI_SYNC, CANONICAL_LOWER =>
      let '(ps, indirect) := abi_params ptype 16 ts in
      if in_memory then mk_signature (ps ++ [pointer]) [] indirect true else mk_signature ps results indirect false
  | ABI_ASYNC, CANONICAL_LIFT => let '(ps, indirect) := abi_params ptype 16 ts in mk_signature ps [] indirect false
  | ABI_ASYNC_CALLBACK, _ => let '(ps, indirect) := abi_params ptype 16 ts in mk_signature ps [FLAT_I32] indirect false
  | ABI_ASYNC, CANONICAL_LOWER =>
      let '(ps, indirect) := abi_params ptype 4 ts in
      if decide (results = []) then mk_signature ps [FLAT_I32] indirect false
      else mk_signature (ps ++ [pointer]) [FLAT_I32] indirect true
  end.

(** Comparisons of constants. *)
Ltac decided :=
  repeat match goal with
  | |- context [bool_decide (?a = ?b)] => first [rewrite (bool_decide_eq_true_2 (a = b)) by done | rewrite (bool_decide_eq_false_2 (a = b)) by done]
  end.

Lemma cap_nil {A} (l : list A) : cap l = [] <-> l = [].
Proof. by destruct l. Qed.

Lemma cap_short {A} (l : list A) : (length (cap l) <= 1)%nat <-> (length l <= 1)%nat.
Proof. rewrite length_take. lia. Qed.

Lemma result_spec graph ptype r t : turbowasm_component_type_graph_validate graph = true -> pointer_type_valid ptype = true ->
  part (tree_of VALUE_MAX_DEPTH graph) r = Some t ->
  match r with None => mret [] | Some r => turbowasm_component_canonical_flatten_type graph ptype r end =
    (inr (cap (opt (tree_flat (pointer_flat_type ptype)) [] t)) : res _).
Proof.
  intros Hv Hp. destruct r as [r|]; cbn [part]; [|by intros [= <-]].
  rewrite fmap_Some. intros (t' & Ht & ->). exact (flatten_depth graph Hv ptype Hp r t' Ht).
Qed.

Lemma signature_spec graph ptype function_type f context abi ts t :
  turbowasm_component_type_graph_validate graph = true -> pointer_type_valid ptype = true ->
  turbowasm_component_type_graph_get graph function_type = Some (Function_ f) -> 17 * Z.of_nat (length (params f)) <= UINT32_MAX ->
  Forall2 (fun ref t => tree_of VALUE_MAX_DEPTH graph ref = Some t) (params f) ts -> part (tree_of VALUE_MAX_DEPTH graph) (result f) = Some t ->
  ~ (abi = ABI_ASYNC_CALLBACK /\ context = CANONICAL_LOWER) ->
  turbowasm_component_canonical_flatten_function_abi graph ptype function_type context abi = inr (abi_signature ptype context abi ts t).
Proof.
  intros Hv Hp Hf Hle Hts Ht Hno. unfold turbowasm_component_canonical_flatten_function_abi, abi_signature. rewrite Hp, Hf.
  pose proof (flatten_parameters_spec graph Hv ptype Hp _ _ 16 Hts Hle ltac:(lia)) as H16.
  pose proof (flatten_parameters_spec graph Hv ptype Hp _ _ 4 Hts Hle ltac:(lia)) as H4.
  pose proof (abi_params_length ptype 16 ts ltac:(lia)) as L16. change (Z.of_nat 16) with MAX_FLAT_PARAMS in H16. change (Z.of_nat 4) with MAX_FLAT_ASYNC_PARAMS in H4.
  pose proof (result_spec graph ptype _ _ Hv Hp Ht) as Hr. set (results := opt _ _ t) in *.
  pose proof (cap_nil results) as Hn. pose proof (cap_short results) as Hs.
  destruct (abi_params ptype 16 ts) as [ps16 i16], (abi_params ptype 4 ts) as [ps4 i4]. cbn [fst] in L16.
  destruct context, abi; try (by exfalso; apply Hno); decided; cbn [andb negb guard_ mbind res_bind]; rewrite ?H16, ?H4; cbn [mbind res_bind];
    rewrite Hr; cbn [mbind res_bind mret res_ret]; try done.
  - unfold MAX_FLAT_RESULTS. destruct (decide _), (Z.leb_spec (Z.of_nat (length (cap results))) 1); try lia; [done|]. by rewrite take_ge by lia.
  - unfold MAX_FLAT_RESULTS, MAX_LOWERED_PARAMS. rewrite Z.geb_leb. destruct (decide _), (Z.leb_spec (Z.of_nat (length (cap results))) 1); try lia.
    + by rewrite (proj2 (Z.leb_gt _ _)) by lia.
    + by rewrite take_ge by lia.
  - destruct (decide (results = [])) as [E|E]; [by rewrite bool_decide_eq_true_2 by by apply Hn|]. by rewrite bool_decide_eq_false_2 by (by rewrite Hn).
Qed.

Lemma admitted_trees graph refs : turbowasm_component_type_graph_validate graph = true ->
  Forall (fun ref => is_Some (turbowasm_component_transfer_type_features graph ref)) refs ->
  exists ts, Forall2 (fun ref t => tree_of VALUE_MAX_DEPTH graph ref = Some t) refs ts.
Proof.
  intros Hv. induction 1 as [|ref refs [f Hf] Hrefs (ts & IH)]; [by exists []|].
  destruct (admitted_tree _ _ _ Hv Hf) as [t Ht]. exists (t :: ts). by constructor.
Qed.

Lemma signature_bounds ptype context abi ts t :
  let s := abi_signature ptype context abi ts t in (length (flat_params s) <= 17)%nat /\ (length (flat_results s) <= 1)%nat.
Proof.
  cbv zeta. unfold abi_signature. pose proof (abi_params_length ptype 16 ts ltac:(lia)). pose proof (abi_params_length ptype 4 ts ltac:(lia)).
  destruct abi, context, (abi_params ptype 16 ts) as [p16 i16], (abi_params ptype 4 ts) as [p4 i4]; repeat case_decide; cbn [flat_params flat_results fst] in *;
    rewrite ?length_app; simpl; lia.
Qed.

(** C15. For a function of a validated graph whose parameters and result are admitted
    as values, the core signature that the runtime computes is the one of the
    canonical ABI, on both sides of a call and for each calling convention: spilled
    parameters and results go through memory exactly when their flat forms exceed the
    limits. It fits into the 17 parameters and the one result that a call has room
    for. *)
Theorem signatures_follow_abi graph ptype function_type f context abi :
  turbowasm_component_type_graph_validate graph = true -> pointer_type_valid ptype = true ->
  turbowasm_component_type_graph_get graph function_type = Some (Function_ f) -> 17 * Z.of_nat (length (params f)) <= UINT32_MAX ->
  Forall (fun ref => is_Some (turbowasm_component_transfer_type_features graph ref)) (params f ++ option_list (result f)) ->
  ~ (abi = ABI_ASYNC_CALLBACK /\ context = CANONICAL_LOWER) ->
  exists ts t, Forall2 (fun ref t => tree_of VALUE_MAX_DEPTH graph ref = Some t) (params f) ts /\
    part (tree_of VALUE_MAX_DEPTH graph) (result f) = Some t /\
    let s := abi_signature ptype context abi ts t in
    turbowasm_component_canonical_flatten_function_abi graph ptype function_type context abi = inr s /\
    (length (flat_params s) <= 17)%nat /\ (length (flat_results s) <= 1)%nat.
Proof.
  intros Hv Hp Hf Hle [Hps Hr]%Forall_app Hno. destruct (admitted_trees _ _ Hv Hps) as [ts Hts].
  assert (Ht : exists t, part (tree_of VALUE_MAX_DEPTH graph) (result f) = Some t).
  { destruct (result f) as [r|]; [|by exists None]. destruct (admitted_trees _ _ Hv Hr) as [l Hl]. inversion Hl as [|? t ? ? Ht _]; subst.
    exists (Some t). cbn [part]. by rewrite Ht. }
  destruct Ht as [t Ht]. exists ts, t. split; [exact Hts|]. split; [exact Ht|]. cbv zeta. split; [|apply signature_bounds].
  by apply (signature_spec graph ptype function_type f).
Qed.

(** ** An example *)

(** A record, a variant and a function that takes both. *)
Definition example_graph : turbowasm_component_type_graph :=
  [ Record_ [mk_field [97] (REF_INLINE TYPE_U8); mk_field [98] (REF_INLINE TYPE_U64)];
    Variant [mk_case [110] None; mk_case [102] (Some (REF_INLINE TYPE_F32)); mk_case [116] (Some (REF_INLINE TYPE_STRING))];
    Function_ (mk_function [REF_INDEXED 0; REF_INDEXED 1] false (Some (REF_INDEXED 1))) ].

Lemma example_validates : turbowasm_component_type_graph_validate example_graph = true.
Proof. vm_compute. reflexivity. Qed.

Lemma layout_refines_abi_witness :
  turbowasm_component_transfer_type_features example_graph (REF_INDEXED 1) = Some 1 /\
  turbowasm_component_canonical_layout example_graph POINTER_I32 (REF_INDEXED 1) = inr (mk_layout 4 12) /\
  exists t, tree_of VALUE_MAX_DEPTH example_graph (REF_INDEXED 1) = Some t /\ tree_size 4 t = 12.
Proof.
  pose proof (layout_refines_abi example_graph (REF_INDEXED 1) POINTER_I32 1) as H.
  destruct H as (t & Ht & H & _); [exact example_validates|reflexivity|vm_compute; reflexivity|].
  assert (E : turbowasm_component_canonical_layout example_graph POINTER_I32 (REF_INDEXED 1) = inr (mk_layout 4 12)) by (vm_compute; reflexivity).
  split; [vm_compute; reflexivity|]. split; [exact E|]. exists t. split; [exact Ht|].
  rewrite E in H. change (pointer_size POINTER_I32) with 4 in H. cbv zeta in H. destruct (_ <=? _); congruence.
Defined.

Lemma signatures_follow_abi_witness : exists ts t,
  Forall2 (fun ref t => tree_of VALUE_MAX_DEPTH example_graph ref = Some t) [REF_INDEXED 0; REF_INDEXED 1] ts /\
  turbowasm_component_canonical_flatten_function_abi example_graph POINTER_I32 2 CANONICAL_LOWER ABI_SYNC =
    inr (abi_signature POINTER_I32 CANONICAL_LOWER ABI_SYNC ts t) /\
  abi_signature POINTER_I32 CANONICAL_LOWER ABI_SYNC ts t =
    mk_signature [FLAT_I32; FLAT_I64; FLAT_I32; FLAT_I32; FLAT_I32; FLAT_I32] [] false true.
Proof.
  destruct (signatures_follow_abi example_graph POINTER_I32 2 (mk_function [REF_INDEXED 0; REF_INDEXED 1] false (Some (REF_INDEXED 1)))
    CANONICAL_LOWER ABI_SYNC) as (ts & t & Hts & _ & H & _);
    [exact example_validates|reflexivity|reflexivity|by vm_compute| |by intros [? _]|].
  - repeat apply Forall_cons_2; try apply Forall_nil_2; vm_compute; eexists; reflexivity.
  - exists ts, t. split; [exact Hts|]. split; [exact H|].
    assert (E : turbowasm_component_canonical_flatten_function_abi example_graph POINTER_I32 2 CANONICAL_LOWER ABI_SYNC =
      inr (mk_signature [FLAT_I32; FLAT_I64; FLAT_I32; FLAT_I32; FLAT_I32; FLAT_I32] [] false true)) by (vm_compute; reflexivity).
    rewrite E in H. congruence.
Defined.

End CanonicalSpec.
