(* ===== verification/CanonicalValue.v ===== *)
(** * Component values in a guest's memory (src/component_canonical.c)

    Lifting reads a value of a component type out of a guest's memory, lowering
    writes one into it; strings and lists lie in blocks that the guest's own
    [realloc] hands out.

    Handles belong to the host: what it knows of them ([H]), what an owner is ([O])
    and how a lifted handle is given back ([R]) are parameters, as are the hooks that
    turn a handle into a value and back. *)

From S2P Require Import Prelude Value ExecStack Memory Strings TypeGraph Canonical.

Module CanonicalValue.
Import Value ExecStack Memory Strings TypeGraph Canonical.

(** ** Values *)

(** A value, by the member of the union that its kind selects. Booleans are 0 and 1,
    floats are bit patterns. *)
Inductive turbowasm_component_value (O R : Type) : Type :=
  | V_scalar (kind : turbowasm_component_type_kind) (x : Z)
  | V_string (s : turbowasm_component_owned_string)
  | V_list (items : list (turbowasm_component_value O R))
  | V_record (items : list (turbowasm_component_value O R))
  | V_tuple (items : list (turbowasm_component_value O R))
  | V_variant (case_index : Z) (payload : option (turbowasm_component_value O R))
  | V_option (case_index : Z) (payload : option (turbowasm_component_value O R))
  | V_result (case_index : Z) (payload : option (turbowasm_component_value O R))
  | V_enum (enum_index : Z)
  | V_flags (flags : Z)
  | V_resource (own : bool) (resource_rep : turbowasm_value) (release : option R) (resource_identity : Z)
      (resource_instance_key : option Z)
  | V_endpoint (future : bool) (owner : option O) (graph : turbowasm_component_type_graph) (type : turbowasm_component_type_ref)
      (release : option R).

Arguments V_scalar {O R}.
Arguments V_string {O R}.
Arguments V_list {O R}.
Arguments V_record {O R}.
Arguments V_tuple {O R}.
Arguments V_variant {O R}.
Arguments V_option {O R}.
Arguments V_result {O R}.
Arguments V_enum {O R}.
Arguments V_flags {O R}.
Arguments V_resource {O R}.
Arguments V_endpoint {O R}.

Definition kind_of_value {O R} (v : turbowasm_component_value O R) : turbowasm_component_type_kind :=
  match v with
  | V_scalar kind _ => kind
  | V_string _ => TYPE_STRING
  | V_list _ => TYPE_LIST
  | V_record _ => TYPE_RECORD
  | V_tuple _ => TYPE_TUPLE
  | V_variant _ _ => TYPE_VARIANT
  | V_option _ _ => TYPE_OPTION
  | V_result _ _ => TYPE_RESULT
  | V_enum _ => TYPE_ENUM
  | V_flags _ => TYPE_FLAGS
  | V_resource own _ _ _ _ => if own then TYPE_OWN else TYPE_BORROW
  | V_endpoint future _ _ _ _ => if future then TYPE_FUTURE else TYPE_STREAM
  end.

(** ** The guest and the host *)

Record world (H : Type) := mk_world { w_store : store; w_host : H }.
Arguments mk_world {H}.
Arguments w_store {H}.
Arguments w_host {H}.

(** A status other than OK or a result, and what it leaves behind. *)
Definition cx (H A : Type) : Type := world H -> (turbowasm_status + A) * world H.

#[global] Instance cx_ret H : MRet (cx H) := fun A a w => (inr a, w).
#[global] Instance cx_bind H : MBind (cx H) := fun A B k m w =>
  match m w with
  | (inl status, w) => (inl status, w)
  | (inr a, w) => k a w
  end.

Definition stop {H A} (status : turbowasm_status) : cx H A := fun w => (inl status, w).
Definition pure {H A} (r : res A) : cx H A := fun w => (r, w).
Definition need {H} (b : bool) (status : turbowasm_status) : cx H unit := if b then mret tt else stop status.

(** [status], with the cleaning up of [H] that it causes. *)
Definition or_else {H A} (m : cx H A) (clean : H -> H) : cx H A := fun w =>
  match m w with
  | (inl status, w) => (inl status, mk_world (w_store w) (clean (w_host w)))
  | r => r
  end.

(** ** Bytes *)

Definition read_le (bytes : list Z) : Z :=
  foldl (fun value index => value .| u64 (byte bytes index ≪ (8 * Z.of_nat index))) 0 (seq 0 (length bytes)).

Definition write_le (width : Z) (value : Z) : list Z :=
  map (fun i => u8 (value ≫ (8 * Z.of_nat i))) (seq 0 (Z.to_nat width)).

Definition unicode_scalar_valid (value : Z) : bool :=
  (value <=? 0x10ffff) && negb ((value >=? 0xd800) && (value <=? 0xdfff)).

Definition MAX_LIST_BYTE_LENGTH : Z := (1 ≪ 28) - 1.

Definition scalar_width (kind : turbowasm_component_type_kind) : res Z :=
  match kind with
  | TYPE_BOOL | TYPE_S8 | TYPE_U8 => mret 1
  | TYPE_S16 | TYPE_U16 => mret 2
  | TYPE_S32 | TYPE_U32 | TYPE_F32 | TYPE_CHAR => mret 4
  | TYPE_S64 | TYPE_U64 | TYPE_F64 => mret 8
  | _ => inl TURBOWASM_UNSUPPORTED
  end.

(** The member of the union that the bits of a scalar stand for. *)
Definition scalar_of_bits (kind : turbowasm_component_type_kind) (bits : Z) : res Z :=
  match kind with
  | TYPE_BOOL => if bits >? 1 then inl TURBOWASM_TRAPPED else mret (if bits =? 0 then 0 else 1)
  | TYPE_S8 => mret (to_signed 8 (u8 bits))
  | TYPE_U8 => mret (u8 bits)
  | TYPE_S16 => mret (to_signed 16 (u16 bits))
  | TYPE_U16 => mret (u16 bits)
  | TYPE_S32 => mret (to_signed 32 (u32 bits))
  | TYPE_U32 | TYPE_F32 => mret (u32 bits)
  | TYPE_S64 => mret (to_signed 64 bits)
  | TYPE_U64 | TYPE_F64 => mret bits
  | TYPE_CHAR => if unicode_scalar_valid (u32 bits) then mret (u32 bits) else inl TURBOWASM_TRAPPED
  | _ => inl TURBOWASM_UNSUPPORTED
  end.

(** The bits of a scalar. *)
Definition bits_of_scalar (kind : turbowasm_component_type_kind) (x : Z) : res Z :=
  match kind with
  | TYPE_BOOL => mret (if x =? 0 then 0 else 1)
  | TYPE_S8 => mret (u8 x)
  | TYPE_S16 => mret (u16 x)
  | TYPE_S32 => mret (u32 x)
  | TYPE_S64 => mret (u64 x)
  | TYPE_U8 | TYPE_U16 | TYPE_U32 | TYPE_U64 | TYPE_F32 | TYPE_F64 => mret x
  | TYPE_CHAR => if unicode_scalar_valid x then mret x else inl TURBOWASM_INVALID_ARGUMENT
  | _ => inl TURBOWASM_UNSUPPORTED
  end.

(** ** Reading and writing *)

Section Canonical.
Context {H O R : Type} (run_release : R -> H -> turbowasm_status * H).
Context (graph : turbowasm_component_type_graph) (cm : turbowasm_component_canonical_memory).
Context (malloc_ok : Z -> bool) (sizeof_value : Z).

Abbreviation value := (turbowasm_component_value O R).
Abbreviation cx := (cx H).
Abbreviation ptype := (pointer_type cm).
Abbreviation impl := (default 0%nat (cm_instance cm)).
Abbreviation layout_of := (turbowasm_component_canonical_layout graph ptype).

(** The hooks of [turbowasm_component_canonical_memory]. *)
Definition lift_fn : Type := H -> turbowasm_component_type_graph -> turbowasm_component_type_ref -> Z -> (turbowasm_status + value) * H.
Definition lower_fn : Type := H -> turbowasm_component_type_graph -> turbowasm_component_type_ref -> value -> (turbowasm_status + Z) * H.

Record handle_hooks := mk_hooks {
  resource_lift : option lift_fn;
  resource_lower : option lower_fn;
  endpoint_lift : option lift_fn;
  endpoint_lower : option lower_fn
}.

Context (hooks : handle_hooks).

Definition on_host {A} (f : H -> (turbowasm_status + A) * H) : cx A := fun w =>
  let '(r, h) := f (w_host w) in (r, mk_world (w_store w) h).

Definition lift_handle (endpoint : bool) (ref : turbowasm_component_type_ref) (handle : Z) : cx value :=
  match if endpoint then endpoint_lift hooks else resource_lift hooks with
  | Some lift => on_host (fun h => lift h graph ref handle)
  | None => stop TURBOWASM_UNSUPPORTED
  end.

Definition lower_handle (endpoint : bool) (ref : turbowasm_component_type_ref) (v : value) : cx Z :=
  match if endpoint then endpoint_lower hooks else resource_lower hooks with
  | Some lower => on_host (fun h => lower h graph ref v)
  | None => stop TURBOWASM_UNSUPPORTED
  end.

(** The memory's declaration; [None] if the module has no such memory. *)
Definition module_memory64 (w : store) : option bool :=
  i ← w !! impl;
  if cm_memory cm >=? Z.of_nat (length (validation_memories i)) then None
  else v_memory64 <$> validation_memories i !! Z.to_nat (cm_memory cm).

Definition canonical_memory_validate : cx unit := fun w =>
  if negb (memory_valid cm) then (inl TURBOWASM_INVALID_ARGUMENT, w)
  else match module_memory64 (w_store w) with
       | None => (inl TURBOWASM_INVALID_ARGUMENT, w)
       | Some m64 =>
           if negb (Bool.eqb (ptype =? POINTER_I64) m64) then (inl TURBOWASM_TYPE_MISMATCH, w) else (inr tt, w)
       end.

Definition in_bounds (address size : Z) : cx unit := fun w =>
  match fst (turbowasm_instance_memory_bounds (w_store w) impl (cm_memory cm) address 0 size) with
  | TURBOWASM_OK => (inr tt, w)
  | status => (inl status, w)
  end.

Definition read_memory (address width : Z) : cx (list Z) := fun w =>
  match turbowasm_instance_memory_read_bytes (w_store w) impl (cm_memory cm) address 0 width with
  | (TURBOWASM_OK, bytes) => (inr bytes, w)
  | (status, _) => (inl status, w)
  end.

Definition write_memory (address : Z) (bytes : list Z) : cx unit := fun w =>
  match turbowasm_instance_memory_write_bytes (w_store w) impl (cm_memory cm) address 0 bytes with
  | (TURBOWASM_OK, s) => (inr tt, mk_world s (w_host w))
  | (status, s) => (inl status, mk_world s (w_host w))
  end.

Definition read_pointer (address : Z) : cx Z :=
  bytes ← read_memory address (pointer_size ptype);
  mret (read_le bytes).

Definition write_pointer (address v : Z) : cx unit :=
  _ ← need (negb ((pointer_size ptype =? 4) && (v >? UINT32_MAX))) TURBOWASM_TRAPPED;
  write_memory address (write_le (pointer_size ptype) v).

Definition turbowasm_component_canonical_validate_range (type : turbowasm_component_type_ref) (address count : Z) : cx Z :=
  _ ← need (negb (count =? 0)) TURBOWASM_INVALID_ARGUMENT;
  _ ← canonical_memory_validate;
  l ← pure (layout_of type);
  _ ← need (negb ((alignment l =? 0) || negb (address mod alignment l =? 0) || (size l >? UINT64_MAX / count) ||
                  ((ptype =? POINTER_I32) && (address >? UINT32_MAX)))) TURBOWASM_TRAPPED;
  let total := u64 (size l * count) in
  _ ← need (negb ((total >? SIZE_MAX) || (address >? UINT64_MAX - total))) TURBOWASM_TRAPPED;
  _ ← in_bounds address total;
  mret (size l).

(** ** Releasing values *)

(** Every part is released; the first status that is not OK is reported. *)
Definition first_status (a b : turbowasm_status) : turbowasm_status := if bool_decide (a = TURBOWASM_OK) then b else a.

Definition release_all (destroy : value -> H -> turbowasm_status * H) (items : list value) (h : H) : turbowasm_status * H :=
  foldl (fun '(first, h) v => let '(status, h) := destroy v h in (first_status first status, h)) (TURBOWASM_OK, h) items.

Definition release_hook (release : option R) (h : H) : turbowasm_status * H :=
  match release with Some r => run_release r h | None => (TURBOWASM_OK, h) end.

Fixpoint turbowasm_component_value_destroy (v : value) (h : H) : turbowasm_status * H :=
  match v with
  | V_list items | V_record items | V_tuple items => release_all turbowasm_component_value_destroy items h
  | V_variant _ payload | V_option _ payload | V_result _ payload =>
      match payload with Some p => turbowasm_component_value_destroy p h | None => (TURBOWASM_OK, h) end
  | V_resource _ _ release _ _ | V_endpoint _ _ _ _ release => release_hook release h
  | _ => (TURBOWASM_OK, h)
  end.

(** What is left of the host after values are released, the results ignored. *)
Definition discard (items : list value) (h : H) : H := foldl (fun h v => snd (turbowasm_component_value_destroy v h)) h items.

(** ** Scalars, enumerations and flags *)

Definition lift_scalar (kind : turbowasm_component_type_kind) (address : Z) : cx value :=
  width ← pure (scalar_width kind);
  bytes ← read_memory address width;
  x ← pure (scalar_of_bits kind (read_le bytes));
  mret (V_scalar kind x).

Definition lower_scalar (kind : turbowasm_component_type_kind) (address : Z) (v : value) : cx unit :=
  match v with
  | V_scalar kind' x =>
      _ ← need (bool_decide (kind' = kind)) TURBOWASM_TYPE_MISMATCH;
      width ← pure (scalar_width kind);
      bits ← pure (bits_of_scalar kind x);
      write_memory address (write_le width bits)
  | _ => stop TURBOWASM_TYPE_MISMATCH
  end.

Definition lift_label_value (t : turbowasm_component_type) (address : Z) : cx value :=
  match t with
  | Enum labels =>
      let count := Z.of_nat (length labels) in
      let width := enum_storage_width count in
      _ ← need (negb (width =? 0)) TURBOWASM_MALFORMED_MODULE;
      bytes ← read_memory address width;
      let bits := u32 (read_le bytes) in
      _ ← need (negb (bits >=? count)) TURBOWASM_TRAPPED;
      mret (V_enum bits)
  | Flags labels =>
      let count := Z.of_nat (length labels) in
      let width := flags_storage_width count in
      _ ← need (negb (width =? 0)) TURBOWASM_MALFORMED_MODULE;
      bytes ← read_memory address width;
      let bits := u32 (read_le bytes) in
      _ ← need (bits .& Z.lnot (flags_valid_mask count) =? 0) TURBOWASM_TRAPPED;
      mret (V_flags bits)
  | _ => stop TURBOWASM_INVALID_ARGUMENT
  end.

Definition lower_label_value (t : turbowasm_component_type) (address : Z) (v : value) : cx unit :=
  match t, v with
  | Enum labels, V_enum bits =>
      let count := Z.of_nat (length labels) in
      let width := enum_storage_width count in
      _ ← need (negb ((width =? 0) || (bits >=? count))) TURBOWASM_TYPE_MISMATCH;
      write_memory address (write_le width bits)
  | Flags labels, V_flags bits =>
      let count := Z.of_nat (length labels) in
      let width := flags_storage_width count in
      _ ← need (negb ((width =? 0) || negb (bits .& Z.lnot (flags_valid_mask count) =? 0))) TURBOWASM_TYPE_MISMATCH;
      write_memory address (write_le width bits)
  | _, _ => stop TURBOWASM_TYPE_MISMATCH
  end.

(** ** Strings and lists *)

Definition guest_allocate (alignment size : Z) : cx Z := fun w =>
  if size =? 0 then (inr 0, w)
  else match guest_realloc cm with
       | None => (inl TURBOWASM_UNSUPPORTED, w)
       | Some realloc =>
           let '(status, pointer, s) := realloc (w_store w) 0 0 alignment size in
           (if bool_decide (status = TURBOWASM_OK) then inr pointer else inl status, mk_world s (w_host w))
       end.

Definition lift_string_range (pointer length : Z) : cx value := fun w =>
  match turbowasm_component_string_lift cm malloc_ok (w_store w) pointer length with
  | (TURBOWASM_OK, Some s) => (inr (V_string s), w)
  | (status, _) => (inl status, w)
  end.

(** Two pointers behind each other: where something is and how much there is. *)
Definition read_pair (address : Z) : cx (Z * Z) :=
  pointer ← read_pointer address;
  _ ← need (negb (address >? UINT64_MAX - pointer_size ptype)) TURBOWASM_TRAPPED;
  length ← read_pointer (address + pointer_size ptype);
  mret (pointer, length).

Definition write_pair (address : Z) (pair : Z * Z) : cx unit :=
  _ ← write_pointer address (fst pair);
  _ ← need (negb (address >? UINT64_MAX - pointer_size ptype)) TURBOWASM_TRAPPED;
  write_pointer (address + pointer_size ptype) (snd pair).

Definition lift_string (address : Z) : cx value :=
  '(pointer, length) ← read_pair address;
  lift_string_range pointer length.

Definition lower_string_range (v : value) : cx (Z * Z) := fun w =>
  match v with
  | V_string s =>
      match turbowasm_component_string_lower cm s (w_store w) with
      | (TURBOWASM_OK, Some lowered, s) => (inr lowered, mk_world s (w_host w))
      | (status, _, s) => (inl status, mk_world s (w_host w))
      end
  | _ => (inl TURBOWASM_TYPE_MISMATCH, w)
  end.

Definition lower_string (address : Z) (v : value) : cx unit :=
  lowered ← lower_string_range v;
  write_pair address lowered.

(** The codec of the parts, one level further down. *)
Section Parts.
Context (lift_inner : turbowasm_component_type_ref -> Z -> cx value).
Context (lower_inner : turbowasm_component_type_ref -> Z -> value -> cx unit).

(** [n] more elements from number [i] on. *)
Fixpoint lift_items (element_type : turbowasm_component_type_ref) (pointer size : Z) (n : nat) (i : Z) (items : list value)
    : cx (list value) :=
  match n with
  | 0%nat => mret items
  | S n =>
      v ← or_else (lift_inner element_type (u64 (pointer + u64 (i * size)))) (discard items);
      lift_items element_type pointer size n (i + 1) (items ++ [v])
  end.

Definition lift_list_range (element_type : turbowasm_component_type_ref) (pointer count : Z) : cx value :=
  l ← pure (layout_of element_type);
  _ ← need (negb (size l =? 0)) TURBOWASM_MALFORMED_MODULE;
  _ ← need (negb (negb (count =? 0) && (size l >? UINT64_MAX / count))) TURBOWASM_TRAPPED;
  let bytes := u64 (count * size l) in
  _ ← need (negb ((bytes >? MAX_LIST_BYTE_LENGTH) || (count >? SIZE_MAX / sizeof_value))) TURBOWASM_TRAPPED;
  _ ← need (negb (negb (alignment l =? 0) && negb (pointer mod alignment l =? 0))) TURBOWASM_TRAPPED;
  _ ← need (negb (bytes >? SIZE_MAX)) TURBOWASM_TRAPPED;
  _ ← in_bounds pointer bytes;
  _ ← need ((count =? 0) || malloc_ok (count * sizeof_value)) TURBOWASM_OUT_OF_MEMORY;
  items ← lift_items element_type pointer (size l) (Z.to_nat count) 0 [];
  mret (V_list items).

Definition lift_list (element_type : turbowasm_component_type_ref) (address : Z) : cx value :=
  '(pointer, count) ← read_pair address;
  lift_list_range element_type pointer count.

Fixpoint lower_items (element_type : turbowasm_component_type_ref) (pointer size : Z) (i : Z) (items : list value) : cx unit :=
  match items with
  | [] => mret tt
  | v :: items =>
      _ ← lower_inner element_type (u64 (pointer + u64 (i * size))) v;
      lower_items element_type pointer size (i + 1) items
  end.

Definition lower_list_range (element_type : turbowasm_component_type_ref) (v : value) : cx (Z * Z) :=
  match v with
  | V_list items =>
      l ← pure (layout_of element_type);
      let count := Z.of_nat (length items) in
      _ ← need (negb (negb (count =? 0) && (size l >? UINT64_MAX / count))) TURBOWASM_INVALID_ARGUMENT;
      let bytes := u64 (count * size l) in
      _ ← need (negb (bytes >? MAX_LIST_BYTE_LENGTH)) TURBOWASM_INVALID_ARGUMENT;
      pointer ← guest_allocate (alignment l) bytes;
      _ ← need (negb (negb (alignment l =? 0) && negb (pointer mod alignment l =? 0))) TURBOWASM_TRAPPED;
      _ ← lower_items element_type pointer (size l) 0 items;
      mret (pointer, count)
  | _ => stop TURBOWASM_TYPE_MISMATCH
  end.

Definition lower_list (element_type : turbowasm_component_type_ref) (address : Z) (v : value) : cx unit :=
  lowered ← lower_list_range element_type v;
  write_pair address lowered.

(** ** Records and tuples *)

(** Where the next element lies, and where it ends. *)
Definition place (cursor : Z) (child : turbowasm_component_type_ref) : cx (Z * Z) :=
  l ← pure (layout_of child);
  match align_up_u64 cursor (alignment l) with
  | None => stop TURBOWASM_TRAPPED
  | Some aligned =>
      _ ← need (negb (aligned >? UINT64_MAX - size l)) TURBOWASM_TRAPPED;
      mret (aligned, aligned + size l)
  end.

Fixpoint lift_sequence (refs : list turbowasm_component_type_ref) (cursor : Z) (items : list value) : cx (list value) :=
  match refs with
  | [] => mret items
  | child :: refs =>
      '(v, cursor) ← or_else ('(aligned, cursor) ← place cursor child; v ← lift_inner child aligned; mret (v, cursor))
                       (discard (rev items));
      lift_sequence refs cursor (items ++ [v])
  end.

Definition make_sequence (t : turbowasm_component_type) (items : list value) : value :=
  match t with Record_ _ => V_record items | _ => V_tuple items end.

Definition lift_sequence_value (t : turbowasm_component_type) (address : Z) : cx value :=
  let count := Z.of_nat (length (sequence_refs t)) in
  _ ← need (negb (count =? 0)) TURBOWASM_MALFORMED_MODULE;
  _ ← need (negb (count >? SIZE_MAX / sizeof_value)) TURBOWASM_OUT_OF_MEMORY;
  _ ← need (malloc_ok (count * sizeof_value)) TURBOWASM_OUT_OF_MEMORY;
  items ← lift_sequence (sequence_refs t) address [];
  mret (make_sequence t items).

Fixpoint lower_sequence (refs : list turbowasm_component_type_ref) (items : list value) (cursor : Z) : cx unit :=
  match refs, items with
  | child :: refs, v :: items =>
      '(aligned, cursor) ← place cursor child;
      _ ← lower_inner child aligned v;
      lower_sequence refs items cursor
  | _, _ => mret tt
  end.

Definition as_sequence (t : turbowasm_component_type) (v : value) : option (list value) :=
  match t, v with
  | Record_ _, V_record items | Tuple _, V_tuple items => Some items
  | _, _ => None
  end.

Definition lower_sequence_value (t : turbowasm_component_type) (address : Z) (v : value) : cx unit :=
  match as_sequence t v with
  | None => stop TURBOWASM_TYPE_MISMATCH
  | Some items =>
      _ ← need (negb (bool_decide (sequence_refs t = []))) TURBOWASM_MALFORMED_MODULE;
      _ ← need (bool_decide (length items = length (sequence_refs t))) TURBOWASM_TYPE_MISMATCH;
      lower_sequence (sequence_refs t) items address
  end.

(** ** Variants, options and results *)

Fixpoint cases_alignment (cases : list (option turbowasm_component_type_ref)) (alignment_ : Z) : res Z :=
  match cases with
  | [] => mret alignment_
  | None :: cases => cases_alignment cases alignment_
  | Some payload :: cases => l ← layout_of payload; cases_alignment cases (Z.max alignment_ (alignment l))
  end.

Definition variant_payload_alignment (t : turbowasm_component_type) : res Z :=
  _ ← guard_ (negb (variant_case_count t =? 0)) TURBOWASM_INVALID_ARGUMENT;
  cases_alignment (variant_cases t) 1.

Definition make_variant (t : turbowasm_component_type) (case_index : Z) (payload : option value) : value :=
  match t with
  | Variant _ => V_variant case_index payload
  | Option_ _ => V_option case_index payload
  | _ => V_result case_index payload
  end.

Definition as_variant (t : turbowasm_component_type) (v : value) : option (Z * option value) :=
  match t, v with
  | Variant _, V_variant case_index payload | Option_ _, V_option case_index payload | Result _ _, V_result case_index payload =>
      Some (case_index, payload)
  | _, _ => None
  end.

(** Where the payload of a variant lies. *)
Definition payload_place (t : turbowasm_component_type) (address discriminant_width : Z) : cx Z :=
  payload_alignment ← pure (variant_payload_alignment t);
  _ ← need (negb (address >? UINT64_MAX - discriminant_width)) TURBOWASM_TRAPPED;
  pure (require (align_up_u64 (address + discriminant_width) payload_alignment) TURBOWASM_TRAPPED).

Definition lift_variant_value (t : turbowasm_component_type) (address : Z) : cx value :=
  let count := variant_case_count t in
  let discriminant_width := enum_storage_width count in
  _ ← need (negb ((count =? 0) || (discriminant_width =? 0))) TURBOWASM_MALFORMED_MODULE;
  bytes ← read_memory address discriminant_width;
  let discriminant := u32 (read_le bytes) in
  _ ← need (negb (discriminant >=? count)) TURBOWASM_TRAPPED;
  payload_type ← pure (variant_case_ref t discriminant);
  payload_address ← payload_place t address discriminant_width;
  payload ← match payload_type with
            | None => mret None
            | Some p =>
                _ ← need (malloc_ok sizeof_value) TURBOWASM_OUT_OF_MEMORY;
                v ← lift_inner p payload_address;
                mret (Some v)
            end;
  mret (make_variant t discriminant payload).

Definition lower_variant_value (t : turbowasm_component_type) (address : Z) (v : value) : cx unit :=
  match as_variant t v with
  | None => stop TURBOWASM_TYPE_MISMATCH
  | Some (case_index, payload) =>
      let count := variant_case_count t in
      let discriminant_width := enum_storage_width count in
      _ ← need (negb ((count =? 0) || (discriminant_width =? 0) || (case_index >=? count))) TURBOWASM_TYPE_MISMATCH;
      payload_type ← pure (variant_case_ref t case_index);
      match payload_type, payload with
      | None, None => write_memory address (write_le discriminant_width case_index)
      | Some p, Some v =>
          _ ← write_memory address (write_le discriminant_width case_index);
          payload_address ← payload_place t address discriminant_width;
          lower_inner p payload_address v
      | _, _ => stop TURBOWASM_TYPE_MISMATCH
      end
  end.

End Parts.

(** ** Values *)

(** The bound is the depth that is left. *)
Fixpoint lift_value_inner (fuel : nat) (ref : turbowasm_component_type_ref) (address : Z) : cx value :=
  match fuel with
  | 0%nat => stop TURBOWASM_TRAPPED
  | S fuel =>
      t ← pure (resolved_kind graph ref);
      match t with
      | Scalar kind => lift_scalar kind address
      | String_ => lift_string address
      | List_ element_type => lift_list (lift_value_inner fuel) element_type address
      | Record_ _ | Tuple _ => lift_sequence_value (lift_value_inner fuel) t address
      | Variant _ | Option_ _ | Result _ _ => lift_variant_value (lift_value_inner fuel) t address
      | Enum _ | Flags _ => lift_label_value t address
      | Handle _ _ | Async _ _ =>
          bytes ← read_memory address 4;
          lift_handle (match t with Async _ _ => true | _ => false end) ref (u32 (read_le bytes))
      | _ => stop TURBOWASM_UNSUPPORTED
      end
  end.

Fixpoint lower_value_inner (fuel : nat) (ref : turbowasm_component_type_ref) (address : Z) (v : value) : cx unit :=
  match fuel with
  | 0%nat => stop TURBOWASM_TRAPPED
  | S fuel =>
      t ← pure (resolved_kind graph ref);
      match t with
      | Scalar kind => lower_scalar kind address v
      | String_ => lower_string address v
      | List_ element_type => lower_list (lower_value_inner fuel) element_type address v
      | Record_ _ | Tuple _ => lower_sequence_value (lower_value_inner fuel) t address v
      | Variant _ | Option_ _ | Result _ _ => lower_variant_value (lower_value_inner fuel) t address v
      | Enum _ | Flags _ => lower_label_value t address v
      | Handle _ _ | Async _ _ =>
          handle ← lower_handle (match t with Async _ _ => true | _ => false end) ref v;
          write_memory address (write_le 4 handle)
      | _ => stop TURBOWASM_UNSUPPORTED
      end
  end.

(** The whole value lies aligned and within the memory. *)
Definition value_place (ref : turbowasm_component_type_ref) (address : Z) : cx unit :=
  _ ← canonical_memory_validate;
  l ← pure (layout_of ref);
  _ ← need (negb ((alignment l =? 0) || negb (address mod alignment l =? 0) || (size l >? SIZE_MAX))) TURBOWASM_TRAPPED;
  in_bounds address (size l).

Definition turbowasm_component_canonical_lift_value (ref : turbowasm_component_type_ref) (address : Z) : cx value :=
  _ ← value_place ref address;
  lift_value_inner CANONICAL_MAX_DEPTH ref address.

Definition turbowasm_component_canonical_lower_value (ref : turbowasm_component_type_ref) (address : Z) (v : value) : cx unit :=
  _ ← value_place ref address;
  lower_value_inner CANONICAL_MAX_DEPTH ref address v.

(** ** Parameters *)

(** The tuple of the parameters lies aligned and within the memory. *)
Definition parameters_place (function_type address : Z) : cx (list turbowasm_component_type_ref) :=
  _ ← canonical_memory_validate;
  l ← pure (turbowasm_component_canonical_parameter_layout graph ptype function_type);
  _ ← need (negb ((alignment l =? 0) || negb (address mod alignment l =? 0) || (size l >? SIZE_MAX) ||
                  ((ptype =? POINTER_I32) && (address >? UINT32_MAX)))) TURBOWASM_TRAPPED;
  _ ← in_bounds address (size l);
  match turbowasm_component_type_graph_get graph function_type with
  | Some (Function_ f) => mret (params f)
  | _ => stop TURBOWASM_MALFORMED_MODULE
  end.

(** The offset of the next parameter, and where it ends. *)
Definition parameter_place (offset : Z) (ref : turbowasm_component_type_ref) : cx (Z * Z) :=
  l ← pure (layout_of ref);
  offset ← pure (require (align_up_u64 offset (alignment l)) TURBOWASM_OUT_OF_MEMORY);
  mret (offset, u64 (offset + size l)).

(** The values lifted so far stay with the caller when a later one fails. *)
Fixpoint lift_each (refs : list turbowasm_component_type_ref) (address offset : Z) (out : list value) (w : world H)
    : turbowasm_status * list value * world H :=
  match refs with
  | [] => (TURBOWASM_OK, out, w)
  | ref :: refs =>
      match ('(at_, next) ← parameter_place offset ref;
             v ← turbowasm_component_canonical_lift_value ref (u64 (address + at_));
             mret (v, next)) w with
      | (inl status, w) => (status, out, w)
      | (inr (v, next), w) => lift_each refs address next (out ++ [v]) w
      end
  end.

Definition turbowasm_component_canonical_lift_parameters (function_type address : Z) (w : world H)
    : turbowasm_status * list value * world H :=
  match parameters_place function_type address w with
  | (inl status, w) => (status, [], w)
  | (inr refs, w) => lift_each refs address 0 [] w
  end.

(** The caller passes one value for each parameter. *)
Fixpoint lower_each (refs : list turbowasm_component_type_ref) (address offset : Z) (values : list value) : cx unit :=
  match refs, values with
  | ref :: refs, v :: values =>
      '(at_, next) ← parameter_place offset ref;
      _ ← turbowasm_component_canonical_lower_value ref (u64 (address + at_)) v;
      lower_each refs address next values
  | _, _ => mret tt
  end.

Definition turbowasm_component_canonical_lower_parameters (function_type address : Z) (values : list value) : cx unit :=
  refs ← parameters_place function_type address;
  lower_each refs address 0 values.

(** ** Admission of host values *)

(** [owner->endpoint != NULL], for what the host knows. *)
Context (owner_live : H -> O -> bool).

(** The core value of a scalar; a host's scalar is checked by making it. *)
Definition lower_flat_scalar (kind : turbowasm_component_type_kind) (v : value) : res turbowasm_value :=
  match v with
  | V_scalar kind' x =>
      if negb (bool_decide (kind' = kind)) then inl TURBOWASM_TYPE_MISMATCH
      else match kind with
           | TYPE_BOOL => mret (VI32 (if x =? 0 then 0 else 1))
           | TYPE_S8 | TYPE_U8 | TYPE_S16 | TYPE_U16 | TYPE_S32 => mret (VI32 x)
           | TYPE_U32 => mret (VI32 (s32 x))
           | TYPE_S64 => mret (VI64 x)
           | TYPE_U64 => mret (VI64 (s64 x))
           | TYPE_F32 => mret (VF32 x)
           | TYPE_F64 => mret (VF64 x)
           | TYPE_CHAR => if unicode_scalar_valid x then mret (VI32 (s32 x)) else inl TURBOWASM_INVALID_ARGUMENT
           | _ => inl TURBOWASM_UNSUPPORTED
           end
  | _ => inl TURBOWASM_TYPE_MISMATCH
  end.

Fixpoint all_admitted (accept : turbowasm_component_type_ref -> value -> turbowasm_status)
    (parts : list (turbowasm_component_type_ref * value)) : turbowasm_status :=
  match parts with
  | [] => TURBOWASM_OK
  | (ref, v) :: parts => match accept ref v with TURBOWASM_OK => all_admitted accept parts | status => status end
  end.

Definition resource_admitted (resource identity_ : Z) (key : option Z) : turbowasm_status :=
  match turbowasm_component_resource_definition graph resource with
  | None => TURBOWASM_TYPE_MISMATCH
  | Some r =>
      if match key with
         | Some _ => negb (bool_decide (instance_key r = key))
         | None => negb (identity_ =? 0) && negb (identity r =? identity_)
         end
      then TURBOWASM_TYPE_MISMATCH else TURBOWASM_OK
  end.

Fixpoint validate_host_value (fuel : nat) (h : H) (ref : turbowasm_component_type_ref) (v : value) : turbowasm_status :=
  match fuel with
  | 0%nat => TURBOWASM_TRAPPED
  | S fuel =>
      match resolved_kind graph ref with
      | inl status => status
      | inr t =>
          if negb (bool_decide (kind_of t = kind_of_value v)) then TURBOWASM_TYPE_MISMATCH
          else match t, v with
               | Scalar kind, _ => match lower_flat_scalar kind v with inl status => status | inr _ => TURBOWASM_OK end
               | String_, V_string s => turbowasm_component_string_validate s
               | Async _ _, V_endpoint _ owner g r release =>
                   if match owner with Some o => owner_live h o | None => false end && negb (bool_decide (release = None)) &&
                      turbowasm_component_value_type_equal graph ref g r
                   then TURBOWASM_OK else TURBOWASM_TYPE_MISMATCH
               | List_ element_type, V_list items => all_admitted (validate_host_value fuel h) (map (pair element_type) items)
               | Enum labels, V_enum i => if i <? Z.of_nat (length labels) then TURBOWASM_OK else TURBOWASM_INVALID_ARGUMENT
               | Flags labels, V_flags bits =>
                   if bits .& Z.lnot (flags_valid_mask (Z.of_nat (length labels))) =? 0 then TURBOWASM_OK else TURBOWASM_INVALID_ARGUMENT
               | Handle _ resource, V_resource _ _ _ identity_ key => resource_admitted resource identity_ key
               | _, _ =>
                   match as_sequence t v, as_variant t v with
                   | Some items, _ =>
                       if negb (bool_decide (length (sequence_refs t) = length items)) then TURBOWASM_TYPE_MISMATCH
                       else all_admitted (validate_host_value fuel h) (zip (sequence_refs t) items)
                   | None, Some (case_index, payload) =>
                       match variant_case_ref t case_index with
                       | inl status => status
                       | inr payload_type =>
                           match payload_type, payload with
                           | Some p, Some v => validate_host_value fuel h p v
                           | None, None => TURBOWASM_OK
                           | _, _ => TURBOWASM_TYPE_MISMATCH
                           end
                       end
                   | None, None => TURBOWASM_UNSUPPORTED
                   end
               end
      end
  end.

Definition turbowasm_component_canonical_validate_value (h : H) (ref : turbowasm_component_type_ref) (v : value) : turbowasm_status :=
  validate_host_value CANONICAL_MAX_DEPTH h ref v.

End Canonical.

End CanonicalValue.
