(* ===== verification/CanonicalHeap.v ===== *)
(** * The memory of a guest, and its heap

    The memory behind [turbowasm_component_canonical_memory] as a list of bytes, the
    regions of it that are in use, and what a guest's [realloc] promises about them. *)

From S2P Require Import Prelude Value ExecStack Memory Unicode Strings StringCodec StringSpec StringLower.
From S2P Require Import TypeGraph Canonical CanonicalSpec CanonicalValue.

Module CanonicalHeap.
Import ExecStack Memory Strings StringCodec StringSpec StringLower TypeGraph Canonical CanonicalSpec CanonicalValue.

(** ** Bytes *)

(** A later memory, which is never smaller, has the same bytes where [P] says. *)
Definition agree (P : Z -> Prop) (d d' : list Z) : Prop :=
  zlen d <= zlen d' /\ forall i, 0 <= i -> P i -> d !! Z.to_nat i = d' !! Z.to_nat i.

Definition within (p n i : Z) : Prop := p <= i < p + n.

(** The bytes of some region. *)
Definition covers (L : list (Z * Z)) (i : Z) : Prop := exists r, r ∈ L /\ within (fst r) (snd r) i.

Lemma agree_self P d : agree P d d.
Proof. done. Qed.

Lemma agree_trans P d d' d'' : agree P d d' -> agree P d' d'' -> agree P d d''.
Proof. intros [Hl1 H1] [Hl2 H2]. split; [lia|]. intros i Hi HP. by rewrite H1, H2. Qed.

Lemma agree_mono (P Q : Z -> Prop) d d' : (forall i, 0 <= i -> P i -> Q i) -> agree Q d d' -> agree P d d'.
Proof. intros HPQ [Hl H]. split; [done|]. intros i Hi HP. by apply H, HPQ. Qed.

Lemma agree_slice d d' p n : 0 <= p -> 0 <= n -> agree (within p n) d d' -> slice d p n = slice d' p n.
Proof.
  intros Hp Hn [_ H]. apply list_eq. intros i. destruct (decide (i < Z.to_nat n)%nat).
  - rewrite !slice_lookup by lia. specialize (H (p + Z.of_nat i) ltac:(lia) ltac:(unfold within; lia)).
    by replace (Z.to_nat (p + Z.of_nat i)) with (Z.to_nat p + i)%nat in H by lia.
  - rewrite !lookup_ge_None_2; [done| |]; unfold slice; rewrite length_take; lia.
Qed.

Lemma splice_agree d p x : 0 <= p -> p + zlen x <= zlen d -> agree (fun i => ~ within p (zlen x) i) d (splice d p x).
Proof.
  intros Hp Hx. split; [rewrite splice_length; lia|]. intros i Hi Hout. rewrite splice_lookup by lia.
  rewrite decide_False; [done|]. unfold within in Hout. lia.
Qed.

(** ** The guest's memory *)

Section Guest.
Context (cm : turbowasm_component_canonical_memory) (Hk : 0 <= cm_memory cm).

Abbreviation impl := (default 0%nat (cm_instance cm)).

(** The memory holds [d], and is of the width that pointers have. *)
Definition mem (w : store) (d : list Z) : Prop :=
  store_wf w /\ module_memory64 cm w = Some (pointer_type cm =? POINTER_I64) /\
  exists loc m, memory_locate w impl (cm_memory cm) = inr (loc, m) /\ shared m = false /\ data m = d.

Lemma mem_unique w d d' : mem w d -> mem w d' -> d = d'.
Proof. intros (_ & _ & loc & m & H & _ & <-) (_ & _ & loc' & m' & H' & _ & <-). congruence. Qed.

Lemma mem_size w d : mem w d -> zlen d <= SIZE_MAX /\ bytes_ok d.
Proof using Hk.
  intros (Hw & _ & loc & m & Hl & _ & <-). destruct (memory_locate_spec _ _ _ _ _ Hl Hk Hw) as (_ & _ & Hm).
  rewrite (mw_length _ Hm). split; [apply Hm|apply Hm].
Qed.

Lemma mem_read w d p n : mem w d -> 0 <= p -> 0 <= n -> p + n <= zlen d ->
  turbowasm_instance_memory_read_bytes w impl (cm_memory cm) p 0 n = (TURBOWASM_OK, slice d p n).
Proof using Hk.
  intros Hd Hp Hn Hin. pose proof (mem_size _ _ Hd) as [Hmax _]. destruct Hd as (Hw & _ & loc & m & Hl & _ & <-).
  destruct (memory_locate_spec _ _ _ _ _ Hl Hk Hw) as (_ & _ & Hm). rewrite (mw_length _ Hm) in *.
  unfold turbowasm_instance_memory_read_bytes. rewrite Hl, storage_range_spec; try done.
  - rewrite decide_True by lia. by rewrite Z.add_0_r.
  - unfold is_uint, SIZE_MAX, UINT64_MAX in *. lia.
  - lia.
Qed.

Lemma shape_memory64 w w' : same_shape w w' -> module_memory64 cm w' = module_memory64 cm w.
Proof.
  intros [Hlen Hs]. unfold module_memory64. destruct (w' !! impl) as [i'|] eqn:Hi'.
  - destruct (Hs _ _ Hi') as (i & -> & _ & Hv & _). cbn. by rewrite Hv.
  - apply lookup_ge_None in Hi'. by rewrite (lookup_ge_None_2 w) by lia.
Qed.

Lemma mem_write w d p x : mem w d -> 0 <= p -> p + zlen x <= zlen d -> bytes_ok x ->
  exists w', turbowasm_instance_memory_write_bytes w impl (cm_memory cm) p 0 x = (TURBOWASM_OK, w') /\ mem w' (splice d p x).
Proof using Hk.
  intros Hd Hp Hin Hx. pose proof (mem_size _ _ Hd) as [Hmax _]. destruct Hd as (Hw & H64 & loc & m & Hl & Hsh & <-).
  destruct (memory_locate_spec _ _ _ _ _ Hl Hk Hw) as (_ & Hat & Hm). rewrite (mw_length _ Hm) in *.
  unfold turbowasm_instance_memory_write_bytes. rewrite Hl, storage_range_spec; try done.
  - rewrite decide_True by lia. rewrite Z.add_0_r. eexists. split; [reflexivity|]. split; [|split].
    + eapply put_wf; [done|done|]. apply splice_wf; try done; lia.
    + by rewrite (shape_memory64 _ _ (put_shape _ _ _)).
    + eexists loc, _. split; [by apply (put_locate _ _ _ _ _ _ _ _ Hat Hl)|]. by rewrite decide_True.
  - unfold is_uint, SIZE_MAX, UINT64_MAX in *. lia.
  - lia.
Qed.

Lemma mem_bounds w d p n : mem w d -> 0 <= p -> 0 <= n -> p + n <= zlen d ->
  fst (turbowasm_instance_memory_bounds w impl (cm_memory cm) p 0 n) = TURBOWASM_OK.
Proof using Hk.
  intros Hd Hp Hn Hin. pose proof (mem_size _ _ Hd) as [Hmax _]. destruct Hd as (Hw & H64 & loc & m & Hl & Hsh & <-).
  destruct (memory_locate_spec _ _ _ _ _ Hl Hk Hw) as (_ & Hat & Hm). rewrite (mw_length _ Hm) in *.
  rewrite (bounds_spec _ _ _ _ _ _ _ _ Hl Hsh Hm), storage_range_spec; try (unfold is_uint, SIZE_MAX, UINT64_MAX in *; lia || done).
  by rewrite decide_True by lia.
Qed.

Lemma mem_block w d p n : mem w d -> 0 <= p -> 0 <= n <= UINT32_MAX -> p + n <= zlen d -> block cm w p n (slice d p n).
Proof using Hk.
  intros Hd Hp Hn Hin. pose proof (mem_size _ _ Hd) as [Hmax _]. destruct Hd as (Hw & H64 & loc & m & Hl & Hsh & <-).
  destruct (memory_locate_spec _ _ _ _ _ Hl Hk Hw) as (_ & Hat & Hm). split; [done| |done|].
  - unfold is_uint, SIZE_MAX, UINT64_MAX in *. lia.
  - exists loc, m. rewrite <- (mw_length _ Hm). done.
Qed.

Lemma block_mem w d p n bs : mem w d -> block cm w p n bs -> 0 <= p /\ p + n <= zlen d /\ bs = slice d p n.
Proof using Hk.
  intros (Hw & H64 & loc & m & Hl & Hsh & <-) [_ [Hp _] Hn (loc' & m' & Hl' & _ & Hin & <-)].
  rewrite Hl in Hl'. injection Hl' as <- <-. destruct (memory_locate_spec _ _ _ _ _ Hl Hk Hw) as (_ & Hat & Hm).
  rewrite (mw_length _ Hm). done.
Qed.

(** ** The heap *)

Definition apart (r s : Z * Z) : Prop := snd r = 0 \/ snd s = 0 \/ fst r + snd r <= fst s \/ fst s + snd s <= fst r.

Definition inside (d : list Z) (r : Z * Z) : Prop := 0 <= fst r /\ 0 <= snd r /\ fst r + snd r <= zlen d.

Lemma apart_within r s i : apart r s -> within (fst r) (snd r) i -> within (fst s) (snd s) i -> False.
Proof. unfold apart, within. lia. Qed.

(** What the guest's [realloc] promises: [live w L] says that the regions [L] are in
    use. A region that [realloc] hands out is apart from all others and aligned as it
    was asked to be, and it holds what the old one held as far as both go; a region in
    use keeps its bytes and may be written. *)
Class GuestHeap (f : realloc_fn) := {
  live : store -> list (Z * Z) -> Prop;
  live_regions w L : live w L -> (exists d, mem w d /\ Forall (inside d) L) /\ ForallOrdPairs apart L;
  live_order w L L' : L ≡ₚ L' -> live w L -> live w L';
  live_null w L : live w L -> live w ((0, 0) :: L);
  live_write w L p n off x w' : live w L -> (p, n) ∈ L -> 0 <= off -> off + zlen x <= n -> bytes_ok x ->
    turbowasm_instance_memory_write_bytes w impl (cm_memory cm) (p + off) 0 x = (TURBOWASM_OK, w') -> live w' L;
  live_realloc w p n L a n' p' w' d : live w ((p, n) :: L) -> mem w d -> 0 <= n' <= UINT32_MAX ->
    f w p n a n' = (TURBOWASM_OK, p', w') ->
    live w' ((p', n') :: L) /\ (power a -> p' mod a = 0) /\ (pointer_type cm = POINTER_I32 -> p' <= UINT32_MAX) /\
    exists d', mem w' d' /\ agree (covers L) d d' /\ slice d' p' (Z.min n n') = slice d p (Z.min n n')
}.

(** ** Regions *)

(** The regions [L] of [d] are apart. *)
Definition regions (L : list (Z * Z)) (d : list Z) : Prop := Forall (inside d) L /\ ForallOrdPairs apart L.

Lemma covers_app L L' i : covers (L ++ L') i <-> covers L i \/ covers L' i.
Proof.
  split.
  - intros (r & [Hr|Hr]%elem_of_app & Hi); [left|right]; by exists r.
  - intros [(r & Hr & Hi)|(r & Hr & Hi)]; exists r; (split; [apply elem_of_app|done]); auto.
Qed.

Lemma covers_in L r i : r ∈ L -> within (fst r) (snd r) i -> covers L i.
Proof. intros. by exists r. Qed.

Lemma pairs_app L L' : ForallOrdPairs apart (L ++ L') -> forall r s, r ∈ L -> s ∈ L' -> apart r s.
Proof.
  induction L as [|x L IH]; intros H r s Hr Hs; [by apply elem_of_nil in Hr|]. cbn [app] in H. inversion H as [|? ? Hx HL]; subst.
  apply elem_of_cons in Hr as [->|Hr]; [|by apply IH]. rewrite List.Forall_forall in Hx. apply Hx. apply list_elem_of_In, elem_of_app. by right.
Qed.

(** New regions are apart from a region that was there. *)
Lemma regions_new L L' d r i : regions (L' ++ L) d -> r ∈ L -> covers L' i -> ~ within (fst r) (snd r) i.
Proof. intros [_ H] Hr (s & Hs & Hi) Hin. apply (apart_within s r i); [by eapply pairs_app|done..]. Qed.

Lemma live_ok {f} `{GuestHeap f} w L d : live w L -> mem w d -> regions L d.
Proof. intros Hl Hd. destruct (live_regions w L Hl) as [(d' & Hd' & Hin) Hp]. by rewrite (mem_unique _ _ _ Hd Hd'). Qed.

End Guest.

End CanonicalHeap.
