(* ===== verification/CanonicalRound.v ===== *)
(** * Values through a guest's memory

    A value that is lowered into a guest's memory is lifted from there again. *)

From S2P Require Import Prelude Value ExecStack Memory Unicode Strings StringCodec StringSpec StringLower.
From S2P Require Import TypeGraph TypeTrees Canonical CanonicalSpec CanonicalValue CanonicalHeap.

Module CanonicalRound.
Import ExecStack Memory Unicode Strings StringCodec StringSpec StringLower TypeGraph TypeTrees Canonical CanonicalSpec CanonicalValue CanonicalHeap.

Section Triples.
Context (cm : turbowasm_component_canonical_memory) (Hk : 0 <= cm_memory cm).
Context (f : realloc_fn) (Hf : guest_realloc cm = Some f) {GH : GuestHeap cm f}.
Context {H : Type}.

Abbreviation cx := (cx H).

(** [m] reads the memory [d] only, and gives a result with [Q]. *)
Definition reads {A} (d : list Z) (m : cx A) (Q : A -> Prop) : Prop := forall w h, mem cm w d ->
  exists a, m (mk_world w h) = (inr a, mk_world w h) /\ Q a.

Lemma reads_done {A} d (a : A) (Q : A -> Prop) : Q a -> reads d (mret a) Q.
Proof. intros HQ w h _. by exists a. Qed.

Lemma reads_then {A B} d (m : cx A) (k : A -> cx B) Q : reads d m (fun a => reads d (k a) Q) -> reads d (m ≫= k) Q.
Proof. intros Hm w h Hw. destruct (Hm w h Hw) as (a & E & Ha). destruct (Ha w h Hw) as (b & E' & Hb). exists b. unfold mbind, cx_bind. by rewrite E. Qed.

Lemma reads_mono {A} d (m : cx A) (Q R : A -> Prop) : reads d m Q -> (forall a, Q a -> R a) -> reads d m R.
Proof. intros Hm HQR w h Hw. destruct (Hm w h Hw) as (a & E & Ha). eauto. Qed.

Lemma reads_pure {A} d (r : res A) a (Q : A -> Prop) : r = inr a -> Q a -> reads d (pure r) Q.
Proof. intros -> HQ w h _. by exists a. Qed.

Lemma reads_passes d b e (Q : unit -> Prop) : b = true -> Q tt -> reads d (need b e) Q.
Proof. intros -> HQ. by apply reads_done. Qed.

Lemma reads_or_else {A} d (m : cx A) clean Q : reads d m Q -> reads d (or_else m clean) Q.
Proof. intros Hm w h Hw. destruct (Hm w h Hw) as (a & E & Ha). exists a. unfold or_else. by rewrite E. Qed.

Lemma reads_memory d p n (Q : list Z -> Prop) : 0 <= p -> 0 <= n -> p + n <= zlen d -> Q (slice d p n) -> reads d (read_memory cm p n) Q.
Proof using Hk. intros Hp Hn Hin HQ w h Hw. exists (slice d p n). unfold read_memory. cbn [w_store]. by rewrite (mem_read cm Hk w d). Qed.

Lemma reads_bounds d p n (Q : unit -> Prop) : 0 <= p -> 0 <= n -> p + n <= zlen d -> Q tt -> reads d (in_bounds cm p n) Q.
Proof using Hk. intros Hp Hn Hin HQ w h Hw. exists tt. unfold in_bounds. cbn [w_store]. by rewrite (mem_bounds cm Hk w d). Qed.

(** From a memory [d] with the regions [L], [m] leaves the bytes of [L] alone but for
    those in [D], and gives a result with [K] in new regions and a new memory; or the
    guest refuses. *)
Definition lowers {A} (L : list (Z * Z)) (d : list Z) (D : Z -> Prop) (m : cx A) (K : A -> list (Z * Z) -> list Z -> Prop) : Prop :=
  forall w h, live cm w L -> mem cm w d ->
  match m (mk_world w h) with
  | (inl e, _) => refused cm f e
  | (inr a, u) => w_host u = h /\ exists L' d', live cm (w_store u) (L' ++ L) /\ mem cm (w_store u) d' /\
      agree (fun i => covers L i /\ ~ D i) d d' /\ K a L' d'
  end.

Lemma lowers_ret {A} L d D (a : A) (K : A -> list (Z * Z) -> list Z -> Prop) : K a [] d -> lowers L d D (mret a) K.
Proof. intros HK w h Hl Hd. cbn. split; [done|]. by exists [], d. Qed.

Lemma lowers_pure {A} L d D (r : res A) a (K : A -> list (Z * Z) -> list Z -> Prop) : r = inr a -> K a [] d -> lowers L d D (pure r) K.
Proof. intros -> HK w h Hl Hd. cbn. split; [done|]. by exists [], d. Qed.

Lemma lowers_need L d D b e (K : unit -> list (Z * Z) -> list Z -> Prop) : b = true -> K tt [] d -> lowers L d D (need b e) K.
Proof. intros -> HK. by apply lowers_ret. Qed.

(** What a later step may assume of the earlier one, and of the bytes it kept. *)
Definition kept (L : list (Z * Z)) (D : Z -> Prop) (d d' : list Z) : Prop := agree (fun i => covers L i /\ ~ D i) d d'.

(** The second step may write to regions that the first one made. *)
Lemma lowers_bind_new {A B} L d (D D1 : Z -> Prop) (D2 : A -> Z -> Prop) (m : cx A) (k : A -> cx B) K1 (K : B -> list (Z * Z) -> list Z -> Prop) :
  (forall i, D1 i -> D i) -> lowers L d D1 m K1 ->
  (forall a L1 d1, K1 a L1 d1 -> kept L D1 d d1 -> regions (L1 ++ L) d1 ->
     (forall i, covers L i -> D2 a i -> D i) /\
     lowers (L1 ++ L) d1 (D2 a) (k a) (fun b L2 d2 => kept (L1 ++ L) (D2 a) d1 d2 -> regions (L2 ++ L1 ++ L) d2 -> K b (L2 ++ L1) d2)) ->
  lowers L d D (m ≫= k) K.
Proof.
  intros H1 Hm Hk' w h Hl Hd. specialize (Hm w h Hl Hd). unfold mbind, cx_bind. destruct (m _) as [[e|a] [w1 h1]]; [done|].
  cbn [w_store w_host] in Hm. destruct Hm as (-> & L1 & d1 & Hl1 & Hd1 & Ha1 & HK1).
  destruct (Hk' a L1 d1 HK1 Ha1 (live_ok _ _ _ _ Hl1 Hd1)) as [H2 Hk2]. specialize (Hk2 w1 h Hl1 Hd1). destruct (k a _) as [[e|b] [w2 h2]]; [done|].
  cbn [w_store w_host] in *. destruct Hk2 as (-> & L2 & d2 & Hl2 & Hd2 & Ha2 & HK2). split; [done|].
  exists (L2 ++ L1), d2. rewrite <- app_assoc. split; [done|]. split; [done|].
  split; [|by apply HK2, (live_ok _ _ _ _ Hl2)].
  eapply agree_trans; (eapply agree_mono; [|eassumption]); intros i Hi [Hc HD]; [by split; [|intros ?; apply HD; auto]|].
  split; [|by intros ?; apply HD; auto]. apply covers_app. by right.
Qed.

Lemma lowers_bind {A B} L d (D D1 D2 : Z -> Prop) (m : cx A) (k : A -> cx B) K1 (K : B -> list (Z * Z) -> list Z -> Prop) :
  (forall i, D1 i -> D i) -> (forall i, D2 i -> D i) -> lowers L d D1 m K1 ->
  (forall a L1 d1, K1 a L1 d1 -> kept L D1 d d1 -> regions (L1 ++ L) d1 ->
     lowers (L1 ++ L) d1 D2 (k a) (fun b L2 d2 => kept (L1 ++ L) D2 d1 d2 -> regions (L2 ++ L1 ++ L) d2 -> K b (L2 ++ L1) d2)) ->
  lowers L d D (m ≫= k) K.
Proof. intros H1 H2 Hm Hk'. apply (lowers_bind_new L d D D1 (fun _ => D2) m k K1 K H1 Hm). intros a L1 d1 Ha Hkp HL. split; [auto|by apply Hk']. Qed.

(** A step without effect. *)
Lemma lowers_step {A B} L d D (m : cx A) (k : A -> cx B) (K : B -> list (Z * Z) -> list Z -> Prop) :
  reads d m (fun a => lowers L d D (k a) K) -> lowers L d D (m ≫= k) K.
Proof.
  intros Hm w h Hl Hd. destruct (Hm w h Hd) as (a & E & Ha). unfold mbind, cx_bind. rewrite E. by apply Ha.
Qed.

Lemma lowers_mono {A} L d (D D' : Z -> Prop) (m : cx A) (K K' : A -> list (Z * Z) -> list Z -> Prop) : lowers L d D m K ->
  (forall i, D i -> D' i) -> (forall a L' d', kept L D d d' -> regions (L' ++ L) d' -> K a L' d' -> K' a L' d') -> lowers L d D' m K'.
Proof.
  intros Hm HD HK w h Hl Hd. specialize (Hm w h Hl Hd). destruct (m _) as [[e|a] [w1 h1]]; [done|].
  cbn [w_store w_host] in *. destruct Hm as (-> & L' & d' & Hl' & Hd' & Ha & HKa). split; [done|]. exists L', d'.
  split; [done|]. split; [done|]. split; [|by apply (HK a L' d' Ha (live_ok _ _ _ _ Hl' Hd'))].
  eapply agree_mono; [|exact Ha]. intros i _ [Hc Hn]. auto.
Qed.

Lemma lowers_write L d (D : Z -> Prop) r p x (K : unit -> list (Z * Z) -> list Z -> Prop) : regions L d -> r ∈ L ->
  fst r <= p -> p + zlen x <= fst r + snd r -> bytes_ok x -> (forall i, within p (zlen x) i -> D i) ->
  K tt [] (splice d p x) -> lowers L d D (write_memory cm p x) K.
Proof using Hk.
  intros [Hin _] Hr Hlo Hhi Hx HD HK w h Hl Hd. rewrite Forall_forall in Hin. destruct (Hin _ Hr) as (Hr0 & Hrn & Hrd).
  destruct (mem_write cm Hk w d p x Hd) as (w' & E & Hd'); [lia..|done|]. unfold write_memory. cbn [w_store w_host]. rewrite E.
  split; [done|]. exists [], (splice d p x). split; [|split; [done|split; [|done]]].
  - destruct r as [q n]. cbn [fst snd] in *. apply (live_write cm w L q n (p - q) x w' Hl Hr); [lia|lia|done|]. by replace (q + (p - q)) with p by lia.
  - eapply agree_mono; [|apply splice_agree; lia]. intros i _ [_ Hn] Hi. by apply Hn, HD.
Qed.

(** The size of a memory is a number of the machine. *)
Lemma lowers_size {A} L d D (m : cx A) K : (zlen d <= SIZE_MAX -> lowers L d D m K) -> lowers L d D m K.
Proof using Hk. intros Hm w h Hl Hd. apply Hm; [|done|done]. by eapply mem_size. Qed.

Lemma reads_size {A} d (m : cx A) Q : (zlen d <= SIZE_MAX -> reads d m Q) -> reads d m Q.
Proof using Hk. intros Hm w h Hd. apply Hm; [|done]. by eapply mem_size. Qed.

End Triples.

(** ** Bytes of numbers *)

Lemma write_le_bytes width v : write_le width v = le_bytes (Z.to_nat width) v.
Proof. done. Qed.

Lemma write_le_length width v : 0 <= width -> zlen (write_le width v) = width.
Proof. intros Hw. rewrite write_le_bytes, le_bytes_length. lia. Qed.

Lemma write_le_ok width v : bytes_ok (write_le width v).
Proof. rewrite write_le_bytes. apply le_bytes_ok. Qed.

Lemma read_write_le width v : 0 <= width <= 8 -> is_uint (8 * width) v -> read_le (write_le width v) = v.
Proof.
  intros Hw Hv. unfold read_le. pose proof (write_le_length width v ltac:(lia)) as Hl.
  rewrite fold_read_le by (apply write_le_ok || lia). rewrite write_le_bytes, le_bytes_length, le_roundtrip.
  apply wrap_id. by rewrite Z2Nat.id by lia.
Qed.

(** ** Values of a type *)

Lemma char_valid x : scalar x <-> 0 <= x /\ unicode_scalar_valid x = true.
Proof. unfold scalar, unicode_scalar_valid. rewrite andb_true_iff, negb_true_iff, andb_false_iff, Z.geb_leb, Z.leb_le, !Z.leb_gt. lia. Qed.

(** The range of the member of the union. *)
Definition scalar_range (kind : turbowasm_component_type_kind) (x : Z) : Prop :=
  match kind with
  | TYPE_BOOL => x = 0 \/ x = 1
  | TYPE_S8 => is_sint 8 x
  | TYPE_U8 => is_uint 8 x
  | TYPE_S16 => is_sint 16 x
  | TYPE_U16 => is_uint 16 x
  | TYPE_S32 => is_sint 32 x
  | TYPE_U32 | TYPE_F32 => is_uint 32 x
  | TYPE_S64 => is_sint 64 x
  | TYPE_U64 | TYPE_F64 => is_uint 64 x
  | TYPE_CHAR => scalar x
  | _ => False
  end.

(** The bits of a scalar fit its width and stand for it. *)
Lemma scalar_codec kind x : scalar_range kind x -> exists width bits,
  scalar_width kind = inr width /\ bits_of_scalar kind x = inr bits /\ width = scalar_size kind /\
  is_uint (8 * width) bits /\ scalar_of_bits kind bits = inr x.
Proof.
  assert (Hs : forall w, 0 < w -> is_sint w x -> is_uint w (wrap w x) /\ to_signed w (wrap w (wrap w x)) = x).
  { intros w Hw Hx. split; [apply wrap_range; lia|]. rewrite wrap_wrap. by apply to_signed_wrap. }
  destruct kind; cbn [scalar_range]; try done; intros Hx; eexists _, _; (split; [reflexivity|]); cbn [bits_of_scalar scalar_of_bits scalar_size];
    try (match type of Hx with is_sint ?w _ => destruct (Hs w eq_refl Hx) as [Hu Hb] end; (split; [reflexivity|]); (split; [done|]); (split; [exact Hu|]); unfold mret, res_ret; f_equal; exact Hb).
  - split; [reflexivity|]. split; [done|]. destruct Hx as [-> | ->]; (split; [by split|done]).
  - split; [reflexivity|]. split; [done|]. split; [exact Hx|]. unfold mret, res_ret. by rewrite wrap_id.
  - split; [reflexivity|]. split; [done|]. split; [exact Hx|]. unfold mret, res_ret. by rewrite wrap_id.
  - split; [reflexivity|]. split; [done|]. split; [exact Hx|]. unfold mret, res_ret. by rewrite wrap_id.
  - specialize (Hs 64 eq_refl Hx) as [Hu Hb]. split; [reflexivity|]. split; [done|]. split; [exact Hu|]. unfold mret, res_ret. f_equal. by rewrite wrap_wrap in Hb.
  - split; [reflexivity|]. split; [done|]. split; [exact Hx|]. done.
  - split; [reflexivity|]. split; [done|]. split; [exact Hx|]. unfold mret, res_ret. by rewrite wrap_id.
  - split; [reflexivity|]. split; [done|]. split; [exact Hx|]. done.
  - apply char_valid in Hx as [H0 Hu]. rewrite Hu. split; [reflexivity|]. split; [done|].
    assert (Hx : is_uint 32 x). { unfold unicode_scalar_valid in Hu. apply andb_true_iff in Hu as [Hu _]. apply Z.leb_le in Hu. unfold is_uint. lia. }
    split; [exact Hx|]. rewrite wrap_id by exact Hx. by rewrite Hu.
Qed.

Section Typed.
Context {O R : Type}.

Abbreviation value := (turbowasm_component_value O R).

(** The text of strings counts, not where they came from. *)
Fixpoint norm (v : value) : value :=
  match v with
  | V_string s => V_string (mk_string (Some (bytes s)) (os_size s) ORIGIN_UTF8)
  | V_list items => V_list (map norm items)
  | V_record items => V_record (map norm items)
  | V_tuple items => V_tuple (map norm items)
  | V_variant i payload => V_variant i (match payload with Some p => Some (norm p) | None => None end)
  | V_option i payload => V_option i (match payload with Some p => Some (norm p) | None => None end)
  | V_result i payload => V_result i (match payload with Some p => Some (norm p) | None => None end)
  | _ => v
  end.

(** The value of a case: its payload, or nothing. *)
Inductive case_value (P : tree -> value -> Prop) : option tree -> option value -> Prop :=
  | case_none : case_value P None None
  | case_some t v : P t v -> case_value P (Some t) (Some v).

(** The values of a type without handles; [fits] bounds the parts that may be long. *)
Inductive of_type (fits : tree -> value -> Prop) : tree -> value -> Prop :=
  | has_scalar kind x : scalar_range kind x -> of_type fits (TScalar kind) (V_scalar kind x)
  | has_string s : string_wf s -> string_text s -> fits TString (V_string s) ->
      of_type fits TString (V_string s)
  | has_list t items : Forall (of_type fits t) items -> fits (TList t) (V_list items) -> of_type fits (TList t) (V_list items)
  | has_record names ts items : Forall2 (of_type fits) ts items -> fits (TRecord names ts) (V_record items) ->
      of_type fits (TRecord names ts) (V_record items)
  | has_tuple ts items : Forall2 (of_type fits) ts items -> fits (TTuple ts) (V_tuple items) -> of_type fits (TTuple ts) (V_tuple items)
  | has_variant names cases i c payload : 0 <= i <= UINT32_MAX -> cases !! Z.to_nat i = Some c -> case_value (of_type fits) c payload ->
      of_type fits (TVariant names cases) (V_variant i payload)
  | has_option t i c payload : [None; Some t] !! Z.to_nat i = Some c -> 0 <= i -> case_value (of_type fits) c payload ->
      of_type fits (TOption t) (V_option i payload)
  | has_result a b i c payload : [a; b] !! Z.to_nat i = Some c -> 0 <= i -> case_value (of_type fits) c payload ->
      of_type fits (TResult a b) (V_result i payload)
  | has_enum labels i : 0 <= i < Z.of_nat (length labels) -> i <= UINT32_MAX -> of_type fits (TEnum labels) (V_enum i)
  | has_flags labels bits : 0 <= bits < 2 ^ Z.of_nat (length labels) -> of_type fits (TFlags labels) (V_flags bits).

(** No string and no list beyond what the runtime lifts; and no string that came as
    UTF-16 from a guest with compact strings, where [misplaced] says that shrinking it
    may move it to an odd address. *)
Definition limits (cm : turbowasm_component_canonical_memory) (f : realloc_fn) (t : tree) (v : value) : Prop :=
  let ptr := pointer_size (pointer_type cm) in
  match v, t with
  | V_string s, _ => 2 * os_size s <= TW_STRING_MAX_BYTES /\ (os_origin s = ORIGIN_COMPACT_UTF16 -> ~ misplaced cm f)
  | V_list items, TList t => Z.of_nat (length items) * tree_size ptr t <= MAX_LIST_BYTE_LENGTH /\ tree_size ptr t <= UINT64_MAX
  | V_record items, _ | V_tuple items, _ => Z.of_nat (length items) <= UINT32_MAX
  | _, _ => True
  end.

End Typed.

Abbreviation has_type cm f := (of_type (limits cm f)).

(** The index of one of two cases. *)
Lemma two_cases {A} (a b c : A) i : [a; b] !! Z.to_nat i = Some c -> 0 <= i -> 0 <= i <= UINT32_MAX.
Proof. intros Hc%lookup_lt_Some Hi. cbn [length] in Hc. unfold UINT32_MAX. lia. Qed.

Section Round.
Context (cm : turbowasm_component_canonical_memory) (Hk : 0 <= cm_memory cm) (Hvalid : memory_valid cm = true).
Context (f : realloc_fn) (Hf : guest_realloc cm = Some f) {GH : GuestHeap cm f}.
Context {H O R : Type} (malloc_ok : Z -> bool) (Hmalloc : forall n, malloc_ok n = true).

Abbreviation value := (turbowasm_component_value O R).
Abbreviation ptype := (pointer_type cm).
Abbreviation ptr := (pointer_size ptype).
Abbreviation lowers := (lowers cm f (H := H)).
Abbreviation reads := (reads cm (H := H)).

(** What lies in the region [n] bytes from [p] on, and in new regions: [lift] gives
    [v] back as long as these bytes stay. *)
Definition stored (p n : Z) (lift : cx H value) (v : value) (L' : list (Z * Z)) (d' : list Z) : Prop :=
  forall d2, agree (fun i => within p n i \/ covers L' i) d' d2 -> reads d2 lift (fun v' => norm v' = norm v).

(** The bytes [x], written at [p], are read there. *)
Lemma written_read d p x d2 (Q : list Z -> Prop) : 0 <= p -> p + zlen x <= zlen d ->
  agree (within p (zlen x)) (splice d p x) d2 -> Q x -> reads d2 (read_memory cm p (zlen x)) Q.
Proof using Hk.
  intros Hp Hin Ha HQ.
  assert (Hl : zlen (splice d p x) = zlen d) by (rewrite splice_length; lia).
  apply reads_memory; [done|done|lia|destruct Ha; lia|].
  rewrite <- (agree_slice (splice d p x) d2 p (zlen x)) by (lia || done). by rewrite slice_splice_same by lia.
Qed.

(** A value of so many bytes that reads as it was written. *)
Lemma lower_bytes L d r address width bits (lift : cx H value) (v : value) :
  regions L d -> r ∈ L -> fst r <= address -> address + width <= fst r + snd r -> 0 < width <= 8 -> is_uint (8 * width) bits ->
  (forall d2 (Q : value -> Prop), reads d2 (read_memory cm address width) (fun bs => bs = write_le width bits) -> Q v -> reads d2 lift Q) ->
  lowers L d (within address width) (write_memory cm address (write_le width bits)) (fun _ L' d' => stored address width lift v L' d').
Proof using Hk.
  intros HL Hr Hlo Hhi Hw Hb Hlift. pose proof (write_le_length width bits ltac:(lia)) as Hl.
  destruct HL as [Hin Hap]. pose proof Hin as Hin'. rewrite Forall_forall in Hin'. destruct (Hin' _ Hr) as (? & ? & ?).
  apply (lowers_write cm Hk f L d _ r); [by split|done|lia|lia|apply write_le_ok|by rewrite Hl|].
  intros d2 Ha. apply Hlift; [|done]. rewrite <- Hl at 1. apply (written_read d); [lia|lia| |done].
  eapply agree_mono; [|exact Ha]. intros i _ Hi. left. by rewrite Hl in Hi.
Qed.

Lemma lower_scalar_spec L d r address kind x : regions L d -> r ∈ L -> fst r <= address -> address + scalar_size kind <= fst r + snd r ->
  scalar_range kind x ->
  lowers L d (within address (scalar_size kind)) (lower_scalar cm kind address (V_scalar kind x : value))
    (fun _ L' d' => stored address (scalar_size kind) (lift_scalar cm kind address) (V_scalar kind x) L' d').
Proof using Hk.
  intros HL Hr Hlo Hhi Hx. destruct (scalar_codec kind x Hx) as (width & bits & Hwd & Hbits & -> & Hu & Hback).
  unfold lower_scalar. rewrite bool_decide_eq_true_2 by done. cbn [need].
  apply lowers_step, reads_done, lowers_step. eapply reads_pure; [exact Hwd|]. apply lowers_step. eapply reads_pure; [exact Hbits|].
  apply (lower_bytes L d r); try done; [by destruct kind|].
  intros d2 Q Hread HQ. unfold lift_scalar. apply reads_then. eapply reads_pure; [exact Hwd|]. apply reads_then.
  eapply reads_mono; [exact Hread|]. intros bs ->. apply reads_then. eapply reads_pure; [|by apply reads_done].
  rewrite read_write_le; [exact Hback|by destruct kind|done].
Qed.

(** *** Enumerations and flags *)

Lemma discriminant_fits n i : 0 <= i < Z.of_nat n -> i <= UINT32_MAX -> is_uint (8 * discriminant_size n) i.
Proof using.
  intros Hi Hmax. unfold discriminant_size, is_uint, UINT32_MAX in *. destruct (Z.leb_spec (Z.of_nat n) 256); [lia|].
  destruct (Z.leb_spec (Z.of_nat n) 65536); lia.
Qed.

Lemma discriminant_range n : 0 < discriminant_size n <= 8 /\ 8 * discriminant_size n <= 32.
Proof using. pose proof (discriminant_power n). unfold discriminant_size. repeat case_match; lia. Qed.

Lemma uint_le a b x : a <= b -> 0 <= a -> is_uint a x -> is_uint b x.
Proof using. intros Hab Ha [H0 H1]. split; [done|]. eapply Z.lt_le_trans; [exact H1|]. by apply Z.pow_le_mono_r. Qed.

(** A discriminant comes back. *)
Lemma discriminant_back n i : 0 <= i < Z.of_nat n -> i <= UINT32_MAX ->
  u32 (read_le (write_le (discriminant_size n) i)) = i /\ (i >=? Z.of_nat n) = false.
Proof using.
  intros Hi Hmax. pose proof (discriminant_fits n i Hi Hmax) as Hf'. pose proof (discriminant_range n).
  rewrite read_write_le by (done || lia). split; [|lia]. apply wrap_id. eapply uint_le; [| |exact Hf']; lia.
Qed.

Lemma lower_enum_spec L d r address labels i : regions L d -> r ∈ L -> fst r <= address ->
  address + discriminant_size (length labels) <= fst r + snd r -> 0 <= i < Z.of_nat (length labels) -> i <= UINT32_MAX ->
  lowers L d (within address (discriminant_size (length labels))) (lower_label_value cm (Enum labels) address (V_enum i : value))
    (fun _ L' d' => stored address (discriminant_size (length labels)) (lift_label_value cm (Enum labels) address) (V_enum i) L' d').
Proof using Hk.
  intros HL Hr Hlo Hhi Hi Hmax. pose proof (discriminant_range (length labels)) as Hd. destruct (discriminant_back _ _ Hi Hmax) as [Hback Hge].
  unfold lower_label_value. rewrite width_discriminant by lia. rewrite (proj2 (Z.eqb_neq (discriminant_size (length labels)) 0)), Hge by lia.
  cbn [orb negb need]. apply lowers_step, reads_done. apply (lower_bytes L d r); try done; [lia|by apply discriminant_fits|].
  intros d2 Q Hread HQ. unfold lift_label_value. rewrite width_discriminant by lia. rewrite (proj2 (Z.eqb_neq (discriminant_size (length labels)) 0)) by lia.
  cbn [negb need]. apply reads_then, reads_done, reads_then. eapply reads_mono; [exact Hread|]. intros bs ->. rewrite Hback, Hge.
  cbn [negb need]. by apply reads_then, reads_done, reads_done.
Qed.

Lemma mask_spec n : 0 < n <= 32 -> flags_valid_mask n = Z.ones n.
Proof using.
  intros Hn. unfold flags_valid_mask. rewrite Z.geb_leb. destruct (Z.leb_spec 32 n); [by replace n with 32 by lia|].
  rewrite (proj2 (Z.eqb_neq n 0)) by lia. rewrite Z.ones_equiv, Z.shiftl_1_l, wrap_id; [lia|].
  split; [lia|]. apply Z.pow_lt_mono_r; lia.
Qed.

Lemma mask_clear n bits : 0 < n <= 32 -> 0 <= bits < 2 ^ n -> bits .& Z.lnot (flags_valid_mask n) = 0.
Proof using.
  intros Hn Hb. rewrite mask_spec by done. change (bits .& Z.lnot (Z.ones n)) with (Z.land bits (Z.lnot (Z.ones n))).
  rewrite <- Z.ldiff_land, Z.ldiff_ones_r, Z.shiftr_div_pow2, Z.div_small by lia. apply Z.shiftl_0_l.
Qed.

Lemma flags_width n : (0 < n)%nat -> Z.of_nat n <= 32 -> flags_storage_width (Z.of_nat n) = flags_size n /\
  0 < flags_size n <= 4 /\ Z.of_nat n <= 8 * flags_size n.
Proof using.
  intros Hn Hmax. unfold flags_storage_width, flags_size. rewrite (proj2 (Z.eqb_neq (Z.of_nat n) 0)) by lia.
  rewrite Z.gtb_ltb, (proj2 (Z.ltb_ge 32 (Z.of_nat n))) by lia. cbn [orb]. split; [done|].
  destruct (Z.leb_spec (Z.of_nat n) 8); [lia|]. destruct (Z.leb_spec (Z.of_nat n) 16); lia.
Qed.

Lemma lower_flags_spec L d r address labels bits : regions L d -> r ∈ L -> fst r <= address ->
  (0 < length labels)%nat -> Z.of_nat (length labels) <= 32 ->
  address + flags_size (length labels) <= fst r + snd r -> 0 <= bits < 2 ^ Z.of_nat (length labels) ->
  lowers L d (within address (flags_size (length labels))) (lower_label_value cm (Flags labels) address (V_flags bits : value))
    (fun _ L' d' => stored address (flags_size (length labels)) (lift_label_value cm (Flags labels) address) (V_flags bits) L' d').
Proof using Hk.
  intros HL Hr Hlo H0 H32 Hhi Hb. destruct (flags_width _ H0 H32) as (Hw & Hws & Hfit).
  assert (Hu : is_uint (8 * flags_size (length labels)) bits) by (eapply (uint_le (Z.of_nat (length labels))); [lia|lia|exact Hb]).
  assert (Hu32 : is_uint 32 bits) by (eapply (uint_le (Z.of_nat (length labels))); [lia|lia|exact Hb]).
  unfold lower_label_value. rewrite Hw, mask_clear by (lia || done). rewrite (proj2 (Z.eqb_neq (flags_size (length labels)) 0)) by lia.
  cbn [orb negb need Z.eqb]. apply lowers_step, reads_done. apply (lower_bytes L d r); try done; [lia|].
  intros d2 Q Hread HQ. unfold lift_label_value. rewrite Hw. rewrite (proj2 (Z.eqb_neq (flags_size (length labels)) 0)) by lia.
  cbn [negb need]. apply reads_then, reads_done, reads_then. eapply reads_mono; [exact Hread|]. intros bs ->.
  rewrite read_write_le, wrap_id, mask_clear by (lia || done). cbn [need Z.eqb]. by apply reads_then, reads_done, reads_done.
Qed.

(** *** Pointers and lengths *)

Lemma ptr_range : ptr = 4 \/ ptr = 8.
Proof using. unfold pointer_size. destruct (_ =? _); auto. Qed.

Lemma ptr_fits v : is_uint (8 * ptr) v -> (ptr =? 4) && (v >? UINT32_MAX) = false.
Proof using.
  intros [H0 Hv']. rewrite Z.gtb_ltb. destruct (Z.eqb_spec ptr 4) as [E|E]; [|done]. rewrite E in Hv'.
  apply Z.ltb_ge. unfold UINT32_MAX. lia.
Qed.

Lemma lower_pointer L d D r address v (K : unit -> list (Z * Z) -> list Z -> Prop) : regions L d -> r ∈ L -> fst r <= address ->
  address + ptr <= fst r + snd r -> is_uint (8 * ptr) v -> (forall i, within address ptr i -> D i) ->
  K tt [] (splice d address (write_le ptr v)) -> lowers L d D (write_pointer cm address v) K.
Proof using Hk.
  intros HL Hr Hlo Hhi Hu HD HK. pose proof ptr_range. pose proof (write_le_length ptr v ltac:(lia)) as Hl.
  unfold write_pointer. rewrite ptr_fits by done. cbn [negb need]. apply lowers_step, reads_done.
  apply (lowers_write cm Hk f L d D r); try done; [lia|apply write_le_ok|by rewrite Hl].
Qed.

Lemma read_pointer_spec d address v : is_uint (8 * ptr) v -> reads d (read_memory cm address ptr) (fun bs => bs = write_le ptr v) ->
  forall Q : Z -> Prop, Q v -> reads d (read_pointer cm address) Q.
Proof using.
  intros Hu Hread Q HQ. pose proof ptr_range. unfold read_pointer. apply reads_then. eapply reads_mono; [exact Hread|]. intros bs ->.
  apply reads_done. by rewrite read_write_le by (lia || done).
Qed.

Lemma lower_pair L d r address p n : regions L d -> r ∈ L -> fst r <= address -> address + 2 * ptr <= fst r + snd r ->
  is_uint (8 * ptr) p -> is_uint (8 * ptr) n ->
  lowers L d (within address (2 * ptr)) (write_pair cm address (p, n)) (fun _ L' d' => L' = [] /\
    forall d2, agree (within address (2 * ptr)) d' d2 -> forall Q : Z * Z -> Prop, Q (p, n) -> reads d2 (read_pair cm address) Q).
Proof using Hk.
  intros HL Hr Hlo Hhi Hp Hn. pose proof ptr_range as Hptr. apply (lowers_size cm Hk). intros Hmax.
  assert (Hb : 0 <= fst r /\ fst r + snd r <= zlen d). { destruct HL as [Hin _]. rewrite Forall_forall in Hin. by destruct (Hin _ Hr) as (? & ? & ?). }
  assert (Hbig : (address >? UINT64_MAX - ptr) = false) by (unfold SIZE_MAX in Hmax; lia).
  pose proof (write_le_length ptr p ltac:(lia)) as Hlp. pose proof (write_le_length ptr n ltac:(lia)) as Hln.
  unfold write_pair. cbn [fst snd].
  eapply (lowers_bind cm f L d _ (within address ptr) (within (address + ptr) ptr) _ _ (fun _ L' d' => L' = [] /\ d' = splice d address (write_le ptr p)));
    [unfold within; lia|unfold within; lia|by apply (lower_pointer L d _ r); try (done || lia)|].
  intros _ L1 d1 [-> ->] _ HL1. rewrite Hbig. cbn [negb need app]. apply lowers_step, reads_done.
  assert (Hlen : zlen (splice d address (write_le ptr p)) = zlen d) by (rewrite splice_length; lia).
  eapply (lower_pointer L _ _ r); try done; [lia|lia|]. intros _ _. split; [done|]. intros d2 Ha Q HQ.
  assert (Hlen2 : zlen (splice (splice d address (write_le ptr p)) (address + ptr) (write_le ptr n)) = zlen d) by (rewrite splice_length; lia).
  unfold read_pair. rewrite Hbig. apply reads_then, (read_pointer_spec d2 _ p); [done| |].
  - destruct Ha as [Hld Ha]. apply reads_memory; [done|lia|lia|lia|]. rewrite <- (agree_slice (splice (splice d address (write_le ptr p)) (address + ptr) (write_le ptr n))); [|lia|lia|].
    + rewrite slice_splice_disjoint by lia. rewrite <- Hlp at 2. by apply slice_splice_same; lia.
    + split; [done|]. intros i Hi Hw. apply Ha; [done|]. unfold within in *. lia.
  - cbn [negb need]. apply reads_then, reads_done, reads_then, (read_pointer_spec d2 _ n); [done| |by apply reads_done].
    pose proof (written_read (splice d address (write_le ptr p)) (address + ptr) (write_le ptr n) d2 (fun bs => bs = write_le ptr n)) as Hread.
    rewrite Hln in Hread. apply Hread; [lia|lia| |done]. eapply agree_mono; [|exact Ha]. unfold within. intros i _. lia.
Qed.

(** *** Strings *)

(** The rest of the heap while a string is lowered. *)
Definition around (L : list (Z * Z)) (d : list Z) (w : store) (p n : Z) : Prop :=
  live cm w ((p, n) :: L) /\ exists d', mem cm w d' /\ agree (covers L) d d'.

Lemma offset_write w d p off x : mem cm w d -> 0 <= p -> 0 <= off -> p + off + zlen x <= zlen d ->
  turbowasm_instance_memory_write_bytes w (default 0%nat (cm_instance cm)) (cm_memory cm) p off x =
  turbowasm_instance_memory_write_bytes w (default 0%nat (cm_instance cm)) (cm_memory cm) (p + off) 0 x.
Proof using Hk.
  intros Hd Hp Ho Hin. pose proof (mem_size cm Hk _ _ Hd) as [Hmax _]. destruct Hd as (Hw & _ & loc & m & Hl & _ & <-).
  destruct (memory_locate_spec _ _ _ _ _ Hl Hk Hw) as (_ & _ & Hm). unfold turbowasm_instance_memory_write_bytes. rewrite Hl.
  rewrite !storage_range_spec; try done; try (unfold is_uint, SIZE_MAX, UINT64_MAX in *; lia). by rewrite Z.add_0_r.
Qed.

Lemma around_write L d : writes_under cm (around L d).
Proof using Hk.
  intros w p n bs off x w' Hb [Hl (d1 & Hd1 & Ha)] Ho Hin Hx Hw. destruct (block_mem cm Hk _ _ _ _ _ Hd1 Hb) as (Hp & Hpn & _).
  rewrite (offset_write _ d1) in Hw by (done || lia). destruct (mem_write cm Hk w d1 (p + off) x Hd1) as (w2 & E & Hd2); [lia|lia|done|].
  rewrite Hw in E. injection E as <-. pose proof (live_ok _ _ _ _ Hl Hd1) as HL. split.
  - apply (live_write cm w _ p n off x w' Hl); [by left|done..].
  - exists (splice d1 (p + off) x). split; [done|]. eapply agree_trans; [exact Ha|].
    eapply agree_mono; [|apply splice_agree; lia]. intros i _ (r & Hr & Hi) Hw'.
    apply (regions_new L [(p, n)] d1 r i HL Hr); [|done]. exists (p, n). split; [by left|]. unfold within in *. cbn [fst snd]. lia.
Qed.

Lemma around_keeps L d : keeps_under cm (around L d) f.
Proof using Hk GH.
  intros w p n bs a n' p' w' Hb [Hl (d1 & Hd1 & Ha)] Hn' E _. destruct (block_mem cm Hk _ _ _ _ _ Hd1 Hb) as (Hp & Hpn & ->).
  destruct (live_realloc cm w p n L a n' p' w' d1 Hl Hd1 Hn' E) as (Hl' & _ & _ & d' & Hd' & Hag & Hsame).
  split; [split; [done|]; exists d'; split; [done|by eapply agree_trans]|].
  destruct (live_ok _ _ _ _ Hl' Hd') as [Hin _]. inversion Hin as [|? ? (H1 & H2 & H3) _]; subst. cbn [fst snd] in *.
  exists (slice d' p' n'). split; [by apply mem_block|]. pose proof (bl_size _ _ _ _ _ Hb). by rewrite !take_slice by lia.
Qed.

Lemma tag_width : 2 * utf16_tag cm = 2 ^ (8 * ptr).
Proof using. unfold utf16_tag, pointer_size. by destruct (_ =? _). Qed.

Lemma pointer_fits w d p : mem cm w d -> 0 <= p <= zlen d -> (ptype = POINTER_I32 -> p <= UINT32_MAX) -> is_uint (8 * ptr) p.
Proof using Hk Hvalid.
  intros Hd Hp H32. pose proof (mem_size cm Hk _ _ Hd) as [Hmax _]. unfold pointer_size. unfold memory_valid in Hvalid.
  destruct (Z.eqb_spec ptype POINTER_I64) as [E|E].
  - unfold is_uint, SIZE_MAX, UINT64_MAX in *. lia.
  - rewrite !andb_true_iff, orb_true_iff, !Z.eqb_eq in Hvalid. destruct Hvalid as [[_ [E32|?]] _]; [|done].
    specialize (H32 E32). unfold is_uint, UINT32_MAX in *. lia.
Qed.

Lemma lower_string_range_spec L d s : regions L d -> string_wf s -> string_text s ->
  2 * os_size s <= TW_STRING_MAX_BYTES -> (os_origin s = ORIGIN_COMPACT_UTF16 -> ~ misplaced cm f) ->
  lowers L d (fun _ => False) (lower_string_range cm (V_string s : value)) (fun lowered L' d' =>
    is_uint (8 * ptr) (fst lowered) /\ is_uint (8 * ptr) (snd lowered) /\
    forall d2, agree (covers L') d' d2 ->
      reads d2 (lift_string_range cm malloc_ok (fst lowered) (snd lowered)) (fun v' : value => norm v' = norm (V_string s))).
Proof using Hk Hf Hvalid Hmalloc GH.
  intros HL Hwf Hval Hmax Hplace w h Hl Hd. unfold lower_string_range. cbn [w_store w_host].
  assert (Hb : block cm w 0 0 []). { replace (@nil Z) with (slice d 0 0) by done. apply mem_block; try done; lia. }
  assert (HJ : around L d w 0 0) by (split; [by apply live_null|by exists d]).
  pose proof (string_lower_under cm Hk (around L d) (around_write L d) f Hf (around_keeps L d) malloc_ok s w Hmalloc Hvalid Hb HJ Hwf (proj2 (validate_text s Hwf) Hval) Hmax) as Hs.
  destruct (turbowasm_component_string_lower cm s w) as [[[] [[p n]|]] w']; try done; cbn [w_host w_store].
  destruct Hs as (len & bs & Hg & [Hl' (d' & Hd' & Ha)] & Hn & [Hlift|(_ & Ho & Hm)]); [|by destruct (Hplace Ho)]. split; [done|]. exists [(p, len)], d'.
  split; [done|]. split; [done|]. split; [eapply agree_mono; [|exact Ha]; by intros i _ [? _]|].
  destruct Hg as [Hblk H32]. cbn [g_store g_pointer g_capacity] in *. destruct (block_mem cm Hk _ _ _ _ _ Hd' Hblk) as (Hp & Hpn & ->).
  pose proof (bl_size _ _ _ _ _ Hblk) as Hlen. cbn [fst snd]. split; [eapply pointer_fits; [exact Hd'|lia|done]|].
  split; [unfold is_uint; by rewrite <- tag_width|]. intros d2 Ha2 w2 h2 Hd2.
  destruct (Hlift w2) as (t & Ht & Hbt & Hst).
  { split; cbn [g_store g_pointer g_capacity]; [|done].
    rewrite (agree_slice d' d2); [apply mem_block; try done; destruct Ha2; lia|done|lia|].
    eapply agree_mono; [|exact Ha2]. intros i _ Hi. exists (p, len). split; [by left|done]. }
  exists (V_string t). unfold lift_string_range. cbn [w_store]. rewrite Ht. split; [done|]. cbn [norm]. by rewrite Hbt, Hst.
Qed.

(** *** Blocks for lists *)

(** A block is at an aligned pointer, and apart from all regions. *)
Lemma guest_allocate_spec L d a n : regions L d -> power a -> 0 <= n <= UINT32_MAX ->
  lowers L d (fun _ => False) (guest_allocate cm a n) (fun p L' d' =>
    is_uint (8 * ptr) p /\ p mod a = 0 /\ exists m, n <= m /\ inside d' (p, m) /\ L' = [(p, m)]).
Proof using Hk Hf Hvalid GH.
  intros HL Ha Hn w h Hl Hd. unfold guest_allocate. cbn [w_store w_host]. rewrite Hf. destruct (Z.eqb_spec n 0) as [->|Hn0].
  - split; [done|]. exists [(0, 0)], d. split; [by apply live_null|]. split; [done|]. split; [apply agree_self|].
    split; [eapply (pointer_fits w d); [done|lia|done]|]. split; [apply power_positive in Ha; by apply Z.mod_0_l; lia|]. exists 0. unfold inside. cbn [fst snd]. repeat split; lia.
  - destruct (f w 0 0 a n) as [[st p] w'] eqn:E. case_bool_decide as Hst; cbn [w_store w_host].
    + subst st. destruct (live_realloc cm w 0 0 L a n p w' d (live_null cm _ _ Hl) Hd Hn E) as (Hl' & Hal & H32 & d' & Hd' & Hag & _).
      destruct (live_ok _ _ _ _ Hl' Hd') as [Hin _]. inversion Hin as [|? ? Hin0 _]; subst. split; [done|]. exists [(p, n)], d'.
      split; [done|]. split; [done|]. split; [eapply agree_mono; [|exact Hag]; by intros i _ [? _]|].
      destruct Hin0 as (H1 & H2 & H3). cbn [fst snd] in *. split; [eapply pointer_fits; [exact Hd'|lia|done]|]. split; [by apply Hal|].
      exists n. repeat split; try done; lia.
    + split; [done|]. eexists _, _, _, _, _, _, _, _. split; [exact E|]. by rewrite decide_False.
Qed.

(** *** Elements *)

Lemma region_bounds L d r : regions L d -> r ∈ L -> 0 <= fst r /\ 0 <= snd r /\ fst r + snd r <= zlen d.
Proof using. intros [Hin _] Hr. rewrite Forall_forall in Hin. apply (Hin _ Hr). Qed.

Lemma regions_in (L L' : list (Z * Z)) r : r ∈ L -> r ∈ L' ++ L.
Proof using. intros Hr. apply elem_of_app. by right. Qed.

(** What was stored stays, when a later step writes elsewhere. *)
Lemma stored_kept p n lift v L' L d1 d' D r : stored p n lift v L' d1 -> kept (L' ++ L) D d1 d' -> regions (L' ++ L) d1 ->
  r ∈ L -> fst r <= p -> p + n <= fst r + snd r ->
  (forall i, D i -> within (fst r) (snd r) i) -> (forall i, within p n i -> D i -> False) ->
  stored p n lift v L' d'.
Proof using.
  intros Hs Hkp HL Hr Hlo Hhi HD Hout d2 Ha. apply Hs. eapply agree_trans; [|exact Ha]. eapply agree_mono; [|exact Hkp].
  intros i _ [Hi|Hi].
  - split; [|by intros ?; eapply Hout]. apply covers_app. right. apply (covers_in L r); [done|]. unfold within in *. lia.
  - split; [by apply covers_app; left|]. intros HDi. by apply (regions_new L L' d1 r i HL Hr Hi), HD.
Qed.

Lemma stored_mono p n lift v L' L'' d d' : stored p n lift v L' d -> (forall i, covers L' i -> covers L'' i) -> d = d' ->
  stored p n lift v L'' d'.
Proof using. intros Hs Hc <- d2 Ha. apply Hs. eapply agree_mono; [|exact Ha]. intros i _ [Hi|Hi]; auto. Qed.

(** A pair of numbers in place of what lies elsewhere. *)
Lemma lower_indirect L d r address (m : cx H (Z * Z)) (lift : Z -> Z -> cx H value) (v : value) :
  regions L d -> r ∈ L -> fst r <= address -> address + 2 * ptr <= fst r + snd r ->
  lowers L d (fun _ => False) m (fun lowered L' d' => is_uint (8 * ptr) (fst lowered) /\ is_uint (8 * ptr) (snd lowered) /\
    forall d2, agree (covers L') d' d2 -> reads d2 (lift (fst lowered) (snd lowered)) (fun v' => norm v' = norm v)) ->
  lowers L d (within address (2 * ptr)) (lowered ← m; write_pair cm address lowered)
    (fun _ L' d' => stored address (2 * ptr) ('(p, n) ← read_pair cm address; lift p n) v L' d').
Proof using Hk.
  intros HL Hr Hlo Hhi Hm. eapply (lowers_bind cm f L d _ (fun _ => False) (within address (2 * ptr))); [done|done|exact Hm|].
  intros [p n] L1 d1 (Hp & Hn & Hlift) Hk1 HL1. cbn [fst snd] in *.
  eapply lowers_mono; [apply (lower_pair (L1 ++ L) d1 r); try done; by apply regions_in|done|].
  intros u L2 d2 Hk2 HL2 [-> Hread] _ _ d3 Ha. apply reads_then, Hread.
  - eapply agree_mono; [|exact Ha]. by left.
  - apply Hlift. eapply agree_trans; [|eapply agree_mono; [|exact Ha]; intros i _ Hi; right; exact Hi].
    eapply agree_mono; [|exact Hk2]. intros i _ Hi. split; [by apply covers_app; left|]. intros Hw.
    apply (regions_new L L1 d1 r i HL1 Hr Hi). unfold within in *. lia.
Qed.

Context (run_release : R -> H -> turbowasm_status * H).
Context (graph : turbowasm_component_type_graph) (Hv : turbowasm_component_type_graph_validate graph = true).
Context (sizeof_value : Z) (Hsizeof : 0 < sizeof_value <= 65536) (hooks : handle_hooks (H := H) (O := O) (R := R)).

(** The runtime computes the layout of the tree. *)
Definition laid_out (e : turbowasm_component_type_ref) (t : tree) : Prop :=
  turbowasm_component_canonical_layout graph ptype e = inr (mk_layout (tree_alignment ptr t) (tree_size ptr t)) /\
  power (tree_alignment ptr t) /\ 0 < tree_size ptr t /\ tree_size ptr t mod tree_alignment ptr t = 0.

Lemma list_checks n t : power (tree_alignment ptr t) -> 0 < tree_size ptr t -> 0 <= n -> n * tree_size ptr t <= MAX_LIST_BYTE_LENGTH ->
  negb (n =? 0) && (tree_size ptr t >? UINT64_MAX / n) = false /\ u64 (n * tree_size ptr t) = n * tree_size ptr t /\
  (n * tree_size ptr t >? MAX_LIST_BYTE_LENGTH) = false /\ (n >? SIZE_MAX / sizeof_value) = false /\ (n * tree_size ptr t >? SIZE_MAX) = false.
Proof using Hsizeof.
  intros Hp Hs Hn Hmax. change MAX_LIST_BYTE_LENGTH with 268435455 in Hmax |- *. set (sz := tree_size ptr t) in Hs, Hmax |- *.
  assert (n <= 268435455) by nia. rewrite !Z.gtb_ltb. split; [|split; [apply wrap_id; unfold is_uint; lia|split; [lia|split]]].
  - destruct (Z.eqb_spec n 0) as [->|Hn0]; [done|]. cbn [negb andb]. apply Z.ltb_ge, Z.div_le_lower_bound; unfold UINT64_MAX; lia.
  - apply Z.ltb_ge, Z.div_le_lower_bound; [lia|]. unfold SIZE_MAX, UINT64_MAX. nia.
  - unfold SIZE_MAX, UINT64_MAX. lia.
Qed.

(** *** Places of elements *)

Lemma align_shift b o a : 0 < a -> b mod a = 0 -> align_to (b + o) a = b + align_to o a.
Proof using.
  intros Ha Hb. unfold align_to. apply Z.div_exact in Hb; [|lia]. rewrite Hb at 1.
  replace (a * (b / a) + o + a - 1) with (o + a - 1 + b / a * a) by lia. rewrite Z.div_add by lia. lia.
Qed.

Lemma place_spec d address o e t (Q : Z * Z -> Prop) : laid_out e t -> 0 <= address + o -> address mod tree_alignment ptr t = 0 ->
  address + (align_to o (tree_alignment ptr t) + tree_size ptr t) <= SIZE_MAX ->
  Q (address + align_to o (tree_alignment ptr t), address + (align_to o (tree_alignment ptr t) + tree_size ptr t)) ->
  reads d (place graph cm (address + o) e) Q.
Proof using.
  intros (Hlay & Hpow & Hsz & _) H0 Ha Hmax HQ. apply power_positive in Hpow. unfold place. apply reads_then. eapply reads_pure; [exact Hlay|].
  cbn [alignment size]. pose proof (align_to_spec o _ Hpow) as [Hal _]. unfold SIZE_MAX in Hmax.
  rewrite align_up_spec, align_shift by (done || lia). rewrite (proj2 (Z.leb_le _ _)) by lia.
  rewrite Z.gtb_ltb, (proj2 (Z.ltb_ge _ _)) by lia. cbn [negb need]. apply reads_then, reads_done, reads_done. by rewrite <- Z.add_assoc.
Qed.

Lemma items_end_cons o t ts : items_end ptr o (t :: ts) = items_end ptr (align_to o (tree_alignment ptr t) + tree_size ptr t) ts.
Proof using. done. Qed.

Lemma items_end_ge o ts : o <= items_end ptr o ts.
Proof using. apply sequence_end_ge, items_positive; [apply ptr_range|]. apply Forall_forall. intros t _. apply size_spec, ptr_range. Qed.

Lemma power_divides a b : power a -> power b -> a <= b -> (a | b).
Proof using. unfold power. intros Ha Hb Hab. apply Z.mod_divide; [lia|]. destruct Ha as [-> | [-> | [-> | ->]]], Hb as [-> | [-> | [-> | ->]]]; (done || lia). Qed.

(** A multiple of an alignment is a multiple of a smaller one. *)
Lemma aligned_less address a b : power a -> power b -> a <= b -> address mod b = 0 -> address mod a = 0.
Proof using.
  intros Ha Hb Hab H0. pose proof (power_positive _ Ha). pose proof (power_positive _ Hb). apply Z.mod_divide; [lia|].
  eapply Z.divide_trans; [by apply (power_divides a b)|]. apply Z.mod_divide; (done || lia).
Qed.

Lemma aligned_items address ts : address mod items_alignment ptr ts = 0 -> Forall (fun t => address mod tree_alignment ptr t = 0) ts.
Proof using.
  intros Ha. pose proof ptr_range as Hptr. assert (Hpow : Forall power (map (tree_alignment ptr) ts)).
  { apply Forall_map, Forall_forall. intros t _. by apply alignment_power. }
  pose proof (power_max_of _ Hpow) as Hmax. destruct (max_of_ge (map (tree_alignment ptr) ts) 1) as [_ Hge].
  rewrite Forall_forall in Hge. apply Forall_forall. intros t Ht. eapply aligned_less; [by apply alignment_power|exact Hmax| |exact Ha].
  apply Hge. by apply list_elem_of_In, in_map, list_elem_of_In.
Qed.

(** The cases and their trees. *)
Abbreviation case_rel := (fun P (o : option turbowasm_component_type_ref) (c : option tree) =>
  match o, c with Some e, Some t => P e t | None, None => True | _, _ => False end).

Lemma cases_alignment_spec cases cs : Forall2 (case_rel laid_out) cases cs -> forall a, 1 <= a ->
  CanonicalValue.cases_alignment graph cm cases a = inr (Z.max a (CanonicalSpec.cases_alignment ptr cs)).
Proof using.
  induction 1 as [|[e|] [t|] cases cs Ho Hcs IH]; intros a Ha; try done; cbn [CanonicalValue.cases_alignment].
  - unfold CanonicalSpec.cases_alignment. cbn [map max_of fold_right]. unfold mret, res_ret. f_equal. lia.
  - destruct Ho as (-> & Hpow & _). cbn [mbind res_bind alignment]. rewrite IH by lia.
    change (CanonicalSpec.cases_alignment ptr (Some t :: cs)) with (Z.max (tree_alignment ptr t) (CanonicalSpec.cases_alignment ptr cs)). f_equal. lia.
  - rewrite IH by lia. change (CanonicalSpec.cases_alignment ptr (None :: cs)) with (Z.max 1 (CanonicalSpec.cases_alignment ptr cs)). f_equal. lia.
Qed.

(** The payload of a variant starts behind the discriminant. *)
Lemma payload_place_spec d address node cs (Q : Z -> Prop) : Forall2 (case_rel laid_out) (variant_cases node) cs -> cs <> [] ->
  address mod CanonicalSpec.cases_alignment ptr cs = 0 -> 0 <= address ->
  address + align_to (discriminant_size (length cs)) (CanonicalSpec.cases_alignment ptr cs) <= SIZE_MAX ->
  Q (address + align_to (discriminant_size (length cs)) (CanonicalSpec.cases_alignment ptr cs)) ->
  reads d (payload_place graph cm node address (discriminant_size (length cs))) Q.
Proof using.
  intros Hcs Hne Ha H0 Hmax HQ. pose proof (cases_power ptr ptr_range cs) as Hpow. apply power_positive in Hpow.
  pose proof (discriminant_range (length cs)) as [Hd _]. pose proof (align_to_spec (discriminant_size (length cs)) _ Hpow) as [Hal _].
  unfold payload_place, variant_payload_alignment. apply reads_then. eapply reads_pure.
  { unfold guard_, variant_case_count. rewrite (proj2 (Z.eqb_neq _ 0)); [|rewrite (Forall2_length _ _ _ Hcs); destruct cs; [done|simpl; lia]].
    cbn [negb mbind res_bind]. by rewrite (cases_alignment_spec _ _ Hcs 1) by lia. }
  unfold SIZE_MAX in Hmax. rewrite Z.gtb_ltb, (proj2 (Z.ltb_ge _ _)) by lia. cbn [negb need]. apply reads_then, reads_done.
  eapply reads_pure; [|exact HQ]. rewrite Z.max_r by lia. rewrite align_up_spec, align_shift by (done || lia). by rewrite (proj2 (Z.leb_le _ _)) by lia.
Qed.

Section Parts.
Context (lift_inner : turbowasm_component_type_ref -> Z -> cx H value) (lower_inner : turbowasm_component_type_ref -> Z -> value -> cx H unit).

(** The parts of the type [e], which is the tree [t], are lowered and lifted again. *)
Definition codec (e : turbowasm_component_type_ref) (t : tree) : Prop := forall v L d address r, has_type cm f t v ->
  regions L d -> r ∈ L -> fst r <= address -> address + tree_size ptr t <= fst r + snd r -> address mod tree_alignment ptr t = 0 ->
  lowers L d (within address (tree_size ptr t)) (lower_inner e address v)
    (fun _ L' d' => stored address (tree_size ptr t) (lift_inner e address) v L' d').

Lemma lower_items_spec e t : codec e t -> 0 < tree_size ptr t -> tree_size ptr t mod tree_alignment ptr t = 0 -> 0 < tree_alignment ptr t ->
  forall items i L d p r, Forall (has_type cm f t) items -> regions L d -> r ∈ L -> 0 <= i -> 0 <= p -> fst r <= p + i * tree_size ptr t ->
  p + (i + Z.of_nat (length items)) * tree_size ptr t <= fst r + snd r -> p mod tree_alignment ptr t = 0 ->
  lowers L d (within (p + i * tree_size ptr t) (Z.of_nat (length items) * tree_size ptr t)) (lower_items lower_inner e p (tree_size ptr t) i items)
    (fun _ L' d' => forall d2, agree (fun x => within (p + i * tree_size ptr t) (Z.of_nat (length items) * tree_size ptr t) x \/ covers L' x) d' d2 ->
      forall acc, reads d2 (lift_items run_release lift_inner e p (tree_size ptr t) (length items) i acc) (fun vs => map norm vs = map norm (acc ++ items))).
Proof using Hk Hsizeof.
  intros Hc Hsz Hmod Hal. set (sz := tree_size ptr t) in *. induction items as [|v items IH]; intros i L d p r Hty HL Hr Hi Hp Hlo Hhi Hpa.
  - apply lowers_ret. intros d2 _ acc. apply reads_done. by rewrite app_nil_r.
  - inversion Hty as [|? ? Hv' Hty']; subst. apply (lowers_size cm Hk). intros Hmax. destruct (region_bounds _ _ _ HL Hr) as (? & ? & ?).
    cbn [length] in *. assert (Hroom : p + i * sz + sz + Z.of_nat (length items) * sz <= fst r + snd r) by lia.
    assert (Haddr : u64 (p + u64 (i * sz)) = p + i * sz).
    { unfold SIZE_MAX, UINT64_MAX in *. rewrite (wrap_id 64 (i * sz)), wrap_id; [done| |]; unfold is_uint; nia. }
    assert (Halign : (p + i * sz) mod tree_alignment ptr t = 0).
    { apply Z.mod_divide; [lia|]. apply Z.divide_add_r; [|apply Z.divide_mul_r]; apply Z.mod_divide; (done || lia). }
    cbn [lower_items]. rewrite Haddr.
    eapply (lowers_bind cm f L d _ (within (p + i * sz) sz) (within (p + (i + 1) * sz) (Z.of_nat (length items) * sz)));
      [unfold within; nia|unfold within; nia|by apply (Hc v L d (p + i * sz) r); try (done || nia)|].
    intros u L1 d1 Hst Hk1 HL1.
    eapply lowers_mono; [apply (IH (i + 1) (L1 ++ L) d1 p r); try (done || nia); by apply regions_in|done|].
    intros u2 L2 d2' Hkp HL2 Hrest _ _ d2 Ha acc. cbn [lift_items]. rewrite Haddr. apply reads_then, reads_or_else.
    assert (Hst' : stored (p + i * sz) sz (lift_inner e (p + i * sz)) v L1 d2').
    { eapply (stored_kept _ _ _ _ L1 L d1 d2' _ r Hst Hkp HL1 Hr); unfold within; nia. }
    eapply reads_mono; [apply Hst'|].
    + eapply agree_mono; [|exact Ha]. intros x _ [Hx|Hx]; [left; unfold within in *; nia|right; apply covers_app; by right].
    + intros v' Hnv. eapply reads_mono; [apply Hrest|].
      * eapply agree_mono; [|exact Ha]. intros x _ [Hx|Hx]; [left; unfold within in *; nia|right; apply covers_app; by left].
      * intros vs ->. rewrite !map_app. cbn [map]. rewrite <- app_assoc. cbn [app]. by rewrite Hnv.
Qed.

(** Lists: the elements in a block, the block and the number of elements in place. *)
Lemma lower_list_range_spec e t L d items : codec e t -> laid_out e t -> regions L d -> Forall (has_type cm f t) items ->
  Z.of_nat (length items) * tree_size ptr t <= MAX_LIST_BYTE_LENGTH ->
  lowers L d (fun _ => False) (lower_list_range graph cm lower_inner e (V_list items)) (fun lowered L' d' =>
    is_uint (8 * ptr) (fst lowered) /\ is_uint (8 * ptr) (snd lowered) /\
    forall d2, agree (covers L') d' d2 ->
      reads d2 (lift_list_range run_release graph cm malloc_ok sizeof_value lift_inner e (fst lowered) (snd lowered))
        (fun v' => norm v' = norm (V_list items))).
Proof using Hk Hf Hvalid Hmalloc GH Hsizeof.
  intros Hc (Hlay & Hpow & Hsz & Hmod) HL Hty Hmax. set (n := Z.of_nat (length items)).
  destruct (list_checks n t Hpow Hsz ltac:(lia) Hmax) as (C1 & C2 & C3 & C4 & C5).
  set (sz := tree_size ptr t) in Hsz, Hmod, Hmax, C1, C2, C3, C5, Hlay |- *. set (al := tree_alignment ptr t) in Hpow, Hmod, Hlay |- *.
  assert (Hal : 0 < al <= 8) by (unfold power in Hpow; lia). assert (Hbytes : 0 <= n * sz <= UINT32_MAX).
  { change MAX_LIST_BYTE_LENGTH with 268435455 in Hmax. unfold UINT32_MAX. lia. }
  unfold lower_list_range. fold n. apply lowers_step. eapply reads_pure; [exact Hlay|]. cbn [alignment size]. rewrite C1. cbn [negb need].
  apply lowers_step, reads_done. rewrite C2, C3. cbn [negb need]. apply lowers_step, reads_done.
  eapply (lowers_bind_new cm f L d _ (fun _ => False) (fun p => within p (n * sz))); [done|by apply guest_allocate_spec|].
  intros p L1 d1 (Hpu & Hpa & m & Hm & Hin & ->) Hk1 HL1. destruct Hin as (Hp0 & _ & Hpm). cbn [fst snd] in *.
  assert (Hpr : (p, m) ∈ [(p, m)] ++ L) by (apply elem_of_app; left; by left).
  split.
  { intros i (r & Hr & Hi) Hpi. eapply (regions_new L [(p, m)] d1 r i HL1 Hr); [|done]. exists (p, m). split; [by left|]. unfold within in *. cbn [fst snd]. lia. }
  rewrite Hpa, (proj2 (Z.eqb_neq al 0)) by lia. cbn [negb andb Z.eqb need]. apply lowers_step, reads_done.
  eapply (lowers_bind cm f _ d1 _ (within p (n * sz)) (fun _ => False)); [done|done| |].
  { pose proof (lower_items_spec e t Hc Hsz Hmod ltac:(lia) items 0 _ d1 p (p, m) Hty HL1 Hpr) as Hitems.
    rewrite Z.mul_0_l, Z.add_0_r, Z.add_0_l in Hitems. apply Hitems; cbn [fst snd]; try (done || lia). }
  intros u L2 d2 Hitems Hk2 HL2. apply lowers_ret. intros _ _ _ _. cbn [fst snd app]. split; [done|].
  split. { change MAX_LIST_BYTE_LENGTH with 268435455 in Hmax. destruct ptr_range as [-> | ->]; unfold is_uint; nia. }
  intros d3 Ha. unfold lift_list_range. apply reads_then. eapply reads_pure; [exact Hlay|]. cbn [alignment size].
  rewrite (proj2 (Z.eqb_neq sz 0)) by lia. cbn [negb need]. apply reads_then, reads_done. rewrite C1. cbn [negb need]. apply reads_then, reads_done.
  rewrite C2, C3, C4. cbn [negb need orb]. apply reads_then, reads_done. rewrite Hpa, (proj2 (Z.eqb_neq al 0)) by lia. cbn [negb andb Z.eqb need].
  apply reads_then, reads_done. rewrite C5. cbn [negb need]. apply reads_then, reads_done, reads_then.
  apply reads_bounds; [done|done|lia|destruct Ha, Hk2; lia|]. rewrite Hmalloc, orb_true_r. cbn [need]. apply reads_then, reads_done, reads_then.
  replace (Z.to_nat n) with (length items) by lia. eapply reads_mono; [apply Hitems|].
  - eapply agree_mono; [|exact Ha]. intros i _ [Hi|Hi]; apply covers_app; [right|by left]. exists (p, m). split; [by left|]. unfold within in *. cbn [fst snd]. lia.
  - intros vs Hvs. apply reads_done. cbn [norm]. by rewrite Hvs.
Qed.

(** *** Records and tuples *)

Lemma lower_sequence_spec refs ts : Forall2 (fun e t => codec e t /\ laid_out e t) refs ts ->
  forall items o L d address r, Forall2 (has_type cm f) ts items -> regions L d -> r ∈ L -> 0 <= o -> fst r <= address ->
  address + items_end ptr o ts <= fst r + snd r -> Forall (fun t => address mod tree_alignment ptr t = 0) ts ->
  lowers L d (within (address + o) (items_end ptr o ts - o)) (lower_sequence graph cm lower_inner refs items (address + o))
    (fun _ L' d' => forall d2, agree (fun x => within (address + o) (items_end ptr o ts - o) x \/ covers L' x) d' d2 ->
      forall acc, reads d2 (lift_sequence run_release graph cm lift_inner refs (address + o) acc) (fun vs => map norm vs = map norm (acc ++ items))).
Proof using Hk.
  induction 1 as [|e t refs ts [Hc Hlay] _ IH]; intros items o L d address r Hty HL Hr Ho Hlo Hhi Hal.
  - inversion Hty; subst. apply lowers_ret. intros d2 _ acc. apply reads_done. by rewrite app_nil_r.
  - inversion Hty as [|? v ? items' Hvt Hty']; subst. inversion Hal as [|? ? Hat Hal']; subst. rewrite items_end_cons in Hhi |- *.
    pose proof Hlay as (_ & Hpow & Hsz & _). pose proof (align_to_spec o _ (power_positive _ Hpow)) as [Hao Ham].
    destruct (region_bounds _ _ _ HL Hr) as (Hr0 & Hr1 & Hr2).
    set (a := align_to o (tree_alignment ptr t)) in Hao, Ham, Hhi |- *. set (sz := tree_size ptr t) in Hsz, Hhi |- *.
    pose proof (items_end_ge (a + sz) ts) as Hge. apply (lowers_size cm Hk). intros Hmax.
    assert (Haddr : (address + a) mod tree_alignment ptr t = 0).
    { apply power_positive in Hpow. apply Z.mod_divide; [lia|]. apply Z.divide_add_r; apply Z.mod_divide; (done || lia). }
    cbn [lower_sequence]. apply lowers_step, (place_spec d address o e t); [done|lia|done|fold a sz; lia|fold a sz].
    eapply (lowers_bind cm f L d _ (within (address + a) sz) (within (address + (a + sz)) (items_end ptr (a + sz) ts - (a + sz))));
      [unfold within; lia|unfold within; lia|apply (Hc v L d (address + a) r); try (done || (fold sz; lia))|].
    intros u L1 d1 Hst Hk1 HL1. fold sz in Hst, Hk1.
    eapply lowers_mono; [apply (IH items' (a + sz) (L1 ++ L) d1 address r); try (done || lia); by apply regions_in|done|].
    intros u2 L2 d2' Hkp HL2 Hrest _ _ d2 Ha acc. cbn [lift_sequence]. apply reads_then, reads_or_else, reads_then.
    apply (place_spec d2 address o e t); [done|lia|done|fold a sz; lia|fold a sz]. apply reads_then.
    assert (Hst' : stored (address + a) sz (lift_inner e (address + a)) v L1 d2').
    { eapply (stored_kept _ _ _ _ L1 L d1 d2' _ r Hst Hkp HL1 Hr); unfold within; lia. }
    eapply reads_mono; [apply Hst'|].
    + eapply agree_mono; [|exact Ha]. intros x _ [Hx|Hx]; [left; unfold within in Hx |- *; lia|right; apply covers_app; by right].
    + intros v' Hnv. apply reads_done. eapply reads_mono; [apply Hrest|].
      * eapply agree_mono; [|exact Ha]. intros x _ [Hx|Hx]; [left; unfold within in Hx |- *; lia|right; apply covers_app; by left].
      * intros vs ->. rewrite !map_app. cbn [map]. rewrite <- app_assoc. cbn [app]. by rewrite Hnv.
Qed.

Lemma lower_sequence_value_spec node ts items L d r address :
  Forall2 (fun e t => codec e t /\ laid_out e t) (sequence_refs node) ts -> sequence_refs node <> [] ->
  as_sequence node (make_sequence node items : value) = Some items ->
  Forall2 (has_type cm f) ts items -> Z.of_nat (length items) <= UINT32_MAX ->
  let n := align_to (items_end ptr 0 ts) (items_alignment ptr ts) in
  regions L d -> r ∈ L -> fst r <= address -> address + n <= fst r + snd r -> address mod items_alignment ptr ts = 0 ->
  lowers L d (within address n) (lower_sequence_value graph cm lower_inner node address (make_sequence node items))
    (fun _ L' d' => stored address n (lift_sequence_value run_release graph cm malloc_ok sizeof_value lift_inner node address) (make_sequence node items) L' d').
Proof using Hk Hmalloc Hsizeof.
  intros Hrefs Hne Has Hty Hlen n HL Hr Hlo Hhi Hal. unfold lower_sequence_value. rewrite Has.
  pose proof (Forall2_length _ _ _ Hrefs) as Hl1. pose proof (Forall2_length _ _ _ Hty) as Hl2.
  rewrite (bool_decide_eq_false_2 (sequence_refs node = [])) by exact Hne. cbn [negb need]. apply lowers_step, reads_done. rewrite bool_decide_eq_true_2 by congruence. cbn [need].
  apply lowers_step, reads_done.
  assert (Hpow : power (items_alignment ptr ts)). { apply power_max_of, Forall_map, Forall_forall. intros t _. apply alignment_power, ptr_range. }
  pose proof (align_to_spec (items_end ptr 0 ts) _ (power_positive _ Hpow)) as [Hn _]. fold n in Hn.
  pose proof (lower_sequence_spec _ _ Hrefs items 0 L d address r Hty HL Hr ltac:(lia) Hlo ltac:(lia) (aligned_items _ _ Hal)) as Hs.
  rewrite Z.add_0_r, Z.sub_0_r in Hs. eapply lowers_mono; [exact Hs|unfold within; lia|]. intros u L' d' _ _ Hlift d2 Ha.
  unfold lift_sequence_value. assert (Hc0 : (Z.of_nat (length (sequence_refs node)) =? 0) = false).
  { apply Z.eqb_neq. destruct (sequence_refs node); [done|simpl; lia]. }
  rewrite Hc0. cbn [negb need]. apply reads_then, reads_done. rewrite Z.gtb_ltb, (proj2 (Z.ltb_ge _ _)).
  2: { apply Z.div_le_lower_bound; [lia|]. unfold SIZE_MAX, UINT64_MAX, UINT32_MAX in *. nia. }
  cbn [negb need]. apply reads_then, reads_done. rewrite Hmalloc. cbn [need]. apply reads_then, reads_done, reads_then.
  eapply reads_mono; [apply (Hlift d2)|].
  - eapply agree_mono; [|exact Ha]. intros i _ [Hi|Hi]; [left; unfold within in Hi |- *; lia|by right].
  - intros vs Hvs. apply reads_done. cbn [app] in Hvs. unfold make_sequence. destruct node; cbn [norm]; by rewrite Hvs.
Qed.

(** *** Variants, options and results *)

Section Variant.
Context (node : turbowasm_component_type) (cs : list (option tree)) (i : Z) (c : option tree) (payload : option value).
Context (Hcs : Forall2 (case_rel (fun e t => codec e t /\ laid_out e t)) (variant_cases node) cs).
Context (Has : as_variant node (make_variant node i payload : value) = Some (i, payload)).
Context (Hi : 0 <= i <= UINT32_MAX) (Hc : cs !! Z.to_nat i = Some c).

Abbreviation pa := (CanonicalSpec.cases_alignment ptr cs).
Abbreviation dw := (discriminant_size (length cs)).
Abbreviation total := (variant_size pa (cases_size ptr cs) (length cs)).

Lemma variant_index : 0 <= i < Z.of_nat (length cs) /\ cs <> [].
Proof using Hi Hc. apply lookup_lt_Some in Hc as Hic. split; [lia|]. intros E. rewrite E in Hic. simpl in Hic. lia. Qed.

Lemma variant_shape : variant_case_count node = Z.of_nat (length cs) /\ enum_storage_width (Z.of_nat (length cs)) = dw /\
  (Z.of_nat (length cs) =? 0) = false /\ (dw =? 0) = false /\ (i >=? Z.of_nat (length cs)) = false.
Proof using Hcs Hi Hc.
  destruct variant_index as [Hi' _]. pose proof (Forall2_length _ _ _ Hcs) as Hlen. pose proof (discriminant_range (length cs)) as [Hdr _].
  split; [unfold variant_case_count; lia|]. split; [apply width_discriminant; lia|]. lia.
Qed.

Lemma variant_ref : exists o, variant_case_ref node i = inr o /\ case_rel (fun e t => codec e t /\ laid_out e t) o c.
Proof using Hcs Hi Hc.
  destruct variant_shape as (Hcount & _ & _ & _ & Hge). destruct (Forall2_lookup_r _ _ _ _ _ Hcs Hc) as (o & Ho & Hoc).
  exists o. split; [|done]. unfold variant_case_ref. by rewrite Hcount, Hge, Ho.
Qed.

Lemma variant_sizes : 0 < dw <= 8 /\ dw <= align_to dw pa /\ align_to dw pa + cases_size ptr cs <= total /\ 0 <= cases_size ptr cs /\
  power pa /\ align_to dw pa mod pa = 0.
Proof using.
  pose proof (discriminant_range (length cs)) as [Hdr _]. pose proof (cases_power ptr ptr_range cs) as Hpow.
  pose proof (proj1 (max_of_ge (map (opt (tree_size ptr) 0) cs) 0)) as Hps. fold (cases_size ptr cs) in Hps.
  pose proof (variant_size_spec pa (cases_size ptr cs) (length cs) Hpow Hps) as Hv'. cbv zeta in Hv'.
  pose proof (align_to_spec dw pa (power_positive _ Hpow)) as [_ Hal]. repeat split; try done; lia.
Qed.

Lemma variant_part t : c = Some t -> tree_size ptr t <= cases_size ptr cs /\ tree_alignment ptr t <= pa.
Proof using Hc.
  intros ->. assert (Hin : In (Some t) cs) by (apply list_elem_of_In; by eapply list_elem_of_lookup_2).
  destruct (max_of_ge (map (opt (tree_size ptr) 0) cs) 0) as [_ H1]. destruct (max_of_ge (map (opt (tree_alignment ptr) 1) cs) 1) as [_ H2].
  rewrite Forall_forall in H1, H2. split; [apply (H1 (opt (tree_size ptr) 0 (Some t)))|apply (H2 (opt (tree_alignment ptr) 1 (Some t)))];
    by apply list_elem_of_In, in_map.
Qed.

Lemma variant_laid_out : Forall2 (case_rel laid_out) (variant_cases node) cs.
Proof using Hcs. eapply Forall2_impl; [exact Hcs|]. intros [e|] [t|]; try done. by intros [_ ?]. Qed.

(** Reading a variant behind its discriminant. *)
Definition lift_payload (o : option turbowasm_component_type_ref) (address : Z) : cx H value :=
  p ← match o with
      | None => mret None
      | Some e => _ ← need (malloc_ok sizeof_value) TURBOWASM_OUT_OF_MEMORY; v ← lift_inner e (address + align_to dw pa); mret (Some v)
      end;
  mret (make_variant node i p).

Lemma lift_variant_read d address o (Q : value -> Prop) : variant_case_ref node i = inr o -> 0 <= address -> address + total <= zlen d ->
  address mod pa = 0 -> slice d address dw = write_le dw i ->
  reads d (lift_payload o address) Q ->
  reads d (lift_variant_value graph cm malloc_ok sizeof_value lift_inner node address) Q.
Proof using Hk Hcs Hi Hc.
  intros Href H0 Hin Ha Hsl Hrest. destruct variant_shape as (Hcount & Hwidth & Hz1 & Hz2 & Hge). destruct variant_sizes as (Hdw & Hd1 & Hd2 & Hd3 & _).
  destruct variant_index as [Hi' Hne]. destruct (discriminant_back _ _ Hi' ltac:(lia)) as [Hback _]. apply (reads_size cm Hk). intros Hmax.
  unfold lift_variant_value. rewrite Hcount, Hwidth, Hz1, Hz2. cbn [orb negb need]. apply reads_then, reads_done, reads_then.
  apply reads_memory; [done|lia|lia|lia|]. rewrite Hsl, Hback, Hge. cbn [negb need].
  apply reads_then, reads_done, reads_then. eapply reads_pure; [exact Href|]. apply reads_then.
  apply (payload_place_spec d address node cs); [apply variant_laid_out|done|done|lia|lia|exact Hrest].
Qed.

Lemma lower_variant_value_spec L d r address : case_value (has_type cm f) c payload ->
  regions L d -> r ∈ L -> fst r <= address -> address + total <= fst r + snd r -> address mod Z.max pa dw = 0 ->
  lowers L d (within address total) (lower_variant_value graph cm lower_inner node address (make_variant node i payload))
    (fun _ L' d' => stored address total (lift_variant_value graph cm malloc_ok sizeof_value lift_inner node address) (make_variant node i payload) L' d').
Proof using Hk Hmalloc Hcs Hi Hc Has.
  intros Hval HL Hr Hlo Hhi Hal. destruct variant_shape as (Hcount & Hwidth & Hz1 & Hz2 & Hge). destruct variant_ref as (o & Href & Ho).
  destruct variant_sizes as (Hdw & Hd1 & Hd2 & Hd3 & Hpow & Hpm). destruct (region_bounds _ _ _ HL Hr) as (Hr0 & Hr1 & Hr2).
  assert (Hapa : address mod pa = 0) by (eapply aligned_less; [exact Hpow| |apply Z.le_max_l|exact Hal]; apply power_max; [done|apply discriminant_power]).
  assert (Hwl : zlen (write_le dw i) = dw) by (apply write_le_length; lia).
  assert (Hwritten : slice (splice d address (write_le dw i)) address dw = write_le dw i) by (rewrite <- Hwl at 2; apply slice_splice_same; lia).
  assert (Hsl : zlen (splice d address (write_le dw i)) = zlen d) by (rewrite splice_length; lia).
  assert (Hlift : forall d' d2 (Q : value -> Prop), agree (within address total) d' d2 -> slice d' address dw = write_le dw i -> zlen d <= zlen d' ->
    reads d2 (lift_payload o address) Q -> reads d2 (lift_variant_value graph cm malloc_ok sizeof_value lift_inner node address) Q).
  { intros d' d2 Q [Hg Ha] Hs Hd'. apply lift_variant_read; [exact Href|lia|lia|done|]. rewrite <- (agree_slice d' d2); [done|lia|lia|].
    split; [done|]. intros x Hx Hin. apply Ha; [done|]. unfold within in Hin |- *. lia. }
  apply (lowers_size cm Hk). intros Hmax. pose proof variant_part as Hvp. pose proof variant_laid_out as Hvl. pose proof variant_index as [_ Hne].
  unfold lower_variant_value. rewrite Has, Hcount, Hwidth, Hz1, Hz2, Hge. cbn [orb negb need]. apply lowers_step, reads_done, lowers_step.
  eapply reads_pure; [exact Href|]. destruct Hval as [|t v Hvt]; destruct o as [e|]; try done.
  - apply (lowers_write cm Hk f L d _ r); try (done || lia); [apply write_le_ok|rewrite Hwl; unfold within; lia|].
    intros d2 Ha. eapply (Hlift (splice d address (write_le dw i)) d2); [|done|lia|by apply reads_then, reads_done, reads_done].
    eapply agree_mono; [|exact Ha]. by left.
  - destruct Ho as [Hcodec Hlay], (Hvp t eq_refl) as [Hts Hta]. pose proof Hlay as (_ & Htp & _).
    eapply (lowers_bind cm f L d _ (within address dw) (within (address + align_to dw pa) (tree_size ptr t)) _ _
      (fun _ L1 d1 => L1 = [] /\ d1 = splice d address (write_le dw i))); [unfold within; lia|unfold within; lia| |].
    { apply (lowers_write cm Hk f L d _ r); try (done || lia); [apply write_le_ok|by rewrite Hwl]. }
    intros u L1 d1 [-> ->] _ HL1. cbn [app]. apply lowers_step.
    apply (payload_place_spec _ address node cs); [exact Hvl|exact Hne|done|lia|lia|].
    eapply lowers_mono; [apply (Hcodec v L _ (address + align_to dw pa) r); try (done || lia)|done|].
    { eapply aligned_less; [exact Htp|exact Hpow|done|]. apply power_positive in Hpow. apply Z.mod_divide; [lia|].
      apply Z.divide_add_r; apply Z.mod_divide; (done || lia). }
    intros u2 L2 d2' Hkp HL2 Hst _ _ d2 Ha. rewrite app_nil_r in Ha.
    eapply (Hlift d2' d2); [eapply agree_mono; [|exact Ha]; by left| |destruct Hkp; lia|].
    + rewrite <- (agree_slice (splice d address (write_le dw i)) d2'); [done|lia|lia|]. eapply agree_mono; [|exact Hkp].
      intros x _ Hx. unfold within in Hx |- *. split; [|lia]. exists r. split; [done|]. unfold within. lia.
    + unfold lift_payload. rewrite Hmalloc. cbn [need]. apply reads_then, reads_then, reads_done, reads_then. eapply reads_mono; [apply Hst|].
      * eapply agree_mono; [|exact Ha]. intros x _ [Hx|Hx]; [left; unfold within in Hx |- *; lia|by right].
      * intros v' Hnv. apply reads_done, reads_done. unfold make_variant. destruct node; cbn [norm]; by rewrite Hnv.
Qed.

End Variant.

End Parts.

(** ** Values *)

Lemma tree_laid_out n e t : (n <= VALUE_MAX_DEPTH)%nat -> tree_of n graph e = Some t -> tree_size ptr t <= UINT64_MAX -> laid_out e t.
Proof using Hv Hvalid.
  intros Hn Ht Hmax. assert (Hp : pointer_type_valid ptype = true).
  { unfold memory_valid in Hvalid. rewrite !andb_true_iff in Hvalid. apply Hvalid. }
  split; [|split; [apply alignment_power, ptr_range|split; [exact (size_positive graph Hv ptype n e t Ht)|apply size_spec, ptr_range]]].
  rewrite (layout_depth graph ptype e t Hv Hp (tree_more graph n _ e t Hn Ht)). unfold tree_layout, counted. by rewrite (proj2 (Z.leb_le _ _)).
Qed.

Lemma items_sizes o ts : Forall (fun t => tree_size ptr t <= items_end ptr o ts - o) ts.
Proof using.
  revert o. induction ts as [|t ts IH]; intros o; constructor; rewrite items_end_cons.
  - pose proof (items_end_ge (align_to o (tree_alignment ptr t) + tree_size ptr t) ts).
    pose proof (align_to_spec o _ (power_positive _ (alignment_power ptr ptr_range t))). lia.
  - pose proof (align_to_spec o _ (power_positive _ (alignment_power ptr ptr_range t))). pose proof (proj1 (size_spec ptr ptr_range t)).
    eapply Forall_impl; [apply (IH (align_to o (tree_alignment ptr t) + tree_size ptr t))|]. intros t' Ht'. cbv beta in Ht'. lia.
Qed.

Abbreviation lift_at := (lift_value_inner run_release graph cm malloc_ok sizeof_value hooks).
Abbreviation lower_at := (lower_value_inner graph cm hooks).

(** The elements of a record that fits into memory. *)
Lemma parts_round n refs ts limit : (n <= VALUE_MAX_DEPTH)%nat -> (forall e t, tree_of n graph e = Some t -> codec (lift_at n) (lower_at n) e t) ->
  Forall2 (fun e t => tree_of n graph e = Some t) refs ts -> Forall (fun t => tree_size ptr t <= limit) ts -> limit <= UINT64_MAX ->
  Forall2 (fun e t => codec (lift_at n) (lower_at n) e t /\ laid_out e t) refs ts.
Proof using Hv Hvalid.
  intros Hn IH Hts Hlim Hmax. induction Hts as [|e t refs ts Ht Hts IHts]; constructor.
  - inversion Hlim; subst. split; [by apply IH|]. eapply tree_laid_out; [exact Hn|done|]. lia.
  - inversion Hlim; subst. by apply IHts.
Qed.

(** The cases of a variant that fits into memory. *)
Lemma cases_round n cases cs : (n <= VALUE_MAX_DEPTH)%nat -> (forall e t, tree_of n graph e = Some t -> codec (lift_at n) (lower_at n) e t) ->
  Forall2 (case_rel (fun e t => tree_of n graph e = Some t)) cases cs -> cases_size ptr cs <= UINT64_MAX ->
  Forall2 (case_rel (fun e t => codec (lift_at n) (lower_at n) e t /\ laid_out e t)) cases cs.
Proof using Hv Hvalid.
  intros Hn IH Hcs. induction Hcs as [|o c cases cs Ho Hcs IHcs]; intros Hmax; constructor.
  - destruct o as [e|], c as [t|]; try done. split; [by apply IH|]. eapply tree_laid_out; [exact Hn|done|].
    change (cases_size ptr (Some t :: cs)) with (Z.max (tree_size ptr t) (cases_size ptr cs)) in Hmax. lia.
  - apply IHcs. change (cases_size ptr (c :: cs)) with (Z.max (opt (tree_size ptr) 0 c) (cases_size ptr cs)) in Hmax. lia.
Qed.

Section Level.
Context (n : nat) (Hn : (n <= VALUE_MAX_DEPTH)%nat) (IH : forall e t, tree_of n graph e = Some t -> codec (lift_at n) (lower_at n) e t).
Context (L : list (Z * Z)) (d : list Z) (r : Z * Z) (address : Z) (HL : regions L d) (Hr : r ∈ L) (Hlo : fst r <= address).

Lemma sequence_round node ts items : Forall2 (fun e t => tree_of n graph e = Some t) (sequence_refs node) ts -> sequence_refs node <> [] ->
  as_sequence node (make_sequence node items : value) = Some items -> Forall2 (has_type cm f) ts items -> Z.of_nat (length items) <= UINT32_MAX ->
  let size := align_to (items_end ptr 0 ts) (items_alignment ptr ts) in
  address + size <= fst r + snd r -> address mod items_alignment ptr ts = 0 ->
  lowers L d (within address size) (lower_sequence_value graph cm (lower_at n) node address (make_sequence node items))
    (fun _ L' d' => stored address size (lift_sequence_value run_release graph cm malloc_ok sizeof_value (lift_at n) node address)
      (make_sequence node items) L' d').
Proof using Hk Hv Hvalid Hmalloc Hsizeof Hn IH HL Hr Hlo.
  intros Hts Hne Has Hty Hlen size Hhi Hal. apply (lowers_size cm Hk). intros Hmax. destruct (region_bounds _ _ _ HL Hr) as (Hr0 & Hr1 & Hr2).
  assert (Hpow : power (items_alignment ptr ts)). { apply power_max_of, Forall_map, Forall_forall. intros t _. apply alignment_power, ptr_range. }
  pose proof (align_to_spec (items_end ptr 0 ts) _ (power_positive _ Hpow)) as [Hs _]. fold size in Hs. unfold SIZE_MAX in Hmax.
  apply (lower_sequence_value_spec (lift_at n) (lower_at n) node ts items L d r address); try done.
  apply (parts_round n _ _ (items_end ptr 0 ts - 0)); [done|done|done|apply items_sizes|lia].
Qed.

Lemma variant_round node cs i c payload : Forall2 (case_rel (fun e t => tree_of n graph e = Some t)) (variant_cases node) cs ->
  as_variant node (make_variant node i payload : value) = Some (i, payload) ->
  0 <= i <= UINT32_MAX -> cs !! Z.to_nat i = Some c -> case_value (has_type cm f) c payload ->
  let size := variant_size (CanonicalSpec.cases_alignment ptr cs) (cases_size ptr cs) (length cs) in
  address + size <= fst r + snd r -> address mod Z.max (CanonicalSpec.cases_alignment ptr cs) (discriminant_size (length cs)) = 0 ->
  lowers L d (within address size) (lower_variant_value graph cm (lower_at n) node address (make_variant node i payload))
    (fun _ L' d' => stored address size (lift_variant_value graph cm malloc_ok sizeof_value (lift_at n) node address)
      (make_variant node i payload) L' d').
Proof using Hk Hv Hvalid Hmalloc Hn IH HL Hr Hlo.
  intros Hcs Has Hi Hc Hval size Hhi Hal. apply (lowers_size cm Hk). intros Hmax. destruct (region_bounds _ _ _ HL Hr) as (Hr0 & Hr1 & Hr2).
  destruct (variant_sizes cs) as (Hdw & Hd1 & Hd2 & Hd3 & _). fold size in Hd2. unfold SIZE_MAX in Hmax.
  apply (lower_variant_value_spec (lift_at n) (lower_at n) node cs i c payload) with (r := r); try done. apply cases_round; [done|done|done|lia].
Qed.

End Level.

Lemma stored_step {A} p n (ra : res A) a (k : A -> cx H value) v L' d' : ra = inr a -> stored p n (k a) v L' d' -> stored p n (pure ra ≫= k) v L' d'.
Proof using. intros Hra Hs d2 Ha. apply reads_then. eapply reads_pure; [exact Hra|]. by apply Hs. Qed.

Lemma values_round n : (n <= VALUE_MAX_DEPTH)%nat -> forall e t, tree_of n graph e = Some t -> codec (lift_at n) (lower_at n) e t.
Proof using Hk Hvalid Hf GH Hv Hmalloc Hsizeof.
  induction n as [|n IHn]; intros Hn e t; [done|]. assert (Hn' : (n <= VALUE_MAX_DEPTH)%nat) by lia. specialize (IHn Hn'). cbn [tree_of].
  destruct (turbowasm_component_type_ref_validate graph e) eqn:Hr; [|done]. cbn [negb]. destruct (hollow _); [done|]. destruct (resolved graph Hv e Hr) as [Hres (idx & Htv)].
  intros Htree v L d address r Hty HL Hreg Hlo Hhi Hal. apply (lowers_size cm Hk). intros Hmax.
  destruct (region_bounds _ _ _ HL Hreg) as (Hr0 & Hr1 & Hr2). unfold SIZE_MAX in Hmax.
  cbn [lower_value_inner lift_value_inner]. apply lowers_step. eapply reads_pure; [exact Hres|].
  eapply (lowers_mono cm f L d (within address (tree_size ptr t)) (within address (tree_size ptr t)));
    [|done|intros u L' d' _ _ Hst; eapply stored_step; [exact Hres|exact Hst]].
  destruct (resolve graph e) as [|kind| |el|fut pl|fields|elements|cases|pl|ok error|labels|labels|fn|res|own res|tys ex] eqn:Hnode; try done;
    cbn [type_valid] in Htv.
  - injection Htree as <-. inversion Hty as [kind' x Hx| | | | | | | | |]; subst. by apply (lower_scalar_spec L d r).
  - injection Htree as <-. inversion Hty as [|s Hwf Hval [Hlen Hplace]| | | | | | | |]; subst.
    by apply (lower_indirect L d r _ _ (lift_string_range cm malloc_ok)), lower_string_range_spec.
  - apply tree_some in Htree as (t' & Ht' & ->). inversion Hty as [| |t0 items Hitems [Hlen Hsz]| | | | | | |]; subst.
    apply (lower_indirect L d r _ _ (lift_list_range run_release graph cm malloc_ok sizeof_value (lift_at n) el)); try done.
    apply (lower_list_range_spec (lift_at n) (lower_at n) el t'); try done; [by apply IHn|by eapply tree_laid_out].
  - apply tree_some in Htree as (t' & _ & ->). inversion Hty.
  - apply tree_some in Htree as (ts & Hts%mapM_Some & ->). apply andb_true_iff in Htv as [Hne _]. apply negb_true_iff, bool_decide_eq_false in Hne.
    inversion Hty as [| | |ns ts0 items Hitems Hlen| | | | | |]; subst.
    apply (sequence_round n Hn' IHn L d r address HL Hreg Hlo (Record_ fields) ts items); try done; by destruct fields.
  - apply tree_some in Htree as (ts & Hts%mapM_Some & ->). apply andb_true_iff in Htv as [Hne _]. apply negb_true_iff, bool_decide_eq_false in Hne.
    inversion Hty as [| | | |ts0 items Hitems Hlen| | | | |]; subst. by apply (sequence_round n Hn' IHn L d r address HL Hreg Hlo (Tuple elements) ts items).
  - apply tree_some in Htree as (cs & Hcs & ->). apply (parts_spec (fun r t => tree_of n graph r = Some t)) in Hcs; [|intros; assumption].
    inversion Hty as [| | | | |ns cs0 i c payload Hi Hc Hval| | | |]; subst.
    by apply (variant_round n Hn' IHn L d r address HL Hreg Hlo (Variant cases) cs i c payload).
  - apply tree_some in Htree as (t' & Ht' & ->). inversion Hty as [| | | | | |t0 i c payload Hc Hi Hval| | |]; subst.
    apply (variant_round n Hn' IHn L d r address HL Hreg Hlo (Option_ pl) [None; Some t'] i c payload); try done; [by repeat constructor|by apply two_cases in Hc].
  - apply bind_Some in Htree as (a & Ha & Hb). apply bind_Some in Hb as (b & Hb & [= <-]).
    inversion Hty as [| | | | | | |a0 b0 i c payload Hc Hi Hval| |]; subst.
    apply (variant_round n Hn' IHn L d r address HL Hreg Hlo (Result ok error) [a; b] i c payload); try done; [|by apply two_cases in Hc].
    apply (parts_spec _ (tree_of n graph)); [|done]. cbn. rewrite Ha. cbn. by rewrite Hb.
  - injection Htree as <-. inversion Hty as [| | | | | | | |labels' i Hi Hi32|]; subst. by apply (lower_enum_spec L d r).
  - injection Htree as <-. apply andb_true_iff in Htv as [Hlab H32]. apply andb_true_iff in Hlab as [Hne _]. apply negb_true_iff, bool_decide_eq_false in Hne.
    apply negb_true_iff in H32. inversion Hty as [| | | | | | | | |labels' bits Hbits]; subst.
    apply (lower_flags_spec L d r); try done; [by apply nonempty_length|lia].
  - apply tree_some in Htree as (t' & _ & ->). inversion Hty.
Qed.

End Round.

End CanonicalRound.
