(* ===== verification/CanonicalFlat.v ===== *)
(** * Component values as core values (src/component_canonical.c)

    A value whose flat form is short enough crosses the boundary as the arguments or
    the result of a core function, one [turbowasm_value] for each carrier. Strings and
    lists still lie in the guest's memory, which a call without any may lack.

    A caller passes an array with room for [capacity] values; here a result is the
    list of those that were written, and the array of a call that fails is not seen. *)

From S2P Require Import Prelude Value ExecStack Memory Strings TypeGraph Canonical CanonicalValue.

Module CanonicalFlat.
Import Value ExecStack Memory Strings TypeGraph Canonical CanonicalValue.

(** ** Single values *)

Definition flat_pointer_value (ptype v : Z) : res turbowasm_value :=
  if ptype =? POINTER_I32 then if v >? UINT32_MAX then inl TURBOWASM_TRAPPED else mret (VI32 (s32 (u32 v)))
  else if ptype =? POINTER_I64 then mret (VI64 (s64 v))
  else inl TURBOWASM_INVALID_ARGUMENT.

Definition flat_pointer_read (ptype : Z) (v : turbowasm_value) : res Z :=
  if ptype =? POINTER_I32 then match v with VI32 i32 => mret (u32 i32) | _ => inl TURBOWASM_TYPE_MISMATCH end
  else if ptype =? POINTER_I64 then match v with VI64 i64 => mret (u64 i64) | _ => inl TURBOWASM_TYPE_MISMATCH end
  else inl TURBOWASM_INVALID_ARGUMENT.

Definition flat_type_value_kind (flat : turbowasm_component_flat_type) : turbowasm_value_kind :=
  match flat with
  | FLAT_I32 => TURBOWASM_VALUE_I32
  | FLAT_I64 => TURBOWASM_VALUE_I64
  | FLAT_F32 => TURBOWASM_VALUE_F32
  | FLAT_F64 => TURBOWASM_VALUE_F64
  end.

Definition zero_flat_value (type : turbowasm_component_flat_type) : turbowasm_value :=
  match type with FLAT_I32 => VI32 0 | FLAT_I64 => VI64 0 | FLAT_F32 => VF32 0 | FLAT_F64 => VF64 0 end.

(** From the carrier of a case to the one that all cases share. *)
Definition coerce_lower_variant_carrier (have want : turbowasm_component_flat_type) (input : turbowasm_value) : res turbowasm_value :=
  if negb (bool_decide (value_kind input = flat_type_value_kind have)) then inl TURBOWASM_TYPE_MISMATCH
  else if bool_decide (have = want) then mret input
  else match have, want, input with
       | FLAT_F32, FLAT_I32, VF32 bits => mret (VI32 (s32 bits))
       | FLAT_I32, FLAT_I64, VI32 i32 => mret (VI64 (s64 (u32 i32)))
       | FLAT_F32, FLAT_I64, VF32 bits => mret (VI64 (s64 bits))
       | FLAT_F64, FLAT_I64, VF64 bits => mret (VI64 (s64 bits))
       | _, _, _ => inl TURBOWASM_TYPE_MISMATCH
       end.

(** And back. *)
Definition coerce_lift_variant_carrier (have want : turbowasm_component_flat_type) (input : turbowasm_value) : res turbowasm_value :=
  if negb (bool_decide (value_kind input = flat_type_value_kind have)) then inl TURBOWASM_TYPE_MISMATCH
  else if bool_decide (have = want) then mret input
  else match have, want, input with
       | FLAT_I32, FLAT_F32, VI32 i32 => mret (VF32 (u32 i32))
       | FLAT_I64, FLAT_I32, VI64 i64 => mret (VI32 (s32 (u32 i64)))
       | FLAT_I64, FLAT_F32, VI64 i64 => mret (VF32 (u32 i64))
       | FLAT_I64, FLAT_F64, VI64 i64 => mret (VF64 (u64 i64))
       | _, _, _ => inl TURBOWASM_TYPE_MISMATCH
       end.

(** The carriers that all cases share: those of the case at hand, and zeros. *)
Fixpoint lower_carriers (have want : list turbowasm_component_flat_type) (values : list turbowasm_value) : res (list turbowasm_value) :=
  match want with
  | [] => mret []
  | w :: want =>
      match have, values with
      | h :: have, v :: values =>
          c ← coerce_lower_variant_carrier h w v;
          rest ← lower_carriers have want values;
          mret (c :: rest)
      | _, _ => rest ← lower_carriers have want values; mret (zero_flat_value w :: rest)
      end
  end.

Fixpoint lift_carriers (have want : list turbowasm_component_flat_type) (values : list turbowasm_value) : res (list turbowasm_value) :=
  match want, have, values with
  | w :: want, h :: have, v :: values =>
      c ← coerce_lift_variant_carrier h w v;
      rest ← lift_carriers have want values;
      mret (c :: rest)
  | _, _, _ => mret []
  end.

Section Flat.
Context {H O R : Type} (run_release : R -> H -> turbowasm_status * H).
Context (graph : turbowasm_component_type_graph) (memory : option turbowasm_component_canonical_memory).
Context (malloc_ok : Z -> bool) (sizeof_value : Z) (hooks : handle_hooks (H := H) (O := O) (R := R)).

Abbreviation value := (turbowasm_component_value O R).
Abbreviation cx := (cx H).

Definition flat_pointer_type : Z := match memory with Some cm => pointer_type cm | None => POINTER_I32 end.

(** The core value that a scalar kind expects. *)
Definition flat_scalar_bits (kind : turbowasm_component_type_kind) (v : turbowasm_value) : res Z :=
  match kind with
  | TYPE_BOOL | TYPE_S8 | TYPE_U8 | TYPE_S16 | TYPE_U16 | TYPE_S32 | TYPE_U32 | TYPE_CHAR =>
      match v with VI32 i32 => mret i32 | _ => inl TURBOWASM_TYPE_MISMATCH end
  | TYPE_S64 | TYPE_U64 => match v with VI64 i64 => mret i64 | _ => inl TURBOWASM_TYPE_MISMATCH end
  | TYPE_F32 => match v with VF32 bits => mret bits | _ => inl TURBOWASM_TYPE_MISMATCH end
  | TYPE_F64 => match v with VF64 bits => mret bits | _ => inl TURBOWASM_TYPE_MISMATCH end
  | _ => inl TURBOWASM_UNSUPPORTED
  end.

Definition lift_flat_scalar (kind : turbowasm_component_type_kind) (v : turbowasm_value) : res value :=
  bits ← flat_scalar_bits kind v;
  match kind with
  | TYPE_BOOL => if u32 bits >? 1 then inl TURBOWASM_TRAPPED else mret (V_scalar kind (if u32 bits =? 0 then 0 else 1))
  | TYPE_S8 => mret (V_scalar kind (to_signed 8 (u8 bits)))
  | TYPE_U8 => mret (V_scalar kind (u8 bits))
  | TYPE_S16 => mret (V_scalar kind (to_signed 16 (u16 bits)))
  | TYPE_U16 => mret (V_scalar kind (u16 bits))
  | TYPE_U32 => mret (V_scalar kind (u32 bits))
  | TYPE_U64 => mret (V_scalar kind (u64 bits))
  | TYPE_CHAR => if unicode_scalar_valid (u32 bits) then mret (V_scalar kind (u32 bits)) else inl TURBOWASM_TRAPPED
  | _ => mret (V_scalar kind bits)
  end.

Definition lower_flat_label_value (t : turbowasm_component_type) (v : value) : res turbowasm_value :=
  match t, v with
  | Enum labels, V_enum bits =>
      let count := Z.of_nat (length labels) in
      if (count =? 0) || (bits >=? count) then inl TURBOWASM_TYPE_MISMATCH else mret (VI32 (s32 bits))
  | Flags labels, V_flags bits =>
      let count := Z.of_nat (length labels) in
      if (count =? 0) || (count >? 32) || negb (bits .& Z.lnot (flags_valid_mask count) =? 0) then inl TURBOWASM_TYPE_MISMATCH
      else mret (VI32 (s32 bits))
  | _, _ => inl TURBOWASM_TYPE_MISMATCH
  end.

Definition lift_flat_label_value (t : turbowasm_component_type) (input : turbowasm_value) : res value :=
  match input with
  | VI32 i32 =>
      let bits := u32 i32 in
      match t with
      | Enum labels =>
          let count := Z.of_nat (length labels) in
          if (count =? 0) || (bits >=? count) then inl TURBOWASM_TRAPPED else mret (V_enum bits)
      | Flags labels =>
          let count := Z.of_nat (length labels) in
          if (count =? 0) || (count >? 32) || negb (bits .& Z.lnot (flags_valid_mask count) =? 0) then inl TURBOWASM_TRAPPED
          else mret (V_flags bits)
      | _ => inl TURBOWASM_INVALID_ARGUMENT
      end
  | _ => inl TURBOWASM_TYPE_MISMATCH
  end.

(** ** Strings and lists *)

(** [range] is [lower_string_range] or [lower_list_range]. *)
Definition lower_flat_dynamic_pair (range : turbowasm_component_canonical_memory -> value -> cx (Z * Z)) (v : value) (capacity : Z)
    : cx (list turbowasm_value) :=
  _ ← need (negb (capacity <? 2)) TURBOWASM_INVALID_ARGUMENT;
  match memory with
  | None => stop TURBOWASM_INVALID_ARGUMENT
  | Some cm =>
      _ ← canonical_memory_validate cm;
      '(pointer, length) ← range cm v;
      a ← pure (flat_pointer_value (pointer_type cm) pointer);
      b ← pure (flat_pointer_value (pointer_type cm) length);
      mret [a; b]
  end.

(** [range] is [lift_string_range] or [lift_list_range]. *)
Definition lift_flat_dynamic_pair (range : turbowasm_component_canonical_memory -> Z -> Z -> cx value) (values : list turbowasm_value) : cx value :=
  match values with
  | [a; b] =>
      match memory with
      | None => stop TURBOWASM_INVALID_ARGUMENT
      | Some cm =>
          _ ← canonical_memory_validate cm;
          pointer ← pure (flat_pointer_read (pointer_type cm) a);
          length ← pure (flat_pointer_read (pointer_type cm) b);
          range cm pointer length
      end
  | _ => stop TURBOWASM_TYPE_MISMATCH
  end.

(** ** Records, tuples and variants *)

(** The parts, one level further down. *)
Section Parts.
Context (flatten_inner : turbowasm_component_type_ref -> res (list turbowasm_component_flat_type)).
Context (lower_inner : turbowasm_component_type_ref -> value -> Z -> cx (list turbowasm_value)).
Context (lift_inner : turbowasm_component_type_ref -> list turbowasm_value -> cx value).

Fixpoint lower_flat_parts (refs : list turbowasm_component_type_ref) (items : list value) (capacity : Z) (out : list turbowasm_value)
    : cx (list turbowasm_value) :=
  match refs, items with
  | child :: refs, v :: items =>
      let cursor := Z.of_nat (length out) in
      _ ← need (negb (cursor >? capacity)) TURBOWASM_INVALID_ARGUMENT;
      part ← lower_inner child v (capacity - cursor);
      _ ← need (negb (Z.of_nat (length part) >? capacity - cursor)) TURBOWASM_INVALID_ARGUMENT;
      lower_flat_parts refs items capacity (out ++ part)
  | _, _ => mret out
  end.

Definition lower_flat_sequence (t : turbowasm_component_type) (v : value) (capacity : Z) : cx (list turbowasm_value) :=
  match as_sequence t v with
  | None => stop TURBOWASM_TYPE_MISMATCH
  | Some items =>
      _ ← need (negb (bool_decide (sequence_refs t = []))) TURBOWASM_MALFORMED_MODULE;
      _ ← need (bool_decide (length items = length (sequence_refs t))) TURBOWASM_TYPE_MISMATCH;
      lower_flat_parts (sequence_refs t) items capacity []
  end.

(** The items, and the values that are left over. *)
Fixpoint lift_flat_parts (refs : list turbowasm_component_type_ref) (values : list turbowasm_value) (items : list value)
    : cx (list value * list turbowasm_value) :=
  match refs with
  | [] => mret (items, values)
  | child :: refs =>
      '(v, values) ←
        or_else (flat ← pure (flatten_inner child);
                 _ ← need (negb (Z.of_nat (length flat) >? Z.of_nat (length values))) TURBOWASM_TYPE_MISMATCH;
                 v ← lift_inner child (take (length flat) values);
                 mret (v, drop (length flat) values))
          (discard run_release (rev items));
      lift_flat_parts refs values (items ++ [v])
  end.

Definition lift_flat_sequence (t : turbowasm_component_type) (values : list turbowasm_value) : cx value :=
  let count := Z.of_nat (length (sequence_refs t)) in
  _ ← need (negb (count =? 0)) TURBOWASM_MALFORMED_MODULE;
  _ ← need (negb (count >? SIZE_MAX / sizeof_value)) TURBOWASM_OUT_OF_MEMORY;
  _ ← need (malloc_ok (count * sizeof_value)) TURBOWASM_OUT_OF_MEMORY;
  '(items, rest) ← lift_flat_parts (sequence_refs t) values [];
  _ ← or_else (need (bool_decide (rest = [])) TURBOWASM_TYPE_MISMATCH) (discard run_release (rev items));
  mret (make_sequence t items).

(** [full] is the flat form of the variant itself. *)
Context (flatten_here : turbowasm_component_type_ref -> res (list turbowasm_component_flat_type)).

Definition lower_flat_variant (t : turbowasm_component_type) (ref : turbowasm_component_type_ref) (v : value) (capacity : Z)
    : cx (list turbowasm_value) :=
  match as_variant t v with
  | None => stop TURBOWASM_TYPE_MISMATCH
  | Some (case_index, payload) =>
      _ ← need (negb (case_index >=? variant_case_count t)) TURBOWASM_TYPE_MISMATCH;
      full ← pure (flatten_here ref);
      _ ← need (match full with FLAT_I32 :: _ => negb (capacity <? Z.of_nat (length full)) | _ => false end) TURBOWASM_INVALID_ARGUMENT;
      payload_type ← pure (variant_case_ref t case_index);
      '(have, values) ←
        match payload_type, payload with
        | None, None => mret ([], [])
        | Some p, Some v =>
            flat ← pure (flatten_inner p);
            values ← lower_inner p v MAX_LOWERED_PARAMS;
            _ ← need (bool_decide (length values = length flat) && (length values <=? length full - 1)%nat) TURBOWASM_MALFORMED_MODULE;
            mret (flat, values)
        | _, _ => stop TURBOWASM_TYPE_MISMATCH
        end;
      carriers ← pure (lower_carriers have (tail full) values);
      mret (VI32 (s32 case_index) :: carriers)
  end.

Definition lift_flat_variant (t : turbowasm_component_type) (ref : turbowasm_component_type_ref) (values : list turbowasm_value) : cx value :=
  full ← pure (flatten_here ref);
  _ ← need (bool_decide (length full = length values)) TURBOWASM_TYPE_MISMATCH;
  match values with
  | VI32 i32 :: carriers =>
      let case_index := u32 i32 in
      _ ← need (negb (case_index >=? variant_case_count t)) TURBOWASM_TRAPPED;
      payload_type ← pure (variant_case_ref t case_index);
      payload ← match payload_type with
                | None => mret None
                | Some p =>
                    flat ← pure (flatten_inner p);
                    _ ← need (length flat <=? length values - 1)%nat TURBOWASM_MALFORMED_MODULE;
                    payload_values ← pure (lift_carriers (tail full) flat carriers);
                    _ ← need (malloc_ok sizeof_value) TURBOWASM_OUT_OF_MEMORY;
                    v ← lift_inner p payload_values;
                    mret (Some v)
                end;
      _ ← or_else (need (bool_decide (map value_kind carriers = map flat_type_value_kind (tail full))) TURBOWASM_TYPE_MISMATCH)
            (discard run_release (match payload with Some v => [v] | None => [] end));
      mret (make_variant t case_index payload)
  | _ => stop TURBOWASM_TYPE_MISMATCH
  end.

End Parts.

(** ** Values *)

Abbreviation flatten := (canonical_flatten_type_inner graph flat_pointer_type).

Definition flat_handle {A} (f : turbowasm_component_canonical_memory -> cx A) : cx A :=
  match memory with None => stop TURBOWASM_UNSUPPORTED | Some cm => f cm end.

Fixpoint lower_flat_value_inner (fuel : nat) (ref : turbowasm_component_type_ref) (v : value) (capacity : Z) : cx (list turbowasm_value) :=
  match fuel with
  | 0%nat => stop TURBOWASM_INVALID_ARGUMENT
  | S fuel' =>
      let one (c : cx turbowasm_value) := _ ← need (negb (capacity <? 1)) TURBOWASM_INVALID_ARGUMENT; x ← c; mret [x] in
      t ← pure (resolved_kind graph ref);
      match t with
      | Scalar kind => one (pure (lower_flat_scalar kind v))
      | String_ => lower_flat_dynamic_pair lower_string_range v capacity
      | List_ element_type =>
          lower_flat_dynamic_pair (fun cm => lower_list_range graph cm (lower_value_inner graph cm hooks fuel') element_type) v capacity
      | Record_ _ | Tuple _ => lower_flat_sequence (lower_flat_value_inner fuel') t v capacity
      | Variant _ | Option_ _ | Result _ _ =>
          lower_flat_variant (flatten fuel') (lower_flat_value_inner fuel') (flatten fuel) t ref v capacity
      | Enum _ | Flags _ => one (pure (lower_flat_label_value t v))
      | Handle _ _ | Async _ _ =>
          one (handle ← flat_handle (fun _ => lower_handle graph hooks (match t with Async _ _ => true | _ => false end) ref v);
               mret (VI32 (s32 handle)))
      | _ => stop TURBOWASM_UNSUPPORTED
      end
  end.

Fixpoint lift_flat_value_inner (fuel : nat) (ref : turbowasm_component_type_ref) (values : list turbowasm_value) : cx value :=
  match fuel with
  | 0%nat => stop TURBOWASM_INVALID_ARGUMENT
  | S fuel' =>
      let one (f : turbowasm_value -> cx value) := match values with [x] => f x | _ => stop TURBOWASM_TYPE_MISMATCH end in
      t ← pure (resolved_kind graph ref);
      match t with
      | Scalar kind => one (fun x => pure (lift_flat_scalar kind x))
      | String_ => lift_flat_dynamic_pair (fun cm => lift_string_range cm malloc_ok) values
      | List_ element_type =>
          lift_flat_dynamic_pair (fun cm => lift_list_range run_release graph cm malloc_ok sizeof_value
            (lift_value_inner run_release graph cm malloc_ok sizeof_value hooks fuel') element_type) values
      | Record_ _ | Tuple _ => lift_flat_sequence (flatten fuel') (lift_flat_value_inner fuel') t values
      | Variant _ | Option_ _ | Result _ _ =>
          lift_flat_variant (flatten fuel') (lift_flat_value_inner fuel') (flatten fuel) t ref values
      | Enum _ | Flags _ => one (fun x => pure (lift_flat_label_value t x))
      | Handle _ _ | Async _ _ =>
          one (fun x => match x with
                        | VI32 i32 => flat_handle (fun _ => lift_handle graph hooks (match t with Async _ _ => true | _ => false end) ref (u32 i32))
                        | _ => stop TURBOWASM_TYPE_MISMATCH
                        end)
      | _ => stop TURBOWASM_UNSUPPORTED
      end
  end.

Definition turbowasm_component_canonical_lower_flat_value (ref : turbowasm_component_type_ref) (v : value) (capacity : Z)
    : cx (list turbowasm_value) :=
  _ ← need (negb (capacity =? 0)) TURBOWASM_INVALID_ARGUMENT;
  flat ← pure (flatten CANONICAL_MAX_DEPTH ref);
  _ ← need (negb (Z.of_nat (length flat) >? capacity)) TURBOWASM_INVALID_ARGUMENT;
  out ← lower_flat_value_inner CANONICAL_MAX_DEPTH ref v capacity;
  _ ← need (bool_decide (length out = length flat)) TURBOWASM_MALFORMED_MODULE;
  mret out.

Definition turbowasm_component_canonical_lift_flat_value (ref : turbowasm_component_type_ref) (values : list turbowasm_value) : cx value :=
  flat ← pure (flatten CANONICAL_MAX_DEPTH ref);
  _ ← need (bool_decide (length flat = length values)) TURBOWASM_TYPE_MISMATCH;
  lift_flat_value_inner CANONICAL_MAX_DEPTH ref values.

End Flat.

End CanonicalFlat.
