(* ===== verification/ValueRoundtrip.v ===== *)
(** * A value goes into a guest's memory and comes back

    The theorem on [turbowasm_component_canonical_lower_value] and
    [turbowasm_component_canonical_lift_value], and a guest with a [realloc] that
    keeps what [GuestHeap] asks for: it takes every block from fresh pages. *)

From S2P Require Import Prelude Value ExecStack Memory Unicode Strings StringCodec StringSpec StringLower.
From S2P Require Import TypeGraph TypeTrees Canonical CanonicalSpec CanonicalValue CanonicalHeap CanonicalRound.

Module ValueRoundtrip.
Import ExecStack Memory Strings StringCodec StringSpec StringLower TypeGraph TypeTrees Canonical CanonicalSpec CanonicalValue CanonicalHeap CanonicalRound.

#[local] Strategy expand [turbowasm_component_canonical_layout turbowasm_component_canonical_lift_value turbowasm_component_canonical_lower_value].
#[local] Strategy 100 [lift_value_inner lower_value_inner canonical_layout_inner tree_of].

(** ** A heap that grows *)

Lemma agree_grow P d x : (forall i, P i -> i < zlen d) -> agree P d (d ++ x).
Proof.
  intros HP. split; [rewrite length_app; lia|]. intros i Hi HPi. specialize (HP i HPi). symmetry. apply lookup_app_l. lia.
Qed.

Lemma apart_comm r s : apart r s -> apart s r.
Proof. unfold apart. lia. Qed.

Lemma apart_order L L' : L ≡ₚ L' -> ForallOrdPairs apart L -> ForallOrdPairs apart L'.
Proof.
  induction 1 as [|x L L' HL IH|x y L|L L' L'' _ IH1 _ IH2]; intros Hp; [done| | |auto].
  - inversion Hp as [|? ? Hx HpL]; subst. constructor; [|by apply IH]. by eapply Permutation_Forall.
  - inversion Hp as [|? ? Hy HpL]; subst. inversion HpL as [|? ? Hx HpL']; subst. inversion Hy as [|? ? Hyx Hy']; subst.
    constructor; [constructor; [by apply apart_comm|done]|by constructor].
Qed.

Section Growing.
Context (realloc_ok : Z -> bool).

(** The block lies behind all that the memory had. *)
Definition growing_realloc (inst : nat) (k : Z) : realloc_fn := fun w p n a n' =>
  match memory_locate w inst k with
  | inl status => (status, 0, w)
  | inr (_, m) =>
      let p' := align_to (zlen (data m)) 8 in
      if p' >? UINT32_MAX then (TURBOWASM_TRAPPED, 0, w)
      else match turbowasm_instance_memory_grow64 realloc_ok w inst k ((p' + n' - zlen (data m) + page_size m - 1) / page_size m) with
           | (TURBOWASM_OK, w', previous) =>
               if previous =? UINT64_MAX then (TURBOWASM_TRAPPED, 0, w')
               else let '(status, w'') := turbowasm_instance_memory_write_bytes w' inst k p' 0 (slice (data m) p (Z.min n n')) in
                    (status, p', w'')
           | (status, w', _) => (status, 0, w')
           end
  end.

Context (cm : turbowasm_component_canonical_memory) (Hk : 0 <= cm_memory cm).

Abbreviation impl := (default 0%nat (cm_instance cm)).

(** The regions in use lie in the memory, apart from each other. *)
Definition growing_live (w : store) (L : list (Z * Z)) : Prop := exists d, mem cm w d /\ regions L d.

(** The guest's memory after it has grown. *)
Lemma mem_grow w d delta w' previous : mem cm w d -> is_uint 64 delta ->
  turbowasm_instance_memory_grow64 realloc_ok w impl (cm_memory cm) delta = (TURBOWASM_OK, w', previous) -> previous <> UINT64_MAX ->
  exists loc m, memory_locate w impl (cm_memory cm) = inr (loc, m) /\ mem cm w' (d ++ replicate (Z.to_nat (delta * page_size m)) 0).
Proof using Hk.
  intros (Hw & H64 & loc & m & Hl & Hsh & <-) Hd. destruct (memory_locate_spec _ _ _ _ _ Hl Hk Hw) as (_ & Hat & Hm).
  unfold turbowasm_instance_memory_grow64. rewrite Hl. destruct (memory_grow realloc_ok m delta) as [m'|] eqn:Hg; intros [= <- <-] Hne; [|done].
  destruct (grow_effect _ _ _ _ Hm Hd Hg) as (Hm' & _ & Hdata & _ & Hs & _). exists loc, m. split; [done|]. split; [by eapply put_wf|].
  split; [by rewrite (shape_memory64 cm _ _ (put_shape _ _ _))|]. exists loc, m'.
  split; [by rewrite (put_locate _ _ _ m' _ _ _ _ Hat Hl), decide_True|]. split; [by rewrite Hs|done].
Qed.

(** The new block, and what was there before. *)
Lemma growing_keeps w p n L a n' p' w' d : regions ((p, n) :: L) d -> mem cm w d -> 0 <= n' <= UINT32_MAX ->
  growing_realloc impl (cm_memory cm) w p n a n' = (TURBOWASM_OK, p', w') ->
  p' = align_to (zlen d) 8 /\ p' <= UINT32_MAX /\
  exists d', mem cm w' d' /\ p' + n' <= zlen d' /\ agree (covers L) d d' /\ slice d' p' (Z.min n n') = slice d p (Z.min n n').
Proof using Hk.
  intros [Hin _] Hd Hn'. inversion Hin as [|? ? (Hp & Hn & Hpn) HinL]; subst. cbn [fst snd] in *. pose proof (mem_size cm Hk _ _ Hd) as [Hmax Hb].
  unfold growing_realloc. destruct (proj2 (proj2 Hd)) as (loc & m & Hl & Hsh & Hdm). rewrite Hl, Hdm. cbv zeta.
  destruct (memory_locate_spec _ _ _ _ _ Hl Hk (proj1 Hd)) as (_ & Hat & Hm). pose proof (mw_page _ Hm) as Hpage.
  destruct (align_to_spec (zlen d) 8 eq_refl) as [Ha _]. set (q := align_to (zlen d) 8) in Ha |- *.
  destruct (Z.gtb_spec q UINT32_MAX) as [|Hq]; [done|]. set (x := q + n' - zlen d). set (delta := (x + page_size m - 1) / page_size m).
  assert (Hdelta : x <= delta * page_size m /\ 0 <= delta <= x).
  { pose proof (Z.div_mod (x + page_size m - 1) (page_size m) ltac:(lia)) as E. fold delta in E.
    pose proof (Z.mod_pos_bound (x + page_size m - 1) (page_size m) ltac:(lia)) as Hr.
    split; [nia|]. split; [apply Z.div_pos; lia|]. destruct (Z.eq_dec x 0) as [->|Hx]; [rewrite Z.add_0_l in E, Hr; nia|nia]. }
  destruct (turbowasm_instance_memory_grow64 _ _ _ _ _) as [[[] w1] previous] eqn:Hg; try done. destruct (Z.eqb_spec previous UINT64_MAX) as [|Hprev]; [done|].
  destruct (mem_grow w d delta w1 previous Hd) as (loc' & m' & Hl' & Hd1); [unfold is_uint, UINT32_MAX, x in *; lia|done|done|].
  rewrite Hl in Hl'. injection Hl' as <- <-. set (d1 := d ++ _) in Hd1.
  assert (Hlen1 : zlen d1 = zlen d + delta * page_size m) by (unfold d1; rewrite length_app, length_replicate; lia).
  assert (Hs : zlen (slice d p (Z.min n n')) = Z.min n n') by (rewrite slice_length; lia).
  destruct (mem_write cm Hk w1 d1 q (slice d p (Z.min n n')) Hd1) as (w2 & E & Hd2); [lia|unfold x in *; lia|by apply slice_bytes_ok|].
  rewrite E. intros [= <- <-]. split; [done|]. split; [done|]. exists (splice d1 q (slice d p (Z.min n n'))). split; [done|].
  assert (Hroom : q + Z.min n n' <= zlen d1) by (unfold x in *; lia).
  split; [rewrite splice_length by (rewrite ?Hs; lia); unfold x in *; lia|]. split.
  - assert (Hold : forall i, covers L i -> i < zlen d).
    { intros i (r & Hr & Hi). rewrite Forall_forall in HinL. destruct (HinL r Hr) as (_ & _ & ?). unfold within in Hi. lia. }
    eapply agree_trans; [by apply agree_grow|]. eapply agree_mono; [|apply splice_agree; rewrite ?Hs; lia].
    intros i _ Hi. specialize (Hold i Hi). unfold within. lia.
  - pose proof (slice_splice_same d1 q (slice d p (Z.min n n')) ltac:(lia)) as Hsame. rewrite Hs in Hsame. apply Hsame. lia.
Qed.

#[export] Instance growing_heap : GuestHeap cm (growing_realloc impl (cm_memory cm)).
Proof using Hk.
  refine {| live := growing_live |}.
  - intros w L (d & Hd & Hin & Hp). split; [by exists d|done].
  - intros w L L' HL (d & Hd & Hin & Hp). exists d. split; [done|]. split; [by rewrite <- HL|by eapply apart_order].
  - intros w L (d & Hd & Hin & Hp). exists d. split; [done|]. split; constructor; try done; [unfold inside; simpl; lia|].
    apply List.Forall_forall. intros s _. by left.
  - intros w L p n off x w' (d & Hd & HL) Hin Ho Hx Hb E. pose proof HL as [HinL Hp]. rewrite Forall_forall in HinL.
    destruct (HinL _ Hin) as (H0 & _ & H1). cbn [fst snd] in *. destruct (mem_write cm Hk w d (p + off) x Hd) as (w2 & E2 & Hd2); [lia|lia|done|].
    rewrite E in E2. injection E2 as <-. exists (splice d (p + off) x). split; [done|]. split; [|done]. apply Forall_forall. intros r Hr.
    destruct (HinL _ Hr) as (? & ? & ?). unfold inside. rewrite splice_length by lia. lia.
  - intros w p n L a n' p' w' d (d0 & Hd0 & HL) Hd Hn' E. rewrite (mem_unique cm _ _ _ Hd0 Hd) in HL.
    destruct (growing_keeps w p n L a n' p' w' d HL Hd Hn' E) as (Hp' & H32 & d' & Hd' & Hroom & Hag & Hsame).
    destruct (align_to_spec (zlen d) 8 eq_refl) as [Ha H8]. rewrite <- Hp' in Ha, H8. destruct HL as [Hin Hp]. inversion Hin as [|? ? _ HinL]; subst.
    inversion Hp as [|? ? _ HpL]; subst. apply Z.mod_divide in H8; [|done].
    assert (Hdiv : forall b, (b | 8) -> b <> 0 -> align_to (zlen d) 8 mod b = 0) by (intros b Hb Hb0; apply Z.mod_divide; [done|by eapply Z.divide_trans]).
    split; [|split; [|split; [done|by exists d']]].
    + exists d'. split; [done|]. rewrite Forall_forall in HinL. split; constructor.
      * unfold inside. cbn [fst snd]. lia.
      * apply Forall_forall. intros r Hr. destruct (HinL _ Hr) as (? & ? & ?), Hag. unfold inside. lia.
      * apply List.Forall_forall. intros s Hs%list_elem_of_In. destruct (HinL _ Hs) as (? & ? & ?). unfold apart. cbn [fst snd]. lia.
      * done.
    + intros Hpow. apply Hdiv; [|apply power_positive in Hpow; lia]. destruct Hpow as [->|[->|[->| ->]]]; apply Z.mod_divide; done.
Defined.

End Growing.

(** ** The round trip *)

Section Place.
Context (cm : turbowasm_component_canonical_memory) (Hk : 0 <= cm_memory cm) (Hvalid : memory_valid cm = true) {H : Type}.

Lemma reads_validate d (Q : unit -> Prop) : Q tt -> reads cm (H := H) d (canonical_memory_validate cm) Q.
Proof using Hvalid.
  intros HQ w h Hd. exists tt. split; [|done]. unfold canonical_memory_validate. rewrite Hvalid. cbn [negb w_store].
  by rewrite (proj1 (proj2 Hd)), Bool.eqb_reflx.
Qed.

(** The checks on a whole value. *)
Lemma value_place_spec graph ref t d address : turbowasm_component_canonical_layout graph (pointer_type cm) ref =
    inr (mk_layout (tree_alignment (pointer_size (pointer_type cm)) t) (tree_size (pointer_size (pointer_type cm)) t)) ->
  0 < tree_alignment (pointer_size (pointer_type cm)) t -> 0 <= tree_size (pointer_size (pointer_type cm)) t ->
  address mod tree_alignment (pointer_size (pointer_type cm)) t = 0 -> 0 <= address -> address + tree_size (pointer_size (pointer_type cm)) t <= zlen d ->
  reads cm (H := H) d (value_place graph cm ref address) (fun _ => True).
Proof using Hk Hvalid.
  intros Hlay Ha Hs Hal H0 Hin. apply (reads_size cm Hk). intros Hmax. unfold value_place. apply reads_then. apply reads_validate.
  apply reads_then. eapply reads_pure; [exact Hlay|]. cbn [alignment size]. rewrite Hal, (proj2 (Z.eqb_neq _ 0)) by lia.
  rewrite Z.gtb_ltb, (proj2 (Z.ltb_ge _ _)) by lia. cbn [negb orb Z.eqb need]. apply reads_then, reads_done. by apply reads_bounds.
Qed.

End Place.

(** C10. A value of a type without handles that is lowered into a guest's memory is
    lifted from there again, whatever it is made of: scalars, strings, lists, records,
    tuples, variants, options, results, enumerations and flags, nested as deep as the
    runtime admits. The text of strings comes back, not the encoding they came from.
    The bytes of all other blocks that the guest has in use stay as they are, the host's
    state does not change, and when the value is not lowered, it is because the guest's
    [realloc] failed or gave a block out of bounds. The host's allocations are taken to
    succeed, strings to have at most half the limit on their size, lists to stay within
    theirs; [realloc] gives blocks that are apart, aligned as asked, and hold what the old
    ones held. Where [realloc] may answer a request without an alignment with an odd
    address in a guest with compact strings, strings that came as UTF-16 from such a guest
    are left out: [string_roundtrip] has what becomes of them. *)
Theorem value_roundtrip {H O R} cm f (GH : GuestHeap cm f) run_release malloc_ok sizeof_value (hooks : handle_hooks (H := H) (O := O) (R := R))
    graph ref t (v : turbowasm_component_value O R) L address d w h :
  turbowasm_component_type_graph_validate graph = true -> memory_valid cm = true -> 0 <= cm_memory cm -> guest_realloc cm = Some f ->
  (forall n, malloc_ok n = true) -> 0 < sizeof_value <= 65536 ->
  tree_of VALUE_MAX_DEPTH graph ref = Some t -> has_type cm f t v ->
  live cm w ((address, tree_size (pointer_size (pointer_type cm)) t) :: L) -> mem cm w d ->
  address mod tree_alignment (pointer_size (pointer_type cm)) t = 0 ->
  match turbowasm_component_canonical_lower_value graph cm hooks ref address v (mk_world w h) with
  | (inr _, u) => w_host u = h /\
      (exists v', turbowasm_component_canonical_lift_value run_release graph cm malloc_ok sizeof_value hooks ref address u = (inr v', u) /\ norm v' = norm v) /\
      exists d', mem cm (w_store u) d' /\ agree (covers L) d d'
  | (inl status, _) => refused cm f status
  end.
Proof.
  intros Hv Hvalid Hk Hf Hmalloc Hsizeof Ht Hty Hl Hd Hal. set (ptr := pointer_size (pointer_type cm)) in *.
  pose proof (live_ok _ _ _ _ Hl Hd) as HL. destruct (region_bounds _ _ (address, tree_size ptr t) HL) as (H0 & Hs & Hin); [by left|]. cbn [fst snd] in *.
  pose proof (mem_size cm Hk _ _ Hd) as [Hmax _]. unfold SIZE_MAX in Hmax.
  destruct (tree_laid_out cm Hvalid graph Hv VALUE_MAX_DEPTH ref t) as (Hlay & Hpow & _); [done|done|fold ptr; lia|]. apply power_positive in Hpow.
  pose proof (values_round cm Hk Hvalid f Hf malloc_ok Hmalloc run_release graph Hv sizeof_value Hsizeof hooks VALUE_MAX_DEPTH (le_n _) ref t Ht
    v _ d address (address, tree_size ptr t) Hty HL ltac:(by left) ltac:(done) ltac:(done) Hal w h Hl Hd) as Hround.
  destruct (value_place_spec cm Hk Hvalid graph ref t d address Hlay Hpow Hs Hal H0 Hin w h Hd) as (u1 & E1 & _).
  unfold turbowasm_component_canonical_lower_value, turbowasm_component_canonical_lift_value. rewrite one_depth.
  unfold mbind at 1, cx_bind. rewrite E1. destruct (lower_value_inner _ _ _ _ _ _ _ _) as [[e|a] [w' h']]; [exact Hround|].
  cbn [w_store w_host] in Hround |- *. destruct Hround as (-> & L' & d' & Hl' & Hd' & Hag & Hst). split; [done|]. fold ptr in Hst. pose proof (proj1 Hag) as Hgrown. split.
  - destruct (value_place_spec cm Hk Hvalid graph ref t d' address Hlay Hpow Hs Hal H0 (Z.le_trans _ _ _ Hin Hgrown) w' h Hd') as (u2 & E2 & _).
    destruct (Hst d' (agree_self _ _) w' h Hd') as (v' & E & Hnv). exists v'. split; [|done]. unfold mbind, cx_bind. by rewrite E2.
  - exists d'. split; [done|]. eapply agree_mono; [|exact Hag]. intros i _ Hi. split; [by apply (covers_app [(address, tree_size ptr t)] L i); right|].
    intros Hw. destruct Hi as (r & Hr & Hi). destruct HL as [_ Hp]. eapply (apart_within (address, tree_size ptr t) r i); [|done|done].
    by eapply (pairs_app [(address, tree_size ptr t)] L Hp); [left|].
Qed.

(** *** An example *)

(** A record of a number, a list of variants and flags. *)
Definition guest_graph : turbowasm_component_type_graph :=
  [ Variant [mk_case [110] None; mk_case [102] (Some (REF_INLINE TYPE_S16)); mk_case [116] (Some (REF_INLINE TYPE_STRING))];
    List_ (REF_INDEXED 0); Flags [[97]; [98]; [99]];
    Record_ [mk_field [97] (REF_INLINE TYPE_U8); mk_field [98] (REF_INDEXED 1); mk_field [99] (REF_INDEXED 2)] ].

Definition guest_tree : tree :=
  TRecord [[97]; [98]; [99]] [TScalar TYPE_U8;
    TList (TVariant [[110]; [102]; [116]] [None; Some (TScalar TYPE_S16); Some TString]); TFlags [[97]; [98]; [99]]].

Definition guest_value : turbowasm_component_value unit unit :=
  V_record [V_scalar TYPE_U8 200;
    V_list [V_variant 1 (Some (V_scalar TYPE_S16 (-5))); V_variant 2 (Some (V_string text_string)); V_variant 0 None]; V_flags 5].

(** A guest with four small pages. *)
Definition guest_store : store :=
  [mk_instance [mk_memory (replicate 64 0) 4 4096 16 0 true false false true] [mk_vmemory false false] [None] [] []].

Definition guest_canonical : turbowasm_component_canonical_memory :=
  mk_canonical (Some 0%nat) 0 POINTER_I32 STRING_LATIN1_UTF16 (Some (growing_realloc (fun _ => true) 0 0)).

Definition no_hooks : handle_hooks (H := unit) (O := unit) (R := unit) := mk_hooks None None None None.

Lemma guest_graph_validates : turbowasm_component_type_graph_validate guest_graph = true.
Proof. vm_compute. reflexivity. Qed.

Lemma guest_graph_tree : tree_of VALUE_MAX_DEPTH guest_graph (REF_INDEXED 3) = Some guest_tree.
Proof. vm_compute. reflexivity. Qed.

Lemma guest_value_typed : has_type guest_canonical (growing_realloc (fun _ => true) 0 0) guest_tree guest_value.
Proof.
  apply has_record; [|vm_compute; discriminate]. apply Forall2_cons_2; [apply has_scalar; by split|]. apply Forall2_cons_2.
  - apply has_list; [|split; vm_compute; discriminate].
    apply Forall_cons_2; [|apply Forall_cons_2; [|apply Forall_cons_2; [|apply Forall_nil_2]]].
    + eapply has_variant; [split; vm_compute; discriminate|reflexivity|]. apply case_some, has_scalar. split; vm_compute; [discriminate|reflexivity].
    + eapply has_variant; [split; vm_compute; discriminate|reflexivity|]. apply case_some, has_string; [|apply text_string_valid|split; [vm_compute; discriminate|intros Ho; discriminate Ho]].
      split; [|reflexivity|vm_compute; discriminate]. repeat apply Forall_cons_2; try apply Forall_nil_2; by split.
    + eapply has_variant; [split; vm_compute; discriminate|reflexivity|]. apply case_none.
  - apply Forall2_cons_2; [|apply Forall2_nil_2]. apply has_flags. by split.
Qed.

Lemma guest_store_memory : mem guest_canonical guest_store (replicate 64 0).
Proof.
  split; [|split; [reflexivity|by eexists _, _]]. intros [|] i Hi; [|done]. injection Hi as <-. split; [|by intros [|]|constructor].
  intros [|] m vm Hm Hv _; [|done]. injection Hm as <-. split; [done|done|by split|done|done|]. apply (Forall_replicate (is_uint 8) 64 0). by split.
Qed.

Lemma guest_lowers : fst (turbowasm_component_canonical_lower_value guest_graph guest_canonical no_hooks (REF_INDEXED 3) 16 guest_value
  (mk_world guest_store tt)) = inr tt.
Proof. vm_compute. reflexivity. Qed.

Lemma value_roundtrip_witness : exists u v',
  turbowasm_component_canonical_lower_value guest_graph guest_canonical no_hooks (REF_INDEXED 3) 16 guest_value (mk_world guest_store tt) = (inr tt, u) /\
  turbowasm_component_canonical_lift_value (fun _ h => (TURBOWASM_OK, h)) guest_graph guest_canonical (fun _ => true) 64 no_hooks (REF_INDEXED 3) 16 u = (inr v', u) /\
  norm v' = norm guest_value.
Proof.
  pose proof (value_roundtrip guest_canonical (growing_realloc (fun _ => true) 0 0) (growing_heap (fun _ => true) guest_canonical (Z.le_refl 0))
    (fun _ h => (TURBOWASM_OK, h)) (fun _ => true) 64 no_hooks guest_graph (REF_INDEXED 3) guest_tree guest_value [(0, 16)] 16 (replicate 64 0) guest_store tt
    guest_graph_validates eq_refl (Z.le_refl 0) eq_refl (fun _ => eq_refl) ltac:(lia) guest_graph_tree guest_value_typed) as H.
  pose proof guest_lowers as E. destruct (turbowasm_component_canonical_lower_value _ _ _ _ _ _ _) as [[e|[]] u]; [discriminate|].
  destruct H as (_ & (v' & Hlift & Hnorm) & _); [|exact guest_store_memory|reflexivity|].
  - exists (replicate 64 0). split; [exact guest_store_memory|]. split.
    + repeat apply Forall_cons_2; try apply Forall_nil_2; by split.
    + apply FOP_cons; [|apply FOP_cons; [constructor|constructor]]. constructor; [|constructor]. right. right. right. done.
  - exists u, v'. split; [reflexivity|]. split; [exact Hlift|exact Hnorm].
Defined.

End ValueRoundtrip.
