(* ===== verification/FlatRoundtrip.v ===== *)
(** * A value becomes core values and comes back

    The theorem on [turbowasm_component_canonical_lower_flat_value] and
    [turbowasm_component_canonical_lift_flat_value]: the core values have the types of
    the flat form, and stand for the value that was lowered. *)

From S2P Require Import Prelude Value ExecStack Memory Unicode Strings StringCodec StringSpec StringLower.
From S2P Require Import TypeGraph TypeTrees Canonical CanonicalSpec CanonicalValue CanonicalHeap CanonicalRound CanonicalFlat ValueRoundtrip.

Module FlatRoundtrip.
Import Value ExecStack Memory Strings StringCodec StringSpec StringLower TypeGraph TypeTrees Canonical CanonicalSpec CanonicalValue CanonicalHeap CanonicalRound CanonicalFlat ValueRoundtrip.

(** ** Carriers *)

(** A core value of the type of a carrier, with a number that its member can hold. *)
Definition carried (f : turbowasm_component_flat_type) (v : turbowasm_value) : Prop :=
  match f, v with
  | FLAT_I32, VI32 x => is_sint 32 x
  | FLAT_I64, VI64 x => is_sint 64 x
  | FLAT_F32, VF32 x => is_uint 32 x
  | FLAT_F64, VF64 x => is_uint 64 x
  | _, _ => False
  end.

Lemma carried_kind f v : carried f v -> value_kind v = flat_type_value_kind f.
Proof. by destruct f, v. Qed.

Lemma carried_kinds fs vs : Forall2 carried fs vs -> map value_kind vs = map flat_type_value_kind fs.
Proof. induction 1 as [|f v fs vs Hv _ IH]; [done|]. cbn [map]. by rewrite IH, (carried_kind f v Hv). Qed.

(** The bits of [a] fit into [b]. *)
Definition absorbs (b a : turbowasm_component_flat_type) : Prop :=
  match a, b with
  | FLAT_F32, (FLAT_F32 | FLAT_I32 | FLAT_I64) | FLAT_I32, (FLAT_I32 | FLAT_I64) | FLAT_F64, (FLAT_F64 | FLAT_I64) | FLAT_I64, FLAT_I64 => True
  | _, _ => False
  end.

Lemma wide_signed x : is_uint 32 x -> s64 x = x /\ is_sint 64 x /\ u32 x = x.
Proof.
  unfold is_uint. intros Hx. split; [|split; [unfold is_sint; lia|by apply wrap_id]]. unfold to_signed.
  change (2 ^ (64 - 1)) with 9223372036854775808. destruct (Z.ltb_spec x 9223372036854775808); lia.
Qed.

(** Nothing is lost on the way into a wider carrier. *)
Lemma coerce_back have want v : absorbs want have -> carried have v -> exists c,
  coerce_lower_variant_carrier have want v = inr c /\ carried want c /\ coerce_lift_variant_carrier want have c = inr v.
Proof.
  intros Hab Hv. unfold coerce_lower_variant_carrier. rewrite (carried_kind _ _ Hv), bool_decide_eq_true_2 by done. cbn [negb].
  destruct have, want; try done; destruct v as [x|x|x|x| | | | | | |]; try done; cbn [carried] in Hv; eexists; (split; [reflexivity|]);
    unfold coerce_lift_variant_carrier; cbn; try done.
  - pose proof (wrap_range 32 x ltac:(lia)) as Hu. destruct (wide_signed _ Hu) as (-> & Hs & ->). split; [done|]. by rewrite to_signed_wrap.
  - split; [by apply to_signed_range|]. by rewrite wrap_to_signed.
  - destruct (wide_signed _ Hv) as (-> & Hs & ->). done.
  - split; [by apply to_signed_range|]. by rewrite wrap_to_signed.
Qed.

(** The carriers of one case, under those that all share. *)
Inductive under : list turbowasm_component_flat_type -> list turbowasm_component_flat_type -> Prop :=
  | under_nil k : under [] k
  | under_cons a b l k : absorbs b a -> under l k -> under (a :: l) (b :: k).

Lemma absorbs_refl a : absorbs a a.
Proof. by destruct a. Qed.

Lemma absorbs_trans c b a : absorbs b a -> absorbs c b -> absorbs c a.
Proof. by destruct a, b, c. Qed.

Lemma absorbs_join a b : absorbs (join a b) a /\ absorbs (join a b) b.
Proof. by destruct a, b. Qed.

Lemma under_refl l : under l l.
Proof. induction l; constructor; [apply absorbs_refl|done]. Qed.

Lemma under_trans l k m : under l k -> under k m -> under l m.
Proof.
  intros Hl. revert m. induction Hl as [|a b l k Hab _ IH]; intros m Hm; [constructor|]. inversion Hm as [|? c ? m' Hbc Hk]; subst.
  constructor; [by eapply absorbs_trans|by apply IH].
Qed.

Lemma under_join l : forall k, under l (join_flats l k) /\ under k (join_flats l k).
Proof.
  induction l as [|a l IH]; intros [|b k]; cbn [join_flats]; [split; constructor|split; [constructor|apply under_refl]|split; [apply under_refl|constructor]|].
  destruct (IH k), (absorbs_join a b). by split; constructor.
Qed.

Lemma under_cases ls l : l ∈ ls -> forall acc, under l (fold_left join_flats ls acc).
Proof.
  assert (Hacc : forall ls acc, under acc (fold_left join_flats ls acc)).
  { clear. intros ls. induction ls as [|k ls IH]; intros acc; [apply under_refl|]. eapply under_trans; [apply (under_join acc k)|apply IH]. }
  induction ls as [|k ls IH]; intros Hl acc; [by apply elem_of_nil in Hl|]. cbn [fold_left].
  apply elem_of_cons in Hl as [->|Hl]; [|by apply IH]. eapply under_trans; [apply (under_join acc k)|apply Hacc].
Qed.

Lemma under_length l k : under l k -> (length l <= length k)%nat.
Proof. induction 1; simpl; lia. Qed.

Lemma zero_carried f : carried f (zero_flat_value f).
Proof. destruct f; by split. Qed.

(** The carriers of a case and back. *)
Lemma carriers_back have want vs : under have want -> Forall2 carried have vs -> exists cs,
  lower_carriers have want vs = inr cs /\ Forall2 carried want cs /\ lift_carriers want have cs = inr vs.
Proof.
  intros Hu. revert vs. induction Hu as [want|a b have want Hab _ IH]; intros vs Hvs.
  - inversion Hvs; subst. clear Hvs. induction want as [|w want (cs & E & Hcs & _)]; [by exists []|].
    exists (zero_flat_value w :: cs). cbn [lower_carriers]. rewrite E. split; [done|]. split; [|done]. constructor; [apply zero_carried|done].
  - inversion Hvs as [|? v ? vs' Hv Hvs']; subst. destruct (IH vs' Hvs') as (cs & E & Hcs & E'). destruct (coerce_back a b v Hab Hv) as (c & Ec & Hc & Ec').
    exists (c :: cs). cbn [lower_carriers lift_carriers]. rewrite Ec. cbn [mbind res_bind]. rewrite E. split; [done|]. split; [by constructor|].
    rewrite Ec'. cbn [mbind res_bind]. by rewrite E'.
Qed.

(** ** Single values *)

Section Single.
Context {O R : Type}.

Abbreviation value := (turbowasm_component_value O R).

Lemma flat_scalar_back kind x : scalar_range kind x -> exists c, lower_flat_scalar kind (V_scalar kind x : value) = inr c /\
  carried (scalar_carrier kind) c /\ lift_flat_scalar kind c = inr (V_scalar kind x : value).
Proof using.
  assert (Hs : forall w, 0 < w <= 32 -> is_sint w x -> is_sint 32 x).
  { intros w Hw [H1 H2]. assert (2 ^ (w - 1) <= 2 ^ (32 - 1)) by (apply Z.pow_le_mono_r; lia). split; lia. }
  assert (Hu : forall w, 0 < w < 32 -> is_uint w x -> is_sint 32 x).
  { intros w Hw [H1 H2]. assert (2 ^ w <= 2 ^ (32 - 1)) by (apply Z.pow_le_mono_r; lia). split; lia. }
  unfold lower_flat_scalar, lift_flat_scalar. rewrite bool_decide_eq_true_2 by done. cbn [negb].
  destruct kind; cbn [scalar_range]; try done; intros Hx; cbn [scalar_carrier].
  - destruct Hx as [-> | ->]; eexists; (split; [reflexivity|]); by split.
  - eexists. split; [reflexivity|]. split; [by apply (Hs 8)|]. cbn. by rewrite to_signed_wrap.
  - eexists. split; [reflexivity|]. split; [by apply (Hu 8)|]. cbn. by rewrite wrap_id.
  - eexists. split; [reflexivity|]. split; [by apply (Hs 16)|]. cbn. by rewrite to_signed_wrap.
  - eexists. split; [reflexivity|]. split; [by apply (Hu 16)|]. cbn. by rewrite wrap_id.
  - eexists. split; [reflexivity|]. split; [done|]. done.
  - eexists. split; [reflexivity|]. split; [by apply to_signed_range|]. cbn. by rewrite wrap_to_signed.
  - eexists. split; [reflexivity|]. split; [done|]. done.
  - eexists. split; [reflexivity|]. split; [by apply to_signed_range|]. cbn. by rewrite wrap_to_signed.
  - eexists. split; [reflexivity|]. split; [done|]. done.
  - eexists. split; [reflexivity|]. split; [done|]. done.
  - apply char_valid in Hx as [H0 Hc]. rewrite Hc. assert (Hx : is_uint 32 x).
    { unfold unicode_scalar_valid in Hc. apply andb_true_iff in Hc as [Hc _]. apply Z.leb_le in Hc. unfold is_uint. lia. }
    eexists. split; [reflexivity|]. split; [by apply to_signed_range|]. cbn. by rewrite wrap_to_signed, Hc by done.
Qed.

Lemma flat_enum_back labels i : 0 <= i < Z.of_nat (length labels) -> i <= UINT32_MAX -> exists c,
  lower_flat_label_value (Enum labels) (V_enum i : value) = inr c /\ carried FLAT_I32 c /\ lift_flat_label_value (Enum labels) c = inr (V_enum i : value).
Proof using.
  intros Hi Hmax. assert (Hu : is_uint 32 i) by (unfold is_uint, UINT32_MAX in *; lia). unfold lower_flat_label_value.
  rewrite Z.geb_leb, (proj2 (Z.leb_gt _ _)), (proj2 (Z.eqb_neq _ 0)) by lia. cbn [orb]. eexists. split; [reflexivity|]. split; [by apply to_signed_range|].
  unfold lift_flat_label_value. rewrite wrap_to_signed by done. by rewrite Z.geb_leb, (proj2 (Z.leb_gt _ _)), (proj2 (Z.eqb_neq _ 0)) by lia.
Qed.

Lemma flat_flags_back labels bits : (0 < length labels)%nat -> Z.of_nat (length labels) <= 32 -> 0 <= bits < 2 ^ Z.of_nat (length labels) -> exists c,
  lower_flat_label_value (Flags labels) (V_flags bits : value) = inr c /\ carried FLAT_I32 c /\ lift_flat_label_value (Flags labels) c = inr (V_flags bits : value).
Proof using.
  intros H0 H32 Hb. assert (Hu : is_uint 32 bits) by (eapply (uint_le (Z.of_nat (length labels))); [lia|lia|exact Hb]). unfold lower_flat_label_value.
  rewrite mask_clear, Z.gtb_ltb, (proj2 (Z.ltb_ge _ _)), (proj2 (Z.eqb_neq _ 0)) by lia. cbn [orb negb Z.eqb]. eexists. split; [reflexivity|].
  split; [by apply to_signed_range|]. unfold lift_flat_label_value. rewrite wrap_to_signed by done.
  by rewrite mask_clear, Z.gtb_ltb, (proj2 (Z.ltb_ge _ _)), (proj2 (Z.eqb_neq _ 0)) by lia.
Qed.

Lemma flat_pointer_back ptype p : pointer_type_valid ptype = true -> is_uint (8 * pointer_size ptype) p -> exists c,
  flat_pointer_value ptype p = inr c /\ carried (pointer_flat_type ptype) c /\ flat_pointer_read ptype c = inr p.
Proof using.
  unfold pointer_type_valid, pointer_size, pointer_flat_type, flat_pointer_value, flat_pointer_read. rewrite orb_true_iff, !Z.eqb_eq. intros [-> | ->] Hp.
  - cbn in Hp. rewrite Z.gtb_ltb, (proj2 (Z.ltb_ge _ _)) by (unfold is_uint, UINT32_MAX in *; lia). eexists. split; [reflexivity|].
    rewrite wrap_id by done. split; [by apply to_signed_range|]. cbn. by rewrite wrap_to_signed.
  - cbn in Hp. eexists. split; [reflexivity|]. split; [by apply to_signed_range|]. cbn. by rewrite wrap_to_signed.
Qed.

Lemma index_range i : 0 <= i <= UINT32_MAX -> is_uint 32 i.
Proof using. unfold is_uint, UINT32_MAX. lia. Qed.

Lemma norm_variant node i (p q : option value) : option_map norm p = option_map norm q -> norm (make_variant node i p) = norm (make_variant node i q).
Proof using. unfold option_map. intros Hn. unfold make_variant. destruct node; cbn [norm]; by rewrite Hn. Qed.

End Single.

(** ** Values *)

Section Round.
Context (cm : turbowasm_component_canonical_memory) (Hk : 0 <= cm_memory cm) (Hvalid : memory_valid cm = true).
Context (f : realloc_fn) (Hf : guest_realloc cm = Some f) {GH : GuestHeap cm f}.
Context {H O R : Type} (malloc_ok : Z -> bool) (Hmalloc : forall n, malloc_ok n = true).
Context (run_release : R -> H -> turbowasm_status * H).
Context (graph : turbowasm_component_type_graph) (Hv : turbowasm_component_type_graph_validate graph = true).
Context (sizeof_value : Z) (Hsizeof : 0 < sizeof_value <= 65536) (hooks : handle_hooks (H := H) (O := O) (R := R)).

Abbreviation value := (turbowasm_component_value O R).
Abbreviation ptype := (pointer_type cm).
Abbreviation ptr := (pointer_size ptype).
Abbreviation flat := (tree_flat (pointer_flat_type ptype)).
Abbreviation lowers := (lowers cm f (H := H)).
Abbreviation reads := (reads cm (H := H)).
Abbreviation nothing := (fun _ : Z => False).
Abbreviation zlength l := (Z.of_nat (length l)).

Lemma ptype_valid : pointer_type_valid ptype = true.
Proof using Hvalid. unfold memory_valid in Hvalid. rewrite !andb_true_iff in Hvalid. apply Hvalid. Qed.

(** The values [vs] of the types [fs] stand for [v], as long as the new regions stay. *)
Definition stands (fs : list turbowasm_component_flat_type) (lift : list turbowasm_value -> cx H value) (v : value)
    (vs : list turbowasm_value) (L' : list (Z * Z)) (d' : list Z) : Prop :=
  Forall2 carried fs vs /\ forall d2, agree (covers L') d' d2 -> reads d2 (lift vs) (fun v' => norm v' = norm v).

(** What stood before a step that writes to new regions only, stands after it. *)
Lemma agree_later L L1 L2 d1 d2 d3 : kept (L1 ++ L) nothing d1 d2 -> agree (covers (L2 ++ L1)) d2 d3 -> agree (covers L1) d1 d3.
Proof using.
  intros Hk1 Ha. eapply agree_trans; [eapply agree_mono; [|exact Hk1]|eapply agree_mono; [|exact Ha]]; intros i _ Hi.
  - split; [apply covers_app; by left|by intros []].
  - apply covers_app. by right.
Qed.

Lemma dynamic_spec L d capacity range lift v : 2 <= capacity ->
  lowers L d nothing (range cm v) (fun lowered L' d' => is_uint (8 * ptr) (fst lowered) /\ is_uint (8 * ptr) (snd lowered) /\
    forall d2, agree (covers L') d' d2 -> reads d2 (lift cm (fst lowered) (snd lowered)) (fun v' => norm v' = norm v)) ->
  lowers L d nothing (lower_flat_dynamic_pair (Some cm) range v capacity)
    (stands [pointer_flat_type ptype; pointer_flat_type ptype] (lift_flat_dynamic_pair (Some cm) lift) v).
Proof using Hvalid.
  intros Hc Hm. unfold lower_flat_dynamic_pair. rewrite (proj2 (Z.ltb_ge _ _)) by lia. cbn [negb need]. apply lowers_step, reads_done, lowers_step.
  apply reads_validate; [done|]. eapply (lowers_bind cm f L d _ nothing nothing); [done|done|exact Hm|].
  intros [p n] L1 d1 (Hp & Hn & Hlift) _ _. cbn [fst snd] in *. destruct (flat_pointer_back _ p ptype_valid Hp) as (a & Ea & Ca & Ra).
  destruct (flat_pointer_back _ n ptype_valid Hn) as (b & Eb & Cb & Rb). apply lowers_step. eapply reads_pure; [exact Ea|]. apply lowers_step.
  eapply reads_pure; [exact Eb|]. apply lowers_ret. intros _ _. split; [by repeat constructor|]. intros d2 Ha. cbn [app] in Ha. unfold lift_flat_dynamic_pair.
  apply reads_then, reads_validate; [done|]. apply reads_then. eapply reads_pure; [exact Ra|]. apply reads_then. eapply reads_pure; [exact Rb|]. by apply Hlift.
Qed.

(** *** Parts *)

Section Parts.
Context (flatten_inner : turbowasm_component_type_ref -> res (list turbowasm_component_flat_type)).
Context (lower_inner : turbowasm_component_type_ref -> value -> Z -> cx H (list turbowasm_value)).
Context (lift_inner : turbowasm_component_type_ref -> list turbowasm_value -> cx H value).

(** The type [e], which is the tree [t], is lowered to its flat form. *)
Definition flat_codec (e : turbowasm_component_type_ref) (t : tree) : Prop := flatten_inner e = inr (take 17 (flat t)) /\
  forall v L d capacity, has_type cm f t v -> regions L d -> zlength (flat t) <= capacity -> zlength (flat t) <= 17 ->
  lowers L d nothing (lower_inner e v capacity) (stands (flat t) (lift_inner e) v).

Lemma flat_parts_spec refs ts items : Forall2 flat_codec refs ts -> Forall2 (has_type cm f) ts items ->
  forall L d capacity out, regions L d -> zlength out + zlength (concat (map flat ts)) <= capacity -> zlength (concat (map flat ts)) <= 17 ->
  lowers L d nothing (lower_flat_parts lower_inner refs items capacity out) (fun vs L' d' => exists part, vs = out ++ part /\
    Forall2 carried (concat (map flat ts)) part /\
    forall d2, agree (covers L') d' d2 -> forall acc, reads d2 (lift_flat_parts run_release flatten_inner lift_inner refs part acc)
      (fun r => snd r = [] /\ map norm (fst r) = map norm (acc ++ items))).
Proof using.
  intros Hc. revert items. induction Hc as [|e t refs ts [Hfl He] Hc IH]; intros items Hty L d capacity out HL Hcap H17.
  - inversion Hty; subst. cbn [lower_flat_parts]. apply lowers_ret. exists []. rewrite app_nil_r. split; [done|]. split; [constructor|].
    intros d2 _ acc. cbn [lift_flat_parts]. apply reads_done. by rewrite app_nil_r.
  - inversion Hty as [|? v ? items' Hv' Hty']; subst. cbn [map concat] in Hcap, H17 |- *. rewrite length_app in Hcap, H17.
    cbn [lower_flat_parts]. rewrite Z.gtb_ltb, (proj2 (Z.ltb_ge _ _)) by lia. cbn [negb need]. apply lowers_step, reads_done.
    eapply (lowers_bind cm f L d _ nothing nothing); [done|done|apply (He v L d); try (done || lia)|].
    intros vs L1 d1 [Hvs Hst] _ HL1. pose proof (Forall2_length _ _ _ Hvs) as Hlen.
    rewrite Z.gtb_ltb, (proj2 (Z.ltb_ge _ _)) by lia. cbn [negb need]. apply lowers_step, reads_done.
    eapply lowers_mono; [apply (IH items' Hty' (L1 ++ L) d1 capacity (out ++ vs) HL1); rewrite ?length_app; lia|done|].
    intros r L2 d2 _ _ (part & -> & Hpart & Hlift) Hk2 _. exists (vs ++ part). split; [by rewrite <- app_assoc|]. split; [by apply Forall2_app|].
    intros d3 Ha acc. cbn [lift_flat_parts]. apply reads_then, reads_or_else, reads_then. eapply reads_pure; [exact Hfl|].
    rewrite (take_ge (flat t)) by lia. rewrite length_app, Z.gtb_ltb, (proj2 (Z.ltb_ge _ _)) by lia. cbn [negb need]. apply reads_then, reads_done, reads_then.
    rewrite Hlen, take_app_length, drop_app_length. eapply reads_mono; [apply Hst; by eapply agree_later|]. intros v' Hnv. apply reads_done.
    eapply reads_mono; [apply Hlift; eapply agree_mono; [|exact Ha]; intros i _ Hi; apply covers_app; by left|].
    intros [its rest] [-> E]. cbn [fst snd] in *. split; [done|]. rewrite E, <- app_assoc. cbn [app]. rewrite !map_app. cbn [map]. by rewrite Hnv.
Qed.

Lemma flat_sequence_spec node ts items L d capacity : Forall2 flat_codec (sequence_refs node) ts -> sequence_refs node <> [] ->
  as_sequence node (make_sequence node items : value) = Some items -> Forall2 (has_type cm f) ts items -> zlength items <= UINT32_MAX ->
  regions L d -> zlength (concat (map flat ts)) <= capacity -> zlength (concat (map flat ts)) <= 17 ->
  lowers L d nothing (lower_flat_sequence lower_inner node (make_sequence node items) capacity)
    (stands (concat (map flat ts)) (lift_flat_sequence run_release malloc_ok sizeof_value flatten_inner lift_inner node) (make_sequence node items)).
Proof using Hmalloc Hsizeof.
  intros Hc Hne Has Hty Hmax HL Hcap H17. pose proof (Forall2_length _ _ _ Hc) as Hl1. pose proof (Forall2_length _ _ _ Hty) as Hl2.
  unfold lower_flat_sequence. rewrite Has, (bool_decide_eq_false_2 (sequence_refs node = [])), bool_decide_eq_true_2 by (done || lia). cbn [negb need].
  apply lowers_step, reads_done, lowers_step, reads_done.
  eapply lowers_mono; [by apply (flat_parts_spec _ ts items Hc Hty L d capacity [])|done|]. intros vs L' d' _ _ (part & -> & Hpart & Hlift). split; [done|].
  intros d2 Ha. cbn [app]. unfold lift_flat_sequence. rewrite (proj2 (Z.eqb_neq _ 0)) by (destruct (sequence_refs node); [done|simpl; lia]).
  rewrite Z.gtb_ltb, (proj2 (Z.ltb_ge _ _)); [|apply Z.div_le_lower_bound; [lia|]; unfold UINT32_MAX, SIZE_MAX, UINT64_MAX in *; nia].
  rewrite Hmalloc. cbn [negb need]. apply reads_then, reads_done, reads_then, reads_done, reads_then, reads_done, reads_then.
  eapply reads_mono; [apply Hlift; exact Ha|]. intros [its rest] [Hrest E]. cbn [fst snd app] in *. subst rest. rewrite bool_decide_eq_true_2 by done.
  apply reads_then, reads_or_else. cbn [need]. apply reads_done, reads_done. unfold make_sequence. destruct node; cbn [norm]; by rewrite E.
Qed.

Section Variant.
Context (flatten_here : turbowasm_component_type_ref -> res (list turbowasm_component_flat_type)) (ref : turbowasm_component_type_ref).
Context (node : turbowasm_component_type) (cs : list (option tree)) (i : Z) (c : option tree) (payload : option value).
Context (Hcs : Forall2 (fun o c => match o, c with Some e, Some t => flat_codec e t | None, None => True | _, _ => False end) (variant_cases node) cs).
Context (Has : as_variant node (make_variant node i payload : value) = Some (i, payload)).
Context (Hi : 0 <= i <= UINT32_MAX) (Hc : cs !! Z.to_nat i = Some c).

Abbreviation joined := (fold_left join_flats (map (opt flat []) cs) []).

Context (Hhere : flatten_here ref = inr (take 17 (FLAT_I32 :: joined))).

Lemma flat_case : exists o, variant_case_ref node i = inr o /\ i < variant_case_count node /\ under (opt flat [] c) joined /\
  match o, c with Some e, Some t => flat_codec e t | None, None => True | _, _ => False end.
Proof using Hcs Hi Hc.
  pose proof (Forall2_lookup_r _ _ _ _ _ Hcs Hc) as (o & Ho & Hoc). exists o. unfold variant_case_ref, variant_case_count. apply lookup_lt_Some in Ho as Hlt.
  rewrite Z.geb_leb, (proj2 (Z.leb_gt _ _)), Ho by lia. split; [done|]. split; [lia|]. split; [|done]. apply under_cases. apply list_elem_of_lookup_2 in Hc.
  by apply list_elem_of_In, in_map, list_elem_of_In.
Qed.

Definition lift_flat_payload (o : option turbowasm_component_type_ref) (carriers : list turbowasm_value) : cx H (option value) :=
  match o with
  | None => mret None
  | Some p =>
      fs ← pure (flatten_inner p);
      _ ← need (length fs <=? S (length carriers) - 1)%nat TURBOWASM_MALFORMED_MODULE;
      payload_values ← pure (lift_carriers joined fs carriers);
      _ ← need (malloc_ok sizeof_value) TURBOWASM_OUT_OF_MEMORY;
      v ← lift_inner p payload_values;
      mret (Some v)
  end.

(** The discriminant is lifted, and the payload with it. *)
Lemma lift_variant_back o d2 carriers : variant_case_ref node i = inr o -> i < variant_case_count node -> 1 + zlength joined <= 17 ->
  Forall2 carried joined carriers ->
  reads d2 (lift_flat_payload o carriers) (fun p => option_map norm p = option_map norm payload) ->
  reads d2 (lift_flat_variant run_release malloc_ok sizeof_value flatten_inner lift_inner flatten_here node ref (VI32 (s32 i) :: carriers))
    (fun v' => norm v' = norm (make_variant node i payload)).
Proof using Hi Hhere.
  intros Href Hlt H17 Hcar Hp. pose proof (index_range i Hi) as Hu. pose proof (Forall2_length _ _ _ Hcar) as Hlen.
  unfold lift_flat_variant. apply reads_then. eapply reads_pure; [exact Hhere|]. rewrite take_ge by (simpl; lia).
  rewrite (bool_decide_eq_true_2 (length (FLAT_I32 :: joined) = _)) by (cbn [length]; by rewrite Hlen). cbn [need]. apply reads_then, reads_done.
  rewrite wrap_to_signed by done.
  rewrite Z.geb_leb, (proj2 (Z.leb_gt _ _)) by lia. cbn [negb need]. apply reads_then, reads_done, reads_then. eapply reads_pure; [exact Href|].
  apply reads_then. eapply reads_mono; [exact Hp|]. intros p Hn. cbn [tail]. rewrite (carried_kinds _ _ Hcar), bool_decide_eq_true_2 by done.
  apply reads_then, reads_or_else. cbn [need]. apply reads_done, reads_done. by apply norm_variant.
Qed.

Lemma flat_variant_spec L d capacity : case_value (has_type cm f) c payload -> regions L d -> 1 + zlength joined <= capacity -> 1 + zlength joined <= 17 ->
  lowers L d nothing (lower_flat_variant flatten_inner lower_inner flatten_here node ref (make_variant node i payload) capacity)
    (stands (FLAT_I32 :: joined) (lift_flat_variant run_release malloc_ok sizeof_value flatten_inner lift_inner flatten_here node ref)
      (make_variant node i payload)).
Proof using Hmalloc Hcs Has Hi Hc Hhere.
  intros Hval HL Hcap H17. destruct flat_case as (o & Href & Hlt & Hund & Ho). pose proof (under_length _ _ Hund) as Hlen.
  pose proof (to_signed_range 32 i eq_refl (index_range i Hi)) as Hs.
  pose proof (fun d2 carriers => lift_variant_back o d2 carriers Href Hlt H17) as Hback.
  unfold lower_flat_variant. rewrite Has, Z.geb_leb, (proj2 (Z.leb_gt _ _)) by lia. cbn [negb need]. apply lowers_step, reads_done, lowers_step.
  eapply reads_pure; [exact Hhere|]. rewrite take_ge by (simpl; lia). rewrite (proj2 (Z.ltb_ge _ _)) by (simpl; lia). cbn [negb need].
  apply lowers_step, reads_done, lowers_step. eapply reads_pure; [exact Href|].
  destruct Hval as [|t v Hvt]; destruct o as [e|]; try done; cbn [opt] in Hund, Hlen.
  - apply lowers_step, reads_done. cbn [tail]. destruct (carriers_back [] joined [] Hund ltac:(constructor)) as (car & E & Hcar & _). apply lowers_step.
    eapply reads_pure; [exact E|]. apply lowers_ret. split; [by constructor|]. intros d2 _. apply Hback; [done|]. by apply reads_done.
  - destruct Ho as [Hfl He].
    eapply (lowers_bind cm f L d _ nothing nothing _ _ (fun r L1 d1 => fst r = flat t /\ stands (flat t) (lift_inner e) v (snd r) L1 d1)); [done|done| |].
    + apply lowers_step. eapply reads_pure; [exact Hfl|]. rewrite take_ge by lia.
      eapply (lowers_bind cm f L d _ nothing nothing); [done|done|apply (He v L d); try (done || (unfold MAX_LOWERED_PARAMS; lia))|].
      intros vs L1 d1 Hst _ _. pose proof (Forall2_length _ _ _ (proj1 Hst)) as Hl. rewrite bool_decide_eq_true_2 by done.
      rewrite (proj2 (Nat.leb_le _ _)) by (simpl; lia). cbn [andb need]. apply lowers_step, reads_done, lowers_ret. intros _ _. done.
    + intros [fs vs] L1 d1 [Hfs [Hvs Hst]] _ _. cbn [fst snd] in Hfs, Hvs, Hst. subst fs. cbn [tail]. destruct (carriers_back (flat t) joined vs Hund Hvs) as (car & E & Hcar & Eback).
      apply lowers_step. eapply reads_pure; [exact E|]. apply lowers_ret. intros _ _. split; [by constructor|]. intros d2 Ha. cbn [app] in Ha.
      apply Hback; [done|]. pose proof (Forall2_length _ _ _ Hcar) as Hlc. cbn [lift_flat_payload]. apply reads_then. eapply reads_pure; [exact Hfl|].
      rewrite take_ge by lia. rewrite (proj2 (Nat.leb_le _ _)) by lia. rewrite Hmalloc. cbn [need]. apply reads_then, reads_done, reads_then.
      eapply reads_pure; [exact Eback|]. apply reads_then, reads_done, reads_then. eapply reads_mono; [by apply Hst|].
      intros v' Hn. apply reads_done. cbn. by rewrite Hn.
Qed.

End Variant.

End Parts.

(** *** All types *)

Abbreviation flatten_at := (canonical_flatten_type_inner graph ptype).
Abbreviation lift_flat_at := (lift_flat_value_inner run_release graph (Some cm) malloc_ok sizeof_value hooks).
Abbreviation lower_flat_at := (lower_flat_value_inner graph (Some cm) hooks).
Abbreviation flat_codec_at n := (flat_codec (flatten_at n) (lower_flat_at n) (lift_flat_at n)).

(** A value in a single carrier. *)
Lemma single_spec L d capacity g (r : res turbowasm_value) c (lift : turbowasm_value -> res value) v : 1 <= capacity -> r = inr c -> carried g c ->
  lift c = inr v ->
  lowers L d nothing (_ ← need (negb (capacity <? 1)) TURBOWASM_INVALID_ARGUMENT; x ← pure r; mret [x])
    (stands [g] (fun vs => match vs with [x] => pure (lift x) | _ => stop TURBOWASM_TYPE_MISMATCH end) v).
Proof using.
  intros Hc Hr Hcar Hl. rewrite (proj2 (Z.ltb_ge _ _)) by lia. cbn [negb need]. apply lowers_step, reads_done, lowers_step. eapply reads_pure; [exact Hr|].
  apply lowers_ret. split; [by repeat constructor|]. intros d2 _. by eapply reads_pure; [exact Hl|].
Qed.

Lemma stands_step {A} fs (ra : res A) a (k : A -> list turbowasm_value -> cx H value) v vs L' d' : ra = inr a ->
  stands fs (k a) v vs L' d' -> stands fs (fun vs => pure ra ≫= fun a => k a vs) v vs L' d'.
Proof using. intros Hra [Hvs Hs]. split; [done|]. intros d2 Ha. apply reads_then. eapply reads_pure; [exact Hra|]. by apply Hs. Qed.

Lemma one_more fs k : zlength (FLAT_I32 :: fs) <= k -> 1 + zlength fs <= k.
Proof using. cbn [length]. lia. Qed.

Lemma flat_values_round n : (n <= VALUE_MAX_DEPTH)%nat -> forall e t, tree_of n graph e = Some t -> flat_codec_at n e t.
Proof using Hk Hvalid Hf GH Hv Hmalloc Hsizeof.
  induction n as [|n IHn]; intros Hn e t Htree0; [done|]. assert (Hn' : (n <= VALUE_MAX_DEPTH)%nat) by lia. specialize (IHn Hn').
  pose proof (flatten_trees graph Hv ptype ptype_valid (S n) e t Htree0) as Hflat. split; [exact Hflat|]. revert Htree0. cbn [tree_of].
  destruct (turbowasm_component_type_ref_validate graph e) eqn:Hr; [|done]. cbn [negb]. destruct (hollow _); [done|]. destruct (resolved graph Hv e Hr) as [Hres (idx & Htv)].
  intros Htree v L d capacity Hty HL Hcap H17. cbn [lower_flat_value_inner lift_flat_value_inner]. apply lowers_step. eapply reads_pure; [exact Hres|].
  eapply (lowers_mono cm f L d nothing nothing); [|done|intros vs L' d' _ _ Hst; eapply stands_step; [exact Hres|exact Hst]]. cbv zeta.
  destruct (resolve graph e) as [|kind| |el|fut pl|fields|elements|cases|pl|ok error|labels|labels|fn|res|own res|tys ex] eqn:Hnode; try done;
    cbn [type_valid] in Htv.
  - injection Htree as <-. inversion Hty as [kind' x Hx| | | | | | | | |]; subst. destruct (flat_scalar_back (O := O) (R := R) kind x Hx) as (c & E & Hc & Eb).
    apply (single_spec L d capacity (scalar_carrier kind) _ c); done.
  - injection Htree as <-. inversion Hty as [|s Hwf Hval [Hlen Hplace]| | | | | | | |]; subst. apply dynamic_spec; [cbn in Hcap; lia|]. by apply lower_string_range_spec.
  - apply tree_some in Htree as (t' & Ht' & ->). inversion Hty as [| |t0 items Hitems [Hlen Hsz]| | | | | | |]; subst.
    apply (dynamic_spec L d capacity _ (fun cm => lift_list_range run_release graph cm malloc_ok sizeof_value
            (lift_value_inner run_release graph cm malloc_ok sizeof_value hooks n) el)); [cbn in Hcap; lia|].
    apply (lower_list_range_spec cm Hk Hvalid f Hf malloc_ok Hmalloc run_release graph sizeof_value Hsizeof _ _ el t'); try done;
      [by apply values_round|by apply (tree_laid_out cm Hvalid graph Hv n)].
  - apply tree_some in Htree as (t' & _ & ->). inversion Hty.
  - apply tree_some in Htree as (ts & Hts%mapM_Some & ->). apply andb_true_iff in Htv as [Hne _]. apply negb_true_iff, bool_decide_eq_false in Hne.
    inversion Hty as [| | |ns ts0 items Hitems Hlen| | | | | |]; subst.
    apply (flat_sequence_spec (flatten_at n) (lower_flat_at n) (lift_flat_at n) (Record_ fields) ts items); try done; [|by destruct fields].
    eapply Forall2_impl; [exact Hts|]. apply IHn.
  - apply tree_some in Htree as (ts & Hts%mapM_Some & ->). apply andb_true_iff in Htv as [Hne _]. apply negb_true_iff, bool_decide_eq_false in Hne.
    inversion Hty as [| | | |ts0 items Hitems Hlen| | | | |]; subst.
    apply (flat_sequence_spec (flatten_at n) (lower_flat_at n) (lift_flat_at n) (Tuple elements) ts items); try done.
    eapply Forall2_impl; [exact Hts|]. apply IHn.
  - apply tree_some in Htree as (cs & Hcs & ->). apply (parts_spec (flat_codec_at n)) in Hcs; [|exact IHn].
    inversion Hty as [| | | | |ns cs0 i c payload Hi Hc Hval| | | |]; subst.
    apply (flat_variant_spec (flatten_at n) (lower_flat_at n) (lift_flat_at n) (flatten_at (S n)) e (Variant cases) cs i c payload); try done; by apply one_more.
  - apply tree_some in Htree as (t' & Ht' & ->). inversion Hty as [| | | | | |t0 i c payload Hc Hi Hval| | |]; subst.
    apply (flat_variant_spec (flatten_at n) (lower_flat_at n) (lift_flat_at n) (flatten_at (S n)) e (Option_ pl) [None; Some t'] i c payload); try done;
      [repeat constructor; by apply IHn|by apply two_cases in Hc|by apply one_more|by apply one_more].
  - apply bind_Some in Htree as (a & Ha & Hb). apply bind_Some in Hb as (b & Hb & [= <-]).
    inversion Hty as [| | | | | | |a0 b0 i c payload Hc Hi Hval| |]; subst.
    apply (flat_variant_spec (flatten_at n) (lower_flat_at n) (lift_flat_at n) (flatten_at (S n)) e (Result ok error) [a; b] i c payload); try done;
      [|by apply two_cases in Hc|by apply one_more|by apply one_more].
    apply (parts_spec _ (tree_of n graph)); [|exact IHn]. cbn. rewrite Ha. cbn. by rewrite Hb.
  - injection Htree as <-. inversion Hty as [| | | | | | | |labels' i Hi Hi32|]; subst. destruct (flat_enum_back (O := O) (R := R) labels i Hi Hi32) as (c & E & Hc & Eb).
    apply (single_spec L d capacity FLAT_I32 _ c); done.
  - injection Htree as <-. apply andb_true_iff in Htv as [Hlab H32]. apply andb_true_iff in Hlab as [Hne _]. apply negb_true_iff, bool_decide_eq_false in Hne.
    apply negb_true_iff in H32. inversion Hty as [| | | | | | | | |labels' bits Hbits]; subst.
    destruct (flat_flags_back (O := O) (R := R) labels bits ltac:(by apply nonempty_length) ltac:(lia) Hbits) as (c & E & Hc & Eb).
    apply (single_spec L d capacity FLAT_I32 _ c); done.
  - apply tree_some in Htree as (t' & _ & ->). inversion Hty.
Qed.

End Round.

#[local] Strategy expand [turbowasm_component_canonical_lift_flat_value turbowasm_component_canonical_lower_flat_value].
#[local] Strategy 100 [lift_flat_value_inner lower_flat_value_inner canonical_flatten_type_inner tree_of].

Lemma bind_need {H A} b e (k : unit -> cx H A) w : b = true -> (need b e ≫= k) w = k tt w.
Proof. by intros ->. Qed.

Lemma bind_pure {H A B} (r : res A) a (k : A -> cx H B) w : r = inr a -> (pure r ≫= k) w = k a w.
Proof. by intros ->. Qed.

(** C11. A value of a type without handles whose flat form has at most seventeen
    carriers is lowered to core values of exactly the types of the flat form that the
    canonical ABI defines, and these are lifted to the value again: the cases of a
    variant lose nothing in the carriers they share. Strings and lists go through
    the guest's memory, where the blocks in use keep their bytes; when a value is not
    lowered, it is because the guest's [realloc] failed or gave a block out of bounds. The
    flat form also has to fit the capacity of the caller's array. The guest, the host's
    allocations and the sizes of strings and lists are as in [value_roundtrip]. *)
Theorem flat_roundtrip {H O R} cm f (GH : GuestHeap cm f) run_release malloc_ok sizeof_value (hooks : handle_hooks (H := H) (O := O) (R := R))
    graph ref t (v : turbowasm_component_value O R) L d w h capacity :
  turbowasm_component_type_graph_validate graph = true -> memory_valid cm = true -> 0 <= cm_memory cm -> guest_realloc cm = Some f ->
  (forall n, malloc_ok n = true) -> 0 < sizeof_value <= 65536 ->
  tree_of VALUE_MAX_DEPTH graph ref = Some t -> has_type cm f t v -> live cm w L -> mem cm w d ->
  Z.of_nat (length (tree_flat (pointer_flat_type (pointer_type cm)) t)) <= Z.min capacity MAX_LOWERED_PARAMS -> 0 < capacity ->
  match turbowasm_component_canonical_lower_flat_value graph (Some cm) hooks ref v capacity (mk_world w h) with
  | (inr vs, u) => w_host u = h /\
      map value_kind vs = map flat_type_value_kind (tree_flat (pointer_flat_type (pointer_type cm)) t) /\
      (exists v', turbowasm_component_canonical_lift_flat_value run_release graph (Some cm) malloc_ok sizeof_value hooks ref vs u = (inr v', u) /\
         norm v' = norm v) /\
      exists d', mem cm (w_store u) d' /\ agree (covers L) d d'
  | (inl status, _) => refused cm f status
  end.
Proof.
  intros Hv Hvalid Hk Hf Hmalloc Hsizeof Ht Hty Hl Hd Hcap H0. unfold MAX_LOWERED_PARAMS in Hcap.
  destruct (flat_values_round cm Hk Hvalid f Hf malloc_ok Hmalloc run_release graph Hv sizeof_value Hsizeof hooks VALUE_MAX_DEPTH (le_n _) ref t Ht) as [Hfl Hc].
  rewrite take_ge in Hfl by lia. set (fs := tree_flat (pointer_flat_type (pointer_type cm)) t) in *.
  pose proof (Hc v L d capacity Hty (live_ok _ _ _ _ Hl Hd) ltac:(fold fs; lia) ltac:(fold fs; lia) w h Hl Hd) as Hround.
  unfold turbowasm_component_canonical_lower_flat_value, turbowasm_component_canonical_lift_flat_value. cbn [flat_pointer_type]. rewrite one_depth.
  rewrite bind_need by (rewrite (proj2 (Z.eqb_neq _ 0)) by lia; done). rewrite (bind_pure _ fs) by exact Hfl.
  rewrite bind_need by (rewrite Z.gtb_ltb, (proj2 (Z.ltb_ge _ _)) by lia; done). unfold mbind at 1, cx_bind at 1.
  destruct (lower_flat_value_inner _ _ _ _ _ _ _ _) as [[e|vs] [w' h']]; [exact Hround|]. cbn [w_store w_host] in Hround.
  destruct Hround as (-> & L' & d' & Hl' & Hd' & Hag & Hvs & Hst). fold fs in Hvs. pose proof (Forall2_length _ _ _ Hvs) as Hlen.
  rewrite bind_need by (by apply bool_decide_eq_true_2). cbn [mret cx_ret w_host w_store]. split; [done|]. split; [by apply carried_kinds|]. split.
  - destruct (Hst d' (agree_self _ _) w' h Hd') as (v' & E & Hn). exists v'. split; [|done].
    rewrite (bind_pure _ fs) by exact Hfl. rewrite bind_need by (by apply bool_decide_eq_true_2). exact E.
  - exists d'. split; [done|]. eapply agree_mono; [|exact Hag]. intros i _ Hi. split; [done|by intros []].
Qed.

(** *** An example *)

(** A result that is a float or a string: both share their carriers. *)
Definition shared_graph : turbowasm_component_type_graph :=
  [ Result (Some (REF_INLINE TYPE_F32)) (Some (REF_INLINE TYPE_STRING));
    Tuple [REF_INLINE TYPE_S8; REF_INDEXED 0] ].

Definition shared_tree : tree := TTuple [TScalar TYPE_S8; TResult (Some (TScalar TYPE_F32)) (Some TString)].

Definition shared_value : turbowasm_component_value unit unit :=
  V_tuple [V_scalar TYPE_S8 (-7); V_result 0 (Some (V_scalar TYPE_F32 0xc0490fdb))].

Lemma shared_graph_validates : turbowasm_component_type_graph_validate shared_graph = true.
Proof. vm_compute. reflexivity. Qed.

Lemma shared_graph_tree : tree_of VALUE_MAX_DEPTH shared_graph (REF_INDEXED 1) = Some shared_tree.
Proof. vm_compute. reflexivity. Qed.

Lemma shared_value_typed : has_type guest_canonical (growing_realloc (fun _ => true) 0 0) shared_tree shared_value.
Proof.
  apply has_tuple; [|vm_compute; discriminate]. apply Forall2_cons_2; [apply has_scalar; by split|]. apply Forall2_cons_2; [|apply Forall2_nil_2].
  eapply has_result; [reflexivity|lia|]. apply case_some, has_scalar. by split.
Qed.

Lemma shared_lowers : fst (turbowasm_component_canonical_lower_flat_value shared_graph (Some guest_canonical) no_hooks (REF_INDEXED 1) shared_value 17
  (mk_world guest_store tt)) = inr [VI32 (-7); VI32 0; VI32 (-1068953637); VI32 0].
Proof. vm_compute. reflexivity. Qed.

Lemma flat_roundtrip_witness : exists u v',
  turbowasm_component_canonical_lower_flat_value shared_graph (Some guest_canonical) no_hooks (REF_INDEXED 1) shared_value 17 (mk_world guest_store tt) =
    (inr [VI32 (-7); VI32 0; VI32 (-1068953637); VI32 0], u) /\
  turbowasm_component_canonical_lift_flat_value (fun _ h => (TURBOWASM_OK, h)) shared_graph (Some guest_canonical) (fun _ => true) 64 no_hooks (REF_INDEXED 1)
    [VI32 (-7); VI32 0; VI32 (-1068953637); VI32 0] u = (inr v', u) /\
  norm v' = norm shared_value.
Proof.
  pose proof (flat_roundtrip guest_canonical (growing_realloc (fun _ => true) 0 0) (growing_heap (fun _ => true) guest_canonical (Z.le_refl 0))
    (fun _ h => (TURBOWASM_OK, h)) (fun _ => true) 64 no_hooks shared_graph (REF_INDEXED 1) shared_tree shared_value [(0, 16)] (replicate 64 0) guest_store tt 17
    shared_graph_validates eq_refl (Z.le_refl 0) eq_refl (fun _ => eq_refl) ltac:(lia) shared_graph_tree shared_value_typed) as H.
  pose proof shared_lowers as E. destruct (turbowasm_component_canonical_lower_flat_value _ _ _ _ _ _ _) as [[e|vs] u]; [discriminate|].
  injection E as ->. destruct H as (_ & _ & (v' & Hlift & Hnorm) & _); [|exact guest_store_memory|vm_compute; discriminate|reflexivity|].
  - exists (replicate 64 0). split; [exact guest_store_memory|]. split.
    + apply Forall_cons_2; [by split|apply Forall_nil_2].
    + apply FOP_cons; constructor.
  - exists u, v'. split; [reflexivity|]. split; [exact Hlift|exact Hnorm].
Defined.

End FlatRoundtrip.
