(* ===== verification/HostValues.v ===== *)
(** * The check of a host's values

    [turbowasm_component_canonical_validate_value] against the types: it admits a
    value exactly when the value has the type. *)

From S2P Require Import Prelude Value ExecStack Memory Unicode Strings StringCodec StringSpec StringLower.
From S2P Require Import TypeGraph TypeTrees Canonical CanonicalSpec CanonicalValue CanonicalHeap CanonicalRound ValueRoundtrip.

Module HostValues.
Import ExecStack Memory Strings StringCodec StringSpec StringLower TypeGraph TypeTrees Canonical CanonicalSpec CanonicalValue CanonicalHeap CanonicalRound ValueRoundtrip.

(** What the member of a C union can hold. *)
Definition c_range (kind : turbowasm_component_type_kind) (x : Z) : Prop :=
  match kind with TYPE_CHAR => is_uint 32 x | _ => scalar_range kind x end.

(** A type that has no handle in it. *)
Fixpoint plain (t : tree) : bool :=
  match t with
  | TScalar _ | TString | TEnum _ | TFlags _ => true
  | TList t | TOption t => plain t
  | TRecord _ ts | TTuple ts => forallb plain ts
  | TVariant _ cases => forallb (fun c => match c with Some t => plain t | None => true end) cases
  | TResult a b => match a with Some t => plain t | None => true end && match b with Some t => plain t | None => true end
  | TAsync _ _ | THandle _ _ => false
  end.

Section Values.
Context {H O R : Type}.

Abbreviation value := (turbowasm_component_value O R).

(** A value whose members hold what their C types can: nothing is said of its type. *)
Inductive c_value : value -> Prop :=
  | c_scalar kind x : c_range kind x -> c_value (V_scalar kind x)
  | c_string s : string_wf s -> c_value (V_string s)
  | c_list items : Forall c_value items -> c_value (V_list items)
  | c_record items : Forall c_value items -> c_value (V_record items)
  | c_tuple items : Forall c_value items -> c_value (V_tuple items)
  | c_variant i payload : 0 <= i <= UINT32_MAX -> (forall p, payload = Some p -> c_value p) -> c_value (V_variant i payload)
  | c_option i payload : 0 <= i <= UINT32_MAX -> (forall p, payload = Some p -> c_value p) -> c_value (V_option i payload)
  | c_result i payload : 0 <= i <= UINT32_MAX -> (forall p, payload = Some p -> c_value p) -> c_value (V_result i payload)
  | c_enum i : 0 <= i <= UINT32_MAX -> c_value (V_enum i)
  | c_flags bits : 0 <= bits <= UINT32_MAX -> c_value (V_flags bits)
  | c_resource own rep release identity_ key : c_value (V_resource own rep release identity_ key)
  | c_endpoint future owner g r release : c_value (V_endpoint future owner g r release).

Abbreviation typed := (of_type (fun _ (_ : value) => True)).

Definition tree_kind (t : tree) : turbowasm_component_type_kind :=
  match t with
  | TScalar kind => kind
  | TString => TYPE_STRING
  | TList _ => TYPE_LIST
  | TRecord _ _ => TYPE_RECORD
  | TTuple _ => TYPE_TUPLE
  | TVariant _ _ => TYPE_VARIANT
  | TOption _ => TYPE_OPTION
  | TResult _ _ => TYPE_RESULT
  | TEnum _ => TYPE_ENUM
  | TFlags _ => TYPE_FLAGS
  | THandle own _ => if own then TYPE_OWN else TYPE_BORROW
  | TAsync future _ => if future then TYPE_FUTURE else TYPE_STREAM
  end.

Lemma typed_kind t v : typed t v -> tree_kind t = kind_of_value v.
Proof using. by destruct 1. Qed.

Lemma scalar_checked kind x : c_range kind x ->
  match lower_flat_scalar kind (V_scalar kind x : value) with inl status => status | inr _ => TURBOWASM_OK end = TURBOWASM_OK <-> scalar_range kind x.
Proof using.
  intros Hx. unfold lower_flat_scalar. rewrite bool_decide_eq_true_2 by done. cbn [negb]. destruct kind; cbn [c_range scalar_range] in *; try done.
  rewrite char_valid. destruct (unicode_scalar_valid x) eqn:E; split; try done.
  - intros _. split; [apply Hx|done].
  - by intros [_ ?].
Qed.

Lemma mask_exact n bits : 0 < n <= 32 -> 0 <= bits -> (bits .& Z.lnot (flags_valid_mask n) =? 0) = true <-> bits < 2 ^ n.
Proof using.
  intros Hn Hb. rewrite mask_spec by done. change (bits .& Z.lnot (Z.ones n)) with (Z.land bits (Z.lnot (Z.ones n))).
  rewrite <- Z.ldiff_land, Z.ldiff_ones_r, Z.eqb_eq, Z.shiftr_div_pow2, Z.shiftl_mul_pow2 by lia. assert (0 < 2 ^ n) by (apply Z.pow_pos_nonneg; lia).
  split; intros E; [|rewrite Z.div_small by lia; done]. assert (E' : bits / 2 ^ n = 0) by nia. apply Z.div_small_iff in E'; lia.
Qed.

(** ** The walk *)

Lemma all_admitted_spec accept parts : all_admitted accept parts = TURBOWASM_OK <-> Forall (fun p : turbowasm_component_type_ref * value => accept (fst p) (snd p) = TURBOWASM_OK) parts.
Proof using.
  induction parts as [|[r v] parts IH]; cbn [all_admitted]; [by split; [constructor|]|]. rewrite Forall_cons, <- IH. cbn [fst snd].
  destruct (accept r v); split; try done; try (by intros [? _]). by intros [_ ?].
Qed.

(** The elements of a list. *)
Lemma items_checked (accept : turbowasm_component_type_ref -> value -> turbowasm_status) e t items :
  Forall (fun v => accept e v = TURBOWASM_OK <-> typed t v) items -> all_admitted accept (map (pair e) items) = TURBOWASM_OK <-> Forall (typed t) items.
Proof using.
  intros He. rewrite all_admitted_spec, Forall_map. induction He as [|v items Hv _ IH]; [by split; constructor|].
  rewrite !Forall_cons. cbn [fst snd] in *. by rewrite Hv, IH.
Qed.

(** The elements of a record or a tuple. *)
Lemma parts_checked (accept : turbowasm_component_type_ref -> value -> turbowasm_status) refs ts items :
  Forall2 (fun e t => forall v, v ∈ items -> accept e v = TURBOWASM_OK <-> typed t v) refs ts -> length refs = length items ->
  all_admitted accept (zip refs items) = TURBOWASM_OK <-> Forall2 typed ts items.
Proof using.
  intros Hr. rewrite all_admitted_spec. revert ts items Hr. induction refs as [|e refs IH]; intros ts [|v items] Hr Hlen; try done.
  - inversion Hr; subst. by split; constructor.
  - inversion Hr as [|? t ? ts' He Hr']; subst. cbn [zip_with]. rewrite Forall_cons, Forall2_cons, <- (IH ts' items); [| |by injection Hlen].
    + cbn [fst snd]. by rewrite (He v ltac:(by left)).
    + eapply Forall2_impl; [exact Hr'|]. intros e' t' He' v' Hv'. apply He'. by right.
Qed.

Section Graph.
Context (graph : turbowasm_component_type_graph) (Hv : turbowasm_component_type_graph_validate graph = true).
Context (owner_live : H -> O -> bool) (h : H).

Abbreviation check := (validate_host_value graph owner_live).
Abbreviation checked n := (fun e t => forall v, c_value v -> check n h e v = TURBOWASM_OK <-> typed t v).

(** The payload of a case. *)
Lemma case_checked n node cs i payload :
  Forall2 (fun o c => match o, c with Some e, Some t => checked n e t | None, None => True | _, _ => False end) (variant_cases node) cs ->
  0 <= i -> (forall p, payload = Some p -> c_value p) ->
  match variant_case_ref node i with
  | inl status => status
  | inr (Some p) => match payload with Some v => check n h p v | None => TURBOWASM_TYPE_MISMATCH end
  | inr None => match payload with Some _ => TURBOWASM_TYPE_MISMATCH | None => TURBOWASM_OK end
  end = TURBOWASM_OK <-> exists c, cs !! Z.to_nat i = Some c /\ case_value typed c payload.
Proof using.
  intros Hcs Hi Hp. unfold variant_case_ref, variant_case_count. pose proof (Forall2_length _ _ _ Hcs) as Hlen. rewrite Z.geb_leb.
  destruct (Z.leb_spec (Z.of_nat (length (variant_cases node))) i) as [Hge|Hlt].
  { split; [done|]. intros (c & Hc%lookup_lt_Some & _). lia. }
  destruct (lookup_lt_is_Some_2 (variant_cases node) (Z.to_nat i)) as [o Ho]; [lia|]. rewrite Ho. cbn [require].
  destruct (Forall2_lookup_l _ _ _ _ _ Hcs Ho) as (c & Hc & Hoc). rewrite Hc. split.
  - intros E. exists c. split; [done|]. destruct o as [e|], c as [t|], payload as [p|]; try done; constructor. by apply Hoc, E; apply Hp.
  - intros (c' & [= <-] & Hval). destruct o as [e|], c as [t|]; inversion Hval; subst; try done. by apply Hoc; [apply Hp|].
Qed.

(** The trees of the parts, each without handles. *)
Lemma plain_parts n refs ts : (forall e t, tree_of n graph e = Some t -> plain t = true -> checked n e t) ->
  Forall2 (fun e t => tree_of n graph e = Some t) refs ts -> forallb plain ts = true -> Forall2 (checked n) refs ts.
Proof using.
  intros IH. induction 1 as [|e t refs ts Ht _ IHts]; constructor; cbn [forallb] in *; apply andb_true_iff in H0 as [Hp Hps]; [by apply IH|by apply IHts].
Qed.

Lemma sequence_checked n refs ts items : (forall e t, tree_of n graph e = Some t -> plain t = true -> checked n e t) ->
  Forall2 (fun e t => tree_of n graph e = Some t) refs ts -> forallb plain ts = true -> Forall c_value items ->
  (if negb (bool_decide (length refs = length items)) then TURBOWASM_TYPE_MISMATCH else all_admitted (check n h) (zip refs items)) = TURBOWASM_OK
  <-> Forall2 typed ts items.
Proof using.
  intros IH Hts Hplain Hs. pose proof (Forall2_length _ _ _ Hts) as Hl. destruct (bool_decide_reflect (length refs = length items)) as [Hlen|Hlen]; cbn [negb].
  - apply parts_checked; [|done]. eapply Forall2_impl; [exact (plain_parts n _ _ IH Hts Hplain)|]. intros e' t' He v Hin. apply He. by eapply Forall_forall in Hs.
  - split; [done|]. intros HF%Forall2_length. lia.
Qed.

Lemma plain_cases n cases cs : (forall e t, tree_of n graph e = Some t -> plain t = true -> checked n e t) ->
  mapM (part (tree_of n graph)) cases = Some cs -> forallb (fun c => match c with Some t => plain t | None => true end) cs = true ->
  Forall2 (fun o c => match o, c with Some e, Some t => checked n e t | None, None => True | _, _ => False end) cases cs.
Proof using.
  intros IH Hcs. apply (parts_spec (fun e t => plain t = true -> checked n e t)) in Hcs; [|exact IH].
  induction Hcs as [|o c cases cs Ho _ IHcs]; constructor; cbn [forallb] in *; apply andb_true_iff in H0 as [Hp Hps]; [|by apply IHcs].
  destruct o, c; try done. by apply Ho.
Qed.

Lemma host_check n : forall e t, tree_of n graph e = Some t -> plain t = true -> checked n e t.
Proof using Hv.
  induction n as [|n IHn]; intros e t; [done|]. cbn [tree_of validate_host_value].
  destruct (turbowasm_component_type_ref_validate graph e) eqn:Hr; [|done]. cbn [negb]. destruct (hollow _); [done|]. destruct (resolved graph Hv e Hr) as [-> (idx & Htv)].
  intros Htree Hplain v Hc.
  assert (Hkind : kind_of (resolve graph e) = tree_kind t).
  { revert Htree. destruct (resolve graph e); try done; rewrite ?tree_some; try (by intros [= <-]); try (by intros (? & _ & ->)).
    intros (a & _ & Hb)%bind_Some. by apply bind_Some in Hb as (b & _ & [= <-]). }
  case_bool_decide as Hk; cbn [negb]; [|split; [done|]; intros Hty; destruct Hk; by rewrite Hkind, (typed_kind _ _ Hty)].
  destruct (resolve graph e) as [|kind| |el|fut pl|fields|elements|cases|pl|ok error|labels|labels|fn|res|own res|tys ex] eqn:Hnode; try done;
    cbn [type_valid] in Htv; cbn [kind_of] in Hk.
  all: try (by apply tree_some in Htree as (? & _ & ->)).
  all: destruct Hc as [k x Hx|s Hs|items Hs|items Hs|items Hs|i p Hi Hp|i p Hi Hp|i p Hi Hp|i Hi|bits Hb|own' ? ? ? ?|fut' ? ? ? ?];
    cbn [kind_of_value] in Hk; subst; try done; try (by destruct own'); try (by destruct fut').
  - injection Htree as <-. rewrite scalar_checked by done. split; [by constructor|by inversion 1].
  - injection Htree as <-. rewrite (validate_text s Hs). split; [by constructor|by inversion 1].
  - apply tree_some in Htree as (t' & Ht' & ->). rewrite (items_checked _ el t').
    + split; [by constructor|by inversion 1].
    + eapply Forall_impl; [exact Hs|]. intros v Hcv. by apply IHn.
  - apply tree_some in Htree as (ts & Hts%mapM_Some & ->). etrans; [exact (sequence_checked n _ ts items IHn Hts Hplain Hs)|].
    split; [by constructor|by inversion 1].
  - apply tree_some in Htree as (ts & Hts%mapM_Some & ->). etrans; [exact (sequence_checked n _ ts items IHn Hts Hplain Hs)|].
    split; [by constructor|by inversion 1].
  - apply tree_some in Htree as (cs & Hcs & ->). pose proof (case_checked n (Variant cases) cs i p (plain_cases n _ _ IHn Hcs Hplain) ltac:(lia) Hp) as Hcase.
    etrans; [exact Hcase|]. split; [intros (c & Hc & Hval); by eapply has_variant|]. inversion 1 as [| | | | |? ? ? c ? _ Hc Hval| | | |]; subst. by exists c.
  - apply tree_some in Htree as (t' & Ht' & ->). assert (Hcs : mapM (part (tree_of n graph)) [None; Some pl] = Some [None; Some t']) by (cbn; by rewrite Ht').
    pose proof (case_checked n (Option_ pl) [None; Some t'] i p (plain_cases n _ _ IHn Hcs ltac:(cbn; by rewrite andb_true_r)) ltac:(lia) Hp) as Hcase.
    etrans; [exact Hcase|]. split; [intros (c & Hc & Hval); eapply has_option; [done|lia|done]|].
    inversion 1 as [| | | | | |? ? c ? Hc _ Hval| | |]; subst. by exists c.
  - apply bind_Some in Htree as (a & Ha & Hb). apply bind_Some in Hb as (b & Hb & [= <-]).
    assert (Hcs : mapM (part (tree_of n graph)) [ok; error] = Some [a; b]) by (cbn; rewrite Ha; cbn; by rewrite Hb).
    pose proof (case_checked n (Result ok error) [a; b] i p (plain_cases n _ _ IHn Hcs ltac:(cbn; by rewrite andb_true_r)) ltac:(lia) Hp) as Hcase.
    etrans; [exact Hcase|]. split; [intros (c & Hc & Hval); eapply has_result; [done|lia|done]|].
    inversion 1 as [| | | | | | |? ? ? c ? Hc _ Hval| |]; subst. by exists c.
  - injection Htree as <-. destruct (Z.ltb_spec i (Z.of_nat (length labels))) as [Hlt|Hge].
    + split; [intros _; apply has_enum; lia|done].
    + split; [done|]. inversion 1; subst. lia.
  - injection Htree as <-. apply andb_true_iff in Htv as [Hlab H32]. apply andb_true_iff in Hlab as [Hne _]. apply negb_true_iff, bool_decide_eq_false in Hne.
    apply negb_true_iff in H32. apply nonempty_length in Hne. pose proof (mask_exact (Z.of_nat (length labels)) bits ltac:(lia) ltac:(lia)) as Hm.
    destruct (_ =? 0).
    + split; [intros _; apply has_flags; split; [lia|by apply Hm]|done].
    + split; [done|]. inversion 1 as [| | | | | | | | |? ? [_ Hb']]; subst. by apply Hm in Hb'.
Qed.

End Graph.

End Values.

#[local] Strategy expand [turbowasm_component_canonical_validate_value].
#[local] Strategy 100 [validate_host_value tree_of].

(** C17. On a validated graph, for a type without handles, the check of a value that the
    host passes admits it exactly when it has the type: the right alternative at every
    level, as many elements as fields, the payload that the case asks for, labels and
    flags in range, characters that are Unicode scalar values and well-formed text. *)
Theorem admission_is_typing {H O R} graph owner_live (h : H) ref t (v : turbowasm_component_value O R) :
  turbowasm_component_type_graph_validate graph = true -> tree_of VALUE_MAX_DEPTH graph ref = Some t -> plain t = true -> c_value v ->
  turbowasm_component_canonical_validate_value graph owner_live h ref v = TURBOWASM_OK <-> of_type (fun _ _ => True) t v.
Proof.
  intros Hv Ht Hp Hc. unfold turbowasm_component_canonical_validate_value. rewrite one_depth. exact (host_check graph Hv owner_live h VALUE_MAX_DEPTH ref t Ht Hp v Hc).
Qed.

Lemma guest_value_members : c_value guest_value.
Proof.
  apply c_record. apply Forall_cons_2; [apply c_scalar; by split|]. apply Forall_cons_2; [|apply Forall_cons_2; [|apply Forall_nil_2]].
  - apply c_list. apply Forall_cons_2; [|apply Forall_cons_2; [|apply Forall_cons_2; [|apply Forall_nil_2]]].
    + apply c_variant; [split; vm_compute; discriminate|]. intros p [= <-]. apply c_scalar. split; vm_compute; [discriminate|reflexivity].
    + apply c_variant; [split; vm_compute; discriminate|]. intros p [= <-]. apply c_string.
      split; [|reflexivity|vm_compute; discriminate]. repeat apply Forall_cons_2; try apply Forall_nil_2; by split.
    + apply c_variant; [split; vm_compute; discriminate|]. by intros p.
  - apply c_flags. split; vm_compute; discriminate.
Qed.

Lemma guest_value_admitted : turbowasm_component_canonical_validate_value guest_graph (fun _ _ => true) tt (REF_INDEXED 3) guest_value = TURBOWASM_OK.
Proof. vm_compute. reflexivity. Qed.

Lemma admission_is_typing_witness : plain guest_tree = true /\ of_type (fun _ _ => True) guest_tree guest_value.
Proof.
  split; [reflexivity|]. apply (admission_is_typing guest_graph (fun _ _ => true) tt (REF_INDEXED 3) guest_tree guest_value);
    [exact guest_graph_validates|exact guest_graph_tree|reflexivity|exact guest_value_members|exact guest_value_admitted].
Defined.

End HostValues.
