(* ===== verification/Buffer.v ===== *)
(** * Buffers of streams and futures (src/component_buffer.c)

    An end of a stream or a future lends a buffer: cells of the host, or a region of a
    guest's memory. A rendezvous copies a batch from the buffer of the writer to that
    of the reader, and hands the obligation to release its values over.

    A cleared cell is a value of the kind [TYPE_UNDEFINED]. The callbacks of a guest's
    buffer belong to the host, like those for handles: they are parameters. *)

From S2P Require Import Prelude Value ExecStack Memory Strings TypeGraph Canonical CanonicalValue.

Module Buffer.
Import Value ExecStack Memory Strings TypeGraph Canonical CanonicalValue.

Section Buffers.
Context {H O R : Type} (run_release : R -> H -> turbowasm_status * H) (malloc_ok : Z -> bool) (sizeof_value : Z).
Context (owner_live : H -> O -> bool).

Abbreviation value := (turbowasm_component_value O R).
Abbreviation world := (world H).

Record guest_part := mk_guest {
  g_graph : turbowasm_component_type_graph;
  g_type : turbowasm_component_type_ref;
  g_memory : turbowasm_component_canonical_memory;
  g_hooks : handle_hooks (H := H) (O := O) (R := R);
  g_address : Z;
  commit : option (list value -> H -> turbowasm_status * list value * H);
  rollback : option (H -> turbowasm_status * H);
  begin_copy : option (H -> turbowasm_status * H);
  end_copy : option (H -> H)
}.

(** What the kind of a buffer selects: cells, [None] for the null pointer, and the
    admission of a batch; or a region of a guest. *)
Inductive buffer_place :=
  | BUFFER_HOST (values : option (list value)) (receive : option (list value -> H -> turbowasm_status * H))
  | BUFFER_GUEST (g : guest_part).

Record turbowasm_component_buffer := mk_buffer { place_ : buffer_place; length_ : Z; progress : Z; leased : bool }.

Definition cleared : value := V_scalar TYPE_UNDEFINED 0.

Definition moved (b : turbowasm_component_buffer) (count : Z) : turbowasm_component_buffer :=
  mk_buffer (place_ b) (length_ b) (u32 (progress b + count)) (leased b).

(** The cells from [progress] on are replaced. *)
Definition put_cells (b : turbowasm_component_buffer) (batch : list value) : turbowasm_component_buffer :=
  match place_ b with
  | BUFFER_HOST (Some values) receive =>
      let p := Z.to_nat (progress b) in
      mk_buffer (BUFFER_HOST (Some (take p values ++ batch ++ drop (p + length batch) values)) receive) (length_ b) (progress b) (leased b)
  | _ => b
  end.

(** ** Before a buffer is lent *)

Definition is_none {A} (o : option A) : bool := match o with None => true | _ => false end.

Definition bit_set (features flag : Z) : bool := negb (features .& flag =? 0).

Fixpoint cells_check (check : value -> turbowasm_status) (cells : list value) : turbowasm_status :=
  match cells with
  | [] => TURBOWASM_OK
  | v :: cells => match check v with TURBOWASM_OK => cells_check check cells | status => status end
  end.

(** An empty cell: no kind, nothing to release. *)
Definition cell_empty (v : value) : turbowasm_status :=
  match v with
  | V_scalar TYPE_UNDEFINED _ => TURBOWASM_OK
  | _ => TURBOWASM_INVALID_ARGUMENT
  end.

Definition turbowasm_component_buffer_validate (b : turbowasm_component_buffer) (graph : turbowasm_component_type_graph) (has_payload : bool)
    (payload : turbowasm_component_type_ref) (destination : bool) (w : world) : turbowasm_status :=
  if leased b then TURBOWASM_INVALID_ARGUMENT
  else if negb has_payload || (length_ b =? 0) then TURBOWASM_OK
  else match place_ b with
       | BUFFER_GUEST g =>
           if negb (turbowasm_component_value_type_equal graph payload (g_graph g) (g_type g)) then TURBOWASM_TYPE_MISMATCH
           else match turbowasm_component_transfer_type_features (g_graph g) (g_type g) with
                | None => TURBOWASM_TYPE_MISMATCH
                | Some features =>
                    if (bit_set features VALUE_RESOURCES &&
                          if destination then is_none (resource_lower (g_hooks g)) else is_none (resource_lift (g_hooks g))) ||
                       (bit_set features VALUE_ENDPOINTS &&
                          if destination then is_none (endpoint_lower (g_hooks g)) else is_none (endpoint_lift (g_hooks g))) ||
                       (destination && bit_set features VALUE_DYNAMIC_MEMORY && is_none (guest_realloc (g_memory g))) ||
                       (destination && bit_set features (VALUE_RESOURCES .| VALUE_ENDPOINTS) && (is_none (commit g) || is_none (rollback g)))
                    then TURBOWASM_UNSUPPORTED
                    else if xorb (is_none (commit g)) (is_none (rollback g)) || xorb (is_none (begin_copy g)) (is_none (end_copy g))
                    then TURBOWASM_INVALID_ARGUMENT
                    else match fst (turbowasm_component_canonical_validate_range (g_graph g) (g_memory g) (g_type g) (g_address g) (length_ b) w) with
                         | inl status => status
                         | inr _ => TURBOWASM_OK
                         end
                end
       | BUFFER_HOST None _ => TURBOWASM_INVALID_ARGUMENT
       | BUFFER_HOST (Some values) _ =>
           if length_ b >? SIZE_MAX / sizeof_value then TURBOWASM_INVALID_ARGUMENT
           else cells_check (if destination then cell_empty
                             else turbowasm_component_canonical_validate_value graph owner_live (w_host w) payload)
                  (take (Z.to_nat (length_ b)) values)
       end.

(** ** A rendezvous *)

Definition guest_stride (g : guest_part) (length : Z) : cx H Z :=
  turbowasm_component_canonical_validate_range (g_graph g) (g_memory g) (g_type g) (g_address g) length.

Definition stride_of (b : turbowasm_component_buffer) : cx H Z :=
  match place_ b with BUFFER_GUEST g => guest_stride g (length_ b) | BUFFER_HOST _ _ => mret 0 end.

(** The values of a batch, with the source behind it: those of a guest are lifted first,
    those of a host stay in their cells. *)
Definition take_batch (source : turbowasm_component_buffer) (stride count : Z) : cx H (list value * turbowasm_component_buffer) :=
  match place_ source with
  | BUFFER_GUEST g =>
      _ ← need (negb (count >? SIZE_MAX / sizeof_value)) TURBOWASM_OUT_OF_MEMORY;
      _ ← need (malloc_ok (count * sizeof_value)) TURBOWASM_OUT_OF_MEMORY;
      batch ← lift_items run_release (turbowasm_component_canonical_lift_value run_release (g_graph g) (g_memory g) malloc_ok sizeof_value (g_hooks g))
                (g_type g) (g_address g) stride (Z.to_nat count) (progress source) [];
      mret (batch, moved source count)
  | BUFFER_HOST values _ => mret (take (Z.to_nat count) (drop (Z.to_nat (progress source)) (default [] values)), source)
  end.

Definition is_guest (b : turbowasm_component_buffer) : bool := match place_ b with BUFFER_GUEST _ => true | _ => false end.

Definition run_commit (g : guest_part) (batch : list value) (w : world) : turbowasm_status * list value * world :=
  match commit g with
  | None => (TURBOWASM_OK, batch, w)
  | Some accept => let '(status, batch, h) := accept batch (w_host w) in (status, batch, mk_world (w_store w) h)
  end.

Definition run_rollback (g : guest_part) (w : world) : world :=
  match rollback g with Some undo => mk_world (w_store w) (snd (undo (w_host w))) | None => w end.

(** The batch at the guest: lowered and committed, or rolled back. A commit may change
    the values that it takes over. *)
Definition lower_batch (g : guest_part) (stride progress : Z) (batch : list value) (w : world) : turbowasm_status * list value * world :=
  match lower_items (turbowasm_component_canonical_lower_value (g_graph g) (g_memory g) (g_hooks g)) (g_type g) (g_address g) stride progress batch w with
  | (inl status, w) => (status, batch, run_rollback g w)
  | (inr _, w) =>
      match run_commit g batch w with
      | (TURBOWASM_OK, batch, w) => (TURBOWASM_OK, batch, w)
      | (status, batch, w) => (status, batch, run_rollback g w)
      end
  end.

(** Temporary values are released when the copy fails; the first status stays. *)
Definition drop_batch (source : turbowasm_component_buffer) (batch : list value) (w : world) : world :=
  if is_guest source then mk_world (w_store w) (discard run_release batch (w_host w)) else w.

(** The source after its cells are given away. *)
Definition give_away (source : turbowasm_component_buffer) (count : Z) : turbowasm_component_buffer :=
  if is_guest source then source else moved (put_cells source (replicate (Z.to_nat count) cleared)) count.

Definition copy_values (source destination : turbowasm_component_buffer) (has_payload : bool) (count : Z) (w : world)
    : turbowasm_status * turbowasm_component_buffer * turbowasm_component_buffer * world :=
  if (count =? 0) || (progress source >? length_ source) || (progress destination >? length_ destination) ||
     (count >? length_ source - progress source) || (count >? length_ destination - progress destination)
  then (TURBOWASM_INVALID_ARGUMENT, source, destination, w)
  else if negb has_payload then (TURBOWASM_OK, moved source count, moved destination count, w)
  else match (s ← stride_of source; d ← stride_of destination; '(batch, source) ← take_batch source s count; mret (d, batch, source)) w with
       | (inl status, w) => (status, source, destination, w)
       | (inr (stride, batch, source), w) =>
           match place_ destination with
           | BUFFER_GUEST g =>
               match lower_batch g stride (progress destination) batch w with
               | (TURBOWASM_OK, batch, w) =>
                   let '(status, h) := release_all (turbowasm_component_value_destroy run_release) batch (w_host w) in
                   (status, give_away source count, moved destination count, mk_world (w_store w) h)
               | (status, batch, w) => (status, put_cells source batch, destination, drop_batch source batch w)
               end
           | BUFFER_HOST _ receive =>
               let '(status, h) := match receive with Some accept => accept batch (w_host w) | None => (TURBOWASM_OK, w_host w) end in
               if negb (bool_decide (status = TURBOWASM_OK)) then (status, source, destination, drop_batch source batch (mk_world (w_store w) h))
               else (TURBOWASM_OK, give_away source count, moved (put_cells destination batch) count, mk_world (w_store w) h)
           end
       end.

(** The callbacks around a copy. *)
Definition begin_of (b : turbowasm_component_buffer) : option (H -> turbowasm_status * H) :=
  match place_ b with BUFFER_GUEST g => begin_copy g | BUFFER_HOST _ _ => None end.

Definition end_of (b : turbowasm_component_buffer) : H -> H :=
  match place_ b with BUFFER_GUEST g => match begin_copy g, end_copy g with Some _, Some stop => stop | _, _ => fun h => h end | BUFFER_HOST _ _ => fun h => h end.

Definition enter (b : turbowasm_component_buffer) (h : H) : turbowasm_status * H :=
  match begin_of b with Some start => start h | None => (TURBOWASM_OK, h) end.

Definition turbowasm_component_buffer_copy (source destination : turbowasm_component_buffer) (has_payload : bool) (count : Z) (w : world)
    : turbowasm_status * turbowasm_component_buffer * turbowasm_component_buffer * world :=
  if negb has_payload then copy_values source destination has_payload count w
  else
    let '(status, h) := enter source (w_host w) in
    if negb (bool_decide (status = TURBOWASM_OK)) then (status, source, destination, mk_world (w_store w) h)
    else
      let '(status, h) := enter destination h in
      if negb (bool_decide (status = TURBOWASM_OK)) then (status, source, destination, mk_world (w_store w) (end_of source h))
      else
        let '(status, source', destination', w) := copy_values source destination has_payload count (mk_world (w_store w) h) in
        (status, source', destination', mk_world (w_store w) (end_of source (end_of destination (w_host w)))).

End Buffers.

End Buffer.
