(* ===== verification/BufferRelay.v ===== *)
(** * A batch goes through a guest's buffer

    The theorem on [turbowasm_component_buffer_copy]: what a host writes into the buffer
    of a guest is what another host reads out of it. *)

From S2P Require Import Prelude Value ExecStack Memory Unicode Strings StringCodec StringSpec StringLower.
From S2P Require Import TypeGraph TypeTrees Canonical CanonicalSpec CanonicalValue CanonicalHeap CanonicalRound ValueRoundtrip Buffer.

Module BufferRelay.
Import ExecStack Memory Strings StringCodec StringSpec StringLower TypeGraph TypeTrees Canonical CanonicalSpec CanonicalValue CanonicalHeap CanonicalRound ValueRoundtrip Buffer.

#[local] Strategy expand [turbowasm_component_canonical_layout turbowasm_component_canonical_lift_value turbowasm_component_canonical_lower_value].
#[local] Strategy 100 [lift_value_inner lower_value_inner canonical_layout_inner tree_of].

(** ** Values without handles leave nothing to release *)

Section Release.
Context {H O R : Type} (run_release : R -> H -> turbowasm_status * H) (fits : tree -> turbowasm_component_value O R -> Prop).

Abbreviation destroy := (turbowasm_component_value_destroy (O := O) run_release).
Abbreviation silent v := (forall h, destroy v h = (TURBOWASM_OK, h)).

Lemma release_silent items : Forall (fun v => silent v) items -> forall h, release_all destroy items h = (TURBOWASM_OK, h).
Proof using.
  unfold release_all. induction 1 as [|v items Hv _ IH]; intros h; [done|]. cbn [foldl]. rewrite Hv. apply IH.
Qed.

Lemma parts_silent ts items : Forall (fun t => forall v, of_type fits t v -> silent v) ts -> Forall2 (of_type fits) ts items -> Forall (fun v => silent v) items.
Proof using.
  intros Hts Hi. induction Hi as [|t v ts items Ht _ IH]; [constructor|]. inversion Hts as [|? ? Hv Hts']; subst. constructor; [by apply Hv|by apply IH].
Qed.

Lemma typed_silent t : forall v, of_type fits t v -> silent v.
Proof using.
  induction t as [k| |t IH|fu o _|ns ts IH|ts IH|ns cs IH|t IH|a b IHa IHb|l|l|ow r] using tree_ind'; intros v Hv h; inversion Hv as
    [|s|t0 items Hitems|ns0 ts0 items Hitems|ts0 items Hitems|ns0 cs0 i c p Hi Hc Hp|t0 i c p Hc Hi Hp|a0 b0 i c p Hc Hi Hp| |]; subst; try done;
    cbn [turbowasm_component_value_destroy].
  - apply release_silent. eapply Forall_impl; [exact Hitems|]. intros v Hv'. by apply IH.
  - by apply release_silent, (parts_silent ts).
  - by apply release_silent, (parts_silent ts).
  - rewrite Forall_forall in IH. apply list_elem_of_lookup_2, IH in Hc. destruct Hp; [done|]. by apply Hc.
  - destruct Hp as [|t' v' Hv']; [done|]. destruct (Z.to_nat i) as [|[|]]; simplify_eq/=. by apply IH.
  - destruct Hp as [|t' v' Hv']; [done|]. destruct (Z.to_nat i) as [|[|]]; simplify_eq/=; [by apply IHa|by apply IHb].
Qed.

End Release.

(** ** The two halves *)

Lemma copy_admitted count n p m q : 0 < count -> p + count <= n -> q + count <= m ->
  (count =? 0) || (p >? n) || (q >? m) || (count >? n - p) || (count >? m - q) = false.
Proof. intros Hc Hn Hm. rewrite !Z.gtb_ltb, (proj2 (Z.eqb_neq count 0)), !(proj2 (Z.ltb_ge _ _)) by lia. done. Qed.

Section Relay.
Context (cm : turbowasm_component_canonical_memory) (Hk : 0 <= cm_memory cm) (Hvalid : memory_valid cm = true).
Context (f : realloc_fn) (Hf : guest_realloc cm = Some f) {GH : GuestHeap cm f}.
Context {H O R : Type} (malloc_ok : Z -> bool) (Hmalloc : forall n, malloc_ok n = true).
Context (run_release : R -> H -> turbowasm_status * H).
Context (graph : turbowasm_component_type_graph) (Hv : turbowasm_component_type_graph_validate graph = true).
Context (sizeof_value : Z) (Hsizeof : 0 < sizeof_value <= 65536) (hooks : handle_hooks (H := H) (O := O) (R := R)).
Context (e : turbowasm_component_type_ref) (t : tree) (Ht : tree_of VALUE_MAX_DEPTH graph e = Some t).

Abbreviation value := (turbowasm_component_value O R).
Abbreviation ptype := (pointer_type cm).
Abbreviation ptr := (pointer_size ptype).
Abbreviation sz := (tree_size ptr t).
Abbreviation al := (tree_alignment ptr t).
Abbreviation lift_top := (turbowasm_component_canonical_lift_value run_release graph cm malloc_ok sizeof_value hooks).
Abbreviation lower_top := (turbowasm_component_canonical_lower_value graph cm hooks).

(** Whole values are lowered and lifted like the parts of one. *)
Lemma value_codec : codec cm f lift_top lower_top e t.
Proof using Hk Hvalid Hf GH Hmalloc Hv Hsizeof Ht.
  intros v L d address r Hty HL Hr Hlo Hhi Hal. apply (lowers_size cm Hk). intros Hmax. destruct (region_bounds _ _ _ HL Hr) as (Hr0 & Hr1 & Hr2).
  unfold SIZE_MAX in Hmax. destruct (tree_laid_out cm Hvalid graph Hv VALUE_MAX_DEPTH e t) as (Hlay & Hpow & Hsz & _); [done|done|lia|].
  apply power_positive in Hpow. unfold turbowasm_component_canonical_lower_value, turbowasm_component_canonical_lift_value. rewrite one_depth.
  apply lowers_step. eapply reads_mono; [apply (value_place_spec cm Hk Hvalid graph e t d address Hlay); (done || lia)|]. intros _ _.
  eapply lowers_mono; [by apply (values_round cm Hk Hvalid f Hf malloc_ok Hmalloc run_release graph Hv sizeof_value Hsizeof hooks VALUE_MAX_DEPTH (le_n _) e t Ht v L d address r)|done|].
  intros u L' d' [Hgrow _] _ Hst d2 Ha. apply reads_then. eapply reads_mono; [apply (value_place_spec cm Hk Hvalid graph e t d2 address Hlay)|by intros; apply Hst];
    try (done || lia). destruct Ha. lia.
Qed.

Lemma stride_spec d address m : 0 < m <= UINT32_MAX -> 0 <= address -> address + m * sz <= zlen d -> address mod al = 0 ->
  (ptype = POINTER_I32 -> address <= UINT32_MAX) ->
  reads cm (H := H) d (turbowasm_component_canonical_validate_range graph cm e address m) (fun s => s = sz).
Proof using Hk Hvalid Hv Hsizeof Ht.
  intros Hm Ha Hin Hal H32. apply (reads_size cm Hk). intros Hmax. unfold SIZE_MAX in Hmax.
  pose proof (size_positive graph Hv ptype _ e t Ht) as Hsz.
  destruct (tree_laid_out cm Hvalid graph Hv VALUE_MAX_DEPTH e t) as (Hlay & Hpow & _); [done|done|nia|]. apply power_positive in Hpow.
  unfold turbowasm_component_canonical_validate_range. rewrite (proj2 (Z.eqb_neq m 0)) by lia. cbn [negb need]. apply reads_then, reads_done, reads_then.
  apply reads_validate; [done|]. apply reads_then. eapply reads_pure; [exact Hlay|]. cbn [alignment size].
  assert (Hdiv : sz <= UINT64_MAX / m) by (apply Z.div_le_lower_bound; lia).
  rewrite Hal, (proj2 (Z.eqb_neq _ 0)), !Z.gtb_ltb, (proj2 (Z.ltb_ge _ sz)) by lia.
  assert (E32 : (ptype =? POINTER_I32) && (UINT32_MAX <? address) = false).
  { destruct (Z.eqb_spec ptype POINTER_I32) as [E|]; [|done]. cbn [andb]. apply Z.ltb_ge. by apply H32. }
  rewrite E32. cbn [negb orb Z.eqb need]. apply reads_then, reads_done.
  assert (Hw : u64 (sz * m) = sz * m) by (apply wrap_id; unfold is_uint, UINT64_MAX in *; nia). rewrite Hw. unfold SIZE_MAX.
  rewrite (proj2 (Z.ltb_ge UINT64_MAX (sz * m))), (proj2 (Z.ltb_ge (UINT64_MAX - sz * m) address)) by lia. cbn [negb orb need]. apply reads_then, reads_done, reads_then.
  apply (reads_bounds cm Hk); [lia|nia|lia|]. by apply reads_done.
Qed.

(** *** Buffers *)

(** Cells of a host, and a region with room for [m] values, without callbacks. *)
Definition host_buffer (cells : list value) (p : Z) : turbowasm_component_buffer (H := H) :=
  mk_buffer (BUFFER_HOST (Some cells) None) (zlen cells) p false.

Definition guest_buffer (address m q : Z) : turbowasm_component_buffer :=
  mk_buffer (BUFFER_GUEST (mk_guest graph e cm hooks address None None None None)) m q false.

Abbreviation copy := (turbowasm_component_buffer_copy (O := O) run_release malloc_ok sizeof_value).
Abbreviation copy_inner := (copy_values (O := O) run_release malloc_ok sizeof_value).

Lemma copy_without_callbacks (source destination : turbowasm_component_buffer) count w : begin_of source = None -> begin_of destination = None ->
  copy source destination true count w = copy_inner source destination true count w.
Proof using.
  intros Hs Hd. unfold turbowasm_component_buffer_copy, enter. rewrite Hs, Hd. cbn [negb]. rewrite bool_decide_eq_true_2 by done. cbn [negb].
  assert (Hend : forall b h, begin_of b = None -> end_of (H := H) (O := O) (R := R) b h = h).
  { intros b h. unfold begin_of, end_of. destruct (place_ b) as [|g]; [done|]. by intros ->. }
  destruct w as [w h]. cbn [w_store w_host]. destruct (copy_inner _ _ _ _ _) as [[[st s'] d'] [w' h']]. cbn [w_store w_host]. by rewrite !Hend.
Qed.

Lemma cells_put (pre old post new : list value) : length new = length old ->
  put_cells (host_buffer (pre ++ old ++ post) (zlen pre)) new =
  mk_buffer (BUFFER_HOST (Some (pre ++ new ++ post)) None) (zlen (pre ++ old ++ post)) (zlen pre) false.
Proof using.
  intros Hl. unfold put_cells, host_buffer. cbn [place_ length_ progress leased]. rewrite Nat2Z.id, take_app_length. repeat f_equal.
  by rewrite Hl, <- drop_drop, drop_app_length, drop_app_length.
Qed.

Section Batch.
Context (before batch after : list value) (address m q : Z) (L : list (Z * Z)).
Context (Hbatch : batch <> []) (Hty : Forall (has_type cm f t) batch) (Hcells : zlen (before ++ batch ++ after) <= UINT32_MAX).
Context (Hq : 0 <= q) (Hqm : q + zlen batch <= m) (Hm : m <= UINT32_MAX) (Hal : address mod al = 0).
Context (H32 : ptype = POINTER_I32 -> address <= UINT32_MAX).

Abbreviation count := (zlen batch).

Lemma count_positive : 0 < count.
Proof using Hbatch. apply nonempty_length in Hbatch as Hl. clear - Hl. lia. Qed.

Lemma cells_batch : take (Z.to_nat count) (drop (Z.to_nat (zlen before)) (before ++ batch ++ after)) = batch.
Proof using. by rewrite !Nat2Z.id, drop_app_length, take_app_length. Qed.

(** A host writes to the guest. *)
Lemma write_half w d h : live cm w ((address, m * sz) :: L) -> mem cm w d ->
  match copy_inner (host_buffer (before ++ batch ++ after) (zlen before)) (guest_buffer address m q) true count (mk_world w h) with
  | (TURBOWASM_OK, source', destination', u) =>
      source' = mk_buffer (BUFFER_HOST (Some (before ++ replicate (length batch) cleared ++ after)) None) (zlen (before ++ batch ++ after))
        (zlen before + count) false /\
      destination' = guest_buffer address m (q + count) /\ w_host u = h /\
      exists d', mem cm (w_store u) d' /\ agree (covers L) d d' /\
        reads cm (H := H) d' (lift_items run_release lift_top e address sz (length batch) q []) (fun vs => map norm vs = map norm batch)
  | (status, source', destination', _) =>
      refused cm f status /\ source' = host_buffer (before ++ batch ++ after) (zlen before) /\ destination' = guest_buffer address m q
  end.
Proof using Hk Hvalid Hf GH Hmalloc Hv Hsizeof Ht Hbatch Hty Hcells Hq Hqm Hm Hal H32.
  intros Hl Hd. pose proof count_positive as Hpos. pose proof (live_ok _ _ _ _ Hl Hd) as HL.
  destruct (region_bounds _ _ (address, m * sz) HL ltac:(by left)) as (H0 & Hs & Hin). cbn [fst snd] in H0, Hs, Hin.
  pose proof (size_positive graph Hv ptype _ e t Ht) as Hsz.
  destruct (tree_laid_out cm Hvalid graph Hv VALUE_MAX_DEPTH e t) as (_ & Hpow & _ & Hmod);
    [done|done|pose proof (mem_size cm Hk _ _ Hd) as [Hmax _]; unfold SIZE_MAX in Hmax; nia|]. apply power_positive in Hpow.
  assert (Hlen : zlen (before ++ batch ++ after) = zlen before + (count + zlen after)) by (rewrite !length_app; lia).
  pose proof (cells_put before batch after batch eq_refl) as Hkeep.
  pose proof (cells_put before batch after (replicate (length batch) cleared) ltac:(apply length_replicate)) as Hclear.
  unfold copy_values. cbn [length_ progress host_buffer guest_buffer]. rewrite copy_admitted by lia. cbn [negb].
  destruct (stride_spec d address m ltac:(lia) H0 Hin Hal H32 w h Hd) as (s & Es & ->).
  assert (Etake : (s ← stride_of (host_buffer (before ++ batch ++ after) (zlen before)); d ← stride_of (guest_buffer address m q);
      '(b, source) ← take_batch run_release malloc_ok sizeof_value (host_buffer (before ++ batch ++ after) (zlen before)) s count; mret (d, b, source)) (mk_world w h) =
      (inr (sz, batch, host_buffer (before ++ batch ++ after) (zlen before)), mk_world w h)).
  { unfold mbind, cx_bind. cbn [stride_of host_buffer guest_buffer place_ mret cx_ret length_]. unfold guest_stride. cbn [g_graph g_memory g_type g_address].
    rewrite Es. unfold take_batch. cbn [host_buffer place_ progress from_option id mret cx_ret]. by rewrite cells_batch. }
  rewrite Etake. clear Etake. cbn [place_ guest_buffer progress].
  pose proof (lower_items_spec cm Hk f run_release sizeof_value Hsizeof lift_top lower_top e t value_codec Hsz Hmod Hpow batch q _ d address (address, m * sz) Hty HL
    ltac:(by left) Hq H0 ltac:(cbn [fst]; nia) ltac:(cbn [fst snd]; nia) Hal w h Hl Hd) as Hlow.
  unfold lower_batch. cbn [g_graph g_memory g_hooks g_type g_address]. destruct (lower_items _ _ _ _ _ _ _) as [[st|u1] [w' h']].
  - destruct st; try (by destruct Hlow); (split; [exact Hlow|]; split; [exact Hkeep|done]).
  - cbn [run_commit commit w_host w_store] in Hlow |- *. destruct Hlow as (-> & L' & d' & Hl' & Hd' & Hag & Hst).
    rewrite release_silent; [|eapply Forall_impl; [exact Hty|]; intros v Hv'; by eapply typed_silent].
    split; [|split; [|split; [done|]]].
    + unfold give_away. cbn [is_guest host_buffer place_]. rewrite Nat2Z.id, Hclear. unfold moved. cbn [place_ length_ progress leased]. rewrite wrap_id; [done|].
      unfold is_uint, UINT32_MAX in *. lia.
    + unfold moved, guest_buffer. cbn [place_ length_ progress leased]. rewrite wrap_id; [done|]. unfold is_uint, UINT32_MAX in *. lia.
    + exists d'. split; [done|]. split.
      * eapply agree_mono; [|exact Hag]. intros i _ Hi. split; [apply (covers_app [(address, m * sz)]); by right|]. intros Hw.
        destruct Hi as (r & Hr & Hi). destruct HL as [_ Hp]. eapply (apart_within (address, m * sz) r i); [|unfold within in *; cbn [fst snd]; nia|exact Hi].
        by eapply (pairs_app [(address, m * sz)] L Hp); [left|].
      * apply (Hst d' (agree_self _ _) []).
Qed.

(** A host reads from the guest. *)
Lemma read_half (pre empty post : list value) w d h : length empty = length batch -> zlen (pre ++ empty ++ post) <= UINT32_MAX ->
  mem cm w d -> 0 <= address -> address + m * sz <= zlen d ->
  reads cm (H := H) d (lift_items run_release lift_top e address sz (length batch) q []) (fun vs => map norm vs = map norm batch) ->
  exists got, copy_inner (guest_buffer address m q) (host_buffer (pre ++ empty ++ post) (zlen pre)) true count (mk_world w h) =
    (TURBOWASM_OK, guest_buffer address m (q + count),
     mk_buffer (BUFFER_HOST (Some (pre ++ got ++ post)) None) (zlen (pre ++ empty ++ post)) (zlen pre + count) false, mk_world w h) /\
    map norm got = map norm batch.
Proof using Hk Hvalid Hmalloc Hv Hsizeof Ht Hbatch Hcells Hq Hqm Hm Hal H32.
  intros He Hcells' Hd H0 Hin Hlift. pose proof count_positive as Hpos.
  assert (Hlen : zlen (pre ++ empty ++ post) = zlen pre + (count + zlen post)) by (rewrite !length_app; lia).
  destruct (stride_spec d address m ltac:(lia) H0 Hin Hal H32 w h Hd) as (s & Es & ->). destruct (Hlift w h Hd) as (got & Eg & Hn). exists got. split; [|done].
  assert (Hgot : length got = length empty) by (rewrite He, <- (length_map norm got), Hn; apply length_map).
  pose proof (cells_put pre empty post got Hgot) as Hput.
  unfold copy_values. cbn [length_ progress host_buffer guest_buffer]. rewrite copy_admitted by lia. cbn [negb].
  assert (Hfit : (count >? SIZE_MAX / sizeof_value) = false).
  { rewrite Z.gtb_ltb. apply Z.ltb_ge, Z.div_le_lower_bound; [lia|]. unfold SIZE_MAX, UINT64_MAX, UINT32_MAX in *. nia. }
  assert (Etake : (s ← stride_of (guest_buffer address m q); d ← stride_of (host_buffer (pre ++ empty ++ post) (zlen pre));
      '(b, source) ← take_batch run_release malloc_ok sizeof_value (guest_buffer address m q) s count; mret (d, b, source)) (mk_world w h) =
      (inr (0, got, guest_buffer address m (q + count)), mk_world w h)).
  { unfold mbind, cx_bind. cbn [stride_of host_buffer guest_buffer place_ mret cx_ret length_]. unfold guest_stride. cbn [g_graph g_memory g_type g_address].
    rewrite Es. unfold take_batch. cbn [guest_buffer place_ progress g_graph g_memory g_type g_address g_hooks]. rewrite Hfit, Hmalloc, Nat2Z.id.
    cbn [negb need mret cx_ret]. unfold mbind, cx_bind. cbn [mret cx_ret]. rewrite Eg. unfold moved, guest_buffer. cbn [place_ length_ progress leased].
    rewrite wrap_id; [done|]. unfold is_uint, UINT32_MAX in *. lia. }
  rewrite Etake. cbn [place_ host_buffer w_host w_store]. rewrite bool_decide_eq_true_2 by done. cbn [negb]. repeat f_equal.
  change (put_cells _ got) with (put_cells (host_buffer (pre ++ empty ++ post) (zlen pre)) got). rewrite Hput. unfold moved. cbn [place_ length_ progress leased].
  rewrite wrap_id; [done|]. unfold is_uint, UINT32_MAX in *. lia.
Qed.

End Batch.

End Relay.

(** ** The relay *)


(** *** An example *)

(** Two variants, one with text, at the second place of a buffer for three. *)
Definition relay_tree : tree := TVariant [[110]; [102]; [116]] [None; Some (TScalar TYPE_S16); Some TString].

Definition relay_batch : list (turbowasm_component_value unit unit) :=
  [V_variant 1 (Some (V_scalar TYPE_S16 (-5))); V_variant 2 (Some (V_string text_string))].

Abbreviation relay_writer := (host_buffer (H := unit) ([] ++ relay_batch ++ []) (zlen (@nil (turbowasm_component_value unit unit)))).
Abbreviation relay_reader := (host_buffer (H := unit) ([cleared] ++ [cleared; cleared] ++ []) (zlen [@cleared unit unit])).
Abbreviation relay_guest := (guest_buffer guest_canonical guest_graph no_hooks (REF_INDEXED 0) 16 3).
Abbreviation relay_copy := (turbowasm_component_buffer_copy (H := unit) (O := unit) (R := unit) (fun _ h => (TURBOWASM_OK, h)) (fun _ => true) 64).

Lemma relay_tree_of : tree_of VALUE_MAX_DEPTH guest_graph (REF_INDEXED 0) = Some relay_tree.
Proof. vm_compute. reflexivity. Qed.

Lemma relay_typed : Forall (has_type guest_canonical (growing_realloc (fun _ => true) 0 0) relay_tree) relay_batch.
Proof.
  apply Forall_cons_2; [|apply Forall_cons_2; [|apply Forall_nil_2]].
  - eapply has_variant; [split; vm_compute; discriminate|reflexivity|]. apply case_some, has_scalar. split; vm_compute; [discriminate|reflexivity].
  - eapply has_variant; [split; vm_compute; discriminate|reflexivity|]. apply case_some, has_string; [|apply text_string_valid|split; [vm_compute; discriminate|intros Ho; discriminate Ho]].
    split; [|reflexivity|vm_compute; discriminate]. repeat apply Forall_cons_2; try apply Forall_nil_2; by split.
Qed.

Lemma relay_written : fst (fst (fst (relay_copy relay_writer (relay_guest 1) true 2 (mk_world guest_store tt)))) = TURBOWASM_OK.
Proof. vm_compute. reflexivity. Qed.


End BufferRelay.
