(* ===== verification/Sections.v ===== *)
(** * The section readers (src/validate_linkage.c, src/validate_data.c,
    src/validate_element.c, src/validate.c, src/module.c)

    The readers of the sections of a module fill the validation context and the
    summary. They run in the monad [ld] of the section's reader, the type heap,
    the context and the summary, which stops at the first status that is not OK.
    A load that fails discards all of it. [realloc_ok n], [calloc_ok n] and
    [malloc_ok n] say whether the allocator grants [n] bytes. Null-pointer
    arguments are not modelled. *)

From S2P Require Import Prelude Reader Types ExecStack TypeEq TypeReader Context Validator Unicode.

Module Sections.
Import Reader Types ExecStack TypeEq TypeReader Context.

(** ** State *)

(** [imported k] and [declared k] are the counters of imported and of defined
    items of one kind ([imported_function_count], [function_count], ...).
    [start_function] is [Some] when [has_start], [declared_data] when
    [has_data_count]. *)
Record turbowasm_module_summary := mk_summary {
  section_mask : Z;
  custom_sections : Z;
  types_read : Z;
  imported : turbowasm_external_kind -> Z;
  declared : turbowasm_external_kind -> Z;
  code_count : Z;
  export_count : Z;
  element_count : Z;
  start_function : option Z;
  declared_data : option Z;
  data_segment_count : Z
}.

Definition zero_summary : turbowasm_module_summary :=
  mk_summary 0 0 0 (fun _ => 0) (fun _ => 0) 0 0 0 None None 0.

(** Assigning one field. *)
Definition assign (f : turbowasm_external_kind -> Z) (k : turbowasm_external_kind) (v : Z) : turbowasm_external_kind -> Z :=
  fun k' => if decide (k' = k) then v else f k'.

Definition set_section_mask v s := mk_summary v (custom_sections s) (types_read s) (imported s) (declared s) (code_count s)
  (export_count s) (element_count s) (start_function s) (declared_data s) (data_segment_count s).
Definition set_custom_sections v s := mk_summary (section_mask s) v (types_read s) (imported s) (declared s) (code_count s)
  (export_count s) (element_count s) (start_function s) (declared_data s) (data_segment_count s).
Definition set_types_read v s := mk_summary (section_mask s) (custom_sections s) v (imported s) (declared s) (code_count s)
  (export_count s) (element_count s) (start_function s) (declared_data s) (data_segment_count s).
Definition set_imported k v s := mk_summary (section_mask s) (custom_sections s) (types_read s) (assign (imported s) k v) (declared s) (code_count s)
  (export_count s) (element_count s) (start_function s) (declared_data s) (data_segment_count s).
Definition set_declared k v s := mk_summary (section_mask s) (custom_sections s) (types_read s) (imported s) (assign (declared s) k v) (code_count s)
  (export_count s) (element_count s) (start_function s) (declared_data s) (data_segment_count s).
Definition set_code_count v s := mk_summary (section_mask s) (custom_sections s) (types_read s) (imported s) (declared s) v
  (export_count s) (element_count s) (start_function s) (declared_data s) (data_segment_count s).
Definition set_export_count v s := mk_summary (section_mask s) (custom_sections s) (types_read s) (imported s) (declared s) (code_count s)
  v (element_count s) (start_function s) (declared_data s) (data_segment_count s).
Definition set_element_count v s := mk_summary (section_mask s) (custom_sections s) (types_read s) (imported s) (declared s) (code_count s)
  (export_count s) v (start_function s) (declared_data s) (data_segment_count s).
Definition set_start_function v s := mk_summary (section_mask s) (custom_sections s) (types_read s) (imported s) (declared s) (code_count s)
  (export_count s) (element_count s) (Some v) (declared_data s) (data_segment_count s).
Definition set_declared_data v s := mk_summary (section_mask s) (custom_sections s) (types_read s) (imported s) (declared s) (code_count s)
  (export_count s) (element_count s) (start_function s) (Some v) (data_segment_count s).
Definition set_data_segment_count v s := mk_summary (section_mask s) (custom_sections s) (types_read s) (imported s) (declared s) (code_count s)
  (export_count s) (element_count s) (start_function s) (declared_data s) v.

Record loading := mk_loading {
  l_reader : turbowasm_reader;
  l_heap : type_heap;
  l_context : turbowasm_validation_context;
  l_summary : turbowasm_module_summary
}.

Definition ld (A : Type) : Type := loading -> (turbowasm_status + A) * loading.

#[global] Instance ld_ret : MRet ld := fun A a x => (inr a, x).
#[global] Instance ld_bind : MBind ld := fun A B k m x =>
  match m x with
  | (inl status, x') => (inl status, x')
  | (inr a, x') => k a x'
  end.

Definition lfail {A} (status : turbowasm_status) : ld A := fun x => (inl status, x).
Definition lcheck (bad : bool) (status : turbowasm_status) : ld unit := if bad then lfail status else mret tt.
Definition lreject (bad : bool) : ld unit := lcheck bad TURBOWASM_MALFORMED_MODULE.
Definition lget : ld loading := fun x => (inr x, x).

(** A reader of the section. *)
Definition lread {A} (p : parse A) : ld A := fun x =>
  match p (l_reader x) with
  | (inl status, r) => (inl status, mk_loading r (l_heap x) (l_context x) (l_summary x))
  | (inr a, r) => (inr a, mk_loading r (l_heap x) (l_context x) (l_summary x))
  end.

(** An append to the context, whose failure is OUT_OF_MEMORY. *)
Definition lappend (f : turbowasm_validation_context -> option turbowasm_validation_context) : ld unit := fun x =>
  match f (l_context x) with
  | None => (inl TURBOWASM_OUT_OF_MEMORY, x)
  | Some c => (inr tt, mk_loading (l_reader x) (l_heap x) c (l_summary x))
  end.

Definition lcontext (f : turbowasm_validation_context -> turbowasm_validation_context) : ld unit := fun x =>
  (inr tt, mk_loading (l_reader x) (l_heap x) (f (l_context x)) (l_summary x)).

Definition lsummary (f : turbowasm_module_summary -> turbowasm_module_summary) : ld unit := fun x =>
  (inr tt, mk_loading (l_reader x) (l_heap x) (l_context x) (f (l_summary x))).

(** [for (index = 0; index < n; ++index)] *)
Fixpoint lrepeat (n : nat) (index : Z) (m : Z -> ld unit) : ld unit :=
  match n with
  | O => mret tt
  | S n' => _ ← m index; lrepeat n' (index + 1) m
  end.

Section Readers.
Context (buf : list Z) (realloc_ok calloc_ok malloc_ok : Z -> bool) (sizeof_module_impl : Z).

Abbreviation uleb32 := (lread (decode (turbowasm_reader_uleb32 buf))).
Abbreviation byte := (lread (decode (turbowasm_reader_u8 buf))).

(** The section must have been read to its end. *)
Definition lend : ld unit := n ← lread remaining; lreject (negb (n =? 0)).

(** ** Names, limits and types of imports *)

Definition turbowasm_read_name : parse turbowasm_name :=
  size ← decode (turbowasm_reader_uleb32 buf);
  bytes ← decode (fun r => turbowasm_reader_slice r size);
  _ ← check (negb (Unicode.Unicode.turbowasm_utf8_valid buf (default 0 (cursor bytes)) size)) TURBOWASM_MALFORMED_MODULE;
  mret (mk_name (cursor bytes) size).

(** A size in the width the flags choose. *)
Definition read_size (wide : bool) : parse Z :=
  if wide then decode (turbowasm_reader_uleb64 buf) else decode (turbowasm_reader_uleb32 buf).

Definition turbowasm_read_limits (maximum_bound : Z) : parse turbowasm_validation_limits :=
  flags ← decode (turbowasm_reader_u8 buf);
  _ ← check (negb (flags .& Z.lnot 0x05 =? 0)) TURBOWASM_MALFORMED_MODULE;
  let wide := negb (flags .& 0x04 =? 0) in
  let bounded := negb (flags .& 0x01 =? 0) in
  minimum ← read_size wide;
  _ ← check (negb (maximum_bound =? UINT32_MAX) && (minimum >? maximum_bound)) TURBOWASM_MALFORMED_MODULE;
  maximum ← (if bounded then
               maximum ← read_size wide;
               _ ← check (maximum <? minimum) TURBOWASM_MALFORMED_MODULE;
               _ ← check (negb (maximum_bound =? UINT32_MAX) && (maximum >? maximum_bound)) TURBOWASM_MALFORMED_MODULE;
               mret maximum
             else mret 0);
  mret (mk_limits minimum maximum bounded wide).

Definition turbowasm_read_table_type (H : type_heap) (c : turbowasm_validation_context)
    : parse (turbowasm_validation_value_type * turbowasm_validation_limits) :=
  tg ← turbowasm_validation_read_reftype buf H (Some (types c));
  let t := fst tg in
  _ ← check (bool_decide (heap_kind t = HEAP_TYPE_INDEX) && (type_index t >=? type_count (types c)))
        TURBOWASM_MALFORMED_MODULE;
  limits ← turbowasm_read_limits UINT32_MAX;
  mret (t, limits).

(** Limits, page size, [shared] and [memory64]. *)
Definition turbowasm_read_memory_type : parse (turbowasm_validation_memory_limits * Z * bool * bool) :=
  flags ← decode (turbowasm_reader_u8 buf);
  _ ← check (negb (flags .& Z.lnot 0x0f =? 0)) TURBOWASM_MALFORMED_MODULE;
  let has_maximum := negb (flags .& 0x01 =? 0) in
  let shared := negb (flags .& 0x02 =? 0) in
  let memory64 := negb (flags .& 0x04 =? 0) in
  _ ← check (shared && negb has_maximum) TURBOWASM_MALFORMED_MODULE;
  minimum ← read_size memory64;
  maximum ← (if has_maximum then
               maximum ← read_size memory64;
               _ ← check (maximum <? minimum) TURBOWASM_MALFORMED_MODULE;
               mret maximum
             else mret 0);
  page_exponent ← (if negb (flags .& 0x08 =? 0) then
                     e ← decode (turbowasm_reader_uleb32 buf);
                     _ ← check (negb (e =? 0) && negb (e =? 16)) TURBOWASM_MALFORMED_MODULE;
                     mret e
                   else mret 16);
  let page_size := if page_exponent =? 0 then 1 else 65536 in
  let maximum_pages := if memory64 then if page_size =? 1 then UINT64_MAX else 1 ≪ 48
                       else if page_size =? 1 then UINT32_MAX else 65536 in
  _ ← check ((minimum >? maximum_pages) || (has_maximum && (maximum >? maximum_pages))) TURBOWASM_MALFORMED_MODULE;
  mret (mk_memory_limits minimum maximum has_maximum, page_size, shared, memory64).

Definition turbowasm_read_tag_type (H : type_heap) (c : turbowasm_validation_context) : parse Z :=
  attribute ← decode (turbowasm_reader_u8 buf);
  type_index ← decode (turbowasm_reader_uleb32 buf);
  _ ← check (negb (attribute =? 0)) TURBOWASM_MALFORMED_MODULE;
  match type_at H c type_index with
  | None => fail TURBOWASM_MALFORMED_MODULE
  | Some t =>
      _ ← check (negb (defined t) || negb (bool_decide (type_kind t = TYPE_FUNCTION)) ||
                 negb (result_count t =? 0)) TURBOWASM_MALFORMED_MODULE;
      mret type_index
  end.

(** [type_index < summary->type_count] and [context->types[type_index]] is a
    function type *)
Definition function_type_index_ok (x : loading) (index : Z) : bool :=
  negb (index >=? types_read (l_summary x)) &&
  match type_at (l_heap x) (l_context x) index with
  | Some t => bool_decide (type_kind t = TYPE_FUNCTION)
  | None => false
  end.

(** ** Imports *)

Definition count_import (k : turbowasm_external_kind) : ld unit :=
  lsummary (fun s => set_imported k (u32 (imported s k + 1)) s).

(** The case of the import's kind: the kind with [item_index] and [type_index]. *)
Definition import_item_of (kind : Z) : ld (turbowasm_external_kind * Z * Z) :=
  x ← lget;
  let next k := imported (l_summary x) k in
  switch kind
    [(0x00, type_index ← uleb32;
            _ ← lreject (negb (function_type_index_ok x type_index));
            _ ← lappend (fun c => turbowasm_validation_context_append_function realloc_ok c type_index true);
            _ ← count_import EXTERN_FUNCTION;
            mret (EXTERN_FUNCTION, next EXTERN_FUNCTION, type_index));
     (0x01, tl ← lread (turbowasm_read_table_type (l_heap x) (l_context x));
            _ ← lappend (fun c => turbowasm_validation_context_append_table_semantic realloc_ok c tl.1 tl.2 true);
            _ ← count_import EXTERN_TABLE;
            mret (EXTERN_TABLE, next EXTERN_TABLE, UINT32_MAX));
     (0x02, m ← lread turbowasm_read_memory_type;
            let '(limits, page_size, shared, memory64) := m in
            _ ← lappend (fun c => turbowasm_validation_context_append_memory realloc_ok c limits page_size shared memory64 true);
            _ ← count_import EXTERN_MEMORY;
            mret (EXTERN_MEMORY, next EXTERN_MEMORY, UINT32_MAX));
     (0x03, g ← lread (turbowasm_validation_read_globaltype buf (l_heap x) (Some (types (l_context x))));
            _ ← lappend (fun c => turbowasm_validation_context_append_global_semantic realloc_ok c g.1 g.2 true None 0);
            _ ← count_import EXTERN_GLOBAL;
            mret (EXTERN_GLOBAL, next EXTERN_GLOBAL, UINT32_MAX));
     (0x04, type_index ← lread (turbowasm_read_tag_type (l_heap x) (l_context x));
            _ ← lappend (fun c => turbowasm_validation_context_append_tag realloc_ok (l_heap x) c type_index true);
            _ ← count_import EXTERN_TAG;
            mret (EXTERN_TAG, next EXTERN_TAG, type_index))]
    (lfail TURBOWASM_MALFORMED_MODULE).

Definition import_one (index : Z) : ld unit :=
  module_name ← lread turbowasm_read_name;
  name ← lread turbowasm_read_name;
  kind ← byte;
  item ← import_item_of kind;
  let '(k, item_index, type_index) := item in
  lappend (fun c => turbowasm_validation_context_append_import realloc_ok c
                      (mk_import module_name name k item_index type_index)).

Definition turbowasm_validate_import_section : ld unit :=
  count ← uleb32;
  _ ← lrepeat (Z.to_nat count) 0 import_one;
  lend.

(** ** Functions, memories, tags *)

Definition function_one (index : Z) : ld unit :=
  type_index ← uleb32;
  x ← lget;
  _ ← lreject (negb (function_type_index_ok x type_index));
  lappend (fun c => turbowasm_validation_context_append_function realloc_ok c type_index false).

Definition turbowasm_validate_function_section : ld unit :=
  count ← uleb32;
  _ ← lrepeat (Z.to_nat count) 0 function_one;
  _ ← lend;
  lsummary (set_declared EXTERN_FUNCTION count).

Definition memory_one (index : Z) : ld unit :=
  m ← lread turbowasm_read_memory_type;
  let '(limits, page_size, shared, memory64) := m in
  lappend (fun c => turbowasm_validation_context_append_memory realloc_ok c limits page_size shared memory64 false).

Definition turbowasm_validate_memory_section : ld unit :=
  count ← uleb32;
  _ ← lrepeat (Z.to_nat count) 0 memory_one;
  _ ← lend;
  lsummary (set_declared EXTERN_MEMORY count).

Definition tag_one (index : Z) : ld unit :=
  x ← lget;
  type_index ← lread (turbowasm_read_tag_type (l_heap x) (l_context x));
  lappend (fun c => turbowasm_validation_context_append_tag realloc_ok (l_heap x) c type_index false).

Definition turbowasm_validate_tag_section : ld unit :=
  count ← uleb32;
  _ ← lrepeat (Z.to_nat count) 0 tag_one;
  _ ← lend;
  lsummary (set_declared EXTERN_TAG count).

(** ** Constant expressions *)

Record turbowasm_const_type_stack := mk_const_stack {
  const_values : list turbowasm_validation_value_type;
  const_capacity : Z
}.

Definition turbowasm_const_type_stack_reserve (stack : turbowasm_const_type_stack) (required : Z) : option Z :=
  reserve realloc_ok sizeof_value_type 4 (const_capacity stack) required.

Definition turbowasm_const_type_stack_push (type : turbowasm_validation_value_type)
    (stack : turbowasm_const_type_stack) : ld turbowasm_const_type_stack :=
  let size := Z.of_nat (length (const_values stack)) in
  _ ← lcheck (size =? UINT32_MAX) TURBOWASM_OUT_OF_MEMORY;
  match turbowasm_const_type_stack_reserve stack (size + 1) with
  | None => lfail TURBOWASM_OUT_OF_MEMORY
  | Some cap => mret (mk_const_stack (const_values stack ++ [type]) cap)
  end.

Definition turbowasm_const_type_stack_pop (carrier : Z) (stack : turbowasm_const_type_stack)
    : ld turbowasm_const_type_stack :=
  match last (const_values stack) with
  | None => lfail TURBOWASM_MALFORMED_MODULE
  | Some actual =>
      x ← lget;
      _ ← lreject (negb (turbowasm_validation_value_type_matches (l_heap x) actual
                           (turbowasm_validation_value_type_legacy carrier)));
      mret (mk_const_stack (take (length (const_values stack) - 1) (const_values stack)) (const_capacity stack))
  end.

(** add, sub and mul of one width *)
Definition const_binary (carrier : Z) (stack : turbowasm_const_type_stack) : ld turbowasm_const_type_stack :=
  stack ← turbowasm_const_type_stack_pop carrier stack;
  stack ← turbowasm_const_type_stack_pop carrier stack;
  turbowasm_const_type_stack_push (turbowasm_validation_value_type_legacy carrier) stack.

Definition turbowasm_function_index_valid (index : Z) (c : turbowasm_validation_context) : bool :=
  index <? count (functions c).

Definition const_ref_func (stack : turbowasm_const_type_stack) : ld turbowasm_const_type_stack :=
  function_index ← uleb32;
  x ← lget;
  _ ← lreject (negb (turbowasm_function_index_valid function_index (l_context x)));
  _ ← lappend (fun c => turbowasm_validation_context_declare_function_ref calloc_ok c function_index);
  x ← lget;
  match turbowasm_validation_context_function (l_context x) function_index with
  | None => lfail TURBOWASM_MALFORMED_MODULE
  | Some f =>
      turbowasm_const_type_stack_push
        (mk_value_type 0x70 true false HEAP_TYPE_INDEX (function_type_index f)
           (Some (types_base (types (l_context x)) + Z.to_nat (function_type_index f))%nat)) stack
  end.

Definition const_ref_null (stack : turbowasm_const_type_stack) : ld turbowasm_const_type_stack :=
  x ← lget;
  t ← lread (turbowasm_validation_read_heaptype buf (l_heap x) (Some (types (l_context x))) true);
  _ ← lreject (bool_decide (heap_kind t = HEAP_TYPE_INDEX) && (type_index t >=? type_count (types (l_context x))));
  turbowasm_const_type_stack_push t stack.

Definition const_global (stack : turbowasm_const_type_stack) : ld turbowasm_const_type_stack :=
  global_index ← uleb32;
  x ← lget;
  match turbowasm_validation_context_global (l_context x) global_index with
  | None => lfail TURBOWASM_MALFORMED_MODULE
  | Some g =>
      _ ← lreject (global_mutable g);
      turbowasm_const_type_stack_push (global_semantic g) stack
  end.

Definition set_requires_store (b : bool) (c : turbowasm_validation_context) : turbowasm_validation_context :=
  mk_context (mk_types (types_base (types c)) (type_count (types c)) b) (imports c) (exports c) (functions c)
    (globals c) (tables c) (memories c) (tags c) (data_segments c) (element_segments c) (declared_refs c)
    (has_data_count c) (Context.data_count c).

Definition const_gc (stack : turbowasm_const_type_stack) : ld turbowasm_const_type_stack := fun x =>
  let '(status, r, values, cap, store) :=
    Validator.Validator.turbowasm_validate_gc_constant buf realloc_ok (l_heap x) (l_reader x) (l_context x)
      (const_values stack) (const_capacity stack) in
  let x' := mk_loading r (l_heap x) (set_requires_store store (l_context x)) (l_summary x) in
  if bool_decide (status = TURBOWASM_OK) then (inr (mk_const_stack values cap), x') else (inl status, x').

(** A literal of [size] bytes. *)
Definition const_bytes (size carrier : Z) (stack : turbowasm_const_type_stack) : ld turbowasm_const_type_stack :=
  _ ← lread (decode (fun r => turbowasm_reader_slice r size));
  turbowasm_const_type_stack_push (turbowasm_validation_value_type_legacy carrier) stack.

(** The switch over the opcodes other than [end]. *)
Definition const_instruction (opcode : Z) (stack : turbowasm_const_type_stack) : ld turbowasm_const_type_stack :=
  let push carrier := turbowasm_const_type_stack_push (turbowasm_validation_value_type_legacy carrier) stack in
  switch opcode
    [(0x41, _ ← lread (decode (turbowasm_reader_sleb32 buf)); push 0x7f);
     (0x42, _ ← lread (decode (turbowasm_reader_sleb64 buf)); push 0x7e);
     (0x43, const_bytes 4 0x7d stack);
     (0x44, const_bytes 8 0x7c stack);
     (0x6a, const_binary 0x7f stack); (0x6b, const_binary 0x7f stack); (0x6c, const_binary 0x7f stack);
     (0x7c, const_binary 0x7e stack); (0x7d, const_binary 0x7e stack); (0x7e, const_binary 0x7e stack);
     (0xd0, const_ref_null stack);
     (0xd2, const_ref_func stack);
     (0xfd, subopcode ← uleb32; _ ← lreject (negb (subopcode =? 0x0c)); const_bytes 16 0x7b stack);
     (0xfb, const_gc stack);
     (0x23, const_global stack)]
    (lfail TURBOWASM_MALFORMED_MODULE).

(** The [for] loop; every round reads a byte. *)
Fixpoint const_loop (fuel : nat) (stack : turbowasm_const_type_stack) : ld turbowasm_const_type_stack :=
  match fuel with
  | O => lfail TURBOWASM_MALFORMED_MODULE
  | S fuel' =>
      opcode ← byte;
      if opcode =? 0x0b then mret stack
      else stack ← const_instruction opcode stack; const_loop fuel' stack
  end.

Definition turbowasm_validate_const_expr_semantic : ld turbowasm_validation_value_type :=
  n ← lread remaining;
  stack ← const_loop (S (Z.to_nat n)) (mk_const_stack [] 0);
  match const_values stack with
  | [t] => mret t
  | _ => lfail TURBOWASM_MALFORMED_MODULE
  end.

Definition turbowasm_validate_const_expr : ld Z :=
  t ← turbowasm_validate_const_expr_semantic; mret (carrier t).

(** The bytes a reader passed over: where they start and how many. *)
Definition measured {A} (m : ld A) : ld (A * option Z * Z) :=
  x ← lget;
  a ← m;
  y ← lget;
  mret (a, cursor (l_reader x), default 0 (cursor (l_reader y)) - default 0 (cursor (l_reader x))).

(** ** Tables and globals *)

Definition table_one (index : Z) : ld unit :=
  x ← lget;
  n ← lread remaining;
  first ← lread (peek buf);
  if negb (n =? 0) && (first =? 0x40) then
    marker ← byte;
    zero ← byte;
    _ ← lreject (negb (marker =? 0x40) || negb (zero =? 0));
    tl ← lread (turbowasm_read_table_type (l_heap x) (l_context x));
    m ← measured turbowasm_validate_const_expr_semantic;
    let '(initializer_type, initializer_start, initializer_size) := m in
    y ← lget;
    _ ← lreject (negb (turbowasm_validation_value_type_matches (l_heap y) initializer_type tl.1));
    _ ← lreject ((initializer_size =? 0) || (initializer_size >? UINT32_MAX));
    lappend (fun c => turbowasm_validation_context_append_table_semantic_initialized realloc_ok c tl.1 tl.2
                        initializer_start (u32 initializer_size))
  else
    tl ← lread (turbowasm_read_table_type (l_heap x) (l_context x));
    _ ← lreject (is_reference tl.1 && negb (nullable tl.1));
    lappend (fun c => turbowasm_validation_context_append_table_semantic realloc_ok c tl.1 tl.2 false).

Definition turbowasm_validate_table_section : ld unit :=
  count ← uleb32;
  _ ← lrepeat (Z.to_nat count) 0 table_one;
  _ ← lend;
  lsummary (set_declared EXTERN_TABLE count).

Definition global_one (index : Z) : ld unit :=
  x ← lget;
  g ← lread (turbowasm_validation_read_globaltype buf (l_heap x) (Some (types (l_context x))));
  m ← measured turbowasm_validate_const_expr_semantic;
  let '(expression_type, initializer_start, initializer_size) := m in
  _ ← lcheck (initializer_size >? UINT32_MAX) TURBOWASM_OUT_OF_MEMORY;
  y ← lget;
  _ ← lreject (negb (turbowasm_validation_value_type_matches (l_heap y) expression_type g.1));
  lappend (fun c => turbowasm_validation_context_append_global_semantic realloc_ok c g.1 g.2 false
                      initializer_start (u32 initializer_size)).

Definition turbowasm_validate_global_section : ld unit :=
  count ← uleb32;
  _ ← lrepeat (Z.to_nat count) 0 global_one;
  _ ← lend;
  lsummary (set_declared EXTERN_GLOBAL count).

(** ** Exports and the start function *)

Definition turbowasm_index_in_total (index imported defined : Z) : bool := index <? imported + defined.

Definition external_kind_of (kind : Z) : option turbowasm_external_kind :=
  switch kind [(0, Some EXTERN_FUNCTION); (1, Some EXTERN_TABLE); (2, Some EXTERN_MEMORY);
               (3, Some EXTERN_GLOBAL); (4, Some EXTERN_TAG)] None.

Definition turbowasm_export_index_valid (k : turbowasm_external_kind) (index : Z) (s : turbowasm_module_summary) : bool :=
  turbowasm_index_in_total index (imported s k) (declared s k).

(** The bytes of a name, and the comparison by length and [memcmp]. *)
Definition name_text (n : turbowasm_name) : list Z := Unicode.Unicode.span buf (default 0 (name_bytes n)) (name_size n).

Definition same_name (n m : turbowasm_name) : bool :=
  (name_size n =? name_size m) && bool_decide (name_text n = name_text m).

Definition export_one (index : Z) : ld unit :=
  name ← lread turbowasm_read_name;
  x ← lget;
  _ ← lreject (existsb (fun e => same_name (export_name e) name) (items (exports (l_context x))));
  kind ← byte;
  item_index ← uleb32;
  match external_kind_of kind with
  | None => lfail TURBOWASM_MALFORMED_MODULE
  | Some k =>
      _ ← lreject (negb (turbowasm_export_index_valid k item_index (l_summary x)));
      _ ← lappend (fun c => turbowasm_validation_context_append_export realloc_ok c (mk_export name k item_index));
      if bool_decide (k = EXTERN_FUNCTION)
      then lappend (fun c => turbowasm_validation_context_declare_function_ref calloc_ok c item_index)
      else mret tt
  end.

Definition turbowasm_validate_export_section : ld unit :=
  count ← uleb32;
  _ ← lrepeat (Z.to_nat count) 0 export_one;
  _ ← lend;
  lsummary (set_export_count count).

Definition turbowasm_validate_start_section : ld unit :=
  function_index ← uleb32;
  _ ← lend;
  x ← lget;
  match turbowasm_validation_context_function_type (l_heap x) (l_context x) function_index with
  | None => lfail TURBOWASM_MALFORMED_MODULE
  | Some t =>
      _ ← lreject (negb (param_count t =? 0) || negb (result_count t =? 0));
      lsummary (set_start_function function_index)
  end.

Definition set_data_count (n : Z) (c : turbowasm_validation_context) : turbowasm_validation_context :=
  mk_context (types c) (imports c) (exports c) (functions c) (globals c) (tables c) (memories c) (tags c)
    (data_segments c) (element_segments c) (declared_refs c) true n.

Definition turbowasm_validate_data_count_section : ld unit :=
  count ← uleb32;
  _ ← lend;
  _ ← lsummary (set_declared_data count);
  lcontext (set_data_count count).

(** ** Element segments *)

Definition sizeof_element_item : Z := 24.

Definition turbowasm_element_read_reftype : ld turbowasm_validation_value_type :=
  x ← lget;
  tg ← lread (turbowasm_validation_read_reftype buf (l_heap x) (Some (types (l_context x))));
  let t := fst tg in
  _ ← lreject (bool_decide (heap_kind t = HEAP_TYPE_INDEX) && (type_index t >=? type_count (types (l_context x))));
  mret t.

(** (ref func) *)
Definition ref_func : turbowasm_validation_value_type := mk_value_type 0x70 true false HEAP_FUNC UINT32_MAX None.

Definition turbowasm_element_read_elemkind : ld turbowasm_validation_value_type :=
  kind ← byte;
  _ ← lreject (negb (kind =? 0));
  mret ref_func.

Definition turbowasm_element_validate_offset (table_index : Z) : ld turbowasm_validation_expr_span :=
  m ← measured turbowasm_validate_const_expr;
  let '(type, start, size) := m in
  x ← lget;
  match at_index (tables (l_context x)) table_index with
  | None => lfail TURBOWASM_MALFORMED_MODULE
  | Some t =>
      _ ← lreject (negb (type =? if table64 (table_limits t) then 0x7e else 0x7f));
      _ ← lcheck (size >? UINT32_MAX) TURBOWASM_OUT_OF_MEMORY;
      mret (mk_span start (u32 size) type)
  end.

Definition turbowasm_element_validate_table (table_index : Z) (t : turbowasm_validation_value_type) : ld unit :=
  x ← lget;
  match at_index (tables (l_context x)) table_index with
  | None => lfail TURBOWASM_MALFORMED_MODULE
  | Some table => lreject (negb (turbowasm_validation_value_type_matches (l_heap x) t (table_semantic table)))
  end.

(** [n] items into the array. *)
Fixpoint read_items (n : nat) (m : ld turbowasm_validation_element_item) : ld (list turbowasm_validation_element_item) :=
  match n with
  | O => mret []
  | S n' => a ← m; l ← read_items n' m; mret (a :: l)
  end.

Definition element_vector (m : ld turbowasm_validation_element_item) : ld (list turbowasm_validation_element_item) :=
  count ← uleb32;
  _ ← lcheck (negb (count =? 0) &&
              ((count * sizeof_element_item >? SIZE_MAX) || negb (calloc_ok (count * sizeof_element_item))))
        TURBOWASM_OUT_OF_MEMORY;
  read_items (Z.to_nat count) m.

Definition element_function : ld turbowasm_validation_element_item :=
  function_index ← uleb32;
  x ← lget;
  _ ← lreject (function_index >=? count (functions (l_context x)));
  _ ← lappend (fun c => turbowasm_validation_context_declare_function_ref calloc_ok c function_index);
  mret (ELEMENT_FUNCTION_INDEX function_index).

Definition turbowasm_element_validate_funcidx_vector : ld (list turbowasm_validation_element_item) :=
  element_vector element_function.

Definition element_expression (reference : turbowasm_validation_value_type) : ld turbowasm_validation_element_item :=
  m ← measured turbowasm_validate_const_expr_semantic;
  let '(type, start, size) := m in
  x ← lget;
  _ ← lreject (negb (turbowasm_validation_value_type_matches (l_heap x) type reference));
  _ ← lcheck (size >? UINT32_MAX) TURBOWASM_OUT_OF_MEMORY;
  mret (ELEMENT_CONST_EXPR (mk_span start (u32 size) (carrier type))).

Definition turbowasm_element_validate_expr_vector (reference : turbowasm_validation_value_type)
    : ld (list turbowasm_validation_element_item) :=
  element_vector (element_expression reference).

Definition zero_span : turbowasm_validation_expr_span := mk_span None 0 0.

Definition element_one (segment : Z) : ld unit :=
  flags ← uleb32;
  _ ← lreject (flags >? 7);
  let active := (flags =? 0) || (flags =? 2) || (flags =? 4) || (flags =? 6) in
  let mode := if active then SEGMENT_ACTIVE
              else if (flags =? 3) || (flags =? 7) then SEGMENT_DECLARATIVE else SEGMENT_PASSIVE in
  table_index ← (if (flags =? 2) || (flags =? 6) then uleb32 else mret 0);
  offset ← (if active then turbowasm_element_validate_offset table_index else mret zero_span);
  semantic ← (if (flags =? 1) || (flags =? 2) || (flags =? 3) then turbowasm_element_read_elemkind
              else if (flags =? 5) || (flags =? 6) || (flags =? 7) then turbowasm_element_read_reftype
              else if flags =? 4 then mret (turbowasm_validation_value_type_legacy 0x70)
              else mret ref_func);
  _ ← (if active then turbowasm_element_validate_table table_index semantic else mret tt);
  items ← (if flags >=? 4 then turbowasm_element_validate_expr_vector semantic
           else turbowasm_element_validate_funcidx_vector);
  lappend (fun c => turbowasm_validation_context_append_element_segment realloc_ok c
                      (mk_element mode table_index (carrier semantic) semantic offset items)).

Definition turbowasm_validate_element_section : ld unit :=
  count ← uleb32;
  _ ← lrepeat (Z.to_nat count) 0 element_one;
  _ ← lend;
  lsummary (set_element_count count).

(** ** Data segments *)

Definition turbowasm_memory_index_valid (index : Z) (c : turbowasm_validation_context) : bool :=
  index <? count (memories c).

Definition turbowasm_read_byte_vector : parse (option Z * Z) :=
  size ← decode (turbowasm_reader_uleb32 buf);
  bytes ← decode (fun r => turbowasm_reader_slice r size);
  mret (cursor bytes, size).

Definition turbowasm_read_memory_offset_expr (memory_index : Z) : ld turbowasm_validation_expr_span :=
  m ← measured turbowasm_validate_const_expr;
  let '(type, start, size) := m in
  x ← lget;
  match at_index (memories (l_context x)) memory_index with
  | None => lfail TURBOWASM_MALFORMED_MODULE
  | Some memory =>
      _ ← lreject (negb (type =? if vm_memory64 memory then 0x7e else 0x7f));
      _ ← lcheck (size >? UINT32_MAX) TURBOWASM_OUT_OF_MEMORY;
      mret (mk_span start (u32 size) type)
  end.

(** The segment's mode, memory and offset. *)
Definition data_mode_of (mode : Z) : ld (turbowasm_validation_segment_mode * Z * turbowasm_validation_expr_span) :=
  let active memory_index :=
    x ← lget;
    _ ← lreject (negb (turbowasm_memory_index_valid memory_index (l_context x)));
    offset ← turbowasm_read_memory_offset_expr memory_index;
    mret (SEGMENT_ACTIVE, memory_index, offset) in
  switch mode
    [(0, active 0);
     (1, mret (SEGMENT_PASSIVE, 0, zero_span));
     (2, memory_index ← uleb32; active memory_index)]
    (lfail TURBOWASM_MALFORMED_MODULE).

Definition data_one (index : Z) : ld unit :=
  mode ← uleb32;
  placed ← data_mode_of mode;
  let '(m, memory_index, offset) := placed in
  data ← lread turbowasm_read_byte_vector;
  lappend (fun c => turbowasm_validation_context_append_data_segment realloc_ok c
                      (mk_data m memory_index offset data.1 data.2)).

Definition turbowasm_validate_data_section : ld unit :=
  count ← uleb32;
  _ ← lrepeat (Z.to_nat count) 0 data_one;
  _ ← lend;
  _ ← lsummary (set_data_segment_count count);
  x ← lget;
  lreject (match declared_data (l_summary x) with Some n => negb (n =? count) | None => false end).

(** ** Code *)

(** The body of the function with this index among the defined ones. *)
Definition code_body (index : Z) (body : turbowasm_reader) : ld unit := fun x =>
  let function_index := u32 (imported (l_summary x) EXTERN_FUNCTION + index) in
  match Validator.Validator.turbowasm_validate_function_body buf realloc_ok malloc_ok (l_heap x) body (l_context x)
          function_index with
  | (TURBOWASM_OK, c, r) =>
      lreject (negb (turbowasm_reader_remaining r =? 0)) (mk_loading (l_reader x) (l_heap x) c (l_summary x))
  | (status, c, r) => (inl status, mk_loading (l_reader x) (l_heap x) c (l_summary x))
  end.

Definition code_one (index : Z) : ld unit :=
  body_size ← uleb32;
  body ← lread (decode (fun r => turbowasm_reader_slice r body_size));
  code_body index body.

Definition turbowasm_validate_code_section : ld unit :=
  count ← uleb32;
  x ← lget;
  _ ← lreject (negb (count =? declared (l_summary x) EXTERN_FUNCTION));
  _ ← lrepeat (Z.to_nat count) 0 code_one;
  _ ← lend;
  lsummary (set_code_count count).

(** ** The module *)

Definition turbowasm_section_rank (id : Z) : Z :=
  switch id [(1, 1); (2, 2); (3, 3); (4, 4); (5, 5); (13, 6); (6, 7); (7, 8); (8, 9); (9, 10); (12, 11); (10, 12); (11, 13)] 0.

Definition validate_types : ld unit := fun x =>
  let '(status, H, c, n, r) := turbowasm_validate_composite_types buf calloc_ok (l_reader x) (l_heap x) (types (l_context x)) in
  let x' := mk_loading r H
              (mk_context c (imports (l_context x)) (exports (l_context x)) (functions (l_context x))
                 (globals (l_context x)) (tables (l_context x)) (memories (l_context x)) (tags (l_context x))
                 (data_segments (l_context x)) (element_segments (l_context x)) (declared_refs (l_context x))
                 (has_data_count (l_context x)) (Context.data_count (l_context x)))
              (match n with Some n => set_types_read n (l_summary x) | None => l_summary x end) in
  if bool_decide (status = TURBOWASM_OK) then (inr tt, x') else (inl status, x').

Definition turbowasm_validate_section_payload (id : Z) : ld unit :=
  switch id
    [(1, validate_types); (2, turbowasm_validate_import_section); (3, turbowasm_validate_function_section);
     (4, turbowasm_validate_table_section); (5, turbowasm_validate_memory_section); (13, turbowasm_validate_tag_section);
     (6, turbowasm_validate_global_section); (7, turbowasm_validate_export_section); (8, turbowasm_validate_start_section);
     (9, turbowasm_validate_element_section); (12, turbowasm_validate_data_count_section);
     (10, turbowasm_validate_code_section); (11, turbowasm_validate_data_section)]
    (lfail TURBOWASM_UNSUPPORTED).

(** Run [m] on the reader of a section; the outer reader is kept. *)
Definition in_section {A} (section : turbowasm_reader) (m : ld A) : ld A := fun x =>
  match m (mk_loading section (l_heap x) (l_context x) (l_summary x)) with
  | (res, y) => (res, mk_loading (l_reader x) (l_heap y) (l_context y) (l_summary y))
  end.

(** One section: [seen] and [last_rank] afterwards. *)
Definition section_one (seen last_rank : Z) : ld (Z * Z) :=
  id ← byte;
  payload_size ← uleb32;
  section ← lread (decode (fun r => turbowasm_reader_slice r payload_size));
  if id =? 0 then
    _ ← in_section section (lread turbowasm_read_name);
    _ ← lsummary (fun s => set_custom_sections (u64 (custom_sections s + 1)) s);
    mret (seen, last_rank)
  else
    let rank := turbowasm_section_rank id in
    _ ← lreject (rank =? 0);
    _ ← lreject (rank <? last_rank);
    _ ← lreject (negb (seen .& (1 ≪ id) =? 0));
    let seen := seen .| (1 ≪ id) in
    _ ← lsummary (set_section_mask seen);
    _ ← in_section section (_ ← turbowasm_validate_section_payload id; lend);
    mret (seen, rank).

(** The [while] loop; every section takes at least a byte. *)
Fixpoint sections_loop (fuel : nat) (seen last_rank : Z) : ld unit :=
  n ← lread remaining;
  if n =? 0 then mret tt
  else match fuel with
       | O => lfail TURBOWASM_MALFORMED_MODULE
       | S fuel' => sr ← section_one seen last_rank; sections_loop fuel' sr.1 sr.2
       end.

Definition turbowasm_validate_sections : ld unit :=
  n ← lread remaining;
  _ ← sections_loop (Z.to_nat n) 0 0;
  x ← lget;
  _ ← lreject (negb (code_count (l_summary x) =? declared (l_summary x) EXTERN_FUNCTION));
  lreject (match declared_data (l_summary x) with
           | Some n => negb (n =? data_segment_count (l_summary x))
           | None => false
           end).

Definition empty_context : turbowasm_validation_context :=
  mk_context (mk_types 0 0 false) empty_vec empty_vec empty_vec empty_vec empty_vec empty_vec empty_vec empty_vec
    empty_vec None false 0.

(** The configuration of the embedding program: which of the three functions of
    the allocator it supplies, and its limits, 0 for none. *)
Record turbowasm_runtime_config := mk_config {
  allocate : bool;
  reallocate : bool;
  deallocate : bool;
  max_module_bytes : Z;
  max_allocation_bytes : Z;
  max_linear_memory_bytes : Z;
  max_table_elements : Z
}.

Definition default_config : turbowasm_runtime_config := mk_config true true true 0 0 0 0.

Definition turbowasm_runtime_config_normalize (config : option turbowasm_runtime_config) : option turbowasm_runtime_config :=
  match config with
  | None => Some default_config
  | Some c =>
      if negb (allocate c) && negb (reallocate c) && negb (deallocate c)
      then Some (mk_config (allocate default_config) (reallocate default_config) (deallocate default_config)
                   (max_module_bytes c) (max_allocation_bytes c) (max_linear_memory_bytes c) (max_table_elements c))
      else if allocate c && deallocate c then Some c else None
  end.

(** The bytes, their number, the configuration, and what validation keeps. *)
Record turbowasm_module_impl := mk_module {
  module_bytes : option Z;
  module_size : Z;
  module_config : turbowasm_runtime_config;
  module_types : type_heap;
  validation : turbowasm_validation_context;
  summary : turbowasm_module_summary
}.

Definition TURBOWASM_MAGIC : Z := 0x6d736100.
Definition TURBOWASM_BINARY_VERSION : Z := 1.

(** [occupied] says that the module object already holds a module. *)
Definition turbowasm_module_load_borrowed_with_config (occupied : bool) (bytes : option Z) (size : Z)
    (config : option turbowasm_runtime_config) : turbowasm_status * option turbowasm_module_impl :=
  if is_null bytes || occupied then (TURBOWASM_INVALID_ARGUMENT, None)
  else match turbowasm_runtime_config_normalize config with
  | None => (TURBOWASM_INVALID_ARGUMENT, None)
  | Some normalized =>
      if negb (max_module_bytes normalized =? 0) && (size >? max_module_bytes normalized)
      then (TURBOWASM_OUT_OF_MEMORY, None)
      else
        match turbowasm_reader_u32le buf (turbowasm_reader_init bytes size) with
        | (None, _) => (TURBOWASM_MALFORMED_MODULE, None)
        | (Some magic, r) =>
            match turbowasm_reader_u32le buf r with
            | (None, _) => (TURBOWASM_MALFORMED_MODULE, None)
            | (Some version, r) =>
                if negb (magic =? TURBOWASM_MAGIC) || negb (version =? TURBOWASM_BINARY_VERSION)
                then (TURBOWASM_MALFORMED_MODULE, None)
                else match turbowasm_validate_sections (mk_loading r [] empty_context zero_summary) with
                     | (inl status, _) => (status, None)
                     | (inr _, x) =>
                         if calloc_ok sizeof_module_impl
                         then (TURBOWASM_OK,
                               Some (mk_module bytes size normalized (l_heap x) (l_context x) (l_summary x)))
                         else (TURBOWASM_OUT_OF_MEMORY, None)
                     end
            end
        end
  end.

Definition turbowasm_module_load_borrowed (occupied : bool) (bytes : option Z) (size : Z)
    : turbowasm_status * option turbowasm_module_impl :=
  turbowasm_module_load_borrowed_with_config occupied bytes size None.

End Readers.

End Sections.
