(* ===== verification/Loading.v ===== *)
(** * What loading a module establishes

    The section readers step by step: what each leaves in the context, the
    invariant of a load between two sections, and that the loops over sections
    and constant expressions end. *)

From S2P Require Import Prelude Reader Types ExecStack TypeEq TypeReader Context Validator Unicode Sections.

Module Loading.
Import Reader Types ExecStack TypeEq TypeReader Context Sections.

(** ** Taking apart a reader that returned *)

Lemma ld_bind_inv {A B} (m : ld A) (k : A -> ld B) x b y :
  (m ≫= k) x = (inr b, y) -> exists a z, m x = (inr a, z) /\ k a z = (inr b, y).
Proof. unfold mbind, ld_bind. destruct (m x) as [[st|a] z]; [discriminate|]. intros E. by exists a, z. Qed.

Lemma ld_ret_inv {A} (a b : A) (x y : loading) : (mret a : ld A) x = (inr b, y) -> a = b /\ x = y.
Proof. by intros [= <- <-]. Qed.

Lemma lcheck_inv bad st x u y : lcheck bad st x = (inr u, y) -> bad = false /\ y = x.
Proof. unfold lcheck. destruct bad; [discriminate|]. by intros [= _ <-]. Qed.

Lemma lget_inv x a y : lget x = (inr a, y) -> a = x /\ y = x.
Proof. by intros [= <- <-]. Qed.

Definition with_reader (r : turbowasm_reader) (x : loading) : loading := mk_loading r (l_heap x) (l_context x) (l_summary x).
Definition with_context (c : turbowasm_validation_context) (x : loading) : loading := mk_loading (l_reader x) (l_heap x) c (l_summary x).
Definition with_summary (s : turbowasm_module_summary) (x : loading) : loading := mk_loading (l_reader x) (l_heap x) (l_context x) s.

Lemma lread_inv {A} (p : parse A) x a y : lread p x = (inr a, y) -> exists r, p (l_reader x) = (inr a, r) /\ y = with_reader r x.
Proof. unfold lread. destruct (p (l_reader x)) as [[st|b] r]; [discriminate|]. intros [= -> <-]. by exists r. Qed.

Lemma lappend_inv f x u y : lappend f x = (inr u, y) -> exists c, f (l_context x) = Some c /\ y = with_context c x.
Proof. unfold lappend. destruct (f (l_context x)) as [c|]; [|discriminate]. intros [= _ <-]. by exists c. Qed.

Lemma lsummary_inv f x u y : lsummary f x = (inr u, y) -> y = with_summary (f (l_summary x)) x.
Proof. by intros [= _ <-]. Qed.

Lemma lcontext_inv f x u y : lcontext f x = (inr u, y) -> y = with_context (f (l_context x)) x.
Proof. by intros [= _ <-]. Qed.

Lemma measured_inv {A} (m : ld A) x a start size y : measured m x = (inr (a, start, size), y) ->
  m x = (inr a, y) /\ start = cursor (l_reader x).
Proof.
  unfold measured. intros E. apply ld_bind_inv in E as (x' & z & E1 & E). apply lget_inv in E1 as [-> ->].
  apply ld_bind_inv in E as (a' & z & E1 & E). apply ld_bind_inv in E as (z' & z2 & E2 & E). apply lget_inv in E2 as [-> ->].
  apply ld_ret_inv in E as [E ->]. by simplify_eq.
Qed.

Lemma decode_inv {A} (d : turbowasm_reader -> option A * turbowasm_reader) r a r' : decode d r = (inr a, r') -> d r = (Some a, r').
Proof. unfold decode. destruct (d r) as [[b|] q]; [|discriminate]. by intros [= -> ->]. Qed.

Lemma decode_uleb32 buf r a r' : decode (turbowasm_reader_uleb32 buf) r = (inr a, r') -> 0 <= a <= UINT32_MAX.
Proof. intros E%decode_inv. pose proof (uleb32_range _ _ _ _ E). unfold is_uint, UINT32_MAX in *. lia. Qed.

(** Take apart the hypotheses that say a section reader returned. *)
Ltac ld_inv :=
  repeat match goal with
  | E : mbind _ _ _ = (inr _, _) |- _ =>
      let a := fresh "a" in let z := fresh "z" in let E1 := fresh "E" in
      apply ld_bind_inv in E as (a & z & E1 & E); cbv beta zeta in E
  | E : lreject _ _ = (inr _, _) |- _ => let G := fresh "G" in apply lcheck_inv in E as [G ->]
  | E : lcheck _ _ _ = (inr _, _) |- _ => let G := fresh "G" in apply lcheck_inv in E as [G ->]
  | E : lget _ = (inr _, _) |- _ => apply lget_inv in E as [-> ->]
  | E : mret _ _ = (inr _, _) |- _ => apply ld_ret_inv in E as [? ?]; subst
  | E : lfail _ _ = (inr _, _) |- _ => discriminate E
  | E : lread _ _ = (inr _, _) |- _ =>
      let r := fresh "r" in let G := fresh "G" in apply lread_inv in E as (r & G & ->)
  | E : lappend _ _ = (inr _, _) |- _ =>
      let c := fresh "c" in let G := fresh "G" in apply lappend_inv in E as (c & G & ->)
  | E : lsummary _ _ = (inr _, _) |- _ => apply lsummary_inv in E as ->
  | E : lcontext _ _ = (inr _, _) |- _ => apply lcontext_inv in E as ->
  | E : measured _ _ = (inr ?p, _) |- _ =>
      let t := fresh "t" in let start := fresh "start" in let size := fresh "size" in
      destruct p as [[t start] size]; apply measured_inv in E as [E ->]
  | E : (match (_, _) with (_, _) => _ end) _ = (inr _, _) |- _ => cbv beta iota zeta in E
  | u : unit |- _ => destruct u
  | E : context [with_reader ?r (with_reader ?q ?x)] |- _ => change (with_reader r (with_reader q x)) with (with_reader r x) in E
  end.

Lemma lrepeat_below (I : Z -> loading -> Prop) (m : Z -> ld unit) N :
  (forall i x y, 0 <= i < N -> I i x -> m i x = (inr tt, y) -> I (i + 1) y) ->
  forall n i x y, 0 <= i -> i + Z.of_nat n <= N -> I i x -> lrepeat n i m x = (inr tt, y) -> I (i + Z.of_nat n) y.
Proof.
  intros Hm. induction n as [|n IH]; intros i x y Hi Hn HI E; cbn [lrepeat] in E.
  - ld_inv. by replace (i + Z.of_nat 0) with i by lia.
  - apply ld_bind_inv in E as ([] & z & E1 & E2). apply IH in E2; [|lia|lia|eapply Hm; [lia|exact HI|exact E1]].
    by replace (i + Z.of_nat (S n)) with (i + 1 + Z.of_nat n) by lia.
Qed.

Lemma lrepeat_ind (I : Z -> loading -> Prop) (m : Z -> ld unit) :
  (forall i x y, 0 <= i -> I i x -> m i x = (inr tt, y) -> I (i + 1) y) ->
  forall n i x y, 0 <= i -> I i x -> lrepeat n i m x = (inr tt, y) -> I (i + Z.of_nat n) y.
Proof.
  intros Hm n i x y Hi HI E. eapply (lrepeat_below I m (i + Z.of_nat n)); [|done|lia|exact HI|exact E].
  intros j z z' Hj HIj Ej. eapply Hm; [lia|exact HIj|exact Ej].
Qed.

(** ** Growing an index space *)

Lemma append_inv {A} realloc_ok size (v : vec A) a v' : append realloc_ok size v a = Some v' ->
  items v' = items v ++ [a] /\ (0 <= count v <= UINT32_MAX -> count v' = count v + 1 /\ count v' <= UINT32_MAX).
Proof.
  unfold append. destruct (Z.eqb_spec (count v) UINT32_MAX) as [|Hn]; [done|].
  destruct (turbowasm_validation_reserve _ _ _ _); [|done]. intros [= <-]. unfold count in *. simpl. split; [done|]. intros Hc. rewrite length_app. simpl. lia.
Qed.

(** Sizes of the five index spaces. *)
Definition space (c : turbowasm_validation_context) (k : turbowasm_external_kind) : Z :=
  match k with
  | EXTERN_FUNCTION => count (functions c)
  | EXTERN_TABLE => count (tables c)
  | EXTERN_MEMORY => count (memories c)
  | EXTERN_GLOBAL => count (globals c)
  | EXTERN_TAG => count (tags c)
  end.

Lemma space_nonneg c k : 0 <= space c k.
Proof. destruct k; unfold space, count; simpl; lia. Qed.

(** The flags of declared references cover the functions. *)
Definition refs_fit (c : turbowasm_validation_context) : Prop :=
  match declared_refs c with None => True | Some l => length l = length (items (functions c)) end.

Lemma declare_inv calloc_ok c i c' : turbowasm_validation_context_declare_function_ref calloc_ok c i = Some c' ->
  0 <= i -> i < count (functions c) /\ exists l, c' = set_declared_refs (Some l) c /\ (refs_fit c -> refs_fit c').
Proof.
  unfold turbowasm_validation_context_declare_function_ref. intros E Hi.
  destruct (Z.geb_spec i (count (functions c))); [done|]. split; [lia|].
  destruct (declared_refs c) as [l|] eqn:El; simpl in E.
  - destruct (i >=? _); [done|]. injection E as <-. eexists. split; [done|]. unfold refs_fit. rewrite El. simpl. by rewrite length_insert.
  - destruct (count (functions c) =? 0); [done|]. destruct (calloc_ok _); [|done]. simpl in E. destruct (i >=? _); [done|].
    injection E as <-. eexists. split; [done|]. unfold refs_fit. simpl. by rewrite length_insert, length_replicate.
Qed.

(** ** Constant expressions *)

(** What a constant expression may change: the reader, the flags of declared
    references and the [requires_store] flag. *)
Record quiet (x y : loading) : Prop := {
  qu_heap : l_heap y = l_heap x;
  qu_summary : l_summary y = l_summary x;
  qu_context : exists store refs c, l_context y = c /\ c = set_declared_refs refs (set_requires_store store (l_context x));
  qu_refs : refs_fit (l_context x) -> refs_fit (l_context y)
}.

Lemma quiet_refl x : quiet x x.
Proof.
  split; [done|done| |done]. exists (requires_store (types (l_context x))), (declared_refs (l_context x)), (l_context x).
  split; [done|]. by destruct x as [? ? [[]] ?].
Qed.

Lemma quiet_trans x y z : quiet x y -> quiet y z -> quiet x z.
Proof.
  intros [H1 H2 (s1 & l1 & c1 & H3 & E1) H4] [K1 K2 (s2 & l2 & c2 & K3 & E2) K4]. split; [congruence|congruence| |auto].
  exists s2, l2, (l_context z). split; [done|]. by rewrite K3, E2, H3, E1.
Qed.

Lemma quiet_reader r x : quiet x (with_reader r x).
Proof. destruct (quiet_refl x) as [_ _ H1 H2]. by split. Qed.

Lemma quiet_declare calloc_ok i c x : 0 <= i ->
  turbowasm_validation_context_declare_function_ref calloc_ok (l_context x) i = Some c -> quiet x (with_context c x).
Proof.
  intros Hi E. apply declare_inv in E as (_ & l & -> & Hr); [|done]. split; [done|done| |done].
  exists (requires_store (types (l_context x))), (Some l), (set_declared_refs (Some l) (l_context x)). split; [done|].
  by destruct x as [? ? [[]] ?].
Qed.

Create HintDb quiet.
#[local] Hint Resolve quiet_refl quiet_reader : quiet.

Section Const.
Context (buf : list Z) (realloc_ok calloc_ok malloc_ok : Z -> bool).

(** [calm m]: whatever [m] returns, it was quiet. *)
Definition calm {A} (m : ld A) : Prop := forall x a y, m x = (inr a, y) -> quiet x y.

Lemma calm_bind {A B} (m : ld A) (k : A -> ld B) : calm m -> (forall a, calm (k a)) -> calm (m ≫= k).
Proof. intros Hm Hk x b y E. apply ld_bind_inv in E as (a & z & E1 & E2). eapply quiet_trans; [by eapply Hm|by eapply Hk]. Qed.

Lemma calm_ret {A} (a : A) : calm (mret a).
Proof. intros x b y E. ld_inv. apply quiet_refl. Qed.

Lemma calm_fail {A} st : calm (@lfail A st).
Proof. intros x a y E. discriminate. Qed.

Lemma calm_check bad st : calm (lcheck bad st).
Proof. unfold lcheck. destruct bad; [apply calm_fail|apply calm_ret]. Qed.

Lemma calm_get : calm lget.
Proof. intros x a y E. ld_inv. apply quiet_refl. Qed.

Lemma calm_read {A} (p : parse A) : calm (lread p).
Proof. intros x a y E. ld_inv. apply quiet_reader. Qed.

Lemma calm_switch {A} k (cases : list (Z * ld A)) d : Forall (fun c => calm c.2) cases -> calm d -> calm (switch k cases d).
Proof. intros Hc Hd. induction Hc as [|[l b] cs Hb _ IH]; simpl; [done|]. by destruct (k =? l). Qed.

#[local] Hint Resolve calm_bind calm_ret calm_fail calm_check calm_get calm_read : quiet.

Local Ltac calm_step :=
  match goal with
  | |- calm (_ ≫= _) => apply calm_bind; [|intros ?]
  | |- calm (if ?b then _ else _) => destruct b
  | |- calm (match ?o with Some _ => _ | None => _ end) => destruct o
  | |- calm (match ?o with inl _ => _ | inr _ => _ end) => destruct o
  | |- calm (let '(_, _) := ?o in _) => destruct o
  | |- _ => solve [auto with quiet nocore]
  end.

Lemma calm_push t s : calm (turbowasm_const_type_stack_push realloc_ok t s).
Proof. unfold turbowasm_const_type_stack_push. repeat calm_step. Qed.

Lemma calm_pop c s : calm (turbowasm_const_type_stack_pop c s).
Proof. unfold turbowasm_const_type_stack_pop, lreject. repeat calm_step. Qed.
#[local] Hint Resolve calm_push calm_pop : quiet.

Lemma calm_ref_func s : calm (const_ref_func buf realloc_ok calloc_ok s).
Proof.
  unfold const_ref_func. intros x a y E. ld_inv. destruct (turbowasm_validation_context_function _ _) as [f|]; [|discriminate E].
  eapply quiet_trans; [apply quiet_reader|]. eapply quiet_trans; [|by eapply calm_push].
  eapply quiet_declare; [|eassumption]. by eapply decode_uleb32.
Qed.

Lemma calm_gc s : calm (const_gc buf realloc_ok s).
Proof.
  intros x a y. unfold const_gc. destruct (Validator.Validator.turbowasm_validate_gc_constant _ _ _ _ _ _ _) as [[[[st r] vs] cap] store].
  case_bool_decide; [|discriminate]. intros [= <- <-]. split; [done|done| |done].
  eexists store, (declared_refs (l_context x)), _. split; [done|]. by destruct x as [? ? [[]] ?].
Qed.

Lemma calm_instruction op s : calm (const_instruction buf realloc_ok calloc_ok op s).
Proof.
  unfold const_instruction, const_bytes, const_binary, const_ref_null, const_global, lreject. cbv zeta.
  apply calm_switch; [|apply calm_fail].
  repeat first [apply Forall_nil_2 | apply Forall_cons_2]; cbn [snd]; repeat calm_step; [apply calm_ref_func|apply calm_gc].
Qed.

Lemma calm_loop fuel : forall s, calm (const_loop buf realloc_ok calloc_ok fuel s).
Proof.
  induction fuel as [|fuel IH]; intros s; cbn [const_loop]; [apply calm_fail|]. repeat calm_step; apply calm_instruction.
Qed.

Lemma calm_const_expr : calm (turbowasm_validate_const_expr_semantic buf realloc_ok calloc_ok).
Proof.
  unfold turbowasm_validate_const_expr_semantic. apply calm_bind; [apply calm_read|]. intros n. apply calm_bind; [apply calm_loop|].
  intros s. destruct (const_values s) as [|t [|]]; auto with quiet nocore.
Qed.

Lemma const_expr_starts x t y : turbowasm_validate_const_expr_semantic buf realloc_ok calloc_ok x = (inr t, y) ->
  exists p, cursor (l_reader x) = Some p.
Proof.
  unfold turbowasm_validate_const_expr_semantic. intros E. ld_inv. cbn [const_loop] in E1. ld_inv.
  unfold decode, turbowasm_reader_u8 in G0. injection G as _ <-. simpl in G0.
  destruct (_ <? 1); [discriminate|]. destruct (cursor (l_reader x)); [by eexists|discriminate].
Qed.

#[local] Hint Resolve calm_const_expr : quiet.

(** *** Segments *)

Lemma calm_measured {A} (m : ld A) : calm m -> calm (measured m).
Proof. intros Hm. unfold measured. repeat first [assumption | calm_step]. Qed.

Lemma calm_const_carrier : calm (turbowasm_validate_const_expr buf realloc_ok calloc_ok).
Proof. unfold turbowasm_validate_const_expr. repeat calm_step. Qed.

Lemma calm_element_offset i : calm (turbowasm_element_validate_offset buf realloc_ok calloc_ok i).
Proof.
  unfold turbowasm_element_validate_offset, lreject. apply calm_bind; [apply calm_measured, calm_const_carrier|]. intros [[t start] size].
  repeat calm_step.
Qed.

Lemma calm_memory_offset i : calm (turbowasm_read_memory_offset_expr buf realloc_ok calloc_ok i).
Proof.
  unfold turbowasm_read_memory_offset_expr, lreject. apply calm_bind; [apply calm_measured, calm_const_carrier|]. intros [[t start] size].
  repeat calm_step.
Qed.

Lemma calm_element_reftype : calm (turbowasm_element_read_reftype buf).
Proof. unfold turbowasm_element_read_reftype, lreject. cbv zeta. repeat calm_step. Qed.

Lemma calm_element_kind : calm (turbowasm_element_read_elemkind buf).
Proof. unfold turbowasm_element_read_elemkind, lreject. repeat calm_step. Qed.

End Const.

(** ** What the context of a module promises *)

Definition function_typed (H : type_heap) (c : turbowasm_validation_context) (i : Z) : Prop :=
  0 <= i /\ exists t, type_at H c i = Some t /\ type_kind t = TYPE_FUNCTION.

(** The bytes of a memory fit the address space, also at its maximum. *)
Definition memory_ok (m : turbowasm_validation_memory) : Prop :=
  let limit := if vm_memory64 m then 2 ^ 64 else 2 ^ 32 in
  let l := vm_limits m in
  (vm_page_size m = 1 \/ vm_page_size m = 65536) /\ 0 <= mlim_minimum l /\ mlim_minimum l * vm_page_size m <= limit /\
  (mlim_has_maximum l = true -> mlim_minimum l <= mlim_maximum l /\ mlim_maximum l * vm_page_size m <= limit) /\
  (vm_shared m = true -> mlim_has_maximum l = true).

(** A table without null references is filled by an initializer. *)
Definition table_ok (t : turbowasm_validation_table) : Prop :=
  is_reference (table_semantic t) = true /\ reference_type t = carrier (table_semantic t) /\
  0 <= lim_minimum (table_limits t) /\
  (lim_has_maximum (table_limits t) = true -> lim_minimum (table_limits t) <= lim_maximum (table_limits t)) /\
  (table_imported t = false -> nullable (table_semantic t) = false -> table_init t <> None).

Definition global_ok (g : turbowasm_validation_global) : Prop :=
  global_carrier g = carrier (global_semantic g) /\ (global_init g = None <-> global_imported g = true).

Definition tag_ok (H : type_heap) (c : turbowasm_validation_context) (g : turbowasm_validation_tag) : Prop :=
  exists t, type_at H c (tag_type_index g) = Some t /\ type_kind t = TYPE_FUNCTION /\ results t = [].

Definition data_ok (c : turbowasm_validation_context) (d : turbowasm_validation_data_segment) : Prop :=
  data_mode d = SEGMENT_ACTIVE -> 0 <= data_memory d < count (memories c).

Definition item_ok (c : turbowasm_validation_context) (i : turbowasm_validation_element_item) : Prop :=
  match i with ELEMENT_FUNCTION_INDEX f => 0 <= f < count (functions c) | ELEMENT_CONST_EXPR _ => True end.

Definition element_ok (H : type_heap) (c : turbowasm_validation_context) (e : turbowasm_validation_element_segment) : Prop :=
  (elem_mode e = SEGMENT_ACTIVE -> exists t, 0 <= elem_table e /\ items (tables c) !! Z.to_nat (elem_table e) = Some t /\
     turbowasm_validation_value_type_matches H (elem_semantic e) (table_semantic t) = true) /\
  elem_reference e = carrier (elem_semantic e) /\ Forall (item_ok c) (elem_items e).

Definition export_ok (c : turbowasm_validation_context) (e : turbowasm_export_desc) : Prop :=
  0 <= export_item e < space c (export_kind e).

Definition start_ok (H : type_heap) (c : turbowasm_validation_context) (o : option Z) : Prop :=
  forall i, o = Some i -> exists t, turbowasm_validation_context_function_type H c i = Some t /\ params t = [] /\ results t = [].

(** What two exports may not share. *)
Definition export_key (buf : list Z) (e : turbowasm_export_desc) : Z * list Z :=
  (name_size (export_name e), name_text buf (export_name e)).

Record module_ok (buf : list Z) (H : type_heap) (c : turbowasm_validation_context) (s : turbowasm_module_summary) : Prop := {
  mo_heap : heap_wf H;
  mo_types : types_base (types c) = 0%nat /\ Z.of_nat (length H) = type_count (types c) /\ type_count (types c) <= UINT32_MAX;
  mo_read : types_read s = type_count (types c);
  mo_functions : Forall (fun f => function_typed H c (function_type_index f)) (items (functions c));
  mo_tables : Forall table_ok (items (tables c));
  mo_memories : Forall memory_ok (items (memories c));
  mo_globals : Forall global_ok (items (globals c));
  mo_tags : Forall (tag_ok H c) (items (tags c));
  mo_exports : Forall (export_ok c) (items (exports c));
  mo_names : NoDup (map (export_key buf) (items (exports c)));
  mo_start : start_ok H c (start_function s);
  mo_elements : Forall (element_ok H c) (items (element_segments c));
  mo_data : Forall (data_ok c) (items (data_segments c));
  mo_refs : refs_fit c
}.

(** The index spaces grow by the given items; the rest of the context stays, but
    for the flags of declared references and [requires_store]. *)
Record growth (c c' : turbowasm_validation_context) (fs : list turbowasm_validation_function)
    (ts : list turbowasm_validation_table) (ms : list turbowasm_validation_memory)
    (gs : list turbowasm_validation_global) (tgs : list turbowasm_validation_tag) : Prop := {
  gr_base : types_base (types c') = types_base (types c);
  gr_count : type_count (types c') = type_count (types c);
  gr_functions : items (functions c') = items (functions c) ++ fs;
  gr_tables : items (tables c') = items (tables c) ++ ts;
  gr_memories : items (memories c') = items (memories c) ++ ms;
  gr_globals : items (globals c') = items (globals c) ++ gs;
  gr_tags : items (tags c') = items (tags c) ++ tgs;
  gr_exports : items (exports c') = items (exports c);
  gr_elements : items (element_segments c') = items (element_segments c);
  gr_data : items (data_segments c') = items (data_segments c)
}.

Lemma type_at_types H c c' i : types_base (types c') = types_base (types c) -> type_count (types c') = type_count (types c) ->
  type_at H c' i = type_at H c i.
Proof. intros H1 H2. unfold type_at, turbowasm_validation_context_type. by rewrite H1, H2. Qed.

Lemma growth_quiet x y : quiet x y -> growth (l_context x) (l_context y) [] [] [] [] [].
Proof. intros [_ _ (store & refs & c & -> & ->) _]. split; simpl; by rewrite ?app_nil_r. Qed.

Lemma growth_trans c c1 c2 fs ts ms gs tgs fs' ts' ms' gs' tgs' :
  growth c c1 fs ts ms gs tgs -> growth c1 c2 fs' ts' ms' gs' tgs' ->
  growth c c2 (fs ++ fs') (ts ++ ts') (ms ++ ms') (gs ++ gs') (tgs ++ tgs').
Proof. intros [] []. split; try congruence; rewrite app_assoc; congruence. Qed.

Lemma growth_space c c' fs ts ms gs tgs k : growth c c' fs ts ms gs tgs ->
  space c' k = space c k + Z.of_nat (match k with
    | EXTERN_FUNCTION => length fs | EXTERN_TABLE => length ts | EXTERN_MEMORY => length ms
    | EXTERN_GLOBAL => length gs | EXTERN_TAG => length tgs end).
Proof. intros []. destruct k; unfold space, count; rewrite ?gr_functions0, ?gr_tables0, ?gr_memories0, ?gr_globals0, ?gr_tags0, length_app; lia. Qed.

Lemma function_type_grown H c c' fs ts ms gs tgs i t : growth c c' fs ts ms gs tgs ->
  turbowasm_validation_context_function_type H c i = Some t -> turbowasm_validation_context_function_type H c' i = Some t.
Proof.
  intros G. unfold turbowasm_validation_context_function_type, at_index, count. rewrite (gr_functions _ _ _ _ _ _ _ G), length_app.
  destruct (Z.geb_spec i (Z.of_nat (length (items (functions c))))) as [|Hl]; [done|].
  destruct (Z.geb_spec i (Z.of_nat (length (items (functions c)) + length fs))); [lia|].
  destruct (items (functions c) !! Z.to_nat i) as [f|] eqn:Ef; [|done]. simpl. rewrite (lookup_app_l_Some _ _ _ _ Ef). simpl.
  by rewrite (type_at_types H c c' _ (gr_base _ _ _ _ _ _ _ G) (gr_count _ _ _ _ _ _ _ G)).
Qed.

Lemma module_ok_grow buf H c s c' s' fs ts ms gs tgs : module_ok buf H c s -> growth c c' fs ts ms gs tgs ->
  Forall (fun f => function_typed H c (function_type_index f)) fs -> Forall table_ok ts -> Forall memory_ok ms ->
  Forall global_ok gs -> Forall (tag_ok H c) tgs -> refs_fit c' -> types_read s' = types_read s ->
  start_function s' = start_function s -> module_ok buf H c' s'.
Proof.
  intros [] G Hf Ht Hm Hg Htg Hr Hs1 Hs2. pose proof (fun i => type_at_types H c c' i (gr_base _ _ _ _ _ _ _ G) (gr_count _ _ _ _ _ _ _ G)) as Hty.
  pose proof (fun k => growth_space _ _ _ _ _ _ _ k G) as Hsp. destruct G as [B1 B2 B3 B4 B5 B6 B7 B8 B9 B10]. split.
  - done.
  - by rewrite B1, B2.
  - by rewrite Hs1, B2.
  - rewrite B3. eapply Forall_impl; [apply Forall_app; by split|]. intros f [? (t & E & ?)]. split; [done|]. exists t. by rewrite Hty.
  - rewrite B4. by apply Forall_app.
  - rewrite B5. by apply Forall_app.
  - rewrite B6. by apply Forall_app.
  - rewrite B7. eapply Forall_impl; [apply Forall_app; by split|]. intros g (t & E & ?). exists t. by rewrite Hty.
  - rewrite B8. eapply Forall_impl; [done|]. intros e [? ?]. unfold export_ok. rewrite Hsp. lia.
  - by rewrite B8.
  - rewrite Hs2. intros i Hi. destruct (mo_start0 i Hi) as (t & E & ?). exists t. split; [|done].
    eapply function_type_grown; [by split|done].
  - rewrite B9. eapply Forall_impl; [done|]. intros e (He1 & He2 & He3). split; [|split; [done|]].
    + intros Ha. destruct (He1 Ha) as (t & H1 & H2 & H3). exists t. split; [done|]. split; [|done]. rewrite B4. by apply lookup_app_l_Some.
    + eapply Forall_impl; [done|]. intros [i|]; [|done]. simpl. pose proof (Hsp EXTERN_FUNCTION). simpl in *. lia.
  - rewrite B10. eapply Forall_impl; [done|]. intros d Hd Ha. specialize (Hd Ha). pose proof (Hsp EXTERN_MEMORY). simpl in *. lia.
  - done.
Qed.

(** ** Appending to an index space *)

Definition fits (c : turbowasm_validation_context) : Prop := forall k, space c k <= UINT32_MAX.

(** The growth of one append; the flags of declared references stay. *)
Record appended (c c' : turbowasm_validation_context) fs ts ms gs tgs : Prop := {
  ap_growth : growth c c' fs ts ms gs tgs;
  ap_fits : fits c -> fits c';
  ap_refs : declared_refs c' = declared_refs c
}.

Section Append.
Context (realloc_ok : Z -> bool).

Local Ltac appended_by c E := split; [split; simpl; by rewrite ?app_nil_r|intros Hf k; pose proof (Hf k) as Hk; pose proof (space_nonneg c k);
  destruct k; simpl in *; try done; apply E; lia|done].

Lemma append_function_inv c i b c' : turbowasm_validation_context_append_function realloc_ok c i b = Some c' ->
  i < type_count (types c) /\ appended c c' [mk_function i b [] [] None 0 [] 0] [] [] [] [].
Proof.
  unfold turbowasm_validation_context_append_function. destruct (Z.geb_spec i (type_count (types c))); [done|].
  destruct (append _ _ _ _) as [v|] eqn:E; [|done]. intros [= <-]. apply append_inv in E as [Ei E].
  split; [lia|]. appended_by c E.
Qed.

Lemma append_memory_inv c l p sh m64 b c' : turbowasm_validation_context_append_memory realloc_ok c l p sh m64 b = Some c' ->
  appended c c' [] [] [mk_vmemory b sh m64 p l] [] [].
Proof.
  unfold turbowasm_validation_context_append_memory. destruct (append _ _ _ _) as [v|] eqn:E; [|done]. intros [= <-].
  apply append_inv in E as [Ei E]. appended_by c E.
Qed.

Lemma append_global_inv c t m b init n c' : turbowasm_validation_context_append_global_semantic realloc_ok c t m b init n = Some c' ->
  (b = true -> init = None) /\ appended c c' [] [] [] [mk_global (carrier t) t m b init n] [].
Proof.
  unfold turbowasm_validation_context_append_global_semantic. destruct (_ =? _); [done|]. destruct (negb _); [done|].
  destruct (b && negb (is_null init)) eqn:Eb; [done|]. destruct (append _ _ _ _) as [v|] eqn:E; [|done]. intros [= <-].
  apply append_inv in E as [Ei E]. split; [intros ->; by destruct init|]. appended_by c E.
Qed.

Lemma append_table_inv c t l b init n c' : turbowasm_validation_context_append_table_full realloc_ok c t l b init n = Some c' ->
  is_reference t = true /\ appended c c' [] [mk_table (carrier t) t b l init n] [] [] [].
Proof.
  unfold turbowasm_validation_context_append_table_full. destruct ((_ =? _) || negb (is_reference t)) eqn:Er; [done|].
  apply orb_false_iff in Er as [_ Er%negb_false_iff]. destruct (b && _); [done|]. destruct (negb _); [done|].
  destruct (append _ _ _ _) as [v|] eqn:E; [|done]. intros [= <-]. apply append_inv in E as [Ei E]. split; [done|]. appended_by c E.
Qed.

Lemma append_tag_inv H c i b c' : turbowasm_validation_context_append_tag realloc_ok H c i b = Some c' ->
  appended c c' [] [] [] [] [mk_tag i b].
Proof.
  unfold turbowasm_validation_context_append_tag. destruct (_ || _); [done|]. destruct (type_at H c i) as [t|]; [|done]. simpl.
  destruct (_ || _); [done|]. destruct (append _ _ _ _) as [v|] eqn:E; [|done]. intros [= <-]. apply append_inv in E as [Ei E].
  appended_by c E.
Qed.

End Append.

(** ** Types of imports and definitions *)

Section Types.
Context (buf : list Z).

Lemma read_size_range wide : yields (read_size buf wide) (fun n => 0 <= n).
Proof.
  intros r n r'. unfold read_size. destruct wide; intros E%decode_inv; [apply uleb64_range in E|apply uleb32_range in E];
    unfold is_uint in E; lia.
Qed.

Lemma read_limits_ok bound : yields (turbowasm_read_limits buf bound) (fun l =>
  0 <= lim_minimum l /\ (lim_has_maximum l = true -> lim_minimum l <= lim_maximum l)).
Proof.
  unfold turbowasm_read_limits. eapply yields_bind; [apply yields_any|]. intros flags _. eapply yields_bind; [apply yields_any|]. intros _ _.
  cbv zeta. eapply yields_bind; [apply read_size_range|]. intros mn Hmn. eapply yields_bind; [apply yields_any|]. intros _ _.
  destruct (negb (flags .& 1 =? 0)).
  - eapply (yields_bind _ _ (fun mx => mn <= mx)); [|intros mx Hmx; by apply yields_ret].
    eapply yields_bind; [apply yields_any|]. intros mx _. eapply yields_bind; [apply yields_check|]. intros u Hlt%Z.ltb_ge.
    eapply yields_bind; [apply yields_any|]. intros _ _. by apply yields_ret.
  - eapply yields_bind; [apply yields_any|]. intros mx _. apply yields_ret. by split.
Qed.

Lemma read_table_type_ok H c : yields (turbowasm_read_table_type buf H c) (fun tl =>
  0 <= lim_minimum tl.2 /\ (lim_has_maximum tl.2 = true -> lim_minimum tl.2 <= lim_maximum tl.2)).
Proof.
  unfold turbowasm_read_table_type. eapply yields_bind; [apply yields_any|]. intros tg _. cbv zeta. eapply yields_bind; [apply yields_any|].
  intros _ _. eapply yields_bind; [apply read_limits_ok|]. intros l Hl. by apply yields_ret.
Qed.

Lemma read_memory_type_ok : yields (turbowasm_read_memory_type buf) (fun m =>
  forall b, memory_ok (mk_vmemory b m.1.2 m.2 m.1.1.2 m.1.1.1)).
Proof.
  unfold turbowasm_read_memory_type. eapply yields_bind; [apply yields_any|]. intros flags _. eapply yields_bind; [apply yields_any|]. intros _ _.
  cbv zeta. eapply yields_bind; [apply yields_check|]. intros u Hsh. eapply yields_bind; [apply read_size_range|]. intros mn Hmn.
  set (hm := negb (flags .& 1 =? 0)) in *. set (sh := negb (flags .& 2 =? 0)) in *. set (m64 := negb (flags .& 4 =? 0)).
  eapply (yields_bind _ _ (fun mx => hm = true -> mn <= mx)).
  { destruct hm; [|by apply yields_ret]. eapply yields_bind; [apply yields_any|]. intros mx _. eapply yields_bind; [apply yields_check|].
    intros v Hlt%Z.ltb_ge. by apply yields_ret. }
  intros mx Hmx. eapply yields_bind; [apply yields_any|]. intros e _. eapply yields_bind; [apply yields_check|].
  intros v [H1 H2]%orb_false_iff. rewrite Z.gtb_ltb, Z.ltb_ge in H1. apply yields_ret. intros b. unfold memory_ok. simpl.
  change (1 ≪ 48) with (2 ^ 48) in *. unfold UINT32_MAX, UINT64_MAX in *. split; [destruct (e =? 0); [by left|by right]|]. split; [done|].
  assert (Hcap : forall n, n <= (if m64 then if (if e =? 0 then 1 else 65536) =? 1 then 18446744073709551615 else 2 ^ 48
      else if (if e =? 0 then 1 else 65536) =? 1 then 4294967295 else 65536) ->
      n * (if e =? 0 then 1 else 65536) <= (if m64 then 2 ^ 64 else 2 ^ 32)) by (intros n; destruct m64, (e =? 0); simpl; lia).
  split; [by apply Hcap|]. split.
  - intros Hm. rewrite Hm in H2. simpl in H2. rewrite Z.gtb_ltb, Z.ltb_ge in H2. split; [by apply Hmx|by apply Hcap].
  - intros Hs. rewrite Hs in Hsh. by destruct hm.
Qed.

Lemma read_tag_type_ok H c : yields (turbowasm_read_tag_type buf H c) (fun i => forall b, tag_ok H c (mk_tag i b)).
Proof.
  unfold turbowasm_read_tag_type. eapply yields_bind; [apply yields_any|]. intros a _. eapply yields_bind; [apply yields_any|]. intros i _.
  eapply yields_bind; [apply yields_any|]. intros _ _. destruct (type_at H c i) as [t|] eqn:E; [|apply yields_fail].
  eapply yields_bind; [apply yields_check|]. intros u [[_ H1]%orb_false_iff H2]%orb_false_iff. apply yields_ret. intros b. exists t.
  split; [done|]. apply negb_false_iff, bool_decide_eq_true in H1. apply negb_false_iff, Z.eqb_eq in H2. split; [done|].
  unfold result_count in H2. by destruct (results t).
Qed.

End Types.

(** ** One more item of a section *)

Definition fresh (b : bool) (f : turbowasm_validation_function) : Prop :=
  function_imported f = b /\ controls_of f = [].

(** The reader of an item of kind [k] added one item of that kind, [b] saying
    whether it is imported. *)
Record adds (b : bool) (k : turbowasm_external_kind) (H : type_heap) (c c' : turbowasm_validation_context) : Prop := {
  ad_growth : exists fs ts ms gs tgs, growth c c' fs ts ms gs tgs /\ Forall (fresh b) fs /\
    Forall (fun f => function_typed H c (function_type_index f)) fs /\ Forall table_ok ts /\ Forall memory_ok ms /\
    Forall global_ok gs /\ Forall (tag_ok H c) tgs;
  ad_space : forall k', space c' k' = space c k' + if decide (k' = k) then 1 else 0;
  ad_fits : fits c -> fits c';
  ad_refs : refs_fit c -> declared_refs c = None \/ k <> EXTERN_FUNCTION -> refs_fit c';
  ad_none : declared_refs c = None -> k = EXTERN_FUNCTION \/ b = true -> declared_refs c' = None
}.

Lemma adds_appended b k H c c' fs ts ms gs tgs : appended c c' fs ts ms gs tgs ->
  (forall k', match k' with
    | EXTERN_FUNCTION => length fs | EXTERN_TABLE => length ts | EXTERN_MEMORY => length ms
    | EXTERN_GLOBAL => length gs | EXTERN_TAG => length tgs end = if decide (k' = k) then 1%nat else 0%nat) ->
  Forall (fresh b) fs -> Forall (fun f => function_typed H c (function_type_index f)) fs -> Forall table_ok ts ->
  Forall memory_ok ms -> Forall global_ok gs -> Forall (tag_ok H c) tgs -> adds b k H c c'.
Proof.
  intros [G Hf Hr] Hk H1 H2 H3 H4 H5 H6. split; [by exists fs, ts, ms, gs, tgs| |done| |].
  - intros k'. rewrite (growth_space _ _ _ _ _ _ _ k' G), Hk. by destruct (decide (k' = k)).
  - intros Hfit Hn. unfold refs_fit in *. rewrite Hr. destruct (declared_refs c) as [l|]; [|done].
    destruct Hn as [|Hn]; [done|]. rewrite (gr_functions _ _ _ _ _ _ _ G). specialize (Hk EXTERN_FUNCTION). simpl in Hk.
    destruct (decide (EXTERN_FUNCTION = k)); [by subst|]. destruct fs; [by rewrite app_nil_r|done].
  - intros Hn _. by rewrite Hr.
Qed.

(** A quiet reader before the append. *)
Lemma adds_quiet k x y c' : quiet x y -> k <> EXTERN_FUNCTION -> adds false k (l_heap x) (l_context y) c' ->
  adds false k (l_heap x) (l_context x) c'.
Proof.
  intros Q Hk [(fs & ts & ms & gs & tgs & G & F1 & F2 & F3 & F4 & F5 & F6) S1 S2 S3 S4]. pose proof (growth_quiet _ _ Q) as GQ.
  pose proof (fun i => type_at_types (l_heap x) _ _ i (gr_base _ _ _ _ _ _ _ GQ) (gr_count _ _ _ _ _ _ _ GQ)) as Hty.
  pose proof (fun k => growth_space _ _ _ _ _ _ _ k GQ) as Hsp.
  assert (Hsp' : forall k, space (l_context y) k = space (l_context x) k) by (intros k'; rewrite Hsp; destruct k'; simpl; lia).
  split.
  - exists fs, ts, ms, gs, tgs. split; [apply (growth_trans _ _ _ _ _ _ _ _ _ _ _ _ _ GQ G)|]. split; [done|]. split; [|split; [done|]].
    + eapply Forall_impl; [done|]. intros f [? (t & E & ?)]. split; [done|]. exists t. by rewrite <- Hty.
    + split; [done|]. split; [done|]. eapply Forall_impl; [done|]. intros g (t & E & ?). exists t. by rewrite <- Hty.
  - intros k'. by rewrite S1, Hsp'.
  - intros Hf. apply S2. intros k'. rewrite Hsp'. apply Hf.
  - intros Hr _. apply S3; [by apply (qu_refs _ _ Q)|by right].
  - intros _ [|]; [by subst|done].
Qed.

Lemma module_ok_adds buf b k H c c' s s' : module_ok buf H c s -> adds b k H c c' ->
  declared_refs c = None \/ k <> EXTERN_FUNCTION -> types_read s' = types_read s -> start_function s' = start_function s ->
  module_ok buf H c' s'.
Proof.
  intros Hm [(fs & ts & ms & gs & tgs & G & F1 & F2 & F3 & F4 & F5 & F6) S1 S2 S3 S4] Hn H1 H2.
  eapply module_ok_grow; [exact Hm|exact G|done..| |done|done]. apply S3; [apply Hm|done].
Qed.

Section Items.
Context (buf : list Z) (realloc_ok calloc_ok malloc_ok : Z -> bool).

Local Ltac alone := intros []; reflexivity.

Lemma function_type_index_typed x i : 0 <= i -> function_type_index_ok x i = true -> function_typed (l_heap x) (l_context x) i.
Proof.
  unfold function_type_index_ok. intros Hi [_ E]%andb_true_iff. split; [done|].
  destruct (type_at _ _ i) as [t|]; [|done]. exists t. by apply bool_decide_eq_true in E.
Qed.

Lemma adds_function b i H c c' : function_typed H c i -> turbowasm_validation_context_append_function realloc_ok c i b = Some c' ->
  adds b EXTERN_FUNCTION H c c'.
Proof.
  intros Ht [_ E]%append_function_inv. eapply adds_appended; [exact E|alone|..]; try (by constructor).
  all: by repeat constructor.
Qed.

Lemma adds_memory b H c c' m : memory_ok (mk_vmemory b m.1.2 m.2 m.1.1.2 m.1.1.1) ->
  turbowasm_validation_context_append_memory realloc_ok c m.1.1.1 m.1.1.2 m.1.2 m.2 b = Some c' -> adds b EXTERN_MEMORY H c c'.
Proof.
  intros Hm E%append_memory_inv. eapply adds_appended; [exact E|alone|..]; try (by constructor). all: by repeat constructor.
Qed.

Lemma adds_tag b i H c c' : tag_ok H c (mk_tag i b) -> turbowasm_validation_context_append_tag realloc_ok H c i b = Some c' ->
  adds b EXTERN_TAG H c c'.
Proof.
  intros Ht E%append_tag_inv. eapply adds_appended; [exact E|alone|..]; try (by constructor). all: by repeat constructor.
Qed.

Lemma adds_global b t m init n H c c' : (init = None -> b = true) ->
  turbowasm_validation_context_append_global_semantic realloc_ok c t m b init n = Some c' -> adds b EXTERN_GLOBAL H c c'.
Proof.
  intros Hi [Hb E]%append_global_inv. eapply adds_appended; [exact E|alone|..]; try (by constructor).
  all: constructor; [|constructor]; split; [done|]; simpl; by split.
Qed.

Lemma adds_table b t l init n H c c' : 0 <= lim_minimum l -> (lim_has_maximum l = true -> lim_minimum l <= lim_maximum l) ->
  (b = false -> nullable t = false -> init <> None) ->
  turbowasm_validation_context_append_table_full realloc_ok c t l b init n = Some c' -> adds b EXTERN_TABLE H c c'.
Proof.
  intros H1 H2 H3 [Hr E]%append_table_inv. eapply adds_appended; [exact E|alone|..]; try (by constructor).
  all: constructor; [|constructor]; by split.
Qed.

(** The sections of definitions, item by item. *)
Record item_read (k : turbowasm_external_kind) (x y : loading) : Prop := {
  ir_heap : l_heap y = l_heap x;
  ir_summary : l_summary y = l_summary x;
  ir_adds : adds false k (l_heap x) (l_context x) (l_context y)
}.

Lemma function_one_read i x y : function_one buf realloc_ok i x = (inr tt, y) -> item_read EXTERN_FUNCTION x y.
Proof.
  unfold function_one. intros E. ld_inv. split; [done|done|]. simpl in *. eapply adds_function; [|eassumption].
  apply (function_type_index_typed (with_reader r x)); [by eapply decode_uleb32|]. by apply negb_false_iff.
Qed.

Lemma memory_one_read i x y : memory_one buf realloc_ok i x = (inr tt, y) -> item_read EXTERN_MEMORY x y.
Proof.
  unfold memory_one. intros E. ld_inv. destruct a as [[[l p] sh] m64]. ld_inv. split; [done|done|]. simpl in *.
  eapply (adds_memory false _ _ _ (l, p, sh, m64)); [|eassumption]. eapply (read_memory_type_ok buf) in G. by apply G.
Qed.

Lemma tag_one_read i x y : tag_one buf realloc_ok i x = (inr tt, y) -> item_read EXTERN_TAG x y.
Proof.
  unfold tag_one. intros E. ld_inv. split; [done|done|]. simpl in *. eapply adds_tag; [|eassumption].
  eapply (read_tag_type_ok buf) in G. by apply G.
Qed.

Lemma global_one_read i x y : global_one buf realloc_ok calloc_ok i x = (inr tt, y) -> item_read EXTERN_GLOBAL x y.
Proof.
  unfold global_one. intros E. ld_inv. rename select (turbowasm_validate_const_expr_semantic _ _ _ _ = _) into Ec.
  destruct (const_expr_starts _ _ _ _ _ _ Ec) as [p Hp]. apply calm_const_expr in Ec as Q.
  eapply (quiet_trans x) in Q; [|apply quiet_reader].
  split; [apply Q|apply Q|]. simpl in *. eapply adds_quiet; [exact Q|done|]. eapply adds_global; [|eassumption]. by rewrite Hp.
Qed.

Lemma table_one_read i x y : table_one buf realloc_ok calloc_ok i x = (inr tt, y) -> item_read EXTERN_TABLE x y.
Proof.
  unfold table_one. intros E. ld_inv. match type of E with (if ?b then _ else _) _ = _ => destruct b end; ld_inv;
    rename select (turbowasm_read_table_type _ _ _ _ = _) into Et; apply (read_table_type_ok buf) in Et as [Hl1 Hl2].
  - rename select (turbowasm_validate_const_expr_semantic _ _ _ _ = _) into Ec.
    destruct (const_expr_starts _ _ _ _ _ _ Ec) as [p Hp]. apply calm_const_expr in Ec as Q.
    eapply (quiet_trans x) in Q; [|apply quiet_reader].
    split; [apply Q|apply Q|]. simpl in *. eapply adds_quiet; [exact Q|done|].
    rename select (turbowasm_validation_context_append_table_semantic_initialized _ _ _ _ _ _ = _) into Ea.
    unfold turbowasm_validation_context_append_table_semantic_initialized in Ea. rewrite Hp in Ea. destruct (is_null (Some p) || _); [done|].
    by eapply adds_table; [exact Hl1|exact Hl2| |exact Ea].
  - split; [done|done|]. simpl in *. eapply adds_table; [exact Hl1|exact Hl2| |eassumption]. intros _ Hn.
    rename select (is_reference _ && _ = false) into Hnn. rewrite Hn, andb_true_r in Hnn.
    rename select (turbowasm_validation_context_append_table_semantic _ _ _ _ _ = _) into Ea. apply append_table_inv in Ea as [Hr _]. congruence.
Qed.

(** An import counts its kind. *)
Record import_read (x y : loading) : Prop := {
  im_heap : l_heap y = l_heap x;
  im_adds : exists k, adds true k (l_heap x) (l_context x) (l_context y) /\
    l_summary y = set_imported k (u32 (imported (l_summary x) k + 1)) (l_summary x)
}.

Lemma import_item_read kind x a y : import_item_of buf realloc_ok kind x = (inr a, y) -> import_read x y.
Proof.
  unfold import_item_of, count_import. intros E. ld_inv. cbn [switch] in E.
  destruct (kind =? 0); [|destruct (kind =? 1); [|destruct (kind =? 2); [|destruct (kind =? 3); [|destruct (kind =? 4); [|discriminate E]]]]];
    ld_inv; simpl in *.
  - split; [done|]. exists EXTERN_FUNCTION. split; [|done]. simpl. eapply adds_function; [|eassumption].
    apply function_type_index_typed; [by eapply decode_uleb32|by apply negb_false_iff].
  - split; [done|]. exists EXTERN_TABLE. split; [|done]. simpl. rename select (turbowasm_read_table_type _ _ _ _ = _) into Et.
    apply (read_table_type_ok buf) in Et as [Hl1 Hl2]. by eapply adds_table; [exact Hl1|exact Hl2| |eassumption].
  - destruct a0 as [[[l p] sh] m64]. ld_inv. split; [done|]. exists EXTERN_MEMORY. split; [|done]. simpl.
    eapply (adds_memory true _ _ _ (l, p, sh, m64)); [|eassumption]. rename select (turbowasm_read_memory_type _ _ = _) into Em.
    eapply (read_memory_type_ok buf) in Em. by apply Em.
  - split; [done|]. exists EXTERN_GLOBAL. split; [|done]. simpl. by eapply adds_global; [|eassumption].
  - split; [done|]. exists EXTERN_TAG. split; [|done]. simpl. eapply adds_tag; [|eassumption].
    rename select (turbowasm_read_tag_type _ _ _ _ = _) into Et. eapply (read_tag_type_ok buf) in Et. by apply Et.
Qed.

Lemma adds_imports b k H c c' v : adds b k H c c' -> adds b k H c (set_imports v c').
Proof.
  intros [(fs & ts & ms & gs & tgs & [] & F) S1 S2 S3 S4]. split; [|done..]. exists fs, ts, ms, gs, tgs. by split.
Qed.

Lemma import_one_read i x y : import_one buf realloc_ok i x = (inr tt, y) -> import_read x y.
Proof.
  unfold import_one. intros E. ld_inv. destruct a2 as [[k item] ti]. ld_inv.
  rename select (import_item_of _ _ _ _ = _) into Ei. apply import_item_read in Ei as [Hh (k' & Ha & Hs)]. simpl in *.
  split; [done|]. exists k'. split; [|done]. unfold turbowasm_validation_context_append_import in *.
  rename select (append _ _ _ _ ≫= _ = _) into Ea. destruct (append _ _ _ _) as [v|]; [|done]. injection Ea as <-. by apply adds_imports.
Qed.

(** *** Items of element segments *)

Lemma item_ok_quiet x y i : quiet x y -> item_ok (l_context y) i <-> item_ok (l_context x) i.
Proof. intros [_ _ (st & refs & c & -> & ->) _]. by destruct i. Qed.

Definition reads_items (m : ld turbowasm_validation_element_item) : Prop :=
  forall x a y, m x = (inr a, y) -> quiet x y /\ item_ok (l_context x) a.

Lemma element_function_reads : reads_items (element_function buf calloc_ok).
Proof.
  unfold element_function. intros x a y E. ld_inv. simpl in *. rename select (decode _ _ = _) into Eu. apply decode_uleb32 in Eu.
  rename select ((_ >=? _) = false) into Hl. rewrite Z.geb_leb, Z.leb_gt in Hl. split; [|simpl; lia].
  eapply quiet_trans; [apply quiet_reader|]. eapply quiet_declare; [|eassumption]. lia.
Qed.

Lemma element_expression_reads t : reads_items (element_expression buf realloc_ok calloc_ok t).
Proof.
  unfold element_expression. intros x a y E. ld_inv. split; [|done]. by eapply calm_const_expr.
Qed.

Lemma read_items_ok m : reads_items m -> forall n x l y, read_items n m x = (inr l, y) -> quiet x y /\ Forall (item_ok (l_context x)) l.
Proof.
  intros Hm. induction n as [|n IH]; intros x l y E; cbn [read_items] in E; ld_inv; [split; [apply quiet_refl|constructor]|].
  rename select (m _ = _) into Em. destruct (Hm _ _ _ Em) as [Q1 H1]. rename select (read_items _ _ _ = _) into Er.
  destruct (IH _ _ _ Er) as [Q2 H2]. split; [by eapply quiet_trans|]. constructor; [done|]. eapply Forall_impl; [done|].
  intros i. by apply (item_ok_quiet _ _ _ Q1).
Qed.

Lemma element_vector_ok m x l y : reads_items m -> element_vector buf calloc_ok m x = (inr l, y) ->
  quiet x y /\ Forall (item_ok (l_context x)) l.
Proof.
  unfold element_vector. intros Hm E. ld_inv. apply read_items_ok in E as [Q Hl]; [|done]. split; [|done].
  eapply quiet_trans; [apply quiet_reader|done].
Qed.

Lemma element_table_inv i t x u y : turbowasm_element_validate_table i t x = (inr u, y) -> y = x /\
  exists table, items (tables (l_context x)) !! Z.to_nat i = Some table /\
    turbowasm_validation_value_type_matches (l_heap x) t (table_semantic table) = true.
Proof.
  unfold turbowasm_element_validate_table. intros E. ld_inv. destruct (at_index _ _) as [table|] eqn:Et; [|discriminate E]. ld_inv.
  split; [done|]. exists table. unfold at_index in Et. destruct (_ >=? _); [done|]. split; [done|]. by apply negb_false_iff.
Qed.

End Items.

End Loading.
