(* ===== verification/Modules.v ===== *)
(** * Accepted modules

    The invariant of a load between two sections, and what an accepted module
    therefore satisfies: its context is consistent, its sections come in order,
    and every function it defines runs safely. *)

From Stdlib Require Import Sorted.
From S2P Require Import Prelude Reader Types ExecStack TypeEq TypeReader Context Validator ValidatorSteps ValidatorRun Unicode.
From S2P Require Import Sections Loading.

Module Modules.
Import Reader Types ExecStack TypeEq TypeReader Context ValidatorSteps ValidatorRun Sections Loading.

(** The section that defines the items of a kind. *)
Definition declaring (k : turbowasm_external_kind) : Z :=
  match k with
  | EXTERN_FUNCTION => 3
  | EXTERN_TABLE => 4
  | EXTERN_MEMORY => 5
  | EXTERN_TAG => 6
  | EXTERN_GLOBAL => 7
  end.

Section Invariant.
Context (buf : list Z) (realloc_ok calloc_ok malloc_ok : Z -> bool).

(** The body of the function [i] has been accepted, in a context with the types,
    the memories and the number of functions of [c]. *)
Definition validated (H : type_heap) (c : turbowasm_validation_context) (i : Z) : Prop :=
  exists ctx body F t f locals sem r s0 s1 s2,
    accepted_run buf realloc_ok malloc_ok H ctx body i F t f locals sem r s0 s1 s2 /\ controls_of f = [] /\
    items (functions c) !! Z.to_nat i = Some F /\ types_base (types ctx) = types_base (types c) /\
    type_count (types ctx) = type_count (types c) /\ items (memories ctx) = items (memories c) /\
    count (functions ctx) = count (functions c).

(** After the sections up to the rank [rank]; [extra] counts the items of the
    section being read. *)
Record inv (rank : Z) (extra : turbowasm_external_kind -> Z) (x : loading) : Prop := {
  in_ok : module_ok buf (l_heap x) (l_context x) (l_summary x);
  in_space : forall k, space (l_context x) k = imported (l_summary x) k + declared (l_summary x) k + extra k;
  in_nonneg : forall k, 0 <= imported (l_summary x) k /\ 0 <= declared (l_summary x) k /\ 0 <= extra k;
  in_fits : fits (l_context x);
  in_imported : forall i f, items (functions (l_context x)) !! i = Some f ->
    function_imported f = bool_decide (Z.of_nat i < imported (l_summary x) EXTERN_FUNCTION);
  in_types : rank < 1 -> l_heap x = [] /\ types (l_context x) = mk_types 0 0 false;
  in_imports : rank < 2 -> forall k, imported (l_summary x) k = 0;
  in_declared : forall k, rank < declaring k -> declared (l_summary x) k = 0;
  in_refs : rank < 4 -> declared_refs (l_context x) = None;
  in_exports : rank < 8 -> items (exports (l_context x)) = [];
  in_start : rank < 9 -> start_function (l_summary x) = None;
  in_elements : rank < 10 -> items (element_segments (l_context x)) = [];
  in_code : rank < 12 -> code_count (l_summary x) = 0 /\ Forall (fun f => controls_of f = []) (items (functions (l_context x)));
  in_data : rank < 13 -> items (data_segments (l_context x)) = [];
  in_bodies : forall i, imported (l_summary x) EXTERN_FUNCTION <= i <
      imported (l_summary x) EXTERN_FUNCTION + code_count (l_summary x) -> validated (l_heap x) (l_context x) i
}.

Definition none : turbowasm_external_kind -> Z := fun _ => 0.
Definition some (k : turbowasm_external_kind) (n : Z) : turbowasm_external_kind -> Z :=
  fun k' => if decide (k' = k) then n else 0.

Lemma inv_raise rank rank' e x : rank <= rank' -> inv rank e x -> inv rank' e x.
Proof.
  intros Hr []. split; try done; [intros; apply in_types0; lia|intros; apply in_imports0; lia|intros; apply in_declared0; lia|
    intros; apply in_refs0; lia|intros; apply in_exports0; lia|intros; apply in_start0; lia|intros; apply in_elements0; lia|
    intros; apply in_code0; lia|intros; apply in_data0; lia].
Qed.

(** The invariant does not see the reader. *)
Lemma inv_reader rank e r x : inv rank e x -> inv rank e (with_reader r x).
Proof. by intros []. Qed.

Lemma inv_extra rank e e' x : (forall k, e k = e' k) -> inv rank e x -> inv rank e' x.
Proof.
  intros He []. split; try done; [intros k; by rewrite <- He|]. intros k. rewrite <- He. apply in_nonneg0.
Qed.

(** No body is validated before the code section. *)
Lemma no_bodies rank e x i : inv rank e x -> rank < 12 -> ~ (imported (l_summary x) EXTERN_FUNCTION <= i <
  imported (l_summary x) EXTERN_FUNCTION + code_count (l_summary x)).
Proof. intros Hi Hr. destruct (in_code _ _ _ Hi Hr) as [-> _]. lia. Qed.

(** ** Sections of definitions *)

Lemma lookup_grown {A} (l : list A) new i a : (l ++ new) !! i = Some a -> l !! i = Some a \/ (length l <= i)%nat /\ a ∈ new.
Proof.
  intros [E|[Hl E]]%lookup_app_Some; [by left|]. right. split; [done|]. by eapply list_elem_of_lookup_2.
Qed.

Lemma inv_item k e x y : inv (declaring k) e x -> item_read k x y ->
  inv (declaring k) (fun k' => e k' + some k 1 k') y.
Proof.
  intros Hi [Hh Hs Ha]. pose proof Hi as [I1 I2 I3 I4 I5 I6 I7 I8 I9 I10 I11 I12 I13 I14 I15].
  assert (Hrefs : declared_refs (l_context x) = None \/ k <> EXTERN_FUNCTION).
  { destruct (decide (k = EXTERN_FUNCTION)) as [->|]; [left; apply I9; simpl; lia|by right]. }
  assert (Hlt : declaring k < 12) by (destruct k; simpl; lia).
  destruct (ad_growth _ _ _ _ _ Ha) as (fs & ts & ms & gs & tgs & G & F1 & _).
  split; rewrite ?Hh, ?Hs.
  - eapply module_ok_adds; [exact I1|exact Ha|exact Hrefs|done|done].
  - intros k'. rewrite (ad_space _ _ _ _ _ Ha), I2. unfold some. lia.
  - intros k'. destruct (I3 k') as (? & ? & ?). unfold some. destruct (decide (k' = k)); lia.
  - by apply (ad_fits _ _ _ _ _ Ha).
  - intros i f Hf. rewrite (gr_functions _ _ _ _ _ _ _ G) in Hf. apply lookup_grown in Hf as [Hf|[Hl Hf]]; [by apply I5|].
    rewrite Forall_forall in F1. destruct (F1 _ Hf) as [-> _]. symmetry. apply bool_decide_eq_false_2.
    pose proof (I2 EXTERN_FUNCTION) as Hsp. destruct (I3 EXTERN_FUNCTION) as (? & ? & ?). unfold space, count in Hsp. lia.
  - destruct k; simpl; lia.
  - destruct k; simpl; lia.
  - done.
  - intros Hr. apply (ad_none _ _ _ _ _ Ha); [by apply I9|]. destruct k; simpl in Hr; try lia. by left.
  - intros Hr. rewrite (gr_exports _ _ _ _ _ _ _ G). by apply I10.
  - done.
  - intros Hr. rewrite (gr_elements _ _ _ _ _ _ _ G). by apply I12.
  - intros _. destruct (I13 Hlt) as [Hc Hf]. split; [done|]. rewrite (gr_functions _ _ _ _ _ _ _ G). apply Forall_app. split; [done|].
    eapply Forall_impl; [exact F1|]. by intros f [_ ?].
  - intros Hr. rewrite (gr_data _ _ _ _ _ _ _ G). by apply I14.
  - intros i Hb. exfalso. by apply (no_bodies _ _ _ i Hi Hlt).
Qed.

Lemma inv_declare k n x : inv (declaring k) (some k n) x -> declared (l_summary x) k = 0 -> 0 <= n ->
  inv (declaring k) none (with_summary (set_declared k n (l_summary x)) x).
Proof.
  intros [I1 I2 I3 I4 I5 I6 I7 I8 I9 I10 I11 I12 I13 I14 I15] Hd Hn. split; simpl; try done.
  - destruct I1. by split.
  - intros k'. rewrite I2. unfold assign, some, none. destruct (decide (k' = k)) as [->|]; lia.
  - intros k'. destruct (I3 k') as (? & ? & _). unfold assign, none. destruct (decide (k' = k)); lia.
  - intros k' Hk. unfold assign. destruct (decide (k' = k)) as [->|]; [lia|by apply I8].
Qed.

Lemma lend_inv x u y : lend x = (inr u, y) -> exists r, y = with_reader r x.
Proof. unfold lend. intros E. ld_inv. by eexists. Qed.

Lemma declare_section k one rank x y : (forall i x y, one i x = (inr tt, y) -> item_read k x y) ->
  (count ← lread (decode (turbowasm_reader_uleb32 buf)); _ ← lrepeat (Z.to_nat count) 0 one; _ ← lend;
   lsummary (set_declared k count)) x = (inr tt, y) ->
  inv rank none x -> rank < declaring k -> inv (declaring k) none y.
Proof.
  intros Hone E Hi Hr. ld_inv. rename select (lend _ = _) into El. apply lend_inv in El as [r' ->].
  assert (Hd : declared (l_summary x) k = 0) by (by apply (in_declared _ _ _ Hi)).
  rename select (decode _ _ = _) into Ec. pose proof (decode_uleb32 _ _ _ _ Ec) as Hn.
  rename select (lrepeat _ _ _ _ = _) into Er.
  apply (lrepeat_ind (fun i z => inv (declaring k) (some k i) z /\ l_summary z = l_summary x)) in Er as [Hi' Hs'].
  - rewrite Z.add_0_l, Z2Nat.id in Hi' by lia. apply (inv_declare k a (with_reader r' z0)); [by apply inv_reader| |lia]. simpl. by rewrite Hs'.
  - intros i z z' Hi0 [Hz Hzs] Ez. apply Hone in Ez. split; [|by rewrite (ir_summary _ _ _ Ez)].
    eapply inv_extra; [|eapply inv_item; [exact Hz|exact Ez]]. intros k'. unfold some. destruct (decide (k' = k)); lia.
  - done.
  - split; [|done]. apply inv_reader. eapply inv_raise; [|eapply inv_extra; [|exact Hi]]; [lia|].
    intros k'. unfold none, some. by destruct (decide (k' = k)).
Qed.

(** ** Types and imports *)

Lemma empty_space c k : space c k = 0 ->
  match k with
  | EXTERN_FUNCTION => items (functions c) = [] | EXTERN_TABLE => items (tables c) = []
  | EXTERN_MEMORY => items (memories c) = [] | EXTERN_GLOBAL => items (globals c) = []
  | EXTERN_TAG => items (tags c) = []
  end.
Proof. destruct k; unfold space, count; destruct (items _); simpl; lia || done. Qed.

Lemma types_section rank x y : validate_types buf calloc_ok x = (inr tt, y) -> inv rank none x -> rank < 1 -> inv 1 none y.
Proof.
  intros E Hi Hr. pose proof Hi as [I1 I2 I3 I4 I5 I6 I7 I8 I9 I10 I11 I12 I13 I14 I15].
  destruct (I6 Hr) as [Hh Ht]. unfold validate_types in E. rewrite Hh, Ht in E.
  destruct (turbowasm_validate_composite_types _ _ _ _ _) as [[[[st H] c] n] r] eqn:Et. case_bool_decide as Hst; [|discriminate].
  injection E as <-. subst st. apply type_section_spec in Et as (T1 & _ & _ & T2 & -> & T3 & T4).
  assert (Hsp : forall k, space (l_context x) k = 0).
  { intros k. rewrite I2, (I7 ltac:(lia)), (I8 k ltac:(destruct k; simpl; lia)). done. }
  split; simpl; try done; try lia.
  - split; simpl; try done.
    + by rewrite (empty_space _ EXTERN_FUNCTION (Hsp _)).
    + by rewrite (empty_space _ EXTERN_TABLE (Hsp _)).
    + by rewrite (empty_space _ EXTERN_MEMORY (Hsp _)).
    + by rewrite (empty_space _ EXTERN_GLOBAL (Hsp _)).
    + by rewrite (empty_space _ EXTERN_TAG (Hsp _)).
    + by rewrite I10 by lia.
    + rewrite I10 by lia. constructor.
    + rewrite I11 by lia. intros i Hs. done.
    + by rewrite I12 by lia.
    + by rewrite I14 by lia.
    + apply (mo_refs _ _ _ _ I1).
  - intros _. apply I7. lia.
  - intros k Hk. apply I8. lia.
  - intros _. apply I9. lia.
  - intros _. apply I10. lia.
  - intros _. apply I11. lia.
  - intros _. apply I12. lia.
  - intros _. apply I13. lia.
  - intros _. apply I14. lia.
Qed.

Lemma inv_import x y : inv 2 none x -> import_read x y -> inv 2 none y.
Proof.
  intros Hi [Hh (k & Ha & Hs)]. pose proof Hi as [I1 I2 I3 I4 I5 I6 I7 I8 I9 I10 I11 I12 I13 I14 I15].
  destruct (ad_growth _ _ _ _ _ Ha) as (fs & ts & ms & gs & tgs & G & F1 & _).
  assert (Hd : forall k, declared (l_summary x) k = 0) by (intros k'; apply I8; destruct k'; simpl; lia).
  pose proof (ad_fits _ _ _ _ _ Ha I4) as Hfit.
  assert (Hup : u32 (imported (l_summary x) k + 1) = imported (l_summary x) k + 1).
  { apply wrap_id. destruct (I3 k) as (? & _). pose proof (Hfit k) as Hk. rewrite (ad_space _ _ _ _ _ Ha), I2, Hd in Hk.
    unfold none in Hk. rewrite decide_True in Hk by done. unfold UINT32_MAX, is_uint in *. lia. }
  rewrite Hup in Hs. split; rewrite ?Hh, ?Hs; simpl; try done; try lia.
  - eapply module_ok_adds; [exact I1|exact Ha|left; apply I9; lia|done|done].
  - intros k'. rewrite (ad_space _ _ _ _ _ Ha), I2. unfold assign. destruct (decide (k' = k)) as [->|]; lia.
  - intros k'. destruct (I3 k') as (? & ? & ?). destruct (I3 k) as (? & _). unfold assign. destruct (decide (k' = k)); lia.
  - intros i f Hf. rewrite (gr_functions _ _ _ _ _ _ _ G) in Hf. pose proof (I2 EXTERN_FUNCTION) as Hsp. rewrite Hd in Hsp.
    unfold none, space, count in Hsp. pose proof (ad_space _ _ _ _ _ Ha EXTERN_FUNCTION) as Hnew.
    rewrite (growth_space _ _ _ _ _ _ _ EXTERN_FUNCTION G) in Hnew. apply lookup_app_Some in Hf as Hc.
    assert (Hb : function_imported f = true).
    { destruct Hc as [Hf'|[_ Hf']].
      - rewrite (I5 _ _ Hf'). apply bool_decide_eq_true_2. apply lookup_lt_Some in Hf'. lia.
      - apply list_elem_of_lookup_2 in Hf'. rewrite Forall_forall in F1. apply (F1 _ Hf'). }
    rewrite Hb. symmetry. apply bool_decide_eq_true_2. apply lookup_lt_Some in Hf. rewrite length_app in Hf. unfold assign.
    destruct (decide (EXTERN_FUNCTION = k)) as [<-|]; lia.
  - intros _. apply (ad_none _ _ _ _ _ Ha); [apply I9; lia|by right].
  - intros _. rewrite (gr_exports _ _ _ _ _ _ _ G). apply I10. lia.
  - intros _. rewrite (gr_elements _ _ _ _ _ _ _ G). apply I12. lia.
  - intros _. destruct (I13 ltac:(lia)) as [Hc Hf]. split; [done|]. rewrite (gr_functions _ _ _ _ _ _ _ G). apply Forall_app. split; [done|].
    eapply Forall_impl; [exact F1|]. by intros f [_ ?].
  - intros _. rewrite (gr_data _ _ _ _ _ _ _ G). apply I14. lia.
Qed.

Lemma import_section rank x y : turbowasm_validate_import_section buf realloc_ok x = (inr tt, y) -> inv rank none x -> rank < 2 -> inv 2 none y.
Proof.
  intros E Hi Hr. unfold turbowasm_validate_import_section in E. ld_inv. apply lend_inv in E as [r' ->]. apply inv_reader. rename select (lrepeat _ _ _ _ = _) into Er. apply (lrepeat_ind (fun _ z => inv 2 none z)) in Er; [done| |done|].
  - intros i z z' _ Hz Ez. eapply inv_import; [exact Hz|by eapply import_one_read].
  - apply inv_reader. eapply inv_raise; [|exact Hi]. lia.
Qed.

(** ** Exports, start function, segments *)

Lemma validated_same H c c' i : validated H c i -> items (functions c') !! Z.to_nat i = items (functions c) !! Z.to_nat i ->
  length (items (functions c')) = length (items (functions c)) ->
  types_base (types c') = types_base (types c) -> type_count (types c') = type_count (types c) ->
  items (memories c') = items (memories c) -> validated H c' i.
Proof.
  intros (ctx & body & F & t & f & locals & sem & r & s0 & s1 & s2 & Hr & Hc & Hf & Hb & Hn & Hm & Hk) E0 E1 E2 E3 E4.
  exists ctx, body, F, t, f, locals, sem, r, s0, s1, s2. unfold count in *. by rewrite E0, E1, E2, E3, E4.
Qed.

Lemma inv_quiet rank e x y : 4 <= rank -> quiet x y -> inv rank e x -> inv rank e y.
Proof.
  intros Hr Q [I1 I2 I3 I4 I5 I6 I7 I8 I9 I10 I11 I12 I13 I14 I15]. pose proof (growth_quiet _ _ Q) as G.
  assert (Hsp : forall k, space (l_context y) k = space (l_context x) k) by (intros k; rewrite (growth_space _ _ _ _ _ _ _ k G); destruct k; simpl; lia).
  destruct (qu_context _ _ Q) as (st & refs & c & Hc & ->).
  split; rewrite ?(qu_heap _ _ Q), ?(qu_summary _ _ Q); try lia.
  - eapply module_ok_grow; [exact I1|exact G|by constructor..| |done|done]. by apply (qu_refs _ _ Q), (mo_refs _ _ _ _ I1).
  - intros k. by rewrite Hsp.
  - done.
  - intros k. rewrite Hsp. apply I4.
  - rewrite Hc. exact I5.
  - done.
  - rewrite Hc. exact I10.
  - done.
  - rewrite Hc. exact I12.
  - rewrite Hc. exact I13.
  - rewrite Hc. exact I14.
  - intros i Hi. eapply validated_same; [by apply I15|by rewrite Hc..].
Qed.

(** A step of a later section that only appends to its own list. *)
Lemma inv_export x e v : inv 8 none x -> append realloc_ok sizeof_export (exports (l_context x)) e = Some v ->
  export_ok (l_context x) e -> export_key buf e ∉ map (export_key buf) (items (exports (l_context x))) ->
  inv 8 none (with_context (set_exports v (l_context x)) x).
Proof.
  intros [I1 I2 I3 I4 I5 I6 I7 I8 I9 I10 I11 I12 I13 I14 I15] [Ev _]%append_inv He Hn. split; try done; try lia.
  destruct I1. split; simpl; try done; rewrite Ev; [by apply Forall_app; split; [|constructor]|].
  rewrite map_app. apply NoDup_app. split; [done|]. split; [|apply NoDup_singleton]. intros k Hk ->%list_elem_of_singleton. done.
Qed.

Lemma export_one_inv i x y : export_one buf realloc_ok calloc_ok i x = (inr tt, y) -> inv 8 none x -> inv 8 none y.
Proof.
  unfold export_one. intros E Hi. ld_inv. destruct (external_kind_of _) as [k|]; [|discriminate E]. ld_inv. simpl in *.
  rename select (turbowasm_validation_context_append_export _ _ _ = _) into Ea. unfold turbowasm_validation_context_append_export in Ea.
  destruct (append _ _ _ _) as [v|] eqn:Ev; [|done]. injection Ea as <-.
  rename select (decode (turbowasm_reader_uleb32 _) _ = _) into Eu. apply decode_uleb32 in Eu.
  rename select (negb _ = false) into Hk. apply negb_false_iff, Z.ltb_lt in Hk.
  rename select (existsb _ _ = false) into Hx.
  assert (H1 : inv 8 none (with_context (set_exports v (l_context x)) x)).
  { eapply inv_export; [exact Hi|exact Ev| |].
    - split; simpl; [lia|]. rewrite (in_space _ _ _ Hi). unfold none. lia.
    - intros (e' & Hk' & He')%list_elem_of_fmap. assert (Ht : existsb (fun e => same_name buf (export_name e) a) (items (exports (l_context x))) = true).
      { apply existsb_exists. exists e'. split; [by apply list_elem_of_In|]. unfold export_key in Hk'. simpl in Hk'. injection Hk' as Hk1 Hk2.
        unfold same_name. by rewrite Hk1, Z.eqb_refl, Hk2, bool_decide_eq_true_2. }
      congruence. }
  case_bool_decide.
  - apply lappend_inv in E as (c & Ec & ->). eapply inv_quiet; [lia| |exact (inv_reader _ _ r _ H1)].
    eapply quiet_declare; [|exact Ec]. lia.
  - ld_inv. exact (inv_reader _ _ r _ H1).
Qed.

(** Sections whose items keep the invariant at their own rank. *)
Lemma repeat_section R one (rank' : Z) f x y : (forall i x y, one i x = (inr tt, y) -> inv R none x -> inv R none y) ->
  (forall n z, inv R none z -> inv R none (with_summary (f n (l_summary z)) z)) ->
  (count ← lread (decode (turbowasm_reader_uleb32 buf)); _ ← lrepeat (Z.to_nat count) 0 one; _ ← lend; lsummary (f count)) x = (inr tt, y) ->
  inv rank' none x -> rank' <= R -> inv R none y.
Proof.
  intros Hone Hf E Hi Hr. ld_inv. rename select (lend _ = _) into El. apply lend_inv in El as [r' ->].
  apply Hf, inv_reader. rename select (lrepeat _ _ _ _ = _) into Er.
  apply (lrepeat_ind (fun _ z => inv R none z)) in Er; [done| |done|apply inv_reader; by eapply inv_raise].
  intros i z z' _ Hz Ez. by eapply Hone.
Qed.

Lemma export_section rank x y : turbowasm_validate_export_section buf realloc_ok calloc_ok x = (inr tt, y) ->
  inv rank none x -> rank < 8 -> inv 8 none y.
Proof.
  intros E Hi Hr. eapply (repeat_section 8 (export_one buf realloc_ok calloc_ok)); [apply export_one_inv| |exact E|exact Hi|lia].
  intros n z []. split; try done. destruct in_ok0. by split.
Qed.

Lemma start_section rank x y : turbowasm_validate_start_section buf x = (inr tt, y) -> inv rank none x -> rank < 9 -> inv 9 none y.
Proof.
  unfold turbowasm_validate_start_section. intros E Hi Hr. ld_inv. rename select (lend _ = _) into El. apply lend_inv in El as [r' ->].
  destruct (turbowasm_validation_context_function_type _ _ _) as [t|] eqn:Et; [|discriminate E]. ld_inv. simpl in *.
  apply (inv_raise rank 9) in Hi as [I1 I2 I3 I4 I5 I6 I7 I8 I9 I10 I11 I12 I13 I14 I15]; [|lia]. split; try done; simpl; try lia.
  destruct I1. split; try done. simpl. intros i [= <-]. exists t. split; [done|].
  rename select (negb _ || negb _ = false) into Hn. apply orb_false_iff in Hn as [Hp Hq].
  apply negb_false_iff, Z.eqb_eq in Hp, Hq. unfold param_count, result_count in *. destruct (params t), (results t); simpl in *; try lia. done.
Qed.

Lemma data_count_section rank x y : turbowasm_validate_data_count_section buf x = (inr tt, y) -> inv rank none x -> rank < 11 -> inv 11 none y.
Proof.
  unfold turbowasm_validate_data_count_section. intros E Hi Hr. ld_inv. rename select (lend _ = _) into El. apply lend_inv in El as [r' ->].
  apply (inv_raise rank 11) in Hi as [I1 I2 I3 I4 I5 I6 I7 I8 I9 I10 I11 I12 I13 I14 I15]; [|lia]. split; try done.
  destruct I1. by split.
Qed.

(** A quiet reader, then an element segment. *)
Lemma inv_element x e v : inv 10 none x -> append realloc_ok sizeof_element (element_segments (l_context x)) e = Some v ->
  element_ok (l_heap x) (l_context x) e -> inv 10 none (with_context (set_element_segments v (l_context x)) x).
Proof.
  intros [I1 I2 I3 I4 I5 I6 I7 I8 I9 I10 I11 I12 I13 I14 I15] [Ev _]%append_inv He. split; try done; try lia.
  destruct I1. split; simpl; try done. rewrite Ev. apply Forall_app. split; [done|by constructor].
Qed.

Lemma tables_quiet x y : quiet x y -> items (tables (l_context y)) = items (tables (l_context x)).
Proof. intros Q. by rewrite (gr_tables _ _ _ _ _ _ _ (growth_quiet _ _ Q)), app_nil_r. Qed.

Lemma element_one_inv i x y : element_one buf realloc_ok calloc_ok i x = (inr tt, y) -> inv 10 none x -> inv 10 none y.
Proof.
  unfold element_one. intros E Hi. ld_inv. simpl in *.
  rename select (turbowasm_validation_context_append_element_segment _ _ _ = _) into Ea.
  unfold turbowasm_validation_context_append_element_segment in Ea. destruct (append _ _ _ _) as [v|] eqn:Ev; [|done]. injection Ea as <-.
  assert (Q1 : quiet (with_reader r x) z1 /\ 0 <= a1).
  { destruct (_ || _) in E2; ld_inv; [|by split; [apply quiet_refl|]]. split; [apply quiet_reader|by eapply decode_uleb32]. }
  assert (Q2 : quiet z1 z2) by (destruct ((a =? 0) || _ || _ || _) in E3; [by eapply calm_element_offset|ld_inv; apply quiet_refl]).
  assert (Q3 : quiet z2 z3).
  { destruct (_ || _ || _) in E4; [by eapply calm_element_kind|]. destruct (_ || _ || _) in E4; [by eapply calm_element_reftype|].
    destruct (a =? 4); ld_inv; apply quiet_refl. }
  assert (Q4 : z4 = z3 /\ ((a =? 0) || (a =? 2) || (a =? 4) || (a =? 6) = true -> exists table,
    items (tables (l_context z3)) !! Z.to_nat a1 = Some table /\
    turbowasm_validation_value_type_matches (l_heap z3) a3 (table_semantic table) = true)).
  { destruct ((a =? 0) || _ || _ || _); [|ld_inv; by split]. apply element_table_inv in E5 as [-> Ht]. by split. }
  destruct Q4 as [-> Ht]. assert (Q5 : quiet z3 z5 /\ Forall (item_ok (l_context z3)) a5).
  { destruct (a >=? 4); (eapply element_vector_ok; [|exact E6]); [apply element_expression_reads|apply element_function_reads]. }
  destruct Q1 as [Q1 Ha1], Q5 as [Q5 Hit]. pose proof (quiet_trans _ _ _ (quiet_reader r x) (quiet_trans _ _ _ Q1 (quiet_trans _ _ _ Q2 Q3))) as Q.
  eapply inv_element; [|exact Ev|].
  - eapply inv_quiet; [|exact Q5|eapply inv_quiet; [|exact Q|exact Hi]]; lia.
  - split; [|split; [done|]]; simpl.
    + intros Hm. destruct ((a =? 0) || _ || _ || _); [|by destruct (_ || _) in Hm]. destruct (Ht eq_refl) as (table & H1 & H2).
      exists table. rewrite (tables_quiet _ _ Q5), (qu_heap _ _ Q5). done.
    + eapply Forall_impl; [exact Hit|]. intros it. by apply (item_ok_quiet _ _ _ Q5).
Qed.

Lemma element_section rank x y : turbowasm_validate_element_section buf realloc_ok calloc_ok x = (inr tt, y) ->
  inv rank none x -> rank < 10 -> inv 10 none y.
Proof.
  intros E Hi Hr. eapply (repeat_section 10 (element_one buf realloc_ok calloc_ok)); [apply element_one_inv| |exact E|exact Hi|lia].
  intros n z []. split; try done. destruct in_ok0. by split.
Qed.

Lemma inv_data x d v : inv 13 none x -> append realloc_ok sizeof_data (data_segments (l_context x)) d = Some v ->
  data_ok (l_context x) d -> inv 13 none (with_context (set_data_segments v (l_context x)) x).
Proof.
  intros [I1 I2 I3 I4 I5 I6 I7 I8 I9 I10 I11 I12 I13 I14 I15] [Ev _]%append_inv He. split; try done; try lia.
  destruct I1. split; simpl; try done. rewrite Ev. apply Forall_app. split; [done|by constructor].
Qed.

Lemma data_mode_ok mode x m i o y : data_mode_of buf realloc_ok calloc_ok mode x = (inr (m, i, o), y) ->
  quiet x y /\ (m = SEGMENT_ACTIVE -> 0 <= i < count (memories (l_context x))).
Proof.
  unfold data_mode_of. cbn [switch]. intros E.
  destruct (mode =? 0); [|destruct (mode =? 1); [|destruct (mode =? 2); [|discriminate E]]]; ld_inv; simplify_eq;
    repeat match goal with G : negb _ = false |- _ => apply negb_false_iff, Z.ltb_lt in G end; simpl in *.
  - split; [by eapply calm_memory_offset|]. intros _. lia.
  - by split; [apply quiet_refl|].
  - split; [eapply quiet_trans; [apply quiet_reader|by eapply calm_memory_offset]|]. intros _.
    rename select (decode _ _ = _) into Eu. apply decode_uleb32 in Eu. lia.
Qed.

Lemma data_one_inv i x y : data_one buf realloc_ok calloc_ok i x = (inr tt, y) -> inv 13 none x -> inv 13 none y.
Proof.
  unfold data_one. intros E Hi. ld_inv. destruct a0 as [[m idx] o]. ld_inv. simpl in *.
  rename select (data_mode_of _ _ _ _ _ = _) into Em. apply data_mode_ok in Em as [Q Hm].
  rename select (turbowasm_validation_context_append_data_segment _ _ _ = _) into Ea.
  unfold turbowasm_validation_context_append_data_segment in Ea. destruct (append _ _ _ _) as [v|] eqn:Ev; [|done]. injection Ea as <-.
  eapply (quiet_trans x) in Q; [|apply quiet_reader].
  assert (Hz : inv 13 none z0) by (eapply inv_quiet; [|exact Q|exact Hi]; lia).
  eapply (inv_data (with_reader r0 z0)); [by apply inv_reader|exact Ev|]. intros Ha. simpl in *. specialize (Hm Ha).
  unfold count in *. rewrite (gr_memories _ _ _ _ _ _ _ (growth_quiet _ _ Q)), app_nil_r. done.
Qed.

Lemma data_section rank x y : turbowasm_validate_data_section buf realloc_ok calloc_ok x = (inr tt, y) ->
  inv rank none x -> rank < 13 -> inv 13 none y.
Proof.
  intros E Hi Hr. unfold turbowasm_validate_data_section in E. ld_inv. rename select (lend _ = _) into El. apply lend_inv in El as [r' ->].
  rename select (lrepeat _ _ _ _ = _) into Er. apply (lrepeat_ind (fun _ z => inv 13 none z)) in Er.
  - destruct Er. split; try done. destruct in_ok0. by split.
  - intros j z z' _ Hz Ez. by eapply data_one_inv.
  - done.
  - apply inv_reader. eapply inv_raise; [|exact Hi]. lia.
Qed.

(** ** Code *)

(** [n] bodies have been read. *)
Definition reading (s : turbowasm_module_summary) (n : Z) (x : loading) : Prop :=
  inv 12 none x /\ l_summary x = s /\
  (forall i, imported s EXTERN_FUNCTION <= i < imported s EXTERN_FUNCTION + n -> validated (l_heap x) (l_context x) i) /\
  (forall i f, imported s EXTERN_FUNCTION + n <= Z.of_nat i -> items (functions (l_context x)) !! i = Some f -> controls_of f = []).

(** The function [F] in the place [i], with the same type. *)
Lemma module_ok_body H c s i f F store : module_ok buf H c s -> items (functions c) !! i = Some f ->
  function_type_index F = function_type_index f ->
  module_ok buf H (mk_context (mk_types (types_base (types c)) (type_count (types c)) store) (imports c) (exports c)
     (mk_vec (<[i := F]> (items (functions c))) (capacity (functions c)))
     (globals c) (tables c) (memories c) (tags c) (data_segments c) (element_segments c)
     (declared_refs c) (has_data_count c) (Context.data_count c)) s.
Proof.
  intros [] Hf HF. assert (Hl : length (<[i := F]> (items (functions c))) = length (items (functions c))) by apply length_insert.
  split; simpl; try done.
  - apply Forall_insert; [done|]. rewrite HF. rewrite Forall_lookup in mo_functions0. by apply (mo_functions0 _ _ Hf).
  - eapply Forall_impl; [done|]. intros e. unfold export_ok, space, count. simpl. by rewrite Hl.
  - intros j Hj. destruct (mo_start0 j Hj) as (t & Ht & Hp). exists t. split; [|done]. revert Ht.
    unfold turbowasm_validation_context_function_type, at_index, count. simpl. rewrite Hl. destruct (_ >=? _); [done|].
    destruct (decide (i = Z.to_nat j)) as [->|]; [|by rewrite list_lookup_insert_ne].
    rewrite list_lookup_insert_eq by (by eapply lookup_lt_Some). rewrite Hf. simpl. rewrite HF. done.
  - eapply Forall_impl; [done|]. intros e (He1 & He2 & He3). split; [done|]. split; [done|]. eapply Forall_impl; [done|].
    intros [j|]; [|done]. unfold item_ok, count. simpl. by rewrite Hl.
  - unfold refs_fit in *. simpl. destruct (declared_refs c); [|done]. by rewrite Hl.
Qed.

Lemma code_body_inv s n body x y : code_body buf realloc_ok malloc_ok n body x = (inr tt, y) ->
  0 <= n < declared s EXTERN_FUNCTION -> reading s n x -> code_count s = 0 -> reading s (n + 1) y.
Proof.
  unfold code_body. intros E Hn (Hi & <- & Hv & Hc) Hcc. set (s := l_summary x) in *.
  pose proof Hi as [I1 I2 I3 I4 I5 I6 I7 I8 I9 I10 I11 I12 I13 I14 I15].
  pose proof (I2 EXTERN_FUNCTION) as Hsp. destruct (I3 EXTERN_FUNCTION) as (Hi0 & _ & _). pose proof (I4 EXTERN_FUNCTION) as Hfit.
  fold s in Hsp, Hi0. unfold none, space, count in Hsp. unfold space, count in Hfit.
  replace (u32 (imported s EXTERN_FUNCTION + n)) with (imported s EXTERN_FUNCTION + n) in E
    by (symmetry; apply wrap_id; unfold UINT32_MAX, is_uint in *; lia).
  set (idx := imported s EXTERN_FUNCTION + n) in *.
  destruct (lookup_lt_is_Some_2 (items (functions (l_context x))) (Z.to_nat idx) ltac:(lia)) as [f Hf].
  unfold Validator.Validator.turbowasm_validate_function_body in E.
  destruct (Validator.Validator.validate_body _ _ _ _ _ _ _) as [[[st F] store] r] eqn:Ev.
  destruct st; try discriminate E. apply lcheck_inv in E as [_ ->].
  destruct (validate_body_run _ _ _ _ _ _ _ _ _ _ Ev) as (t & f' & locals & sem & r' & s0 & s1 & s2 & Hr).
  assert (f' = f) as ->.
  { pose proof (ar_function _ _ _ _ _ _ _ _ _ _ _ _ _ _ _ _ Hr) as Hf'. unfold turbowasm_validation_context_function, at_index in Hf'.
    destruct (_ >=? _); [done|congruence]. }
  assert (HF : function_type_index F = function_type_index f /\ function_imported F = function_imported f)
    by (by rewrite (ar_result _ _ _ _ _ _ _ _ _ _ _ _ _ _ _ _ Hr)).
  assert (Hl : length (<[Z.to_nat idx := F]> (items (functions (l_context x)))) = length (items (functions (l_context x)))) by apply length_insert.
  assert (Hnew : forall j G, <[Z.to_nat idx := F]> (items (functions (l_context x))) !! j = Some G ->
    (j = Z.to_nat idx /\ G = F) \/ (j <> Z.to_nat idx /\ items (functions (l_context x)) !! j = Some G)).
  { intros j G. destruct (decide (j = Z.to_nat idx)) as [->|]; [|rewrite list_lookup_insert_ne by done; by right].
    rewrite list_lookup_insert_eq by (by eapply lookup_lt_Some). intros [= <-]. by left. }
  set (y := mk_loading _ _ _ _). assert (Hother : forall j, 0 <= j -> j <> idx -> validated (l_heap x) (l_context x) j -> validated (l_heap y) (l_context y) j).
  { intros j Hj Hne Hvj. eapply validated_same; [exact Hvj|simpl; apply list_lookup_insert_ne; lia|done..]. }
  split; [|split; [done|split]].
  - split; simpl; try done; try lia.
    + eapply module_ok_body; [exact I1|exact Hf|apply HF].
    + intros k. rewrite <- I2. destruct k; unfold space, count; simpl; by rewrite ?Hl.
    + intros k. specialize (I4 k). destruct k; unfold space, count in *; simpl; by rewrite ?Hl.
    + intros j G [[-> ->]|[_ HG]]%Hnew; [|by apply I5]. destruct HF as [_ ->]. by apply I5.
  - intros j Hj. destruct (decide (j = idx)) as [->|Hne]; [|apply Hother; [lia|done|apply Hv; lia]].
    exists (l_context x), body, F, t, f, locals, sem, r', s0, s1, s2. split; [done|]. split; [by eapply Hc; [|exact Hf]; lia|].
    simpl. split; [apply list_lookup_insert_eq; lia|]. unfold count. simpl. by rewrite Hl.
  - intros j G Hj [[-> ->]|[_ HG]]%Hnew; [lia|]. by eapply Hc; [|exact HG]; lia.
Qed.

Lemma code_section rank x y : turbowasm_validate_code_section buf realloc_ok malloc_ok x = (inr tt, y) ->
  inv rank none x -> rank < 12 -> inv 12 none y.
Proof.
  intros E Hi Hr. unfold turbowasm_validate_code_section in E. ld_inv. rename select (lend _ = _) into El. apply lend_inv in El as [r' ->].
  destruct (in_code _ _ _ Hi Hr) as [Hcc Hctl]. rename select (negb _ = false) into Hn. apply negb_false_iff, Z.eqb_eq in Hn. simpl in Hn.
  destruct (in_nonneg _ _ _ Hi EXTERN_FUNCTION) as (_ & Hd & _).
  rename select (lrepeat _ _ _ _ = _) into Er.
  apply (lrepeat_below (reading (l_summary x)) _ (declared (l_summary x) EXTERN_FUNCTION)) in Er as (Hi' & Hs & Hv & _).
  - rewrite Z.add_0_l, Z2Nat.id in Hv by lia. destruct Hi' as [I1 I2 I3 I4 I5 I6 I7 I8 I9 I10 I11 I12 I13 I14 I15].
    split; simpl; try done; try lia; [by destruct I1|]. by rewrite Hs.
  - intros i z z' Hz HI Ez. unfold code_one in Ez. ld_inv. eapply code_body_inv; [exact Ez|done| |done].
    destruct HI as (J1 & J2 & J3 & J4). split; [by apply inv_reader|done].
  - done.
  - lia.
  - split; [apply inv_reader; eapply inv_raise; [|exact Hi]; lia|]. split; [done|]. split; [lia|].
    intros i f _ Hf. rewrite Forall_lookup in Hctl. by eapply Hctl.
Qed.

(** ** From section to section *)

Lemma payload_inv id rank x y : turbowasm_validate_section_payload buf realloc_ok calloc_ok malloc_ok id x = (inr tt, y) ->
  inv rank none x -> rank < turbowasm_section_rank id -> inv (turbowasm_section_rank id) none y.
Proof.
  unfold turbowasm_validate_section_payload, turbowasm_section_rank. cbn [switch]. intros E Hi.
  destruct (id =? 1); [by eapply types_section|]. destruct (id =? 2); [by eapply import_section|].
  destruct (id =? 3); [by eapply (declare_section EXTERN_FUNCTION); [apply function_one_read|exact E|]|].
  destruct (id =? 4); [by eapply (declare_section EXTERN_TABLE); [apply table_one_read|exact E|]|].
  destruct (id =? 5); [by eapply (declare_section EXTERN_MEMORY); [apply memory_one_read|exact E|]|].
  destruct (id =? 13); [by eapply (declare_section EXTERN_TAG); [apply tag_one_read|exact E|]|].
  destruct (id =? 6); [by eapply (declare_section EXTERN_GLOBAL); [apply global_one_read|exact E|]|].
  destruct (id =? 7); [by eapply export_section|]. destruct (id =? 8); [by eapply start_section|].
  destruct (id =? 9); [by eapply element_section|]. destruct (id =? 12); [by eapply data_count_section|].
  destruct (id =? 10); [by eapply code_section|]. destruct (id =? 11); [by eapply data_section|]. discriminate E.
Qed.

(** The mask of seen sections holds the last one. *)
Definition marked (seen last_rank : Z) : Prop :=
  0 <= last_rank /\ (last_rank <> 0 -> exists id, 0 <= id /\ turbowasm_section_rank id = last_rank /\ Z.testbit seen id = true).

Lemma rank_inj id id' : turbowasm_section_rank id = turbowasm_section_rank id' -> turbowasm_section_rank id <> 0 -> id = id'.
Proof.
  unfold turbowasm_section_rank. cbn [switch].
  repeat match goal with |- context [?a =? ?b] => destruct (Z.eqb_spec a b); [subst|] end; done || congruence.
Qed.

Lemma mask_bit seen id : 0 <= id -> negb (seen .& (1 ≪ id) =? 0) = false <-> Z.testbit seen id = false.
Proof.
  intros Hid. rewrite negb_false_iff, Z.eqb_eq. split.
  - intros E. assert (Ht : Z.testbit (seen .& (1 ≪ id)) id = false) by (by rewrite E, Z.bits_0).
    rewrite Z.land_spec, Z.shiftl_spec, Z.sub_diag in Ht by lia. by rewrite andb_true_r in Ht.
  - intros E. apply Z.bits_inj'. intros k Hk. rewrite Z.bits_0, Z.land_spec, Z.shiftl_spec by lia.
    destruct (Z.eq_dec k id) as [->|]; [by rewrite E|]. destruct (Z.lt_ge_cases k id).
    + rewrite (Z.testbit_neg_r 1) by lia. apply andb_false_r.
    + replace (Z.testbit 1 (k - id)) with false; [apply andb_false_r|]. symmetry. apply (Z.bits_above_log2 1); simpl; lia.
Qed.

Lemma marked_next seen last_rank id : marked seen last_rank -> 0 <= id -> turbowasm_section_rank id <> 0 ->
  last_rank <= turbowasm_section_rank id -> Z.testbit seen id = false ->
  last_rank < turbowasm_section_rank id /\ marked (seen .| (1 ≪ id)) (turbowasm_section_rank id).
Proof.
  intros [Hl Hm] Hid Hr Hle Hb. split.
  - destruct (Z.eq_dec last_rank (turbowasm_section_rank id)) as [->|]; [|lia].
    destruct (Hm Hr) as (id' & _ & E & Hb'). apply rank_inj in E as ->; [congruence|congruence].
  - split; [lia|]. intros _. exists id. split; [done|]. split; [done|].
    rewrite Z.lor_spec, Z.shiftl_spec, Z.sub_diag by lia. apply orb_true_r.
Qed.

(** How the bytes of a reader divide into sections: their ids and their readers. *)
Inductive layout : turbowasm_reader -> list (Z * turbowasm_reader) -> Prop :=
  | layout_end r : turbowasm_reader_remaining r = 0 -> layout r []
  | layout_section r id r1 n r2 section r3 l :
      turbowasm_reader_u8 buf r = (Some id, r1) -> turbowasm_reader_uleb32 buf r1 = (Some n, r2) ->
      turbowasm_reader_slice r2 n = (Some section, r3) -> layout r3 l -> layout r ((id, section) :: l).

(** The ranks of the sections that are not custom. *)
Definition ranks (l : list (Z * turbowasm_reader)) : list Z :=
  map turbowasm_section_rank (filter (fun id => id <> 0) (map fst l)).

Lemma in_section_inv {A} sec (m : ld A) x a y : in_section sec m x = (inr a, y) ->
  exists z, m (with_reader sec x) = (inr a, z) /\ y = with_reader (l_reader x) z.
Proof. unfold in_section. destruct (m _) as [[st|b] z] eqn:E; [discriminate|]. intros [= -> <-]. by exists z. Qed.

Lemma rank_nonzero id : turbowasm_section_rank id <> 0 -> 1 <= id.
Proof.
  unfold turbowasm_section_rank. cbn [switch].
  repeat match goal with |- context [?a =? ?b] => destruct (Z.eqb_spec a b); [lia|] end; done.
Qed.

Lemma section_one_inv seen last_rank x seen' rank y : section_one buf realloc_ok calloc_ok malloc_ok seen last_rank x = (inr (seen', rank), y) ->
  inv last_rank none x -> marked seen last_rank ->
  inv rank none y /\ marked seen' rank /\ exists id r1 n r2 section,
    turbowasm_reader_u8 buf (l_reader x) = (Some id, r1) /\ turbowasm_reader_uleb32 buf r1 = (Some n, r2) /\
    turbowasm_reader_slice r2 n = (Some section, l_reader y) /\
    ((id = 0 /\ rank = last_rank) \/ (id <> 0 /\ rank = turbowasm_section_rank id /\ last_rank < rank)).
Proof.
  unfold section_one. intros E Hi Hm. ld_inv. simpl in *.
  repeat match goal with G : decode _ _ = (inr _, _) |- _ => apply decode_inv in G end.
  destruct (Z.eqb_spec a 0) as [->|Hid].
  - ld_inv. rename select (in_section _ _ _ = _) into Es. apply in_section_inv in Es as (z' & Es & ->). ld_inv. simplify_eq.
    split; [|split; [done|]].
    + destruct Hi. split; try done. destruct in_ok0. by split.
    + exists 0, r1, a0, r0, a1. split; [done|]. split; [done|]. split; [done|]. by left.
  - ld_inv. simplify_eq. repeat match goal with G : (_ =? _) = false |- _ => apply Z.eqb_neq in G | G : (_ <? _) = false |- _ => apply Z.ltb_ge in G end.
    pose proof (rank_nonzero a ltac:(done)) as Ha. rename select (negb _ = false) into Hb. apply mask_bit in Hb; [|lia].
    destruct (marked_next seen last_rank a Hm ltac:(lia) G4 G3 Hb) as [Hlt Hm'].
    rename select (in_section _ _ _ = _) into Es. apply in_section_inv in Es as (z' & Es & ->). ld_inv.
    rename select (lend _ = _) into El. apply lend_inv in El as [r' ->].
    rename select (turbowasm_validate_section_payload _ _ _ _ _ _ = _) into Ep. apply (payload_inv a last_rank) in Ep; [|destruct Hi; split; try done; destruct in_ok0; by split|done].
    split; [by destruct Ep|]. split; [done|]. exists a, r1, a0, r0, a1. split; [done|]. split; [done|]. split; [done|]. by right.
Qed.

Lemma sections_loop_inv fuel : forall seen last_rank x y, sections_loop buf realloc_ok calloc_ok malloc_ok fuel seen last_rank x = (inr tt, y) ->
  inv last_rank none x -> marked seen last_rank ->
  (exists rank, inv rank none y) /\ exists l, layout (l_reader x) l /\ StronglySorted Z.lt (last_rank :: ranks l).
Proof.
  induction fuel as [|fuel IH]; intros seen last_rank x y E Hi Hm; cbn [sections_loop] in E; ld_inv;
    rename select (remaining _ = _) into Er; injection Er as <- <-; replace (with_reader (l_reader x) x) with x in * by (by destruct x);
    (destruct (Z.eqb_spec (turbowasm_reader_remaining (l_reader x)) 0) as [H0|];
     [ld_inv; split; [by eexists|]; exists []; split; [by constructor|by repeat constructor]|]); [discriminate E|].
  ld_inv. destruct a as [seen' rank]. rename select (section_one _ _ _ _ _ _ _ = _) into Es.
  destruct (section_one_inv _ _ _ _ _ _ Es Hi Hm) as (Hi' & Hm' & id & r1 & size & r2 & sec & E1 & E2 & E3 & Hr).
  destruct (IH _ _ _ _ E Hi' Hm') as [Hy (l & Hl & Hs)]. split; [done|]. exists ((id, sec) :: l). split; [by econstructor|].
  unfold ranks. cbn [map fst]. destruct Hr as [[-> ->]|(Hid & -> & Hlt)].
  - by rewrite filter_cons_False by tauto.
  - rewrite filter_cons_True by done. cbn [map]. constructor; [done|]. inversion Hs; subst. constructor; [done|].
    eapply Forall_impl; [done|]. intros q Hq. simpl in Hq. lia.
Qed.

(** ** The loops end *)

(** [ahead m]: when [m] returns, the reader has moved forward. *)
Definition ahead {A} (m : ld A) : Prop := forall x a y, m x = (inr a, y) -> moved (l_reader x) (l_reader y).

Lemma ahead_bind {A B} (m : ld A) (k : A -> ld B) : ahead m -> (forall a, ahead (k a)) -> ahead (m ≫= k).
Proof. intros Hm Hk x b y E. apply ld_bind_inv in E as (a & z & E1 & E2). eapply moved_trans; [by eapply Hm|by eapply Hk]. Qed.

Lemma ahead_ret {A} (a : A) : ahead (mret a).
Proof. intros x b y E. ld_inv. apply moved_refl. Qed.

Lemma ahead_fail {A} st : ahead (@lfail A st).
Proof. intros x a y E. discriminate. Qed.

Lemma ahead_check bad st : ahead (lcheck bad st).
Proof. unfold lcheck. destruct bad; [apply ahead_fail|apply ahead_ret]. Qed.

Lemma ahead_get : ahead lget.
Proof. intros x a y E. ld_inv. apply moved_refl. Qed.

Lemma ahead_append f : ahead (lappend f).
Proof. intros x a y E. ld_inv. apply moved_refl. Qed.

Lemma ahead_read {A} (p : parse A) : forward p -> ahead (lread p).
Proof. intros Hp x a y E. ld_inv. simpl. by eapply (fw_moved _ Hp). Qed.

Lemma ahead_switch {A} k (cases : list (Z * ld A)) d : Forall (fun c => ahead c.2) cases -> ahead d -> ahead (switch k cases d).
Proof. intros Hc Hd. induction Hc as [|[l b] cs Hb _ IH]; simpl; [done|]. by destruct (k =? l). Qed.

Local Ltac ahead_step :=
  match goal with
  | |- ahead (_ ≫= _) => apply ahead_bind; [|intros ?]
  | |- ahead (if ?b then _ else _) => destruct b
  | |- ahead (match ?o with Some _ => _ | None => _ end) => destruct o
  | |- ahead (lread _) => apply ahead_read; first [solve [eauto with forward] | apply forward_slice; lia]
  | |- _ => first [apply ahead_ret | apply ahead_fail | apply ahead_check | apply ahead_get | apply ahead_append]
  end.

Lemma ahead_push t s : ahead (turbowasm_const_type_stack_push realloc_ok t s).
Proof. unfold turbowasm_const_type_stack_push. repeat ahead_step. Qed.

Lemma ahead_pop c s : ahead (turbowasm_const_type_stack_pop c s).
Proof. unfold turbowasm_const_type_stack_pop, lreject. repeat ahead_step. Qed.

Lemma ahead_gc s : ahead (const_gc buf realloc_ok s).
Proof.
  intros x a y. unfold const_gc, Validator.Validator.turbowasm_validate_gc_constant.
  destruct (turbowasm_reader_uleb32 buf (l_reader x)) as [[op|] r]; [|done]. destruct (negb _); [done|]. cbv zeta.
  destruct (Validator.Validator.turbowasm_validate_gc _ _ _ _ _) as [[st|u] s'] eqn:E.
  - pose proof (st_strict _ (stays_gc buf realloc_ok _ _) _ _ _ E). by case_bool_decide.
  - intros [= <- <-]. apply (pl_reader _ _ (st_plain _ (stays_gc buf realloc_ok _ _) _ _ _ E)).
Qed.

Lemma ahead_instruction op s : ahead (const_instruction buf realloc_ok calloc_ok op s).
Proof.
  unfold const_instruction, const_bytes, const_binary, const_ref_func, const_ref_null, const_global, lreject. cbv zeta.
  apply ahead_switch; [|apply ahead_fail].
  repeat first [apply Forall_nil_2 | apply Forall_cons_2]; cbn [snd];
    repeat first [apply ahead_push | apply ahead_pop | apply ahead_gc | ahead_step].
Qed.

Abbreviation left x := (turbowasm_reader_remaining (l_reader x)).

Lemma moved_left x y : moved (l_reader x) (l_reader y) -> left y <= left x.
Proof. intros (d & Hd & ->). rewrite remaining_advance by done. lia. Qed.

(** Enough rounds for the bytes that are left: one more changes nothing. *)
Lemma const_loop_fuel n : forall m s x, left x < Z.of_nat n -> left x < Z.of_nat m ->
  const_loop buf realloc_ok calloc_ok n s x = const_loop buf realloc_ok calloc_ok m s x.
Proof.
  induction n as [|n IH]; intros [|m] s x Hn Hm; try (pose proof (remaining_nonneg (l_reader x)); lia).
  cbn [const_loop]. unfold mbind at 1 3, ld_bind at 1 3, lread, decode.
  destruct (turbowasm_reader_u8 buf (l_reader x)) as [[op|] r] eqn:E; [|done]. destruct (op =? 0x0b); [done|].
  unfold mbind, ld_bind. destruct (const_instruction _ _ _ op s _) as [[st|s'] y] eqn:Ei; [done|].
  apply ahead_instruction, moved_left in Ei. simpl in Ei. apply u8_moved in E as [-> Hr]. rewrite remaining_advance in Ei by lia.
  apply IH; lia.
Qed.

Lemma section_one_left seen last_rank x p y : section_one buf realloc_ok calloc_ok malloc_ok seen last_rank x = (inr p, y) ->
  left y < left x.
Proof.
  unfold section_one. intros E. ld_inv.
  rename select (decode (turbowasm_reader_u8 buf) _ = _) into G1. apply decode_inv, u8_moved in G1 as [-> Hr].
  rename select (decode (turbowasm_reader_uleb32 buf) _ = _) into G2. pose proof (decode_uleb32 _ _ _ _ G2) as Hp.
  apply (fw_moved _ (forward_uleb32 buf)) in G2. rename select (decode (fun r => _) _ = _) into G3.
  apply (fw_moved _ (forward_slice _ (proj1 Hp))) in G3. simpl in *.
  match type of G3 with moved _ ?q => assert (Hl : turbowasm_reader_remaining q < left x) end.
  { destruct (moved_trans _ _ _ G2 G3) as (d & Hd & ->). rewrite remaining_advance in * by lia. rewrite remaining_advance by lia. lia. }
  destruct (a =? 0); ld_inv; rename select (in_section _ _ _ = _) into Es; by apply in_section_inv in Es as (z' & _ & ->).
Qed.

Lemma sections_loop_fuel n : forall m seen last_rank x, left x <= Z.of_nat n -> left x <= Z.of_nat m ->
  sections_loop buf realloc_ok calloc_ok malloc_ok n seen last_rank x =
  sections_loop buf realloc_ok calloc_ok malloc_ok m seen last_rank x.
Proof.
  induction n as [|n IH]; intros m seen last_rank x Hn Hm.
  - assert (H0 : left x = 0) by (pose proof (remaining_nonneg (l_reader x)); lia).
    destruct m; cbn [sections_loop]; unfold mbind, ld_bind, lread, remaining; by rewrite H0.
  - destruct (Z.eqb_spec (left x) 0) as [H0|H0].
    + destruct m; cbn [sections_loop]; unfold mbind at 1 3, ld_bind at 1 3, lread, remaining; by rewrite H0.
    + destruct m as [|m]; [pose proof (remaining_nonneg (l_reader x)); lia|]. cbn [sections_loop].
      unfold mbind at 1 3, ld_bind at 1 3, lread, remaining. destruct (_ =? 0); [done|]. unfold mbind, ld_bind.
      replace (mk_loading (l_reader x) (l_heap x) (l_context x) (l_summary x)) with x by (by destruct x).
      destruct (section_one _ _ _ _ _ _ x) as [[st|p] y] eqn:Es; [done|]. apply section_one_left in Es. apply IH; lia.
Qed.

(** ** A load that succeeds *)

Definition start_of (r : turbowasm_reader) : loading := mk_loading r [] empty_context zero_summary.

Lemma inv_start r : inv 0 none (start_of r).
Proof.
  split; try done.
  - split; try done; try (by apply Forall_nil_2); try (by apply NoDup_nil_2).
  - intros k. by destruct k.
  - intros k. by destruct k.
  - simpl. intros i Hi. lia.
Qed.

Lemma load_inv sizeof_module_impl occupied bytes size config m :
  turbowasm_module_load_borrowed_with_config buf realloc_ok calloc_ok malloc_ok sizeof_module_impl occupied bytes size config =
    (TURBOWASM_OK, Some m) ->
  exists r1 r2 x, turbowasm_reader_u32le buf (turbowasm_reader_init bytes size) = (Some TURBOWASM_MAGIC, r1) /\
    turbowasm_reader_u32le buf r1 = (Some TURBOWASM_BINARY_VERSION, r2) /\
    turbowasm_validate_sections buf realloc_ok calloc_ok malloc_ok (start_of r2) = (inr tt, x) /\
    exists cfg, turbowasm_runtime_config_normalize config = Some cfg /\ m = mk_module bytes size cfg (l_heap x) (l_context x) (l_summary x).
Proof.
  unfold turbowasm_module_load_borrowed_with_config. destruct (is_null bytes || occupied); [done|].
  destruct (turbowasm_runtime_config_normalize config) as [cfg|]; [|done]. destruct (negb _ && _); [done|].
  destruct (turbowasm_reader_u32le buf (turbowasm_reader_init bytes size)) as [[magic|] r1]; [|done].
  destruct (turbowasm_reader_u32le buf r1) as [[version|] r2] eqn:E2; [|done].
  destruct (Z.eqb_spec magic TURBOWASM_MAGIC) as [->|]; [|done]. destruct (Z.eqb_spec version TURBOWASM_BINARY_VERSION) as [->|]; [|done].
  cbn [negb orb]. change (mk_loading r2 [] empty_context zero_summary) with (start_of r2).
  destruct (turbowasm_validate_sections _ _ _ _ (start_of r2)) as [[st|[]] x] eqn:Es; [done|]. destruct (calloc_ok _); [|done].
  intros [= <-]. exists r1, r2, x. split; [done|]. split; [done|]. split; [done|]. by exists cfg.
Qed.

(** The loop over the sections, and the two checks after it. *)
Lemma sections_inv r x : turbowasm_validate_sections buf realloc_ok calloc_ok malloc_ok (start_of r) = (inr tt, x) ->
  (exists rank, inv rank none x) /\ code_count (l_summary x) = declared (l_summary x) EXTERN_FUNCTION /\
  exists l, layout r l /\ StronglySorted Z.lt (0 :: ranks l).
Proof.
  unfold turbowasm_validate_sections. intros E. ld_inv. rename select (remaining _ = _) into Er.
  injection Er as _ <-. change (with_reader _ _) with (start_of r) in *. rename select (sections_loop _ _ _ _ _ _ _ _ = _) into Es.
  apply sections_loop_inv in Es as [Hi Hl]; [|apply inv_start|by intros].
  split; [done|]. split; [|done]. by apply Z.eqb_eq, negb_false_iff.
Qed.

(** What the components that run a module rely on. *)
Record module_facts (m : turbowasm_module_impl) : Prop := {
  mf_ok : module_ok buf (module_types m) (validation m) (summary m);
  mf_space : forall k, space (validation m) k = imported (summary m) k + declared (summary m) k;
  mf_fits : fits (validation m);
  mf_imported : forall i f, items (functions (validation m)) !! i = Some f ->
    function_imported f = bool_decide (Z.of_nat i < imported (summary m) EXTERN_FUNCTION);
  mf_bodies : forall i f, items (functions (validation m)) !! i = Some f -> function_imported f = false ->
    validated (module_types m) (validation m) (Z.of_nat i)
}.

Lemma load_facts sizeof_module_impl occupied bytes size config m :
  turbowasm_module_load_borrowed_with_config buf realloc_ok calloc_ok malloc_ok sizeof_module_impl occupied bytes size config =
    (TURBOWASM_OK, Some m) -> module_facts m.
Proof.
  intros (r1 & r2 & x & _ & _ & Es & cfg & _ & ->)%load_inv. apply sections_inv in Es as ([rank Hi] & Hc & _). split; simpl.
  - apply Hi.
  - intros k. rewrite (in_space _ _ _ Hi). unfold none. lia.
  - apply Hi.
  - apply Hi.
  - intros i f Hf Hd. apply (in_bodies _ _ _ Hi). rewrite (in_imported _ _ _ Hi _ _ Hf) in Hd. apply bool_decide_eq_false in Hd.
    pose proof (in_space _ _ _ Hi EXTERN_FUNCTION) as Hs. unfold none, space, count in Hs. apply lookup_lt_Some in Hf. lia.
Qed.

End Invariant.

(** ** Properties *)

(** C3. An accepted module is valid as a whole: its types are well formed,
    every function and tag has a function type of the module, limits are
    ordered and within the address space, every export, start function,
    element and data segment refers to an item that exists (an element segment
    to a table that can hold its elements), export names differ, each index
    space holds the imports and then the definitions that the summary counts,
    and the body of every function that is not imported has been validated. *)
Theorem module_validated buf realloc_ok calloc_ok malloc_ok sizeof_module_impl occupied bytes size config m :
  turbowasm_module_load_borrowed_with_config buf realloc_ok calloc_ok malloc_ok sizeof_module_impl occupied bytes size config =
    (TURBOWASM_OK, Some m) ->
  module_ok buf (module_types m) (validation m) (summary m) /\ fits (validation m) /\
  (forall k, space (validation m) k = imported (summary m) k + declared (summary m) k) /\
  (forall i f, items (functions (validation m)) !! i = Some f ->
     function_imported f = bool_decide (Z.of_nat i < imported (summary m) EXTERN_FUNCTION) /\
     (function_imported f = false -> validated buf realloc_ok malloc_ok (module_types m) (validation m) (Z.of_nat i))).
Proof.
  intros [F1 F2 F3 F4 F5]%load_facts. split; [done|]. split; [done|]. split; [done|].
  intros i f Hf. split; [by apply F4|by apply F5].
Qed.

(** C4. The bytes of an accepted module are the magic number, the version and a
    sequence of sections that fills the rest; apart from custom sections, which
    may stand anywhere, each kind of section comes at most once and in the order
    of the standard, the tag section between memories and globals and the data
    count before the code. *)
Theorem sections_in_order buf realloc_ok calloc_ok malloc_ok sizeof_module_impl occupied bytes size config m :
  turbowasm_module_load_borrowed_with_config buf realloc_ok calloc_ok malloc_ok sizeof_module_impl occupied bytes size config =
    (TURBOWASM_OK, Some m) ->
  exists r1 r2 l, turbowasm_reader_u32le buf (turbowasm_reader_init bytes size) = (Some TURBOWASM_MAGIC, r1) /\
    turbowasm_reader_u32le buf r1 = (Some TURBOWASM_BINARY_VERSION, r2) /\
    layout buf r2 l /\ StronglySorted Z.lt (0 :: ranks l).
Proof.
  intros (r1 & r2 & x & E1 & E2 & Es & cfg & _ & ->)%load_inv. apply sections_inv in Es as (_ & _ & l & Hl & Hs).
  by exists r1, r2, l.
Qed.

(** The two loops of loading whose length is not written in the module end:
    a section takes at least one byte and so does an instruction of a constant
    expression, so that as many rounds as bytes are left (one more for the
    expressions, to find that nothing is left) give the result of any larger
    number of rounds. *)
Theorem loading_terminates buf realloc_ok calloc_ok malloc_ok fuel x :
  turbowasm_reader_remaining (l_reader x) < Z.of_nat fuel ->
  (forall seen last_rank, sections_loop buf realloc_ok calloc_ok malloc_ok fuel seen last_rank x =
     sections_loop buf realloc_ok calloc_ok malloc_ok (Z.to_nat (turbowasm_reader_remaining (l_reader x))) seen last_rank x) /\
  (forall stack, const_loop buf realloc_ok calloc_ok fuel stack x =
     const_loop buf realloc_ok calloc_ok (S (Z.to_nat (turbowasm_reader_remaining (l_reader x)))) stack x).
Proof.
  intros Hf. pose proof (remaining_nonneg (l_reader x)) as Hr.
  split; intros; [apply sections_loop_fuel; lia|apply const_loop_fuel; lia].
Qed.

(** ** Witnesses *)

(** One type [[] -> [i32]], an imported memory, a function [i32.const 1], an
    immutable global, an export of the function and an active data segment. *)
Definition sample_module : list Z :=
  [0; 0x61; 0x73; 0x6d; 1; 0; 0; 0; 1; 5; 1; 0x60; 0; 1; 0x7f; 2; 9; 1; 1; 0x61; 1; 0x62; 2; 1; 1; 2;
   3; 2; 1; 0; 6; 6; 1; 0x7f; 0; 0x41; 5; 0x0b; 7; 5; 1; 1; 0x66; 0; 0;
   0x0a; 6; 1; 4; 0; 0x41; 1; 0x0b; 0x0b; 7; 1; 0; 0x41; 0; 0x0b; 1; 0xaa].

Abbreviation sample_load := (turbowasm_module_load_borrowed_with_config sample_module (fun _ => true) (fun _ => true)
  (fun _ => true) 100 false (Some 0) 62 None).

Definition sample_loaded : turbowasm_module_impl :=
  default (mk_module None 0 default_config [] empty_context zero_summary) sample_load.2.

Lemma sample_module_accepted : sample_load = (TURBOWASM_OK, Some sample_loaded).
Proof. vm_compute. reflexivity. Qed.

Lemma sample_counts : length sample_module = 62%nat /\ count (functions (validation sample_loaded)) = 1 /\
  count (memories (validation sample_loaded)) = 1.
Proof. vm_compute. done. Qed.

Lemma module_validated_witness : module_ok sample_module (module_types sample_loaded) (validation sample_loaded) (summary sample_loaded) /\
  space (validation sample_loaded) EXTERN_MEMORY = 1.
Proof.
  destruct (module_validated sample_module (fun _ => true) (fun _ => true) (fun _ => true) 100 false (Some 0) 62 None sample_loaded sample_module_accepted)
    as (Hok & _ & Hs & _).
  split; [exact Hok|]. rewrite Hs. vm_compute. reflexivity.
Defined.

Lemma sections_in_order_witness : exists r l, layout sample_module r l /\ StronglySorted Z.lt (0 :: ranks l).
Proof.
  destruct (sections_in_order sample_module (fun _ => true) (fun _ => true) (fun _ => true) 100 false (Some 0) 62 None sample_loaded sample_module_accepted)
    as (r1 & r2 & l & _ & _ & Hl & Hs).
  exists r2, l. split; [exact Hl|exact Hs].
Defined.

(** The initializer of the global. *)
Definition sample_initializer : loading := start_of (mk_reader (Some 35) (Some 38)).

Lemma loading_terminates_witness : const_loop sample_module (fun _ => true) (fun _ => true) 100 (mk_const_stack [] 0) sample_initializer =
  const_loop sample_module (fun _ => true) (fun _ => true) 4 (mk_const_stack [] 0) sample_initializer.
Proof.
  exact (proj2 (loading_terminates sample_module (fun _ => true) (fun _ => true) (fun _ => true) 100 sample_initializer
    ltac:(vm_compute; reflexivity)) (mk_const_stack [] 0)).
Defined.

End Modules.
