(* ===== verification/Semantic.v ===== *)
(** * References of the collector, and the check of values against types
    (src/store.c and src/instance.c)

    What a GC reference resolves to in the store of an instance, and the test that
    the interpreter makes of arguments and results: the kind of the value, whether a
    reference may be null, and the type of what it refers to. Of the store, only the
    fields that these functions read are kept. *)

From S2P Require Import Prelude Value Types TypeEq TypeReader Context.

Module Semantic.
Import Value Types TypeEq TypeReader Context.

(** ** The collector's objects *)

Record turbowasm_gc_object := mk_object {
  object_type : option nat;
  object_values : list turbowasm_value
}.

Record tw_gc_slot := mk_slot {
  object : option turbowasm_gc_object;
  generation : Z
}.

(** [store_address] is the address that references carry; [owned] says that the current
    thread is the one that made the store. *)
Record turbowasm_store_impl := mk_gc {
  store_address : ptr;
  owned : bool;
  max_objects : Z;
  max_roots : Z;
  max_bytes : Z;
  stats_roots : Z;
  stats_bytes : Z;
  source_count : Z;
  slots : list tw_gc_slot
}.

Definition TW_GC_GENERATION_MAX : Z := 0x7fffffff.
Definition TW_GC_I31_TAG : Z := 1 ≪ 63.

Definition turbowasm_gc_is_i31 (ref : turbowasm_gcref) : bool := negb (gcref_handle ref .& TW_GC_I31_TAG =? 0).

Definition turbowasm_gc_resolve (store : option turbowasm_store_impl) (ref : turbowasm_gcref) : option turbowasm_gc_object :=
  let index := u32 (gcref_handle ref) in
  match store with
  | None => None
  | Some s =>
      if negb (gcref_store ref =? store_address s) || (index =? 0) || (index >? max_objects s) || turbowasm_gc_is_i31 ref then None
      else match slots s !! Z.to_nat (index - 1) with
           | Some slot => if generation slot =? u32 (gcref_handle ref ≫ 32) then object slot else None
           | None => None
           end
  end.

Definition turbowasm_gc_value_valid (store : option turbowasm_store_impl) (value : turbowasm_value) : bool :=
  match value with
  | VGcref ref | VManagedExternref ref =>
      (gcref_handle ref =? 0) ||
      (turbowasm_gc_is_i31 ref && (gcref_store ref =? NULL) &&
       (gcref_handle ref .& Z.lnot (TW_GC_I31_TAG .| TW_GC_GENERATION_MAX) =? 0)) ||
      bool_decide (turbowasm_gc_resolve store ref <> None)
  | _ => true
  end.

(** The status of registering the frame of a call; what it adds to the store is taken
    back when the call ends. *)
Definition turbowasm_gc_source_add (sizeof_source : Z) (store : option turbowasm_store_impl) : turbowasm_status :=
  match store with
  | None => TURBOWASM_OK
  | Some s =>
      if negb (owned s) then TURBOWASM_INVALID_ARGUMENT
      else if (source_count s >=? max_roots s - stats_roots s) || (sizeof_source >? max_bytes s - stats_bytes s)
      then TURBOWASM_OUT_OF_MEMORY
      else TURBOWASM_OK
  end.

(** ** Values and types *)

(** The check in an instance with the context [ctx] at the address [self]. The types of
    the functions of other instances are in the contexts of their modules, so
    [foreign owner index definition] stands for the comparison with them; the types of
    objects are in [H]. *)
Section Matches.
Context (H : type_heap) (ctx : turbowasm_validation_context) (gc : option turbowasm_store_impl) (self : ptr)
        (foreign : ptr -> Z -> option nat -> bool).

(** The address of the type of a function. *)
Definition function_definition (index : Z) : option nat :=
  f ← turbowasm_validation_context_function ctx index;
  turbowasm_validation_context_type (types ctx) (function_type_index f).

(** The type of what a GC reference that is not null refers to. *)
Definition gc_actual (ref : turbowasm_gcref) : option turbowasm_validation_value_type :=
  let any := turbowasm_validation_value_type_legacy 0x6e in
  let actual kind definition :=
    mk_value_type (carrier any) (is_reference any) false kind (type_index any) definition in
  if turbowasm_gc_is_i31 ref then Some (actual HEAP_I31 (definition any))
  else match turbowasm_gc_resolve gc ref with
       | None => None
       | Some o =>
           match object_type o with
           | Some d => Some (actual HEAP_TYPE_INDEX (Some d))
           | None => Some (actual (heap_kind any) (definition any))
           end
       end.

(** Only function references and GC references have types with an index. *)
Definition turbowasm_value_matches_semantic (value : turbowasm_value) (type : turbowasm_validation_value_type) : bool :=
  if negb (turbowasm_value_matches_type value (carrier type)) then false
  else if negb (is_reference type) then true
  else if negb (turbowasm_gc_value_valid gc value) then false
  else match turbowasm_reference_is_null value with
       | None => false
       | Some true => nullable type
       | Some false =>
           match value with
           | VGcref ref =>
               match gc_actual ref with
               | Some actual => turbowasm_validation_value_type_matches H actual type
               | None => false
               end
           | _ =>
               if bool_decide (heap_kind type = HEAP_NOFUNC) || bool_decide (heap_kind type = HEAP_NOEXTERN) ||
                  bool_decide (heap_kind type = HEAP_NOEXN) then false
               else if negb (bool_decide (heap_kind type = HEAP_TYPE_INDEX)) then true
               else
                 let expected :=
                   match definition type with
                   | Some d => Some d
                   | None => turbowasm_validation_context_type (types ctx) (type_index type)
                   end in
                 match value with
                 | VFuncref f =>
                     if (funcref_owner f =? NULL) || (funcref_owner f =? self)
                     then turbowasm_validation_defined_type_matches H (function_definition (funcref_function_index f)) expected
                     else foreign (funcref_owner f) (funcref_function_index f) expected
                 | _ => false
                 end
           end
       end.

(** Numbers and vectors are of their type when they are of its kind. *)
Lemma number_matches value type : turbowasm_value_matches_type value (carrier type) = true -> is_reference type = false ->
  turbowasm_value_matches_semantic value type = true.
Proof using. intros Hk Hr. unfold turbowasm_value_matches_semantic. by rewrite Hk, Hr. Qed.

(** What is of a type is of its kind; only externref has a second one. *)
Lemma semantic_kind value type : turbowasm_value_matches_semantic value type = true ->
  value_kind value = turbowasm_kind_from_valtype (carrier type) \/ value_kind value = TURBOWASM_VALUE_MANAGED_EXTERNREF.
Proof using.
  unfold turbowasm_value_matches_semantic, turbowasm_value_matches_type. intros Hm. revert Hm.
  destruct (bool_decide _ && _) eqn:E; [|done]. rewrite andb_true_iff, orb_true_iff, andb_true_iff, !bool_decide_eq_true in E. tauto.
Qed.

End Matches.

End Semantic.
