(* ===== verification/Interp.v ===== *)
(** * The interpreter's dispatch loop (src/instance.c)

    One call of [turbowasm_exec_function] on a function of the module: the checks of
    the arguments, the locals, the loop that fetches an opcode and runs its case, and
    the check of the results. The state is what the C function keeps in local variables (the reader, the
    operand and control stacks, the locals, the two flags and the trap), the
    store of instances and the execution control of the caller. The callbacks of
    the execution control belong to the embedding program and are parameters.
    The cases of calls, exceptions, globals, tables, floating point, vectors,
    GC objects and atomics are not part of this file: they stop with
    [NotModelled], and [outside_model] lists them. Functions that are imported are
    not part of it either. *)

From S2P Require Import Prelude Reader Value Types TypeEq TypeReader Context ExecStack Numeric Memory Semantic Validator.

Module Interp.
Import Semantic Memory Reader Value Types TypeEq TypeReader Context ExecStack Numeric.

(** ** Immediate operands *)

(** The loop over the bytes of a type index after the first; at most five bytes
    in all. *)
Fixpoint index_loop (buf : list Z) (fuel : nat) (value shift count byte : Z) (r : turbowasm_reader)
    : option (Z * Z * Z * Z) * turbowasm_reader :=
  match fuel with
  | O => (None, r)
  | S fuel' =>
      if byte .& 0x80 =? 0 then (Some (value, shift, count, byte), r)
      else if count >=? 5 then (None, r)
      else match turbowasm_reader_u8 buf r with
           | (None, r') => (None, r')
           | (Some byte', r') =>
               index_loop buf fuel' (value .| u64 ((byte' .& 0x7f) ≪ shift)) (shift + 7) (count + 1) byte' r'
           end
  end.

Definition exec_type_index (buf : list Z) (first : Z) (r : turbowasm_reader) : option Z * turbowasm_reader :=
  match index_loop buf 6 (first .& 0x7f) 7 1 first r with
  | (None, r') => (None, r')
  | (Some (value, shift, count, byte), r') =>
      if (count =? 5) && negb (byte .& 0x70 =? 0) then (None, r')
      else
        let value := if negb (byte .& 0x40 =? 0) && (shift <? 64)
                     then value .| u64 (UINT64_MAX ≪ shift) else value in
        let signed_value := s64 value in
        if (signed_value <? 0) || (signed_value >? UINT32_MAX) then (None, r')
        else (Some signed_value, r')
  end.

Definition turbowasm_exec_read_block_signature (buf : list Z) (H : type_heap)
    (ctx : turbowasm_validation_context) : parse turbowasm_exec_block_signature :=
  n ← remaining;
  _ ← check (n =? 0) TURBOWASM_MALFORMED_MODULE;
  first ← peek buf;
  if first =? 0x40 then
    _ ← decode (turbowasm_reader_u8 buf);
    mret (mk_signature None 0 false)
  else if turbowasm_exec_valtype first || ((0x6a <=? first) && (first <=? 0x74)) ||
          (first =? 0x63) || (first =? 0x64) then
    tg ← turbowasm_validation_read_valtype buf H (Some (types ctx));
    let type := fst tg in
    _ ← check (bool_decide (heap_kind type = HEAP_TYPE_INDEX) &&
               (type_index type >=? type_count (types ctx))) TURBOWASM_MALFORMED_MODULE;
    mret (mk_signature None (carrier type) true)
  else
    first ← decode (turbowasm_reader_u8 buf);
    index ← decode (exec_type_index buf first);
    match type_at H ctx index with
    | None => fail TURBOWASM_MALFORMED_MODULE
    | Some t =>
        _ ← check (negb (defined t)) TURBOWASM_MALFORMED_MODULE;
        mret (mk_signature (Some t) 0 false)
    end.

(** ** State *)

(** Why a run stopped: a status, an opcode outside the model, or a bound of the
    model (rounds of the dispatch loop, suspensions at one checkpoint). *)
Inductive halt :=
  | Returned (status : turbowasm_status)
  | NotModelled (opcode : Z)
  | Running
  | Suspended.

Section Host.
Context {host : Type}.

(** [suspend] comes back with the budget and the interrupt check the execution
    was resumed with. *)
Record turbowasm_jit_execution_control := mk_execution {
  fuel_remaining : Z;
  fuel_limited : bool;
  should_interrupt : option (host -> bool * host);
  suspend : option (turbowasm_status -> host -> turbowasm_status * (Z * bool * option (host -> bool * host)) * host)
}.

Record istate := mk_istate {
  i_machine : machine;
  i_controls : turbowasm_exec_control_stack;
  i_locals : list turbowasm_value;
  i_finished : bool;
  i_returned : bool;
  i_execution : option turbowasm_jit_execution_control;
  i_host : host
}.

Definition i_reader (x : istate) : turbowasm_reader := m_reader (i_machine x).
Definition i_stack (x : istate) : turbowasm_value_stack := x_stack (m_exec (i_machine x)).

Definition set_machine m x := mk_istate m (i_controls x) (i_locals x) (i_finished x) (i_returned x) (i_execution x) (i_host x).
Definition set_controls c x := mk_istate (i_machine x) c (i_locals x) (i_finished x) (i_returned x) (i_execution x) (i_host x).
Definition set_locals l x := mk_istate (i_machine x) (i_controls x) l (i_finished x) (i_returned x) (i_execution x) (i_host x).
Definition set_finished b x := mk_istate (i_machine x) (i_controls x) (i_locals x) b (i_returned x) (i_execution x) (i_host x).
Definition set_returned b x := mk_istate (i_machine x) (i_controls x) (i_locals x) (i_finished x) b (i_execution x) (i_host x).
Definition set_execution e h x := mk_istate (i_machine x) (i_controls x) (i_locals x) (i_finished x) (i_returned x) e h.
Definition set_reader r x :=
  set_machine (mk_machine r (m_exec (i_machine x)) (m_store (i_machine x))) x.
Definition set_stack s x :=
  set_machine (mk_machine (i_reader x) (mk_exec s (x_trap (m_exec (i_machine x)))) (m_store (i_machine x))) x.
Definition set_trap t x :=
  set_machine (mk_machine (i_reader x) (mk_exec (i_stack x) t) (m_store (i_machine x))) x.

Definition im (A : Type) : Type := istate -> (halt + A) * istate.

#[global] Instance im_ret : MRet im := fun A a x => (inr a, x).
#[global] Instance im_bind : MBind im := fun A B k m x =>
  match m x with
  | (inl stop, x') => (inl stop, x')
  | (inr a, x') => k a x'
  end.

Definition ireturn {A} (status : turbowasm_status) : im A := fun x => (inl (Returned status), x).
Definition imalformed {A} : im A := ireturn TURBOWASM_MALFORMED_MODULE.
Definition iguard (bad : bool) (status : turbowasm_status) : im unit := if bad then ireturn status else mret tt.
Definition iget : im istate := fun x => (inr x, x).
Definition iupdate (f : istate -> istate) : im unit := fun x => (inr tt, f x).
Definition ineed {A} (o : option A) (status : turbowasm_status) : im A :=
  match o with Some a => mret a | None => ireturn status end.
Definition itrap {A} (t : turbowasm_trap) : im A := fun x => (inl (Returned TURBOWASM_TRAPPED), set_trap t x).

(** A reader, a handler on the machine, and a handler on the operand stack. *)
Definition iparse {A} (p : parse A) : im A := fun x =>
  match p (i_reader x) with
  | (inl status, r) => (inl (Returned status), set_reader r x)
  | (inr a, r) => (inr a, set_reader r x)
  end.
Definition idecode {A} (d : turbowasm_reader -> option A * turbowasm_reader) : im A := iparse (decode d).
Definition on_machine {A} (h : mexec A) : im A := fun x =>
  match h (i_machine x) with
  | (inl status, m) => (inl (Returned status), set_machine m x)
  | (inr a, m) => (inr a, set_machine m x)
  end.
Definition on_stack {A} (h : exec A) : im A := on_machine (on_exec h).

(** The stack operations that return a status. *)
Definition ipop : im turbowasm_value := fun x =>
  match turbowasm_stack_pop (i_stack x) with
  | (TURBOWASM_OK, s, Some v) => (inr v, set_stack s x)
  | (status, s, _) => (inl (Returned status), set_stack s x)
  end.
Definition ipop_kind (k : turbowasm_value_kind) : im turbowasm_value := on_stack (pop_kind k).

(** ** The checkpoint before every instruction *)

(** The [for] loop: [n] bounds how often it may suspend and start over. *)
Fixpoint checkpoint_loop (n : nat) (e : turbowasm_jit_execution_control) (h : host)
    : option (turbowasm_status * turbowasm_jit_execution_control * host) :=
  match n with
  | O => None
  | S n' =>
      let pause (status : turbowasm_status) (e : turbowasm_jit_execution_control) (h : host) :=
        match suspend e with
        | None => Some (status, e, h)
        | Some f =>
            let '(st, (fuel, limited, check), h') := f status h in
            let e' := mk_execution fuel limited check (suspend e) in
            if bool_decide (st = TURBOWASM_OK) then checkpoint_loop n' e' h' else Some (st, e', h')
        end in
      let '(interrupted, h) :=
        match should_interrupt e with Some f => f h | None => (false, h) end in
      if interrupted : bool then pause TURBOWASM_INTERRUPTED e h
      else if fuel_limited e then
        if fuel_remaining e =? 0 then pause TURBOWASM_FUEL_EXHAUSTED e h
        else Some (TURBOWASM_OK,
                   mk_execution (fuel_remaining e - 1) (fuel_limited e) (should_interrupt e) (suspend e), h)
      else Some (TURBOWASM_OK, e, h)
  end.

Section Loop.
Context (buf : list Z) (H : type_heap) (ctx : turbowasm_validation_context)
        (function : turbowasm_validation_function) (type : turbowasm_validation_func_type)
        (inst : nat) (realloc_ok : Z -> bool) (sizeof_value sizeof_frame : Z) (suspensions : nat).

Definition turbowasm_execution_checkpoint : im unit := fun x =>
  match i_execution x with
  | None => (inr tt, x)
  | Some e =>
      match checkpoint_loop suspensions e (i_host x) with
      | None => (inl Suspended, x)
      | Some (TURBOWASM_OK, e', h) => (inr tt, set_execution (Some e') h x)
      | Some (status, e', h) => (inl (Returned status), set_execution (Some e') h x)
      end
  end.

Definition ipush (v : turbowasm_value) : im unit := on_stack (push realloc_ok sizeof_value v).

(** [reader.cursor - function->code] *)
Definition position (x : istate) : Z := default 0 (cursor (i_reader x)) - default 0 (code function).

Definition opcode_at : im Z :=
  x ← iget;
  _ ← iguard ((position x <=? 0) || (position x - 1 >? UINT32_MAX)) TURBOWASM_MALFORMED_MODULE;
  mret (position x - 1).

Definition ijump (offset : Z) : im unit := fun x =>
  match turbowasm_exec_jump (i_reader x) function offset with
  | (TURBOWASM_OK, r) => (inr tt, set_reader r x)
  | (status, r) => (inl (Returned status), set_reader r x)
  end.

Definition ipush_control (kind : turbowasm_exec_control_kind) (ann : turbowasm_validation_control)
    (sg : turbowasm_exec_block_signature) : im unit := fun x =>
  match turbowasm_exec_control_push realloc_ok sizeof_frame (i_controls x) (i_stack x) kind (Some ann) sg with
  | (TURBOWASM_OK, c) => (inr tt, set_controls c x)
  | (status, c) => (inl (Returned status), set_controls c x)
  end.

Definition ibranch (depth : Z) : im unit := fun x =>
  match turbowasm_exec_branch function depth
          (mk_branch (i_stack x) (i_controls x) (i_reader x) (i_finished x) (i_returned x)) with
  | (status, b) =>
      let x' := set_returned (b_returned b) (set_finished (b_finished b) (set_reader (b_reader b)
                  (set_controls (b_controls b) (set_stack (b_stack b) x)))) in
      (if bool_decide (status = TURBOWASM_OK) then inr tt else inl (Returned status), x')
  end.

Definition ifinish : im unit := fun x =>
  match turbowasm_exec_finish_control (i_stack x) (i_controls x) with
  | (TURBOWASM_OK, s, c) => (inr tt, set_controls c (set_stack s x))
  | (status, s, c) => (inl (Returned status), set_controls c (set_stack s x))
  end.

Definition ipush_function : im unit := fun x =>
  match turbowasm_exec_control_push_function realloc_ok sizeof_frame (i_controls x) type with
  | (TURBOWASM_OK, c) => (inr tt, set_controls c x)
  | (status, c) => (inl (Returned status), set_controls c x)
  end.

(** ** Control instructions *)

(** block, loop, if *)
Definition exec_block (opcode : Z) : im unit :=
  opcode_offset ← opcode_at;
  annotation ← ineed (turbowasm_validation_function_control_at function opcode_offset) TURBOWASM_MALFORMED_MODULE;
  _ ← iguard (end_offset annotation =? UINT32_MAX) TURBOWASM_MALFORMED_MODULE;
  signature ← iparse (turbowasm_exec_read_block_signature buf H ctx);
  x ← iget;
  _ ← iguard ((position x >? UINT32_MAX) || negb (u32 (position x) =? body_offset annotation))
        TURBOWASM_MALFORMED_MODULE;
  let kind := if opcode =? 0x02 then CONTROL_BLOCK else if opcode =? 0x03 then CONTROL_LOOP else CONTROL_IF in
  condition ← (if opcode =? 0x04 then ipop_kind TURBOWASM_VALUE_I32 else mret VZero);
  _ ← ipush_control kind annotation signature;
  if (opcode =? 0x04) && (as_i32 condition =? 0) then
    if negb (else_offset annotation =? UINT32_MAX) then ijump (u32 (else_offset annotation + 1))
    else ijump (end_offset annotation)
  else mret tt.

Definition exec_else : im unit :=
  x ← iget;
  _ ← iguard (controls_size (i_controls x) <=? 1) TURBOWASM_MALFORMED_MODULE;
  opcode_offset ← opcode_at;
  frame ← ineed (last (frames (i_controls x))) TURBOWASM_MALFORMED_MODULE;
  _ ← iguard (negb (bool_decide (frame_kind frame = CONTROL_IF))) TURBOWASM_MALFORMED_MODULE;
  ann ← ineed (annotation frame) TURBOWASM_MALFORMED_MODULE;
  _ ← iguard (negb (else_offset ann =? opcode_offset) || (end_offset ann =? UINT32_MAX))
        TURBOWASM_MALFORMED_MODULE;
  ijump (end_offset ann).

Definition exec_end : im unit :=
  x ← iget;
  if controls_size (i_controls x) =? 1 then
    _ ← iguard (negb (turbowasm_reader_remaining (i_reader x) =? 0)) TURBOWASM_MALFORMED_MODULE;
    iupdate (set_finished true)
  else
    opcode_offset ← opcode_at;
    frame ← ineed (last (frames (i_controls x))) TURBOWASM_MALFORMED_MODULE;
    ann ← ineed (annotation frame) TURBOWASM_MALFORMED_MODULE;
    _ ← iguard (negb (end_offset ann =? opcode_offset)) TURBOWASM_MALFORMED_MODULE;
    ifinish.

(** The loop over the table's labels. *)
Fixpoint select_depth (n : nat) (index selector selected : Z) : im Z :=
  match n with
  | O => mret selected
  | S n' =>
      depth ← idecode (turbowasm_reader_uleb32 buf);
      select_depth n' (index + 1) selector (if selector =? index then depth else selected)
  end.

Definition turbowasm_exec_br_table : im unit :=
  count ← idecode (turbowasm_reader_uleb32 buf);
  selector ← ipop_kind TURBOWASM_VALUE_I32;
  selected_depth ← select_depth (Z.to_nat count) 0 (u32 (as_i32 selector)) 0;
  default_depth ← idecode (turbowasm_reader_uleb32 buf);
  ibranch (if u32 (as_i32 selector) >=? count then default_depth else selected_depth).

(** br, br_if *)
Definition exec_br (opcode : Z) : im unit :=
  branch_depth ← idecode (turbowasm_reader_uleb32 buf);
  if opcode =? 0x0d then
    condition ← ipop_kind TURBOWASM_VALUE_I32;
    if as_i32 condition =? 0 then mret tt else ibranch branch_depth
  else ibranch branch_depth.

Definition exec_return : im unit :=
  x ← iget; ibranch (u32 (controls_size (i_controls x) - 1)).

Definition exec_try_table : im unit :=
  opcode_offset ← opcode_at;
  annotation ← ineed (turbowasm_validation_function_control_at function opcode_offset) TURBOWASM_MALFORMED_MODULE;
  _ ← iguard (negb (bool_decide (control_kind annotation = VALIDATION_CONTROL_TRY_TABLE)) ||
              (end_offset annotation =? UINT32_MAX)) TURBOWASM_MALFORMED_MODULE;
  signature ← iparse (turbowasm_exec_read_block_signature buf H ctx);
  x ← iget;
  _ ← iguard ((position x >? body_offset annotation) || (body_offset annotation >? code_size function))
        TURBOWASM_MALFORMED_MODULE;
  _ ← iupdate (set_reader (mk_reader (Some (default 0 (code function) + body_offset annotation))
                             (rend (i_reader x))));
  ipush_control CONTROL_TRY_TABLE annotation signature.

(** ** Parametric and variable instructions *)

Definition exec_select : im unit :=
  condition ← ipop_kind TURBOWASM_VALUE_I32;
  right ← ipop;
  left ← ipop;
  _ ← iguard (negb (bool_decide (value_kind left = value_kind right)) ||
              bool_decide (value_kind left = TURBOWASM_VALUE_FUNCREF) ||
              bool_decide (value_kind left = TURBOWASM_VALUE_EXTERNREF) ||
              bool_decide (value_kind left = TURBOWASM_VALUE_EXNREF)) TURBOWASM_TYPE_MISMATCH;
  ipush (if negb (as_i32 condition =? 0) then left else right).

Definition exec_typed_select : im unit :=
  count ← idecode (turbowasm_reader_uleb32 buf);
  _ ← iguard (negb (count =? 1)) TURBOWASM_MALFORMED_MODULE;
  tg ← iparse (turbowasm_validation_read_valtype buf H (Some (types ctx)));
  let t := fst tg in
  _ ← iguard (bool_decide (heap_kind t = HEAP_TYPE_INDEX) && (type_index t >=? type_count (types ctx)))
        TURBOWASM_MALFORMED_MODULE;
  let kind := turbowasm_kind_from_valtype (carrier t) in
  _ ← iguard (bool_decide (kind = TURBOWASM_VALUE_ZERO)) TURBOWASM_UNSUPPORTED;
  condition ← ipop_kind TURBOWASM_VALUE_I32;
  right ← ipop_kind kind;
  left ← ipop_kind kind;
  ipush (if negb (as_i32 condition =? 0) then left else right).

(** local.get, local.set, local.tee *)
Definition exec_local (opcode : Z) : im unit :=
  local_index ← idecode (turbowasm_reader_uleb32 buf);
  _ ← iguard (local_index >=? Z.of_nat (length (local_types function))) TURBOWASM_MALFORMED_MODULE;
  x ← iget;
  old ← ineed (i_locals x !! Z.to_nat local_index) TURBOWASM_MALFORMED_MODULE;
  if opcode =? 0x20 then ipush old
  else
    value ← ipop;
    _ ← iguard (negb (bool_decide (value_kind value = value_kind old))) TURBOWASM_TYPE_MISMATCH;
    _ ← iupdate (fun x => set_locals (<[Z.to_nat local_index := value]> (i_locals x)) x);
    if opcode =? 0x22 then ipush value else mret tt.

(** The loop over the eight bytes of an f64 literal. *)
Definition f64_bits (bytes : turbowasm_reader) : Z :=
  foldl (fun bits index => bits .| u64 (byte_at buf (default 0 (cursor bytes) + Z.of_nat index)
                                          ≪ (8 * Z.of_nat index))) 0 (seq 0 8).

Definition exec_const (opcode : Z) : im unit :=
  switch opcode
    [(0x41, z ← idecode (turbowasm_reader_sleb32 buf); ipush (VI32 z));
     (0x42, z ← idecode (turbowasm_reader_sleb64 buf); ipush (VI64 z));
     (0x43, b ← idecode (turbowasm_reader_u32le buf); ipush (VF32 b));
     (0x44, r ← idecode (fun r => turbowasm_reader_slice r 8); ipush (VF64 (f64_bits r)))]
    (ireturn TURBOWASM_UNSUPPORTED).

(** ** References *)

Definition exec_ref_null : im unit :=
  t ← iparse (turbowasm_validation_read_heaptype buf H (Some (types ctx)) false);
  _ ← iguard (bool_decide (heap_kind t = HEAP_TYPE_INDEX) && (type_index t >=? type_count (types ctx)))
        TURBOWASM_MALFORMED_MODULE;
  if carrier t =? 0x70 then ipush (VFuncref (mk_funcref true UINT32_MAX NULL))
  else if carrier t =? 0x6f then ipush (VExternref (mk_externref true 0))
  else if carrier t =? 0x6e then ipush (VGcref (mk_gcref NULL 0))
  else if carrier t =? 0x69 then ipush (VExnref (mk_exnref true NULL))
  else ireturn TURBOWASM_UNSUPPORTED.

Definition exec_ref_is_null : im unit :=
  reference ← ipop;
  is_null ← ineed (turbowasm_reference_is_null reference) TURBOWASM_TYPE_MISMATCH;
  ipush (VI32 (if is_null : bool then 1 else 0)).

(** ref.func; the owner is the address of the instance. *)
Definition exec_ref_func : im unit :=
  function_ref ← idecode (turbowasm_reader_uleb32 buf);
  _ ← iguard (function_ref >=? count (functions ctx)) TURBOWASM_MALFORMED_MODULE;
  ipush (VFuncref (mk_funcref false function_ref (Z.of_nat inst + 1))).

(** ref.as_non_null, br_on_null, br_on_non_null *)
Definition exec_ref_branch (opcode : Z) : im unit :=
  branch_depth ← (if negb (opcode =? 0xd4) then idecode (turbowasm_reader_uleb32 buf) else mret 0);
  reference ← ipop;
  is_null ← ineed (turbowasm_reference_is_null reference) TURBOWASM_TYPE_MISMATCH;
  if (opcode =? 0xd4) && is_null then itrap TRAP_NULL_REFERENCE
  else
    _ ← (if negb is_null then ipush reference else mret tt);
    if ((opcode =? 0xd5) && is_null) || ((opcode =? 0xd6) && negb is_null)
    then ibranch branch_depth else mret tt.

(** ** The switch *)

Definition between := Validator.Validator.between.

Definition exec_dispatch (opcode : Z) : im unit :=
  if opcode =? 0x00 then itrap TRAP_UNREACHABLE
  else if opcode =? 0x01 then mret tt
  else if between 0x02 opcode 0x04 then exec_block opcode
  else if opcode =? 0x05 then exec_else
  else if (opcode =? 0x08) || (opcode =? 0x0a) then fun x => (inl (NotModelled opcode), x)
  else if opcode =? 0x0b then exec_end
  else if between 0x0c opcode 0x0d then exec_br opcode
  else if opcode =? 0x0e then turbowasm_exec_br_table
  else if opcode =? 0x0f then exec_return
  else if between 0x10 opcode 0x15 then fun x => (inl (NotModelled opcode), x)
  else if opcode =? 0x1a then _ ← ipop; mret tt
  else if opcode =? 0x1b then exec_select
  else if opcode =? 0x1c then exec_typed_select
  else if opcode =? 0x1f then exec_try_table
  else if between 0x20 opcode 0x22 then exec_local opcode
  else if between 0x23 opcode 0x26 then fun x => (inl (NotModelled opcode), x)
  else if between 0x28 opcode 0x35 then
    on_machine (turbowasm_exec_memory_load buf realloc_ok sizeof_value inst opcode)
  else if between 0x36 opcode 0x3e then on_machine (turbowasm_exec_memory_store buf inst opcode)
  else if between 0x3f opcode 0x40 then
    on_machine (turbowasm_exec_memory_size_or_grow buf realloc_ok sizeof_value inst opcode)
  else if between 0x41 opcode 0x44 then exec_const opcode
  else if between 0x45 opcode 0x4f then
    on_stack (turbowasm_exec_i32_test_or_compare realloc_ok sizeof_value opcode)
  else if between 0x50 opcode 0x5a then
    on_stack (turbowasm_exec_i64_test_or_compare realloc_ok sizeof_value opcode)
  else if between 0x5b opcode 0x66 then fun x => (inl (NotModelled opcode), x)
  else if between 0x67 opcode 0x69 then on_stack (turbowasm_exec_i32_unary realloc_ok sizeof_value opcode)
  else if between 0x6a opcode 0x78 then on_stack (turbowasm_exec_i32_binary realloc_ok sizeof_value opcode)
  else if between 0x79 opcode 0x7b then on_stack (turbowasm_exec_i64_unary realloc_ok sizeof_value opcode)
  else if between 0x7c opcode 0x8a then on_stack (turbowasm_exec_i64_binary realloc_ok sizeof_value opcode)
  else if between 0x8b opcode 0xc4 then fun x => (inl (NotModelled opcode), x)
  else if opcode =? 0xd0 then exec_ref_null
  else if opcode =? 0xd1 then exec_ref_is_null
  else if opcode =? 0xd2 then exec_ref_func
  else if opcode =? 0xd3 then fun x => (inl (NotModelled opcode), x)
  else if between 0xd4 opcode 0xd6 then exec_ref_branch opcode
  else if between 0xfb opcode 0xfe then fun x => (inl (NotModelled opcode), x)
  else ireturn TURBOWASM_UNSUPPORTED.

(** One round of the loop. *)
Definition exec_round : im unit :=
  _ ← turbowasm_execution_checkpoint;
  opcode ← idecode (turbowasm_reader_u8 buf);
  exec_dispatch opcode.

(** [n] rounds at most. *)
Fixpoint exec_loop (n : nat) : im unit :=
  match n with
  | O => fun x => (inl Running, x)
  | S n' =>
      x ← iget;
      if (turbowasm_reader_remaining (i_reader x) =? 0) || i_finished x then mret tt
      else _ ← exec_round; exec_loop n'
  end.

(** The instructions that [exec_dispatch] leaves out: throw, throw_ref and calls, globals
    and tables, floating point and conversions, reference equality, GC objects,
    saturating and bulk operations, vectors and atomics. *)
Definition outside_model (opcode : Z) : bool :=
  (opcode =? 0x08) || (opcode =? 0x0a) || between 0x10 opcode 0x15 || between 0x23 opcode 0x26 ||
  between 0x5b opcode 0x66 || between 0x8b opcode 0xc4 || (opcode =? 0xd3) || between 0xfb opcode 0xfe.

(** ** Calls *)

Context (gc : option turbowasm_store_impl) (foreign : ptr -> Z -> option nat -> bool).

(** The address of the instance. *)
Definition self : ptr := Z.of_nat inst + 1.

Definition matches_semantic : turbowasm_value -> turbowasm_validation_value_type -> bool :=
  turbowasm_value_matches_semantic H ctx gc self foreign.

(** The results from the last to the first; [acc] are the ones that are already popped. *)
Fixpoint pop_results (semantics : list turbowasm_validation_value_type) (acc : list turbowasm_value)
    : im (list turbowasm_value) :=
  match semantics with
  | [] => mret acc
  | t :: semantics' =>
      v ← ipop;
      _ ← iguard (negb (matches_semantic v t)) TURBOWASM_TYPE_MISMATCH;
      pop_results semantics' (v :: acc)
  end.

(** From the reader over the code to the results. *)
Definition exec_body (n : nat) : im (list turbowasm_value) :=
  _ ← iupdate (set_reader (turbowasm_reader_init (code function) (code_size function)));
  _ ← ipush_function;
  _ ← exec_loop n;
  x ← iget;
  _ ← iguard (negb (i_finished x)) TURBOWASM_MALFORMED_MODULE;
  _ ← iguard ((negb (i_returned x) && negb (stack_size (i_stack x) =? result_count type)) ||
              (i_returned x && (stack_size (i_stack x) <? result_count type))) TURBOWASM_MALFORMED_MODULE;
  pop_results (reverse (result_semantics type)) [].

(** A function reference without an owner belongs to the instance. *)
Definition own_reference (v : turbowasm_value) : option turbowasm_value :=
  match v with
  | VFuncref f =>
      if negb (funcref_is_null f) && (funcref_owner f =? NULL) then
        if funcref_function_index f >=? count (functions ctx) then None
        else Some (VFuncref (mk_funcref (funcref_is_null f) (funcref_function_index f) self))
      else Some v
  | _ => Some v
  end.

Definition TURBOWASM_EXEC_MAX_CALL_DEPTH : Z := 256.

Context (calloc_ok : Z -> bool) (sizeof_source : Z).

(** A call of a function that the module defines, [function] of the type [type]. An array
    that is NULL is one without elements: both are refused with the same status. *)
Definition turbowasm_exec_function (arguments : list turbowasm_value) (result_capacity depth : Z) (n : nat)
    : im (list turbowasm_value) :=
  if depth >=? TURBOWASM_EXEC_MAX_CALL_DEPTH then itrap TRAP_CALL_STACK_EXHAUSTED
  else
    _ ← iguard (match gc with Some s => negb (owned s) | None => false end) TURBOWASM_INVALID_ARGUMENT;
    let registered := turbowasm_gc_source_add sizeof_source gc in
    _ ← iguard (bool_decide (registered <> TURBOWASM_OK)) registered;
    _ ← iguard (negb (defined type)) TURBOWASM_INVALID_ARGUMENT;
    _ ← iguard (negb (Z.of_nat (length arguments) =? param_count type) || (result_count type >? result_capacity))
          TURBOWASM_INVALID_ARGUMENT;
    _ ← iguard (negb (forallb2 matches_semantic arguments (param_semantics type))) TURBOWASM_TYPE_MISMATCH;
    let local_count := Z.of_nat (length (local_types function)) in
    _ ← iguard (negb (local_count =? 0) && negb (calloc_ok (local_count * sizeof_value))) TURBOWASM_OUT_OF_MEMORY;
    zeros ← ineed (mapM turbowasm_zero_value (local_types function)) TURBOWASM_UNSUPPORTED;
    own ← ineed (mapM own_reference arguments) TURBOWASM_INVALID_ARGUMENT;
    _ ← iupdate (fun x => set_returned false (set_finished false (set_controls (mk_controls [] 0) (set_stack (mk_stack [] 0)
          (set_locals (own ++ drop (length own) zeros) x)))));
    exec_body n.

End Loop.
End Host.

End Interp.
