(* ===== verification/InterpBlocks.v ===== *)
(** * Block signatures as the validator and the interpreter read them

    The interpreter decodes the type of a block a second time. Whenever the
    validator accepted it, the interpreter reads the same bytes and finds the
    carriers of the validator's types; the annotation retained for the block
    describes the same signature. *)

From S2P Require Import Prelude Reader Value Types TypeEq TypeReader Context ExecStack Validator ValidatorSteps Interp.

Module InterpBlocks.
Import Reader Value Types TypeEq TypeReader Context ExecStack Validator ValidatorSteps Interp.

(** ** Type indices *)

Section Index.
Context (buf : list Z).

(** The two loops: the validator's tests the byte after reading it, the
    interpreter's before reading the next. *)
Lemma index_loop_spec fuel : forall r value shift count x r', count <= 4 ->
  leb_loop buf fuel 64 5 (fun _ _ _ => false) r value shift count = (Some x, r') ->
  exists b r1, turbowasm_reader_u8 buf r = (Some b, r1) /\
    index_loop buf fuel (value .| u64 ((b .& 0x7f) ≪ shift)) (shift + 7) (count + 1) b r1 = (Some x, r').
Proof.
  induction fuel as [|fuel IH]; intros r value shift n x r' Hn E; [done|]. cbn [leb_loop] in E.
  destruct (n =? 5); [done|]. destruct (turbowasm_reader_u8 buf r) as [[b|] r1] eqn:Eb; [|done].
  exists b, r1. split; [done|]. cbn [index_loop]. destruct (b .& 128 =? 0); [done|].
  assert (n + 1 <= 4) as Hn'.
  { destruct (Z.eq_dec n 4) as [->|]; [|lia]. by destruct fuel. }
  destruct (IH _ _ _ _ _ _ Hn' E) as (b' & r2 & Eb' & E').
  rewrite Z.geb_leb, (proj2 (Z.leb_gt 5 (n + 1))) by lia. by rewrite Eb'.
Qed.

Lemma exec_type_index_agrees r i r' : block_type_index buf r = (Some i, r') ->
  exists b r1, turbowasm_reader_u8 buf r = (Some b, r1) /\ exec_type_index buf b r1 = (Some i, r').
Proof.
  unfold block_type_index. destruct (leb_loop _ _ _ _ _ _ _ _ _) as [[[[[v sh] n] b]|] r2] eqn:E; [|done].
  intros E'. apply index_loop_spec in E as (b0 & r1 & Eb & El); [|lia].
  exists b0, r1. split; [done|]. unfold exec_type_index. change (0 + 7) with 7 in El. change (0 + 1) with 1 in El.
  replace (b0 .& 0x7f) with (0 .| u64 ((b0 .& 0x7f) ≪ 0)); [by rewrite El|].
  rewrite Z.lor_0_l, Z.shiftl_0_r. apply wrap_id. change 127 with (Z.ones 7). rewrite Z.land_ones by lia.
  pose proof (Z.mod_pos_bound b0 (2 ^ 7) ltac:(lia)). unfold is_uint. simpl. lia.
Qed.

End Index.

(** ** Signatures *)

(** Two contexts that share their types; the interpreter runs with the context
    as it is after all the bodies have been validated. *)
Definition same_types (c c' : turbowasm_validation_context) : Prop :=
  types_base (types c) = types_base (types c') /\ type_count (types c) = type_count (types c').

Section Signatures.
Context (buf : list Z) (H : type_heap) (ctx ictx : turbowasm_validation_context).
Context (Hwf : heap_wf H) (Hsame : same_types ctx ictx).

Lemma type_at_same i : type_at H ictx i = type_at H ctx i.
Proof. unfold type_at, turbowasm_validation_context_type. by destruct Hsame as [<- <-]. Qed.

Lemma read_heaptype_same n :
  turbowasm_validation_read_heaptype buf H (Some (types ictx)) n =
  turbowasm_validation_read_heaptype buf H (Some (types ctx)) n.
Proof. unfold turbowasm_validation_read_heaptype. by destruct Hsame as [<- <-]. Qed.

Lemma read_valtype_same :
  turbowasm_validation_read_valtype buf H (Some (types ictx)) =
  turbowasm_validation_read_valtype buf H (Some (types ctx)).
Proof.
  unfold turbowasm_validation_read_valtype, turbowasm_validation_read_reftype, turbowasm_validation_read_heaptype.
  by destruct Hsame as [<- <-].
Qed.

(** The start and end carriers of an interpreter signature. *)
Definition exec_starts (sg : turbowasm_exec_block_signature) : list Z :=
  match indexed_type sg with Some t => params t | None => [] end.
Definition exec_ends (sg : turbowasm_exec_block_signature) : list Z :=
  match indexed_type sg with
  | Some t => results t
  | None => if sig_has_inline_end_type sg then [sig_inline_end_type sg] else []
  end.

(** The value types the validator works with in reachable code. *)
Definition valid (ty : turbowasm_validation_value_type) : Prop :=
  turbowasm_instr_valtype (carrier ty) = true /\ is_reference ty = reference_carrier (carrier ty).

Lemma legacy_carrier c : carrier (turbowasm_validation_value_type_legacy c) = c.
Proof. unfold turbowasm_validation_value_type_legacy. by repeat case_match. Qed.

Lemma numeric_valtype c : numeric_carrier c = true -> turbowasm_instr_valtype c = true.
Proof.
  unfold numeric_carrier, turbowasm_instr_valtype, TW_I32, TW_I64, TW_F32, TW_F64, TW_V128.
  rewrite !orb_true_iff, !Z.eqb_eq. tauto.
Qed.

Lemma reference_valtype c : reference_carrier c = true -> turbowasm_instr_valtype c = true.
Proof.
  unfold reference_carrier, turbowasm_instr_valtype, TW_FUNCREF, TW_EXTERNREF, TW_EXNREF.
  rewrite !orb_true_iff, !Z.eqb_eq. tauto.
Qed.

Lemma legacy_valid c : turbowasm_instr_valtype c = true -> valid (turbowasm_validation_value_type_legacy c).
Proof.
  intros Hc. split; [by rewrite legacy_carrier|]. unfold turbowasm_validation_value_type_legacy, reference_carrier.
  repeat case_match; simpl; repeat match goal with E : _ = false |- _ => rewrite E | E : _ = true |- _ => rewrite E end;
    by rewrite ?orb_true_r.
Qed.

(** Every value type read is one of them. *)
Lemma read_heaptype_valid c n : yields (turbowasm_validation_read_heaptype buf H c n)
  (fun v => is_reference v = true /\ reference_carrier (carrier v) = true).
Proof.
  unfold turbowasm_validation_read_heaptype. yields_step. destruct (a >=? 0).
  - yields_step. destruct c as [c|]; [yields_step|]; yields_step; simpl; [|done]. by repeat case_match.
  - cbn [switch]. repeat (case_match; [by yields_step|]). yields_step.
Qed.

Lemma heaptype_valid v : is_reference v = true /\ reference_carrier (carrier v) = true -> valid v.
Proof. intros [Hr Hc]. split; [by apply reference_valtype|congruence]. Qed.

Lemma read_valtype_valid c : yields (turbowasm_validation_read_valtype buf H c) (fun x => valid x.1).
Proof.
  unfold turbowasm_validation_read_valtype. do 2 yields_step. apply (yields_peeked buf numeric_carrier).
  - intros b Hb. yields_step. by apply legacy_valid, numeric_valtype.
  - unfold turbowasm_validation_read_reftype. yields_step. case_match.
    { yields_step. apply legacy_valid, reference_valtype. unfold reference_carrier.
      match goal with E : _ = true |- _ => by rewrite E end. }
    case_match; yields_step; (eapply yields_bind; [apply read_heaptype_valid|intros v Hv; yields_step; by apply heaptype_valid]).
Qed.

(** The two tests on the first byte are the same. *)
Lemma inline_test first :
  turbowasm_exec_valtype first || ((0x6a <=? first) && (first <=? 0x74)) || (first =? 0x63) || (first =? 0x64) =
  (turbowasm_instr_valtype first || ((0x6a <=? first) && (first <=? 0x74)) || (first =? 0x73) || (first =? 0x72) ||
   (first =? 0x63) || (first =? 0x64)).
Proof.
  unfold turbowasm_exec_valtype, turbowasm_instr_valtype, TW_I32, TW_I64, TW_F32, TW_F64, TW_V128, TW_FUNCREF,
    TW_EXTERNREF, TW_EXNREF. apply eq_iff_eq_true. rewrite !orb_true_iff, !andb_true_iff, !Z.eqb_eq, !Z.leb_le. lia.
Qed.

Lemma type_at_wf i t : type_at H ctx i = Some t -> exists p, H !! p = Some t /\ type_wf H p t.
Proof.
  unfold type_at, turbowasm_validation_context_type. case_match; [done|]. simpl. intros Ht.
  eexists. split; [exact Ht|]. by apply (hw_types _ Hwf).
Qed.

(** The annotation the validator retains for a block of signature [sg]. *)
Definition annotates (sg : turbowasm_block_signature) (a : turbowasm_validation_control) : Prop :=
  control_type_index a = bs_type_index sg /\ inline_result_type a = carrier (bs_inline_end sg).

Lemma block_signatures_spec r sg r' : type_count (types ctx) <= UINT32_MAX ->
  turbowasm_read_block_signature buf H ctx r = (inr sg, r') ->
  exists es, turbowasm_exec_read_block_signature buf H ictx r = (inr es, r') /\
    exec_starts es = map carrier (bs_start sg) /\ exec_ends es = map carrier (bs_end sg) /\
    forall a, annotates sg a ->
      turbowasm_validation_control_signature H ictx a = Some (map carrier (bs_start sg), map carrier (bs_end sg)).
Proof.
  intros Hcount. unfold turbowasm_read_block_signature, turbowasm_exec_read_block_signature.
  rewrite read_valtype_same. unfold mbind, parse_bind, remaining, peek, check.
  destruct (turbowasm_reader_remaining r =? 0); [discriminate|]. cbn [mret parse_ret].
  unfold mret at 1 3, parse_ret at 1 3. rewrite inline_test. set (first := byte_at _ _).
  destruct (first =? 0x40).
  { destruct (decode (turbowasm_reader_u8 buf) r) as [[st|b] r1]; intros [= <- <-].
    eexists. split; [reflexivity|]. split_and!; [done..|]. intros a [Hi Hv].
    unfold turbowasm_validation_control_signature. by rewrite Hi, Hv. }
  destruct (turbowasm_instr_valtype first || _ || _ || _ || _ || _).
  { destruct (turbowasm_validation_read_valtype _ _ _ r) as [[st|tg] r1] eqn:Ev; [discriminate|].
    apply read_valtype_valid in Ev as [Ev _]. destruct Hsame as [_ <-]. destruct (_ && _); intros [= <- <-].
    eexists. split; [reflexivity|]. split_and!; [done..|]. intros a [Hi Hv].
    unfold turbowasm_validation_control_signature. rewrite Hi, Hv. simpl.
    destruct (Z.eqb_spec (carrier tg.1) 0) as [E|]; [by rewrite E in Ev|done]. }
  unfold decode at 1. destruct (block_type_index buf r) as [[i|] r1] eqn:Ei; [|discriminate].
  destruct (exec_type_index_agrees _ _ _ _ Ei) as (b & r2 & Eb & Ex). unfold decode. rewrite Eb, Ex, type_at_same.
  destruct (type_at H ctx i) as [t|] eqn:Et; [|discriminate]. destruct (type_at_wf _ _ Et) as (p & _ & Ht).
  destruct (defined t) eqn:Hd; [|discriminate]. simpl. destruct (negb _); [discriminate|]. intros [= <- <-].
  eexists. split; [reflexivity|]. simpl. rewrite <- (tw_params _ _ _ Ht), <- (tw_results _ _ _ Ht).
  split_and!; [done..|]. intros a [Hi _]. unfold turbowasm_validation_control_signature. simpl in Hi. rewrite Hi, type_at_same, Et.
  destruct (Z.eqb_spec i UINT32_MAX) as [->|]; [|simpl; by rewrite Hd].
  unfold type_at, turbowasm_validation_context_type in Et. rewrite Z.geb_leb, (proj2 (Z.leb_le _ _)) in Et by lia. done.
Qed.

End Signatures.

(** ** Properties *)

(** C8. The interpreter's decoder of block types is equivalent to the validator's
    on everything the validator accepts: it reads the same bytes, finds the
    carriers of the same start and end types, and the annotation the validator
    retains for the block resolves to that signature too. *)
Theorem block_signatures_agree buf H ctx ictx r sg r' :
  heap_wf H -> same_types ctx ictx -> type_count (types ctx) <= UINT32_MAX ->
  turbowasm_read_block_signature buf H ctx r = (inr sg, r') ->
  exists es, turbowasm_exec_read_block_signature buf H ictx r = (inr es, r') /\
    exec_starts es = map carrier (bs_start sg) /\ exec_ends es = map carrier (bs_end sg) /\
    forall a, annotates sg a ->
      turbowasm_validation_control_signature H ictx a = Some (map carrier (bs_start sg), map carrier (bs_end sg)).
Proof. intros Hwf Hst Hcount E. by eapply block_signatures_spec. Qed.

(** ** Witnesses *)

(** A block of the type [i32], one inline byte. *)
Lemma block_signatures_agree_witness : let ctx := mk_context (mk_types 0 0 false) empty_vec empty_vec empty_vec empty_vec
    empty_vec empty_vec empty_vec empty_vec empty_vec None false 0 in
  exists es, turbowasm_exec_read_block_signature [0x7f] [] ctx (mk_reader (Some 0) (Some 1)) =
    (inr es, mk_reader (Some 1) (Some 1)) /\ exec_starts es = [] /\ exec_ends es = [0x7f].
Proof.
  intros ctx. destruct (block_signatures_agree [0x7f] [] ctx ctx (mk_reader (Some 0) (Some 1))
    (mk_bsig [] [turbowasm_validation_value_type_legacy 0x7f] UINT32_MAX (turbowasm_validation_value_type_legacy 0x7f))
    (mk_reader (Some 1) (Some 1))) as (es & E1 & E2 & E3 & _).
  - split; intros; discriminate.
  - by split.
  - vm_compute. discriminate.
  - vm_compute. reflexivity.
  - exists es. split; [exact E1|]. split; [exact E2|exact E3].
Defined.

End InterpBlocks.
