(* ===== verification/InterpFuel.v ===== *)
(** * Fuel

    Only the checkpoint touches the execution control, and it takes one unit of
    fuel per instruction: with a limit and no way to resume, the interpreter
    stops after as many instructions. *)

From S2P Require Import Prelude Reader Value Types TypeEq TypeReader Context ExecStack Numeric Memory Semantic Validator Interp.

Module InterpFuel.
Import Semantic Interp Reader Value Types TypeEq TypeReader ExecStack Numeric Context.

Section Fuel.
Context {host : Type}.
Abbreviation istate := (@istate host).
Abbreviation im := (@im host).

(** ** What leaves the execution control alone *)

(** The code has come to an end: with a status or with a result. *)
Definition definite {A} (r : halt + A) : Prop := match r with inl (Returned _) | inr _ => True | _ => False end.

(** The code has come to an end, or the model has. *)
Definition settled {A} (r : halt + A) : Prop :=
  match r with inl (NotModelled op) => outside_model op = true | _ => definite r end.

Definition keeps_execution {A} (m : im A) : Prop :=
  forall x, i_execution (snd (m x)) = i_execution x /\ settled (fst (m x)).

Lemma keeps_bind {A B} (m : im A) (k : A -> im B) : keeps_execution m -> (forall a, keeps_execution (k a)) -> keeps_execution (m ≫= k).
Proof.
  intros Hm Hk x. unfold mbind, im_bind. specialize (Hm x). destruct (m x) as [[h|a] x']; [by destruct Hm, h|].
  destruct Hm as [<- _]. apply Hk.
Qed.
Lemma keeps_ret {A} (a : A) : keeps_execution (mret a).
Proof. done. Qed.
Lemma keeps_return {A} st : keeps_execution (@ireturn host A st).
Proof. done. Qed.
Lemma keeps_stop {A} op : outside_model op = true -> keeps_execution (fun x => (inl (NotModelled op), x) : (halt + A) * istate).
Proof. done. Qed.
Lemma keeps_guard b st : keeps_execution (iguard b st).
Proof. by destruct b. Qed.
Lemma keeps_get : keeps_execution iget.
Proof. done. Qed.
Lemma keeps_need {A} (o : option A) st : keeps_execution (ineed o st).
Proof. by destruct o. Qed.
Lemma keeps_trap {A} t : keeps_execution (@itrap host A t).
Proof. done. Qed.
Lemma keeps_parse {A} (p : parse A) : keeps_execution (iparse p).
Proof. intros x. unfold iparse. by destruct (p _) as [[] ?]. Qed.
Lemma keeps_decode {A} (d : turbowasm_reader -> option A * turbowasm_reader) : keeps_execution (idecode d).
Proof. apply keeps_parse. Qed.
Lemma keeps_machine {A} (h : Memory.Memory.mexec A) : keeps_execution (on_machine h).
Proof. intros x. unfold on_machine. by destruct (h _) as [[] ?]. Qed.
Lemma keeps_stack {A} (h : exec A) : keeps_execution (on_stack h).
Proof. apply keeps_machine. Qed.
Lemma keeps_pop : keeps_execution ipop.
Proof. intros x. unfold ipop. by repeat case_match. Qed.
Lemma keeps_pop_kind k : keeps_execution (ipop_kind k).
Proof. apply keeps_stack. Qed.
Lemma keeps_push r s v : keeps_execution (ipush r s v).
Proof. apply keeps_stack. Qed.
Lemma keeps_jump F ofs : keeps_execution (ijump F ofs).
Proof. intros x. unfold ijump. by destruct (turbowasm_exec_jump _ _ _) as [[] ?]. Qed.
Lemma keeps_push_control r s k a sg : keeps_execution (ipush_control r s k a sg).
Proof. intros x. unfold ipush_control. by destruct (turbowasm_exec_control_push _ _ _ _ _ _ _) as [[] ?]. Qed.
Lemma keeps_push_function r s t : keeps_execution (ipush_function t r s).
Proof. intros x. unfold ipush_function. by destruct (turbowasm_exec_control_push_function _ _ _ _) as [[] ?]. Qed.
Lemma keeps_branch F d : keeps_execution (ibranch F d).
Proof. intros x. unfold ibranch. destruct (turbowasm_exec_branch _ _ _) as [st b]. simpl. by case_bool_decide. Qed.
Lemma keeps_finish : keeps_execution ifinish.
Proof. intros x. unfold ifinish. by destruct (turbowasm_exec_finish_control _ _) as [[[] ?] ?]. Qed.
Lemma keeps_update f : (forall x, i_execution (f x) = i_execution x) -> keeps_execution (iupdate f).
Proof. intros Hf x. split; [apply Hf|done]. Qed.

Create HintDb keeps.
Hint Resolve keeps_ret keeps_return keeps_guard keeps_get keeps_need keeps_trap keeps_parse keeps_decode
  keeps_machine keeps_stack keeps_pop keeps_pop_kind keeps_push keeps_jump keeps_push_control keeps_branch keeps_finish : keeps.

Ltac keeps_tac :=
  repeat match goal with
  | |- keeps_execution (mbind _ _) => apply keeps_bind; [|intros ?]
  | |- keeps_execution (iupdate _) => apply keeps_update; intros ?; reflexivity
  | |- keeps_execution (if ?b then _ else _) => destruct b eqn:?
  | E : _ = true |- keeps_execution (fun _ => (inl (NotModelled _), _)) => apply keeps_stop; unfold outside_model; rewrite E, ?orb_true_r; reflexivity
  | |- keeps_execution _ => solve [eauto with keeps]
  end.

Section Loop.
Context (buf : list Z) (H : type_heap) (ctx : turbowasm_validation_context)
        (F : turbowasm_validation_function) (type : turbowasm_validation_func_type)
        (inst : nat) (realloc_ok : Z -> bool) (sizeof_value sizeof_frame : Z) (suspensions : nat).

Lemma keeps_opcode_at : keeps_execution (opcode_at F).
Proof. unfold opcode_at. keeps_tac. Qed.
Hint Resolve keeps_opcode_at : keeps.

Lemma keeps_select_depth n : forall i sel cur, keeps_execution (select_depth buf n i sel cur).
Proof. induction n as [|n IH]; intros; cbn [select_depth]; [|apply keeps_bind; [|intros ?]]; keeps_tac; apply IH. Qed.
Hint Resolve keeps_select_depth : keeps.

Lemma keeps_switch {A} op (cases : list (Z * im A)) d :
  Forall (fun c => keeps_execution c.2) cases -> keeps_execution d -> keeps_execution (switch op cases d).
Proof. induction 1 as [|[k m] cs Hm _ IH]; simpl; [done|]. by destruct (op =? k); auto. Qed.

Lemma keeps_const op : keeps_execution (exec_const buf realloc_ok sizeof_value op).
Proof. apply keeps_switch; [repeat apply Forall_cons_2; [..|apply Forall_nil_2]; simpl|]; keeps_tac. Qed.
Hint Resolve keeps_const : keeps.

Lemma dispatch_keeps op : keeps_execution (exec_dispatch buf H ctx F inst realloc_ok sizeof_value sizeof_frame op).
Proof.
  unfold exec_dispatch, exec_block, exec_else, exec_end, exec_br, turbowasm_exec_br_table, exec_return, exec_try_table,
    exec_select, exec_typed_select, exec_local, exec_ref_null, exec_ref_is_null, exec_ref_func, exec_ref_branch.
  cbv zeta. keeps_tac.
Qed.

(** ** The checkpoint *)

(** The statuses a checkpoint can stop with. *)
Definition host_stop (e : turbowasm_jit_execution_control) (st : turbowasm_status) : Prop :=
  st = TURBOWASM_INTERRUPTED \/ st = TURBOWASM_FUEL_EXHAUSTED \/
  exists f st0 (h : host), suspend e = Some f /\ (f st0 h).1.1 = st.

Lemma checkpoint_loop_spec n : forall e (h : host),
  match checkpoint_loop n e h with
  | None => True
  | Some (st, e', _) => suspend e' = suspend e /\ (st = TURBOWASM_OK \/ host_stop e st)
  end.
Proof.
  induction n as [|n IH]; intros e h; [done|]. cbn [checkpoint_loop].
  assert (Hpause : forall st e0 h0, suspend e0 = suspend e -> host_stop e st ->
    match (match suspend e0 with
           | None => Some (st, e0, h0)
           | Some f => let '(st, (fuel, limited, check), h') := f st h0 in
               let e' := mk_execution fuel limited check (suspend e0) in
               if bool_decide (st = TURBOWASM_OK) then checkpoint_loop n e' h' else Some (st, e', h')
           end) with
    | None => True
    | Some (st, e', _) => suspend e' = suspend e /\ (st = TURBOWASM_OK \/ host_stop e st)
    end).
  { intros st e0 h0 He Hst. destruct (suspend e0) as [f|] eqn:Ef; [|split; [congruence|by right]].
    destruct (f st h0) as [[st' [[fuel lim] ck]] h'] eqn:Efs. case_bool_decide as Hok.
    - specialize (IH (mk_execution fuel lim ck (Some f)) h'). destruct (checkpoint_loop n _ h') as [[[st2 e2] h2]|]; [|done].
      unfold host_stop in *. simpl in IH. by rewrite He in IH.
    - simpl. split; [done|]. right. right; right. exists f, st, h0. by rewrite Efs. }
  destruct (match should_interrupt e with Some f => f h | None => (false, h) end) as [b h1].
  destruct b; [apply Hpause; [done|by left]|]. destruct (fuel_limited e); [|by auto].
  destruct (fuel_remaining e =? 0); [apply Hpause; [done|by right; left]|]. by auto.
Qed.

(** A budget that cannot be renewed. *)
Definition limited (k : Z) (x : istate) : Prop :=
  exists e, i_execution x = Some e /\ fuel_limited e = true /\ suspend e = None /\ fuel_remaining e = k.

Lemma checkpoint_limited k x : (1 <= suspensions)%nat -> limited k x ->
  (exists st x', turbowasm_execution_checkpoint suspensions x = (inl (Returned st), x')) \/
  (exists x', turbowasm_execution_checkpoint suspensions x = (inr tt, x') /\ k <> 0 /\ limited (k - 1) x').
Proof.
  intros Hn (e & He & Hl & Hs & Hk). unfold turbowasm_execution_checkpoint. rewrite He.
  destruct suspensions as [|n]; [lia|]. cbn [checkpoint_loop]. rewrite Hs, Hl.
  destruct (match should_interrupt e with Some f => f _ | None => (false, _) end) as [b h1].
  destruct b; [left; by eexists _, _|]. destruct (Z.eqb_spec (fuel_remaining e) 0); [left; by eexists _, _|].
  right. eexists. split; [reflexivity|]. split; [lia|]. eexists. split; [reflexivity|]. simpl. by rewrite Hk.
Qed.

(** The results. *)
Context (gc : option turbowasm_store_impl) (foreign : ptr -> Z -> option nat -> bool).

Lemma keeps_results ts : forall acc, keeps_execution (pop_results H ctx inst gc foreign ts acc).
Proof. induction ts as [|t ts IH]; intros acc; cbn [pop_results]; keeps_tac; by apply IH. Qed.

Lemma count_keeps : keeps_execution (x ← iget;
  _ ← iguard (negb (i_finished x)) TURBOWASM_MALFORMED_MODULE;
  _ ← iguard ((negb (i_returned x) && negb (stack_size (i_stack x) =? result_count type)) ||
              (i_returned x && (stack_size (i_stack x) <? result_count type))) TURBOWASM_MALFORMED_MODULE;
  pop_results H ctx inst gc foreign (reverse (result_semantics type)) []).
Proof. do 3 (apply keeps_bind; [auto with keeps|intros ?]). apply keeps_results. Qed.

Abbreviation loop := (exec_loop buf H ctx F inst realloc_ok sizeof_value sizeof_frame suspensions).

(** The model ends only at an instruction outside of it. *)
Lemma loop_outside n : forall (x : istate) op, fst (loop n x) = inl (NotModelled op) -> outside_model op = true.
Proof.
  induction n as [|n IH]; intros x op; cbn [exec_loop]; [done|]. unfold mbind, im_bind, iget. destruct (_ || _); [done|].
  unfold exec_round. unfold mbind, im_bind, turbowasm_execution_checkpoint.
  destruct (i_execution x) as [e|]; [destruct (checkpoint_loop _ _ _) as [[[[] ?] ?]|]; try done|].
  all: match goal with |- context [idecode _ ?y] => destruct (keeps_decode (turbowasm_reader_u8 buf) y) as [_ Hd]; destruct (idecode _ y) as [[stop|o] x1] end;
    [by destruct stop; try done; intros [= <-]|].
  all: destruct (dispatch_keeps o x1) as [_ Ho]; destruct (exec_dispatch _ _ _ _ _ _ _ _ o x1) as [[stop|[]] x2]; [by destruct stop; try done; intros [= <-]|apply IH].
Qed.

Lemma keeps_limited {A} (m : im A) k x : keeps_execution m -> limited k x -> limited k (snd (m x)).
Proof. intros Hm. unfold limited. by destruct (Hm x) as [-> _]. Qed.

(** The loop has the same result with any number of rounds above the budget. *)
Lemma loop_limited k : (1 <= suspensions)%nat -> forall x, limited (Z.of_nat k) x ->
  exists r x', settled r /\ forall n, (k < n)%nat -> loop n x = (r, x').
Proof.
  intros Hsus. induction k as [|k IH]; intros x Hx.
  all: destruct ((turbowasm_reader_remaining (i_reader x) =? 0) || i_finished x) eqn:Estop;
    [exists (inr tt), x; split; [done|]; intros [|n] Hn; [lia|]; cbn [exec_loop]; unfold mbind, im_bind, iget; by rewrite Estop|].
  all: destruct (checkpoint_limited _ _ Hsus Hx) as [(st & x' & Ec)|(x' & Ec & Hk & Hx')];
    [exists (inl (Returned st)), x'; split; [done|]; intros [|n] Hn; [lia|]; cbn [exec_loop]; unfold exec_round, mbind, im_bind, iget;
     by rewrite Estop, Ec|].
  { lia. }
  replace (Z.of_nat (S k) - 1) with (Z.of_nat k) in Hx' by lia.
  set (m := (opcode ← idecode (turbowasm_reader_u8 buf);
             exec_dispatch buf H ctx F inst realloc_ok sizeof_value sizeof_frame opcode) : im unit).
  assert (Hm : keeps_execution m) by (apply keeps_bind; [apply keeps_decode|intros; apply dispatch_keeps]).
  assert (Hstep : forall n, loop (S n) x = match m x' with (inl h, x2) => (inl h, x2) | (inr _, x2) => loop n x2 end).
  { intros n. cbn [exec_loop]. unfold exec_round, m. unfold mbind, im_bind, iget. rewrite Estop, Ec.
    destruct (idecode _ x') as [[h|op] x3]; [done|]. by destruct (exec_dispatch _ _ _ _ _ _ _ _ op x3) as [[h|[]] x4]. }
  pose proof (keeps_limited m _ _ Hm Hx') as Hx2. destruct (Hm x') as [_ Hset]. destruct (m x') as [[h|u] x2].
  - exists (inl h), x2. split; [by destruct h|]. intros [|n] Hn; [lia|]. by rewrite Hstep.
  - destruct (IH x2 Hx2) as (r & x3 & Hr & Hl). exists r, x3. split; [done|]. intros [|n] Hn; [lia|]. rewrite Hstep. apply Hl. lia.
Qed.

(** ** The call *)

(** The same result with any number of rounds above the budget. *)
Definition bounded {A} (k : nat) (m : nat -> im A) (x : istate) : Prop :=
  exists r x', settled r /\ forall n, (k < n)%nat -> m n x = (r, x').

Lemma bounded_keeps {A} k (m : im A) x : keeps_execution m -> bounded k (fun _ => m) x.
Proof. intros Hm. exists (fst (m x)), (snd (m x)). split; [apply Hm|]. intros n _. apply surjective_pairing. Qed.

Lemma bounded_after {A B} k (m : im A) (f : A -> nat -> im B) x : keeps_execution m -> limited (Z.of_nat k) x ->
  (forall a x', limited (Z.of_nat k) x' -> bounded k (f a) x') -> bounded k (fun n => m ≫= fun a => f a n) x.
Proof.
  intros Hm Hx Hf. pose proof (keeps_limited m _ _ Hm Hx) as Hx'. destruct (Hm x) as [_ Hs].
  unfold bounded, mbind, im_bind. destruct (m x) as [[h|a] x'].
  - exists (inl h), x'. split; [|done]. by destruct h.
  - exact (Hf a x' Hx').
Qed.

Lemma bounded_before {A B} k (m : nat -> im A) (f : A -> im B) x : bounded k m x -> (forall a, keeps_execution (f a)) ->
  bounded k (fun n => m n ≫= f) x.
Proof.
  intros (r & x' & Hr & Hm) Hf. unfold bounded, mbind, im_bind. destruct r as [h|a].
  - exists (inl h), x'. split; [by destruct h|]. intros n Hn. by rewrite (Hm n Hn).
  - destruct (Hf a x') as [_ Hs]. exists (fst (f a x')), (snd (f a x')). split; [done|]. intros n Hn. rewrite (Hm n Hn). apply surjective_pairing.
Qed.

Lemma body_limited k x : (1 <= suspensions)%nat -> limited (Z.of_nat k) x ->
  bounded k (exec_body buf H ctx F type inst realloc_ok sizeof_value sizeof_frame suspensions gc foreign) x.
Proof.
  intros Hsus Hx. unfold exec_body. apply bounded_after; [by apply keeps_update|done|]. intros _ x1 Hx1.
  apply bounded_after; [apply keeps_push_function|done|]. intros _ x2 Hx2.
  apply bounded_before; [by apply loop_limited|]. intros _. apply count_keeps.
Qed.

Lemma call_limited calloc_ok sizeof_source arguments result_capacity depth k : (1 <= suspensions)%nat -> forall x, limited (Z.of_nat k) x ->
  bounded k (turbowasm_exec_function buf H ctx F type inst realloc_ok sizeof_value sizeof_frame suspensions gc foreign calloc_ok sizeof_source
    arguments result_capacity depth) x.
Proof.
  intros Hsus x Hx. unfold turbowasm_exec_function. cbv zeta. destruct (_ >=? _); [apply bounded_keeps, keeps_trap|].
  do 8 (apply bounded_after; [auto with keeps|done|]; intros ? ? ?). apply bounded_after; [by apply keeps_update|done|]. intros ? ? ?.
  by apply body_limited.
Qed.

End Loop.
End Fuel.

(** C9. With a fuel limit and nothing to renew it, a call does not run on: whatever the
    code, after at most as many instructions as there is fuel the interpreter has ended
    with a status or its results, or has reached one of the listed instructions outside
    the model; allowing more rounds of its loop does not change that. *)
Theorem fuel_bounds_execution {host} buf H ctx F type inst realloc_ok sizeof_value sizeof_frame suspensions gc foreign calloc_ok sizeof_source
    arguments result_capacity depth k (x : @istate host) :
  (1 <= suspensions)%nat -> limited (Z.of_nat k) x ->
  exists r x', (definite r \/ exists op, r = inl (NotModelled op) /\ outside_model op = true) /\
    forall n, (k < n)%nat ->
      turbowasm_exec_function buf H ctx F type inst realloc_ok sizeof_value sizeof_frame suspensions gc foreign calloc_ok sizeof_source
        arguments result_capacity depth n x = (r, x').
Proof.
  intros Hsus Hx.
  destruct (call_limited buf H ctx F type inst realloc_ok sizeof_value sizeof_frame suspensions gc foreign calloc_ok sizeof_source
    arguments result_capacity depth k Hsus x Hx) as (r & x' & Hr & Hn).
  exists r, x'. split; [|exact Hn]. destruct r as [[]|]; simpl in Hr; eauto.
Qed.

(** ** Witnesses *)

(** An endless loop, [loop br 0 end end], with five units of fuel. *)
Definition spin_code : list Z := [0x03; 0x40; 0x0c; 0x00; 0x0b; 0x0b].
Definition spin_function : turbowasm_validation_function :=
  mk_function 0 false [] [] (Some 0) 6 [mk_control VALIDATION_CONTROL_LOOP 0 2 UINT32_MAX 4 UINT32_MAX 0 []] 1.
Definition spin_type : turbowasm_validation_func_type :=
  mk_func_type true [] [] [] [] TYPE_FUNCTION [] true UINT32_MAX None (Some 0%nat) 1 0 0 (Some 0%nat).
Definition spin_context : turbowasm_validation_context :=
  mk_context (mk_types 0 1 false) empty_vec empty_vec empty_vec empty_vec empty_vec
    empty_vec empty_vec empty_vec empty_vec None false 0.
Definition spin_call : @istate unit :=
  mk_istate (Memory.Memory.mk_machine (mk_reader None None) (mk_exec (mk_stack [] 0) TRAP_NONE) []) (mk_controls [] 0)
    [] false false (Some (mk_execution 5 true None None)) tt.

Abbreviation spin n := (turbowasm_exec_function spin_code [spin_type] spin_context spin_function spin_type 0 (fun _ => true) 32 64 1 None
  (fun _ _ _ => false) (fun _ => true) 32 [] 0 0 n spin_call).

Lemma spin_exhausts : fst (spin 6) = inl (Returned TURBOWASM_FUEL_EXHAUSTED).
Proof. vm_compute. reflexivity. Qed.

Lemma fuel_bounds_execution_witness : limited 5 spin_call /\ exists x', forall n, (5 < n)%nat ->
  spin n = (inl (Returned TURBOWASM_FUEL_EXHAUSTED), x').
Proof.
  assert (Hl : limited (Z.of_nat 5) spin_call) by (eexists; split; [reflexivity|done]). split; [exact Hl|].
  destruct (fuel_bounds_execution spin_code [spin_type] spin_context spin_function spin_type 0 (fun _ => true) 32 64 1 None
    (fun _ _ _ => false) (fun _ => true) 32 [] 0 0 5 spin_call ltac:(lia) Hl) as (r & x' & _ & Hr).
  exists x'. intros n Hn. rewrite (Hr n Hn). pose proof spin_exhausts as Hs. rewrite (Hr 6%nat) in Hs by lia. simpl in Hs. by rewrite Hs.
Defined.

End InterpFuel.
