(* ===== verification/InterpSim.v ===== *)
(** * Validator and interpreter in lockstep

    The relation between a state of the validator in reachable code and a state
    of the interpreter at the same place: the same reader, operands of the kinds
    the type stack says, corresponding frames. [lock m h] says that the
    interpreter's [h] follows the validator's [m]: when [m] accepts, [h] goes on
    in a related state, or stops with a trap or for lack of memory. The rules
    follow the two programs statement by statement. *)

From S2P Require Import Prelude Reader Value Types TypeEq TypeReader Context ExecStack Numeric Memory.
From S2P Require Import Validator ValidatorSteps ValidatorFrames InterpBlocks Interp.

Module InterpSim.
Import Interp Reader Value Types TypeEq TypeReader ExecStack Numeric Context Validator ValidatorSteps ValidatorFrames
  InterpBlocks.

(** ** Values and types *)

Definition typed (v : turbowasm_value) (ty : turbowasm_validation_value_type) : Prop :=
  valid ty /\ value_kind v = turbowasm_kind_from_valtype (carrier ty).

Lemma face_carrier a b : face a = face b -> carrier a = carrier b.
Proof. by intros [= ? ?]. Qed.

Lemma typed_face v a b : face a = face b -> typed v a -> typed v b.
Proof. unfold typed, valid. by intros [= -> ->]. Qed.

Lemma faces_carriers l l' : map face l = map face l' -> map carrier l = map carrier l'.
Proof.
  revert l'. induction l as [|a l IH]; intros [|b l']; try done. intros [= Ha Hb Hl]. simpl. by rewrite Ha, (IH l').
Qed.

Lemma typed_faces vs l l' : map face l = map face l' -> Forall2 typed vs l -> Forall2 typed vs l'.
Proof.
  intros E HF. revert l' E. induction HF as [|v a vs l Hv _ IH]; intros [|b l'] E; try discriminate E; [constructor|].
  injection E as Ha Hb Hl. constructor; [|by apply IH]. eapply typed_face; [|done]. unfold face. congruence.
Qed.

Lemma valid_not_any ty : valid ty -> (carrier ty =? TW_ANY) = false.
Proof. intros [Hv _]. destruct (Z.eqb_spec (carrier ty) TW_ANY) as [E|]; [|done]. by rewrite E in Hv. Qed.

Lemma valid_kind ty : valid ty -> turbowasm_kind_from_valtype (carrier ty) <> TURBOWASM_VALUE_ZERO.
Proof.
  intros [Hv _]. revert Hv.
  unfold turbowasm_instr_valtype, TW_I32, TW_I64, TW_F32, TW_F64, TW_V128, TW_FUNCREF, TW_EXTERNREF, TW_EXNREF.
  rewrite !orb_true_iff, !Z.eqb_eq. intros Hc. repeat (destruct Hc as [Hc|Hc]; [|by rewrite Hc]). by rewrite Hc.
Qed.

(** References are values of the four reference kinds. *)
Lemma typed_reference v ty : typed v ty -> is_reference ty = true ->
  exists b, turbowasm_reference_is_null v = Some b.
Proof.
  intros [[_ Hr] Hk] Hi. rewrite Hi in Hr. symmetry in Hr. revert Hk. unfold reference_carrier in Hr.
  rewrite !orb_true_iff, !Z.eqb_eq in Hr. destruct Hr as [[[->| ->]| ->]| ->]; destruct v; simpl; try discriminate; eauto.
Qed.

Lemma typed_matches v ty : typed v ty -> turbowasm_value_matches_type v (carrier ty) = true.
Proof.
  intros [Hv Hk]. unfold turbowasm_value_matches_type. rewrite Hk.
  rewrite (bool_decide_eq_true_2 (_ <> _)) by (by apply valid_kind). by rewrite bool_decide_eq_true_2.
Qed.

(** Operands that match types carry values of those types. *)
Definition accepted (H : type_heap) (a ty : turbowasm_validation_value_type) : Prop :=
  (carrier a =? TW_ANY) || value_matches H a ty = true.

Lemma accepted_typed H v a ty : accepted H a ty -> typed v a -> face a = face ty /\ typed v ty.
Proof.
  intros Ha Ht. unfold accepted in Ha. rewrite valid_not_any in Ha by apply Ht. simpl in Ha.
  apply value_matches_face in Ha. split; [done|]. by eapply typed_face.
Qed.

Lemma accepted_list H vs l ts : Forall2 (accepted H) l ts -> Forall2 typed vs l ->
  Forall2 typed vs ts /\ map face l = map face ts.
Proof.
  intros HF. revert vs. induction HF as [|a ty l ts Ha _ IH]; intros vs Hv; inversion Hv; subst; [by split|].
  destruct (IH _ ltac:(done)) as [IH1 IH2]. destruct (accepted_typed _ _ _ _ Ha ltac:(done)) as [Hc Ht].
  split; [by constructor|]. simpl. by f_equal.
Qed.

Lemma typed_list_check vs ts : Forall2 typed vs ts -> check_types vs (map carrier ts) = TURBOWASM_OK.
Proof. induction 1 as [|v ty vs ts Hv _ IH]; [done|]. simpl. by rewrite typed_matches. Qed.

Lemma legacy_typed v c : turbowasm_instr_valtype c = true -> value_kind v = turbowasm_kind_from_valtype c ->
  typed v (turbowasm_validation_value_type_legacy c).
Proof. intros Hc Hk. split; [by apply legacy_valid|]. by rewrite legacy_carrier. Qed.

(** ** Frames *)

Definition exec_kind (k : turbowasm_control_kind) : turbowasm_exec_control_kind :=
  match k with
  | CTRL_FUNCTION => CONTROL_FUNCTION
  | CTRL_BLOCK => CONTROL_BLOCK
  | CTRL_LOOP => CONTROL_LOOP
  | CTRL_IF => CONTROL_IF
  | CTRL_TRY_TABLE => CONTROL_TRY_TABLE
  end.

(** [cs] are the annotations of the function. *)
Record frame_rel (cs : list turbowasm_validation_control) (xf : turbowasm_exec_control_frame)
    (g : turbowasm_control_frame) : Prop := {
  fr_kind : frame_kind xf = exec_kind (ckind g);
  fr_height : height xf = cheight g;
  fr_starts : ckind g <> CTRL_FUNCTION -> turbowasm_exec_frame_start_types xf = map carrier (start_types g);
  fr_ends : turbowasm_exec_frame_end_types xf = map carrier (end_types g);
  fr_ann : ckind g <> CTRL_FUNCTION ->
    exists A, annotation xf = Some A /\ cs !! Z.to_nat (annotation_index g) = Some A
}.

Lemma frame_rel_else cs xf g : frame_rel cs xf g -> frame_rel cs xf (with_else_seen g).
Proof. by intros []. Qed.

Lemma frame_rel_labels cs xf g : frame_rel cs xf g ->
  label_types xf = map carrier (turbowasm_control_label_types g).
Proof.
  intros Hr. unfold label_types, turbowasm_control_label_types. rewrite (fr_kind _ _ _ Hr).
  destruct (decide (ckind g = CTRL_LOOP)) as [Hk|Hk].
  - rewrite Hk, !bool_decide_eq_true_2 by done. apply (fr_starts _ _ _ Hr). by rewrite Hk.
  - rewrite !bool_decide_eq_false_2; [apply Hr|done|]. by destruct (ckind g).
Qed.

(** ** Related states *)

(** Why an instruction of an accepted body may stop. *)
Definition benign (st : turbowasm_status) : Prop := st = TURBOWASM_TRAPPED \/ st = TURBOWASM_OUT_OF_MEMORY.

Section Sim.
Context {host : Type}.
Context (buf : list Z) (H : type_heap) (ctx ictx : turbowasm_validation_context).
Context (vrealloc vmalloc : Z -> bool) (sem : list turbowasm_validation_value_type).
Context (F : turbowasm_validation_function) (inst : nat) (realloc_ok : Z -> bool) (sizeof_value sizeof_frame : Z).
Abbreviation istate := (@istate host).
Abbreviation im := (@im host).

(** The memories of the instance are the ones the module declares. *)
Record mem_ok (w : Memory.store) : Prop := {
  mo_wf : Memory.Memory.store_wf w;
  mo_declared : forall i m, 0 <= i -> at_index (memories ctx) i = Some m ->
    exists instance vm loc mem, w !! inst = Some instance /\
      Memory.Memory.validation_memories instance !! Z.to_nat i = Some vm /\
      Memory.Memory.v_memory64 vm = vm_memory64 m /\ Memory.Memory.memory_locate w inst i = inr (loc, mem)
}.

(** What does not depend on the place in the code. *)
Record rest (x : istate) : Prop := {
  re_locals : Forall2 typed (i_locals x) sem;
  re_store : mem_ok (Memory.Memory.m_store (i_machine x));
  re_finished : i_finished x = false;
  re_returned : i_returned x = false;
  re_depth : controls_size (i_controls x) <= UINT32_MAX
}.

Record core (x : istate) (s : vstate) : Prop := {
  co_reader : i_reader x = v_reader s;
  co_live : unreachable (v_stack s) = false;
  co_parents : Forall (fun g => parent_unreachable g = false) (cframes (v_controls s));
  co_stack : Forall2 typed (values (i_stack x)) (tvalues (v_stack s));
  co_frames : Forall2 (frame_rel (controls_of F)) (frames (i_controls x)) (cframes (v_controls s));
  co_rest : rest x
}.

(** An outcome of the interpreter that is related to the validator's. *)
Definition outcome {B} (r : (halt + B) * istate) (Q : B -> istate -> Prop) : Prop :=
  match r with
  | (inl (Returned st), _) => benign st
  | (inl _, _) => True
  | (inr b, x') => Q b x'
  end.

Definition lock {A B} (R : A -> B -> Prop) (m : vm A) (h : im B) : Prop :=
  forall s x a s', core x s -> m s = (inr a, s') -> outcome (h x) (fun b x' => core x' s' /\ R a b).

Definition any {A B} (_ : A) (_ : B) : Prop := True.

Lemma outcome_impl {B} (r : (halt + B) * istate) (Q Q' : B -> istate -> Prop) :
  outcome r Q -> (forall b x, Q b x -> Q' b x) -> outcome r Q'.
Proof. destruct r as [[[]|b] x]; simpl; auto. Qed.

Lemma outcome_bind {A B} (h : im A) (k : A -> im B) x (Q : B -> istate -> Prop) :
  outcome (h x) (fun a x' => outcome (k a x') Q) -> outcome ((h ≫= k) x) Q.
Proof. unfold mbind, im_bind. by destruct (h x) as [[[]|a] x']. Qed.

Lemma lock_weaken {A B} (R R' : A -> B -> Prop) m h : lock R m h -> (forall a b, R a b -> R' a b) -> lock R' m h.
Proof. intros Hl HR s x a s' Hc E. eapply outcome_impl; [by eapply Hl|]. intros b x' [? ?]. auto. Qed.

Lemma lock_ext {A B} (R : A -> B -> Prop) m h h' : (forall x, h' x = h x) -> lock R m h -> lock R m h'.
Proof. intros He Hl s x a s' Hc E. rewrite He. by eapply Hl. Qed.

Lemma lock_assoc {A B C D} (R : C -> D -> Prop) (m : vm A) (k : A -> vm B) (k' : B -> vm C) h :
  lock R (a ← m; b ← k a; k' b) h -> lock R (b ← (a ← m; k a); k' b) h.
Proof.
  intros Hl s x c s' Hc E. eapply Hl; [done|]. revert E. unfold mbind, vm_bind. by destruct (m s) as [[]].
Qed.

Lemma lock_bind {A B A' B'} (R : A -> A' -> Prop) (Q : B -> B' -> Prop) m h (k : A -> vm B) (k' : A' -> im B') :
  lock R m h -> (forall a a', R a a' -> lock Q (k a) (k' a')) -> lock Q (m ≫= k) (h ≫= k').
Proof.
  intros Hm Hk s x b s' Hc E. apply bind_inv in E as (a & s1 & E1 & E). apply outcome_bind.
  eapply outcome_impl; [by eapply Hm|]. intros a' x' [Hc' HR]. by eapply Hk.
Qed.

Lemma lock_ret {A B} (R : A -> B -> Prop) a b : R a b -> lock R (mret a) (mret b).
Proof. intros HR s x a' s' Hc [= <- <-]. done. Qed.

(** A step of the validator that reads its state only. *)
Lemma lock_left {A B C} (P : A -> Prop) (R : B -> C -> Prop) (m : vm A) (k : A -> vm B) h :
  (forall s a s', m s = (inr a, s') -> s' = s /\ P a) -> (forall a, P a -> lock R (k a) h) -> lock R (m ≫= k) h.
Proof.
  intros Hm Hk s x b s' Hc E. apply bind_inv in E as (a & s1 & E1 & E). destruct (Hm _ _ _ E1) as [-> HP].
  by eapply Hk.
Qed.

(** A step of the interpreter that leaves its state alone, or stops. *)
Definition silent {B} (h : im B) (P : B -> Prop) : Prop :=
  forall x, rest x -> outcome (h x) (fun b x' => x' = x /\ P b).

Lemma lock_right {A B C} (P : B -> Prop) (R : A -> C -> Prop) (m : vm A) (h : im B) k :
  silent h P -> (forall b, P b -> lock R m (k b)) -> lock R m (h ≫= k).
Proof.
  intros Hh Hk s x a s' Hc E. apply outcome_bind. eapply outcome_impl; [apply Hh, Hc|].
  intros b x' [-> HP]. by eapply Hk.
Qed.

Lemma lock_reject {B C} (R : B -> C -> Prop) b (k : unit -> vm B) h :
  (b = false -> lock R (k tt) h) -> lock R (reject_if b ≫= k) h.
Proof.
  intros Hk. apply (lock_left (fun _ => b = false)); [|intros []; done].
  intros s [] s' E. by vm_inv.
Qed.

Lemma lock_need {A B C} (R : B -> C -> Prop) (o : option A) (k : A -> vm B) h :
  (forall a, o = Some a -> lock R (k a) h) -> lock R (need o ≫= k) h.
Proof.
  intros Hk. apply (lock_left (fun a => o = Some a)); [|done]. intros s a s' E. by vm_inv.
Qed.

Lemma lock_get {B C} (R : B -> C -> Prop) (k : vstate -> vm B) h :
  (forall s, lock R (k s) h) -> lock R (get ≫= k) h.
Proof. intros Hk. apply (lock_left (fun _ => True)); [|auto]. intros s a s' E. by vm_inv. Qed.

Lemma lock_iguard {A C} (R : A -> C -> Prop) (m : vm A) b st k :
  b = false -> lock R m (k tt) -> lock R m (iguard b st ≫= k).
Proof. intros -> Hk. apply (lock_right (fun _ => True)); [|by intros []]. intros x _. done. Qed.

Lemma lock_ineed {A B C} (R : A -> C -> Prop) (m : vm A) (o : option B) (b : B) st k :
  o = Some b -> lock R m (k b) -> lock R m (ineed o st ≫= k).
Proof. intros -> Hk. apply (lock_right (fun b' => b' = b)); [intros x _; done|by intros ? ->]. Qed.

Lemma lock_iget {A C} (R : A -> C -> Prop) (m : vm A) (k : istate -> im C) :
  (forall x, rest x -> lock R m (k x)) -> lock R m (iget ≫= k).
Proof. intros Hk. apply (lock_right rest); [intros x Hx; done|done]. Qed.

(** Updates that the relation does not see. *)
Lemma lock_update {A C} (R : A -> C -> Prop) f (k : unit -> vm A) (h : im C) :
  (forall x s, core x s -> core x (f s)) -> lock R (k tt) h -> lock R (update f ≫= k) h.
Proof.
  intros Hf Hk s x b s' Hc E. apply bind_inv in E as ([] & s1 & E1 & E). apply update_inv in E1 as ->.
  by eapply Hk; [apply Hf|].
Qed.

Lemma lock_iupdate {A C} (R : A -> C -> Prop) f (m : vm A) (k : unit -> im C) :
  (forall x s, core x s -> core (f x) s) -> lock R m (k tt) -> lock R m (iupdate f ≫= k).
Proof. intros Hf Hk s x b s' Hc E. apply outcome_bind. simpl. by eapply Hk; [apply Hf|]. Qed.

(** ** Reading *)

Lemma core_reader x s r : core x s -> core (Interp.set_reader r x) (set_reader r s).
Proof. intros [H1 H2 H3 H4 H5 [R1 R2 R3 R4 R5]]. by constructor. Qed.

Lemma lock_lift {A B} (R : A -> B -> Prop) (p : parse A) (q : parse B) :
  (forall r a r', p r = (inr a, r') -> exists b, q r = (inr b, r') /\ R a b) -> lock R (lift p) (iparse q).
Proof.
  intros Hq s x a s' Hc (r & Er & ->)%lift_inv. unfold iparse. rewrite (co_reader _ _ Hc).
  destruct (Hq _ _ _ Er) as (b & -> & HR). split; [by apply core_reader|done].
Qed.

Lemma lock_decode {A} (d : turbowasm_reader -> option A * turbowasm_reader) :
  lock eq (lift (decode d)) (idecode d).
Proof. apply lock_lift. intros r a r' E. by exists a. Qed.

Lemma lock_uleb32 : lock eq (uleb32 buf) (idecode (turbowasm_reader_uleb32 buf)).
Proof. apply lock_decode. Qed.

(** ** The operand stack *)

Lemma core_stack x s vs cap ts tcap : core x s -> Forall2 typed vs ts ->
  core (Interp.set_stack (mk_stack vs cap) x)
    (set_stack (mk_tstack ts tcap (floor (v_stack s)) (unreachable (v_stack s))) s).
Proof. intros [H1 H2 H3 H4 H5 [R1 R2 R3 R4 R5]] Hv. by constructor. Qed.

Lemma pop_top vs v cap : ExecStack.turbowasm_stack_pop (mk_stack (vs ++ [v]) cap) = (TURBOWASM_OK, mk_stack vs cap, Some v).
Proof. unfold ExecStack.turbowasm_stack_pop. simpl. rewrite reverse_snoc. by rewrite reverse_involutive. Qed.

Lemma core_top x s ts a : core x s -> tvalues (v_stack s) = ts ++ [a] ->
  exists vs v, i_stack x = mk_stack (vs ++ [v]) (stack_capacity (i_stack x)) /\ Forall2 typed vs ts /\ typed v a.
Proof.
  intros Hc Ht. pose proof (co_stack _ _ Hc) as Hv. rewrite Ht in Hv.
  apply Forall2_app_inv_r in Hv as (vs & l & Hvs & Hl & E). inversion Hl as [|v ? ? ? Hva Hnil]; subst.
  inversion Hnil; subst. exists vs, v. split_and!; [|done..]. destruct (i_stack x); simpl in *. by rewrite E.
Qed.

Lemma core_popped x s ts vs cap : core x s -> Forall2 typed vs ts ->
  core (Interp.set_stack (mk_stack vs cap) x) (popped ts s).
Proof. intros Hc Hv. by apply core_stack. Qed.

Lemma lock_pop_any : lock (fun a v => typed v a) turbowasm_stack_pop_any_semantic ipop.
Proof.
  intros s x a s' Hc E. destruct (pop_any_inv _ _ _ E) as (_ & [(_ & Hu & _)|(ts & Ht & _ & ->)]).
  { rewrite (co_live _ _ Hc) in Hu. done. }
  destruct (core_top _ _ _ _ Hc Ht) as (vs & v & Hs & Hvs & Hv). unfold ipop. rewrite Hs, pop_top.
  split; [|done]. by apply core_popped.
Qed.

Lemma ipop_kind_snoc (x : istate) vs v k : i_stack x = mk_stack (vs ++ [v]) (stack_capacity (i_stack x)) -> value_kind v = k ->
  ipop_kind k x = (inr v, Interp.set_stack (mk_stack vs (stack_capacity (i_stack x))) x).
Proof.
  intros Hs Hk. unfold ipop_kind, on_stack, on_machine, Memory.Memory.on_exec, pop_kind.
  change (x_stack (Memory.Memory.m_exec (i_machine x))) with (i_stack x).
  unfold turbowasm_stack_pop_kind. rewrite Hs, pop_top. by rewrite bool_decide_eq_true_2.
Qed.

Lemma lock_pop_actual ty : valid ty ->
  lock (fun a v => typed v ty /\ face a = face ty)
    (turbowasm_stack_pop_semantic_actual H ty) (ipop_kind (turbowasm_kind_from_valtype (carrier ty))).
Proof.
  intros Hty s x a s' Hc E. destruct (pop_actual_inv _ _ _ _ _ E) as (ts & -> & _ & Hl).
  destruct (Hl (co_live _ _ Hc)) as (Ht & _ & Ha). destruct (core_top _ _ _ _ Hc Ht) as (vs & v & Hs & Hvs & Hv).
  destruct (accepted_typed _ _ _ _ Ha Hv) as [Hcar Hv']. rewrite (ipop_kind_snoc _ vs v) by (done || apply Hv').
  split; [|done]. by apply core_popped.
Qed.

(** A value popped without a check of its kind. *)
Lemma lock_pop_value ty : lock (fun _ v => typed v ty) (turbowasm_stack_pop_semantic H ty) ipop.
Proof.
  intros s x u s' Hc E. unfold turbowasm_stack_pop_semantic in E. vm_inv.
  destruct (pop_actual_inv _ _ _ _ _ E0) as (ts & -> & _ & Hl).
  destruct (Hl (co_live _ _ Hc)) as (Ht & _ & Ha). destruct (core_top _ _ _ _ Hc Ht) as (vs & v & Hs & Hvs & Hv).
  unfold ipop. rewrite Hs, pop_top. destruct (accepted_typed _ _ _ _ Ha Hv) as [_ Hv'].
  split; [|done]. by apply core_popped.
Qed.

Lemma lock_pop ty : valid ty ->
  lock (fun _ v => typed v ty) (turbowasm_stack_pop_semantic H ty) (ipop_kind (turbowasm_kind_from_valtype (carrier ty))).
Proof.
  intros Hty s x u s' Hc E. unfold turbowasm_stack_pop_semantic in E. vm_inv.
  eapply outcome_impl; [by eapply lock_pop_actual|]. intros v x' [? [? ?]]. done.
Qed.

Lemma lock_pop_carrier c k : turbowasm_instr_valtype c = true -> turbowasm_kind_from_valtype c = k ->
  lock (fun _ v => value_kind v = k) (turbowasm_stack_pop H c) (ipop_kind k).
Proof.
  intros Hc <-. unfold turbowasm_stack_pop. eapply lock_weaken.
  - replace (turbowasm_kind_from_valtype c) with
      (turbowasm_kind_from_valtype (carrier (turbowasm_validation_value_type_legacy c))) by (by rewrite legacy_carrier).
    apply lock_pop. by apply legacy_valid.
  - intros u v [_ Hv]. by rewrite legacy_carrier in Hv.
Qed.

Lemma stack_push_cases s v :
  ExecStack.turbowasm_stack_push realloc_ok sizeof_value s v = (TURBOWASM_OUT_OF_MEMORY, s) \/
  exists cap, ExecStack.turbowasm_stack_push realloc_ok sizeof_value s v = (TURBOWASM_OK, mk_stack (values s ++ [v]) cap).
Proof.
  unfold ExecStack.turbowasm_stack_push. destruct (_ =? UINT32_MAX); [by left|].
  unfold ExecStack.turbowasm_stack_reserve. destruct (reserve _ _ _ _ _) as [cap|]; [right|by left]. by exists cap.
Qed.

Lemma lock_push ty v : typed v ty ->
  lock any (turbowasm_stack_push_semantic vrealloc ty) (ipush realloc_ok sizeof_value v).
Proof.
  intros Hv s x u s' Hc E. destruct (push_inv _ _ _ _ _ E) as (tcap & -> & _).
  unfold ipush, on_stack, on_machine, Memory.Memory.on_exec, push.
  change (x_stack (Memory.Memory.m_exec (i_machine x))) with (i_stack x).
  destruct (stack_push_cases (i_stack x) v) as [->|[cap ->]]; [by right|].
  split; [|done]. apply core_stack; [done|]. apply Forall2_app; [apply Hc|by constructor].
Qed.

Lemma lock_push_carrier c v : turbowasm_instr_valtype c = true -> value_kind v = turbowasm_kind_from_valtype c ->
  lock any (turbowasm_stack_push vrealloc c) (ipush realloc_ok sizeof_value v).
Proof. intros Hc Hv. apply lock_push. by apply legacy_typed. Qed.

End Sim.

End InterpSim.
