(* ===== verification/InterpData.v ===== *)
(** * The instructions without control flow, in lockstep

    Every modelled instruction that neither branches nor opens a frame follows
    the validator's case for it. *)

From S2P Require Import Prelude Reader Value Types TypeEq TypeReader Context ExecStack Numeric Memory.
From S2P Require Import Validator ValidatorSteps ValidatorFrames InterpBlocks Interp InterpSim.

Module InterpData.
Import Interp Reader Value Types TypeEq TypeReader ExecStack Numeric Context Validator ValidatorSteps ValidatorFrames
  InterpBlocks InterpSim.

Section Data.
Context {host : Type}.
Context (buf : list Z) (H : type_heap) (ctx ictx : turbowasm_validation_context).
Context (vrealloc vmalloc : Z -> bool) (sem : list turbowasm_validation_value_type).
Context (F : turbowasm_validation_function) (inst : nat) (realloc_ok : Z -> bool) (sizeof_value sizeof_frame : Z).
Abbreviation istate := (@istate host).
Abbreviation im := (@im host).
Abbreviation lock := (@lock host ctx sem F inst _ _).
Abbreviation silent := (@silent host ctx sem inst _).

(** ** Handlers on the operand stack *)

Lemma on_stack_bind {A B} (m : exec A) (k : A -> exec B) (x : istate) :
  on_stack (m ≫= k) x = (on_stack m ≫= fun a => on_stack (k a)) x.
Proof.
  unfold on_stack, on_machine, Memory.Memory.on_exec, mbind, im_bind, exec_bind.
  destruct (m (Memory.Memory.m_exec (i_machine x))) as [[st|a] e]; [done|]. simpl. by destruct (k a e) as [[st|b] e'].
Qed.

(** A computation between the operands and the result: it returns or traps. *)
Definition quiet {A} (m : exec A) : Prop :=
  forall e, match m e with (inr _, e') => e' = e | (inl st, _) => benign st end.

Lemma quiet_ret {A} (a : A) : quiet (mret a).
Proof. intros e. done. Qed.
Lemma quiet_trap {A} (t : turbowasm_trap) : quiet (@trap_with A t).
Proof. intros e. by left. Qed.
Lemma quiet_if {A} (b : bool) (m m' : exec A) : quiet m -> quiet m' -> quiet (if b then m else m').
Proof. by destruct b. Qed.

Lemma quiet_switch {A} op (cases : list (Z * exec A)) d :
  Forall (fun c => quiet c.2) cases -> op ∈ cases.*1 -> quiet (switch op cases d).
Proof.
  induction 1 as [|[k m] cs Hm _ IH]; simpl; [by rewrite elem_of_nil|]. rewrite elem_of_cons.
  destruct (Z.eqb_spec op k); [done|]. intros [?|?]; [done|]. by apply IH.
Qed.

Lemma silent_quiet {A} (m : exec A) : quiet m -> silent (on_stack m) (fun _ => True).
Proof.
  intros Hm x _. unfold on_stack, on_machine, Memory.Memory.on_exec. specialize (Hm (Memory.Memory.m_exec (i_machine x))).
  destruct (m _) as [[st|a] e]; simpl; [done|]. subst e. split; [|done]. by destruct x as [[] ? ? ? ? ? ?].
Qed.

Create HintDb quiet.
Hint Resolve quiet_ret quiet_trap quiet_if : quiet.

(** Opcodes in a short range. *)
Lemma between_elem a op n : between a op (a + Z.of_nat n - 1) = true -> op ∈ seqZ a (Z.of_nat n).
Proof. unfold between. intros [?%Z.leb_le ?%Z.leb_le]%andb_true_iff. apply elem_of_seqZ. lia. Qed.

Ltac exec_step := eapply lock_ext; [intros ?; apply on_stack_bind|].
Ltac carrier_step := first [eapply lock_pop_carrier | eapply lock_push_carrier]; reflexivity.
Ltac exec_pop := exec_step; eapply lock_bind; [carrier_step|intros ? ? ?].
Ltac exec_compute :=
  exec_step; eapply lock_right;
  [apply silent_quiet, quiet_switch; [repeat apply Forall_cons_2; [..|apply Forall_nil_2]; simpl; eauto with quiet|]
  |intros ? _].

Lemma lock_i32_binary op : between 0x6a op 0x78 = true ->
  lock any (turbowasm_stack_binary vrealloc H TW_I32 TW_I32) (on_stack (turbowasm_exec_i32_binary realloc_ok sizeof_value op)).
Proof.
  intros Hop. unfold turbowasm_stack_binary, turbowasm_exec_i32_binary. do 2 exec_pop. cbv zeta. exec_compute; [|carrier_step].
  exact (between_elem _ _ 15 Hop).
Qed.

Lemma lock_i64_binary op : between 0x7c op 0x8a = true ->
  lock any (turbowasm_stack_binary vrealloc H TW_I64 TW_I64) (on_stack (turbowasm_exec_i64_binary realloc_ok sizeof_value op)).
Proof.
  intros Hop. unfold turbowasm_stack_binary, turbowasm_exec_i64_binary. do 2 exec_pop. cbv zeta. exec_compute; [|carrier_step].
  exact (between_elem _ _ 15 Hop).
Qed.

Lemma lock_i32_unary op : between 0x67 op 0x69 = true ->
  lock any (turbowasm_stack_unary vrealloc H TW_I32 TW_I32) (on_stack (turbowasm_exec_i32_unary realloc_ok sizeof_value op)).
Proof.
  intros Hop. unfold turbowasm_stack_unary, turbowasm_exec_i32_unary. exec_pop. cbv zeta. exec_compute; [|carrier_step].
  exact (between_elem _ _ 3 Hop).
Qed.

Lemma lock_i64_unary op : between 0x79 op 0x7b = true ->
  lock any (turbowasm_stack_unary vrealloc H TW_I64 TW_I64) (on_stack (turbowasm_exec_i64_unary realloc_ok sizeof_value op)).
Proof.
  intros Hop. unfold turbowasm_stack_unary, turbowasm_exec_i64_unary. exec_pop. cbv zeta. exec_compute; [|carrier_step].
  exact (between_elem _ _ 3 Hop).
Qed.

Lemma lock_i32_eqz :
  lock any (turbowasm_stack_unary vrealloc H TW_I32 TW_I32)
    (on_stack (turbowasm_exec_i32_test_or_compare realloc_ok sizeof_value 0x45)).
Proof. unfold turbowasm_stack_unary, turbowasm_exec_i32_test_or_compare. simpl. exec_pop. carrier_step. Qed.

Lemma lock_i64_eqz :
  lock any (turbowasm_stack_unary vrealloc H TW_I64 TW_I32)
    (on_stack (turbowasm_exec_i64_test_or_compare realloc_ok sizeof_value 0x50)).
Proof. unfold turbowasm_stack_unary, turbowasm_exec_i64_test_or_compare. simpl. exec_pop. carrier_step. Qed.

Lemma lock_i32_compare op : between 0x46 op 0x4f = true ->
  lock any (turbowasm_stack_binary vrealloc H TW_I32 TW_I32)
    (on_stack (turbowasm_exec_i32_test_or_compare realloc_ok sizeof_value op)).
Proof.
  intros Hop. unfold turbowasm_stack_binary, turbowasm_exec_i32_test_or_compare.
  destruct (Z.eqb_spec op 0x45) as [->|]; [done|]. do 2 exec_pop. cbv zeta. exec_compute; [|carrier_step].
  exact (between_elem _ _ 10 Hop).
Qed.

Lemma lock_i64_compare op : between 0x51 op 0x5a = true ->
  lock any (turbowasm_stack_binary vrealloc H TW_I64 TW_I32)
    (on_stack (turbowasm_exec_i64_test_or_compare realloc_ok sizeof_value op)).
Proof.
  intros Hop. unfold turbowasm_stack_binary, turbowasm_exec_i64_test_or_compare.
  destruct (Z.eqb_spec op 0x50) as [->|]; [done|]. do 2 exec_pop. cbv zeta. exec_compute; [|carrier_step].
  exact (between_elem _ _ 10 Hop).
Qed.

(** ** Constants, drop and select *)

Lemma lock_const op : between 0x41 op 0x44 = true ->
  lock any (op_const buf vrealloc op) (exec_const buf realloc_ok sizeof_value op).
Proof.
  intros Hop. apply (between_elem 0x41 op 4) in Hop. change (seqZ 0x41 _) with [0x41; 0x42; 0x43; 0x44] in Hop.
  rewrite !elem_of_cons, elem_of_nil in Hop. destruct Hop as [->|[->|[->|[->|[]]]]]; unfold op_const, exec_const; simpl.
  - eapply lock_bind; [apply lock_decode|intros ? ? _]. carrier_step.
  - eapply lock_bind; [apply lock_decode|intros ? ? _]. carrier_step.
  - eapply (lock_bind _ _ _ _ any); [|intros ? ? _; carrier_step]. apply lock_lift. intros r a r' E.
    unfold decode in *. destruct (turbowasm_reader_slice r 4) as [[b|] r1] eqn:Es; [|done].
    injection E as _ <-. unfold turbowasm_reader_slice in Es. unfold turbowasm_reader_u32le.
    destruct (Z.ltb_spec (turbowasm_reader_remaining r) 4) as [|Hr]; [done|]. injection Es as _ <-.
    unfold turbowasm_reader_remaining in Hr. destruct (cursor r); [|lia]. by eexists.
  - eapply lock_bind; [apply lock_decode|intros ? ? _]. carrier_step.
Qed.

Lemma lock_drop : lock any (_ ← turbowasm_stack_pop_any; mret tt) (_ ← ipop; mret tt).
Proof.
  eapply lock_bind; [|intros ? ? _; by apply lock_ret]. unfold turbowasm_stack_pop_any.
  intros s x a s' Hc E. vm_inv. eapply outcome_impl; [by eapply lock_pop_any|]. intros v x' [Hc' _]. by instantiate (1 := any).
Qed.

Lemma lock_pop_any_carrier : lock (fun c v => turbowasm_instr_valtype c = true /\ value_kind v = turbowasm_kind_from_valtype c)
  turbowasm_stack_pop_any ipop.
Proof.
  unfold turbowasm_stack_pop_any. intros s x a s' Hc E. vm_inv.
  eapply outcome_impl; [by eapply lock_pop_any|]. intros v x' [Hc' [[Hv _] Hk]]. done.
Qed.

Lemma instr_not_any c : turbowasm_instr_valtype c = true -> (c =? TW_ANY) = false.
Proof. destruct (Z.eqb_spec c TW_ANY) as [->|]; [|done]. by vm_compute. Qed.

Lemma select_guard c : turbowasm_instr_valtype c = true ->
  (c =? TW_FUNCREF) || (c =? TW_EXTERNREF) || (c =? TW_EXNREF) || (c =? 0x6e) = false ->
  let k := turbowasm_kind_from_valtype c in
  k <> TURBOWASM_VALUE_FUNCREF /\ k <> TURBOWASM_VALUE_EXTERNREF /\ k <> TURBOWASM_VALUE_EXNREF.
Proof.
  unfold turbowasm_kind_from_valtype, TW_FUNCREF, TW_EXTERNREF, TW_EXNREF. intros _ Hn.
  rewrite !orb_false_iff in Hn. destruct Hn as (((H1 & H2) & H3) & H4). rewrite H1, H2, H3, H4.
  repeat case_match; done.
Qed.

Lemma lock_select : lock any (op_select vrealloc H) (exec_select realloc_ok sizeof_value).
Proof.
  unfold op_select, exec_select. eapply lock_bind; [carrier_step|intros ? c _].
  eapply lock_bind; [apply lock_pop_any_carrier|intros cr vr [Hr Hkr]].
  eapply lock_bind; [apply lock_pop_any_carrier|intros cl vl [Hl Hkl]].
  apply lock_reject. intros Heq. rewrite !instr_not_any in * by done. simpl in Heq. apply negb_false_iff, Z.eqb_eq in Heq. subst cr.
  simpl. apply lock_reject. intros Hn. destruct (select_guard _ Hl Hn) as (N1 & N2 & N3).
  rewrite <- Hkl in N1, N2, N3. apply lock_iguard.
  { rewrite bool_decide_eq_true_2 by congruence. by rewrite !bool_decide_eq_false_2. }
  apply lock_push_carrier; [done|]. by destruct (negb _).
Qed.

Lemma lock_typed_select : same_types ctx ictx ->
  lock any (op_typed_select buf vrealloc H ctx) (exec_typed_select buf H ictx realloc_ok sizeof_value).
Proof.
  intros Hst. unfold op_typed_select, exec_typed_select. eapply lock_bind; [apply lock_uleb32|intros n ? <-].
  apply lock_reject. intros Hn. apply lock_iguard; [done|].
  eapply (lock_bind _ _ _ _ (fun a b => a = b /\ valid a.1)).
  { apply lock_lift. intros r a r' E. exists a. rewrite (read_valtype_same _ _ ctx) by done. split_and!; [done..|].
    by apply read_valtype_valid in E. }
  intros tg ? [<- Hv]. cbv zeta. destruct Hst as [_ <-]. apply lock_reject. intros Hi. apply lock_iguard; [done|].
  apply lock_iguard. { apply bool_decide_eq_false_2. by apply valid_kind. }
  eapply lock_bind; [carrier_step|intros ? c _].
  eapply lock_bind; [by apply lock_pop|intros ? vr Hr]. eapply lock_bind; [by apply lock_pop|intros ? vl Hl].
  apply lock_push. by destruct (negb (as_i32 c =? 0)).
Qed.

(** ** Locals *)

Lemma core_initialize i (x : istate) s : core ctx sem F inst x s -> core ctx sem F inst x (snd (initialize_local i s)).
Proof.
  intros [H1 H2 H3 H4 H5 H6]. unfold initialize_local, update. simpl. destruct (default _ _); by constructor.
Qed.

Lemma lock_local op : local_types F = map carrier sem -> between 0x20 op 0x22 = true ->
  lock any (op_local buf vrealloc H sem op) (exec_local buf F realloc_ok sizeof_value op).
Proof.
  intros HF Hop. unfold op_local, exec_local. eapply lock_bind; [apply lock_uleb32|intros i ? <-].
  apply lock_need. intros ty Hty. rewrite HF, length_map. destruct (Z.geb_spec i (Z.of_nat (length sem))); [done|].
  apply lock_iguard; [done|]. apply lock_get. intros sv. apply lock_reject. intros _. apply lock_iget. intros x0 Hx0.
  destruct (Forall2_lookup_r _ _ _ _ _ (re_locals _ _ _ _ Hx0) Hty) as (old & Hold & Hto).
  eapply lock_ineed; [exact Hold|]. destruct (op =? 0x20) eqn:E20; simpl.
  - apply Z.eqb_eq in E20 as ->. simpl. apply (lock_left _ _ _ _ (fun _ => True)); [intros s a s' E; by vm_inv|intros _ _].
    by apply lock_push.
  - apply lock_assoc. eapply lock_bind; [apply lock_pop_value|intros ? v Hv].
    apply lock_iguard. { rewrite bool_decide_eq_true_2; [done|]. destruct Hv as [_ ->], Hto as [_ ->]. done. }
    apply lock_update; [intros x s Hc; exact (core_initialize i x s Hc)|].
    apply lock_iupdate.
    { intros x s [H1 H2 H3 H4 H5 [R1 R2 R3 R4 R5]]. constructor; try done. constructor; try done. simpl.
      rewrite <- (list_insert_id sem (Z.to_nat i) ty) by done. by apply Forall2_insert. }
    destruct (Z.eqb_spec op 0x21) as [->|]; simpl; [by apply lock_ret|].
    rewrite (proj2 (Z.eqb_eq op 0x22)); [by apply lock_push|].
    apply Z.eqb_neq in E20. unfold between in Hop. rewrite andb_true_iff, !Z.leb_le in Hop. lia.
Qed.

(** ** References *)

(** The two readers of a heap type differ in the null bit only. *)
Lemma read_heaptype_nullable : same_types ctx ictx -> forall r a r',
  turbowasm_validation_read_heaptype buf H (Some (types ctx)) true r = (inr a, r') ->
  exists b, turbowasm_validation_read_heaptype buf H (Some (types ictx)) false r = (inr b, r') /\
    valid a /\ carrier b = carrier a /\ heap_kind b = heap_kind a /\ type_index b = type_index a.
Proof.
  intros Hst r a r' E. pose proof (read_heaptype_valid _ _ _ _ _ _ _ E) as Hv%heaptype_valid.
  rewrite (read_heaptype_same _ _ ctx) by done. revert E.
  unfold turbowasm_validation_read_heaptype, mbind, parse_bind, mret, parse_ret, check, decode, fail.
  destruct (turbowasm_validation_read_s33 buf r) as [[h|] r1]; [|done]. destruct (h >=? 0); simpl.
  - destruct (h >? UINT32_MAX); [done|]. destruct (h >=? _); [done|]. intros [= <- <-]. by eexists.
  - unfold switch. repeat (case_match; [intros [= <- <-]; by eexists|]). done.
Qed.

Lemma null_references c : reference_carrier c = true ->
  (c =? 0x70) || (c =? 0x6f) || (c =? 0x6e) || (c =? 0x69) = true.
Proof. unfold reference_carrier. rewrite !orb_true_iff. tauto. Qed.

Lemma lock_ref_null : same_types ctx ictx ->
  lock any (op_reference buf vrealloc H ctx 0xd0) (exec_ref_null buf H ictx realloc_ok sizeof_value).
Proof.
  intros Hst. unfold op_reference, exec_ref_null. simpl.
  eapply (lock_bind _ _ _ _ (fun a b => valid a /\ is_reference a = true /\ carrier b = carrier a /\
    heap_kind b = heap_kind a /\ type_index b = type_index a)).
  { apply lock_lift. intros r a r' E. pose proof (read_heaptype_valid _ _ _ _ _ _ _ E) as [Hr _].
    destruct (read_heaptype_nullable Hst _ _ _ E) as (b & ? & ? & ? & ? & ?). by exists b. }
  intros a b (Hv & Hr & Hc & Hk & Hi). apply lock_reject. rewrite Hk, Hi, Hc. destruct Hst as [_ <-]. intros Hn.
  apply lock_iguard; [done|]. destruct Hv as [Hv1 Hv2]. rewrite Hr in Hv2. symmetry in Hv2.
  apply null_references in Hv2 as Hn2. rewrite !orb_true_iff in Hn2.
  repeat match goal with |- context [carrier a =? ?n] => destruct (Z.eqb_spec (carrier a) n) as [E|]
    ; [apply lock_push; split; [split; [done|simpl; congruence]|simpl; by rewrite E]|] end.
  destruct Hn2 as [[[?|?]|?]|?]; by rewrite ?Z.eqb_eq in *.
Qed.

Lemma typed_nullable v b a : typed v a -> typed v (with_nullable b a).
Proof. done. Qed.

(** A reference is popped and tested for null. *)
Lemma lock_test_null {A B} (R : A -> B -> Prop) (k : turbowasm_validation_value_type -> vm A) (h : turbowasm_value -> bool -> im B) :
  (forall a v n, typed v a -> turbowasm_reference_is_null v = Some n -> lock R (k a) (h v n)) ->
  lock R (type ← turbowasm_stack_pop_any_semantic;
          _ ← reject_if (negb (carrier type =? TW_ANY) && negb (is_reference type)); k type)
    (v ← ipop; n ← ineed (turbowasm_reference_is_null v) TURBOWASM_TYPE_MISMATCH; h v n).
Proof.
  intros Hk. eapply lock_bind; [apply lock_pop_any|intros a v Hv]. apply lock_reject. intros Hr.
  rewrite valid_not_any in Hr by apply Hv. apply negb_false_iff in Hr.
  destruct (typed_reference _ _ Hv Hr) as [n Hn]. eapply lock_ineed; [exact Hn|]. by apply Hk.
Qed.

Lemma lock_ref_is_null :
  lock any (op_reference buf vrealloc H ctx 0xd1) (exec_ref_is_null realloc_ok sizeof_value).
Proof. apply lock_test_null. intros a v n Hv _. simpl. by apply lock_push_carrier. Qed.

Lemma lock_trap {A B} (R : A -> B -> Prop) m t : lock R m (itrap t).
Proof. intros s x a s' _ _. by left. Qed.

Lemma lock_ref_as_non_null :
  lock any (op_reference buf vrealloc H ctx 0xd4) (exec_ref_branch buf F realloc_ok sizeof_value 0xd4).
Proof.
  apply (lock_test_null any (fun a => turbowasm_stack_push_semantic vrealloc (with_nullable false a))).
  intros a v n Hv _. destruct n; simpl; [apply lock_trap|]. apply (lock_ext _ _ _ _ _ _ (ipush realloc_ok sizeof_value v)); [|by apply lock_push].
  intros x. unfold mbind, im_bind. by destruct (ipush _ _ v x) as [[|[]] ?].
Qed.

Lemma lock_ref_func : count (functions ictx) = count (functions ctx) ->
  lock any (op_reference buf vrealloc H ctx 0xd2) (exec_ref_func buf ictx inst realloc_ok sizeof_value).
Proof.
  intros Hn. unfold op_reference, exec_ref_func. simpl. eapply lock_bind; [apply lock_uleb32|intros i ? <-].
  apply lock_need. intros f Hf. unfold turbowasm_validation_context_function, at_index in Hf.
  rewrite Hn. destruct (i >=? count (functions ctx)) ; [done|]. apply lock_iguard; [reflexivity|].
  apply lock_reject. intros _. by apply lock_push.
Qed.

(** ** Memory *)

Lemma on_machine_bind {A B} (m : Memory.Memory.mexec A) (k : A -> Memory.Memory.mexec B) (x : istate) :
  on_machine (m ≫= k) x = (on_machine m ≫= fun a => on_machine (k a)) x.
Proof.
  unfold on_machine, mbind, im_bind, Memory.Memory.mexec_bind.
  destruct (m (i_machine x)) as [[st|a] e]; [done|]. simpl. by destruct (k a e) as [[st|b] e'].
Qed.

Lemma on_machine_ret {A} (a : A) (x : istate) : on_machine (mret a) x = (mret a : im A) x.
Proof. by destruct x. Qed.

Lemma on_reader_decode {A} d (x : istate) :
  on_machine (Memory.Memory.on_reader d : Memory.Memory.mexec A) x = idecode d x.
Proof.
  unfold on_machine, Memory.Memory.on_reader, idecode, iparse, decode, i_reader, Interp.set_reader.
  by destruct (d (Memory.Memory.m_reader (i_machine x))) as [[a|] r].
Qed.

Lemma lock_number {A} (d : turbowasm_reader -> option A * turbowasm_reader) (P : A -> Prop) :
  (forall r a r', d r = (Some a, r') -> P a) ->
  lock (fun a b => a = b /\ P a) (lift (decode d)) (on_machine (Memory.Memory.on_reader d)).
Proof.
  intros HP. eapply lock_ext; [apply on_reader_decode|]. apply lock_lift. intros r a r' E. exists a. split; [done|].
  split; [done|]. unfold decode in E. destruct (d r) as [[b|] r1] eqn:Ed; [|done]. injection E as -> _. by eapply HP.
Qed.

(** A computation that agrees with [h'] in the states at hand. *)
Lemma lock_focus {A B} (R : A -> B -> Prop) m (h h' : im B) :
  (forall x : istate, rest ctx sem inst x -> h x = h' x) -> lock R m h' -> lock R m h.
Proof. intros Hh Hl s x a s' Hc E. rewrite Hh by apply Hc. by eapply Hl. Qed.

(** What the immediates of a memory access denote. *)
Record memarg (address_type : Z) (arg : Z * Z * turbowasm_value_kind) : Prop := {
  ma_index : 0 <= arg.1.1;
  ma_offset : is_uint 64 arg.1.2;
  ma_type : turbowasm_instr_valtype address_type = true;
  ma_kind : arg.2 = turbowasm_kind_from_valtype address_type;
  ma_declared : is_Some (at_index (memories ctx) arg.1.1)
}.

Lemma address_kind_declared w i m : mem_ok ctx inst w -> 0 <= i -> at_index (memories ctx) i = Some m ->
  Memory.Memory.turbowasm_exec_memory_address_kind inst w i =
    (TURBOWASM_OK, turbowasm_kind_from_valtype (memory_address m)).
Proof.
  intros Hw Hi Hm. destruct (mo_declared _ _ _ Hw _ _ Hi Hm) as (ins & vm & loc & mem & Hins & Hvm & Hb & _).
  unfold Memory.Memory.turbowasm_exec_memory_address_kind, memory_address. rewrite Hins, Hvm, Hb. by destruct (vm_memory64 m).
Qed.

Lemma address_valtype m : turbowasm_instr_valtype (memory_address m) = true.
Proof. unfold memory_address. by destruct (vm_memory64 m). Qed.

Lemma uint_32_64 z : is_uint 32 z -> is_uint 64 z.
Proof. unfold is_uint. change (2 ^ 32) with 4294967296. change (2 ^ 64) with 18446744073709551616. lia. Qed.

Lemma lock_index32 (A B : Type) (R : A -> B -> Prop) k h :
  (forall z, is_uint 32 z -> lock R (k z) (on_machine (h z))) ->
  lock R (uleb32 buf ≫= k) (on_machine (Memory.Memory.on_reader (turbowasm_reader_uleb32 buf) ≫= h)).
Proof.
  intros Hk. eapply lock_ext; [intros x; apply on_machine_bind|]. eapply lock_bind; [|].
  - apply (lock_number _ (is_uint 32)). intros r a r'. apply uleb32_range.
  - intros a ? [<- Ha]. by apply Hk.
Qed.

Lemma lock_offset m : lock (fun _ z => is_uint 64 z)
  (if vm_memory64 m then uleb64 buf else uleb32 buf)
  (on_machine (if bool_decide (turbowasm_kind_from_valtype (memory_address m) = TURBOWASM_VALUE_I64)
     then Memory.Memory.on_reader (turbowasm_reader_uleb64 buf) else Memory.Memory.on_reader (turbowasm_reader_uleb32 buf))).
Proof.
  unfold memory_address. destruct (vm_memory64 m); simpl.
  - eapply lock_weaken; [apply (lock_number _ (is_uint 64)), uleb64_range|]. intros a b [<- Ha]. done.
  - eapply lock_weaken; [apply (lock_number _ (is_uint 32)), uleb32_range|]. intros a b [<- Ha]. by apply uint_32_64.
Qed.

Lemma lock_memarg al : lock memarg (turbowasm_validate_indexed_memarg buf ctx al)
  (on_machine (Memory.Memory.turbowasm_exec_read_indexed_memarg buf inst)).
Proof.
  unfold turbowasm_validate_indexed_memarg, Memory.Memory.turbowasm_exec_read_indexed_memarg.
  apply lock_index32. intros flags _. apply lock_reject. intros ->.
  eapply lock_ext; [intros x; apply on_machine_bind|].
  eapply (lock_bind _ _ _ _ (fun i j => i = j /\ 0 <= i)).
  { destruct (flags .& 0x40 =? 0); simpl; [eapply lock_ext; [intros ?; apply on_machine_ret|]; by apply lock_ret|]. eapply lock_weaken; [apply (lock_number _ (is_uint 32)), uleb32_range|].
    intros a b [<- [Ha _]]. done. }
  intros i ? [<- Hi]. apply lock_need. intros m Hm.
  eapply lock_focus.
  { intros x Hx. unfold on_machine at 1. cbv beta.
    rewrite (address_kind_declared _ _ _ (re_store _ _ _ _ Hx) Hi Hm). reflexivity. }
  eapply lock_ext; [intros x; exact (on_machine_bind _ _ x)|]. eapply lock_bind; [apply lock_offset|]. intros u off Hoff.
  apply lock_reject. intros _.
  eapply lock_ext; [intros ?; apply on_machine_ret|]. apply lock_ret. constructor; simpl; try done. apply address_valtype.
Qed.

Lemma address_uint v : is_uint 64 (Memory.Memory.turbowasm_exec_address_value v).
Proof. destruct v; try (apply uint_32_64; by apply wrap_range). by apply wrap_range. Qed.

Lemma lock_machine_bind {A B A' B'} (R : A -> A' -> Prop) (Q : B -> B' -> Prop) m h (k : A -> vm B)
    (k' : A' -> Memory.Memory.mexec B') :
  lock R m (on_machine h) -> (forall a a', R a a' -> lock Q (k a) (on_machine (k' a'))) ->
  lock Q (m ≫= k) (on_machine (h ≫= k')).
Proof. intros Hm Hk. eapply lock_ext; [intros x; exact (on_machine_bind _ _ x)|]. by eapply lock_bind. Qed.

Lemma located c arg w : mem_ok ctx inst w -> memarg c arg ->
  Memory.Memory.store_wf w /\ exists loc mem, Memory.Memory.memory_locate w inst arg.1.1 = inr (loc, mem).
Proof.
  intros Hw Ha. split; [apply Hw|]. destruct (ma_declared _ _ Ha) as [m Hm].
  destruct (mo_declared _ _ _ Hw _ _ (ma_index _ _ Ha) Hm) as (ins & vm & loc & mem & _ & _ & _ & Hl). by exists loc, mem.
Qed.

(** The kind of what an opcode loads. *)
Definition loads (op c : Z) : Prop :=
  turbowasm_instr_valtype c = true /\ is_Some (Memory.Memory.load_width op) /\
  forall p, exists v, Memory.Memory.load_convert op p = Some v /\ value_kind v = turbowasm_kind_from_valtype c.

Lemma load_outcome op c a arg w address : mem_ok ctx inst w -> memarg a arg -> loads op c ->
  let r := Memory.Memory.turbowasm_instance_memory_load_value w inst arg.1.1
             (Memory.Memory.turbowasm_exec_address_value address) arg.1.2 op in
  (exists v, r = (TURBOWASM_OK, inl v) /\ value_kind v = turbowasm_kind_from_valtype c) \/
  (exists t, r = (TURBOWASM_TRAPPED, inr (Some t))).
Proof.
  intros Hw Ha (Hc & [width Hwd] & Hcv). destruct (located _ _ _ Hw Ha) as (Hwf & loc & mem & Hl). simpl.
  rewrite (Memory.Memory.load_spec _ _ _ _ _ _ _ _ _ Hwf (ma_index _ _ Ha) Hl (address_uint _) (ma_offset _ _ Ha) Hwd).
  case_decide; [left|right; by eexists]. destruct (Hcv (Memory.Memory.slice (Memory.Memory.data mem)
    (Memory.Memory.turbowasm_exec_address_value address + arg.1.2) width)) as (v & -> & Hv). by exists v.
Qed.

Lemma lock_load op c al : loads op c ->
  lock any (turbowasm_validate_load buf vrealloc H ctx c al)
    (on_machine (Memory.Memory.turbowasm_exec_memory_load buf realloc_ok sizeof_value inst op)).
Proof.
  intros Hl. unfold turbowasm_validate_load, Memory.Memory.turbowasm_exec_memory_load.
  eapply lock_machine_bind; [apply lock_memarg|]. intros a arg Ha. destruct arg as [[i off] k] eqn:Earg.
  eapply lock_machine_bind; [apply lock_pop_carrier; [exact (ma_type _ _ Ha)|symmetry; exact (ma_kind _ _ Ha)]|]. intros [] v Hv.
  intros s x u s' Hc E. unfold on_machine.
  destruct (load_outcome op c a arg (Memory.Memory.m_store (i_machine x)) v) as [(w & Hw & Hk)|(t & Ht)];
    [exact (re_store _ _ _ _ (co_rest _ _ _ _ _ _ Hc))|by rewrite Earg|done| |]; rewrite Earg in *; simpl in *.
  - rewrite Hw. exact (lock_push_carrier _ vrealloc _ _ _ _ _ _ _ (proj1 Hl) Hk _ _ _ _ Hc E).
  - rewrite Ht. by left.
Qed.

Lemma mem_ok_put w loc m0 m : mem_ok ctx inst w -> Memory.Memory.memory_at w loc = Some m0 ->
  Memory.Memory.memory_wf m -> mem_ok ctx inst (Memory.Memory.memory_put w loc m).
Proof.
  intros [Hw Hd] Hat Hm. constructor; [by eapply Memory.Memory.put_wf|]. intros i vmem Hi Hv.
  destruct (Hd _ _ Hi Hv) as (ins & vm & l & mem & Hins & Hvm & Hb & Hl).
  destruct (Memory.Memory.put_shape w loc m) as [Hlen Hs].
  destruct (lookup_lt_is_Some_2 (Memory.Memory.memory_put w loc m) inst) as [ins' Hins'].
  { rewrite <- Hlen. by eapply lookup_lt_Some. }
  destruct (Hs _ _ Hins') as (ins0 & Hins0 & _ & Hvs & _). simplify_eq.
  exists ins', vm. eexists _, _. rewrite Hvs. split_and!; try done. by eapply Memory.Memory.put_locate.
Qed.

Lemma core_store (x : istate) s w : core ctx sem F inst x s -> mem_ok ctx inst w ->
  core ctx sem F inst (set_machine (Memory.Memory.mk_machine (i_reader x) (Memory.Memory.m_exec (i_machine x)) w) x) s.
Proof. intros [H1 H2 H3 H4 H5 [R1 R2 R3 R4 R5]] Hw. by constructor. Qed.

Lemma lock_pop_unchecked c : turbowasm_instr_valtype c = true ->
  lock (fun _ v => value_kind v = turbowasm_kind_from_valtype c) (turbowasm_stack_pop H c)
    (on_machine (Memory.Memory.on_exec Memory.Memory.pop_any)).
Proof.
  intros Hv s x u s' Hc E. pose proof (lock_pop_value H ctx sem F inst _ _ _ _ _ Hc E) as Hl. revert Hl.
  unfold ipop, on_machine, Memory.Memory.on_exec, Memory.Memory.pop_any, i_stack, ExecStack.turbowasm_stack_pop.
  destruct (reverse _) as [|v vs]; simpl; [by intros [?|?]|]. intros [Hc' [_ Ht]]. split; [done|].
  by rewrite legacy_carrier in Ht.
Qed.

(** The kind of what an opcode stores. *)
Definition stores (op c : Z) : Prop :=
  turbowasm_instr_valtype c = true /\
  exists width, Memory.Memory.store_shape op = Some (turbowasm_kind_from_valtype c, width).

Lemma lock_store op c al : stores op c ->
  lock any (turbowasm_validate_store buf H ctx c al) (on_machine (Memory.Memory.turbowasm_exec_memory_store buf inst op)).
Proof.
  intros [Hc0 [width Hs]]. unfold turbowasm_validate_store, Memory.Memory.turbowasm_exec_memory_store.
  eapply lock_machine_bind; [apply lock_memarg|]. intros a arg Ha. destruct arg as [[i off] k] eqn:Earg.
  eapply lock_machine_bind; [by apply lock_pop_unchecked|]. intros [] v Hv.
  intros s x u s' Hc E. rewrite on_machine_bind. apply outcome_bind.
  eapply outcome_impl; [by eapply lock_pop_carrier; [exact (ma_type _ _ Ha)|symmetry; exact (ma_kind _ _ Ha)|..]|].
  clear x Hc. intros address x [Hc Hk]. unfold on_machine.
  pose proof (re_store _ _ _ _ (co_rest _ _ _ _ _ _ Hc)) as Hw. rewrite <- Earg in Ha.
  destruct (located _ _ _ Hw Ha) as (Hwf & loc & mem & Hl).
  destruct (Memory.Memory.turbowasm_instance_memory_store_value _ _ _ _ _ _ _) as [[st w'] t] eqn:Est.
  rewrite Earg in *. simpl in *.
  pose proof (Memory.Memory.store_value_effect _ _ _ _ _ _ _ _ _ _ _ _ _ _ Hwf (ma_index _ _ Ha) Hl (address_uint _)
    (ma_offset _ _ Ha) Hs Hv Est) as He.
  case_decide; [|by destruct He as (-> & _); left]. destruct He as (-> & -> & Hat & Hmw & Hp & Hle & Hbs & ->).
  split; [|done]. apply core_store; [done|]. eapply mem_ok_put; [done..|]. by apply Memory.Memory.splice_wf.
Qed.

Lemma lock_declared (A B : Type) (R : A -> B -> Prop) k h :
  (forall i m, 0 <= i -> at_index (memories ctx) i = Some m -> lock R (k m)
     (on_machine (h i (turbowasm_kind_from_valtype (memory_address m))))) ->
  lock R (i ← uleb32 buf; m ← need (at_index (memories ctx) i); k m)
    (on_machine (i ← Memory.Memory.on_reader (turbowasm_reader_uleb32 buf); (fun x =>
       match Memory.Memory.turbowasm_exec_memory_address_kind inst (Memory.Memory.m_store x) i with
       | (TURBOWASM_OK, kind) => h i kind x
       | (status, _) => (inl status, x)
       end) : Memory.Memory.mexec B)).
Proof.
  intros Hk. apply lock_index32. intros i [Hi _]. apply lock_need. intros m Hm. eapply lock_focus; [|by apply Hk].
  intros x Hx. unfold on_machine at 1. by rewrite (address_kind_declared _ _ _ (re_store _ _ _ _ Hx) Hi Hm).
Qed.

(** The pages, or the count before growing, as a value of the address type. *)
Lemma pages_kind m p : value_kind (if bool_decide (turbowasm_kind_from_valtype (memory_address m) = TURBOWASM_VALUE_I64)
    then VI64 (s64 p) else VI32 (if p =? UINT64_MAX then -1 else s32 (u32 p))) =
  turbowasm_kind_from_valtype (memory_address m).
Proof. unfold memory_address. by destruct (vm_memory64 m). Qed.

Lemma lock_size_or_grow op : between 0x3f op 0x40 = true ->
  lock any (turbowasm_validate_memory_size_or_grow buf vrealloc H ctx (op =? 0x40))
    (on_machine (Memory.Memory.turbowasm_exec_memory_size_or_grow buf realloc_ok sizeof_value inst op)).
Proof.
  intros Hop. unfold turbowasm_validate_memory_size_or_grow, Memory.Memory.turbowasm_exec_memory_size_or_grow.
  apply lock_declared. intros i m Hi Hm. eapply (lock_machine_bind any).
  2: { intros [] p _. apply lock_push_carrier; [apply address_valtype|apply pages_kind]. }
  assert (Hl : forall x : istate, rest ctx sem inst x -> exists loc mem,
    Memory.Memory.memory_locate (Memory.Memory.m_store (i_machine x)) inst i = inr (loc, mem)).
  { intros x [_ [_ Hd] _ _ _]. destruct (Hd _ _ Hi Hm) as (? & ? & loc & mem & _ & _ & _ & ?). by exists loc, mem. }
  apply (between_elem 0x3f op 2) in Hop. change (seqZ 0x3f _) with [0x3f; 0x40] in Hop.
  rewrite !elem_of_cons, elem_of_nil in Hop. destruct Hop as [->|[->|[]]]; simpl.
  - intros s x u s' Hc [= <- <-]. unfold on_machine, Memory.Memory.turbowasm_instance_memory_size64.
    destruct (Hl _ (co_rest _ _ _ _ _ _ Hc)) as (loc & mem & ->). split; [|done]. by destruct x.
  - intros s x u s' Hc E. rewrite on_machine_bind. apply outcome_bind.
    eapply outcome_impl; [by eapply lock_pop_carrier; [apply address_valtype|..]|].
    clear x Hc. intros delta x [Hc Hk]. unfold on_machine, Memory.Memory.turbowasm_instance_memory_grow64.
    destruct (Hl _ (co_rest _ _ _ _ _ _ Hc)) as (loc & mem & HL). rewrite HL.
    pose proof (re_store _ _ _ _ (co_rest _ _ _ _ _ _ Hc)) as Hw.
    destruct (Memory.Memory.memory_locate_spec _ _ _ _ _ HL Hi (mo_wf _ _ _ Hw)) as (_ & Hat & Hmw).
    destruct (Memory.Memory.memory_grow _ _ _) as [mem'|] eqn:Eg; (split; [|done]); apply core_store; try done.
    eapply mem_ok_put; [done..|]. by eapply Memory.Memory.grow_effect in Eg as [? _]; [|done|apply address_uint].
Qed.

(** ** By opcode *)

Ltac each_opcode Hop a n :=
  apply (between_elem a _ n) in Hop;
  let l := eval vm_compute in (seqZ a (Z.of_nat n)) in change (seqZ a (Z.of_nat n)) with l in Hop;
  rewrite !elem_of_cons, elem_of_nil in Hop;
  repeat (destruct Hop as [->|Hop]; [|]); [..|destruct Hop].

Lemma lock_loads op : between 0x28 op 0x35 = true ->
  lock any (op_memory buf vrealloc H ctx op)
    (on_machine (Memory.Memory.turbowasm_exec_memory_load buf realloc_ok sizeof_value inst op)).
Proof.
  intros Hop. each_opcode Hop 0x28 14%nat;
    (eapply lock_load; split_and!; [reflexivity|by eexists|intros p; eexists; split; reflexivity]).
Qed.

Lemma lock_stores op : between 0x36 op 0x3e = true ->
  lock any (op_memory buf vrealloc H ctx op) (on_machine (Memory.Memory.turbowasm_exec_memory_store buf inst op)).
Proof.
  intros Hop. each_opcode Hop 0x36 9%nat; (eapply lock_store; split; [reflexivity|eexists; reflexivity]).
Qed.

Lemma lock_pages op : between 0x3f op 0x40 = true ->
  lock any (op_memory buf vrealloc H ctx op)
    (on_machine (Memory.Memory.turbowasm_exec_memory_size_or_grow buf realloc_ok sizeof_value inst op)).
Proof. intros Hop. pose proof (lock_size_or_grow op Hop). by each_opcode Hop 0x3f 2%nat. Qed.

Lemma lock_i32_compares op : between 0x45 op 0x4f = true ->
  lock any (op_numeric vrealloc H op) (on_stack (turbowasm_exec_i32_test_or_compare realloc_ok sizeof_value op)).
Proof.
  intros Hop. each_opcode Hop 0x45 11%nat; [exact lock_i32_eqz|(apply lock_i32_compare; reflexivity)..].
Qed.

Lemma lock_i64_compares op : between 0x50 op 0x5a = true ->
  lock any (op_numeric vrealloc H op) (on_stack (turbowasm_exec_i64_test_or_compare realloc_ok sizeof_value op)).
Proof.
  intros Hop. each_opcode Hop 0x50 11%nat; [exact lock_i64_eqz|(apply lock_i64_compare; reflexivity)..].
Qed.

Lemma lock_i32_unaries op : between 0x67 op 0x69 = true ->
  lock any (op_numeric vrealloc H op) (on_stack (turbowasm_exec_i32_unary realloc_ok sizeof_value op)).
Proof. intros Hop. each_opcode Hop 0x67 3%nat; (apply lock_i32_unary; reflexivity). Qed.

Lemma lock_i64_unaries op : between 0x79 op 0x7b = true ->
  lock any (op_numeric vrealloc H op) (on_stack (turbowasm_exec_i64_unary realloc_ok sizeof_value op)).
Proof. intros Hop. each_opcode Hop 0x79 3%nat; (apply lock_i64_unary; reflexivity). Qed.

Lemma lock_i32_binaries op : between 0x6a op 0x78 = true ->
  lock any (op_numeric vrealloc H op) (on_stack (turbowasm_exec_i32_binary realloc_ok sizeof_value op)).
Proof. intros Hop. each_opcode Hop 0x6a 15%nat; (apply lock_i32_binary; reflexivity). Qed.

Lemma lock_i64_binaries op : between 0x7c op 0x8a = true ->
  lock any (op_numeric vrealloc H op) (on_stack (turbowasm_exec_i64_binary realloc_ok sizeof_value op)).
Proof. intros Hop. each_opcode Hop 0x7c 15%nat; (apply lock_i64_binary; reflexivity). Qed.

End Data.

End InterpData.
