(* ===== verification/InterpControl.v ===== *)
(** * Branches, blocks and ends of an accepted body

    Where the interpreter goes when it branches, enters a block or leaves one:
    always to a place that the run of the validator has passed, with operands of
    the types the validator had there. *)

From S2P Require Import Prelude Reader Value Types TypeEq TypeReader Context ExecStack Numeric Memory.
From S2P Require Import Validator ValidatorSteps ValidatorFrames ValidatorRun ValidatorPaths InterpBlocks Interp InterpSim InterpData.

Module InterpControl.
Import Interp Reader Value Types TypeEq TypeReader ExecStack Numeric Context Validator ValidatorSteps ValidatorFrames
  ValidatorRun ValidatorPaths InterpBlocks InterpSim InterpData.

(** ** Operands *)

Lemma typed_match vs ts : Forall2 typed vs ts ->
  Forall2 (fun v c => turbowasm_value_matches_type v c = true) vs (map carrier ts).
Proof. induction 1; constructor; [by apply typed_matches|done]. Qed.

Lemma rebase_typed s low mid top ts h : values s = low ++ mid ++ top -> Z.of_nat (length low) = h -> Forall2 typed top ts ->
  turbowasm_exec_stack_rebase s h (map carrier ts) = (TURBOWASM_OK, mk_stack (low ++ top) (stack_capacity s)).
Proof.
  intros Hv Hh Ht. apply typed_match in Ht.
  destruct (rebase_spec s h (map carrier ts)) as [(low' & mid' & top' & E1 & E2 & E3 & E4)|(st & _ & _ & Hno)]; [lia| |].
  - rewrite E4. do 2 f_equal. apply Forall2_length in Ht, E3. rewrite E1 in Hv.
    apply app_inj_1 in Hv as [-> Hv]; [|lia]. apply app_inj_2 in Hv as [_ ->]; [done|lia].
  - destruct Hno. by exists low, mid, top.
Qed.

(** Values typed by [ts ++ ls], rebased to the first [h] types and [ls]. *)
Lemma rebase_labels s ts ls ls' h : Forall2 typed (values s) (ts ++ ls) -> map face ls = map face ls' ->
  0 <= h <= Z.of_nat (length ts) ->
  exists vs, turbowasm_exec_stack_rebase s h (map carrier ls') = (TURBOWASM_OK, mk_stack vs (stack_capacity s)) /\
    Forall2 typed vs (take (Z.to_nat h) ts ++ ls').
Proof.
  intros Hv Hf Hh. apply Forall2_app_inv_r in Hv as (ws & top & Hws & Htop & Hs).
  apply (typed_faces _ _ _ Hf) in Htop. exists (take (Z.to_nat h) ws ++ top). split.
  - apply (rebase_typed _ _ (drop (Z.to_nat h) ws)); [|apply Forall2_length in Hws; rewrite length_take; lia|done].
    by rewrite app_assoc, take_drop.
  - apply Forall2_app; [by apply Forall2_take|done].
Qed.

Section Control.
Context {host : Type}.
Context (buf : list Z) (H : type_heap) (ctx ictx : turbowasm_validation_context).
Context (vrealloc vmalloc : Z -> bool) (t : turbowasm_validation_func_type) (sem : list turbowasm_validation_value_type).
Context (F : turbowasm_validation_function) (inst : nat) (realloc_ok : Z -> bool) (sizeof_value sizeof_frame : Z).
Context (base total : Z) (s0 s1 s2 : vstate).

Abbreviation istate := (@istate host).
Abbreviation im := (@im host).
Abbreviation offset := (code_offset (Some base)).
Abbreviation step := (dispatch buf vrealloc vmalloc H ctx t sem (Some base)).
Abbreviation vstep := (vstep buf vrealloc vmalloc H ctx t sem (Some base)).
Abbreviation vfinal := (vfinal buf vrealloc vmalloc H ctx t sem (Some base)).
Abbreviation inv := (vinv t (Some base) total (length sem)).
Abbreviation frames_of s := (cframes (v_controls s)).
Abbreviation types_of s := (tvalues (v_stack s)).
Abbreviation annotations_of s := (controls_of (v_function s)).
Abbreviation core := (@core host ctx sem F inst).
Abbreviation rest := (@rest host ctx sem inst).

(** The accepted run behind the body. *)
Record run_facts : Prop := {
  rf_code : code F = Some base;
  rf_size : code_size F = total;
  rf_annotations : controls_of F = annotations_of s1;
  rf_locals : local_types F = map carrier sem;
  rf_inv : inv s0;
  rf_reader : v_reader s0 = mk_reader (Some base) (Some (base + total));
  rf_one : length (frames_of s0) = 1%nat;
  rf_run : rtc vstep s0 s1;
  rf_final : vfinal s1 s2
}.
Context (RF : run_facts).
Context (Hwf : heap_wf H) (Hsame : same_types ctx ictx) (Hcount : type_count (types ctx) <= UINT32_MAX).

(** A state of the validator on the accepted run. *)
Definition on_run (s : vstate) : Prop := rtc vstep s0 s /\ rtc vstep s s1.

Lemma on_run_inv s : on_run s -> inv s.
Proof. intros [Hr _]. eapply run_vinv; [exact Hr|apply RF]. Qed.

Lemma last_frames : length (frames_of s1) = 1%nat.
Proof.
  assert (Hv : inv s1) by (exact (run_vinv _ _ _ _ _ _ _ _ _ _ _ _ (rf_run RF) (rf_inv RF))).
  destruct (vfinal_inv _ _ _ _ _ _ _ _ _ _ _ _ Hv (rf_final RF)) as (_ & _ & _ & _ & _ & _ & _ & f0 & ->). done.
Qed.

Lemma reader_at s : on_run s -> v_reader s = mk_reader (Some (base + offset s)) (Some (base + total)).
Proof.
  intros [Hr _]. destruct (run_reader Hr (rf_reader RF)) as [d Hd].
  unfold code_offset. rewrite Hd. simpl. do 2 f_equal. lia.
Qed.

Lemma jump_to s r ofs : on_run s -> ofs = offset s -> turbowasm_exec_jump r F ofs = (TURBOWASM_OK, v_reader s).
Proof.
  intros Hs ->. unfold turbowasm_exec_jump. rewrite (rf_code RF), (rf_size RF).
  destruct (offset_bound _ _ _ _ _ (on_run_inv _ Hs)) as [[_ Hle] _].
  rewrite Z.gtb_ltb, (proj2 (Z.ltb_ge _ _)) by lia. by rewrite (reader_at s).
Qed.

(** ** Where the interpreter can be *)

(** In some instruction at [s]. *)
Record within (x : istate) (s : vstate) : Prop := {
  wi_run : on_run s;
  wi_parents : Forall (fun g => parent_unreachable g = false) (frames_of s);
  wi_frames : Forall2 (frame_rel (controls_of F)) (frames (i_controls x)) (frames_of s);
  wi_rest : rest x
}.

(** Before an instruction the validator has reached with these operands. *)
Definition sim (x : istate) (s : vstate) : Prop := core x s /\ on_run s.

(** Before the end of the innermost frame, with its results. *)
Record at_end (x : istate) (s : vstate) : Prop := {
  ae_within : within x s;
  ae_reader : i_reader x = v_reader s;
  ae_end : exists fs g sb se a, frames_of s = fs ++ [g] /\ byte buf s = (inr 0x0b, sb) /\ step 0x0b sb = (inr false, se) /\
    on_run se /\ closes (Some base) sb se fs g a /\
    Forall2 typed (values (i_stack x)) (take (Z.to_nat (cheight g)) (types_of s) ++ end_types g)
}.

(** After the function, with its results. *)
Definition done_with (x : istate) : Prop :=
  i_finished x = true /\ Forall2 typed (values (i_stack x)) (result_semantics t).

Definition good (x : istate) : Prop := (exists s, sim x s) \/ (exists s, at_end x s) \/ done_with x.

Lemma sim_within x s : sim x s -> within x s.
Proof. intros [[H1 H2 H3 H4 H5 H6] Hr]. by constructor. Qed.

(** ** Branches *)

Lemma target_index s depth g : turbowasm_control_target (v_controls s) depth = Some g -> 0 <= depth ->
  exists k, frames_of s !! k = Some g /\ Z.of_nat k = csize (v_controls s) - 1 - depth.
Proof.
  unfold turbowasm_control_target. intros Ht Hd. rewrite Z.geb_leb in Ht.
  destruct (Z.leb_spec (csize (v_controls s)) depth); [done|]. eexists. split; [exact Ht|]. unfold csize in *. lia.
Qed.

Lemma function_frame s k g : on_run s -> frames_of s !! k = Some g -> ckind g = CTRL_FUNCTION <-> k = 0%nat.
Proof.
  intros Hs Hg. destruct (vi_bottom _ _ _ _ _ (on_run_inv _ Hs)) as (f0 & fs & Hfs & Hk & _ & _ & Hall & _).
  rewrite Hfs in Hg. destruct k as [|k]; simpl in Hg; [by injection Hg as <-|].
  rewrite Forall_lookup in Hall. split; [|done]. intros E. by destruct (Hall _ _ Hg).
Qed.

(** Every annotation of the body has its end. *)
Lemma annotation_closed i A : controls_of F !! i = Some A -> 0 <= end_offset A < UINT32_MAX.
Proof.
  rewrite (rf_annotations RF). intros HA. assert (Hv : inv s1) by (exact (run_vinv _ _ _ _ _ _ _ _ _ _ _ _ (rf_run RF) (rf_inv RF))).
  destruct (vfinal_inv _ _ _ _ _ _ _ _ _ _ _ _ Hv (rf_final RF)) as (_ & _ & _ & _ & Ha & _).
  assert (Hne : end_offset A <> UINT32_MAX).
  { intros Hun. destruct (ai_closed _ _ _ Ha i A HA Hun) as (k & g & Hk & _). by rewrite lookup_nil in Hk. }
  destruct (ai_ann _ _ _ Ha _ _ HA) as [A1 A2 A3 _]. specialize (A3 Hne). destruct (offset_bound _ _ _ _ _ Hv). lia.
Qed.

Lemma annotation_kept s i a A : on_run s -> annotations_of s !! i = Some a -> controls_of F !! i = Some A -> evolves a A.
Proof.
  intros Hs Ha HA. rewrite (rf_annotations RF) in HA.
  destruct (run_annotation (proj2 Hs) (on_run_inv _ Hs) Ha) as (A' & HA' & He).
  by assert (A' = A) as -> by congruence.
Qed.

Lemma like_same g g' : like g g' -> cheight g' = cheight g /\ end_types g' = end_types g /\
  annotation_index g' = annotation_index g /\ parent_unreachable g' = parent_unreachable g /\ ckind g' = ckind g.
Proof. intros [->|(_ & _ & ->)]; done. Qed.

Lemma prefix_heights {A} (vs l : list A) h : vs `prefix_of` l -> h = Z.of_nat (length vs) -> vs = take (Z.to_nat h) l.
Proof. intros [k ->] ->. by rewrite Nat2Z.id, take_app_length. Qed.

(** The state after the end of an open frame. *)
Lemma frame_left s k g A : on_run s -> frames_of s !! k = Some g -> (1 <= k)%nat ->
  controls_of F !! Z.to_nat (annotation_index g) = Some A ->
  exists se, on_run se /\ offset se = end_offset A + 1 /\ frames_of se = take k (frames_of s) /\
    types_of se = take (Z.to_nat (cheight g)) (types_of s) ++ end_types g /\
    unreachable (v_stack se) = parent_unreachable g.
Proof.
  intros Hs Hg Hk HA.
  destruct (close_event (proj2 Hs) last_frames (on_run_inv _ Hs) Hg Hk)
    as (g' & sm & sb & se & a & Hl & Hev & Hc).
  destruct (like_same _ _ Hl) as (Hh & He & Hi & Hp & _). rewrite (rf_annotations RF), <- Hi in HA.
  destruct (closed_annotation (on_run_inv _ Hs) Hev Hc HA) as (E1 & _ & E2).
  exists se. split_and!.
  - split; [|apply Hev]. etrans; [apply Hs|]. etrans; [apply Hev|]. apply rtc_once. by eapply event_vstep.
  - lia.
  - apply (cl_after _ _ _ _ _ _ Hc).
  - destruct (cl_values _ _ _ _ _ _ Hc) as (vs & -> & Hvs & Hpre). rewrite He. f_equal.
    rewrite (prefix_heights _ _ _ Hpre Hvs).
    destruct (byte_inv _ _ _ _ (ev_byte Hev)) as [-> _]. rewrite Hh. simpl.
    pose proof (ev_below Hev) as Hb. unfold below in Hb. by rewrite Hh in Hb.
  - by rewrite (cl_live _ _ _ _ _ _ Hc).
Qed.

(** The interpreter's state at the head of the continuation [s']. *)
Lemma sim_arrive x s s' vs cap n b1 b2 : within x s -> on_run s' -> frames_of s' = take (Z.to_nat n) (frames_of s) ->
  unreachable (v_stack s') = false -> Forall2 typed vs (types_of s') -> b1 = false -> b2 = false ->
  sim (Interp.set_returned b2 (Interp.set_finished b1 (Interp.set_reader (v_reader s')
         (Interp.set_controls (truncate (i_controls x) n) (Interp.set_stack (mk_stack vs cap) x))))) s'.
Proof.
  intros [W1 W2 W3 [R1 R2 R3 R4 R5]] Hs' Hfr Hl Hv -> ->. split; [|done]. constructor; simpl; try done; rewrite ?Hfr.
  - by apply Forall_take.
  - by apply Forall2_take.
  - constructor; simpl; try done. unfold controls_size in *. simpl. rewrite length_take. lia.
Qed.

Lemma branch_good x s depth g ts ls : within x s -> 0 <= depth -> turbowasm_control_target (v_controls s) depth = Some g ->
  Forall2 typed (values (i_stack x)) (ts ++ ls) -> map face ls = map face (turbowasm_control_label_types g) ->
  take (Z.to_nat (cheight g)) ts = take (Z.to_nat (cheight g)) (types_of s) -> cheight g <= Z.of_nat (length ts) ->
  outcome (ibranch F depth x) (fun _ => good).
Proof.
  intros W Hd Ht Hv Hf Hts Hlen. destruct (target_index _ _ _ Ht Hd) as (k & Hg & Hk).
  pose proof (wi_run _ _ W) as Hs. pose proof (Forall2_length _ _ _ (wi_frames _ _ W)) as Hcs.
  destruct (Forall2_lookup_r _ _ _ _ _ (wi_frames _ _ W) Hg) as (xf & Hxf & Hrel).
  destruct (frame_heights _ _ _ _ _ (on_run_inv _ Hs) g) as [Hh0 _]; [by eapply list_elem_of_lookup_2|].
  destruct (rebase_labels (i_stack x) ts ls (turbowasm_control_label_types g) (cheight g) Hv Hf ltac:(lia)) as (vs & Hr & Hvs).
  rewrite Hts in Hvs. pose proof (wi_rest _ _ W) as [_ _ Hfin Hret Hdep].
  unfold ibranch, turbowasm_exec_branch. cbn [b_stack b_controls b_reader b_finished b_returned].
  unfold csize in Hk. unfold controls_size. rewrite Hcs, Z.geb_leb, (proj2 (Z.leb_gt _ _)) by (apply lookup_lt_Some in Hg; lia).
  replace (Z.of_nat (length (frames_of s)) - 1 - depth) with (Z.of_nat k) by lia. rewrite Nat2Z.id, Hxf.
  rewrite (fr_height _ _ _ Hrel), (frame_rel_labels _ _ _ Hrel), Hr, (fr_kind _ _ _ Hrel).
  destruct (decide (k = 0%nat)) as [->|Hk0].
  { assert (Hfn : ckind g = CTRL_FUNCTION) by (by apply (function_frame s 0)).
    rewrite Hfn. simpl. right; right. split; [done|]. simpl. revert Hvs. unfold turbowasm_control_label_types.
    rewrite Hfn. simpl. destruct (vi_bottom _ _ _ _ _ (on_run_inv _ Hs)) as (f0 & fs & Hfs & _ & Hh & He & _).
    rewrite Hfs in Hg. injection Hg as <-. by rewrite Hh, He. }
  assert (Hnf : ckind g <> CTRL_FUNCTION) by (by rewrite (function_frame s k)).
  rewrite (bool_decide_eq_false_2 (exec_kind _ = CONTROL_FUNCTION)) by (by destruct (ckind g)).
  destruct (fr_ann _ _ _ Hrel Hnf) as (A & -> & HA). pose proof (annotation_closed _ _ HA) as Hend.
  rewrite (proj2 (Z.eqb_neq _ _)) by lia. destruct (decide (ckind g = CTRL_LOOP)) as [Hloop|Hloop].
  - rewrite bool_decide_eq_true_2 by (by rewrite Hloop).
    destruct (frames_entered (proj1 Hs) (rf_inv RF) (rf_one RF) k g) as [se He];
      [lia|done|by rewrite Hloop|].
    assert (Hse : on_run se) by (split; [apply He|etrans; [apply He|apply Hs]]).
    destruct (en_body He) as (a & Ha & Hb).
    destruct (ev_static _ _ (annotation_kept _ _ _ _ Hse Ha HA)) as (_ & _ & Hbo & _).
    rewrite (jump_to se) by (done || congruence). simpl. left. exists se.
    apply (sim_arrive x s); try done.
    + rewrite (en_frames He). f_equal. lia.
    + apply He.
    + rewrite (en_types He). unfold turbowasm_control_label_types in Hvs.
      by rewrite bool_decide_eq_true_2 in Hvs.
  - rewrite bool_decide_eq_false_2 by (by destruct (ckind g)).
    destruct (frame_left s k g A Hs Hg ltac:(lia) HA) as (se & Hse & Ho & Hfr & Hty & Hlive).
    rewrite (jump_to se); [|done|rewrite wrap_id; [lia|split; simpl; unfold UINT32_MAX in *; lia]]. simpl.
    left. exists se. apply (sim_arrive x s); try done.
    + by rewrite Hfr, Nat2Z.id.
    + rewrite Hlive. pose proof (wi_parents _ _ W) as Hp. rewrite Forall_lookup in Hp. by eapply Hp.
    + rewrite Hty. unfold turbowasm_control_label_types in Hvs. by rewrite bool_decide_eq_false_2 in Hvs.
Qed.

(** ** Entering blocks *)

Lemma annotation_found sb s' f a : opens (Some base) sb s' f a -> on_run s' ->
  exists A, controls_of F !! Z.to_nat (annotation_index f) = Some A /\
    turbowasm_validation_function_control_at F (offset sb - 1) = Some A /\ evolves a A.
Proof.
  intros Ho Hs'. destruct (op_controls _ _ _ _ _ Ho) as (Hc & Hi & _).
  assert (Ha : annotations_of s' !! Z.to_nat (annotation_index f) = Some a).
  { by rewrite Hc, Hi, Nat2Z.id, lookup_app_r, Nat.sub_diag by lia. }
  destruct (run_annotation (proj2 Hs') (on_run_inv _ Hs') Ha) as (A & HA & He). rewrite <- (rf_annotations RF) in HA.
  exists A. split_and!; [done| |done]. destruct (op_opcode _ _ _ _ _ Ho) as (<- & _).
  destruct (ev_static _ _ He) as (_ & <- & _). eapply control_at_sorted; [|done].
  intros i j b c Hij. rewrite (rf_annotations RF). intros Hb Hc'.
  assert (Hv : inv s1) by (exact (run_vinv _ _ _ _ _ _ _ _ _ _ _ _ (rf_run RF) (rf_inv RF))).
  destruct (vfinal_inv _ _ _ _ _ _ _ _ _ _ _ _ Hv (rf_final RF)) as (_ & _ & _ & _ & Hai & _).
  by eapply (ai_sorted _ _ _ Hai).
Qed.

Lemma check_top_typed s ws top ts : values s = ws ++ top -> Forall2 typed top ts ->
  turbowasm_exec_stack_check_top s (map carrier ts) = TURBOWASM_OK.
Proof.
  intros Hv Ht. unfold turbowasm_exec_stack_check_top, stack_size. rewrite Hv, length_app, length_map.
  pose proof (Forall2_length _ _ _ Ht) as Hl. rewrite (proj2 (Z.ltb_ge _ _)) by lia.
  replace (Z.to_nat _) with (length ws) by lia. rewrite drop_app_length. by apply typed_list_check.
Qed.

(** The frame of a block is pushed once its operands are in place. *)
Lemma push_control_core x sb s' f a A es ts : opens (Some base) sb s' f a ->
  Forall2 typed (values (i_stack x)) ts -> takes H ts (start_types f) f s' ->
  unreachable (v_stack sb) = false -> Forall (fun g => parent_unreachable g = false) (frames_of sb) ->
  Forall2 (frame_rel (controls_of F)) (frames (i_controls x)) (frames_of sb) -> rest x -> i_reader x = v_reader s' ->
  exec_starts es = map carrier (start_types f) -> exec_ends es = map carrier (end_types f) ->
  controls_of F !! Z.to_nat (annotation_index f) = Some A ->
  outcome (ipush_control realloc_ok sizeof_frame (exec_kind (ckind f)) A es x) (fun _ x' => core x' s').
Proof.
  intros Ho Hv (vs & l & -> & Hacc & Hh & Hty) Hl Hp Hfr [R1 R2 R3 R4 R5] Hr Hst Hen HA.
  apply Forall2_app_inv_r in Hv as (ws & top & Hws & Htop & Hval).
  destruct (accepted_list H _ _ _ Hacc Htop) as [Htop' _].
  unfold ipush_control, turbowasm_exec_control_push. destruct (Z.eqb_spec (controls_size (i_controls x)) UINT32_MAX); [by right|].
  cbv zeta.
  assert (Hstart : forall h, turbowasm_exec_frame_start_types (mk_frame (exec_kind (ckind f)) h (Some A) (indexed_type es)
    (sig_inline_end_type es) (sig_has_inline_end_type es)) = map carrier (start_types f)).
  { intros h. unfold turbowasm_exec_frame_start_types. simpl.
    rewrite bool_decide_eq_false_2 by (pose proof (op_kind _ _ _ _ _ Ho); by destruct (ckind f)). exact Hst. }
  rewrite Hstart, (check_top_typed _ ws top) by done. unfold turbowasm_exec_controls_reserve.
  destruct (reserve _ _ _ _ _) as [cap|]; [|by right]. simpl. constructor; simpl; try done.
  - apply (op_live _ _ _ _ _ Ho).
  - rewrite (op_frames _ _ _ _ _ Ho). apply Forall_app. split; [done|]. apply Forall_singleton.
    by rewrite (op_pdead _ _ _ _ _ Ho).
  - unfold i_stack in *. simpl. rewrite Hty, Hval. by apply Forall2_app.
  - rewrite (op_frames _ _ _ _ _ Ho). apply Forall2_app; [done|]. constructor; [|constructor]. constructor; simpl; try done.
    + rewrite length_map, Hh. unfold stack_size. rewrite Hval, length_app. apply Forall2_length in Hws, Htop'. lia.
    + intros _. by exists A.
  - constructor; simpl; try done. unfold controls_size in *. simpl. rewrite length_app. simpl. lia.
Qed.

(** The position of the interpreter's reader. *)
Lemma position_at (x : istate) s : i_reader x = v_reader s -> position F x = offset s.
Proof. intros Hr. unfold position, code_offset. by rewrite Hr, (rf_code RF). Qed.

Lemma opcode_at_ok (x : istate) s : i_reader x = v_reader s -> 0 < offset s -> offset s - 1 <= UINT32_MAX ->
  opcode_at F x = (inr (offset s - 1), x).
Proof.
  intros Hr H1 H2. unfold opcode_at, mbind, im_bind, iget. rewrite (position_at x s Hr).
  by rewrite (proj2 (Z.leb_gt _ _)), Z.gtb_ltb, (proj2 (Z.ltb_ge _ _)) by lia.
Qed.

(** One step of the interpreter whose result is known. *)
Lemma outcome_step {A B} (m : im A) (k : A -> im B) x a x' (Q : B -> istate -> Prop) :
  m x = (inr a, x') -> outcome (k a x') Q -> outcome ((m ≫= k) x) Q.
Proof. intros E Hk. apply outcome_bind. by rewrite E. Qed.

Lemma iparse_ok {A} (p : parse A) (x : istate) a r : p (i_reader x) = (inr a, r) -> iparse p x = (inr a, Interp.set_reader r x).
Proof. intros E. unfold iparse. by rewrite E. Qed.

Lemma iguard_ok b st (x : istate) : b = false -> iguard b st x = (inr tt, x).
Proof. by intros ->. Qed.

Lemma ineed_ok {A} (o : option A) a st (x : istate) : o = Some a -> ineed o st x = (inr a, x).
Proof. by intros ->. Qed.

(** The operands of a block, after the condition of an if. *)
Lemma block_operands x sb vs opcode : core x sb ->
  (if opcode =? 0x04 then exists c, types_of sb = vs ++ [c] /\
     ((carrier c =? TW_ANY) || value_matches H c (turbowasm_validation_value_type_legacy TW_I32) = true)
   else types_of sb = vs) ->
  exists v ws, (if opcode =? 0x04 then ipop_kind TURBOWASM_VALUE_I32 else mret VZero) x =
      (inr v, Interp.set_stack (mk_stack ws (stack_capacity (i_stack x))) x) /\ Forall2 typed ws vs.
Proof.
  intros Hc Hv. destruct (opcode =? 0x04).
  - destruct Hv as (c & Hv & Hm). destruct (core_top _ _ _ _ _ _ _ _ Hc Hv) as (ws & v & Hs & Hws & Hvc).
    exists v, ws. split; [|done]. apply ipop_kind_snoc; [done|].
    destruct (accepted_typed H v c (turbowasm_validation_value_type_legacy TW_I32) Hm Hvc) as [_ [_ Hk]].
    by rewrite legacy_carrier in Hk.
  - subst vs. exists VZero, (values (i_stack x)). split; [|apply (co_stack _ _ _ _ _ _ Hc)].
    by destruct x as [[? [[] ?] ?] ? ? ? ? ? ?].
Qed.

(** What is known when the frame of an if has been pushed. *)
Lemma if_false x sb s' f a A : opens (Some base) sb s' f a -> ckind f = CTRL_IF -> core x s' -> on_run s' ->
  controls_of F !! Z.to_nat (annotation_index f) = Some A ->
  outcome ((if negb (else_offset A =? UINT32_MAX) then ijump F (u32 (else_offset A + 1)) else ijump F (end_offset A)) x)
    (fun _ => good).
Proof.
  intros Ho Hk Hc Hs' HA. pose proof (op_frames _ _ _ _ _ Ho) as Hfr. pose proof HA as HA1. rewrite (rf_annotations RF) in HA1.
  assert (Hg : frames_of s' !! length (frames_of sb) = Some f) by (by rewrite Hfr, lookup_app_r, Nat.sub_diag by lia).
  assert (Hone : (1 <= length (frames_of sb))%nat).
  { destruct (decide (length (frames_of sb) = 0%nat)) as [El|]; [|lia]. rewrite El in Hg.
    apply (function_frame s' 0 f Hs') in Hg as [_ E]. rewrite E in Hk by done. done. }
  destruct (op_values _ _ _ _ _ Ho) as (vs & Hty & Hh & _).
  destruct (frame_event (proj2 Hs') last_frames (on_run_inv _ Hs') Hg Hone)
    as (op & sm & sb' & se & b & Hev & [[-> Ht]|[-> Hcl]]).
  - destruct (turned_annotation (on_run_inv _ Hs') Hev Ht HA1) as [E1 E2].
    destruct (event_offset (on_run_inv _ Hs') Hev) as (Hvm & Hve & _ & Hlt). destruct (offset_bound _ _ _ _ _ Hvm) as [Hm0 Hmx].
    assert (Hse : on_run se).
    { split; [|apply (ev_after Hev)]. etrans; [apply Hs'|]. etrans; [apply (ev_before Hev)|]. apply rtc_once, (event_vstep Hev). }
    rewrite (proj2 (Z.eqb_neq _ _)) by lia. simpl. unfold ijump.
    rewrite (jump_to se); [|done|rewrite wrap_id; [lia|split; simpl; unfold UINT32_MAX in *; lia]]. left. exists se. split; [|done].
    destruct (turns_frames Hev Ht) as (Hw & Htk & Hb); [by eapply lookup_lt_Some|].
    assert (Hfe : frames_of se = frames_of sb ++ [with_else_seen f]).
    { rewrite (tu_after _ _ _ _ _ _ Ht), Hfr, take_app_length. done. }
    destruct (tu_values _ _ _ _ _ _ Ht) as (ws & Hws & Hwh & _).
    destruct Hc as [C1 C2 C3 C4 C5 C6]. constructor; simpl; try done.
    + apply (tu_live _ _ _ _ _ _ Ht).
    + rewrite Hfe. rewrite Hfr in C3. apply Forall_app in C3 as [C3 C3']. apply Forall_app. split; [done|].
      rewrite Forall_singleton in C3' |- *. exact C3'.
    + unfold below in Hb. rewrite Hws in Hb |- *. rewrite Hty in Hb, C4. rewrite Hwh in Hb. rewrite Hwh in Hh.
      rewrite Nat2Z.id, take_app_length in Hb. rewrite Nat2Z.inj_iff in Hh. rewrite Hh, take_app_length in Hb. by subst ws.
    + rewrite Hfe. rewrite Hfr in C5. apply Forall2_app_inv_r in C5 as (l1 & l2 & F1 & F2 & ->).
      apply Forall2_app; [done|]. inversion F2 as [|? ? ? ? Hrel Hnil]; subst. inversion Hnil; subst.
      constructor; [by apply frame_rel_else|constructor].
    + by destruct C6.
  - destruct (closed_annotation (on_run_inv _ Hs') Hev Hcl HA1) as (E1 & E2 & _).
    destruct (event_offset (on_run_inv _ Hs') Hev) as (Hvm & Hve & _ & Hlt).
    assert (Hun : else_offset b = UINT32_MAX).
    { destruct (byte_inv _ _ _ _ (ev_byte Hev)) as [Hsb _]. destruct (cl_index _ _ _ _ _ _ Hcl) as [_ Hix].
      rewrite Hsb in Hix. simpl in Hix.
      destruct (open_annotation_end t (Some base) total (length sem) sm (length (frames_of sb)) f b Hvm) as [_ He]; [|done|done|].
      - rewrite (ev_frames Hev), Hfr, take_app_length. by rewrite lookup_app_r, Nat.sub_diag by lia.
      - apply He, (op_fresh _ _ _ _ _ Ho). }
    assert (Hsm : on_run sm).
    { split; [etrans; [apply Hs'|apply (ev_before Hev)]|]. etrans; [|apply (ev_after Hev)]. apply rtc_once, (event_vstep Hev). }
    rewrite E2, Hun. simpl. unfold ijump. rewrite (jump_to sm) by done. right; left. exists sm.
    assert (Hfm : frames_of sm = frames_of s') by (by rewrite (ev_frames Hev), Hfr, take_app_length).
    destruct Hc as [C1 C2 C3 C4 C5 C6]. constructor; [constructor; simpl; rewrite ?Hfm; try done; by destruct C6|done|].
    exists (take (length (frames_of sb)) (frames_of s')), f, sb', se, b. split_and!; [apply (ev_frames Hev)|apply (ev_byte Hev)|
      apply (ev_step Hev)| |done|].
    + split; [|apply (ev_after Hev)]. eapply rtc_r; [apply Hsm|apply (event_vstep Hev)].
    + pose proof (ev_below Hev) as Hb. unfold below in Hb. rewrite Hb, Hty, Hh, Nat2Z.id, take_app_length.
      eapply typed_faces; [|rewrite Hty in C4; exact C4]. rewrite !map_app. f_equal.
      apply (cl_else _ _ _ _ _ _ Hcl); [done|apply (op_fresh _ _ _ _ _ Ho)].
Qed.

(** [position] after the signature is the body the annotation records. *)
Lemma body_at (x : istate) sb s' f a A : opens (Some base) sb s' f a -> evolves a A -> i_reader x = v_reader s' ->
  position F x = body_offset A /\ 0 <= body_offset A <= UINT32_MAX.
Proof.
  intros Ho He Hr. destruct (ev_static _ _ He) as (_ & _ & -> & _). destruct (op_body _ _ _ _ _ Ho) as [-> Hm].
  split; [by apply position_at|]. destruct (op_opcode _ _ _ _ _ Ho) as (_ & Ho1 & _).
  destruct (offset_moved (Some base) sb s' (op_reader _ _ _ _ _ Ho)) as (d & Hd & Hoff & _). lia.
Qed.

Lemma exec_block_kind opcode f : between 0x02 opcode 0x04 = true ->
  ckind f = (if opcode =? 0x02 then CTRL_BLOCK else if opcode =? 0x03 then CTRL_LOOP else CTRL_IF) ->
  exec_kind (ckind f) = (if opcode =? 0x02 then CONTROL_BLOCK else if opcode =? 0x03 then CONTROL_LOOP else CONTROL_IF) /\
  (opcode = 0x04 -> ckind f = CTRL_IF).
Proof. intros _ ->. split; [by repeat destruct (_ =? _)|]. by intros ->. Qed.

Lemma block_good x sb s' opcode u : between 0x02 opcode 0x04 = true -> core x sb -> on_run s' ->
  op_block buf vrealloc vmalloc H ctx (Some base) opcode sb = (inr u, s') ->
  outcome (exec_block buf H ictx F realloc_ok sizeof_frame opcode x) (fun _ => good).
Proof.
  intros Hop Hc Hs' E. destruct (op_block_inv _ _ _ _ _ _ _ _ _ _ E) as (f & a & sg & vs & Ho & Hk & [_ Hann] & Hsg & Hst & Hen & Hlive).
  destruct (Hlive (co_live _ _ _ _ _ _ Hc)) as [Htk Hops]. destruct (exec_block_kind _ _ Hop Hk) as [Hek Hif].
  destruct (annotation_found _ _ _ _ Ho Hs') as (A & HA & Hat & Hev). pose proof (annotation_closed _ _ HA) as Hend.
  destruct (block_signatures_spec _ _ _ _ Hwf Hsame _ _ _ Hcount Hsg) as (es & Hes & Hxs & Hxe & _).
  destruct (op_opcode _ _ _ _ _ Ho) as (_ & Hp1 & Hp2). unfold exec_block.
  eapply outcome_step; [by apply (opcode_at_ok x sb); [apply Hc|..]|].
  eapply outcome_step; [by apply ineed_ok|]. eapply outcome_step; [apply iguard_ok, Z.eqb_neq; lia|].
  eapply outcome_step; [apply iparse_ok; rewrite (co_reader _ _ _ _ _ _ Hc); exact Hes|].
  set (x1 := Interp.set_reader (v_reader s') x). eapply outcome_step; [reflexivity|].
  destruct (body_at x1 _ _ _ _ _ Ho Hev eq_refl) as [Hpos Hbo].
  eapply outcome_step.
  { apply iguard_ok. rewrite Hpos. rewrite wrap_id by (split; simpl; unfold UINT32_MAX in *; lia).
    rewrite Z.eqb_refl, Z.gtb_ltb, (proj2 (Z.ltb_ge _ _)) by lia. done. }
  cbv zeta. assert (Hc1 : core x1 (set_reader (v_reader s') sb)) by (by apply core_reader).
  destruct (block_operands x1 (set_reader (v_reader s') sb) vs opcode Hc1 Hops) as (v & ws & Ep & Hws).
  eapply outcome_step; [exact Ep|]. rewrite <- Hek.
  set (x2 := Interp.set_stack _ x1). apply outcome_bind.
  destruct Hc as [C1 C2 C3 C4 C5 C6].
  eapply outcome_impl; [eapply (push_control_core x2 sb s' f a A es vs); try done|].
  - by rewrite Hst.
  - by destruct C6.
  - by rewrite Hst.
  - by rewrite Hen.
  - intros [] x3 Hc3. destruct (Z.eqb_spec opcode 4) as [->|]; simpl; [|left; by exists s'].
    destruct (as_i32 v =? 0); [|left; by exists s']. by eapply (if_false x3 sb s' f a A Ho (Hif eq_refl)).
Qed.

Lemma try_table_good x sb s' u : core x sb -> on_run s' ->
  op_try_table buf vrealloc vmalloc H ctx (Some base) sb = (inr u, s') ->
  outcome (exec_try_table buf H ictx F realloc_ok sizeof_frame x) (fun _ => good).
Proof.
  intros Hc Hs' E. destruct (op_try_table_inv _ _ _ _ _ _ _ _ _ E) as (f & a & sg & r & Ho & Hk & [Hak Hann] & Hsg & Hmv & Hst & Hen & Hlive).
  pose proof (Hlive (co_live _ _ _ _ _ _ Hc)) as Htk.
  destruct (annotation_found _ _ _ _ Ho Hs') as (A & HA & Hat & Hev). pose proof (annotation_closed _ _ HA) as Hend.
  destruct (block_signatures_spec _ _ _ _ Hwf Hsame _ _ _ Hcount Hsg) as (es & Hes & Hxs & Hxe & _).
  destruct (op_opcode _ _ _ _ _ Ho) as (_ & Hp1 & Hp2). destruct (ev_static _ _ Hev) as (Hkind & _). unfold exec_try_table.
  eapply outcome_step; [by apply (opcode_at_ok x sb); [apply Hc|..]|].
  eapply outcome_step; [by apply ineed_ok|].
  eapply outcome_step.
  { apply iguard_ok. rewrite Hkind, Hak, bool_decide_eq_true_2 by done. simpl. apply Z.eqb_neq. lia. }
  eapply outcome_step; [apply iparse_ok; rewrite (co_reader _ _ _ _ _ _ Hc); exact Hes|].
  set (x1 := Interp.set_reader r x). eapply outcome_step; [reflexivity|].
  destruct (body_at (Interp.set_reader (v_reader s') x) _ _ _ _ _ Ho Hev eq_refl) as [Hpos Hbo].
  assert (Hp : position F x1 <= body_offset A).
  { rewrite <- Hpos. unfold position. simpl. destruct Hmv as (d & Hd & ->). unfold x1, i_reader. simpl.
    unfold turbowasm_reader_remaining in Hd. destruct (cursor r); simpl; lia. }
  destruct (offset_bound _ _ _ _ _ (on_run_inv _ Hs')) as [[_ Hle] _].
  assert (Hbs : body_offset A = offset s') by (rewrite <- Hpos; by apply position_at).
  eapply outcome_step.
  { apply iguard_ok. rewrite (rf_size RF), !Z.gtb_ltb, !(proj2 (Z.ltb_ge _ _)) by lia. done. }
  eapply outcome_step; [reflexivity|].
  assert (Hrd : mk_reader (Some (default 0 (code F) + body_offset A)) (rend (i_reader x1)) = v_reader s').
  { rewrite (rf_code RF), Hbs, (reader_at s' Hs'). simpl. f_equal. destruct Hmv as (d & _ & Hd).
    change (i_reader x1) with r. rewrite (reader_at s' Hs') in Hd. unfold advance in Hd. by injection Hd. }
  rewrite Hrd. destruct Hc as [C1 C2 C3 C4 C5 C6]. change CONTROL_TRY_TABLE with (exec_kind CTRL_TRY_TABLE). rewrite <- Hk.
  eapply outcome_impl; [eapply (push_control_core _ sb s' f a A es (types_of sb)); try done|].
  - by rewrite Hst.
  - by destruct C6.
  - by rewrite Hst.
  - by rewrite Hen.
  - intros [] x3 Hc3. left. by exists s'.
Qed.

(** ** Else and end *)

(** The next instruction as the event of the innermost frame. *)
Lemma next_event s op sb s' fs g : byte buf s = (inr op, sb) -> step op sb = (inr false, s') -> rtc vstep s' s1 ->
  frames_of s = fs ++ [g] -> event buf vrealloc vmalloc H ctx t sem (Some base) s s1 (length fs) g op s sb s'.
Proof. intros Eb E Hr Hfs. constructor; try done. by rewrite Hfs, take_app_length. Qed.

Lemma last_frame (x : istate) fs g : Forall2 (frame_rel (controls_of F)) (frames (i_controls x)) (fs ++ [g]) ->
  exists xfs xf, frames (i_controls x) = xfs ++ [xf] /\ frame_rel (controls_of F) xf g /\
    Forall2 (frame_rel (controls_of F)) xfs fs.
Proof.
  intros (xfs & l & F1 & F2 & ->)%Forall2_app_inv_r. inversion F2 as [|xf ? ? ? Hrel Hnil]; subst. inversion Hnil; subst.
  by exists xfs, xf.
Qed.

Lemma inner_frame s fs g : on_run s -> frames_of s = fs ++ [g] -> ckind g <> CTRL_FUNCTION -> (1 <= length fs)%nat.
Proof.
  intros Hs Hfs Hk. destruct fs; simpl; [|lia]. destruct Hk. apply (function_frame s 0); [done|by rewrite Hfs|done].
Qed.

Lemma ends_typed x sb f : core x sb -> yields_ends H f sb ->
  Forall2 typed (values (i_stack x)) (take (Z.to_nat (cheight f)) (types_of sb) ++ end_types f).
Proof.
  intros Hc (vs & l & Hv & Hh & Hacc). pose proof (co_stack _ _ _ _ _ _ Hc) as Hs. rewrite Hv in Hs |- *.
  apply Forall2_app_inv_r in Hs as (ws & top & F1 & F2 & ->). rewrite Hh, Nat2Z.id, take_app_length.
  apply Forall2_app; [done|]. by eapply accepted_list.
Qed.

Lemma else_good x s sb s' : core x sb -> on_run s -> on_run s' -> byte buf s = (inr 0x05, sb) -> step 0x05 sb = (inr false, s') ->
  outcome (exec_else F x) (fun _ => good).
Proof.
  intros Hc Hs Hs' Eb E. assert (Eo : exists u, op_else vrealloc H (Some base) sb = (inr u, s')).
  { revert E. unfold dispatch. simpl. unfold no_end. intros E. vm_inv. by eexists. }
  destruct Eo as [u Eo]. destruct (op_else_turns _ _ _ _ _ _ Eo) as (fs & f & a & Ht).
  pose proof (tu_before _ _ _ _ _ _ Ht) as Hbef. destruct (byte_inv _ _ _ _ Eb) as [Hsb _].
  assert (Hfs : frames_of s = fs ++ [f]) by (by rewrite Hsb in Hbef).
  assert (Hnf : ckind f <> CTRL_FUNCTION) by (by rewrite (tu_kind _ _ _ _ _ _ Ht)).
  pose proof (inner_frame _ _ _ Hs Hfs Hnf) as Hone.
  pose proof (next_event _ _ _ _ _ _ Eb E (proj2 Hs') Hfs) as Hev.
  pose proof (ends_typed _ _ _ Hc (op_else_operands _ _ _ _ _ _ _ _ Eo Hbef (co_live _ _ _ _ _ _ Hc))) as Hval.
  destruct Hc as [C1 C2 C3 C4 C5 C6]. rewrite Hbef in C5. destruct (last_frame _ _ _ C5) as (xfs & xf & Hx & Hrel & Hxfs).
  destruct (fr_ann _ _ _ Hrel Hnf) as (A & HxA & HA). pose proof (annotation_closed _ _ HA) as Hend.
  pose proof HA as HA1. rewrite (rf_annotations RF) in HA1.
  assert (Ht' : turns (Some base) sb s' (take (length fs) (frames_of s)) f a) by (by rewrite Hfs, take_app_length).
  destruct (turned_annotation (on_run_inv _ Hs) Hev Ht' HA1) as [E1 E2].
  destruct (event_offset (on_run_inv _ Hs) Hev) as (_ & _ & Hob & Hlt). destruct (offset_bound _ _ _ _ _ (on_run_inv _ Hs)) as [Hb0 Hbm].
  destruct (turns_frames Hev Ht') as (Hw & Htk & Hbel); [rewrite Hfs, length_app; simpl; lia|].
  destruct (frame_event (proj2 Hs') last_frames (on_run_inv _ Hs') Hw Hone) as (op & sm & sb' & se & b & Hev2 & [[-> Ht2]|[-> Hcl]]).
  { by pose proof (tu_fresh _ _ _ _ _ _ Ht2). }
  destruct (closed_annotation (on_run_inv _ Hs') Hev2 Hcl HA1) as (E3 & _).
  assert (Hsm : on_run sm).
  { split; [etrans; [apply Hs'|apply (ev_before Hev2)]|]. etrans; [|apply (ev_after Hev2)]. apply rtc_once, (event_vstep Hev2). }
  unfold exec_else. eapply outcome_step; [reflexivity|].
  eapply outcome_step.
  { apply iguard_ok, Z.leb_gt. unfold controls_size. rewrite Hx, length_app. simpl. apply Forall2_length in Hxfs. lia. }
  eapply outcome_step; [apply (opcode_at_ok x sb); [done|lia|lia]|].
  eapply outcome_step; [apply (ineed_ok _ xf); by rewrite Hx, last_snoc|].
  eapply outcome_step.
  { apply iguard_ok. by rewrite (fr_kind _ _ _ Hrel), (tu_kind _ _ _ _ _ _ Ht), bool_decide_eq_true_2. }
  eapply outcome_step; [by apply ineed_ok|].
  eapply outcome_step.
  { apply iguard_ok. rewrite E1. replace (offset sb - 1) with (offset s) by lia. rewrite Z.eqb_refl. simpl. apply Z.eqb_neq. lia. }
  unfold ijump. rewrite (jump_to sm) by done. right; left. exists sm.
  assert (Hfm : frames_of sm = fs ++ [with_else_seen f]).
  { rewrite (ev_frames Hev2), Htk, Hfs. by rewrite take_app_length. }
  constructor; [constructor; try done|done|].
  - rewrite Hfm. rewrite Hbef in C3. apply Forall_app in C3 as [C3 C3']. apply Forall_app. split; [done|].
    rewrite Forall_singleton in C3' |- *. exact C3'.
  - simpl. rewrite Hfm, Hx. apply Forall2_app; [done|]. constructor; [by apply frame_rel_else|constructor].
  - by destruct C6.
  - exists (take (length fs) (frames_of s')), (with_else_seen f), sb', se, b. split_and!; [apply (ev_frames Hev2)|apply (ev_byte Hev2)|
      apply (ev_step Hev2)| |done|].
    + split; [|apply (ev_after Hev2)]. eapply rtc_r; [apply Hsm|apply (event_vstep Hev2)].
    + pose proof (ev_below Hev2) as Hb2. unfold below in Hb2, Hbel. simpl in *. rewrite Hb2, Hbel. by rewrite Hsb in Hval.
Qed.

Lemma end_good x s sb : at_end x s -> byte buf s = (inr 0x0b, sb) ->
  outcome (exec_end F (Interp.set_reader (v_reader sb) x)) (fun _ => good).
Proof.
  intros [W Hr (fs & g & sb' & se & a & Hfs & Eb' & E & Hse & Hcl & Hval)] Eb.
  assert (sb' = sb) as -> by congruence. pose proof (wi_run _ _ W) as Hs.
  pose proof (cl_kind _ _ _ _ _ _ Hcl) as Hnf. pose proof (inner_frame _ _ _ Hs Hfs Hnf) as Hone.
  pose proof (next_event _ _ _ _ _ _ Eb E (proj2 Hse) Hfs) as Hev.
  destruct W as [_ W2 W3 W4]. rewrite Hfs in W3. destruct (last_frame _ _ _ W3) as (xfs & xf & Hx & Hrel & Hxfs).
  destruct (fr_ann _ _ _ Hrel Hnf) as (A & HxA & HA). pose proof HA as HA1. rewrite (rf_annotations RF) in HA1.
  assert (Hcl' : closes (Some base) sb se (take (length fs) (frames_of s)) g a) by (by rewrite Hfs, take_app_length).
  destruct (closed_annotation (on_run_inv _ Hs) Hev Hcl' HA1) as (E1 & _).
  destruct (event_offset (on_run_inv _ Hs) Hev) as (_ & _ & Hob & Hlt). destruct (offset_bound _ _ _ _ _ (on_run_inv _ Hs)) as [Hb0 Hbm].
  destruct (byte_inv _ _ _ _ Eb) as [Hsb _].
  destruct (cl_values _ _ _ _ _ _ Hcl) as (vs & Hty & Hh & Hpre). rewrite Hsb in Hpre. simpl in Hpre.
  rewrite <- (prefix_heights _ _ _ Hpre Hh) in Hval.
  assert (Hsz : controls_size (i_controls x) = Z.of_nat (length fs) + 1).
  { unfold controls_size. rewrite Hx, length_app. simpl. apply Forall2_length in Hxfs. lia. }
  unfold exec_end. eapply outcome_step; [reflexivity|]. cbv beta.
  change (i_controls (Interp.set_reader (v_reader sb) x)) with (i_controls x).
  rewrite Hsz, (proj2 (Z.eqb_neq _ _)) by lia.
  eapply outcome_step; [apply (opcode_at_ok _ sb); [done|lia|lia]|].
  eapply outcome_step; [apply (ineed_ok _ xf); by rewrite Hx, last_snoc|].
  eapply outcome_step; [by apply ineed_ok|].
  eapply outcome_step.
  { apply iguard_ok. rewrite E1. replace (offset sb - 1) with (offset s) by lia. by rewrite Z.eqb_refl. }
  unfold ifinish, turbowasm_exec_finish_control. change (i_controls (Interp.set_reader (v_reader sb) x)) with (i_controls x).
  change (i_stack (Interp.set_reader (v_reader sb) x)) with (i_stack x).
  rewrite Hsz, (proj2 (Z.leb_gt _ _)), Hx, last_snoc by lia.
  destruct (rebase_labels (i_stack x) vs (end_types g) (end_types g) (cheight g) Hval eq_refl ltac:(lia)) as (ws & Hrb & Hws).
  rewrite (fr_height _ _ _ Hrel), (fr_ends _ _ _ Hrel), Hrb, length_app, Nat.add_sub, take_app_length.
  rewrite Hh, Nat2Z.id, firstn_all in Hws. left. exists se. split; [|done].
  destruct W4 as [R1 R2 R3 R4 R5]. rewrite Hfs in W2. apply Forall_app in W2 as [W2 W2']. constructor; simpl; try done.
  - by rewrite (cl_reader _ _ _ _ _ _ Hcl).
  - rewrite (cl_live _ _ _ _ _ _ Hcl). by rewrite Forall_singleton in W2'.
  - by rewrite (cl_after _ _ _ _ _ _ Hcl).
  - by rewrite Hty.
  - by rewrite (cl_after _ _ _ _ _ _ Hcl).
  - constructor; simpl; try done. unfold controls_size in *. simpl in *. apply Forall2_length in Hxfs. lia.
Qed.

(** An end in reachable code. *)
Lemma sim_at_end x s sb s' : sim x s -> byte buf s = (inr 0x0b, sb) -> step 0x0b sb = (inr false, s') -> on_run s' -> at_end x s.
Proof.
  intros [Hc Hs] Eb E Hs'. assert (Eo : op_end vrealloc H t (Some base) sb = (inr false, s')) by exact E.
  destruct (op_end_shape _ _ _ _ _ _ _ Eo) as [[? _]|(_ & fs & g & a & Hcl)]; [done|].
  destruct (byte_inv _ _ _ _ Eb) as [Hsb _]. pose proof (cl_before _ _ _ _ _ _ Hcl) as Hbef.
  assert (Hcb : core (Interp.set_reader (v_reader sb) x) sb) by (rewrite Hsb; by apply core_reader).
  pose proof (ends_typed _ _ _ Hcb (op_end_operands _ _ _ _ _ _ _ _ Eo Hbef (co_live _ _ _ _ _ _ Hcb))) as Hval.
  constructor; [by apply sim_within|apply Hc|]. exists fs, g, sb, s', a. rewrite Hsb in Hbef, Hval. by split_and!.
Qed.

End Control.

End InterpControl.
