(* ===== verification/InterpSound.v ===== *)
(** * Accepted bodies run safely

    One round of the interpreter's loop on an accepted body: the branch
    instructions, the last [end], and the whole switch. *)

From S2P Require Import Prelude Reader Value Types TypeEq TypeReader Context ExecStack Numeric Memory.
From S2P Require Import Validator ValidatorSteps ValidatorFrames ValidatorRun ValidatorPaths InterpBlocks Interp InterpFuel InterpSim InterpData.
From S2P Require Import InterpControl.

Module InterpSound.
Import Interp Reader Value Types TypeEq TypeReader ExecStack Numeric Context Validator ValidatorSteps ValidatorFrames
  ValidatorRun ValidatorPaths InterpBlocks InterpFuel InterpSim InterpData InterpControl.

Section Sound.
Context {host : Type}.
Context (buf : list Z) (H : type_heap) (ctx ictx : turbowasm_validation_context).
Context (vrealloc vmalloc : Z -> bool) (t : turbowasm_validation_func_type) (sem : list turbowasm_validation_value_type).
Context (F : turbowasm_validation_function) (inst : nat) (realloc_ok : Z -> bool) (sizeof_value sizeof_frame : Z).
Context (base total : Z) (s0 s1 s2 : vstate).

Abbreviation istate := (@istate host).
Abbreviation im := (@im host).
Abbreviation offset := (code_offset (Some base)).
Abbreviation step := (dispatch buf vrealloc vmalloc H ctx t sem (Some base)).
Abbreviation vstep := (vstep buf vrealloc vmalloc H ctx t sem (Some base)).
Abbreviation vfinal := (vfinal buf vrealloc vmalloc H ctx t sem (Some base)).
Abbreviation inv := (vinv t (Some base) total (length sem)).
Abbreviation frames_of s := (cframes (v_controls s)).
Abbreviation types_of s := (tvalues (v_stack s)).
Abbreviation core := (@core host ctx sem F inst).
Abbreviation on_run := (on_run buf H ctx vrealloc vmalloc t sem base s0 s1).
Abbreviation good := (@good host buf H ctx vrealloc vmalloc t sem F inst base s0 s1).
Abbreviation sim := (@sim host buf H ctx vrealloc vmalloc t sem F inst base s0 s1).
Abbreviation done_with := (@done_with host t).
Abbreviation run_facts := (run_facts buf H ctx vrealloc vmalloc t sem F base total s0 s1 s2).

Context (RF : run_facts).
Context (Hwf : heap_wf H) (Hsame : same_types ctx ictx) (Hcount : type_count (types ctx) <= UINT32_MAX).
Context (Hfuncs : count (functions ictx) = count (functions ctx)).

(** ** Branches *)

(** In [s], the operands for a branch of this depth are in place. *)
Definition offers (s : vstate) (depth : Z) : Prop :=
  exists g vs l, turbowasm_control_target (v_controls s) depth = Some g /\ types_of s = vs ++ l /\
    Forall2 (accepted H) l (turbowasm_control_label_types g) /\ floor (v_stack s) <= Z.of_nat (length vs).

(** A state in the middle of the instruction at [s]. *)
Definition amid (s sc : vstate) : Prop := on_run s /\ plain s sc.

Lemma amid_stays {A} (m : vm A) s sc a sc' : stays m -> amid s sc -> m sc = (inr a, sc') -> amid s sc'.
Proof. intros Hm [Hs Hp] E. split; [done|]. eapply plain_trans; [exact Hp|]. by eapply (st_plain _ Hm). Qed.

Lemma amid_start s op sb : on_run s -> byte buf s = (inr op, sb) -> amid s sb.
Proof. intros Hs Eb. split; [done|]. by eapply (st_plain _ (stays_byte _)). Qed.

Lemma amid_floor s sc : amid s sc -> floor_ok (v_stack sc).
Proof.
  intros [Hs Hp]. apply (pl_base _ _ Hp). apply (vi_floor _ _ _ _ _ (on_run_inv _ _ _ _ _ _ _ _ _ _ _ _ _ RF _ Hs)).
Qed.

Lemma branch_offered x s sc depth : amid s sc -> core x sc -> 0 <= depth -> offers sc depth ->
  outcome (ibranch F depth x) (fun _ => good).
Proof.
  intros [Hs Hp] Hc Hd (g & vs & l & Ht & Hty & Hacc & Hfl).
  pose proof (on_run_inv _ _ _ _ _ _ _ _ _ _ _ _ _ RF _ Hs) as Hv. pose proof (pl_frames _ _ Hp) as Hfr.
  assert (Hgs : g ∈ frames_of s).
  { unfold turbowasm_control_target in Ht. destruct (_ >=? _); [done|]. apply list_elem_of_lookup_2 in Ht. by rewrite Hfr in Ht. }
  destruct (frame_heights _ _ _ _ _ Hv g Hgs) as [Hh0 Hhf]. rewrite (pl_floor _ _ Hp) in Hfl.
  pose proof (plain_below _ _ _ _ _ _ _ Hv Hp Hgs) as Hb. unfold below in Hb.
  destruct Hc as [C1 C2 C3 C4 C5 C6]. pose proof C4 as C4'. rewrite Hty in C4'.
  apply Forall2_app_inv_r in C4' as (ws & top & F1 & F2 & Ews). destruct (accepted_list H _ _ _ Hacc F2) as [_ Hfaces].
  apply (branch_good buf H ctx vrealloc vmalloc t sem F inst base total s0 s1 s2 RF x s depth g vs l); [|done| | |done| |lia].
  - rewrite Hfr in C3, C5. by constructor.
  - unfold turbowasm_control_target, csize in *. by rewrite <- Hfr.
  - by rewrite Hty in C4.
  - rewrite <- Hb, Hty. rewrite take_app_le by lia. done.
Qed.

Lemma offers_pop s sc depth g sc' : amid s sc -> unreachable (v_stack sc) = false ->
  turbowasm_control_target (v_controls sc) depth = Some g ->
  turbowasm_stack_pop_types H (turbowasm_control_label_types g) sc = (inr tt, sc') -> offers sc depth.
Proof.
  intros Ha Hu Ht E. destruct (pop_types_inv _ _ _ _ _ E) as (vs & -> & _ & Hl). destruct (Hl Hu) as (l & Hv & Hacc).
  exists g, vs, l. split_and!; try done.
  destruct (amid_floor _ _ (amid_stays _ _ _ _ _ (stays_pop_types _ _) Ha E)) as [_ Hf]. exact Hf.
Qed.

(** Operands that are popped and pushed back as the label types. *)
Lemma retyped x sc ts sc1 u sc2 : core x sc -> turbowasm_stack_pop_types H ts sc = (inr tt, sc1) ->
  turbowasm_stack_push_types vrealloc ts sc1 = (inr u, sc2) -> core x sc2.
Proof.
  intros [C1 C2 C3 C4 C5 C6] E1 E2. destruct (pop_types_inv _ _ _ _ _ E1) as (vs & -> & _ & Hl).
  destruct (Hl C2) as (l & Hv & Hacc). destruct (push_types_inv _ _ _ _ _ E2) as (cap & -> & _). constructor; simpl; try done.
  rewrite Hv in C4. apply Forall2_app_inv_r in C4 as (ws & top & F1 & F2 & ->). apply Forall2_app; [done|].
  by eapply accepted_list.
Qed.

Lemma control_branch_inv depth c s u s' : turbowasm_control_branch vrealloc H depth c s = (inr u, s') ->
  exists g sc, turbowasm_control_target (v_controls s) depth = Some g /\
    turbowasm_stack_pop_types H (turbowasm_control_label_types g) s = (inr tt, sc) /\
    (if c : bool then turbowasm_stack_push_types vrealloc (turbowasm_control_label_types g) sc
     else turbowasm_control_mark_unreachable sc) = (inr u, s').
Proof.
  unfold turbowasm_control_branch. intros E. vm_inv.
  match goal with E : turbowasm_stack_pop_types _ _ _ = (inr ?u, _) |- _ => destruct u end.
  eexists _, _. split_and!; [eassumption..|by destruct c].
Qed.

Lemma uleb32_inv s n s' : uleb32 buf s = (inr n, s') ->
  0 <= n /\ exists r, turbowasm_reader_uleb32 buf (v_reader s) = (Some n, r) /\ s' = set_reader r s.
Proof.
  unfold uleb32. intros (r & Er & ->)%lift_inv. unfold decode in Er.
  destruct (turbowasm_reader_uleb32 buf (v_reader s)) as [[z|] r1] eqn:Ez; [|done]. injection Er as -> ->.
  split; [by apply uleb32_range in Ez as [? _]|by exists r].
Qed.

Lemma uleb32_nonneg s n s' : uleb32 buf s = (inr n, s') -> 0 <= n.
Proof. by intros [? _]%uleb32_inv. Qed.

Lemma idecode_uleb32 (x : istate) s n s' : uleb32 buf s = (inr n, s') -> i_reader x = v_reader s ->
  idecode (turbowasm_reader_uleb32 buf) x = (inr n, Interp.set_reader (v_reader s') x).
Proof.
  intros (_ & r & Er & ->)%uleb32_inv Hr. unfold idecode, iparse, decode. by rewrite Hr, Er.
Qed.

Lemma br_good x s sb s' opcode u : between 0x0c opcode 0x0d = true -> amid s sb -> core x sb -> on_run s' ->
  op_branch buf vrealloc vmalloc H t opcode sb = (inr u, s') ->
  outcome (exec_br buf F opcode x) (fun _ => good).
Proof.
  intros Hop Ha Hc Hs' E. assert (Hop' : (opcode =? 0x0c) || (opcode =? 0x0d) = true).
  { unfold between in Hop. rewrite andb_true_iff, !Z.leb_le in Hop. rewrite orb_true_iff, !Z.eqb_eq. lia. }
  unfold op_branch in E. rewrite Hop' in E. vm_inv. unfold exec_br.
  match goal with E : uleb32 _ _ = (inr ?d, ?sc) |- _ => rename E into Ed; rename d into depth; rename sc into sc1 end.
  pose proof (uleb32_nonneg _ _ _ Ed) as Hd.
  apply outcome_bind. eapply outcome_impl; [by eapply lock_uleb32|]. intros ? x1 [Hc1 <-].
  pose proof (amid_stays _ _ _ _ _ (stays_uleb32 _) Ha Ed) as Ha1.
  destruct (opcode =? 0x0d) eqn:E0d.
  - match goal with E : turbowasm_stack_pop _ _ _ = (inr _, ?sc) |- _ => rename E into Ep; rename sc into sc2 end.
    apply outcome_bind. eapply outcome_impl; [eapply (lock_pop_carrier H _ _ _ _ TW_I32 _ eq_refl eq_refl); [exact Hc1|exact Ep]|]. intros v x2 [Hc2 _].
    pose proof (amid_stays _ _ _ _ _ (stays_pop_carrier _ _) Ha1 Ep) as Ha2.
    destruct (control_branch_inv _ _ _ _ _ E) as (g & sc & Ht & Epop & Epush).
    destruct (as_i32 v =? 0).
    + left. exists s'. split; [|done]. by eapply retyped.
    + eapply branch_offered; [done..|]. eapply offers_pop; [done|apply Hc2|done..].
  - vm_inv. destruct (control_branch_inv _ _ _ _ _ E) as (g & sc & Ht & Epop & _).
    eapply branch_offered; [done..|]. eapply offers_pop; [done|apply Hc1|done..].
Qed.

(** *** br_table *)

Lemma read_depths_inv n : forall s ds s', read_depths buf n s = (inr ds, s') ->
  length ds = n /\ Forall (Z.le 0) ds /\ s' = set_reader (v_reader s') s.
Proof.
  induction n as [|n IH]; intros s ds s' E; cbn [read_depths] in E; vm_inv; [by destruct s'|].
  match goal with E : uleb32 _ _ = _ |- _ => apply uleb32_inv in E as (Hn & r & _ & ->) end.
  match goal with E : read_depths _ _ _ = _ |- _ => apply IH in E as (<- & Hds & ->) end. simpl. split_and!; [done|by constructor|done].
Qed.

(** The depth the interpreter picks while it reads the table. *)
Lemma select_depth_spec n : forall s ds s' (x : istate) index selector selected, read_depths buf n s = (inr ds, s') ->
  i_reader x = v_reader s ->
  select_depth buf n index selector selected x =
    (inr (default selected (if selector <? index then None else ds !! Z.to_nat (selector - index))),
     Interp.set_reader (v_reader s') x).
Proof.
  induction n as [|n IH]; intros s ds s' x index selector selected E Hr; cbn [read_depths select_depth] in *; vm_inv.
  - destruct (selector <? index); rewrite ?lookup_nil; rewrite <- Hr; by destruct x as [[] ? ? ? ? ? ?].
  - match goal with E : uleb32 _ _ = _ |- _ => rename E into Ed end. unfold mbind, im_bind.
    rewrite (idecode_uleb32 _ _ _ _ Ed Hr). erewrite IH; [|eassumption|done].
    destruct (Z.eqb_spec selector index) as [->|Hne].
    + rewrite (proj2 (Z.ltb_lt _ _)) by lia. by rewrite Z.ltb_irrefl, Z.sub_diag.
    + destruct (Z.ltb_spec selector index).
      * by rewrite (proj2 (Z.ltb_lt _ _)) by lia.
      * rewrite (proj2 (Z.ltb_ge _ _)) by lia.
        by replace (Z.to_nat (selector - index)) with (S (Z.to_nat (selector - (index + 1)))) by lia.
Qed.

Lemma offers_ext sc sc' depth : v_controls sc' = v_controls sc -> types_of sc' = types_of sc ->
  floor (v_stack sc') = floor (v_stack sc) -> offers sc' depth -> offers sc depth.
Proof. unfold offers. by intros -> -> ->. Qed.

(** Checking the labels changes nothing but the capacity. *)
Lemma check_labels_inv s ds : forall sc n u sc', amid s sc -> unreachable (v_stack sc) = false ->
  check_labels vrealloc H ds n sc = (inr u, sc') ->
  v_controls sc' = v_controls sc /\ types_of sc' = types_of sc /\ floor (v_stack sc') = floor (v_stack sc) /\
  unreachable (v_stack sc') = false /\ Forall (offers sc) ds.
Proof.
  induction ds as [|d ds IH]; intros sc n u sc' Ha Hu E; cbn [check_labels] in E; vm_inv; [done|].
  match goal with E : turbowasm_stack_pop_types_actual _ _ _ = (inr ?k, _) |- _ => rename E into Ep; rename k into l end.
  match goal with E : turbowasm_stack_push_types _ _ _ = (inr _, _) |- _ => rename E into Epu end.
  match goal with G : turbowasm_control_target _ _ = Some ?x |- _ => rename x into g; rename G into Ht end.
  pose proof (amid_stays _ _ _ _ _ (stays_pop_types_actual _ _) Ha Ep) as Ha1.
  pose proof (amid_stays _ _ _ _ _ (stays_push_types _ _) Ha1 Epu) as Ha2.
  destruct (amid_floor _ _ Ha1) as [_ Hf].
  destruct (pop_types_actual_inv _ _ _ _ _ Ep) as (vs & -> & _ & Hl). destruct (Hl Hu) as [Hv Hacc].
  destruct (push_types_inv _ _ _ _ _ Epu) as (cap & -> & _). simpl in *.
  destruct (IH _ _ _ _ Ha2 Hu E) as (E1 & E2 & E3 & E4 & E5). simpl in *. rewrite <- Hv in E2. split_and!; try done.
  constructor; [by exists g, vs, l|]. eapply Forall_impl; [exact E5|]. intros d' Hd'.
  eapply offers_ext; [..|exact Hd']; try done; simpl; congruence.
Qed.

Lemma pop_carrier_inv c sc u sc' : turbowasm_stack_pop H c sc = (inr u, sc') ->
  exists ts, sc' = popped ts sc /\ (unreachable (v_stack sc) = false ->
    exists a, types_of sc = ts ++ [a] /\ accepted H a (turbowasm_validation_value_type_legacy c)).
Proof.
  unfold turbowasm_stack_pop, turbowasm_stack_pop_semantic. intros E. vm_inv.
  match goal with E : turbowasm_stack_pop_semantic_actual _ _ _ = _ |- _ =>
    destruct (pop_actual_inv _ _ _ _ _ E) as (ts & -> & _ & Hl) end.
  exists ts. split; [done|]. intros Hu. destruct (Hl Hu) as (Hv & _ & Ha). by eexists.
Qed.

Lemma br_table_good x s sb s' u : amid s sb -> core x sb -> on_run s' ->
  turbowasm_validate_br_table buf vrealloc vmalloc H sb = (inr u, s') ->
  outcome (turbowasm_exec_br_table buf F x) (fun _ => good).
Proof.
  intros Ha Hc Hs' E. unfold turbowasm_validate_br_table in E. vm_inv.
  match goal with E : uleb32 _ sb = (inr ?k, ?sc) |- _ => rename E into En; rename k into n; rename sc into sc1 end.
  match goal with E : read_depths _ _ _ = (inr ?l, ?sc) |- _ => rename E into Eds; rename l into ds; rename sc into sc2 end.
  match goal with E : uleb32 _ sc2 = (inr ?k, ?sc) |- _ => rename E into Ed; rename k into d; rename sc into sc3 end.
  match goal with E : turbowasm_stack_pop _ _ _ = (inr _, ?sc) |- _ => rename E into Ep; rename sc into sc4 end.
  match goal with E : check_labels _ _ _ _ _ = (inr _, ?sc) |- _ => rename E into Ec; rename sc into sc5 end.
  match goal with E : turbowasm_stack_pop_types _ _ _ = (inr ?u, ?sc) |- _ => rename E into Epd; destruct u end.
  match goal with G : turbowasm_control_target _ _ = Some ?x |- _ => rename x into g; rename G into Ht end.
  pose proof (amid_stays _ _ _ _ _ (stays_uleb32 _) Ha En) as A1. pose proof (amid_stays _ _ _ _ _ (stays_depths _ _) A1 Eds) as A2.
  pose proof (amid_stays _ _ _ _ _ (stays_uleb32 _) A2 Ed) as A3. pose proof (amid_stays _ _ _ _ _ (stays_pop_carrier _ _) A3 Ep) as A4.
  pose proof (amid_stays _ _ _ _ _ (stays_check_labels _ _ _ _) A4 Ec) as A5.
  destruct (uleb32_inv _ _ _ En) as (Hn & r1 & _ & Hsc1). destruct (read_depths_inv _ _ _ _ Eds) as (Hlen & Hpos & Hsc2).
  destruct (uleb32_inv _ _ _ Ed) as (Hd & r3 & _ & Hsc3).
  assert (Hsc : sc3 = set_reader (v_reader sc3) sb) by (rewrite Hsc3, Hsc2, Hsc1; done).
  destruct (pop_carrier_inv _ _ _ _ Ep) as (ts & Hsc4 & Hl).
  assert (Hu3 : unreachable (v_stack sc3) = false) by (rewrite Hsc; apply Hc). destruct (Hl Hu3) as (top & Hts & Hacc).
  rewrite Hsc in Hts. simpl in Hts. destruct (core_top _ _ _ _ _ _ _ _ Hc Hts) as (ws & v & Hx & Hws & Hva).
  destruct (accepted_typed H v top (turbowasm_validation_value_type_legacy TW_I32) Hacc Hva) as [_ [_ Hk]]. rewrite legacy_carrier in Hk.
  assert (Hu4 : unreachable (v_stack sc4) = false) by (by rewrite Hsc4).
  destruct (check_labels_inv _ _ _ _ _ _ A4 Hu4 Ec) as (E1 & E2 & E3 & E4 & Hoff).
  assert (Hdef : offers sc4 d).
  { eapply offers_ext; [exact E1|exact E2|exact E3|]. eapply offers_pop; [exact A5|done|rewrite E1, Hsc4; exact Ht|exact Epd]. }
  unfold turbowasm_exec_br_table.
  eapply outcome_step; [by apply (idecode_uleb32 _ _ _ _ En), (co_reader _ _ _ _ _ _ Hc)|].
  eapply outcome_step; [by apply (ipop_kind_snoc _ ws v); [exact Hx|exact Hk]|].
  set (sel := u32 (as_i32 v)). assert (Hsel : 0 <= sel) by (apply (wrap_range 32); lia).
  set (x2 := Interp.set_stack _ _).
  assert (Hfinal : forall e, offers sc4 e -> 0 <= e -> outcome (ibranch F e (Interp.set_reader (v_reader sc3) x2)) (fun _ => good)).
  { intros e He H0. eapply branch_offered; [exact A4| |done|exact He]. rewrite Hsc4, Hsc.
    exact (core_popped _ _ _ _ _ _ _ _ (stack_capacity (i_stack x)) (core_reader _ _ _ _ _ _ (v_reader sc3) Hc) Hws). }
  eapply outcome_step; [apply (select_depth_spec _ _ _ _ _ _ _ _ Eds); reflexivity|].
  eapply outcome_step; [apply (idecode_uleb32 _ _ _ _ Ed); reflexivity|].
  destruct (Z.geb_spec sel n) as [Hge|Hlt]; [by apply Hfinal|].
  rewrite (proj2 (Z.ltb_ge _ _)), Z.sub_0_r by lia.
  destruct (lookup_lt_is_Some_2 ds (Z.to_nat sel)) as [e He]; [lia|]. rewrite He. simpl.
  rewrite Forall_lookup in Hoff, Hpos. apply Hfinal; [by eapply Hoff|by eapply Hpos].
Qed.

(** *** return *)

Lemma return_good x s sb s' u : amid s sb -> core x sb -> on_run s' ->
  op_branch buf vrealloc vmalloc H t 0x0f sb = (inr u, s') -> outcome (exec_return F x) (fun _ => good).
Proof.
  intros Ha Hc Hs' E. unfold op_branch in E. simpl in E. vm_inv.
  match goal with E : turbowasm_pop_results _ _ _ = (inr ?u, ?sc) |- _ => rename E into Ep; destruct u end.
  unfold exec_return. eapply outcome_step; [reflexivity|].
  pose proof (on_run_inv _ _ _ _ _ _ _ _ _ _ _ _ _ RF _ (proj1 Ha)) as Hv.
  destruct (vi_bottom _ _ _ _ _ Hv) as (f0 & fs & Hfs & Hk0 & _ & He0 & _). pose proof (pl_frames _ _ (proj2 Ha)) as Hfr.
  pose proof (Forall2_length _ _ _ (co_frames _ _ _ _ _ _ Hc)) as Hlen. pose proof (re_depth _ _ _ _ (co_rest _ _ _ _ _ _ Hc)) as Hd.
  unfold controls_size in *. rewrite Hfr, Hfs in Hlen. simpl in Hlen.
  rewrite wrap_id by (split; simpl; unfold UINT32_MAX in *; lia).
  assert (Ht : turbowasm_control_target (v_controls sb) (Z.of_nat (length (frames (i_controls x))) - 1) = Some f0).
  { unfold turbowasm_control_target, csize. rewrite Hfr, Hfs, Hlen. cbn [length]. rewrite Z.geb_leb, (proj2 (Z.leb_gt _ _)) by lia.
    by replace (Z.to_nat _) with 0%nat by lia. }
  eapply branch_offered; [exact Ha|done|lia|]. eapply offers_pop; [exact Ha|apply Hc|exact Ht|].
  unfold turbowasm_control_label_types. rewrite Hk0. simpl. rewrite He0. exact Ep.
Qed.

(** *** br_on_null, br_on_non_null *)

Lemma pop_reference_inv sc a sc1 (k : vm unit) u s' :
  turbowasm_stack_pop_any_semantic sc = (inr a, sc1) -> unreachable (v_stack sc) = false ->
  (_ ← reject_if (negb (carrier a =? TW_ANY) && negb (is_reference a)); k) sc1 = (inr u, s') ->
  unreachable (v_stack sc1) = false /\ (valid a -> is_reference a = true) /\ k sc1 = (inr u, s').
Proof.
  intros E Hu Ek. vm_inv. split_and!; [|intros Hv|done].
  - destruct (pop_any_inv _ _ _ E) as (_ & [(_ & Hx & _)|(ts & _ & _ & ->)]); [congruence|done].
  - match goal with G : _ && _ = false |- _ => rewrite valid_not_any in G by done; by apply negb_false_iff end.
Qed.

Lemma split_last {A} (vs l : list A) ts a : ts ++ [a] = vs ++ l -> l <> [] -> exists l0, l = l0 ++ [a] /\ ts = vs ++ l0.
Proof.
  intros E Hl. destruct (exists_last Hl) as (l0 & b & ->). exists l0. rewrite app_assoc in E.
  by apply app_inj_2 in E as [-> [= ->]].
Qed.

Lemma ref_branch_good x s sb s' opcode u : between 0xd5 opcode 0xd6 = true -> amid s sb -> core x sb -> on_run s' ->
  turbowasm_validate_ref_branch buf vrealloc H (opcode =? 0xd6) sb = (inr u, s') ->
  outcome (exec_ref_branch buf F realloc_ok sizeof_value opcode x) (fun _ => good).
Proof.
  intros Hop Ha Hc Hs' E. unfold turbowasm_validate_ref_branch in E.
  apply bind_inv in E as (depth & sc1 & Ed & E). apply bind_inv in E as (q & q' & Eq & E). apply get_inv in Eq as [-> ->].
  apply bind_inv in E as (g & q' & Eg & E). apply need_inv in Eg as [Ht ->].
  apply bind_inv in E as (a & sc2 & Ep & E).
  pose proof (amid_stays _ _ _ _ _ (stays_uleb32 _) Ha Ed) as A1. pose proof (amid_stays _ _ _ _ _ stays_pop_any A1 Ep) as A2.
  pose proof (uleb32_nonneg _ _ _ Ed) as Hd. unfold exec_ref_branch.
  assert (Hd4 : (opcode =? 0xd4) = false).
  { unfold between in Hop. rewrite andb_true_iff, !Z.leb_le in Hop. apply Z.eqb_neq. lia. }
  rewrite Hd4. cbn [negb andb]. apply outcome_bind. eapply outcome_impl; [by eapply lock_uleb32|]. intros ? x1 [Hc1 <-].
  pose proof (co_live _ _ _ _ _ _ Hc1) as Hu1.
  destruct (pop_reference_inv _ _ _ _ _ _ Ep Hu1 E) as (Hu2 & Href & E'). clear E.
  assert (Htgt : turbowasm_control_target (v_controls sc2) depth = Some g).
  { destruct (pop_any_inv _ _ _ Ep) as (_ & [(_ & _ & _ & ->)|(ts & _ & _ & ->)]); done. }
  apply outcome_bind. eapply outcome_impl; [by eapply lock_pop_any|]. intros v x2 [Hc2 Hv].
  destruct (typed_reference _ _ Hv (Href (proj1 Hv))) as [isnull Hnull].
  eapply outcome_step; [by apply ineed_ok|]. clear x Hc.
  assert (Hcase : opcode = 0xd5 \/ opcode = 0xd6).
  { unfold between in Hop. rewrite andb_true_iff, !Z.leb_le in Hop. lia. }
  destruct Hcase as [->| ->]; cbn in E' |- *.
  - apply bind_inv in E' as ([] & sc3 & Eb & Epush). destruct (control_branch_inv _ _ _ _ _ Eb) as (g' & sc & Ht' & Epop & Eback).
    destruct isnull; simpl.
    + eapply outcome_step; [reflexivity|]. eapply branch_offered; [exact A2|done|done|]. by eapply offers_pop.
    + apply outcome_bind. assert (Hc3 : core x2 sc3) by (by eapply retyped).
      eapply outcome_impl; [eapply (lock_push ctx vrealloc sem F inst realloc_ok sizeof_value _ v); [by apply typed_nullable|exact Hc3|exact Epush]|].
      intros [] x3 [Hc4 _]. left. by exists s'.
  - apply bind_inv in E' as ([] & q & Erj & E'). apply reject_inv in Erj as [Hlast ->].
    apply bind_inv in E' as ([] & sc3 & Epush & E'). apply bind_inv in E' as ([] & sc4 & Epop & Eback).
    pose proof (amid_stays _ _ _ _ _ (stays_push _ _) A2 Epush) as A3.
    destruct isnull; simpl.
    + left. exists s'. split; [|done].
      destruct (push_inv _ _ _ _ _ Epush) as (cap & Hsc3 & _). destruct (pop_types_inv _ _ _ _ _ Epop) as (vs & Hsc4 & _ & Hl).
      assert (Hu3 : unreachable (v_stack sc3) = false) by (by rewrite Hsc3).
      destruct (Hl Hu3) as (l & Hty & Hacc). rewrite Hsc3 in Hty. simpl in Hty.
      destruct (split_last _ _ _ _ Hty) as (l0 & -> & Hts).
      { intros ->. apply Forall2_nil_inv_l in Hacc. by rewrite Hacc in Hlast. }
      apply Forall2_app_inv_l in Hacc as (la & lb & Hacc & Hb & Hlab). inversion Hb as [|? y ? ? ? Hnil]; subst.
      inversion Hnil; subst. destruct (push_types_inv _ _ _ _ _ Eback) as (cap' & -> & _).
      destruct Hc2 as [C1 C2 C3 C4 C5 C6]. constructor; simpl; try done. rewrite Hlab, length_app, Nat.add_sub, take_app_length.
      rewrite Hts in C4. apply Forall2_app_inv_r in C4 as (w1 & w2 & F1 & F2 & ->). apply Forall2_app; [done|].
      by eapply accepted_list.
    + apply outcome_bind.
      eapply outcome_impl; [eapply (lock_push ctx vrealloc sem F inst realloc_ok sizeof_value _ v); [by apply typed_nullable|exact Hc2|exact Epush]|].
      intros [] x3 [Hc3 _]. eapply branch_offered; [exact A3|done|done|]. eapply offers_pop; [exact A3|apply Hc3| |exact Epop].
      destruct (push_inv _ _ _ _ _ Epush) as (cap & -> & _). exact Htgt.
Qed.

(** ** The end of the function *)

Lemma final_good x s sb : core x sb -> byte buf s = (inr 0x0b, sb) -> step 0x0b sb = (inr true, s2) ->
  inv s -> outcome (exec_end F x) (fun _ => done_with).
Proof.
  intros Hc Eb E Hv. apply dispatch_final in E as (_ & Hcs & Hrem & Er). unfold exec_end. eapply outcome_step; [reflexivity|].
  pose proof (Forall2_length _ _ _ (co_frames _ _ _ _ _ _ Hc)) as Hlen. unfold controls_size, csize in *.
  rewrite Hlen, Hcs. simpl. rewrite (co_reader _ _ _ _ _ _ Hc), Hrem. simpl. split; [done|]. simpl.
  unfold turbowasm_validate_result_stack, turbowasm_pop_results in Er. vm_inv.
  match goal with E : turbowasm_stack_pop_types _ _ _ = (inr ?u, _) |- _ => destruct u; rename E into Ep end.
  destruct (pop_types_inv _ _ _ _ _ Ep) as (vs & -> & _ & Hl). destruct (Hl (co_live _ _ _ _ _ _ Hc)) as (l & Hty & Hacc).
  match goal with G : negb _ = false |- _ => apply negb_false_iff, Z.eqb_eq in G; rename G into Gz end.
  unfold tsize in Gz. simpl in Gz. destruct vs; [|simpl in Gz; lia]. simpl in Hty.
  pose proof (co_stack _ _ _ _ _ _ Hc) as Hst. rewrite Hty in Hst. by eapply accepted_list.
Qed.

(** ** The switch *)

Lemma between_spec a z b : reflect (a <= z <= b) (between a z b).
Proof. apply iff_reflect. unfold between. rewrite andb_true_iff, !Z.leb_le. done. Qed.

Lemma between_true a z b : a <= z <= b -> between a z b = true.
Proof. by intros ?%(reflect_iff _ _ (between_spec a z b)). Qed.

Lemma between_false a z b : ~ (a <= z <= b) -> between a z b = false.
Proof. intros Hn. destruct (between_spec a z b); done. Qed.

(** What the validator does for an opcode in a known range. *)
Ltac resolve E op :=
  unfold dispatch, no_end in E;
  repeat first [rewrite (proj2 (Z.eqb_neq op _)) in E by lia | rewrite (between_true _ op) in E by lia
               |rewrite (between_false _ op) in E by lia].

Lemma lock_good (m : vm unit) (h : im unit) x sb s' b : InterpSim.lock ctx sem F inst any m h -> core x sb -> on_run s' ->
  (_ ← m; mret b) sb = (inr false, s') -> outcome (h x) (fun _ => good).
Proof.
  intros Hl Hc Hs' E. vm_inv. eapply outcome_impl; [by eapply Hl|]. intros [] x' [Hc' _]. left. by exists s'.
Qed.

Lemma no_end_inv (m : vm unit) sb b s' : no_end m sb = (inr b, s') -> exists u, m sb = (inr u, s').
Proof. unfold no_end. intros E. vm_inv. by eexists. Qed.

Lemma opcode_good x s sb op s' : op <> 0x0b -> core x sb -> on_run s -> byte buf s = (inr op, sb) ->
  step op sb = (inr false, s') -> on_run s' ->
  outcome (exec_dispatch buf H ictx F inst realloc_ok sizeof_value sizeof_frame op x) (fun _ => good).
Proof.
  intros Hend Hc Hs Eb E Hs'. pose proof (amid_start _ _ _ Hs Eb) as Ha. unfold exec_dispatch, Interp.between.
  destruct (Z.eqb_spec op 0x00); [by left|].
  destruct (Z.eqb_spec op 0x01) as [->|]; [left; exists s'; split; [|done]; cbn in E; vm_inv; done|].
  destruct (between_spec 0x02 op 0x04).
  { resolve E op. vm_inv. eapply block_good; try done. by apply between_true. }
  destruct (Z.eqb_spec op 0x05) as [->|]; [eapply else_good; [exact RF|exact Hc|exact Hs|exact Hs'|exact Eb|exact E]|].
  destruct (Z.eqb_spec op 0x08); [done|]. destruct (Z.eqb_spec op 0x0a); [done|]. cbn [orb].
  rewrite (proj2 (Z.eqb_neq op 0x0b)) by done.
  destruct (between_spec 0x0c op 0x0d).
  { resolve E op. vm_inv. eapply br_good; try done. by apply between_true. }
  destruct (Z.eqb_spec op 0x0e) as [->|]; [destruct (no_end_inv (turbowasm_validate_br_table buf vrealloc vmalloc H) _ _ _ E); by eapply br_table_good|].
  destruct (Z.eqb_spec op 0x0f) as [->|]; [destruct (no_end_inv (op_branch buf vrealloc vmalloc H t 0x0f) _ _ _ E); by eapply return_good|].
  destruct (between_spec 0x10 op 0x15); [done|].
  destruct (Z.eqb_spec op 0x1a) as [->|]; [eapply lock_good; [apply lock_drop|exact Hc|exact Hs'|exact E]|].
  destruct (Z.eqb_spec op 0x1b) as [->|]; [eapply lock_good; [apply lock_select|exact Hc|exact Hs'|exact E]|].
  destruct (Z.eqb_spec op 0x1c) as [->|]; [eapply lock_good; [by apply lock_typed_select|exact Hc|exact Hs'|exact E]|].
  destruct (Z.eqb_spec op 0x1f) as [->|]; [destruct (no_end_inv (op_try_table buf vrealloc vmalloc H ctx (Some base)) _ _ _ E); by eapply try_table_good|].
  destruct (between_spec 0x20 op 0x22).
  { resolve E op. eapply lock_good; [apply lock_local; [apply RF|by apply between_true]|exact Hc|exact Hs'|exact E]. }
  destruct (between_spec 0x23 op 0x26); [done|].
  destruct (between_spec 0x28 op 0x35).
  { resolve E op. eapply lock_good; [by apply lock_loads, between_true|exact Hc|exact Hs'|exact E]. }
  destruct (between_spec 0x36 op 0x3e).
  { resolve E op. eapply lock_good; [by apply lock_stores, between_true|exact Hc|exact Hs'|exact E]. }
  destruct (between_spec 0x3f op 0x40).
  { resolve E op. eapply lock_good; [by apply lock_pages, between_true|exact Hc|exact Hs'|exact E]. }
  destruct (between_spec 0x41 op 0x44).
  { resolve E op. eapply lock_good; [by apply lock_const, between_true|exact Hc|exact Hs'|exact E]. }
  destruct (between_spec 0x45 op 0x4f).
  { resolve E op. eapply lock_good; [by apply lock_i32_compares, between_true|exact Hc|exact Hs'|exact E]. }
  destruct (between_spec 0x50 op 0x5a).
  { resolve E op. eapply lock_good; [by apply lock_i64_compares, between_true|exact Hc|exact Hs'|exact E]. }
  destruct (between_spec 0x5b op 0x66); [done|].
  destruct (between_spec 0x67 op 0x69).
  { resolve E op. eapply lock_good; [by apply lock_i32_unaries, between_true|exact Hc|exact Hs'|exact E]. }
  destruct (between_spec 0x6a op 0x78).
  { resolve E op. eapply lock_good; [by apply lock_i32_binaries, between_true|exact Hc|exact Hs'|exact E]. }
  destruct (between_spec 0x79 op 0x7b).
  { resolve E op. eapply lock_good; [by apply lock_i64_unaries, between_true|exact Hc|exact Hs'|exact E]. }
  destruct (between_spec 0x7c op 0x8a).
  { resolve E op. eapply lock_good; [by apply lock_i64_binaries, between_true|exact Hc|exact Hs'|exact E]. }
  destruct (between_spec 0x8b op 0xc4); [done|].
  destruct (Z.eqb_spec op 0xd0) as [->|]; [eapply lock_good; [by apply lock_ref_null|exact Hc|exact Hs'|exact E]|].
  destruct (Z.eqb_spec op 0xd1) as [->|]; [eapply lock_good; [apply lock_ref_is_null|exact Hc|exact Hs'|exact E]|].
  destruct (Z.eqb_spec op 0xd2) as [->|]; [eapply lock_good; [by apply lock_ref_func|exact Hc|exact Hs'|exact E]|].
  destruct (Z.eqb_spec op 0xd3) as [->|]; [done|].
  destruct (between_spec 0xd4 op 0xd6).
  { destruct (Z.eq_dec op 0xd4) as [->|]; [eapply lock_good; [apply lock_ref_as_non_null|exact Hc|exact Hs'|exact E]|].
    resolve E op. apply no_end_inv in E as [u E]. unfold op_reference in E. repeat rewrite (proj2 (Z.eqb_neq op 0xd0)), ?(proj2 (Z.eqb_neq op 0xd1)), ?(proj2 (Z.eqb_neq op 0xd4)), ?(proj2 (Z.eqb_neq op 0xd2)), ?(proj2 (Z.eqb_neq op 0xd3)) in E by lia.
    eapply ref_branch_good; [apply between_true; lia|exact Ha|exact Hc|exact Hs'|exact E]. }
  destruct (between_spec 0xfb op 0xfe); [done|].
  exfalso. resolve E op. done.
Qed.

(** ** One round *)

Lemma next_instruction s : on_run s -> exists op sb, byte buf s = (inr op, sb) /\
  ((exists s', step op sb = (inr false, s') /\ on_run s') \/ (op = 0x0b /\ step 0x0b sb = (inr true, s2))).
Proof.
  intros [Hb Ha]. inversion Ha as [|? s3 ? Hst Hr]; subst.
  - destruct (rf_final _ _ _ _ _ _ _ _ _ _ _ _ _ RF) as (op & sb & Eb & E). exists op, sb. split; [done|]. right.
    pose proof (dispatch_final _ _ _ _ _ _ _ _ _ _ _ E) as (-> & _). done.
  - destruct Hst as (op & sb & Eb & E). exists op, sb. split; [done|]. left. exists s3. split; [done|]. split; [|done].
    eapply rtc_r; [done|]. by exists op, sb.
Qed.

Lemma fetch_byte (x : istate) s op sb : i_reader x = v_reader s -> byte buf s = (inr op, sb) ->
  idecode (turbowasm_reader_u8 buf) x = (inr op, Interp.set_reader (v_reader sb) x).
Proof.
  unfold byte. intros Hr (r & Er & ->)%lift_inv. unfold idecode. apply iparse_ok. by rewrite Hr.
Qed.

Abbreviation instruction := (opcode ← idecode (turbowasm_reader_u8 buf);
  exec_dispatch buf H ictx F inst realloc_ok sizeof_value sizeof_frame opcode).

Lemma exec_dispatch_end (x : istate) : exec_dispatch buf H ictx F inst realloc_ok sizeof_value sizeof_frame 0x0b x = exec_end F x.
Proof. done. Qed.

Lemma instruction_good (x : istate) : good x -> i_finished x = false -> outcome (instruction x) (fun _ => good).
Proof.
  intros [(s & Hsim)|[(s & Hend)|[Hf _]]] Hfin; [| |congruence].
  - destruct Hsim as [Hc Hs]. destruct (next_instruction s Hs) as (op & sb & Eb & Hnext).
    assert (Hcb : core (Interp.set_reader (v_reader sb) x) sb).
    { destruct (byte_inv _ _ _ _ Eb) as [-> _]. by apply core_reader. }
    eapply outcome_step; [by eapply (fetch_byte x s); [apply Hc|]|]. destruct Hnext as [(s' & E & Hs')|[-> E]].
    + destruct (Z.eq_dec op 0x0b) as [->|Hne]; [|eapply opcode_good; [exact Hne|exact Hcb|exact Hs|exact Eb|exact E|exact Hs']].
      rewrite exec_dispatch_end. eapply end_good; [exact RF| |exact Eb]. eapply sim_at_end; [exact (conj Hc Hs)|exact Eb|exact E|exact Hs'].
    + rewrite exec_dispatch_end. eapply outcome_impl; [eapply final_good; [exact Hcb|exact Eb|exact E|]|].
      * by eapply on_run_inv.
      * intros [] x' Hd. right. by right.
  - destruct (ae_end _ _ _ _ _ _ _ _ _ _ _ _ _ _ Hend) as (fs & g & sb & se & a & _ & Eb & _).
    eapply outcome_step; [by eapply (fetch_byte x s); [apply Hend|]|]. rewrite exec_dispatch_end. by eapply end_good.
Qed.

Lemma good_more (x : istate) : good x -> i_finished x = false -> turbowasm_reader_remaining (i_reader x) <> 0.
Proof.
  assert (Hmore : forall s op sb, i_reader x = v_reader s -> byte buf s = (inr op, sb) -> turbowasm_reader_remaining (i_reader x) <> 0).
  { intros s op sb -> Eb. destruct (byte_inv _ _ _ _ Eb) as [_ Hl]. lia. }
  intros [(s & Hc & Hs)|[(s & Hend)|[Hf _]]] Hfin; [| |congruence].
  - destruct (next_instruction s Hs) as (op & sb & Eb & _). eapply Hmore; [apply Hc|exact Eb].
  - destruct (ae_end _ _ _ _ _ _ _ _ _ _ _ _ _ _ Hend) as (fs & g & sb & se & a & _ & Eb & _). eapply Hmore; [apply Hend|exact Eb].
Qed.

Lemma good_execution (x : istate) e h : good x -> good (set_execution e h x).
Proof.
  intros [(s & [C1 C2 C3 C4 C5 [R1 R2 R3 R4 R5]] & Hs)|[(s & [[W1 W2 W3 [R1 R2 R3 R4 R5]] Hr He])|Hd]].
  - left. exists s. split; [|done]. by constructor.
  - right; left. exists s. by repeat (constructor; try done).
  - by right; right.
Qed.

(** ** The loop *)

(** [x0] is the state in which the function was called. *)
Context (x0 : istate).

Definition same_host (x : istate) : Prop :=
  match i_execution x0, i_execution x with
  | Some e0, Some e => suspend e = suspend e0
  | None, None => True
  | _, _ => False
  end.

(** Why a run of an accepted body may stop before its end. *)
Definition allowed (st : turbowasm_status) : Prop :=
  benign st \/ exists e, i_execution x0 = Some e /\ host_stop e st.

Definition safely {A} (r : (halt + A) * istate) (Q : A -> istate -> Prop) : Prop :=
  match r with
  | (inl (Returned st), _) => allowed st
  | (inl _, _) => True
  | (inr a, x') => Q a x'
  end.

Lemma checkpoint_safe suspensions x : good x -> i_finished x = false -> same_host x ->
  safely (turbowasm_execution_checkpoint suspensions x) (fun _ x' => good x' /\ i_finished x' = false /\ same_host x').
Proof.
  intros Hg Hf Hh. unfold turbowasm_execution_checkpoint. unfold same_host in Hh. destruct (i_execution x) as [e|] eqn:Ee.
  2: { split_and!; try done. unfold same_host. by rewrite Ee. }
  destruct (i_execution x0) as [e0|] eqn:Ee0; [|done]. pose proof (checkpoint_loop_spec suspensions e (i_host x)) as Hspec.
  destruct (checkpoint_loop _ _ _) as [[[st e'] h']|]; [|done]. destruct Hspec as [Hs Hst].
  assert (Hal : st <> TURBOWASM_OK -> allowed st).
  { intros Hne. right. exists e0. split; [done|]. destruct Hst as [|Hst]; [done|]. unfold host_stop in *. by rewrite Hh in Hst. }
  destruct st; try (by apply Hal). split_and!; [by apply good_execution|done|]. unfold same_host. rewrite Ee0. simpl. congruence.
Qed.

Lemma round_safe suspensions x : good x -> i_finished x = false -> same_host x ->
  safely (exec_round buf H ictx F inst realloc_ok sizeof_value sizeof_frame suspensions x) (fun _ x' => good x' /\ same_host x').
Proof.
  intros Hg Hf Hh. unfold exec_round. pose proof (checkpoint_safe suspensions x Hg Hf Hh) as Hc.
  unfold mbind at 1, im_bind at 1. destruct (turbowasm_execution_checkpoint suspensions x) as [[[]|[]] x1]; try done.
  destruct Hc as (Hg1 & Hf1 & Hh1). pose proof (instruction_good x1 Hg1 Hf1) as Hi.
  assert (Hk : keeps_execution (instruction : im unit)) by (apply keeps_bind; [apply keeps_decode|intros; apply dispatch_keeps]).
  specialize (Hk x1) as [Hk _]. destruct (instruction x1) as [[[]|[]] x2]; simpl in *; try done; [by left|].
  split; [done|]. unfold same_host in *. by rewrite Hk.
Qed.

Lemma loop_safe suspensions n : forall x, good x -> same_host x ->
  safely (exec_loop buf H ictx F inst realloc_ok sizeof_value sizeof_frame suspensions n x) (fun _ => done_with).
Proof.
  induction n as [|n IH]; intros x Hg Hh; [done|]. cbn [exec_loop]. unfold mbind, im_bind, iget.
  destruct (i_finished x) eqn:Ef.
  - rewrite orb_true_r. destruct Hg as [(s & Hc & _)|[(s & Hend)|Hd]]; [| |done].
    + pose proof (re_finished _ _ _ _ (co_rest _ _ _ _ _ _ Hc)). congruence.
    + pose proof (re_finished _ _ _ _ (wi_rest _ _ _ _ _ _ _ _ _ _ _ _ _ _ (ae_within _ _ _ _ _ _ _ _ _ _ _ _ _ _ Hend))). congruence.
  - rewrite orb_false_r, (proj2 (Z.eqb_neq _ _)) by (by apply good_more).
    pose proof (round_safe suspensions x Hg Ef Hh) as Hr.
    destruct (exec_round _ _ _ _ _ _ _ _ _ x) as [[[]|[]] x1]; try exact Hr. apply IH; apply Hr.
Qed.

End Sound.

End InterpSound.
