(* ===== verification/Soundness.v ===== *)
(** * Type soundness

    What validation of a function body promises to the interpreter: a call of the
    function runs to its results, traps, or is stopped from outside. *)

From S2P Require Import Prelude Reader Value Types TypeEq TypeReader Context ExecStack Numeric Memory Semantic.
From S2P Require Import Validator ValidatorSteps ValidatorFrames ValidatorRun ValidatorPaths InterpBlocks Interp InterpFuel InterpSim InterpData.
From S2P Require Import InterpControl InterpSound.

Module Soundness.
Import Semantic Interp Reader Value Types TypeEq TypeReader ExecStack Numeric Context Validator ValidatorSteps ValidatorFrames
  ValidatorRun ValidatorPaths InterpBlocks InterpFuel InterpSim InterpData InterpControl InterpSound.

(** ** The types of locals *)

Lemma bound_valid H v : value_bound H v -> valid v.
Proof.
  unfold value_bound, valid. destruct (is_reference v).
  - intros Hb. assert (Hr : reference_carrier (carrier v) = true); [|by rewrite Hr; split; [apply reference_valtype|]].
    destruct (decide (heap_kind v = HEAP_TYPE_INDEX)).
    + destruct Hb as (d & t & _ & _ & ->). by case_decide.
    + revert Hb. unfold heap_carrier. destruct (heap_kind v); try done; by intros [= <-].
  - intros [_ Hn]. split; [by apply numeric_valtype|]. revert Hn. unfold numeric_carrier, reference_carrier.
    rewrite !orb_true_iff, !Z.eqb_eq. intros Hc. repeat (destruct Hc as [Hc|Hc]; [|by rewrite Hc]). by rewrite Hc.
Qed.

Section Locals.
Context (buf : list Z) (malloc_ok : Z -> bool) (H : type_heap) (ctx : turbowasm_validation_context).

Lemma local_groups_valid n : forall total, yields (read_local_groups buf H ctx n total) (fun gs => Forall (fun g => valid g.2) gs.1).
Proof.
  induction n as [|n IH]; intros total; cbn [read_local_groups]; [by apply yields_ret|].
  eapply yields_bind; [apply yields_any|]. intros count _. eapply yields_bind; [apply read_valtype_valid|]. intros tg Htg. cbv zeta.
  eapply yields_bind; [apply yields_any|]. intros _ _. eapply yields_bind; [apply yields_any|]. intros _ _.
  eapply yields_bind; [apply IH|]. intros rest Hrest. apply yields_ret. by constructor.
Qed.

Lemma concat_groups_valid (gs : list (Z * turbowasm_validation_value_type)) : Forall (fun g => valid g.2) gs ->
  Forall valid (concat (map (fun '(n, t) => replicate (Z.to_nat n) t) gs)).
Proof. induction 1 as [|[n t] gs Ht _ IH]; simpl; [constructor|]. apply Forall_app. split; [by apply Forall_replicate|done]. Qed.

Lemma concat_groups_carriers (gs : list (Z * turbowasm_validation_value_type)) :
  concat (map (fun '(n, t) => replicate (Z.to_nat n) (carrier t)) gs) =
  map carrier (concat (map (fun '(n, t) => replicate (Z.to_nat n) t) gs)).
Proof. induction gs as [|[n t] gs IH]; simpl; [done|]. rewrite map_app, IH. f_equal. by rewrite <- (fmap_replicate carrier). Qed.

Lemma read_locals_valid t : params t = map carrier (param_semantics t) -> Forall valid (param_semantics t) ->
  yields (turbowasm_read_locals buf malloc_ok H ctx t) (fun ls => ls.1 = map carrier ls.2 /\ Forall valid ls.2 /\ exists rest, ls.2 = param_semantics t ++ rest).
Proof.
  intros Hp Hv. unfold turbowasm_read_locals. eapply yields_bind; [apply yields_any|]. intros n _.
  eapply yields_bind; [apply yields_any|]. intros _ _. eapply yields_bind; [apply yields_any|]. intros _ _.
  eapply yields_bind; [apply local_groups_valid|]. intros [gs total] Hgs. eapply yields_bind; [apply yields_any|]. intros _ _.
  apply yields_ret. simpl in *. rewrite map_app, Hp, concat_groups_carriers. split; [done|]. split; [|by eexists].
  apply Forall_app. split; [done|by apply concat_groups_valid].
Qed.

End Locals.

Lemma type_semantics H ctx index t : heap_wf H -> turbowasm_validation_context_function_type H ctx index = Some t ->
  params t = map carrier (param_semantics t) /\ results t = map carrier (result_semantics t) /\ Forall valid (param_semantics t) /\ defined t = true.
Proof.
  intros Hwf Ht. unfold turbowasm_validation_context_function_type in Ht.
  destruct (at_index (functions ctx) index) as [f|]; [|done]. simpl in Ht.
  destruct (type_at_wf H ctx Hwf _ _ Ht) as (p & Hp & Hw). split_and!; [apply Hw|apply Hw| |apply Hw].
  rewrite Forall_forall. intros v Hv. apply (bound_valid H). apply (tw_values _ _ _ Hw). unfold values_of.
  apply elem_of_app. by left.
Qed.

(** ** From an accepted body to a run *)

Section Body.
Context {host : Type}.
Context (buf : list Z) (vrealloc vmalloc : Z -> bool) (H : type_heap) (ctx : turbowasm_validation_context).
Context (Hwf : heap_wf H).

Lemma reader_bounds r : 1 <= turbowasm_reader_remaining r ->
  exists base, cursor r = Some base /\ r = mk_reader (Some base) (Some (base + turbowasm_reader_remaining r)).
Proof.
  unfold turbowasm_reader_remaining. destruct r as [[c|] [e|]]; simpl; try lia. destruct (Z.gtb_spec c e); [lia|].
  intros _. exists c. split; [done|]. do 2 f_equal. lia.
Qed.

Lemma run_of body index F t f locals sem r s0 s1 s2 :
  accepted_run buf vrealloc vmalloc H ctx body index F t f locals sem r s0 s1 s2 -> controls_of f = [] ->
  exists base, run_facts buf H ctx vrealloc vmalloc t sem F base (turbowasm_reader_remaining r) s0 s1 s2 /\
    (Forall valid sem /\ exists rest, sem = param_semantics t ++ rest) /\ local_semantics F = sem /\ cursor r = Some base /\
    (exists f0, cframes (v_controls s0) = [f0] /\ ckind f0 = CTRL_FUNCTION /\ cheight f0 = 0 /\
       parent_unreachable f0 = false /\ end_types f0 = result_semantics t) /\
    unreachable (v_stack s0) = false /\ tvalues (v_stack s0) = [].
Proof.
  intros [Ht Hf Hl Hsz Hst Hrun Hfin HF] Hc.
  destruct (initial_vinv _ _ _ _ _ _ _ _ _ _ _ Hc eq_refl Hsz Hst) as (Hv0 & Hr0 & Hu0 & Hty0 & Hf0).
  pose proof (run_vinv _ _ _ _ _ _ _ _ _ _ _ _ Hrun Hv0) as Hv1.
  destruct (vfinal_inv _ _ _ _ _ _ _ _ _ _ _ _ Hv1 Hfin) as (sb & _ & _ & Hl1 & _ & Hfn & _).
  assert (Hpos : 1 <= turbowasm_reader_remaining r).
  { destruct (vi_size _ _ _ _ _ Hv1) as (H1 & H2 & _). lia. }
  destruct (reader_bounds _ Hpos) as (base & Hb & Hr). exists base.
  destruct (type_semantics _ _ _ _ Hwf Ht) as (Hps & _ & Hpv & _).
  destruct (read_locals_valid buf vmalloc H ctx t Hps Hpv _ _ _ Hl) as (Hls & Hvs & Hparams). simpl in *.
  assert (Hframe : exists f0, cframes (v_controls s0) = [f0] /\ ckind f0 = CTRL_FUNCTION /\ cheight f0 = 0 /\
       parent_unreachable f0 = false /\ end_types f0 = result_semantics t).
  { destruct (control_push_inv _ _ _ _ _ _ _ _ _ _ Hst) as (vs & cap & ccap & _ & Hpre & -> & _).
    apply prefix_nil_inv in Hpre as ->. eexists. split; [reflexivity|]. done. }
  rewrite Hb in *. split_and!; [|done|done|by rewrite HF|done|done|done|done]. subst F. constructor; simpl; try done.
  - by rewrite Hfn.
  - by rewrite Hr0.
  - by destruct Hframe as (f0 & -> & _).
Qed.

(** Values of the right kinds for the locals. *)
Definition kinds_match (vs : list turbowasm_value) (ts : list turbowasm_validation_value_type) : Prop :=
  Forall2 (fun v ty => value_kind v = turbowasm_kind_from_valtype (carrier ty)) vs ts.

Lemma kinds_typed vs ts : kinds_match vs ts -> Forall valid ts -> Forall2 typed vs ts.
Proof. induction 1 as [|v ty vs ts Hk _ IH]; intros Hv; inversion Hv; subst; constructor; [done|by apply IH]. Qed.

(** The instance that a function is called in has the memories of the module, and the
    thread is the one of its store. *)
Record callable (ictx : turbowasm_validation_context) (inst : nat) (gc : option turbowasm_store_impl) (x : @istate host) : Prop := {
  ca_store : mem_ok ctx inst (Memory.Memory.m_store (i_machine x));
  ca_types : same_types ctx ictx;
  ca_functions : count (functions ictx) = count (functions ctx);
  ca_thread : forall s, gc = Some s -> owned s = true
}.

Lemma push_function_cases type realloc_ok sizeof_frame (x : @istate host) :
  (exists x', ipush_function type realloc_ok sizeof_frame x = (inl (Returned TURBOWASM_OUT_OF_MEMORY), x')) \/
  (exists cap, ipush_function type realloc_ok sizeof_frame x =
     (inr tt, Interp.set_controls (mk_controls [mk_frame CONTROL_FUNCTION 0 None (Some type) 0 false] cap) x)).
Proof.
  unfold ipush_function, turbowasm_exec_control_push_function, turbowasm_exec_controls_reserve.
  destruct (reserve _ _ _ _ _); [right; by eexists|left; by eexists].
Qed.

Section Call.
Context (body : turbowasm_reader) (index : Z) (F : turbowasm_validation_function) (t : turbowasm_validation_func_type)
  (f : turbowasm_validation_function) (locals : list Z) (sem : list turbowasm_validation_value_type) (r : turbowasm_reader) (s0 s1 s2 : vstate).
Context (Har : accepted_run buf vrealloc vmalloc H ctx body index F t f locals sem r s0 s1 s2) (Hc : controls_of f = []).
Context (Hcount : type_count (types ctx) <= UINT32_MAX).
Context (ictx : turbowasm_validation_context) (inst : nat) (gc : option turbowasm_store_impl) (foreign : ptr -> Z -> option nat -> bool).
Context (realloc_ok : Z -> bool) (sizeof_value sizeof_frame : Z) (suspensions : nat).

Abbreviation matches := (matches_semantic H ictx inst gc foreign).

(** Why a call may end without results: for the execution control of [x], and in the
    check of results that are references. *)
Definition stopped (x : @istate host) (st : turbowasm_status) : Prop :=
  st = TURBOWASM_TRAPPED \/ st = TURBOWASM_OUT_OF_MEMORY \/ (exists e, i_execution x = Some e /\ host_stop e st) \/
  (st = TURBOWASM_TYPE_MISMATCH /\ exists ty, ty ∈ result_semantics t /\ is_reference ty = true).

(** How a call may end. *)
Definition call_outcome (x : @istate host) (o : halt + list turbowasm_value) : Prop :=
  match o with
  | inr vs => Forall2 (fun v ty => matches v ty = true) vs (result_semantics t)
  | inl (Returned st) => stopped x st
  | inl (NotModelled op) => outside_model op = true
  | inl (Running | Suspended) => True
  end.

(** Results of the right kinds pass the check, unless they are references. *)
Lemma results_popped ts : forall vs acc (x : @istate host), values (i_stack x) = vs -> Forall2 typed vs ts ->
  match pop_results H ictx inst gc foreign (reverse ts) acc x with
  | (inr us, _) => us = vs ++ acc /\ Forall2 (fun v ty => matches v ty = true) vs ts
  | (inl stop, _) => stop = Returned TURBOWASM_TYPE_MISMATCH /\ exists ty, ty ∈ ts /\ is_reference ty = true
  end.
Proof using.
  induction ts as [|ty ts IH] using rev_ind; intros vs acc x Hvs Hty.
  - apply Forall2_nil_inv_r in Hty as ->. by split; [|constructor].
  - apply Forall2_app_inv_r in Hty as (us & ws & Hus & Hws & ->). inversion Hws as [|v ? ? ? Hv Hnil]; subst. inversion Hnil; subst.
    rewrite reverse_snoc. cbn [pop_results]. unfold mbind, im_bind, ipop, ExecStack.turbowasm_stack_pop. rewrite Hvs, reverse_snoc, reverse_involutive.
    unfold iguard. destruct (matches v ty) eqn:Hm; cbn [negb].
    + cbn [mret im_ret]. specialize (IH us (v :: acc) (Interp.set_stack (mk_stack us (stack_capacity (i_stack x))) x) eq_refl Hus).
      destruct (pop_results _ _ _ _ _ _ _ _) as [[stop|res] x'].
      * destruct IH as [-> (ty' & Hin & Href)]. split; [done|]. exists ty'. split; [|done]. apply elem_of_app. by left.
      * destruct IH as [-> IH]. split; [by rewrite <- app_assoc|]. apply Forall2_app; [done|]. by repeat constructor.
    + split; [done|]. exists ty. split; [apply elem_of_app; right; by left|]. destruct (is_reference ty) eqn:Href; [done|].
      unfold matches_semantic in Hm. by rewrite number_matches in Hm by (done || by apply typed_matches).
Qed.

Lemma body_safe n x : callable ictx inst gc x -> values (i_stack x) = [] -> i_finished x = false -> i_returned x = false ->
  kinds_match (i_locals x) (local_semantics F) ->
  call_outcome x (fst (exec_body buf H ictx F t inst realloc_ok sizeof_value sizeof_frame suspensions gc foreign n x)).
Proof using Hwf Har Hc Hcount.
  intros [C5 C6 C7 _] C1 C2 C3 C4.
  destruct (run_of _ _ _ _ _ _ _ _ _ _ _ Har Hc) as (base & RF & [Hval _] & Hls & Hb & (f0 & Hfs & Hk0 & Hh0 & Hp0 & He0) & Hu0 & Hty0).
  destruct (type_semantics _ _ _ _ Hwf (ar_type _ _ _ _ _ _ _ _ _ _ _ _ _ _ _ _ Har)) as (_ & Hres & _).
  unfold exec_body, mbind, im_bind, iupdate.
  assert (Hrd : turbowasm_reader_init (code F) (code_size F) = v_reader s0).
  { rewrite (rf_code _ _ _ _ _ _ _ _ _ _ _ _ _ RF), (rf_size _ _ _ _ _ _ _ _ _ _ _ _ _ RF), (rf_reader _ _ _ _ _ _ _ _ _ _ _ _ _ RF). done. }
  rewrite Hrd. set (x1 := Interp.set_reader (v_reader s0) x).
  destruct (push_function_cases t realloc_ok sizeof_frame x1) as [[x' ->]|[cap ->]]; [by right; left|].
  set (x2 := Interp.set_controls _ x1).
  assert (Hgood : good buf H ctx vrealloc vmalloc t sem F inst base s0 s1 x2).
  { left. exists s0. split; [|split; [apply rtc_refl|exact (rf_run _ _ _ _ _ _ _ _ _ _ _ _ _ RF)]]. constructor; try done.
    - rewrite Hfs. by constructor.
    - rewrite Hty0. unfold x2, i_stack. simpl. unfold i_stack in C1. rewrite C1. constructor.
    - rewrite Hfs. constructor; [|constructor]. constructor; simpl; try congruence; [by rewrite Hk0|].
      by rewrite He0.
    - constructor; simpl; try done. rewrite <- Hls. apply kinds_typed; [done|by rewrite Hls]. }
  pose proof (loop_safe buf H ctx ictx vrealloc vmalloc t sem F inst realloc_ok sizeof_value sizeof_frame base _ s0 s1 s2 RF Hwf C6 Hcount C7 x
    suspensions n x2 Hgood) as Hloop.
  pose proof (loop_outside buf H ictx F inst realloc_ok sizeof_value sizeof_frame suspensions n x2) as Hout.
  destruct (exec_loop _ _ _ _ _ _ _ _ _ n x2) as [[h|[]] x3].
  - destruct h as [st|op| |]; cbn [fst call_outcome] in *; [|by apply Hout|done|done]. unfold stopped.
    destruct Hloop as [[?|?]|?]; [unfold same_host; simpl; by destruct (i_execution x)|auto..].
  - destruct Hloop as [Hf Hv]; [unfold same_host; simpl; by destruct (i_execution x)|]. unfold iget. rewrite Hf.
    assert (Hsz : stack_size (i_stack x3) = result_count t).
    { unfold stack_size, result_count. rewrite Hres, length_map. by apply Forall2_length in Hv as ->. }
    rewrite Hsz, Z.eqb_refl, Z.ltb_irrefl, !andb_false_r. cbn [negb orb iguard mret im_ret].
    pose proof (results_popped _ _ [] x3 eq_refl Hv) as Hp. destruct (pop_results _ _ _ _ _ _ _ _) as [[stop|us] x4]; cbn [fst call_outcome].
    + destruct Hp as [-> Href]. unfold stopped. auto.
    + destruct Hp as [-> Hm]. by rewrite app_nil_r.
Qed.

(** Arguments that the caller may pass. A reference of the collector as an externref is
    left out: the interpreter keeps it apart from other externrefs. *)
Record arguments_ok (arguments : list turbowasm_value) (result_capacity : Z) : Prop := {
  ao_types : Forall2 (fun v ty => matches v ty = true /\ value_kind v <> TURBOWASM_VALUE_MANAGED_EXTERNREF) arguments (param_semantics t);
  ao_owners : Forall (fun v => is_Some (own_reference ictx inst v)) arguments;
  ao_capacity : result_count t <= result_capacity
}.

Lemma own_kind v v' : own_reference ictx inst v = Some v' -> value_kind v' = value_kind v.
Proof using. unfold own_reference. intros E. repeat case_match; by simplify_eq. Qed.

Lemma own_kinds vs ts : Forall2 (fun v ty => matches v ty = true /\ value_kind v <> TURBOWASM_VALUE_MANAGED_EXTERNREF) vs ts ->
  Forall (fun v => is_Some (own_reference ictx inst v)) vs ->
  exists us, mapM (own_reference ictx inst) vs = Some us /\ kinds_match us ts.
Proof using.
  induction 1 as [|v ty vs ts [Hm Hk] _ IH]; intros Ho; [exists []; split; [done|constructor]|]. inversion Ho as [|? ? [v' Ev] Ho']; subst.
  destruct (IH Ho') as (us & Eus & Hus). exists (v' :: us). cbn [mapM]. rewrite Ev. cbn. rewrite Eus. split; [done|]. constructor; [|done].
  rewrite (own_kind _ _ Ev). by destruct (semantic_kind _ _ _ _ _ _ _ Hm).
Qed.

Lemma zero_kinds ts : Forall valid ts -> exists zs, mapM turbowasm_zero_value (map carrier ts) = Some zs /\ kinds_match zs ts.
Proof using.
  induction 1 as [|ty ts Hv _ (zs & Ez & Hzs)]; [exists []; split; [done|constructor]|]. apply valid_kind in Hv.
  assert (Hz : exists z, turbowasm_zero_value (carrier ty) = Some z /\ value_kind z = turbowasm_kind_from_valtype (carrier ty)).
  { unfold turbowasm_zero_value. destruct (turbowasm_kind_from_valtype (carrier ty)); try done; by eexists. }
  destruct Hz as (z & Hz & Hk). exists (z :: zs). cbn [map mapM]. rewrite Hz. cbn. rewrite Ez. split; [done|by constructor].
Qed.

Lemma call_safe calloc_ok sizeof_source arguments result_capacity depth n x : callable ictx inst gc x -> arguments_ok arguments result_capacity ->
  call_outcome x (fst (turbowasm_exec_function buf H ictx F t inst realloc_ok sizeof_value sizeof_frame suspensions gc foreign calloc_ok sizeof_source
    arguments result_capacity depth n x)).
Proof using Hwf Har Hc Hcount.
  intros Hx [A1 A2 A3]. destruct (run_of _ _ _ _ _ _ _ _ _ _ _ Har Hc) as (base & RF & [Hval (rest & Hrest)] & Hls & _).
  destruct (type_semantics _ _ _ _ Hwf (ar_type _ _ _ _ _ _ _ _ _ _ _ _ _ _ _ _ Har)) as (Hps & _ & _ & Hdef).
  assert (Hlen : Z.of_nat (length arguments) = param_count t) by (unfold param_count; rewrite Hps, length_map; by apply Forall2_length in A1 as ->).
  assert (Hmatch : forallb2 matches arguments (param_semantics t) = true).
  { clear - A1. induction A1 as [|v ty vs ts [Hm _] _ IH]; [done|]. cbn [forallb2]. by rewrite Hm, IH. }
  assert (Hown : match gc with Some s => negb (owned s) | None => false end = false).
  { pose proof (ca_thread _ _ _ _ Hx) as Ht. destruct gc as [s|]; [|done]. by rewrite (Ht s eq_refl). }
  destruct (own_kinds _ _ A1 A2) as (us & Eus & Hus). destruct (zero_kinds sem Hval) as (zs & Ez & Hzs).
  unfold turbowasm_exec_function. destruct (_ >=? _); [by left|]. cbv zeta. unfold mbind, im_bind. rewrite Hown. cbn [iguard mret im_ret].
  assert (Hreg : turbowasm_gc_source_add sizeof_source gc = TURBOWASM_OK \/ turbowasm_gc_source_add sizeof_source gc = TURBOWASM_OUT_OF_MEMORY).
  { unfold turbowasm_gc_source_add. clear - Hown. destruct gc as [s|]; [rewrite Hown|by left]. destruct (_ || _); auto. }
  destruct Hreg as [-> | ->]; [|by right; left]. rewrite bool_decide_eq_false_2 by (intros Hne; by apply Hne). cbn [iguard mret im_ret].
  rewrite Hdef, Hlen, Z.eqb_refl, Z.gtb_ltb, (proj2 (Z.ltb_ge _ _) A3), Hmatch. cbn [negb orb iguard mret im_ret].
  destruct (_ && _); [by right; left|]. cbn [iguard mret im_ret]. rewrite (rf_locals _ _ _ _ _ _ _ _ _ _ _ _ _ RF), Ez, Eus.
  cbn [ineed mret im_ret iupdate]. set (x1 := Interp.set_returned _ _). apply (body_safe n x1); try done.
  - destruct Hx as [C1 C2 C3 C4]. by constructor.
  - rewrite Hls. subst x1. cbn [i_locals Interp.set_returned Interp.set_finished Interp.set_controls set_stack Interp.set_machine Interp.set_locals].
    rewrite Hrest in Hzs |- *. apply Forall2_app_inv_r in Hzs as (z1 & z2 & Hz1 & Hz2 & ->).
    rewrite (drop_app_length' z1 z2); [by apply Forall2_app|]. by rewrite (Forall2_length _ _ _ Hz1), (Forall2_length _ _ _ Hus).
Qed.

End Call.

End Body.

(** ** Properties *)

(** C2. Type soundness of the validator for the interpreter: when a function body is
    accepted and the function is called with as many arguments of its parameter types
    as it takes, room for its results, and the memories the module declares, it never
    meets a malformed instruction, an operand of the wrong kind, a missing annotation or
    an opcode that is not supported. When the call returns results within the given
    number of rounds, they are as many as the function type has and each passes the
    check against its type. Otherwise it has trapped, run out of memory, been stopped by
    the execution control of the embedding program, failed the final check of a
    reference result, reached one of the listed instructions outside the model, or not
    ended within the rounds. Arguments that are references of the collector passed as
    externrefs are left out. *)
Theorem accepted_bodies_are_safe {host} buf vrealloc vmalloc H body ctx function_index ctx' rd f t F ictx inst
    realloc_ok sizeof_value sizeof_frame suspensions gc foreign calloc_ok sizeof_source arguments result_capacity depth n (x : @istate host) :
  heap_wf H -> type_count (types ctx) <= UINT32_MAX -> 0 <= function_index ->
  turbowasm_validation_context_function ctx function_index = Some f -> controls_of f = [] ->
  turbowasm_validation_context_function_type H ctx function_index = Some t ->
  turbowasm_validate_function_body buf vrealloc vmalloc H body ctx function_index = (TURBOWASM_OK, ctx', rd) ->
  turbowasm_validation_context_function ctx' function_index = Some F ->
  callable ctx ictx inst gc x -> arguments_ok H t ictx inst gc foreign arguments result_capacity ->
  match fst (turbowasm_exec_function buf H ictx F t inst realloc_ok sizeof_value sizeof_frame suspensions gc foreign calloc_ok sizeof_source
    arguments result_capacity depth n x) with
  | inr vs => Forall2 (fun v ty => turbowasm_value_matches_semantic H ictx gc (self inst) foreign v ty = true) vs (result_semantics t)
  | inl (Returned st) => st = TURBOWASM_TRAPPED \/ st = TURBOWASM_OUT_OF_MEMORY \/
      (exists e, i_execution x = Some e /\ host_stop e st) \/
      (st = TURBOWASM_TYPE_MISMATCH /\ exists ty, ty ∈ result_semantics t /\ is_reference ty = true)
  | inl (NotModelled op) => outside_model op = true
  | inl (Running | Suspended) => True
  end.
Proof.
  intros Hwf Hcount Hi Hf Hc Ht E HF Hcall Hargs.
  destruct (body_accepted _ _ _ _ _ _ _ _ _ _ Hf Hi E) as (F' & t' & locals & sem & r & s0 & s1 & s2 & HF' & Hr).
  assert (F' = F) as -> by congruence. assert (t' = t) as -> by (pose proof (ar_type _ _ _ _ _ _ _ _ _ _ _ _ _ _ _ _ Hr); congruence).
  exact (call_safe _ _ _ _ _ Hwf _ _ _ _ _ _ _ _ _ _ _ Hr Hc Hcount ictx inst gc foreign realloc_ok sizeof_value sizeof_frame suspensions
    calloc_ok sizeof_source arguments result_capacity depth n x Hcall Hargs).
Qed.

(** ** Witnesses *)

Lemma call_heap_wf : heap_wf sample_heap.
Proof.
  assert (Hc : forall p t, sample_heap !! p = Some t -> p = 0%nat /\ t = sample_type).
  { intros [|[|]] t; try done. by intros [= <-]. }
  split.
  - intros p t [-> ->]%Hc. split; try done.
    + exists 0%nat. split_and!; try done. 2: { intros v d Hv. repeat (apply elem_of_cons in Hv as [->|Hv]; [done|]). by apply elem_of_nil in Hv. }
      intros i Hi. exists sample_type. assert (i = 0) as -> by (simpl in Hi; lia). done.
    + intros v Hv. repeat (apply elem_of_cons in Hv as [->|Hv]; [by split|]). by apply elem_of_nil in Hv.
  - intros p t c [-> ->]%Hc [= <-]. by split.
Qed.

Definition sample_annotated : turbowasm_validation_function :=
  default sample_function (turbowasm_validation_context_function sample_outcome.1.2 0).

(** A call with the argument 5: no memories, no store of the collector, no execution control. *)
Definition sample_call : @istate unit :=
  mk_istate (Memory.Memory.mk_machine (mk_reader None None) (mk_exec (mk_stack [] 0) TRAP_NONE) []) (mk_controls [] 0)
    [] false false None tt.

Abbreviation no_foreign := (fun (_ : ptr) (_ : Z) (_ : option nat) => false).

Abbreviation sample_run :=
  (turbowasm_exec_function sample_body sample_heap sample_context sample_annotated sample_type 0 (fun _ => true) 32 64 1 None no_foreign
    (fun _ => true) 32 [VI32 5] 1 0 20 sample_call).

(** The condition is not zero, so the body takes the then branch and returns 1. *)
Lemma sample_run_result : fst sample_run = inr [VI32 1].
Proof. vm_compute. reflexivity. Qed.

Lemma sample_body_accepted : turbowasm_validate_function_body sample_body (fun _ => true) (fun _ => true) sample_heap
    (turbowasm_reader_init (Some 0) 12) sample_context 0 = (TURBOWASM_OK, sample_outcome.1.2, sample_outcome.2).
Proof. vm_compute. reflexivity. Qed.

Lemma sample_found : turbowasm_validation_context_function sample_outcome.1.2 0 = Some sample_annotated.
Proof. vm_compute. reflexivity. Qed.

Lemma sample_callable : callable sample_context sample_context 0 None sample_call.
Proof.
  constructor; [|exact (conj eq_refl eq_refl)|exact eq_refl|done].
  split; [intros ? ? ?; discriminate|]. intros i m _ Hm. unfold at_index in Hm. simpl in Hm. by destruct (i >=? _).
Qed.

Lemma sample_arguments : arguments_ok sample_heap sample_type sample_context 0 None no_foreign [VI32 5] 1.
Proof.
  constructor; [|constructor; [by eexists|constructor]|vm_compute; discriminate].
  change (param_semantics sample_type) with [i32_type]. constructor; [|constructor]. split; [reflexivity|discriminate].
Qed.

Lemma accepted_bodies_are_safe_witness : fst sample_run = inr [VI32 1] /\
  Forall2 (fun v ty => turbowasm_value_matches_semantic sample_heap sample_context None (self 0) no_foreign v ty = true) [VI32 1] (result_semantics sample_type).
Proof.
  pose proof (accepted_bodies_are_safe sample_body (fun _ => true) (fun _ => true) sample_heap (turbowasm_reader_init (Some 0) 12)
    sample_context 0 sample_outcome.1.2 sample_outcome.2 sample_function sample_type sample_annotated sample_context 0%nat
    (fun _ => true) 32 64 1%nat None no_foreign (fun _ => true) 32 [VI32 5] 1 0 20%nat sample_call call_heap_wf ltac:(vm_compute; discriminate) ltac:(lia)
    eq_refl eq_refl eq_refl sample_body_accepted sample_found sample_callable sample_arguments) as Hs.
  split; [exact sample_run_result|]. rewrite sample_run_result in Hs. exact Hs.
Defined.

(** ** References of the collector as externrefs *)

(** [(func (param externref externref) (result externref) local.get 0 local.set 1 local.get 1)] *)
Definition externref_type : turbowasm_validation_value_type := turbowasm_validation_value_type_legacy 0x6f.
Definition assign_type : turbowasm_validation_func_type :=
  mk_func_type true [0x6f; 0x6f] [externref_type; externref_type] [0x6f] [externref_type] TYPE_FUNCTION [] true UINT32_MAX None
    (Some 0%nat) 1 0 0 (Some 0%nat).
Definition assign_body : list Z := [0x00; 0x20; 0x00; 0x21; 0x01; 0x20; 0x01; 0x0b].
Definition assign_outcome :=
  turbowasm_validate_function_body assign_body (fun _ => true) (fun _ => true) [assign_type] (turbowasm_reader_init (Some 0) 8) sample_context 0.
Definition assign_function : turbowasm_validation_function :=
  default sample_function (turbowasm_validation_context_function assign_outcome.1.2 0).

(** A store with one object, and a reference to it. *)
Definition one_object : turbowasm_store_impl := mk_gc 4096 true 1 16 4096 0 0 0 [mk_slot (Some (mk_object None [])) 1].
Definition managed : turbowasm_value := VManagedExternref (mk_gcref 4096 (1 ≪ 32 .| 1)).

(** The body is valid and the arguments are externrefs, but assigning the reference to
    the other parameter is refused: the interpreter compares the kinds of the values. *)
Theorem managed_externref_not_assigned :
  assign_outcome.1.1 = TURBOWASM_OK /\
  forallb (fun v => turbowasm_value_matches_semantic [assign_type] sample_context (Some one_object) 1 no_foreign v externref_type)
    [managed; VExternref (mk_externref true 0)] = true /\
  fst (turbowasm_exec_function assign_body [assign_type] sample_context assign_function assign_type 0 (fun _ => true) 32 64 1 (Some one_object)
    no_foreign (fun _ => true) 32 [managed; VExternref (mk_externref true 0)] 1 0 20 sample_call) = inl (Returned TURBOWASM_TYPE_MISMATCH).
Proof. vm_compute. repeat split; reflexivity. Qed.

End Soundness.
