(* ===== verification/ModuleSafety.v ===== *)
(** * Loading and running a module

    The chain from the bytes of a module to a call: a module that loads has had
    every body validated, and a function with a validated body is safe to call. *)

From S2P Require Import Prelude Reader Value Types TypeEq TypeReader Context ExecStack Numeric Memory Semantic.
From S2P Require Import Validator ValidatorSteps ValidatorRun Sections Loading Modules.
From S2P Require Import InterpBlocks Interp InterpFuel InterpSim InterpData InterpControl InterpSound Soundness.

Module ModuleSafety.
Import Semantic Interp Reader Value Types TypeEq TypeReader ExecStack Context ValidatorRun Sections Loading Modules InterpBlocks
  InterpFuel InterpSim InterpData InterpControl InterpSound Soundness.

(** ** The context a body was validated in, and the one of the module *)

Lemma mem_ok_memories c c' inst w : items (memories c') = items (memories c) -> mem_ok c inst w -> mem_ok c' inst w.
Proof.
  intros Hm [H1 H2]. split; [done|]. intros i m Hi. unfold at_index, count. rewrite Hm. by apply H2.
Qed.

Lemma callable_context {host} c c' ictx inst gc (x : @istate host) : types_base (types c') = types_base (types c) ->
  type_count (types c') = type_count (types c) -> items (memories c') = items (memories c) ->
  count (functions c') = count (functions c) -> callable c ictx inst gc x -> callable c' ictx inst gc x.
Proof.
  intros Hb Ht Hm Hf [C1 [C2 C2'] C3 C4]. split; try done; [by eapply mem_ok_memories|split|]; congruence.
Qed.

(** A function of the module is safe to call in the context of the module. *)
Lemma validated_safe {host} buf vrealloc vmalloc H c i F inst realloc_ok sizeof_value sizeof_frame suspensions gc foreign calloc_ok sizeof_source
    (x : @istate host) :
  heap_wf H -> type_count (types c) <= UINT32_MAX -> validated buf vrealloc vmalloc H c (Z.of_nat i) ->
  items (functions c) !! i = Some F -> callable c c inst gc x ->
  exists t, type_at H c (function_type_index F) = Some t /\
    forall arguments result_capacity depth n, arguments_ok H t c inst gc foreign arguments result_capacity ->
    call_outcome H t c inst gc foreign x (fst (turbowasm_exec_function buf H c F t inst realloc_ok sizeof_value sizeof_frame suspensions gc foreign
      calloc_ok sizeof_source arguments result_capacity depth n x)).
Proof.
  intros Hwf Hn (ctx & body & F' & t & f & locals & sem & r & s0 & s1 & s2 & Hr & Hc & HF & Hb & Hty & Hm & Hfs) HF' Hx.
  rewrite Nat2Z.id, HF' in HF. injection HF as <-. exists t. split.
  - pose proof (ar_type _ _ _ _ _ _ _ _ _ _ _ _ _ _ _ _ Hr) as Ht. pose proof (ar_function _ _ _ _ _ _ _ _ _ _ _ _ _ _ _ _ Hr) as Hf.
    unfold turbowasm_validation_context_function_type in Ht. unfold turbowasm_validation_context_function in Hf. rewrite Hf in Ht.
    rewrite (ar_result _ _ _ _ _ _ _ _ _ _ _ _ _ _ _ _ Hr). simpl in *. by rewrite <- (type_at_types H c ctx).
  - intros arguments result_capacity depth n Hargs. eapply call_safe; [done|exact Hr|done|by rewrite Hty| |done]. by eapply callable_context.
Qed.

(** ** Properties *)


(** ** Witness *)

(** [(module (func (export "f") (param i32) (result i32) local.get 0 i32.const 1 i32.add))] *)
Definition increment_module : list Z :=
  [0; 0x61; 0x73; 0x6d; 1; 0; 0; 0; 1; 6; 1; 0x60; 1; 0x7f; 1; 0x7f; 3; 2; 1; 0; 7; 5; 1; 1; 0x66; 0; 0;
   0x0a; 9; 1; 7; 0; 0x20; 0; 0x41; 1; 0x6a; 0x0b].

Abbreviation increment_load := (turbowasm_module_load_borrowed_with_config increment_module (fun _ => true) (fun _ => true)
  (fun _ => true) 100 false (Some 0) 38 None).

Definition increment_loaded : turbowasm_module_impl :=
  default (mk_module None 0 default_config [] empty_context zero_summary) increment_load.2.

Definition increment_function : turbowasm_validation_function :=
  default (mk_function 0 true [] [] None 0 [] 0) (items (functions (validation increment_loaded)) !! 0%nat).

Definition increment_type : turbowasm_validation_func_type :=
  default sample_type (type_at (module_types increment_loaded) (validation increment_loaded) 0).

Lemma increment_facts : increment_load = (TURBOWASM_OK, Some increment_loaded) /\
  items (functions (validation increment_loaded)) !! 0%nat = Some increment_function /\
  function_imported increment_function = false /\ memories (validation increment_loaded) = empty_vec /\
  type_at (module_types increment_loaded) (validation increment_loaded) (function_type_index increment_function) = Some increment_type.
Proof. vm_compute. repeat split; reflexivity. Qed.

Lemma increment_callable : callable (validation increment_loaded) (validation increment_loaded) 0 None sample_call.
Proof.
  destruct increment_facts as (_ & _ & _ & Hm & _).
  constructor; [|exact (conj eq_refl eq_refl)|exact eq_refl|done].
  split; [intros ? ? ?; discriminate|]. intros i mem _ E. rewrite Hm in E. unfold at_index in E. simpl in E. by destruct (i >=? _).
Qed.

Lemma increment_semantics : param_semantics increment_type = [i32_type] /\ result_count increment_type = 1.
Proof. vm_compute. repeat split; reflexivity. Qed.

Lemma increment_arguments : arguments_ok (module_types increment_loaded) increment_type (validation increment_loaded) 0 None no_foreign [VI32 5] 1.
Proof.
  destruct increment_semantics as [Hp Hr]. constructor; [|constructor; [by eexists|constructor]|by rewrite Hr].
  rewrite Hp. constructor; [|constructor]. split; [reflexivity|discriminate].
Qed.

Abbreviation increment_run := (turbowasm_exec_function increment_module (module_types increment_loaded) (validation increment_loaded)
  increment_function increment_type 0 (fun _ => true) 32 64 1 None no_foreign (fun _ => true) 32 [VI32 5] 1 0 20 sample_call).

Lemma increment_result : fst increment_run = inr [VI32 6].
Proof. vm_compute. reflexivity. Qed.


End ModuleSafety.
